(* ===== verification/_CoqProject ===== *)
-Q . S2P
Prelude.v
Arith.v
Bytes.v
Compact.v
Sha256.v
Sha256D64.v
Sha256D64Props.v
Block.v
ChainParams.v
BlockIndex.v
Chain.v
Pow.v
RandomX.v
Validation.v
ChainSelector.v
BlockManager.v
SameTree.v
Persist.v
PersistProps.v
Chainstate.v
OrphanPool.v
Accept.v
Activation.v
NodeChecks.v
Reorg.v
ChainstateProps.v
Invalidate.v
Miner.v
MinerProps.v
Protocol.v
Message.v
MessageProps.v
Frame.v
TimeData.v
Misbehavior.v
HeaderSync.v
HeaderSyncProps.v
SyncPeers.v
Peer.v
PeerStream.v
PeerProps.v
AddrMan.v
AddrManProps.v
Discovery.v
DiscoveryProps.v
Relay.v
RelayProps.v
Ban.v
BanProps.v
Lifecycle.v
LifecycleProps.v
Anchors.v
Node.v
NodeProps.v
Restart.v
Notify.v
NotifyProps.v
Locks.v
LocksProps.v
Clock.v
Rpc.v
RpcProps.v
Transport.v
TransportProps.v
