(* ===== verification/Prelude.v ===== *)
(** * A verification of the Coinbase Chain headers node

    Coinbase Chain is a proof-of-work chain of headers without transactions.  A node keeps a tree of
    headers, follows the branch with most work, and exchanges headers with its peers.  This library
    models the node's C++ code (under [src/], in [include/] and [src/]) as executable functions and
    proves what makes it correct.

    ** The parts of the program and the files that model them

    Numbers, bytes and hashes.
    - [Prelude]: machine integers with their wrap-around, [for_blocks], generic lemmas, hints.
    - [Arith] (util/arith_uint256): the little-endian 32-bit limbs of the 256- and 512-bit integers and
      their operations ([Module Limb]), refined to arithmetic modulo a power of two ([au_add], ...).
    - [Bytes] (util/uint, chain/endian): [Module Blob] for [base_blob], [Module Endian] for the byte-order
      helpers on both kinds of host.
    - [Compact] (util/arith_uint256, chain/block_index): compact targets, block proofs, work.
    - [Sha256] (util/sha256): the streaming hasher with the unrolled compression function; [Sha256D64]: the double
      hash of 64-byte blobs with precomputed constants, the self test and the choice of an implementation, theorems
      in [Sha256D64Props].

    The chain.
    - [Block] (chain/block): headers, their wire format and hash.
    - [ChainParams] (chain/chainparams): the three networks and their genesis blocks.
    - [BlockIndex] (chain/block_index): index entries ([Module Idx]), ancestors by skip pointers, median time
      past, common ancestors.  A [CBlockIndex*] is the key (the hash) of the entry in the index, a [gmap];
      a null pointer is [None]; [deref] reads a field.
    - [Chain] (chain/chain): the active chain as the vector of its blocks, and locators.
    - [Pow] (chain/pow): ASERT difficulty adjustment and the required difficulty.
    - [RandomX] (chain/randomx_pow, [CheckProofOfWork] of chain/pow): epochs, the thread's cache of virtual
      machines, commitments, verification modes.
    - [Validation] (chain/validation): header checks without and with context, batch checks, the threshold of
      work.
    - [ChainSelector] (chain/chain_selector): the candidate set ordered by work.
    - [BlockManager] (chain/block_manager): insertion into the index, initialisation, continuity;
      [SameTree] compares indexes that differ in status only; [Persist] is saving and loading, [PersistProps]
      its theorems.
    - [Chainstate], [Activation] (chain/chainstate_manager): the state of the node and its operations:
      acceptance of a header with the orphans that wait for it ([Module CS]); candidates, activation,
      reorganisation, invalidation and loading ([Module Act]).
    - [OrphanPool], [Accept], [NodeChecks], [Reorg], [ChainstateProps], [Invalidate]: their theorems.
    - [TimeData] (chain/timedata): network-adjusted time.
    - [Miner] (chain/miner): the worker thread as a step function over its program points, next to the steps of the
      other threads ([Start], [Stop], new headers); theorems in [MinerProps].

    The network.
    - [Protocol] (network/protocol): constants, message headers, addresses.
    - [Message] (network/message): variable-length integers, serializer, deserializer, the nine payloads,
      the frame; [MessageProps] and [Frame] are the theorems.
    - [Misbehavior] (network/misbehavior_manager, peer_misbehavior.hpp): scores and punishments.
    - [HeaderSync] (network/header_sync_manager): the sync peer, requests, and the handlers of HEADERS and
      GETHEADERS on the chain state; [HeaderSyncProps] and [SyncPeers] are the theorems.
    - [Peer] (network/peer, connection_types): one connection as a state machine, each callback a step
      that returns the peer and the list of its effects; [PeerStream] (received data) and [PeerProps] (reachable
      states, handshake, timeouts) are the theorems.
    - [AddrMan] (network/addr_manager): the tables of addresses, selection, persistence; theorems in
      [AddrManProps].
    - [Discovery] (network/peer_discovery_manager): the handlers of ADDR and GETADDR, and the callbacks for peers that
      come and go; theorems in [DiscoveryProps].
    - [Relay] (network/block_relay_manager): announcement queues, relay of blocks and the handler of INV; theorems in
      [RelayProps].
    - [Ban] (network/ban_manager): bans with their file, discouraged addresses; theorems in [BanProps].
    - [Lifecycle] (network/peer_lifecycle_manager, [connect_to] of network/network_manager): the shared per-peer state
      with the peer objects of [Peer], admission, eviction, removal, dialling and maintenance, with the notifications
      to [Discovery] and the calls of [AddrMan] and [Ban] inside; theorems in [LifecycleProps].
    - [Anchors] (network/anchor_manager): the outbound peers remembered over a restart.
    - [Transport] (network/real_transport): the functions and completion handlers of a TCP connection ([Module Tcp]) and of the listening
      transport ([Module Listener]), and a connection with its posted tasks, pending operations and the bytes taken by the
      network ([Module Wire]); theorems in [TransportProps].

    The node.
    - [Node] (network/network_manager, message_dispatcher, blockchain_sync_manager, the callbacks of application):
      [NetworkManager] holds the chain state and all managers; [Net.handle_message] routes each message to its handler,
      and the periodic tasks, start, stop and the chain's events are operations on the whole state.  Theorems in [NodeProps]
      and [Restart].
    - [Notify] (chain/notifications, network/notifications): the registry of callbacks and its subscription
      handles; theorems in [NotifyProps].
    - [Locks] (chain/chainstate_manager, chain/notifications): what each call locks and unlocks, and threads that interleave
      such calls; theorems in [LocksProps].
    - [Clock] (util/time): system and steady time with mock time.
    - [Rpc] (network/rpc_server): parsing, escaping and the commands ([Module RpcParse], [Module Rpc]) on the
      state of node and miner; theorems in [RpcProps].

    ** How the code is represented

    Definitions keep the names of the C++ functions.  A stateful function takes and returns the record of its
    object.  A mutex makes an operation one step (except in [Locks], where the
    locks themselves are the subject); the network code runs on one thread.  What a callback reads from outside (clocks,
    random numbers, the outcome of writes) is an argument, in [Node] collected in the record [Readings].  The outer [option]
    of a function is a failure of the program: an exception, a failed assertion, or exhausted fuel; an error the
    code reports is a value ([false], a null pointer, a [ValidationState]).  Assertions count as enabled, also where a release build
    would go on ([Life.HandleVerack]).  Integers keep their width; signed overflow, undefined in C++, wraps around ([Bans.Ban]).
    A function that waits for a thread is cut where it waits ([Mine.Start_launch], [Rpc.HandleGenerate]).
    The clock is an argument.  Notifications and messages are lists of events.

    Code outside the repository is an interface: [RandomXLib] (the RandomX library), [Lanes] with [LawfulLanes] (hashing with
    special instructions), [BoostAsio] (text of network
    addresses), [Random] and [HashOrder] (random numbers and the order of unordered maps), and [HeaderChecks] (the virtual
    check functions of the chain state, which tests override);
    [LawfulChecks] states what acceptance needs from the latter, and [NodeChecks] proves it of the node's own checks.

    ** What the theorems show

    - Arithmetic: the limb algorithms are arithmetic modulo 2^w, division included; compact targets
      decode and encode exactly; work is floor(2^256 / (target + 1)).
    - Hashes: the hasher computes SHA-256 as FIPS 180-4 defines it however its input is split, and the optimised double hash
      equals two runs of it, whichever implementation is chosen.
    - Codecs: headers and all messages survive the round trip through their frames; decoding accepts
      exactly well-formed inputs within the protocol's limits and never reads outside its buffer.
    - Difficulty: the ASERT computation equals its specification over the integers, without overflow, and always
      gives a valid target within the limit.
    - Index and chain: insertion preserves the invariant of the tree (heights, skip pointers,
      accumulated work); skip-pointer walks, common ancestors and the active chain equal their
      definitions by parent links.
    - Node: a header enters the index exactly when it obeys the consensus rules; every operation terminates and keeps
      the invariant; activation moves to a candidate with most work unless the reorganisation is too
      deep, and reports exactly the blocks disconnected and connected; orphans are bounded; an
      invalidated block and its descendants leave the active chain; a saved index is loaded unchanged (up to the height that
      the loader checks).  [orphan_child_stalls_tip] is a defect: an orphan accepted with its parent leaves the tip behind.
    - Time: the offset is the median of the samples and one peer cannot move it beyond the limit.
    - Synchronisation: answers are consecutive headers of the active chain that connect to what the requester
      knows; no HEADERS message breaks the invariant or lowers the work of the tip; a stalled sync peer is replaced (until the first
      shutdown); invalid work is punished.
    - Connections: the messages a peer handles do not depend on how the transport splits the stream, and are
      those the other side sent; two peers complete the handshake; in every reachable state the buffer is
      bounded and an open connection has a timeout running.  A TCP connection puts what it accepted on the wire, in
      order and with a bounded queue; [transport_delivers] also says which two handlers are defective.
    - Addresses and relay: the address tables stay disjoint and well-formed and survive saving and loading; a GETADDR
      answer is bounded, without duplicates, given once, and does not echo what the node remembers the requester told; tips and blocks are
      announced to every ready peer, in bounded messages, once; an INV asks for headers exactly when it should.
    - The whole node: in every state it reaches by messages, connections, timers, start, stop and mined blocks, in any
      order, the chain's invariant and the connection limits hold and the tip never loses work; every message
      is handled, and only VERSION is looked at before the handshake.  [feeler_verack_aborts] is a defect: the VERACK of a feeler fails an
      assertion.
    - Threads: calls into the chain state never block each other as long as none notifies with the validation mutex held;
      [lock_order_deadlock] shows that the two that do can deadlock.  Subscription handles refine ownership of
      callbacks.
    - Mining: a block the miner finds is accepted exactly under the conditions that depend on the clock and the state it did
      not see, and its template is invalidated when the tip moves; a stopped worker ends within six steps.  [expired_miner_spins] and [start_during_stop_hangs] are defects.
    - Commands: no request breaks the node's invariants, at any of the points where it waits; the block queries agree with the chain; [setban] does what it answers,
      short of overflow.  [user_agent_injected] is a defect.
    - Restarts: anchors survive one; [restart_never_syncs] shows that a network manager started again does not synchronise.
    - Peers: connection limits hold in every reachable state; eviction picks the worst inbound peer; a misbehaving peer is
      removed and kept out for a day; bans survive a restart. [dialled_address_good] shows a defect: a dialled address is
      taken for a good one before the connection has succeeded.

    ** Fuel

    Recursion that is not structural carries fuel, and the theorems prove it sufficient: acceptance
    with orphans uses one more than the size of the pool (each nested acceptance removes an orphan);
    activation uses two more than the number of candidates (each failed round removes one); walks along
    parents use the height; the continuity check uses the size of the index below the code's own limit
    of 1,000,000 steps.

    ** Not modelled

    The operations of Boost.Asio (their outcomes are arguments in [Transport]), NAT traversal, the command-line client, files and the text of JSON (input and output; booleans and floating-point
    numbers in a file); the locks and
    threads of the network side; logging and floating-point displays (their text is a parameter of [Rpc]); the
    capacity of vectors; the command line, start-up and shut-down of the process. *)
From Stdlib Require Export ZArith Lia.
From stdpp Require Export base tactics numbers option list.

#[global] Open Scope Z_scope.
#[export] Set Warnings "-clear-no-such-hyp".

(** ** Machine integers

    A C++ unsigned integer of width [w] is a [Z] in [[0, 2^w)]; the wrap-around
    of its arithmetic is written out with the functions below.  Signed integers
    are [Z] in [[-2^(w-1), 2^(w-1))]. *)

Definition u8 (x : Z) : Z := x mod 2 ^ 8.
Definition u16 (x : Z) : Z := x mod 2 ^ 16.
Definition u32 (x : Z) : Z := x mod 2 ^ 32.
Definition u64 (x : Z) : Z := x mod 2 ^ 64.

(** Two's-complement reading of the low [w] bits (a narrowing conversion to a
    signed type, as C++20 defines it). *)
Definition to_signed (w x : Z) : Z :=
  let m := x mod 2 ^ w in if m <? 2 ^ (w - 1) then m else m - 2 ^ w.
Definition i32 (x : Z) : Z := to_signed 32 x.
Definition i64 (x : Z) : Z := to_signed 64 x.

Definition in_u (w x : Z) : Prop := 0 <= x < 2 ^ w.
Definition in_s (w x : Z) : Prop := - 2 ^ (w - 1) <= x < 2 ^ (w - 1).

Create HintDb machine.

(** Linear arithmetic with division and remainder by constants. *)
Ltac zlia := Z.div_mod_to_equations; lia.

(** Replace closed powers of two by their numerals everywhere. *)
Ltac pow2 :=
  repeat match goal with
  | |- context [2 ^ ?n] =>
      let v := eval vm_compute in (2 ^ n) in
      match v with Zpos _ => change (2 ^ n) with v end
  | H : context [2 ^ ?n] |- _ =>
      let v := eval vm_compute in (2 ^ n) in
      match v with Zpos _ => change (2 ^ n) with v in H end
  end.

Lemma land_mask32 x : Z.land x 4294967295 = x mod 2 ^ 32.
Proof. change 4294967295 with (Z.ones 32). by rewrite Z.land_ones. Qed.

Lemma u32_range x : in_u 32 (u32 x).
Proof. apply Z.mod_pos_bound. lia. Qed.
Lemma u64_range x : in_u 64 (u64 x).
Proof. apply Z.mod_pos_bound. lia. Qed.
Lemma u32_id x : in_u 32 x -> u32 x = x.
Proof. apply Z.mod_small. Qed.
Lemma u64_id x : in_u 64 x -> u64 x = x.
Proof. apply Z.mod_small. Qed.
Lemma i32_id x : in_s 32 x -> i32 x = x.
Proof.
  unfold i32, to_signed, in_s; pow2; intros H. cbv zeta.
  destruct (Z.ltb_spec (x mod 4294967296) 2147483648); zlia.
Qed.
Lemma i32_range x : in_s 32 (i32 x).
Proof.
  unfold i32, to_signed, in_s; pow2. cbv zeta.
  destruct (Z.ltb_spec (x mod 4294967296) 2147483648); zlia.
Qed.
Lemma i32_u32 x : in_s 32 x -> i32 (u32 x) = x.
Proof.
  unfold i32, u32, to_signed, in_s; pow2; intros H. cbv zeta.
  rewrite Z.mod_mod by lia.
  destruct (Z.ltb_spec (x mod 4294967296) 2147483648); zlia.
Qed.
Lemma i64_id x : in_s 64 x -> i64 x = x.
Proof.
  unfold i64, to_signed, in_s; pow2; intros H. cbv zeta.
  destruct (Z.ltb_spec (x mod 18446744073709551616) 9223372036854775808); zlia.
Qed.

(** Or-ing a shifted value over a smaller one is an addition. *)
Lemma lor_shifted a b k : 0 <= k -> 0 <= a < 2 ^ k -> Z.lor a (b * 2 ^ k) = a + b * 2 ^ k.
Proof.
  intros Hk Ha. symmetry. rewrite Z.add_nocarry_lxor, Z.lxor_lor; try done;
    (apply Z.bits_inj'; intros n Hn; rewrite Z.land_spec, Z.bits_0;
     destruct (Z.lt_ge_cases n k);
     [rewrite Z.mul_pow2_bits_low by lia; apply andb_false_r
     |rewrite <- (Z.mod_small a (2 ^ k)), Z.mod_pow2_bits_high by lia; done]).
Qed.

(** Masking out a field of [w] bits at position [k]. *)
Lemma land_field x w k : 0 <= w -> 0 <= k ->
  Z.land x (Z.ones w * 2 ^ k) = (x / 2 ^ k) mod 2 ^ w * 2 ^ k.
Proof.
  intros Hw Hk.
  rewrite <- Z.shiftl_mul_pow2, <- Z.land_ones, <- Z.shiftr_div_pow2, <- Z.shiftl_mul_pow2 by lia.
  apply Z.bits_inj'. intros n Hn. rewrite Z.land_spec, !Z.shiftl_spec by lia.
  destruct (Z.lt_ge_cases n k).
  - rewrite !(Z.testbit_neg_r _ (n - k)) by lia. apply andb_false_r.
  - rewrite Z.land_spec, Z.shiftr_spec by lia. do 2 f_equal. lia.
Qed.

Lemma land_byte_at x k : 0 <= k -> Z.land x (255 * 2 ^ k) = (x / 2 ^ k) mod 2 ^ 8 * 2 ^ k.
Proof. by apply (land_field x 8). Qed.

#[export] Hint Resolve u32_range u64_range : machine.
