(* ===== verification/Arith.v ===== *)
(** * Arith: the limb-level big integers of [util/arith_uint256.hpp/.cpp]

    [base_uint<BITS>] keeps [WIDTH = BITS/32] 32-bit digits, least significant
    first.  A value is a list of limbs; every operator is translated loop by
    loop and shown to compute the corresponding operation on [Z] modulo
    [2^BITS].  The interface [ArithUint] states what the clients (the compact
    encoding, block proofs, ASERT) rely on; it is discharged both by the limbs
    and by plain [Z] with wrap-around, which the block-tree components use. *)
From S2P Require Import Prelude.

(** The digits, least significant first. *)
Abbreviation limbs := (list Z).

Definition limb_ok (x : Z) : Prop := 0 <= x < 2 ^ 32.

Definition limbs_wf (W : nat) (a : limbs) : Prop := length a = W /\ Forall limb_ok a.

(** The number a limb list denotes. *)
Fixpoint eval (a : limbs) : Z :=
  match a with [] => 0 | x :: a' => x + 2 ^ 32 * eval a' end.

Definition modulus (W : nat) : Z := 2 ^ (32 * Z.of_nat W).

Module Limb.

(** [base_uint()] and the [uint64_t] constructor / assignment. *)
Definition zero (W : nat) : limbs := replicate W 0.

Definition of_u64 (W : nat) (b : Z) : limbs :=
  u32 b :: u32 (Z.shiftr b 32) :: replicate (W - 2) 0.

(** [operator~] : complement of every digit. *)
Definition lnot (a : limbs) : limbs := (fun x => 2 ^ 32 - 1 - x) <$> a.

(** [operator++] : increment digits while they become zero. *)
Fixpoint incr (a : limbs) : limbs :=
  match a with
  | [] => []
  | x :: a' => let x' := u32 (x + 1) in if x' =? 0 then x' :: incr a' else x' :: a'
  end.

(** [operator--]. *)
Fixpoint decr (a : limbs) : limbs :=
  match a with
  | [] => []
  | x :: a' => let x' := u32 (x - 1) in if x' =? 2 ^ 32 - 1 then x' :: decr a' else x' :: a'
  end.

(** [operator-] (unary): complement, then increment. *)
Definition neg (a : limbs) : limbs := incr (lnot a).

(** [operator^=], [operator&=], [operator|=]. *)
Definition lxor (a b : limbs) : limbs := zip_with Z.lxor a b.
Definition land (a b : limbs) : limbs := zip_with Z.land a b.
Definition lor (a b : limbs) : limbs := zip_with Z.lor a b.

(** [operator+=] : the loop over the digits with its 64-bit carry. *)
Fixpoint add_loop (carry : Z) (a b : limbs) : limbs :=
  match a, b with
  | x :: a', y :: b' =>
      let n := u64 (carry + x + y) in
      Z.land n 4294967295 :: add_loop (Z.shiftr n 32) a' b'
  | _, _ => []
  end.
Definition add (a b : limbs) : limbs := add_loop 0 a b.

(** [operator-=] : [*this += -b]. *)
Definition sub (a b : limbs) : limbs := add a (neg b).

(** [operator*=(uint32_t)]. *)
Fixpoint mul32_loop (carry b32 : Z) (a : limbs) : limbs :=
  match a with
  | [] => []
  | x :: a' =>
      let n := u64 (carry + u64 (b32 * x)) in
      Z.land n 4294967295 :: mul32_loop (Z.shiftr n 32) b32 a'
  end.
Definition mul32 (a : limbs) (b32 : Z) : limbs := mul32_loop 0 b32 a.

(** [operator*=(base_uint)] : [mul_row] is the inner loop for one digit [pnj]
    on the suffix [a.pn[j..]] of the accumulator, [mul_rows] the outer loop. *)
Fixpoint mul_row (carry pnj : Z) (a b : limbs) : limbs :=
  match a, b with
  | x :: a', y :: b' =>
      let n := u64 (carry + x + u64 (pnj * y)) in
      Z.land n 4294967295 :: mul_row (Z.shiftr n 32) pnj a' b'
  | _, _ => []
  end.
Fixpoint mul_rows (pn a b : limbs) : limbs :=
  match pn with
  | [] => a
  | pnj :: pn' =>
      match mul_row 0 pnj a b with
      | [] => []
      | h :: t => h :: mul_rows pn' t b
      end
  end.
Definition mul (pn b : limbs) : limbs := mul_rows pn (zero (length pn)) b.

(** [operator<<=]: every digit of the copy [a] is or-ed, shifted, into two
    digits of the cleared result. *)
Definition shl_step (W : nat) (a : limbs) (k : nat) (shift : Z) (pn : limbs) (i : nat) : limbs :=
  let ai := nth i a 0 in
  let pn1 := if (i + k + 1 <? W)%nat && negb (shift =? 0)
             then alter (fun d => Z.lor d (Z.shiftr ai (32 - shift))) (i + k + 1)%nat pn
             else pn in
  if (i + k <? W)%nat
  then alter (fun d => Z.lor d (u32 (Z.shiftl ai shift))) (i + k)%nat pn1
  else pn1.
Definition shl (a : limbs) (shift : Z) : limbs :=
  let W := length a in
  let k := Z.to_nat (shift / 32) in
  foldl (shl_step W a k (shift mod 32)) (zero W) (seq 0 W).

(** [operator>>=]. *)
Definition shr_step (a : limbs) (k : nat) (shift : Z) (pn : limbs) (i : nat) : limbs :=
  let ai := nth i a 0 in
  let pn1 := if (k + 1 <=? i)%nat && negb (shift =? 0)
             then alter (fun d => Z.lor d (u32 (Z.shiftl ai (32 - shift)))) (i - k - 1)%nat pn
             else pn in
  if (k <=? i)%nat
  then alter (fun d => Z.lor d (Z.shiftr ai shift)) (i - k)%nat pn1
  else pn1.
Definition shr (a : limbs) (shift : Z) : limbs :=
  let W := length a in
  let k := Z.to_nat (shift / 32) in
  foldl (shr_step a k (shift mod 32)) (zero W) (seq 0 W).

(** [CompareTo]: the digits from the most significant one down. *)
Fixpoint cmp_loop (a b : limbs) : Z :=
  match a, b with
  | x :: a', y :: b' => if x <? y then -1 else if y <? x then 1 else cmp_loop a' b'
  | _, _ => 0
  end.
Definition CompareTo (a b : limbs) : Z := cmp_loop (rev a) (rev b).

(** [EqualTo(uint64_t)]. *)
Definition EqualTo (a : limbs) (b : Z) : bool :=
  forallb (fun x => x =? 0) (drop 2 a) &&
  (nth 1 a 0 =? Z.shiftr b 32) && (nth 0 a 0 =? Z.land b 4294967295).

(** [bits()]: highest non-zero digit, then its highest set bit. *)
Fixpoint top_bit (x : Z) (nbits : nat) : Z :=
  match nbits with
  | O => 1
  | S n => if Z.testbit x (Z.of_nat nbits) then Z.of_nat nbits + 1 else top_bit x n
  end.
Fixpoint bits_loop (a : limbs) (pos : nat) : Z :=
  match pos with
  | O => 0
  | S p =>
      let x := nth p a 0 in
      if negb (x =? 0) then 32 * Z.of_nat p + top_bit x 31 else bits_loop a p
  end.
Definition bits (a : limbs) : Z := bits_loop a (length a).

(** [operator/=]: restoring division; [div_loop] is the [while (shift >= 0)]
    loop, [S n] standing for [shift = n].  [None] is the thrown [uint_error]. *)
Fixpoint div_loop (n : nat) (quo num div : limbs) : limbs :=
  match n with
  | O => quo
  | S shift =>
      let '(num', quo') :=
        if 0 <=? CompareTo num div
        then (sub num div, alter (fun d => Z.lor d (u32 (Z.shiftl 1 (Z.of_nat shift mod 32)))) (shift / 32)%nat quo)
        else (num, quo) in
      div_loop shift quo' num' (shr div 1)
  end.
Definition div (a b : limbs) : option limbs :=
  let num_bits := bits a in
  let div_bits := bits b in
  if div_bits =? 0 then None
  else if num_bits <? div_bits then Some (zero (length a))
  else let shift := num_bits - div_bits in
       Some (div_loop (S (Z.to_nat shift)) (zero (length a)) a (shl b shift)).

(** [GetLow64]. *)
Definition GetLow64 (a : limbs) : Z := Z.lor (nth 0 a 0) (u64 (Z.shiftl (nth 1 a 0) 32)).

End Limb.


(** ** Values of limb lists *)

Lemma modulus_pos W : 0 < modulus W.
Proof. apply Z.pow_pos_nonneg; lia. Qed.

Lemma modulus_S W : modulus (S W) = 2 ^ 32 * modulus W.
Proof. unfold modulus. rewrite <- Z.pow_add_r by lia. f_equal. lia. Qed.

Lemma modulus_0 : modulus 0 = 1.
Proof. reflexivity. Qed.

Lemma eval_range W a : limbs_wf W a -> 0 <= eval a < modulus W.
Proof.
  intros [<- Ha]. induction Ha as [|x a Hx Ha IH]; simpl length; [by vm_compute|].
  rewrite modulus_S. unfold limb_ok in Hx. simpl eval. lia.
Qed.

Lemma limbs_wf_nil : limbs_wf 0 [].
Proof. by split. Qed.

Lemma limbs_wf_cons W x a : limb_ok x -> limbs_wf W a -> limbs_wf (S W) (x :: a).
Proof. intros ? [<- ?]. split; [done | by constructor]. Qed.

Lemma limbs_wf_cons_inv W x a : limbs_wf W (x :: a) -> exists W', W = S W' /\ limb_ok x /\ limbs_wf W' a.
Proof. intros [<- H]. apply Forall_cons in H as [? ?]. by exists (length a). Qed.

Lemma limb_mod x : limb_ok (x mod 2 ^ 32).
Proof. apply Z.mod_pos_bound. lia. Qed.

Lemma limb_u32 x : limb_ok (u32 x).
Proof. apply limb_mod. Qed.

Lemma limb_land x : limb_ok (Z.land x 4294967295).
Proof. rewrite land_mask32. apply limb_mod. Qed.

Lemma limb_0 : limb_ok 0.
Proof. unfold limb_ok. lia. Qed.

#[export] Hint Resolve limb_mod limb_u32 limb_land limb_0 limbs_wf_cons limbs_wf_nil modulus_pos : machine.

(** One digit of a carry chain. *)
Lemma mod_limb n e M : 0 < M ->
  (n + 2 ^ 32 * e) mod (2 ^ 32 * M) = n mod 2 ^ 32 + 2 ^ 32 * ((n / 2 ^ 32 + e) mod M).
Proof.
  intros HM. rewrite Z.rem_mul_r by lia.
  rewrite (Z.mul_comm (2 ^ 32) e), Z.mod_add, Z.div_add by lia. reflexivity.
Qed.

Lemma limb_of_nth a j : Forall limb_ok a -> limb_ok (nth j a 0).
Proof.
  intros H. revert j. induction H; intros [|j]; simpl; auto with machine.
Qed.

Lemma limb_above x t : limb_ok x -> 32 <= t -> Z.testbit x t = false.
Proof.
  intros [? ?] ?. rewrite <- (Z.mod_small x (2 ^ 32)) by lia. by apply Z.mod_pow2_bits_high.
Qed.

(** The bits of a number are the bits of its digits. *)
Lemma testbit_eval a j t : Forall limb_ok a -> 0 <= t < 32 ->
  Z.testbit (eval a) (32 * Z.of_nat j + t) = Z.testbit (nth j a 0) t.
Proof.
  intros Ha Ht. revert j. induction Ha as [|x a Hx Ha IH]; intros j.
  - simpl. destruct j; by rewrite !Z.bits_0.
  - simpl eval. pose proof Hx as [? ?].
    assert (Hadd : x + 2 ^ 32 * eval a = Z.lor x (Z.shiftl (eval a) 32))
      by (rewrite Z.shiftl_mul_pow2, lor_shifted by lia; lia).
    rewrite Hadd, Z.lor_spec. destruct j as [|j].
    + simpl. rewrite Z.shiftl_spec by lia. rewrite (Z.testbit_neg_r _ (_ - 32)) by lia.
      by rewrite orb_false_r.
    + rewrite limb_above by (auto; lia). rewrite Z.shiftl_spec by lia.
      simpl nth. rewrite <- IH. simpl orb. f_equal. lia.
Qed.

Lemma testbit_eval_high W a n : limbs_wf W a -> 32 * Z.of_nat W <= n -> Z.testbit (eval a) n = false.
Proof.
  intros Ha Hn. rewrite <- (Z.mod_small (eval a) (modulus W)) by by apply eval_range.
  apply Z.mod_pow2_bits_high. lia.
Qed.

(** Two numbers of the same width agree when all their digit bits do. *)
Lemma limb_split n : 0 <= n -> exists j t, n = 32 * Z.of_nat j + t /\ 0 <= t < 32.
Proof.
  intros Hn. exists (Z.to_nat (n / 32)), (n mod 32).
  rewrite Z2Nat.id by (apply Z.div_pos; lia). zlia.
Qed.

Lemma eval_zero W : eval (Limb.zero W) = 0.
Proof. induction W as [|W IH]; [done|]. unfold Limb.zero in *. simpl replicate. simpl eval. lia. Qed.

Lemma zero_wf W : limbs_wf W (Limb.zero W).
Proof.
  split; [apply length_replicate|]. apply Forall_replicate. auto with machine.
Qed.

(** ** Addition, subtraction, negation *)

Lemma shiftr32 n : Z.shiftr n 32 = n / 2 ^ 32.
Proof. by rewrite Z.shiftr_div_pow2 by lia. Qed.

Lemma add_loop_spec W c a b : 0 <= c < 2 ^ 32 -> limbs_wf W a -> limbs_wf W b ->
  limbs_wf W (Limb.add_loop c a b) /\
  eval (Limb.add_loop c a b) = (c + eval a + eval b) mod modulus W.
Proof.
  revert c W b. induction a as [|x a IH]; intros c W [|y b] Hc Ha Hb;
    try (destruct Ha as [<- _], Hb as [Hb _]; discriminate).
  - destruct Ha as [<- _]. split; [auto with machine|]. simpl length. by rewrite modulus_0, Z.mod_1_r.
  - apply limbs_wf_cons_inv in Ha as (W' & -> & Hx & Ha).
    apply limbs_wf_cons_inv in Hb as (W'' & [= <-] & Hy & Hb).
    unfold limb_ok in Hx, Hy. cbn [Limb.add_loop eval].
    rewrite u64_id by (unfold in_u; lia). rewrite shiftr32.
    destruct (IH ((c + x + y) / 2 ^ 32) W' b) as [IHw IHv]; auto; [zlia|].
    split; [auto with machine|].
    rewrite IHv, land_mask32, modulus_S.
    replace (c + (x + 2 ^ 32 * eval a) + (y + 2 ^ 32 * eval b))
      with (c + x + y + 2 ^ 32 * (eval a + eval b)) by ring.
    rewrite mod_limb by auto with machine. by rewrite Z.add_assoc.
Qed.

Lemma add_wf W a b : limbs_wf W a -> limbs_wf W b -> limbs_wf W (Limb.add a b).
Proof. intros. by apply add_loop_spec. Qed.

Lemma eval_add W a b : limbs_wf W a -> limbs_wf W b ->
  eval (Limb.add a b) = (eval a + eval b) mod modulus W.
Proof. intros. by apply (add_loop_spec W 0). Qed.

Lemma lnot_spec W a : limbs_wf W a ->
  limbs_wf W (Limb.lnot a) /\ eval (Limb.lnot a) = modulus W - 1 - eval a.
Proof.
  revert W. induction a as [|x a IH]; intros W Ha.
  - destruct Ha as [<- _]. split; [apply limbs_wf_nil|done].
  - apply limbs_wf_cons_inv in Ha as (W' & -> & Hx & Ha).
    destruct (IH W' Ha) as [IHw IHv]. unfold Limb.lnot in *. cbn [fmap list_fmap eval].
    rewrite modulus_S, IHv. unfold limb_ok in Hx. split; [|lia].
    apply limbs_wf_cons; [unfold limb_ok; lia|done].
Qed.

Lemma incr_spec W a : limbs_wf W a ->
  limbs_wf W (Limb.incr a) /\ eval (Limb.incr a) = (eval a + 1) mod modulus W.
Proof.
  revert W. induction a as [|x a IH]; intros W Ha.
  - destruct Ha as [<- _]. split; [apply limbs_wf_nil|done].
  - apply limbs_wf_cons_inv in Ha as (W' & -> & Hx & Ha).
    destruct (IH W' Ha) as [IHw IHv]. pose proof (eval_range _ _ Ha).
    unfold limb_ok in Hx. simpl Limb.incr. cbv zeta.
    rewrite modulus_S. simpl eval.
    replace (x + 2 ^ 32 * eval a + 1) with (x + 1 + 2 ^ 32 * eval a) by ring.
    rewrite mod_limb by auto with machine. unfold u32.
    destruct (Z.eqb_spec ((x + 1) mod 2 ^ 32) 0) as [E|E].
    + assert (x = 2 ^ 32 - 1) as -> by zlia.
      split; [auto with machine|]. simpl eval. rewrite IHv.
      change ((2 ^ 32 - 1 + 1) / 2 ^ 32) with 1. by rewrite Z.add_comm with (n := 1).
    + split; [auto with machine|]. simpl eval.
      replace ((x + 1) / 2 ^ 32) with 0 by zlia. rewrite (Z.mod_small (0 + eval a)) by lia. lia.
Qed.

Lemma decr_spec W a : limbs_wf W a ->
  limbs_wf W (Limb.decr a) /\ eval (Limb.decr a) = (eval a - 1) mod modulus W.
Proof.
  revert W. induction a as [|x a IH]; intros W Ha.
  - destruct Ha as [<- _]. split; [apply limbs_wf_nil|done].
  - apply limbs_wf_cons_inv in Ha as (W' & -> & Hx & Ha).
    destruct (IH W' Ha) as [IHw IHv]. pose proof (eval_range _ _ Ha).
    unfold limb_ok in Hx. simpl Limb.decr. cbv zeta.
    rewrite modulus_S. simpl eval.
    replace (x + 2 ^ 32 * eval a - 1) with (x - 1 + 2 ^ 32 * eval a) by ring.
    rewrite mod_limb by auto with machine. unfold u32.
    destruct (Z.eqb_spec ((x - 1) mod 2 ^ 32) (2 ^ 32 - 1)) as [E|E].
    + assert (x = 0) as -> by zlia.
      split; [auto with machine|]. simpl eval. rewrite IHv.
      change ((0 - 1) / 2 ^ 32) with (-1). by rewrite Z.add_comm with (n := -1).
    + split; [auto with machine|]. simpl eval.
      replace ((x - 1) / 2 ^ 32) with 0 by zlia. rewrite (Z.mod_small (0 + eval a)) by lia. lia.
Qed.

Lemma neg_spec W a : limbs_wf W a ->
  limbs_wf W (Limb.neg a) /\ eval (Limb.neg a) = (- eval a) mod modulus W.
Proof.
  intros Ha. destruct (lnot_spec W a Ha) as [Hw Hv].
  destruct (incr_spec W _ Hw) as [Hw' Hv']. split; [done|]. unfold Limb.neg.
  rewrite Hv', Hv. replace (modulus W - 1 - eval a + 1) with (- eval a + 1 * modulus W) by ring.
  apply Z.mod_add. pose proof (modulus_pos W). lia.
Qed.

Lemma sub_spec W a b : limbs_wf W a -> limbs_wf W b ->
  limbs_wf W (Limb.sub a b) /\ eval (Limb.sub a b) = (eval a - eval b) mod modulus W.
Proof.
  intros Ha Hb. destruct (neg_spec W b Hb) as [Hw Hv]. unfold Limb.sub.
  split; [by apply add_wf|]. rewrite (eval_add W), Hv by done.
  pose proof (modulus_pos W). rewrite Z.add_mod_idemp_r by lia. by rewrite Z.add_opp_r.
Qed.

(** ** Multiplication *)

Lemma mul32_loop_spec W c b a : 0 <= c < 2 ^ 32 -> limb_ok b -> limbs_wf W a ->
  limbs_wf W (Limb.mul32_loop c b a) /\
  eval (Limb.mul32_loop c b a) = (c + b * eval a) mod modulus W.
Proof.
  revert c W. induction a as [|x a IH]; intros c W Hc Hb Ha.
  - destruct Ha as [<- _]. split; [auto with machine|]. simpl length. by rewrite modulus_0, Z.mod_1_r.
  - apply limbs_wf_cons_inv in Ha as (W' & -> & Hx & Ha).
    unfold limb_ok in Hx, Hb. cbn [Limb.mul32_loop eval].
    assert (0 <= b * x <= (2 ^ 32 - 1) * (2 ^ 32 - 1)) by nia.
    rewrite (u64_id (b * x)) by (unfold in_u; lia).
    rewrite u64_id by (unfold in_u; lia). rewrite shiftr32.
    destruct (IH ((c + b * x) / 2 ^ 32) W') as [IHw IHv]; auto; [zlia|].
    split; [auto with machine|].
    rewrite IHv, land_mask32, modulus_S.
    replace (c + b * (x + 2 ^ 32 * eval a)) with (c + b * x + 2 ^ 32 * (b * eval a)) by ring.
    by rewrite mod_limb by auto with machine.
Qed.

Lemma mul32_spec W a b : limbs_wf W a -> limb_ok b ->
  limbs_wf W (Limb.mul32 a b) /\ eval (Limb.mul32 a b) = (eval a * b) mod modulus W.
Proof.
  intros Ha Hb. rewrite (Z.mul_comm (eval a)). by apply (mul32_loop_spec W 0 b a).
Qed.

(** The row may be shorter than [b]: the loop stops at [i + j = WIDTH]. *)
Lemma mul_row_spec W V c p a b : 0 <= c < 2 ^ 32 -> limb_ok p -> limbs_wf W a -> limbs_wf V b ->
  (W <= V)%nat ->
  limbs_wf W (Limb.mul_row c p a b) /\
  eval (Limb.mul_row c p a b) = (c + eval a + p * eval b) mod modulus W.
Proof.
  revert c W V b. induction a as [|x a IH]; intros c W V b Hc Hp Ha Hb HWV.
  - destruct Ha as [<- _]. split; [auto with machine|]. simpl length. by rewrite modulus_0, Z.mod_1_r.
  - apply limbs_wf_cons_inv in Ha as (W' & -> & Hx & Ha).
    destruct b as [|y b]; [destruct Hb as [<- _]; simpl in HWV; lia|].
    apply limbs_wf_cons_inv in Hb as (V' & -> & Hy & Hb).
    unfold limb_ok in Hx, Hp, Hy. cbn [Limb.mul_row eval].
    assert (0 <= p * y <= (2 ^ 32 - 1) * (2 ^ 32 - 1)) by nia.
    rewrite (u64_id (p * y)) by (unfold in_u; lia).
    rewrite u64_id by (unfold in_u; lia). rewrite shiftr32.
    destruct (IH ((c + x + p * y) / 2 ^ 32) W' V' b) as [IHw IHv]; auto; [zlia|lia|].
    split; [auto with machine|].
    rewrite IHv, land_mask32, modulus_S.
    replace (c + (x + 2 ^ 32 * eval a) + p * (y + 2 ^ 32 * eval b))
      with (c + x + p * y + 2 ^ 32 * (eval a + p * eval b)) by ring.
    rewrite mod_limb by auto with machine. by rewrite Z.add_assoc.
Qed.

Lemma mul_rows_spec W V pn a b : limbs_wf W pn -> limbs_wf W a -> limbs_wf V b -> (W <= V)%nat ->
  limbs_wf W (Limb.mul_rows pn a b) /\
  eval (Limb.mul_rows pn a b) = (eval a + eval pn * eval b) mod modulus W.
Proof.
  revert W a. induction pn as [|p pn IH]; intros W a Hpn Ha Hb HWV.
  - destruct Hpn as [<- _]. destruct a; [|destruct Ha; discriminate].
    split; [auto with machine|]. simpl length. by rewrite modulus_0, Z.mod_1_r.
  - apply limbs_wf_cons_inv in Hpn as (W' & -> & Hp & Hpn).
    destruct (mul_row_spec (S W') V 0 p a b) as [Hrw Hrv]; auto; [lia|].
    cbn [Limb.mul_rows eval]. destruct (Limb.mul_row 0 p a b) as [|h t].
    { destruct Hrw; discriminate. }
    apply limbs_wf_cons_inv in Hrw as (W'' & [= <-] & Hh & Ht).
    destruct (IH W' t) as [IHw IHv]; auto; [lia|].
    split; [auto with machine|]. cbn [eval]. rewrite IHv.
    replace (eval a + (p + 2 ^ 32 * eval pn) * eval b)
      with (0 + eval a + p * eval b + 2 ^ 32 * (eval pn * eval b)) by ring.
    pose proof (modulus_pos (S W')).
    rewrite <- (Z.add_mod_idemp_l (0 + eval a + p * eval b)) by lia.
    rewrite <- Hrv. cbn [eval]. rewrite modulus_S.
    replace (h + 2 ^ 32 * eval t + 2 ^ 32 * (eval pn * eval b))
      with (h + 2 ^ 32 * (eval t + eval pn * eval b)) by ring.
    rewrite mod_limb by auto with machine. unfold limb_ok in Hh.
    rewrite (Z.mod_small h), (Z.div_small h) by lia. done.
Qed.

Lemma mul_spec W a b : limbs_wf W a -> limbs_wf W b ->
  limbs_wf W (Limb.mul a b) /\ eval (Limb.mul a b) = (eval a * eval b) mod modulus W.
Proof.
  intros Ha Hb. unfold Limb.mul.
  destruct (mul_rows_spec W W a (Limb.zero (length a)) b) as [Hw Hv]; auto.
  { destruct Ha as [-> _]. apply zero_wf. }
  split; [done|]. by rewrite Hv, eval_zero.
Qed.

(** ** Comparison *)

Lemma cmp_loop_snoc a b x y : length a = length b ->
  Limb.cmp_loop (a ++ [x]) (b ++ [y]) =
  let c := Limb.cmp_loop a b in if c =? 0 then (if x <? y then -1 else if y <? x then 1 else 0) else c.
Proof.
  revert b. induction a as [|h a IH]; intros [|g b] Hl; try discriminate; [done|].
  simpl. destruct (h <? g); [done|]. destruct (g <? h); [done|]. apply IH. simpl in Hl. lia.
Qed.

Definition cmp3 (x y : Z) : Z := if x <? y then -1 else if y <? x then 1 else 0.

Lemma compare_spec W a b : limbs_wf W a -> limbs_wf W b ->
  Limb.CompareTo a b = cmp3 (eval a) (eval b).
Proof.
  revert W b. induction a as [|x a IH]; intros W [|y b] Ha Hb;
    try (destruct Ha as [<- _], Hb as [Hb _]; discriminate).
  - reflexivity.
  - apply limbs_wf_cons_inv in Ha as (W' & -> & Hx & Ha).
    apply limbs_wf_cons_inv in Hb as (W'' & [= <-] & Hy & Hb).
    unfold limb_ok in Hx, Hy. unfold Limb.CompareTo in *. cbn [rev eval].
    rewrite cmp_loop_snoc by (rewrite !length_rev; destruct Ha, Hb; congruence).
    cbv zeta. rewrite (IH W' b) by done. unfold cmp3.
    repeat case_match; lia.
Qed.

Lemma forallb_zero_eval a : Forall limb_ok a -> forallb (fun x => x =? 0) a = (eval a =? 0).
Proof.
  induction 1 as [|x a Hx Ha IH]; [done|]. simpl. rewrite IH.
  pose proof (eval_range (length a) a (conj eq_refl Ha)). unfold limb_ok in Hx.
  destruct (Z.eqb_spec x 0), (Z.eqb_spec (eval a) 0), (Z.eqb_spec (x + 4294967296 * eval a) 0); lia.
Qed.

Lemma equalto_spec W a b : (2 <= W)%nat -> limbs_wf W a -> in_u 64 b ->
  Limb.EqualTo a b = (eval a =? b).
Proof.
  intros HW Ha Hb. unfold Limb.EqualTo.
  destruct a as [|x [|y a]]; try (destruct Ha as [Ha _]; simpl in Ha; lia).
  apply limbs_wf_cons_inv in Ha as (W1 & -> & Hx & Ha).
  apply limbs_wf_cons_inv in Ha as (W2 & -> & Hy & Ha).
  change (drop 2 (x :: y :: a)) with a. cbn [nth eval]. rewrite forallb_zero_eval by apply Ha.
  pose proof (eval_range _ _ Ha). rewrite shiftr32, land_mask32.
  unfold limb_ok in *. unfold in_u in Hb.
  apply eq_true_iff_eq. rewrite !andb_true_iff, !Z.eqb_eq. zlia.
Qed.

(** ** Bit length *)

(** Position of the highest set bit plus one, zero for zero. *)
Definition blen (x : Z) : Z := if x =? 0 then 0 else Z.log2 x + 1.

Lemma top_bit_spec x n : 0 < x < 2 ^ (Z.of_nat n + 1) -> Limb.top_bit x n = Z.log2 x + 1.
Proof.
  revert x. induction n as [|n IH]; intros x Hx.
  - assert (x = 1) as -> by (simpl in Hx; lia). done.
  - cbn [Limb.top_bit]. destruct (Z.testbit x (Z.of_nat (S n))) eqn:E.
    + f_equal. symmetry. apply Z.log2_unique; [lia|]. split; [|apply Hx].
      destruct (Z.lt_ge_cases x (2 ^ Z.of_nat (S n))); [|done].
      rewrite Z.bits_above_log2 in E; [done|lia|]. apply Z.log2_lt_pow2; lia.
    + apply IH. split; [lia|]. replace (Z.of_nat n + 1) with (Z.of_nat (S n)) by lia.
      destruct (Z.lt_ge_cases x (2 ^ Z.of_nat (S n))); [done|].
      rewrite <- (Z.log2_unique x (Z.of_nat (S n))) in E by lia.
      rewrite Z.bit_log2 in E by lia. done.
Qed.

Lemma eval_take_S a p : (p < length a)%nat ->
  eval (take (S p) a) = eval (take p a) + modulus p * nth p a 0.
Proof.
  revert p. induction a as [|x a IH]; intros p Hp; simpl in Hp; [lia|].
  destruct p as [|p]; simpl; [rewrite modulus_0; lia|].
  simpl in IH. rewrite IH by lia. rewrite modulus_S. lia.
Qed.

Lemma take_wf W a p : limbs_wf W a -> (p <= W)%nat -> limbs_wf p (take p a).
Proof.
  intros [<- Ha] Hp. split; [rewrite length_take; lia|]. by apply Forall_take.
Qed.

Lemma bits_loop_spec W a p : limbs_wf W a -> (p <= W)%nat -> Limb.bits_loop a p = blen (eval (take p a)).
Proof.
  intros Ha. induction p as [|p IH]; intros Hp; [by destruct a|].
  cbn [Limb.bits_loop]. cbv zeta.
  rewrite eval_take_S by (destruct Ha; lia).
  pose proof (eval_range p (take p a) (take_wf W a p Ha ltac:(lia))) as He.
  pose proof (limb_of_nth a p (proj2 Ha)) as [Hn0 Hn].
  pose proof (modulus_pos p). unfold blen.
  destruct (Z.eqb_spec (nth p a 0) 0) as [E|E]; cbn [negb].
  - rewrite E, Z.mul_0_r, Z.add_0_r. apply IH. lia.
  - rewrite top_bit_spec by (change (2 ^ (Z.of_nat 31 + 1)) with (2 ^ 32); lia).
    destruct (Z.eqb_spec (eval (take p a) + modulus p * nth p a 0) 0); [nia|].
    enough (Z.log2 (eval (take p a) + modulus p * nth p a 0) = 32 * Z.of_nat p + Z.log2 (nth p a 0)) by lia.
    pose proof (Z.log2_spec (nth p a 0) ltac:(lia)) as [? ?].
    pose proof (Z.log2_nonneg (nth p a 0)).
    apply Z.log2_unique; [lia|].
    rewrite <- Z.add_succ_r, !Z.pow_add_r by lia. unfold modulus in *. nia.
Qed.

Lemma bits_spec W a : limbs_wf W a -> Limb.bits a = blen (eval a).
Proof.
  intros Ha. unfold Limb.bits. rewrite (bits_loop_spec W); [|done|destruct Ha; lia].
  by rewrite firstn_all.
Qed.

(** ** Shifts *)

(** Or-ing a digit into position [i] of a limb list. *)
Definition or_at (v : Z) (i : nat) (pn : limbs) : limbs := alter (fun d => Z.lor d v) i pn.

Lemma limb_lor x y : limb_ok x -> limb_ok y -> limb_ok (Z.lor x y).
Proof.
  intros [? Hx] [? Hy]. split; [by apply Z.lor_nonneg|].
  destruct (Z.eq_dec (Z.lor x y) 0) as [->|]; [lia|].
  assert (0 <= Z.lor x y) by by apply Z.lor_nonneg.
  apply Z.log2_lt_pow2; [lia|]. rewrite Z.log2_lor by done.
  destruct (Z.eq_dec x 0) as [->|], (Z.eq_dec y 0) as [->|];
    apply Z.max_lub_lt; try (simpl; lia); apply Z.log2_lt_pow2; lia.
Qed.

Lemma limb_shiftr x s : 0 <= s -> limb_ok x -> limb_ok (Z.shiftr x s).
Proof.
  intros ? [? ?]. rewrite Z.shiftr_div_pow2 by done. split; [apply Z.div_pos; lia|].
  apply Z.div_lt_upper_bound; [lia|]. assert (1 <= 2 ^ s) by lia. nia.
Qed.

Lemma or_at_wf W v i pn : limb_ok v -> limbs_wf W pn -> limbs_wf W (or_at v i pn).
Proof.
  intros Hv [<- Hpn]. split; [apply length_alter|].
  apply Forall_alter; [done|]. intros x _ Hx. by apply limb_lor.
Qed.

Lemma nth_or_at v i pn j : (i < length pn)%nat ->
  nth j (or_at v i pn) 0 = Z.lor (nth j pn 0) (if (j =? i)%nat then v else 0).
Proof.
  revert i j. induction pn as [|x pn IH]; intros i j Hi; simpl in Hi; [lia|].
  destruct i as [|i], j as [|j]; simpl; rewrite ?Z.lor_0_r; try done. apply IH. lia.
Qed.

(** What the loop body for digit [i] contributes to digit [j]. *)
Definition shl_contrib (a : limbs) (k : nat) (s : Z) (j i : nat) : Z :=
  Z.lor (if (j =? i + k + 1)%nat && negb (s =? 0) then Z.shiftr (nth i a 0) (32 - s) else 0)
        (if (j =? i + k)%nat then u32 (Z.shiftl (nth i a 0) s) else 0).
Definition shr_contrib (a : limbs) (k : nat) (s : Z) (j i : nat) : Z :=
  Z.lor (if (i =? j + k + 1)%nat && negb (s =? 0) then u32 (Z.shiftl (nth i a 0) (32 - s)) else 0)
        (if (i =? j + k)%nat then Z.shiftr (nth i a 0) s else 0).

Section Accumulate.
Context (W : nat) (step : limbs -> nat -> limbs) (contrib : nat -> nat -> Z).
Hypothesis step_wf : forall pn i, limbs_wf W pn -> limbs_wf W (step pn i).
Hypothesis step_nth : forall pn i j, (j < W)%nat -> limbs_wf W pn -> (i < W)%nat ->
  nth j (step pn i) 0 = Z.lor (nth j pn 0) (contrib j i).

Lemma accumulate_wf l pn : limbs_wf W pn -> limbs_wf W (foldl step pn l).
Proof. revert pn. induction l; simpl; auto. Qed.

Lemma accumulate_bit l pn j t : (j < W)%nat -> limbs_wf W pn -> Forall (fun i => (i < W)%nat) l ->
  Z.testbit (nth j (foldl step pn l) 0) t =
  Z.testbit (nth j pn 0) t || existsb (fun i => Z.testbit (contrib j i) t) l.
Proof.
  revert pn. induction l as [|i l IH]; intros pn Hj Hpn Hl; simpl; [by rewrite orb_false_r|].
  apply Forall_cons in Hl as [Hi Hl].
  rewrite IH by auto. rewrite step_nth, Z.lor_spec by done. by rewrite orb_assoc.
Qed.
End Accumulate.

Lemma nth_zero W j : nth j (Limb.zero W) 0 = 0.
Proof. revert j. induction W; intros [|j]; simpl; auto. Qed.

Lemma limb_bit x t : 32 <= t \/ t < 0 -> limb_ok x -> Z.testbit x t = false.
Proof. intros [?|?] ?; [by apply limb_above|by apply Z.testbit_neg_r]. Qed.

Section ShiftSteps.
Context (W : nat) (a : limbs) (k : nat) (s : Z).
Hypothesis Ha : limbs_wf W a.
Hypothesis Hs : 0 <= s < 32.

Lemma shl_step_wf pn i : limbs_wf W pn -> limbs_wf W (Limb.shl_step W a k s pn i).
Proof.
  intros Hpn. pose proof (limb_of_nth a i (proj2 Ha)).
  unfold Limb.shl_step. repeat case_match; auto;
    repeat apply or_at_wf; auto with machine; apply limb_shiftr; auto; lia.
Qed.

Lemma shr_step_wf pn i : limbs_wf W pn -> limbs_wf W (Limb.shr_step a k s pn i).
Proof.
  intros Hpn. pose proof (limb_of_nth a i (proj2 Ha)).
  unfold Limb.shr_step. repeat case_match; auto;
    repeat apply or_at_wf; auto with machine; apply limb_shiftr; auto; lia.
Qed.

Lemma shl_step_nth pn i j : (j < W)%nat -> limbs_wf W pn -> (i < W)%nat ->
  nth j (Limb.shl_step W a k s pn i) 0 = Z.lor (nth j pn 0) (shl_contrib a k s j i).
Proof.
  intros Hj [Hl _] Hi. unfold Limb.shl_step, shl_contrib. cbv zeta.
  fold (or_at (Z.shiftr (nth i a 0) (32 - s)) (i + k + 1) pn).
  set (pn1 := if _ && _ then or_at _ _ pn else pn).
  assert (Hpn1 : length pn1 = W) by (subst pn1; case_match; unfold or_at; rewrite ?length_alter; done).
  assert (Hn1 : nth j pn1 0 = Z.lor (nth j pn 0)
    (if (j =? i + k + 1)%nat && negb (s =? 0) then Z.shiftr (nth i a 0) (32 - s) else 0)).
  { subst pn1. destruct (Nat.ltb_spec (i + k + 1) W); cbn [andb].
    - destruct (negb (s =? 0)); rewrite ?andb_true_r, ?andb_false_r, ?Z.lor_0_r;
        [apply nth_or_at; lia|done].
    - destruct (Nat.eqb_spec j (i + k + 1)); [lia|]. by rewrite Z.lor_0_r. }
  rewrite Z.lor_assoc, <- Hn1. destruct (Nat.ltb_spec (i + k) W).
  - apply nth_or_at. lia.
  - destruct (Nat.eqb_spec j (i + k)); [lia|]. by rewrite Z.lor_0_r.
Qed.

Lemma shr_step_nth pn i j : (j < W)%nat -> limbs_wf W pn -> (i < W)%nat ->
  nth j (Limb.shr_step a k s pn i) 0 = Z.lor (nth j pn 0) (shr_contrib a k s j i).
Proof.
  intros Hj [Hl _] Hi. unfold Limb.shr_step, shr_contrib. cbv zeta.
  fold (or_at (u32 (Z.shiftl (nth i a 0) (32 - s))) (i - k - 1) pn).
  set (pn1 := if _ && _ then or_at _ _ pn else pn).
  assert (Hpn1 : length pn1 = W) by (subst pn1; case_match; unfold or_at; rewrite ?length_alter; done).
  assert (Hn1 : nth j pn1 0 = Z.lor (nth j pn 0)
    (if (i =? j + k + 1)%nat && negb (s =? 0) then u32 (Z.shiftl (nth i a 0) (32 - s)) else 0)).
  { subst pn1. destruct (Nat.leb_spec (k + 1) i); cbn [andb].
    - destruct (negb (s =? 0)); rewrite ?andb_true_r, ?andb_false_r, ?Z.lor_0_r; [|done].
      rewrite nth_or_at by lia.
      destruct (Nat.eqb_spec j (i - k - 1)), (Nat.eqb_spec i (j + k + 1)); try lia; done.
    - destruct (Nat.eqb_spec i (j + k + 1)); [lia|]. by rewrite Z.lor_0_r. }
  rewrite Z.lor_assoc, <- Hn1. destruct (Nat.leb_spec k i).
  - fold (or_at (Z.shiftr (nth i a 0) s) (i - k) pn1). rewrite nth_or_at by lia.
    destruct (Nat.eqb_spec j (i - k)), (Nat.eqb_spec i (j + k)); try lia; done.
  - destruct (Nat.eqb_spec i (j + k)); [lia|]. by rewrite Z.lor_0_r.
Qed.

(** The bits digit [j] receives are the bits of [a] displaced by [32k+s]. *)
Lemma testbit_u32 x t : 0 <= t < 32 -> Z.testbit (u32 x) t = Z.testbit x t.
Proof. intros. unfold u32. by rewrite Z.mod_pow2_bits_low by lia. Qed.

Lemma testbit_eval_at j t m : 0 <= t < 32 -> m = 32 * Z.of_nat j + t ->
  Z.testbit (nth j a 0) t = Z.testbit (eval a) m.
Proof. intros ? ->. symmetry. by apply testbit_eval; [apply Ha|]. Qed.

Lemma shl_bits j t : (j < W)%nat -> 0 <= t < 32 ->
  existsb (fun i => Z.testbit (shl_contrib a k s j i) t) (seq 0 W) =
  Z.testbit (eval a) (32 * Z.of_nat j + t - (32 * Z.of_nat k + s)).
Proof.
  intros Hj Ht. apply eq_true_iff_eq. rewrite existsb_exists. unfold shl_contrib. split.
  - intros (i & Hi%in_seq & H). rewrite Z.lor_spec, orb_true_iff in H.
    destruct H as [H|H].
    + destruct (Nat.eqb_spec j (i + k + 1)), (Z.eqb_spec s 0);
        cbn [andb negb] in H; rewrite ?Z.bits_0 in H; try discriminate.
      rewrite Z.shiftr_spec in H by lia.
      destruct (Z.lt_ge_cases (t + (32 - s)) 32).
      * rewrite (testbit_eval_at i _ (32 * Z.of_nat i + (t + (32 - s)))) in H by lia.
        rewrite <- H. f_equal. lia.
      * rewrite limb_above in H; [done|apply limb_of_nth, Ha|lia].
    + destruct (Nat.eqb_spec j (i + k)); [|by rewrite Z.bits_0 in H].
      rewrite testbit_u32, Z.shiftl_spec in H by lia.
      destruct (Z.lt_ge_cases (t - s) 0); [by rewrite Z.testbit_neg_r in H|].
      rewrite (testbit_eval_at i _ (32 * Z.of_nat i + (t - s))) in H by lia.
      rewrite <- H. f_equal. lia.
  - intros H. assert (Hn : 0 <= 32 * Z.of_nat j + t - (32 * Z.of_nat k + s)).
    { destruct (Z.lt_ge_cases (32 * Z.of_nat j + t - (32 * Z.of_nat k + s)) 0); [|lia].
      by rewrite Z.testbit_neg_r in H. }
    destruct (Z.lt_ge_cases t s).
    + exists (j - k - 1)%nat. split; [apply in_seq; lia|].
      rewrite Z.lor_spec. apply orb_true_iff. left.
      destruct (Nat.eqb_spec j (j - k - 1 + k + 1)), (Z.eqb_spec s 0); try lia. cbn [andb negb].
      rewrite Z.shiftr_spec by lia. rewrite <- H. apply testbit_eval_at; lia.
    + exists (j - k)%nat. split; [apply in_seq; lia|].
      rewrite Z.lor_spec. apply orb_true_iff. right.
      destruct (Nat.eqb_spec j (j - k + k)); [|lia].
      rewrite testbit_u32, Z.shiftl_spec by lia. rewrite <- H. apply testbit_eval_at; lia.
Qed.

Lemma shr_bits j t : (j < W)%nat -> 0 <= t < 32 ->
  existsb (fun i => Z.testbit (shr_contrib a k s j i) t) (seq 0 W) =
  Z.testbit (eval a) (32 * Z.of_nat j + t + (32 * Z.of_nat k + s)).
Proof.
  intros Hj Ht. apply eq_true_iff_eq. rewrite existsb_exists. unfold shr_contrib. split.
  - intros (i & Hi%in_seq & H). rewrite Z.lor_spec, orb_true_iff in H.
    destruct H as [H|H].
    + destruct (Nat.eqb_spec i (j + k + 1)), (Z.eqb_spec s 0);
        cbn [andb negb] in H; rewrite ?Z.bits_0 in H; try discriminate.
      rewrite testbit_u32, Z.shiftl_spec in H by lia.
      destruct (Z.lt_ge_cases (t - (32 - s)) 0); [by rewrite Z.testbit_neg_r in H|].
      rewrite (testbit_eval_at i _ (32 * Z.of_nat i + (t - (32 - s)))) in H by lia.
      rewrite <- H. f_equal. lia.
    + destruct (Nat.eqb_spec i (j + k)); [|by rewrite Z.bits_0 in H].
      rewrite Z.shiftr_spec in H by lia.
      destruct (Z.lt_ge_cases (t + s) 32).
      * rewrite (testbit_eval_at i _ (32 * Z.of_nat i + (t + s))) in H by lia.
        rewrite <- H. f_equal. lia.
      * rewrite limb_above in H; [done|apply limb_of_nth, Ha|lia].
  - intros H.
    assert (Hhi : 32 * Z.of_nat j + t + (32 * Z.of_nat k + s) < 32 * Z.of_nat W).
    { destruct (Z.lt_ge_cases (32 * Z.of_nat j + t + (32 * Z.of_nat k + s)) (32 * Z.of_nat W)); [done|].
      by rewrite (testbit_eval_high W) in H. }
    destruct (Z.lt_ge_cases (t + s) 32).
    + exists (j + k)%nat. split; [apply in_seq; lia|].
      rewrite Z.lor_spec. apply orb_true_iff. right.
      destruct (Nat.eqb_spec (j + k) (j + k)); [|lia].
      rewrite Z.shiftr_spec by lia. rewrite <- H. apply testbit_eval_at; lia.
    + exists (j + k + 1)%nat. split; [apply in_seq; lia|].
      rewrite Z.lor_spec. apply orb_true_iff. left.
      destruct (Nat.eqb_spec (j + k + 1) (j + k + 1)), (Z.eqb_spec s 0); try lia. cbn [andb negb].
      rewrite testbit_u32, Z.shiftl_spec by lia. rewrite <- H. apply testbit_eval_at; lia.
Qed.
End ShiftSteps.

Lemma seq_below W : Forall (fun i => (i < W)%nat) (seq 0 W).
Proof. apply Forall_forall. intros i Hi%elem_of_seq. lia. Qed.

(** A limb list whose digit bits are those of [v] denotes [v mod 2^BITS]. *)
Lemma eval_from_bits W r v : limbs_wf W r ->
  (forall j t, (j < W)%nat -> 0 <= t < 32 -> Z.testbit (nth j r 0) t = Z.testbit v (32 * Z.of_nat j + t)) ->
  eval r = v mod modulus W.
Proof.
  intros Hr Hb. apply Z.bits_inj'. intros n Hn.
  destruct (limb_split n Hn) as (j & t & -> & Ht). unfold modulus.
  destruct (Nat.lt_ge_cases j W).
  - rewrite testbit_eval, Hb by (try apply Hr; done).
    by rewrite Z.mod_pow2_bits_low by lia.
  - rewrite (testbit_eval_high W), Z.mod_pow2_bits_high by (auto; lia). done.
Qed.

Lemma shl_spec W a n : limbs_wf W a -> 0 <= n ->
  limbs_wf W (Limb.shl a n) /\ eval (Limb.shl a n) = Z.shiftl (eval a) n mod modulus W.
Proof.
  intros Ha Hn. unfold Limb.shl. rewrite (proj1 Ha). cbv zeta.
  assert (Hs : 0 <= n mod 32 < 32) by (apply Z.mod_pos_bound; lia).
  pose proof (shl_step_wf W a (Z.to_nat (n / 32)) (n mod 32) Ha Hs) as Hw.
  pose proof (shl_step_nth W a (Z.to_nat (n / 32)) (n mod 32)) as Hnth.
  assert (Hwf : limbs_wf W (foldl (Limb.shl_step W a (Z.to_nat (n / 32)) (n mod 32)) (Limb.zero W) (seq 0 W)))
    by (apply accumulate_wf; auto using zero_wf).
  split; [done|]. apply eval_from_bits; [done|]. intros j t Hj Ht.
  erewrite accumulate_bit by eauto using zero_wf, seq_below.
  rewrite nth_zero, Z.bits_0, (shl_bits W) by done. cbn [orb].
  rewrite Z.shiftl_spec by lia. f_equal.
  rewrite Z2Nat.id by (apply Z.div_pos; lia). zlia.
Qed.

Lemma shr_spec W a n : limbs_wf W a -> 0 <= n ->
  limbs_wf W (Limb.shr a n) /\ eval (Limb.shr a n) = Z.shiftr (eval a) n.
Proof.
  intros Ha Hn. unfold Limb.shr. rewrite (proj1 Ha). cbv zeta.
  assert (Hs : 0 <= n mod 32 < 32) by (apply Z.mod_pos_bound; lia).
  pose proof (shr_step_wf W a (Z.to_nat (n / 32)) (n mod 32) Ha Hs) as Hw.
  pose proof (shr_step_nth W a (Z.to_nat (n / 32)) (n mod 32)) as Hnth.
  assert (Hwf : limbs_wf W (foldl (Limb.shr_step a (Z.to_nat (n / 32)) (n mod 32)) (Limb.zero W) (seq 0 W)))
    by (apply accumulate_wf; auto using zero_wf).
  split; [done|].
  assert (Hr : 0 <= Z.shiftr (eval a) n < modulus W).
  { pose proof (eval_range W a Ha). rewrite Z.shiftr_div_pow2 by done.
    assert (1 <= 2 ^ n) by lia.
    split; [apply Z.div_pos; lia|]. apply Z.div_lt_upper_bound; nia. }
  rewrite <- (Z.mod_small _ _ Hr). apply eval_from_bits; [done|]. intros j t Hj Ht.
  erewrite accumulate_bit by eauto using zero_wf, seq_below.
  rewrite nth_zero, Z.bits_0, (shr_bits W) by done. cbn [orb].
  rewrite Z.shiftr_spec by lia. f_equal.
  rewrite Z2Nat.id by (apply Z.div_pos; lia). zlia.
Qed.

(** ** Division *)

Lemma eval_or_at W v i pn : limb_ok v -> limbs_wf W pn -> (i < W)%nat ->
  eval (or_at v i pn) = Z.lor (eval pn) (Z.shiftl v (32 * Z.of_nat i)).
Proof.
  intros Hv Hpn Hi. pose proof (or_at_wf W v i pn Hv Hpn) as Hw.
  apply Z.bits_inj'. intros n Hn. destruct (limb_split n Hn) as (j & t & -> & Ht).
  rewrite Z.lor_spec, Z.shiftl_spec, !testbit_eval by (try apply Hw; try apply Hpn; lia).
  rewrite nth_or_at, Z.lor_spec by (destruct Hpn; lia). f_equal.
  destruct (Nat.eqb_spec j i) as [->|]; [f_equal; lia|].
  rewrite Z.bits_0, limb_bit; [done|lia|done].
Qed.

Lemma lor_pow2_add q m : 0 <= m -> q mod 2 ^ (m + 1) = 0 -> Z.lor q (2 ^ m) = q + 2 ^ m.
Proof.
  intros Hm Hq. symmetry. rewrite Z.add_nocarry_lxor, Z.lxor_lor; try done;
    (apply Z.bits_inj'; intros n Hn; rewrite Z.land_spec, Z.bits_0, Z.pow2_bits_eqb by done;
     destruct (Z.eqb_spec m n) as [->|]; [|apply andb_false_r];
     rewrite <- (Z.mod_pow2_bits_low q (n + 1)) by lia; by rewrite Hq, Z.bits_0).
Qed.

Definition div_inv (W n : nat) (d : Z) (quo num div : limbs) : Prop :=
  limbs_wf W quo /\ limbs_wf W num /\ limbs_wf W div /\ 0 < d /\ (n <= 32 * W)%nat /\
  eval num < d * 2 ^ Z.of_nat n /\ eval quo mod 2 ^ Z.of_nat n = 0 /\
  (n <> 0%nat -> eval div = d * 2 ^ (Z.of_nat n - 1)).

Lemma set_bit_spec W quo m : limbs_wf W quo -> (m < 32 * W)%nat -> eval quo mod 2 ^ (Z.of_nat m + 1) = 0 ->
  let q' := alter (fun d => Z.lor d (u32 (Z.shiftl 1 (Z.of_nat m mod 32)))) (m / 32)%nat quo in
  limbs_wf W q' /\ eval q' = eval quo + 2 ^ Z.of_nat m.
Proof.
  intros Hq Hm Hz. cbv zeta. fold (or_at (u32 (Z.shiftl 1 (Z.of_nat m mod 32))) (m / 32) quo).
  split; [auto using or_at_wf with machine|].
  assert (m / 32 < W)%nat by (apply Nat.Div0.div_lt_upper_bound; lia).
  rewrite (eval_or_at W) by auto with machine.
  assert (Hr : 0 <= Z.of_nat m mod 32 < 32) by (apply Z.mod_pos_bound; lia).
  assert (2 ^ (Z.of_nat m mod 32) < 2 ^ 32) by (apply Z.pow_lt_mono_r; lia).
  rewrite Z.shiftl_1_l, u32_id by (unfold in_u; lia).
  rewrite Z.shiftl_mul_pow2, <- Z.pow_add_r by lia.
  rewrite Nat2Z.inj_div. change (Z.of_nat 32) with 32.
  replace (Z.of_nat m mod 32 + 32 * (Z.of_nat m / 32)) with (Z.of_nat m) by zlia.
  apply lor_pow2_add; [lia|done].
Qed.

Lemma mod_double q m : 0 <= m -> q mod 2 ^ (m + 1) = 0 -> q mod 2 ^ m = 0.
Proof.
  intros ? H. rewrite Z.pow_add_r in H by lia. pose proof (Z.pow_pos_nonneg 2 m).
  apply Z.mod_divide in H; [|lia]. apply Z.mod_divide; [lia|].
  destruct H as [c ->]. exists (c * 2). ring.
Qed.

Lemma div_step_shr W m d div : limbs_wf W div -> 0 < d -> eval div = d * 2 ^ Z.of_nat m ->
  limbs_wf W (Limb.shr div 1) /\ (m <> 0%nat -> eval (Limb.shr div 1) = d * 2 ^ (Z.of_nat m - 1)).
Proof.
  intros Hdv Hd Hdiv. destruct (shr_spec W div 1 Hdv) as [Hw Hv]; [lia|].
  split; [done|]. intros Hne. rewrite Hv, Hdiv, Z.shiftr_div_pow2 by lia.
  replace (Z.of_nat m) with (Z.of_nat m - 1 + 1) at 1 by lia.
  rewrite Z.pow_add_r, Z.mul_assoc by lia. apply Z.div_mul. lia.
Qed.

Lemma div_loop_spec W n d quo num div : div_inv W n d quo num div ->
  limbs_wf W (Limb.div_loop n quo num div) /\
  eval (Limb.div_loop n quo num div) = eval quo + eval num / d.
Proof.
  revert quo num div. induction n as [|m IH]; intros quo num div (Hq & Hn & Hdv & Hd & Hm & Hlt & Hz & Hdiv).
  { split; [done|]. pose proof (eval_range W num Hn). cbn [Limb.div_loop].
    rewrite (Z.div_small (eval num)); [lia|]. simpl in Hlt. lia. }
  specialize (Hdiv ltac:(lia)). replace (Z.of_nat (S m) - 1) with (Z.of_nat m) in Hdiv by lia.
  replace (Z.of_nat (S m)) with (Z.of_nat m + 1) in Hz, Hlt by lia.
  destruct (div_step_shr W m d div Hdv Hd Hdiv) as [Hsw Hsv].
  destruct (set_bit_spec W quo m Hq ltac:(lia) Hz) as [Hbw Hbv].
  pose proof (eval_range W num Hn). pose proof (eval_range W div Hdv).
  assert (0 < 2 ^ Z.of_nat m) by (apply Z.pow_pos_nonneg; lia).
  rewrite Z.pow_add_r in Hlt by lia.
  cbn [Limb.div_loop]. rewrite (compare_spec W) by done. unfold cmp3.
  destruct (Z.ltb_spec (eval num) (eval div)) as [Hc|Hc].
  - apply IH. refine (conj Hq (conj Hn (conj Hsw (conj Hd (conj _ (conj _ (conj _ Hsv))))))); [lia..|].
    by apply mod_double; [lia|].
  - replace (0 <=? (if eval div <? eval num then 1 else 0)) with true by (case_match; done).
    destruct (sub_spec W num div) as [Hsubw Hsubv]; [done..|].
    rewrite Z.mod_small in Hsubv by lia.
    match type of Hbw with limbs_wf _ ?q =>
      destruct (IH q (Limb.sub num div) (Limb.shr div 1)) as [Hw Hv] end.
    + refine (conj Hbw (conj Hsubw (conj Hsw (conj Hd (conj _ (conj _ (conj _ Hsv))))))); [lia..|].
      rewrite Hbv. rewrite Z.add_mod, (mod_double (eval quo)), Z.mod_same by (auto; lia). done.
    + split; [done|]. rewrite Hv, Hbv, Hsubv, Hdiv.
      replace (eval num - d * 2 ^ Z.of_nat m) with (eval num + (- 2 ^ Z.of_nat m) * d) by ring.
      rewrite Z.div_add by lia. lia.
Qed.

Lemma blen_pos x : 0 < x -> 2 ^ (blen x - 1) <= x < 2 ^ blen x /\ 1 <= blen x.
Proof.
  intros Hx. unfold blen. destruct (Z.eqb_spec x 0); [lia|].
  pose proof (Z.log2_spec x Hx) as Hl. pose proof (Z.log2_nonneg x).
  replace (Z.log2 x + 1 - 1) with (Z.log2 x) by lia. rewrite <- Z.add_1_r in Hl. lia.
Qed.

Lemma blen_0 x : 0 <= x -> (blen x =? 0) = (x =? 0).
Proof.
  intros Hx. unfold blen. destruct (Z.eqb_spec x 0); [done|].
  pose proof (Z.log2_nonneg x). destruct (Z.eqb_spec (Z.log2 x + 1) 0); lia.
Qed.

Lemma blen_bound x n : 0 <= n -> 0 <= x < 2 ^ n -> 0 <= blen x <= n.
Proof.
  intros Hn Hx. unfold blen. destruct (Z.eqb_spec x 0); [lia|].
  pose proof (Z.log2_nonneg x). assert (Z.log2 x < n) by (apply Z.log2_lt_pow2; lia). lia.
Qed.

Lemma div_zero W a b : limbs_wf W b -> eval b = 0 -> Limb.div a b = None.
Proof. intros Hb Hz. unfold Limb.div. rewrite (bits_spec W b Hb), Hz. done. Qed.

Lemma div_spec W a b : limbs_wf W a -> limbs_wf W b -> eval b <> 0 ->
  exists q, Limb.div a b = Some q /\ limbs_wf W q /\ eval q = eval a / eval b.
Proof.
  intros Ha Hb Hnz. pose proof (eval_range W a Ha) as Ra. pose proof (eval_range W b Hb) as Rb.
  unfold Limb.div. rewrite (bits_spec W a Ha), (bits_spec W b Hb).
  rewrite blen_0 by lia. destruct (Z.eqb_spec (eval b) 0); [done|].
  destruct (blen_pos (eval b) ltac:(lia)) as [[Hb1 Hb2] Hb3].
  pose proof (blen_bound (eval a) (32 * Z.of_nat W) ltac:(lia) Ra) as Hal.
  rewrite (proj1 Ha).
  destruct (Z.ltb_spec (blen (eval a)) (blen (eval b))) as [Hlt|Hge].
  { eexists; split; [done|]. split; [apply zero_wf|]. rewrite eval_zero.
    symmetry. apply Z.div_small. split; [lia|].
    assert (eval a < 2 ^ blen (eval a)).
    { destruct (Z.eq_dec (eval a) 0) as [->|]; [done|]. apply blen_pos. lia. }
    assert (2 ^ blen (eval a) <= 2 ^ (blen (eval b) - 1)) by (apply Z.pow_le_mono_r; lia). lia. }
  set (shift := blen (eval a) - blen (eval b)).
  assert (Ha2 : eval a < 2 ^ blen (eval a)).
  { destruct (Z.eq_dec (eval a) 0) as [->|]; [done|]. apply blen_pos. lia. }
  assert (Hpow : 2 ^ blen (eval a) = 2 ^ shift * 2 ^ blen (eval b)).
  { rewrite <- Z.pow_add_r by lia. f_equal. lia. }
  assert (Hpow' : 2 ^ blen (eval a) <= modulus W) by (apply Z.pow_le_mono_r; lia).
  assert (0 < 2 ^ shift) by (apply Z.pow_pos_nonneg; lia).
  destruct (shl_spec W b shift Hb ltac:(lia)) as [Hsw Hsv].
  rewrite Z.shiftl_mul_pow2 in Hsv by lia. rewrite Z.mod_small in Hsv by nia.
  eexists; split; [done|].
  destruct (div_loop_spec W (S (Z.to_nat shift)) (eval b) (Limb.zero W) a (Limb.shl b shift)) as [Hw Hv].
  - unfold div_inv. replace (Z.of_nat (S (Z.to_nat shift))) with (shift + 1) by lia.
    rewrite eval_zero.
    refine (conj (zero_wf W) (conj Ha (conj Hsw (conj _ (conj _ (conj _ (conj _ _))))))); [lia..| |done|].
    + rewrite Z.pow_add_r by lia.
      replace (2 ^ blen (eval b)) with (2 * 2 ^ (blen (eval b) - 1)) in Hpow
        by (rewrite <- Z.pow_succ_r by lia; f_equal; lia). nia.
    + intros _. rewrite Hsv. f_equal. f_equal. lia.
  - split; [done|]. rewrite Hv, eval_zero. done.
Qed.

(** ** Constructors and readers *)

Lemma of_u64_spec W b : (2 <= W)%nat -> in_u 64 b ->
  limbs_wf W (Limb.of_u64 W b) /\ eval (Limb.of_u64 W b) = b.
Proof.
  intros HW Hb. unfold in_u in Hb. destruct W as [|[|W]]; try lia.
  unfold Limb.of_u64. replace (S (S W) - 2)%nat with W by lia. split.
  - apply limbs_wf_cons; [auto with machine|]. apply limbs_wf_cons; [auto with machine|]. apply zero_wf.
  - cbn [eval]. fold (Limb.zero W). rewrite eval_zero, shiftr32. unfold u32. zlia.
Qed.

Lemma lor_limbs x y : limb_ok x -> 0 <= y -> Z.lor x (Z.shiftl y 32) = x + 2 ^ 32 * y.
Proof.
  intros Hx Hy. rewrite Z.shiftl_mul_pow2, lor_shifted by (auto; lia). lia.
Qed.

Lemma low64_spec W a : (2 <= W)%nat -> limbs_wf W a -> Limb.GetLow64 a = eval a mod 2 ^ 64.
Proof.
  intros HW Ha. destruct a as [|x [|y a]]; try (destruct Ha as [Ha _]; simpl in Ha; lia).
  apply limbs_wf_cons_inv in Ha as (W1 & -> & Hx & Ha).
  apply limbs_wf_cons_inv in Ha as (W2 & -> & Hy & Ha).
  unfold Limb.GetLow64. cbn [nth eval]. unfold limb_ok in *.
  rewrite u64_id by (unfold in_u; rewrite Z.shiftl_mul_pow2 by lia; lia).
  rewrite lor_limbs by (unfold limb_ok; lia).
  replace (x + 2 ^ 32 * (y + 2 ^ 32 * eval a)) with (x + 2 ^ 32 * y + eval a * 2 ^ 64) by ring.
  rewrite Z.mod_add by lia. rewrite Z.mod_small; lia.
Qed.

(** ** The interface the clients are written against *)

(** The operators of [base_uint<BITS>] that the consensus code calls. *)
Class ArithUint (BITS : Z) (U : Type) : Type := {
  au_of_u64 : Z -> U;
  au_not : U -> U;
  au_add : U -> U -> U;
  au_sub : U -> U -> U;
  au_mul32 : U -> Z -> U;
  au_div : U -> U -> option U;       (** [None]: the thrown [uint_error] *)
  au_shl : U -> Z -> U;
  au_shr : U -> Z -> U;
  au_cmp : U -> U -> Z;              (** [CompareTo] *)
  au_eq64 : U -> Z -> bool;          (** [EqualTo(uint64_t)] *)
  au_bits : U -> Z;
  au_low64 : U -> Z
}.

(** [operator==], [<], [>], [<=] on top of [CompareTo]. *)
Definition au_eqb {BITS U} `{ArithUint BITS U} (a b : U) : bool := au_cmp a b =? 0.
Definition au_ltb {BITS U} `{ArithUint BITS U} (a b : U) : bool := au_cmp a b <? 0.
Definition au_gtb {BITS U} `{ArithUint BITS U} (a b : U) : bool := 0 <? au_cmp a b.

(** What an implementation promises: a value for every well-formed
    representation, and that each operator computes modulo [2^BITS]. *)
Class ArithLaws (BITS : Z) (U : Type) `{ArithUint BITS U} : Type := {
  au_wf : U -> Prop;
  au_val : U -> Z;
  au_width : 64 <= BITS;
  au_range a : au_wf a -> 0 <= au_val a < 2 ^ BITS;
  au_of_u64_ok b : in_u 64 b -> au_wf (au_of_u64 b) /\ au_val (au_of_u64 b) = b;
  au_not_ok a : au_wf a -> au_wf (au_not a) /\ au_val (au_not a) = 2 ^ BITS - 1 - au_val a;
  au_add_ok a b : au_wf a -> au_wf b ->
    au_wf (au_add a b) /\ au_val (au_add a b) = (au_val a + au_val b) mod 2 ^ BITS;
  au_sub_ok a b : au_wf a -> au_wf b ->
    au_wf (au_sub a b) /\ au_val (au_sub a b) = (au_val a - au_val b) mod 2 ^ BITS;
  au_mul32_ok a b : au_wf a -> in_u 32 b ->
    au_wf (au_mul32 a b) /\ au_val (au_mul32 a b) = (au_val a * b) mod 2 ^ BITS;
  au_div_ok a b : au_wf a -> au_wf b -> au_val b <> 0 ->
    exists q, au_div a b = Some q /\ au_wf q /\ au_val q = au_val a / au_val b;
  au_div_zero a b : au_wf b -> au_val b = 0 -> au_div a b = None;
  au_shl_ok a n : au_wf a -> 0 <= n ->
    au_wf (au_shl a n) /\ au_val (au_shl a n) = Z.shiftl (au_val a) n mod 2 ^ BITS;
  au_shr_ok a n : au_wf a -> 0 <= n ->
    au_wf (au_shr a n) /\ au_val (au_shr a n) = Z.shiftr (au_val a) n;
  au_cmp_ok a b : au_wf a -> au_wf b -> au_cmp a b = cmp3 (au_val a) (au_val b);
  au_eq64_ok a b : au_wf a -> in_u 64 b -> au_eq64 a b = (au_val a =? b);
  au_bits_ok a : au_wf a -> au_bits a = blen (au_val a);
  au_low64_ok a : au_wf a -> au_low64 a = au_val a mod 2 ^ 64
}.

(** Widening [arith_uint512(const arith_uint256&)] and [ArithU512ToU256]. *)
Class ArithWiden (U V : Type) : Type := { au_widen : U -> V; au_narrow : V -> U }.
Class WidenLaws (BITS : Z) (U V : Type) `{ArithLaws BITS U, ArithLaws (2 * BITS) V, !ArithWiden U V} : Prop := {
  au_widen_ok a : au_wf a -> au_wf (au_widen a) /\ au_val (au_widen a) = au_val a;
  au_narrow_ok v : au_wf v -> au_wf (au_narrow v) /\ au_val (au_narrow v) = au_val v mod 2 ^ BITS
}.

Section Compare.
Context {BITS : Z} {U : Type} `{ArithLaws BITS U}.

Lemma au_eqb_ok a b : au_wf a -> au_wf b -> au_eqb a b = (au_val a =? au_val b).
Proof.
  intros. unfold au_eqb. rewrite au_cmp_ok by done. unfold cmp3.
  destruct (Z.ltb_spec (au_val a) (au_val b)), (Z.ltb_spec (au_val b) (au_val a)),
    (Z.eqb_spec (au_val a) (au_val b)); try done; lia.
Qed.

Lemma au_ltb_ok a b : au_wf a -> au_wf b -> au_ltb a b = (au_val a <? au_val b).
Proof.
  intros. unfold au_ltb. rewrite au_cmp_ok by done. unfold cmp3.
  destruct (Z.ltb_spec (au_val a) (au_val b)), (Z.ltb_spec (au_val b) (au_val a)); try done; lia.
Qed.

Lemma au_gtb_ok a b : au_wf a -> au_wf b -> au_gtb a b = (au_val b <? au_val a).
Proof.
  intros. unfold au_gtb. rewrite au_cmp_ok by done. unfold cmp3.
  destruct (Z.ltb_spec (au_val a) (au_val b)), (Z.ltb_spec (au_val b) (au_val a)); try done; lia.
Qed.
End Compare.

(** ** The limbs implement the interface *)

Definition limb_ops (W : nat) (BITS : Z) : ArithUint BITS limbs := {|
  au_of_u64 := Limb.of_u64 W; au_not := Limb.lnot; au_add := Limb.add; au_sub := Limb.sub;
  au_mul32 := Limb.mul32; au_div := Limb.div; au_shl := Limb.shl; au_shr := Limb.shr;
  au_cmp := Limb.CompareTo; au_eq64 := Limb.EqualTo; au_bits := Limb.bits; au_low64 := Limb.GetLow64 |}.

Lemma limb_laws (W : nat) (BITS : Z) : BITS = 32 * Z.of_nat W -> (2 <= W)%nat ->
  @ArithLaws BITS limbs (limb_ops W BITS).
Proof.
  intros -> HW. assert (HM : 2 ^ (32 * Z.of_nat W) = modulus W) by reflexivity.
  refine (Build_ArithLaws _ _ _ (limbs_wf W) eval _ _ _ _ _ _ _ _ _ _ _ _ _ _ _);
    [lia|cbn; intros; rewrite ?HM; first [by apply eval_range | by apply of_u64_spec
      | by apply lnot_spec | split; [by apply add_wf|by apply eval_add] | by apply sub_spec
      | by apply mul32_spec | by apply div_spec | by eapply div_zero | by apply shl_spec
      | by apply shr_spec | by eapply compare_spec | by eapply equalto_spec
      | by eapply bits_spec | by eapply low64_spec]..].
Defined.

#[export] Instance limb256 : ArithUint 256 limbs := limb_ops 8 256.
#[export] Instance limb512 : ArithUint 512 limbs := limb_ops 16 512.
#[export] Instance limb256_laws : ArithLaws 256 limbs := limb_laws 8 256 eq_refl ltac:(lia).
#[export] Instance limb512_laws : ArithLaws 512 limbs := limb_laws 16 512 eq_refl ltac:(lia).

#[export] Instance limb_widen : ArithWiden limbs limbs :=
  {| au_widen a := take 8 a ++ replicate 8 0; au_narrow v := take 8 v |}.

(** ** The specification-level instance: [Z] with explicit wrap-around *)

Definition z_ops (BITS : Z) : ArithUint BITS Z := {|
  au_of_u64 b := b;
  au_not a := 2 ^ BITS - 1 - a;
  au_add a b := (a + b) mod 2 ^ BITS;
  au_sub a b := (a - b) mod 2 ^ BITS;
  au_mul32 a b := (a * b) mod 2 ^ BITS;
  au_div a b := if b =? 0 then None else Some (a / b);
  au_shl a n := Z.shiftl a n mod 2 ^ BITS;
  au_shr a n := Z.shiftr a n;
  au_cmp := cmp3;
  au_eq64 a b := a =? b;
  au_bits := blen;
  au_low64 a := a mod 2 ^ 64 |}.

#[export] Instance z256 : ArithUint 256 Z := z_ops 256.
#[export] Instance z512 : ArithUint 512 Z := z_ops 512.
#[export] Instance z_widen : ArithWiden Z Z := {| au_widen a := a; au_narrow v := v mod 2 ^ 256 |}.

Lemma z_shr_range BITS a n : 0 <= a < 2 ^ BITS -> 0 <= n -> 0 <= Z.shiftr a n < 2 ^ BITS.
Proof.
  intros. rewrite Z.shiftr_div_pow2 by done. assert (1 <= 2 ^ n) by lia.
  split; [apply Z.div_pos; lia|]. apply Z.div_lt_upper_bound; nia.
Qed.

Lemma z_laws (BITS : Z) : 64 <= BITS -> @ArithLaws BITS Z (z_ops BITS).
Proof.
  intros HB. assert (2 ^ 64 <= 2 ^ BITS) by (apply Z.pow_le_mono_r; lia).
  refine (Build_ArithLaws _ _ _ (fun a => 0 <= a < 2 ^ BITS) (fun a => a) _ _ _ _ _ _ _ _ _ _ _ _ _ _ _);
    cbn; unfold in_u; intros; try done; try lia;
    try (split; [apply Z.mod_pos_bound; lia|done]).
  - destruct (Z.eqb_spec b 0); [done|]. eexists; repeat split; [by apply Z.div_pos; lia|].
    apply Z.div_lt_upper_bound; nia.
  - by subst.
  - split; [by apply z_shr_range|done].
Defined.

#[export] Instance z256_laws : ArithLaws 256 Z := z_laws 256 ltac:(lia).
#[export] Instance z512_laws : ArithLaws 512 Z := z_laws 512 ltac:(lia).

Lemma eval_app a b : eval (a ++ b) = eval a + modulus (length a) * eval b.
Proof.
  induction a as [|x a IH]; cbn [app eval length]; [rewrite modulus_0; lia|].
  rewrite IH, modulus_S. ring.
Qed.

Lemma eval_take W p a : limbs_wf W a -> (p <= W)%nat -> eval (take p a) = eval a mod modulus p.
Proof.
  intros Ha Hp. rewrite <- (take_drop p a) at 2. rewrite eval_app.
  rewrite length_take_le by (destruct Ha; lia).
  pose proof (modulus_pos p). rewrite (Z.mul_comm (modulus p)), Z.mod_add by lia.
  symmetry. apply Z.mod_small, eval_range, (take_wf W); done.
Qed.

Lemma limb_widen_ok a : limbs_wf 8 a ->
  limbs_wf 16 (au_widen (V := limbs) a) /\ eval (au_widen a) = eval a.
Proof.
  intros Ha. cbn. rewrite take_ge by (destruct Ha; lia). split.
  - destruct Ha. split; [rewrite length_app; simpl; lia|].
    apply Forall_app. split; [done|]. by apply (zero_wf 8).
  - rewrite eval_app. change [0; 0; 0; 0; 0; 0; 0; 0] with (Limb.zero 8). rewrite eval_zero. lia.
Qed.

#[export] Instance limb_widen_laws : WidenLaws 256 limbs limbs.
Proof.
  split.
  - apply limb_widen_ok.
  - cbn. intros v Hv. split; [by apply (take_wf 16); [|lia]|].
    by rewrite (eval_take 16) by (auto; lia).
Qed.

#[export] Instance z_widen_laws : WidenLaws 256 Z Z.
Proof.
  split; cbn; intros.
  - split; [|done]. assert (2 ^ 256 <= 2 ^ 512) by (apply Z.pow_le_mono_r; lia). lia.
  - split; [apply Z.mod_pos_bound; lia|done].
Qed.

(** ** Properties *)

(** addition, subtraction, multiplication, negation, complement and shifts of
    [base_uint] on its 32-bit limbs are the operations of the integers modulo [2^BITS], and
    comparison and bit length are exact. *)
Theorem limb_ring_exact (W : nat) (a b : limbs) (n : Z) :
  limbs_wf W a -> limbs_wf W b -> 0 <= n ->
  eval (Limb.add a b) = (eval a + eval b) mod modulus W /\
  eval (Limb.sub a b) = (eval a - eval b) mod modulus W /\
  eval (Limb.mul a b) = (eval a * eval b) mod modulus W /\
  eval (Limb.neg a) = (- eval a) mod modulus W /\
  eval (Limb.lnot a) = modulus W - 1 - eval a /\
  eval (Limb.shl a n) = Z.shiftl (eval a) n mod modulus W /\
  eval (Limb.shr a n) = Z.shiftr (eval a) n /\
  Limb.CompareTo a b = cmp3 (eval a) (eval b) /\
  Limb.bits a = blen (eval a).
Proof.
  intros Ha Hb Hn.
  split_and!; [by apply eval_add|by apply sub_spec|by apply mul_spec|by apply neg_spec|by apply lnot_spec
    |by apply shl_spec|by apply (shr_spec W)|by eapply compare_spec|by eapply bits_spec].
Qed.

Lemma limb_ring_exact_witness :
  let a := [4294967295; 4294967295; 7] in let b := [1; 0; 4294967295] in
  eval (Limb.add a b) = (eval a + eval b) mod modulus 3 /\
  eval (Limb.sub a b) = (eval a - eval b) mod modulus 3 /\
  eval (Limb.mul a b) = (eval a * eval b) mod modulus 3 /\
  eval (Limb.neg a) = (- eval a) mod modulus 3 /\
  eval (Limb.lnot a) = modulus 3 - 1 - eval a /\
  eval (Limb.shl a 33) = Z.shiftl (eval a) 33 mod modulus 3 /\
  eval (Limb.shr a 33) = Z.shiftr (eval a) 33 /\
  Limb.CompareTo a b = cmp3 (eval a) (eval b) /\
  Limb.bits a = blen (eval a).
Proof.
  intros a b. apply (limb_ring_exact 3 a b 33); [split; [done|]..|lia];
    repeat constructor; unfold limb_ok; lia.
Defined.

(** [operator/=] throws exactly on a zero divisor, and otherwise its shift-and-subtract
    loop terminates with the floor quotient of the two numbers. *)
Theorem limb_div_exact (W : nat) (a b : limbs) : limbs_wf W a -> limbs_wf W b ->
  (eval b = 0 <-> Limb.div a b = None) /\
  (eval b <> 0 -> exists q, Limb.div a b = Some q /\ limbs_wf W q /\ eval q = eval a / eval b).
Proof.
  intros Ha Hb. split; [|by apply div_spec]. split; [by apply (div_zero W)|].
  intros E. destruct (Z.eq_dec (eval b) 0) as [|Hnz]; [done|].
  destruct (div_spec W a b Ha Hb Hnz) as (q & E' & _). congruence.
Qed.

Lemma limb_div_exact_witness :
  (eval [3; 0] = 0 <-> Limb.div [5; 9] [3; 0] = None) /\
  (eval [3; 0] <> 0 -> exists q, Limb.div [5; 9] [3; 0] = Some q /\ limbs_wf 2 q /\ eval q = eval [5; 9] / eval [3; 0]).
Proof. apply limb_div_exact; (split; [done|]); repeat constructor; unfold limb_ok; lia. Defined.
