(* ===== verification/Bytes.v ===== *)
(** * Bytes: [chain/endian.hpp] and the opaque blobs of [util/uint.hpp/.cpp]

    A byte is a [Z] in [[0,256)], a buffer a list of bytes.  The endian helpers
    are translated with the host byte order as an explicit argument and shown
    not to depend on it; [base_blob] is a fixed-size byte list with its null
    test, lexicographic order and hexadecimal text form. *)
From stdpp Require Import strings.
From S2P Require Import Prelude Arith.

Abbreviation bytes := (list Z).

Definition byte_ok (x : Z) : Prop := 0 <= x < 2 ^ 8.
Definition blob_wf (n : nat) (b : bytes) : Prop := length b = n /\ Forall byte_ok b.

(** The number a byte list denotes, least significant byte first. *)
Fixpoint le_combine (bs : bytes) : Z :=
  match bs with [] => 0 | b :: bs' => b + 2 ^ 8 * le_combine bs' end.
Fixpoint le_split (n : nat) (v : Z) : bytes :=
  match n with O => [] | S n' => v mod 2 ^ 8 :: le_split n' (v / 2 ^ 8) end.

Definition bytes_mod (n : nat) : Z := 2 ^ (8 * Z.of_nat n).

(** ** [chain/endian.hpp] *)

Module Endian.

Inductive host := Little | Big.

Definition byteswap16 (x : Z) : Z := u16 (Z.lor (Z.shiftr x 8) (Z.shiftl x 8)).

Definition byteswap32 (x : Z) : Z :=
  Z.lor (Z.lor (Z.lor (Z.land (Z.shiftr x 24) 0x000000FF) (Z.land (Z.shiftr x 8) 0x0000FF00))
               (Z.land (u32 (Z.shiftl x 8)) 0x00FF0000))
        (Z.land (u32 (Z.shiftl x 24)) 0xFF000000).

Definition byteswap64 (x : Z) : Z :=
  Z.lor (Z.lor (Z.lor (Z.lor (Z.lor (Z.lor (Z.lor
    (Z.land (Z.shiftr x 56) 0x00000000000000FF)
    (Z.land (Z.shiftr x 40) 0x000000000000FF00))
    (Z.land (Z.shiftr x 24) 0x0000000000FF0000))
    (Z.land (Z.shiftr x 8) 0x00000000FF000000))
    (Z.land (u64 (Z.shiftl x 8)) 0x000000FF00000000))
    (Z.land (u64 (Z.shiftl x 24)) 0x0000FF0000000000))
    (Z.land (u64 (Z.shiftl x 40)) 0x00FF000000000000))
    (Z.land (u64 (Z.shiftl x 56)) 0xFF00000000000000).

(** [memcpy] between an integer object and memory, on either host. *)
Definition load (h : host) (bs : bytes) : Z :=
  le_combine (match h with Little => bs | Big => rev bs end).
Definition store (h : host) (n : nat) (v : Z) : bytes :=
  match h with Little => le_split n v | Big => rev (le_split n v) end.

Definition swap_if (c : bool) (swap : Z -> Z) (v : Z) : Z := if c then swap v else v.
Definition is_big (h : host) : bool := match h with Big => true | Little => false end.
Definition is_little (h : host) : bool := negb (is_big h).

Definition ReadLE16 (h : host) (p : bytes) : Z := swap_if (is_big h) byteswap16 (load h (take 2 p)).
Definition ReadLE32 (h : host) (p : bytes) : Z := swap_if (is_big h) byteswap32 (load h (take 4 p)).
Definition ReadLE64 (h : host) (p : bytes) : Z := swap_if (is_big h) byteswap64 (load h (take 8 p)).
Definition WriteLE16 (h : host) (v : Z) : bytes := store h 2 (swap_if (is_big h) byteswap16 v).
Definition WriteLE32 (h : host) (v : Z) : bytes := store h 4 (swap_if (is_big h) byteswap32 v).
Definition WriteLE64 (h : host) (v : Z) : bytes := store h 8 (swap_if (is_big h) byteswap64 v).
Definition ReadBE16 (h : host) (p : bytes) : Z := swap_if (is_little h) byteswap16 (load h (take 2 p)).
Definition ReadBE32 (h : host) (p : bytes) : Z := swap_if (is_little h) byteswap32 (load h (take 4 p)).
Definition ReadBE64 (h : host) (p : bytes) : Z := swap_if (is_little h) byteswap64 (load h (take 8 p)).
Definition WriteBE16 (h : host) (v : Z) : bytes := store h 2 (swap_if (is_little h) byteswap16 v).
Definition WriteBE32 (h : host) (v : Z) : bytes := store h 4 (swap_if (is_little h) byteswap32 v).
Definition WriteBE64 (h : host) (v : Z) : bytes := store h 8 (swap_if (is_little h) byteswap64 v).

End Endian.

(** [memcpy(data + off, bs, len)] into a buffer. *)
Definition write_at (off : nat) (bs data : bytes) : bytes :=
  take off data ++ bs ++ drop (off + length bs) data.

(** ** Byte lists and their values *)

Lemma byte_mod x : byte_ok (x mod 2 ^ 8).
Proof. apply Z.mod_pos_bound. lia. Qed.
#[export] Hint Resolve byte_mod : machine.

Lemma bytes_mod_pos n : 0 < bytes_mod n.
Proof. apply Z.pow_pos_nonneg; lia. Qed.
Lemma bytes_mod_S n : bytes_mod (S n) = 2 ^ 8 * bytes_mod n.
Proof. unfold bytes_mod. rewrite <- Z.pow_add_r by lia. f_equal. lia. Qed.

Lemma length_le_split n v : length (le_split n v) = n.
Proof. revert v. induction n; simpl; intros; f_equal; auto. Qed.

Lemma le_split_ok n v : Forall byte_ok (le_split n v).
Proof. revert v. induction n; intros v; constructor; auto with machine. Qed.

Lemma le_split_wf n v : blob_wf n (le_split n v).
Proof. split; [apply length_le_split|apply le_split_ok]. Qed.

Lemma le_combine_range n b : blob_wf n b -> 0 <= le_combine b < bytes_mod n.
Proof.
  intros [<- Hb]. induction Hb as [|x b Hx Hb IH]; simpl length; [by vm_compute|].
  rewrite bytes_mod_S. unfold byte_ok in Hx. simpl le_combine. lia.
Qed.

Lemma le_combine_split n v : le_combine (le_split n v) = v mod bytes_mod n.
Proof.
  revert v. induction n as [|n IH]; intros v; [by rewrite Z.mod_1_r|].
  cbn [le_split le_combine]. rewrite IH, bytes_mod_S.
  rewrite Z.rem_mul_r by (try lia; apply bytes_mod_pos). reflexivity.
Qed.

Lemma le_split_combine b : Forall byte_ok b -> le_split (length b) (le_combine b) = b.
Proof.
  induction 1 as [|x b Hx Hb IH]; [done|]. cbn [length le_split le_combine]. unfold byte_ok in Hx.
  f_equal; [zlia|]. replace ((x + 2 ^ 8 * le_combine b) / 2 ^ 8) with (le_combine b) by zlia. done.
Qed.

Lemma le_combine_inj n a b : blob_wf n a -> blob_wf n b -> le_combine a = le_combine b -> a = b.
Proof.
  intros [Ha Ha'] [Hb Hb'] H. rewrite <- (le_split_combine a), <- (le_split_combine b) by done.
  by rewrite H, Ha, Hb.
Qed.

Lemma le_combine_app a b : le_combine (a ++ b) = le_combine a + bytes_mod (length a) * le_combine b.
Proof.
  induction a as [|x a IH]; cbn [app le_combine length]; [change (bytes_mod 0) with 1; lia|].
  rewrite IH, bytes_mod_S. ring.
Qed.

Lemma blob_wf_rev n b : blob_wf n b -> blob_wf n (rev b).
Proof. intros [<- H]. split; [by rewrite length_rev|]. by apply Forall_rev. Qed.

(** ** Byte swapping *)

Lemma byteswap16_split b0 b1 : byte_ok b0 -> byte_ok b1 ->
  Endian.byteswap16 (le_combine [b0; b1]) = le_combine [b1; b0].
Proof.
  unfold byte_ok, Endian.byteswap16, u16. intros. cbn [le_combine].
  rewrite Z.shiftr_div_pow2, Z.shiftl_mul_pow2 by lia. rewrite lor_shifted; zlia.
Qed.

Lemma byteswap32_split b0 b1 b2 b3 : byte_ok b0 -> byte_ok b1 -> byte_ok b2 -> byte_ok b3 ->
  Endian.byteswap32 (le_combine [b0; b1; b2; b3]) = le_combine [b3; b2; b1; b0].
Proof.
  unfold byte_ok, Endian.byteswap32, u32. intros. cbn [le_combine].
  set (x := b0 + _).
  change 0xFF with (255 * 2 ^ 0). change 0xFF00 with (255 * 2 ^ 8).
  change 0xFF0000 with (255 * 2 ^ 16). change 0xFF000000 with (255 * 2 ^ 24).
  rewrite !land_byte_at, !Z.shiftr_div_pow2, !Z.shiftl_mul_pow2 by lia.
  replace ((x / 2 ^ 24 / 2 ^ 0) mod 2 ^ 8 * 2 ^ 0) with b3 by (subst x; zlia).
  replace ((x / 2 ^ 8 / 2 ^ 8) mod 2 ^ 8) with b2 by (subst x; zlia).
  replace ((x * 2 ^ 8) mod 2 ^ 32 / 2 ^ 16 mod 2 ^ 8) with b1 by (subst x; zlia).
  replace ((x * 2 ^ 24) mod 2 ^ 32 / 2 ^ 24 mod 2 ^ 8) with b0 by (subst x; zlia).
  clearbody x. rewrite (lor_shifted b3 b2 8) by lia.
  rewrite (lor_shifted _ b1 16) by lia. rewrite (lor_shifted _ b0 24) by lia. lia.
Qed.

(** The eight-byte swap, one byte of the argument at a time. *)
Lemma byte_of_combine8 b0 b1 b2 b3 b4 b5 b6 b7 :
  byte_ok b0 -> byte_ok b1 -> byte_ok b2 -> byte_ok b3 -> byte_ok b4 -> byte_ok b5 -> byte_ok b6 -> byte_ok b7 ->
  let x := le_combine [b0; b1; b2; b3; b4; b5; b6; b7] in
  x / 2 ^ 56 mod 2 ^ 8 = b7 /\ x / 2 ^ 48 mod 2 ^ 8 = b6 /\ x / 2 ^ 40 mod 2 ^ 8 = b5 /\
  x / 2 ^ 32 mod 2 ^ 8 = b4 /\ x / 2 ^ 24 mod 2 ^ 8 = b3 /\ x / 2 ^ 16 mod 2 ^ 8 = b2 /\
  x / 2 ^ 8 mod 2 ^ 8 = b1 /\ x mod 2 ^ 8 = b0.
Proof. unfold byte_ok. intros. cbv zeta. cbn [le_combine]. repeat split; zlia. Qed.

Lemma shl_byte x k j : 0 <= k <= j -> j + 8 <= 64 ->
  (x * 2 ^ k) mod 2 ^ 64 / 2 ^ j mod 2 ^ 8 = x / 2 ^ (j - k) mod 2 ^ 8.
Proof.
  intros Hk Hj.
  rewrite <- !Z.shiftl_mul_pow2, <- !Z.shiftr_div_pow2, <- !Z.land_ones by lia.
  apply Z.bits_inj'. intros n Hn.
  rewrite !Z.land_spec. rewrite !Z.shiftr_spec by done.
  rewrite Z.land_spec. rewrite Z.shiftl_spec by lia.
  destruct (Z.lt_ge_cases n 8).
  - rewrite (Z.ones_spec_low 64) by lia. rewrite andb_true_r. do 2 f_equal. lia.
  - rewrite (Z.ones_spec_high 8) by lia. by rewrite !andb_false_r.
Qed.

Lemma byteswap64_split b0 b1 b2 b3 b4 b5 b6 b7 :
  byte_ok b0 -> byte_ok b1 -> byte_ok b2 -> byte_ok b3 -> byte_ok b4 -> byte_ok b5 -> byte_ok b6 -> byte_ok b7 ->
  Endian.byteswap64 (le_combine [b0; b1; b2; b3; b4; b5; b6; b7]) = le_combine [b7; b6; b5; b4; b3; b2; b1; b0].
Proof.
  intros. destruct (byte_of_combine8 b0 b1 b2 b3 b4 b5 b6 b7)
    as (E7 & E6 & E5 & E4 & E3 & E2 & E1 & E0); [done..|].
  unfold Endian.byteswap64, u64. set (x := le_combine [b0; _; _; _; _; _; _; _]) in *.
  change 0xFF with (255 * 2 ^ 0). change 0xFF00 with (255 * 2 ^ 8).
  change 0xFF0000 with (255 * 2 ^ 16). change 0xFF000000 with (255 * 2 ^ 24).
  change 0xFF00000000 with (255 * 2 ^ 32). change 0xFF0000000000 with (255 * 2 ^ 40).
  change 0xFF000000000000 with (255 * 2 ^ 48). change 0xFF00000000000000 with (255 * 2 ^ 56).
  rewrite !land_byte_at, !Z.shiftr_div_pow2, !Z.shiftl_mul_pow2 by lia.
  rewrite !shl_byte by lia. rewrite !Z.div_div by lia. rewrite <- !Z.pow_add_r by lia.
  change (56 + 0) with 56. change (40 + 8) with 48. change (24 + 16) with 40. change (8 + 24) with 32.
  change (32 - 8) with 24. change (40 - 24) with 16. change (48 - 40) with 8. change (56 - 56) with 0.
  rewrite Z.pow_0_r, Z.div_1_r, E7, E6, E5, E4, E3, E2, E1, E0. clear E7 E6 E5 E4 E3 E2 E1 E0. clearbody x.
  unfold byte_ok in *. cbn [le_combine]. rewrite Z.mul_1_r.
  rewrite (lor_shifted b7 b6 8) by lia. rewrite (lor_shifted _ b5 16) by lia.
  rewrite (lor_shifted _ b4 24) by lia. rewrite (lor_shifted _ b3 32) by lia.
  rewrite (lor_shifted _ b2 40) by lia. rewrite (lor_shifted _ b1 48) by lia.
  rewrite (lor_shifted _ b0 56) by lia. lia.
Qed.

(** ** The endian helpers do not depend on the host *)

Section Swap.
Context (n : nat) (swap : Z -> Z).
Hypothesis swap_ok : forall b, blob_wf n b -> swap (le_combine b) = le_combine (rev b).

Lemma store_split h v : 0 <= v < bytes_mod n ->
  Endian.store h n (Endian.swap_if (Endian.is_big h) swap v) = le_split n v /\
  Endian.store h n (Endian.swap_if (Endian.is_little h) swap v) = rev (le_split n v).
Proof.
  intros Hv. pose proof (le_split_wf n v) as Hw.
  assert (Hs : le_split n (swap v) = rev (le_split n v)).
  { rewrite <- (Z.mod_small v _ Hv) at 1. rewrite <- le_combine_split, swap_ok by done.
    pose proof (le_split_combine _ (proj2 (blob_wf_rev _ _ Hw))) as E.
    by rewrite length_rev, length_le_split in E. }
  destruct h; cbn; rewrite ?Hs, ?rev_involutive; done.
Qed.

Lemma load_combine h b : blob_wf n b ->
  Endian.swap_if (Endian.is_big h) swap (Endian.load h b) = le_combine b /\
  Endian.swap_if (Endian.is_little h) swap (Endian.load h b) = le_combine (rev b).
Proof.
  intros Hb. destruct h; cbn; rewrite ?swap_ok by auto using blob_wf_rev;
    rewrite ?rev_involutive; done.
Qed.
End Swap.

Ltac blob_cases Hb :=
  let H := fresh in destruct Hb as [? H];
  repeat (match goal with b : list Z |- _ => destruct b; try discriminate end);
  rewrite ?Forall_cons in H; destruct_and? H.

Lemma swap16_ok b : blob_wf 2 b -> Endian.byteswap16 (le_combine b) = le_combine (rev b).
Proof. intros Hb. blob_cases Hb. cbn [rev app]. by apply byteswap16_split. Qed.
Lemma swap32_ok b : blob_wf 4 b -> Endian.byteswap32 (le_combine b) = le_combine (rev b).
Proof. intros Hb. blob_cases Hb. cbn [rev app]. by apply byteswap32_split. Qed.
Lemma swap64_ok b : blob_wf 8 b -> Endian.byteswap64 (le_combine b) = le_combine (rev b).
Proof. intros Hb. blob_cases Hb. cbn [rev app]. by apply byteswap64_split. Qed.

Lemma WriteLE32_eq h v : in_u 32 v -> Endian.WriteLE32 h v = le_split 4 v.
Proof. intros. by apply (store_split 4 _ swap32_ok). Qed.
Lemma WriteLE16_eq h v : in_u 16 v -> Endian.WriteLE16 h v = le_split 2 v.
Proof. intros. by apply (store_split 2 _ swap16_ok). Qed.
Lemma WriteLE64_eq h v : in_u 64 v -> Endian.WriteLE64 h v = le_split 8 v.
Proof. intros. by apply (store_split 8 _ swap64_ok). Qed.
Lemma WriteBE16_eq h v : in_u 16 v -> Endian.WriteBE16 h v = rev (le_split 2 v).
Proof. intros. by apply (store_split 2 _ swap16_ok). Qed.
Lemma WriteBE32_eq h v : in_u 32 v -> Endian.WriteBE32 h v = rev (le_split 4 v).
Proof. intros. by apply (store_split 4 _ swap32_ok). Qed.
Lemma WriteBE64_eq h v : in_u 64 v -> Endian.WriteBE64 h v = rev (le_split 8 v).
Proof. intros. by apply (store_split 8 _ swap64_ok). Qed.

Lemma blob_take n p : (n <= length p)%nat -> Forall byte_ok p -> blob_wf n (take n p).
Proof. intros ? ?. split; [rewrite length_take; lia|by apply Forall_take]. Qed.

Lemma ReadLE16_eq h p : (2 <= length p)%nat -> Forall byte_ok p ->
  Endian.ReadLE16 h p = le_combine (take 2 p).
Proof. intros. by apply (load_combine 2 _ swap16_ok), blob_take. Qed.
Lemma ReadLE32_eq h p : (4 <= length p)%nat -> Forall byte_ok p ->
  Endian.ReadLE32 h p = le_combine (take 4 p).
Proof. intros. by apply (load_combine 4 _ swap32_ok), blob_take. Qed.
Lemma ReadLE64_eq h p : (8 <= length p)%nat -> Forall byte_ok p ->
  Endian.ReadLE64 h p = le_combine (take 8 p).
Proof. intros. by apply (load_combine 8 _ swap64_ok), blob_take. Qed.
Lemma ReadBE16_eq h p : (2 <= length p)%nat -> Forall byte_ok p ->
  Endian.ReadBE16 h p = le_combine (rev (take 2 p)).
Proof. intros. by apply (load_combine 2 _ swap16_ok), blob_take. Qed.
Lemma ReadBE32_eq h p : (4 <= length p)%nat -> Forall byte_ok p ->
  Endian.ReadBE32 h p = le_combine (rev (take 4 p)).
Proof. intros. by apply (load_combine 4 _ swap32_ok), blob_take. Qed.
Lemma ReadBE64_eq h p : (8 <= length p)%nat -> Forall byte_ok p ->
  Endian.ReadBE64 h p = le_combine (rev (take 8 p)).
Proof. intros. by apply (load_combine 8 _ swap64_ok), blob_take. Qed.

(** ** [base_blob] ([util/uint.hpp], [util/uint.cpp]) *)

(** Characters are [Z] codes; [str] turns a literal into its codes. *)
Definition str (s : string) : list Z := (fun c => Z.of_N (Ascii.N_of_ascii c)) <$> String.list_ascii_of_string s.

Module Blob.

(** [base_blob()] / [SetNull]. *)
Definition SetNull (n : nat) : bytes := replicate n 0.
(** [explicit base_blob(uint8_t v) : m_data{v}]. *)
Definition of_byte (n : nat) (v : Z) : bytes := v :: replicate (n - 1) 0.

Definition IsNull (b : bytes) : bool := forallb (fun v => v =? 0) b.

(** [Compare]: [memcmp], the first differing byte from the front decides. *)
Fixpoint Compare (a b : bytes) : Z :=
  match a, b with
  | x :: a', y :: b' => if x <? y then -1 else if y <? x then 1 else Compare a' b'
  | _, _ => 0
  end.
Definition eqb (a b : bytes) : bool := Compare a b =? 0.
Definition ltb (a b : bytes) : bool := Compare a b <? 0.

(** [HexDigit]. *)
Definition HexDigit (c : Z) : Z :=
  if (48 <=? c) && (c <=? 57) then c - 48
  else if (97 <=? c) && (c <=? 102) then c - 97 + 10
  else if (65 <=? c) && (c <=? 70) then c - 65 + 10
  else -1.

(** One lower-case digit as [std::hex] prints it, and two of them with
    [setw(2)], [setfill('0')]. *)
Definition hex_char (d : Z) : Z := if d <? 10 then 48 + d else 97 + (d - 10).
Definition hex_byte (x : Z) : list Z := [hex_char (x / 16); hex_char (x mod 16)].

(** [GetHex]: the bytes from the last one to the first. *)
Definition GetHex (b : bytes) : list Z := concat (hex_byte <$> rev b).

(** The scan [while (HexDigit( *psz) != -1) psz++]; the end of the list is the
    terminating NUL. *)
Fixpoint hex_prefix (s : list Z) : list Z :=
  match s with
  | c :: s' => if HexDigit c =? -1 then [] else c :: hex_prefix s'
  | [] => []
  end.

Definition skip_0x (s : list Z) : list Z :=
  match s with
  | c0 :: c1 :: s' => if (c0 =? 48) && ((c1 =? 120) || (c1 =? 88)) then s' else s
  | _ => s
  end.

(** The conversion loop: [rd] holds the digits from the last one backwards,
    [room] is [pend - p1]. *)
Fixpoint hex_fill (rd : list Z) (room : nat) : bytes :=
  match room, rd with
  | S r, d0 :: d1 :: rd' => Z.lor (HexDigit d0) (u8 (Z.shiftl (HexDigit d1) 4)) :: hex_fill rd' r
  | S _, [d0] => [HexDigit d0]
  | _, _ => []
  end.

Definition SetHex (n : nat) (s : list Z) : bytes :=
  let filled := hex_fill (rev (hex_prefix (skip_0x s))) n in
  filled ++ replicate (n - length filled) 0.

(** [GetUint64(pos)], [GetUint32(pos)] ([None]: the failed assertion). *)
Definition GetUint64 (h : Endian.host) (b : bytes) (pos : nat) : Z := Endian.ReadLE64 h (drop (pos * 8) b).
Definition GetUint32 (h : Endian.host) (b : bytes) (pos : Z) : option Z :=
  if (0 <=? pos) && (pos * 4 + 4 <=? Z.of_nat (length b))
  then Some (Endian.ReadLE32 h (drop (Z.to_nat pos * 4) b)) else None.

End Blob.


(** The conversions of [arith_uint256] from and to [uint256]. *)
Definition UintToArith256 (h : Endian.host) (a : bytes) : limbs :=
  (fun x => Endian.ReadLE32 h (drop (x * 4) a)) <$> seq 0 8.
Definition ArithToUint256 (h : Endian.host) (a : limbs) : bytes :=
  concat (Endian.WriteLE32 h <$> a).

(** ** Order and null test of blobs *)

Lemma blob_compare_refl a : Blob.Compare a a = 0.
Proof. induction a as [|x a IH]; [done|]. cbn [Blob.Compare]. by rewrite Z.ltb_irrefl. Qed.

Lemma blob_compare_eq a b : length a = length b -> Blob.Compare a b = 0 -> a = b.
Proof.
  revert b. induction a as [|x a IH]; intros [|y b] Hl; try discriminate; [done|].
  cbn [Blob.Compare]. destruct (Z.ltb_spec x y); [done|]. destruct (Z.ltb_spec y x); [done|].
  intros E. f_equal; [lia|]. apply IH; [simpl in Hl; lia|done].
Qed.

Lemma blob_eqb_eq a b : length a = length b -> Blob.eqb a b = true <-> a = b.
Proof.
  intros Hl. unfold Blob.eqb. rewrite Z.eqb_eq. split; [by apply blob_compare_eq|].
  intros ->. apply blob_compare_refl.
Qed.

Lemma blob_compare_antisym a b : length a = length b -> Blob.Compare b a = - Blob.Compare a b.
Proof.
  revert b. induction a as [|x a IH]; intros [|y b] Hl; try discriminate; [done|].
  cbn [Blob.Compare]. destruct (Z.ltb_spec x y), (Z.ltb_spec y x); try lia.
  apply IH. simpl in Hl. lia.
Qed.

Lemma blob_ltb_trans a b c : length a = length b -> length b = length c ->
  Blob.ltb a b = true -> Blob.ltb b c = true -> Blob.ltb a c = true.
Proof.
  unfold Blob.ltb. revert b c.
  induction a as [|x a IH]; intros [|y b] [|z c] H1 H2; try discriminate.
  cbn [Blob.Compare].
  destruct (Z.ltb_spec x y), (Z.ltb_spec y z), (Z.ltb_spec y x), (Z.ltb_spec z y),
    (Z.ltb_spec x z), (Z.ltb_spec z x); try lia; try done; simpl in *; eauto with lia.
Qed.

Lemma blob_ltb_irrefl a : Blob.ltb a a = false.
Proof. unfold Blob.ltb. by rewrite blob_compare_refl. Qed.

Lemma blob_ltb_total a b : length a = length b ->
  Blob.ltb a b = true \/ a = b \/ Blob.ltb b a = true.
Proof.
  intros Hl. unfold Blob.ltb. rewrite !Z.ltb_lt, (blob_compare_antisym a b Hl).
  destruct (Z.lt_trichotomy (Blob.Compare a b) 0) as [|[E|]]; [by left| |right; right; lia].
  right; left. by apply blob_compare_eq.
Qed.

Lemma isnull_spec b : Blob.IsNull b = true <-> b = Blob.SetNull (length b).
Proof.
  induction b as [|x b IH]; [done|]. unfold Blob.IsNull, Blob.SetNull in *. cbn [forallb length replicate].
  rewrite andb_true_iff, Z.eqb_eq, IH. split; [by intros [-> <-]|]. intros [= -> <-]. done.
Qed.

Lemma setnull_wf n : blob_wf n (Blob.SetNull n).
Proof. split; [apply length_replicate|]. apply Forall_replicate. unfold byte_ok. lia. Qed.

Lemma le_combine_null n : le_combine (Blob.SetNull n) = 0.
Proof. induction n as [|n IH]; [done|]. unfold Blob.SetNull in *. cbn [replicate le_combine]. lia. Qed.

(** ** Hexadecimal text *)

Definition is_hex (c : Z) : Prop := 0 <= Blob.HexDigit c < 16.

(** Value of a digit string read from its last digit backwards. *)
Fixpoint rhex (rd : list Z) : Z :=
  match rd with [] => 0 | d :: rd' => Blob.HexDigit d + 16 * rhex rd' end.
(** Value of a digit string in reading order. *)
Definition hex_value (s : list Z) : Z := foldl (fun acc c => 16 * acc + Blob.HexDigit c) 0 s.

Lemma hex_value_rev s : hex_value s = rhex (rev s).
Proof.
  unfold hex_value. rewrite <- (rev_involutive s) at 1. generalize (rev s). clear s. intros l.
  induction l as [|d l IH]; [done|]. cbn [rev rhex]. rewrite foldl_app. cbn. lia.
Qed.

Lemma hexdigit_cases c : Blob.HexDigit c = -1 \/ is_hex c.
Proof.
  unfold is_hex, Blob.HexDigit.
  repeat case_match; rewrite ?andb_true_iff, ?Z.leb_le in *; auto; right; lia.
Qed.

Lemma hex_prefix_hex s : Forall is_hex (Blob.hex_prefix s).
Proof.
  induction s as [|c s IH]; [done|]. cbn [Blob.hex_prefix].
  destruct (hexdigit_cases c) as [->|Hc]; [done|].
  destruct (Z.eqb_spec (Blob.HexDigit c) (-1)); [done|]. by constructor.
Qed.

Lemma nibbles_byte d0 d1 : is_hex d0 -> is_hex d1 ->
  Z.lor (Blob.HexDigit d0) (u8 (Z.shiftl (Blob.HexDigit d1) 4)) = Blob.HexDigit d0 + 16 * Blob.HexDigit d1.
Proof.
  unfold is_hex, u8. intros. rewrite Z.shiftl_mul_pow2 by lia.
  rewrite (Z.mod_small (_ * _)) by lia. rewrite lor_shifted by lia. lia.
Qed.

Lemma hex_fill_spec n rd : Forall is_hex rd ->
  Forall byte_ok (Blob.hex_fill rd n) /\ (length (Blob.hex_fill rd n) <= n)%nat /\
  le_combine (Blob.hex_fill rd n) = rhex rd mod bytes_mod n.
Proof.
  revert rd. induction n as [|n IH]; intros rd Hrd.
  { replace (Blob.hex_fill rd 0) with (@nil Z) by by destruct rd as [|? [|? ?]]. split_and!; [done|simpl; lia|]. by rewrite Z.mod_1_r. }
  destruct rd as [|d0 [|d1 rd]]; cbn [Blob.hex_fill].
  - split_and!; [done|simpl; lia|]. by rewrite Z.mod_0_l by (pose proof (bytes_mod_pos (S n)); lia).
  - apply Forall_cons in Hrd as [H0 _]. unfold is_hex in H0. split_and!; [|simpl; lia|].
    + repeat constructor; unfold byte_ok; lia.
    + cbn [le_combine rhex]. rewrite bytes_mod_S. pose proof (bytes_mod_pos n).
      rewrite Z.mod_small; lia.
  - apply Forall_cons in Hrd as [H0 Hrd]. apply Forall_cons in Hrd as [H1 Hrd].
    destruct (IH rd Hrd) as (IHb & IHl & IHv). rewrite nibbles_byte by done. unfold is_hex in *.
    split_and!; [|simpl; lia|].
    + constructor; [unfold byte_ok; lia|done].
    + cbn [le_combine rhex]. rewrite IHv, bytes_mod_S.
      replace (Blob.HexDigit d0 + 16 * (Blob.HexDigit d1 + 16 * rhex rd))
        with (Blob.HexDigit d0 + 16 * Blob.HexDigit d1 + rhex rd * 2 ^ 8) by ring.
      rewrite Z.rem_mul_r by (try lia; apply bytes_mod_pos).
      rewrite Z.mod_add, Z.div_add by lia. set (v := Blob.HexDigit d0 + _).
      rewrite (Z.mod_small v), (Z.div_small v) by lia. done.
Qed.

Lemma sethex_wf n s : blob_wf n (Blob.SetHex n s).
Proof.
  unfold Blob.SetHex. cbv zeta.
  destruct (hex_fill_spec n (rev (Blob.hex_prefix (Blob.skip_0x s)))) as (Hb & Hl & _).
  { apply Forall_rev, hex_prefix_hex. }
  split; [rewrite length_app, length_replicate; lia|].
  apply Forall_app. split; [done|]. apply setnull_wf.
Qed.

Lemma sethex_value n s :
  le_combine (Blob.SetHex n s) = hex_value (Blob.hex_prefix (Blob.skip_0x s)) mod bytes_mod n.
Proof.
  rewrite hex_value_rev. unfold Blob.SetHex. cbv zeta.
  destruct (hex_fill_spec n (rev (Blob.hex_prefix (Blob.skip_0x s)))) as (Hb & Hl & Hv).
  { apply Forall_rev, hex_prefix_hex. }
  rewrite le_combine_app. fold (Blob.SetNull (n - length (Blob.hex_fill (rev (Blob.hex_prefix (Blob.skip_0x s))) n))).
  rewrite le_combine_null, Hv. lia.
Qed.

Lemma hex_char_digit d : 0 <= d < 16 -> Blob.HexDigit (Blob.hex_char d) = d.
Proof.
  intros Hd. unfold Blob.hex_char, Blob.HexDigit. destruct (Z.ltb_spec d 10);
    repeat case_match; rewrite ?andb_true_iff, ?andb_false_iff, ?Z.leb_le, ?Z.leb_gt in *; lia.
Qed.

Lemma gethex_cons x b : Blob.GetHex (x :: b) = Blob.GetHex b ++ Blob.hex_byte x.
Proof.
  unfold Blob.GetHex. cbn [rev]. rewrite fmap_app, concat_app. done.
Qed.

Lemma gethex_hex b : Forall byte_ok b ->
  Forall is_hex (Blob.GetHex b) /\ rhex (rev (Blob.GetHex b)) = le_combine b.
Proof.
  induction 1 as [|x b Hx Hb [IHh IHv]]; [done|]. rewrite gethex_cons, rev_app_distr. unfold byte_ok in Hx.
  assert (H1 : 0 <= x / 16 < 16) by zlia. assert (H2 : 0 <= x mod 16 < 16) by zlia.
  split.
  - apply Forall_app. split; [done|]. repeat constructor; rewrite hex_char_digit; lia.
  - cbn [rev app Blob.hex_byte rhex le_combine]. rewrite !hex_char_digit, IHv by done. zlia.
Qed.

Lemma hex_prefix_all s : Forall is_hex s -> Blob.hex_prefix s = s.
Proof.
  induction 1 as [|c s Hc Hs IH]; [done|]. cbn [Blob.hex_prefix]. unfold is_hex in Hc.
  destruct (Z.eqb_spec (Blob.HexDigit c) (-1)); [lia|]. by f_equal.
Qed.

Lemma skip_0x_hex s : Forall is_hex s -> Blob.skip_0x s = s.
Proof.
  intros Hs. destruct s as [|c0 [|c1 s]]; [done..|]. cbn [Blob.skip_0x].
  apply Forall_cons in Hs as [_ Hs]. apply Forall_cons in Hs as [H1 _].
  destruct (Z.eqb_spec c1 120) as [->|]; [by destruct H1|].
  destruct (Z.eqb_spec c1 88) as [->|]; [by destruct H1|]. by rewrite andb_false_r.
Qed.

Lemma sethex_gethex n b : blob_wf n b -> Blob.SetHex n (Blob.GetHex b) = b.
Proof.
  intros Hb. destruct (gethex_hex b (proj2 Hb)) as [Hh Hv].
  apply (le_combine_inj n); [apply sethex_wf|done|].
  rewrite sethex_value, skip_0x_hex, hex_prefix_all, hex_value_rev, Hv by done.
  apply Z.mod_small, le_combine_range, Hb.
Qed.

Lemma length_gethex b : length (Blob.GetHex b) = (2 * length b)%nat.
Proof. induction b as [|x b IH]; [done|]. rewrite gethex_cons, length_app, IH. simpl. lia. Qed.

(** ** Big integers and blobs denote the same numbers *)

Lemma chunks_eval n a : blob_wf (4 * n) a ->
  limbs_wf n ((fun x => le_combine (take 4 (drop (x * 4) a))) <$> seq 0 n) /\
  eval ((fun x => le_combine (take 4 (drop (x * 4) a))) <$> seq 0 n) = le_combine a.
Proof.
  revert a. induction n as [|n IH]; intros a [Hl Ha].
  { destruct a; [|discriminate]. split; [apply limbs_wf_nil|done]. }
  destruct (IH (drop 4 a)) as [IHw IHv].
  { split; [rewrite length_drop; lia|by apply Forall_drop]. }
  cbn [seq fmap list_fmap]. rewrite <- (fmap_S_seq 0 n), <- list_fmap_compose.
  assert (E : ((fun x => le_combine (take 4 (drop (x * 4) a))) ∘ S) <$> seq 0 n =
              (fun x => le_combine (take 4 (drop (x * 4) (drop 4 a)))) <$> seq 0 n).
  { apply list_fmap_ext. intros _ x _. cbn. rewrite drop_drop. do 3 f_equal. }
  rewrite E. clear E. change (0 * 4)%nat with 0%nat. rewrite drop_0.
  assert (H4 : blob_wf 4 (take 4 a)) by (apply blob_take; [lia|done]).
  split.
  - apply limbs_wf_cons; [|done]. apply (le_combine_range 4 _ H4).
  - cbn [eval]. rewrite IHv. rewrite <- (take_drop 4 a) at 3.
    rewrite le_combine_app, (proj1 H4). done.
Qed.

Lemma UintToArith256_spec h a : blob_wf 32 a ->
  limbs_wf 8 (UintToArith256 h a) /\ eval (UintToArith256 h a) = le_combine a.
Proof.
  intros Ha. unfold UintToArith256.
  rewrite (list_fmap_ext _ (fun x => le_combine (take 4 (drop (x * 4) a)))); [by apply (chunks_eval 8)|].
  intros i x Hx%list_elem_of_lookup_2%elem_of_seq. destruct Ha.
  apply ReadLE32_eq; [rewrite length_drop; lia|by apply Forall_drop].
Qed.

Lemma ArithToUint256_spec h a n : limbs_wf n a ->
  blob_wf (4 * n) (ArithToUint256 h a) /\ le_combine (ArithToUint256 h a) = eval a.
Proof.
  intros [<- Ha]. induction Ha as [|x a Hx Ha [IHw IHv]]; [split; done|].
  unfold ArithToUint256 in *. cbn [fmap list_fmap concat length].
  rewrite WriteLE32_eq by done. destruct IHw as [IHl IHb]. split.
  - split; [rewrite length_app, length_le_split, IHl; lia|].
    apply Forall_app. split; [apply le_split_ok|done].
  - rewrite le_combine_app, length_le_split, le_combine_split, IHv. cbn [eval].
    change (bytes_mod 4) with (2 ^ 32). rewrite Z.mod_small by apply Hx. done.
Qed.

Lemma arith_uint_roundtrip h h' a : blob_wf 32 a -> ArithToUint256 h (UintToArith256 h' a) = a.
Proof.
  intros Ha. destruct (UintToArith256_spec h' a Ha) as [Hw Hv].
  destruct (ArithToUint256_spec h _ 8 Hw) as [Hw' Hv'].
  apply (le_combine_inj 32); [done..|]. by rewrite Hv', Hv.
Qed.

(** ** Buffers *)

Lemma length_write_at off bs data : (off + length bs <= length data)%nat ->
  length (write_at off bs data) = length data.
Proof. intros. unfold write_at. rewrite !length_app, length_take, length_drop. lia. Qed.

Lemma write_at_ok off bs data : Forall byte_ok bs -> Forall byte_ok data -> Forall byte_ok (write_at off bs data).
Proof.
  intros. unfold write_at. rewrite !Forall_app. auto using Forall_take, Forall_drop.
Qed.

(** What a write leaves at its own position. *)
Lemma take_write_at off bs data : (off + length bs <= length data)%nat ->
  take (off + length bs) (write_at off bs data) = take off data ++ bs.
Proof.
  intros. unfold write_at. rewrite app_assoc, take_app_le; [apply take_ge|];
    rewrite length_app, length_take; lia.
Qed.

(** ** Properties *)

(** [SetHex] always yields a blob of the type's width, whose number is
    the hexadecimal prefix of the text (after an optional "0x") modulo the width; printing a blob
    with [GetHex] gives twice as many digits as bytes and reading it back gives the same
    blob. *)
Theorem blob_hex_exact (n : nat) :
  (forall s, blob_wf n (Blob.SetHex n s) /\
     le_combine (Blob.SetHex n s) = hex_value (Blob.hex_prefix (Blob.skip_0x s)) mod bytes_mod n) /\
  (forall b, blob_wf n b -> length (Blob.GetHex b) = (2 * n)%nat /\ Blob.SetHex n (Blob.GetHex b) = b).
Proof.
  split; [intros s; split; [apply sethex_wf|apply sethex_value]|].
  intros b Hb. split; [by rewrite length_gethex, (proj1 Hb)|by apply sethex_gethex].
Qed.

(** [UintToArith256] reads a 32-byte blob as the little-endian number it
    encodes and [ArithToUint256] writes it back, on hosts of either byte order; each is the
    other's inverse. *)
Theorem uint_arith_exact (h h' : Endian.host) :
  (forall a, blob_wf 32 a -> limbs_wf 8 (UintToArith256 h a) /\ eval (UintToArith256 h a) = le_combine a /\
     ArithToUint256 h' (UintToArith256 h a) = a) /\
  (forall v, limbs_wf 8 v -> blob_wf 32 (ArithToUint256 h v) /\ le_combine (ArithToUint256 h v) = eval v).
Proof.
  split.
  - intros a Ha. destruct (UintToArith256_spec h a Ha). split_and!; [done..|by apply arith_uint_roundtrip].
  - intros v Hv. by apply (ArithToUint256_spec h v 8).
Qed.
