(* ===== verification/Compact.v ===== *)
(** * Compact: the 32-bit "compact" encoding of targets and the work of a block

    [arith_uint256::SetCompact], [GetCompact] and the work formula shared by
    [GetBlockProof] and [CalculateHeadersWork], written once against the
    [ArithUint] interface, so that the same code runs on limbs and on [Z]. *)
From S2P Require Import Prelude Arith.

Section Code.
Context {U : Type} `{ArithUint 256 U}.

(** [SetCompact]: the value with the flags [*pfNegative], [*pfOverflow]. *)
Definition SetCompact (nCompact : Z) : U * bool * bool :=
  let nSize := Z.shiftr nCompact 24 in
  let nWord0 := Z.land nCompact 0x007fffff in
  let '(nWord, v) :=
    if nSize <=? 3
    then let nWord := Z.shiftr nWord0 (8 * (3 - nSize)) in (nWord, au_of_u64 nWord)
    else (nWord0, au_shl (au_of_u64 nWord0) (8 * (nSize - 3))) in
  (v,
   negb (nWord =? 0) && negb (Z.land nCompact 0x00800000 =? 0),
   negb (nWord =? 0) && ((34 <? nSize) || ((0xff <? nWord) && (33 <? nSize)) ||
                         ((0xffff <? nWord) && (32 <? nSize)))).

(** [GetCompact]; [None] is a failed [assert]. *)
Definition GetCompact (a : U) (fNegative : bool) : option Z :=
  let nSize := (au_bits a + 7) / 8 in
  let nCompact :=
    if nSize <=? 3
    then u32 (u64 (Z.shiftl (au_low64 a) (8 * (3 - nSize))))
    else u32 (au_low64 (au_shr a (8 * (nSize - 3)))) in
  let '(nCompact, nSize) :=
    if negb (Z.land nCompact 0x00800000 =? 0) then (Z.shiftr nCompact 8, nSize + 1)
    else (nCompact, nSize) in
  if negb (Z.land nCompact (2 ^ 32 - 1 - 0x007fffff) =? 0) then None
  else if negb (nSize <? 256) then None
  else
    let nCompact := Z.lor nCompact (Z.shiftl nSize 24) in
    Some (Z.lor nCompact
            (if fNegative && negb (Z.land nCompact 0x007fffff =? 0) then 0x00800000 else 0)).

(** [GetBlockProof] as a function of the header's [nBits]; [None] is the
    exception of a division by zero. *)
Definition GetBlockProof_ (nBits : Z) : option U :=
  let '(bnTarget, fNegative, fOverflow) := SetCompact nBits in
  if fNegative || fOverflow || au_eq64 bnTarget 0 then Some (au_of_u64 0)
  else if au_eqb bnTarget (au_not (au_of_u64 0)) then Some (au_of_u64 1)
  else match au_div (au_not bnTarget) (au_add bnTarget (au_of_u64 1)) with
       | Some q => Some (au_add q (au_of_u64 1))
       | None => None
       end.

(** The body of the loop of [CalculateHeadersWork]: no guard for the
    all-ones target. *)
Definition header_work_ (nBits : Z) : option U :=
  let '(bnTarget, fNegative, fOverflow) := SetCompact nBits in
  if fNegative || fOverflow || au_eq64 bnTarget 0 then Some (au_of_u64 0)
  else match au_div (au_not bnTarget) (au_add bnTarget (au_of_u64 1)) with
       | Some q => Some (au_add q (au_of_u64 1))
       | None => None
       end.
End Code.


(** ** The fields of a compact number *)

Definition c_size (c : Z) : Z := c / 2 ^ 24.
Definition c_word (c : Z) : Z := c mod 2 ^ 23.

(** The exact number a compact encodes, before truncation to 256 bits. *)
Definition c_value (c : Z) : Z :=
  if c_size c <=? 3 then c_word c / 256 ^ (3 - c_size c) else c_word c * 256 ^ (c_size c - 3).

Lemma land_word c : Z.land c 0x007fffff = c_word c.
Proof. change 0x007fffff with (Z.ones 23). by rewrite Z.land_ones. Qed.

Lemma land_sign c : 0 <= c < 2 ^ 24 -> (Z.land c 0x00800000 =? 0) = (c <? 2 ^ 23).
Proof.
  intros Hc. change 0x00800000 with (Z.ones 1 * 2 ^ 23). rewrite land_field by lia.
  destruct (Z.eqb_spec (c / 2 ^ 23 mod 2 ^ 1 * 2 ^ 23) 0), (Z.ltb_spec c (2 ^ 23)); zlia.
Qed.

Lemma pow256 n : 0 <= n -> 2 ^ (8 * n) = 256 ^ n.
Proof. intros. by rewrite Z.pow_mul_r. Qed.

Lemma pow256_pos n : 0 <= n -> 0 < 256 ^ n.
Proof. intros. apply Z.pow_pos_nonneg; lia. Qed.

(** The overflow test is exactly "does not fit in 256 bits". *)
Lemma overflow_exact size word : 0 <= word < 2 ^ 23 -> 3 < size ->
  negb (word =? 0) && ((34 <? size) || ((0xff <? word) && (33 <? size)) || ((0xffff <? word) && (32 <? size)))
  = (2 ^ 256 <=? word * 256 ^ (size - 3)).
Proof.
  intros Hw Hs. destruct (Z.eqb_spec word 0) as [->|]; [done|]. cbn [negb andb].
  pose proof (pow256_pos (size - 3) ltac:(lia)).
  assert (Hcase : size <= 32 \/ size = 33 \/ size = 34 \/ 34 < size) by lia.
  destruct Hcase as [Hc|[->|[->|Hc]]].
  - assert (256 ^ (size - 3) <= 256 ^ 29) by (apply Z.pow_le_mono_r; lia).
    assert (word * 256 ^ (size - 3) < 2 ^ 256) by (change (256 ^ 29) with (2 ^ 232) in *; nia).
    destruct (Z.ltb_spec 34 size), (Z.ltb_spec 33 size), (Z.ltb_spec 32 size); try lia.
  - change (256 ^ (33 - 3)) with (2 ^ 240).
    destruct (Z.ltb_spec 0xff word), (Z.ltb_spec 0xffff word), (Z.leb_spec (2 ^ 256) (word * 2 ^ 240));
      first [done | lia].
  - change (256 ^ (34 - 3)) with (2 ^ 248).
    destruct (Z.ltb_spec 0xff word), (Z.ltb_spec 0xffff word), (Z.leb_spec (2 ^ 256) (word * 2 ^ 248));
      first [done | lia].
  - destruct (Z.ltb_spec 34 size); [|lia]. cbn [orb].
    assert (256 ^ 32 <= 256 ^ (size - 3)) by (apply Z.pow_le_mono_r; lia).
    symmetry. apply Z.leb_le. change (256 ^ 32) with (2 ^ 256) in *. nia.
Qed.

Section Laws.
Context {U : Type} `{ArithLaws 256 U}.

Lemma c_word_range c : 0 <= c_word c < 2 ^ 23.
Proof. apply Z.mod_pos_bound. lia. Qed.

Lemma c_word_small c : 0 <= c_size c <= 3 -> 0 <= c_word c / 256 ^ (3 - c_size c) < 2 ^ 23.
Proof.
  intros Hs. pose proof (c_word_range c). pose proof (pow256_pos (3 - c_size c) ltac:(lia)).
  split; [apply Z.div_pos; lia|]. apply Z.div_lt_upper_bound; nia.
Qed.

(** What [SetCompact] returns. *)
Lemma SetCompact_spec c : in_u 32 c ->
  exists v neg, SetCompact c = (v, neg, 2 ^ 256 <=? c_value c) /\ au_wf v /\
    au_val v = c_value c mod 2 ^ 256 /\
    neg = negb ((if c_size c <=? 3 then c_value c else c_word c) =? 0) && negb (c <? c_size c * 2 ^ 24 + 2 ^ 23).
Proof.
  intros Hc. unfold in_u in Hc. unfold SetCompact. rewrite land_word.
  assert (Hsz : Z.shiftr c 24 = c_size c) by by rewrite Z.shiftr_div_pow2.
  rewrite Hsz. pose proof (c_word_range c) as Hw.
  assert (Hs : 0 <= c_size c < 256) by (unfold c_size; zlia).
  assert (Hneg : (Z.land c 0x00800000 =? 0) = (c <? c_size c * 2 ^ 24 + 2 ^ 23)).
  { change 0x00800000 with (Z.ones 1 * 2 ^ 23). rewrite land_field by lia. unfold c_size.
    destruct (Z.eqb_spec (c / 2 ^ 23 mod 2 ^ 1 * 2 ^ 23) 0), (Z.ltb_spec c (c / 2 ^ 24 * 2 ^ 24 + 2 ^ 23)); zlia. }
  rewrite Hneg. unfold c_value. destruct (Z.leb_spec (c_size c) 3) as [Hle|Hgt]; cbv zeta beta iota.
  - rewrite Z.shiftr_div_pow2, pow256 by lia. pose proof (c_word_small c ltac:(lia)) as Hsm.
    destruct (au_of_u64_ok (c_word c / 256 ^ (3 - c_size c))) as [Hwf Hval]; [unfold in_u; lia|].
    do 2 eexists. split; [|split; [exact Hwf|split; [rewrite Hval; symmetry; apply Z.mod_small; lia|done]]].
    f_equal. destruct (Z.ltb_spec 34 (c_size c)), (Z.ltb_spec 33 (c_size c)), (Z.ltb_spec 32 (c_size c)); try lia.
  - destruct (au_of_u64_ok (c_word c)) as [Hwf Hval]; [unfold in_u; lia|].
    destruct (au_shl_ok (au_of_u64 (c_word c)) (8 * (c_size c - 3)) Hwf ltac:(lia)) as [Hwf' Hval'].
    do 2 eexists. split; [|split; [exact Hwf'|split; [|done]]].
    + f_equal. by rewrite overflow_exact by lia.
    + by rewrite Hval', Hval, Z.shiftl_mul_pow2, pow256 by lia.
Qed.

(** The normalised size and mantissa of a number. *)
Lemma byte_length x : 0 < x -> let n := (blen x + 7) / 8 in
  1 <= n /\ 256 ^ (n - 1) <= x < 256 ^ n.
Proof.
  intros Hx n. destruct (blen_pos x Hx) as [[Hlo Hhi] Hb].
  assert (Hn : 8 * n - 7 <= blen x <= 8 * n) by (subst n; zlia).
  assert (1 <= n) by lia. split; [done|]. rewrite <- !pow256 by lia. split.
  - etrans; [|exact Hlo]. apply Z.pow_le_mono_r; lia.
  - eapply Z.lt_le_trans; [exact Hhi|]. apply Z.pow_le_mono_r; lia.
Qed.

(** The three most significant bytes, left-aligned. *)
Definition top3 (x n : Z) : Z := if n <=? 3 then x * 256 ^ (3 - n) else x / 256 ^ (n - 3).

Lemma top3_range x n : 1 <= n -> 256 ^ (n - 1) <= x < 256 ^ n -> 2 ^ 16 <= top3 x n < 2 ^ 24.
Proof.
  intros Hn Hx. unfold top3. destruct (Z.leb_spec n 3).
  - assert (n = 1 \/ n = 2 \/ n = 3) as [->|[->| ->]] by lia; cbn in *; lia.
  - pose proof (pow256_pos (n - 3) ltac:(lia)).
    assert (E1 : 256 ^ (n - 1) = 2 ^ 16 * 256 ^ (n - 3)).
    { change (2 ^ 16) with (256 ^ 2). rewrite <- Z.pow_add_r by lia. f_equal. lia. }
    assert (E2 : 256 ^ n = 2 ^ 24 * 256 ^ (n - 3)).
    { change (2 ^ 24) with (256 ^ 3). rewrite <- Z.pow_add_r by lia. f_equal. lia. }
    split; [apply Z.div_le_lower_bound; lia|apply Z.div_lt_upper_bound; lia].
Qed.

(** The mantissa/size pair that [GetCompact] packs. *)
Definition norm (x : Z) : Z * Z :=
  if x =? 0 then (0, 0)
  else let n := (blen x + 7) / 8 in
       if top3 x n <? 2 ^ 23 then (top3 x n, n) else (top3 x n / 256, n + 1).

Lemma top3_next x n : 1 <= n -> 0 <= x -> top3 x n / 256 = top3 x (n + 1).
Proof.
  intros Hn Hx. unfold top3. destruct (Z.leb_spec n 3), (Z.leb_spec (n + 1) 3); try lia.
  - replace (3 - n) with (3 - (n + 1) + 1) by lia.
    rewrite Z.pow_add_r, Z.mul_assoc by lia. by apply Z.div_mul.
  - assert (n = 3) as -> by lia. cbn. by rewrite Z.mul_1_r.
  - pose proof (pow256_pos (n - 3) ltac:(lia)). rewrite Z.div_div by lia.
    f_equal. rewrite <- (Z.pow_1_r 256) at 2. rewrite <- Z.pow_add_r by lia. f_equal. lia.
Qed.

Lemma norm_spec x : 0 <= x < 2 ^ 256 -> let '(m, s) := norm x in
  0 <= m < 2 ^ 23 /\ 0 <= s <= 33 /\ m = top3 x s /\ (x <> 0 -> 2 ^ 15 <= m).
Proof.
  intros Hx. unfold norm. destruct (Z.eqb_spec x 0) as [->|Hnz]; [by vm_compute|].
  destruct (byte_length x ltac:(lia)) as [Hn Hb]. set (n := (blen x + 7) / 8) in *.
  pose proof (top3_range x n Hn Hb) as Ht.
  assert (n <= 32).
  { pose proof (blen_bound x 256 ltac:(lia) Hx). subst n. zlia. }
  destruct (Z.ltb_spec (top3 x n) (2 ^ 23)).
  - repeat split; try lia.
  - rewrite <- top3_next by lia. repeat split; zlia.
Qed.

(** [GetCompact] never fails an assertion and packs the normal form. *)
Lemma GetCompact_norm a : au_wf a ->
  GetCompact a false = Some (fst (norm (au_val a)) + 2 ^ 24 * snd (norm (au_val a))).
Proof.
  intros Ha. pose proof (au_range a Ha) as Hr. unfold GetCompact.
  rewrite au_bits_ok by done. set (x := au_val a) in *. set (n := (blen x + 7) / 8).
  assert (Hc0 : (if n <=? 3 then u32 (u64 (Z.shiftl (au_low64 a) (8 * (3 - n))))
                 else u32 (au_low64 (au_shr a (8 * (n - 3))))) = if x =? 0 then 0 else top3 x n).
  { destruct (Z.eqb_spec x 0) as [E|Hnz].
    - subst n. rewrite E. change ((blen 0 + 7) / 8) with 0. change (0 <=? 3) with true. cbv iota.
      rewrite au_low64_ok by done. fold x. rewrite E. reflexivity.
    - destruct (byte_length x ltac:(lia)) as [Hn Hb]. fold n in Hn, Hb.
      pose proof (top3_range x n Hn Hb) as Ht. unfold top3 in *. destruct (Z.leb_spec n 3).
      + assert (x < 256 ^ 3) by (eapply Z.lt_le_trans; [apply Hb|apply Z.pow_le_mono_r; lia]).
        rewrite au_low64_ok by done. fold x. rewrite (Z.mod_small x) by (cbn in *; lia).
        rewrite Z.shiftl_mul_pow2, pow256 by lia.
        rewrite u64_id, u32_id by (unfold in_u; lia). done.
      + destruct (au_shr_ok a (8 * (n - 3)) Ha ltac:(lia)) as [Hw Hv].
        rewrite au_low64_ok by done. rewrite Hv, Z.shiftr_div_pow2, pow256 by lia. fold x.
        rewrite (Z.mod_small (x / _)) by lia. by rewrite u32_id by (unfold in_u; lia). }
  rewrite Hc0. clear Hc0. pose proof (norm_spec x Hr) as Hnorm. unfold norm in *.
  destruct (Z.eqb_spec x 0) as [E|Hnz].
  { subst n. rewrite E. reflexivity. }
  destruct (byte_length x ltac:(lia)) as [Hn Hb]. fold n in Hn, Hb, Hnorm.
  pose proof (top3_range x n Hn Hb) as Ht. cbv zeta. fold n. rewrite land_sign by lia.
  assert (Hfin : forall m s, 0 <= m < 2 ^ 23 -> 0 <= s <= 33 ->
    (if negb (Z.land m (2 ^ 32 - 1 - 8388607) =? 0) then None
     else if negb (s <? 256) then None
     else Some (Z.lor (Z.lor m (Z.shiftl s 24)) 0)) = Some (m + 2 ^ 24 * s)).
  { intros m s Hm Hs. change (2 ^ 32 - 1 - 8388607) with (Z.ones 9 * 2 ^ 23). rewrite land_field by lia.
    rewrite (Z.div_small m) by lia. cbn [Z.eqb negb]. change (0 mod 2 ^ 9 * 2 ^ 23 =? 0) with true. cbn [negb].
    destruct (Z.ltb_spec s 256); [|lia]. cbn [negb].
    rewrite Z.lor_0_r, Z.shiftl_mul_pow2, lor_shifted by lia. f_equal. lia. }
  destruct (Z.ltb_spec (top3 x n) (2 ^ 23)); cbn [negb fst snd andb] in *.
  - apply Hfin; lia.
  - rewrite Z.shiftr_div_pow2 by lia. change (2 ^ 8) with 256. apply Hfin; lia.
Qed.

(** The value a compact encoding keeps of [x]: its top bytes. *)
Definition truncated (x : Z) : Z := let s := snd (norm x) in x - x mod 256 ^ Z.max 0 (s - 3).

Lemma c_fields m s : 0 <= m < 2 ^ 23 -> c_size (m + 2 ^ 24 * s) = s /\ c_word (m + 2 ^ 24 * s) = m.
Proof. intros. unfold c_size, c_word. split; zlia. Qed.

Lemma norm_value x : 0 <= x < 2 ^ 256 ->
  c_value (fst (norm x) + 2 ^ 24 * snd (norm x)) = truncated x.
Proof.
  intros Hx. pose proof (norm_spec x Hx) as Hn. unfold truncated.
  destruct (norm x) as [m s]. destruct Hn as (Hm & Hs & Hms & _). cbn [fst snd].
  destruct (c_fields m s Hm) as [E1 E2]. unfold c_value. rewrite E1, E2, Hms. unfold top3.
  destruct (Z.leb_spec s 3).
  - pose proof (pow256_pos (3 - s) ltac:(lia)). rewrite Z.div_mul by lia.
    replace (Z.max 0 (s - 3)) with 0 by lia. rewrite Z.mod_1_r. lia.
  - pose proof (pow256_pos (s - 3) ltac:(lia)). replace (Z.max 0 (s - 3)) with (s - 3) by lia.
    rewrite (Z.div_mod x (256 ^ (s - 3))) at 2 by lia. lia.
Qed.

Lemma truncated_le x : 0 <= x < 2 ^ 256 -> 0 <= truncated x <= x.
Proof.
  intros Hx. unfold truncated. pose proof (norm_spec x Hx) as Hn. destruct (norm x) as [m s].
  cbn [snd]. pose proof (pow256_pos (Z.max 0 (s - 3)) ltac:(lia)).
  pose proof (Z.mod_pos_bound x (256 ^ Z.max 0 (s - 3)) ltac:(lia)).
  pose proof (Z.mod_le x (256 ^ Z.max 0 (s - 3)) ltac:(lia) ltac:(lia)). lia.
Qed.

Lemma norm_packed_range x : 0 <= x < 2 ^ 256 -> in_u 32 (fst (norm x) + 2 ^ 24 * snd (norm x)).
Proof.
  intros Hx. pose proof (norm_spec x Hx) as Hn. destruct (norm x) as [m s]. unfold in_u. cbn [fst snd]. lia.
Qed.

Lemma norm_not_negative m s : 0 <= m < 2 ^ 23 ->
  (m + 2 ^ 24 * s <? c_size (m + 2 ^ 24 * s) * 2 ^ 24 + 2 ^ 23) = true.
Proof. intros Hm. rewrite (proj1 (c_fields m s Hm)). apply Z.ltb_lt. lia. Qed.
End Laws.

(** ** Work of a block *)

(** The sign flag of [SetCompact]. *)
Definition c_negative (c : Z) : bool :=
  negb ((if c_size c <=? 3 then c_value c else c_word c) =? 0) && negb (c <? c_size c * 2 ^ 24 + 2 ^ 23).

(** A target that the consensus code accepts as such. *)
Definition c_valid (c : Z) : bool := negb (c_negative c) && (c_value c <? 2 ^ 256) && negb (c_value c =? 0).

(** The target of a compact number, when it is a valid one within a limit. *)
Definition bits_within (limit c : Z) : Prop := c_valid c = true /\ c_value c <= limit.

(** Expected number of hashes for a target: [2^256 / (target + 1)]. *)
Definition work_of (c : Z) : Z := if c_valid c then 2 ^ 256 / (c_value c + 1) else 0.

Lemma c_value_nonneg c : 0 <= c -> 0 <= c_value c.
Proof.
  intros Hc. unfold c_value. pose proof (c_word_range c). assert (0 <= c_size c) by (apply Z.div_pos; lia).
  destruct (Z.leb_spec (c_size c) 3).
  - apply c_word_small. lia.
  - pose proof (pow256_pos (c_size c - 3) ltac:(lia)). nia.
Qed.

(** No compact encoding reaches the all-ones target. *)
Lemma c_value_not_max c : 0 <= c -> c_value c <> 2 ^ 256 - 1.
Proof.
  intros Hc. unfold c_value. pose proof (c_word_range c). assert (0 <= c_size c) by (apply Z.div_pos; lia).
  destruct (Z.leb_spec (c_size c) 3).
  - pose proof (c_word_small c ltac:(lia)). lia.
  - intros E. assert (Hm : (c_word c * 256 ^ (c_size c - 3)) mod 256 = 0).
    { replace (c_size c - 3) with (c_size c - 4 + 1) by lia.
      rewrite Z.pow_add_r, Z.mul_assoc by lia. by apply Z.mod_mul. }
    rewrite E in Hm. vm_compute in Hm. discriminate.
Qed.

Section Work.
Context {U : Type} `{ArithLaws 256 U}.

Lemma au_small_ok b : 0 <= b < 2 ^ 64 -> au_wf (au_of_u64 b) /\ au_val (au_of_u64 b) = b.
Proof. intros. by apply au_of_u64_ok. Qed.

Lemma work_formula (v : U) : au_wf v -> 0 < au_val v < 2 ^ 256 - 1 ->
  exists w, match au_div (au_not v) (au_add v (au_of_u64 1)) with
            | Some q => Some (au_add q (au_of_u64 1)) | None => None end = Some w /\
    au_wf w /\ au_val w = 2 ^ 256 / (au_val v + 1).
Proof.
  intros Hv Hr. destruct (au_small_ok 1) as [H1 E1]; [lia|].
  destruct (au_not_ok v Hv) as [Hn En]. destruct (au_add_ok v _ Hv H1) as [Hp Ep].
  rewrite E1, Z.mod_small in Ep by lia.
  destruct (au_div_ok (au_not v) (au_add v (au_of_u64 1)) Hn Hp) as (q & -> & Hq & Eq); [lia|].
  destruct (au_add_ok q _ Hq H1) as [Hw Ew]. eexists. split; [done|]. split; [done|].
  rewrite Ew, E1, Eq, En, Ep. set (t := au_val v) in *.
  replace (2 ^ 256 - 1 - t) with (2 ^ 256 + (-1) * (t + 1)) by ring. rewrite Z.div_add by lia.
  replace (2 ^ 256 / (t + 1) + -1 + 1) with (2 ^ 256 / (t + 1)) by ring.
  apply Z.mod_small. split; [apply Z.div_pos; lia|]. apply Z.div_lt_upper_bound; lia.
Qed.

Lemma set_compact_valid c : in_u 32 c -> exists v neg ovf, SetCompact c = (v, neg, ovf) /\ au_wf v /\
  (neg || ovf || au_eq64 v 0) = negb (c_valid c) /\ (c_valid c = true -> au_val v = c_value c).
Proof.
  intros Hc. destruct (SetCompact_spec c Hc) as (v & neg & E & Hw & Hv & Hneg).
  exists v, neg, (2 ^ 256 <=? c_value c). split; [done|]. split; [done|].
  pose proof (c_value_nonneg c (proj1 Hc)) as Hnn. fold (c_negative c) in Hneg. subst neg.
  unfold c_valid. rewrite au_eq64_ok, Hv by (done || (unfold in_u; lia)). split.
  - destruct (c_negative c); [done|]. cbn [negb orb andb].
    destruct (Z.leb_spec (2 ^ 256) (c_value c)), (Z.ltb_spec (c_value c) (2 ^ 256)); try lia; try done.
    cbn [orb andb]. rewrite negb_involutive, Z.mod_small by lia. done.
  - intros Ht. rewrite !andb_true_iff, Z.ltb_lt in Ht. apply Z.mod_small. lia.
Qed.

Lemma GetBlockProof_work c : in_u 32 c ->
  exists w, GetBlockProof_ (U := U) c = Some w /\ au_wf w /\ au_val w = work_of c.
Proof.
  intros Hc. destruct (set_compact_valid c Hc) as (v & neg & ovf & E & Hw & Hb & Hv).
  unfold GetBlockProof_, work_of. rewrite E, Hb. destruct (c_valid c) eqn:Hval; cbn [negb].
  - specialize (Hv eq_refl). unfold c_valid in Hval.
    rewrite !andb_true_iff, !negb_true_iff, Z.ltb_lt, Z.eqb_neq in Hval.
    pose proof (c_value_nonneg c (proj1 Hc)). pose proof (c_value_not_max c (proj1 Hc)).
    destruct (au_small_ok 0) as [H0' E0]; [lia|]. destruct (au_not_ok _ H0') as [Hm Em].
    rewrite au_eqb_ok, Em, E0, Hv by done.
    destruct (Z.eqb_spec (c_value c) (2 ^ 256 - 1 - 0)); [lia|].
    destruct (work_formula v Hw) as (w & Ew & Hww & Hwv); [lia|].
    exists w. rewrite <- Hv. done.
  - eexists. split; [done|]. apply au_small_ok. lia.
Qed.

Lemma header_work_eq c : in_u 32 c -> header_work_ (U := U) c = GetBlockProof_ c.
Proof.
  intros Hc. destruct (set_compact_valid c Hc) as (v & neg & ovf & E & Hw & Hb & Hv).
  unfold GetBlockProof_, header_work_. rewrite E, Hb. destruct (c_valid c) eqn:Hval; [|done]. cbn [negb].
  specialize (Hv eq_refl). pose proof (c_value_not_max c (proj1 Hc)).
  destruct (au_small_ok 0) as [H0' E0]; [lia|]. destruct (au_not_ok _ H0') as [Hm Em].
  rewrite au_eqb_ok, Em, E0, Hv by done.
  destruct (Z.eqb_spec (c_value c) (2 ^ 256 - 1 - 0)); [lia|done].
Qed.
End Work.

Lemma work_of_range c : 0 <= c -> 0 <= work_of c <= 2 ^ 255.
Proof.
  intros Hc. unfold work_of. destruct (c_valid c) eqn:E; [|lia].
  pose proof (c_value_nonneg c Hc). unfold c_valid in E.
  rewrite !andb_true_iff, !negb_true_iff, Z.ltb_lt, Z.eqb_neq in E.
  split; [apply Z.div_pos; lia|]. apply Z.div_le_upper_bound; lia.
Qed.

Lemma work_of_pos c : 0 <= c -> 0 < work_of c <-> c_valid c = true.
Proof.
  intros Hc. unfold work_of. destruct (c_valid c) eqn:E; [|lia]. split; [done|intros _].
  pose proof (c_value_nonneg c Hc). unfold c_valid in E.
  rewrite !andb_true_iff, !negb_true_iff, Z.ltb_lt, Z.eqb_neq in E.
  apply Z.div_str_pos. lia.
Qed.

(** ** Encoding what was decoded *)

(** The exponent of the part that the encoding drops. *)
Definition low_exp (x : Z) : Z := Z.max 0 (snd (norm x) - 3).

Lemma truncated_eq x : truncated x = x / 256 ^ low_exp x * 256 ^ low_exp x.
Proof.
  unfold truncated, low_exp. pose proof (pow256_pos (Z.max 0 (snd (norm x) - 3)) ltac:(lia)).
  cbv zeta. rewrite (Z.div_mod x (256 ^ Z.max 0 (snd (norm x) - 3))) at 1 by lia. lia.
Qed.

(** A multiple of the dropped unit stays below the truncated number. *)
Lemma truncated_keeps x y : 256 ^ low_exp x * y <= x -> 256 ^ low_exp x * y <= truncated x.
Proof.
  intros Hy. rewrite truncated_eq. pose proof (pow256_pos (low_exp x) ltac:(unfold low_exp; lia)).
  pose proof (Z.div_le_lower_bound x (256 ^ low_exp x) y ltac:(lia) Hy). nia.
Qed.

Lemma norm_lead x : 0 < x < 2 ^ 256 -> low_exp x = 0 \/ 2 ^ 15 <= x / 256 ^ low_exp x.
Proof.
  intros Hx. pose proof (norm_spec x ltac:(lia)) as Hn. unfold low_exp. destruct (norm x) as [m s].
  destruct Hn as (Hm & Hs & Hms & Hlead). specialize (Hlead ltac:(lia)). cbn [snd]. rewrite Hms in Hlead.
  unfold top3 in Hlead. destruct (Z.leb_spec s 3); [left; lia|right].
  by replace (Z.max 0 (s - 3)) with (s - 3) by lia.
Qed.

(** The relative error of the encoding is below [2^-15]. *)
Lemma truncated_error x : 0 <= x < 2 ^ 256 -> (x - truncated x) * 2 ^ 15 <= x.
Proof.
  intros Hx. pose proof (pow256_pos (low_exp x) ltac:(unfold low_exp; lia)) as Hp.
  assert (E : x - truncated x = x mod 256 ^ low_exp x) by (unfold truncated, low_exp; lia). rewrite E.
  pose proof (Z.mod_pos_bound x _ Hp) as Hm. destruct (Z.eq_dec x 0) as [->|]; [by rewrite Z.mod_0_l by lia|].
  pose proof (Z.div_mod x (256 ^ low_exp x) ltac:(lia)).
  destruct (norm_lead x ltac:(lia)) as [->|Hl]; [change (256 ^ 0) with 1; rewrite Z.mod_1_r; lia|nia].
Qed.

Lemma blen_unique x n : 1 <= n -> 2 ^ (n - 1) <= x < 2 ^ n -> blen x = n.
Proof.
  intros Hn Hx. assert (0 < 2 ^ (n - 1)) by (apply Z.pow_pos_nonneg; lia). unfold blen.
  destruct (Z.eqb_spec x 0); [lia|]. rewrite (Z.log2_unique x (n - 1)); [lia..|].
  by replace (Z.succ (n - 1)) with n by lia.
Qed.

Lemma truncated_blen x : 0 < x < 2 ^ 256 -> blen (truncated x) = blen x.
Proof.
  intros Hx. destruct (blen_pos x ltac:(lia)) as [[Hlo Hhi] Hb].
  pose proof (truncated_le x ltac:(lia)). apply blen_unique; [done|]. split; [|lia].
  assert (Hk : 0 <= low_exp x) by (unfold low_exp; lia).
  assert (He : 8 * low_exp x <= blen x - 1).
  { destruct (norm_lead x Hx) as [->|Hl]; [lia|].
    assert (256 ^ low_exp x <= x).
    { pose proof (pow256_pos (low_exp x) Hk). pose proof (Z.mul_div_le x (256 ^ low_exp x) ltac:(lia)). nia. }
    rewrite <- pow256 in * by done.
    assert (2 ^ (8 * low_exp x) < 2 ^ blen x) by lia.
    apply Z.pow_lt_mono_r_iff in H1; lia. }
  replace (2 ^ (blen x - 1)) with (256 ^ low_exp x * 2 ^ (blen x - 1 - 8 * low_exp x)).
  - apply truncated_keeps. rewrite <- pow256, <- Z.pow_add_r by lia.
    by replace (8 * low_exp x + (blen x - 1 - 8 * low_exp x)) with (blen x - 1) by lia.
  - rewrite <- pow256, <- Z.pow_add_r by lia. f_equal. lia.
Qed.

Lemma norm_truncated x : 0 <= x < 2 ^ 256 -> norm (truncated x) = norm x.
Proof.
  intros Hx. destruct (Z.eq_dec x 0) as [->|Hnz]; [done|].
  pose proof (truncated_blen x ltac:(lia)) as Hbl.
  destruct (byte_length x ltac:(lia)) as [Hn Hb]. pose proof (top3_range x _ Hn Hb) as Ht.
  pose proof (truncated_eq x) as Etr. unfold low_exp in Etr.
  pose proof (truncated_le x Hx) as Hle.
  assert (Hpos : truncated x <> 0).
  { intros E. rewrite E in Hbl. destruct (blen_pos x ltac:(lia)) as [_ ?]. change (blen 0) with 0 in Hbl. lia. }
  revert Etr. unfold norm. rewrite Hbl. set (n := (blen x + 7) / 8) in *. set (t := truncated x) in *.
  destruct (Z.eqb_spec x 0), (Z.eqb_spec t 0); try lia.
  destruct (Z.ltb_spec (top3 x n) (2 ^ 23)) as [H23|H23]; cbn [snd]; intros Etr.
  - replace (top3 t n) with (top3 x n); [by rewrite (proj2 (Z.ltb_lt _ _) H23)|].
    unfold top3. destruct (Z.leb_spec n 3).
    + replace (Z.max 0 (n - 3)) with 0 in Etr by lia. rewrite Z.div_1_r, Z.mul_1_r in Etr. by rewrite Etr.
    + replace (Z.max 0 (n - 3)) with (n - 3) in Etr by lia. rewrite Etr, Z.div_mul; [done|].
      pose proof (pow256_pos (n - 3)); lia.
  - assert (Hk : top3 t (n + 1) = top3 x (n + 1)).
    { unfold top3. destruct (Z.leb_spec (n + 1) 3).
      - replace (Z.max 0 (n + 1 - 3)) with 0 in Etr by lia. rewrite Z.div_1_r, Z.mul_1_r in Etr. by rewrite Etr.
      - replace (Z.max 0 (n + 1 - 3)) with (n + 1 - 3) in Etr by lia. rewrite Etr, Z.div_mul; [done|].
        pose proof (pow256_pos (n + 1 - 3)); lia. }
    rewrite <- !top3_next in Hk by lia.
    assert (2 ^ 23 <= top3 t n) by zlia.
    destruct (Z.ltb_spec (top3 t n) (2 ^ 23)); [lia|]. by rewrite Hk.
Qed.

(** ** Properties *)

(** encoding a 256-bit number never fails an assertion, and decoding the result
    gives a non-negative number without the overflow flag that is at most the original, differs
    from it by less than one part in [2^15], and encodes to the same 32 bits; for every
    implementation of the arithmetic that satisfies the interface's laws. *)
Theorem compact_roundtrip {U : Type} `{ArithLaws 256 U} (a : U) : au_wf a ->
  exists c a', GetCompact a false = Some c /\ in_u 32 c /\
    SetCompact c = (a', false, false) /\ au_wf a' /\
    au_val a' <= au_val a /\ (au_val a - au_val a') * 2 ^ 15 <= au_val a /\
    GetCompact a' false = Some c.
Proof.
  intros Ha. pose proof (au_range a Ha) as Hr. rewrite GetCompact_norm by done. set (x := au_val a) in *.
  pose proof (norm_packed_range x Hr) as Hc. pose proof (norm_value x Hr) as Hv.
  destruct (SetCompact_spec _ Hc) as (a' & neg & E & Hw & Hval & Hneg).
  pose proof (norm_spec x Hr) as Hn. pose proof (truncated_le x Hr) as Ht. rewrite Hv in E, Hval.
  rewrite Z.mod_small in Hval by lia.
  exists (fst (norm x) + 2 ^ 24 * snd (norm x)), a'.
  assert (neg = false) as ->.
  { rewrite Hneg, norm_not_negative by (destruct (norm x); apply Hn). by rewrite andb_false_r. }
  rewrite (proj2 (Z.leb_gt _ _)) in E by lia.
  split_and!; try done; rewrite ?Hval; [lia|by apply truncated_error|].
  rewrite GetCompact_norm by done. by rewrite Hval, norm_truncated.
Qed.

Lemma compact_roundtrip_witness :
  exists c a', GetCompact (Limb.of_u64 8 0x123456789a) false = Some c /\ in_u 32 c /\
    SetCompact c = (a', false, false) /\ limbs_wf 8 a' /\
    eval a' <= 0x123456789a /\ (0x123456789a - eval a') * 2 ^ 15 <= 0x123456789a /\
    GetCompact a' false = Some c.
Proof.
  refine (compact_roundtrip (U := limbs) (Limb.of_u64 8 0x123456789a) _).
  apply (of_u64_spec 8); [lia|unfold in_u; lia].
Defined.

(** decoding a 32-bit compact number yields its exact value
    [word * 256^(size - 3)] modulo [2^256], the overflow flag is set exactly when that value does
    not fit in 256 bits, and the sign flag is set exactly when the sign bit is set
    on a non-zero mantissa. *)
Theorem compact_decode_exact {U : Type} `{ArithLaws 256 U} (c : Z) : in_u 32 c ->
  exists v neg ovf, SetCompact c = (v, neg, ovf) /\ au_wf v /\
    au_val v = c_value c mod 2 ^ 256 /\
    (ovf = true <-> 2 ^ 256 <= c_value c) /\
    (neg = true <-> Z.testbit c 23 = true /\ (if c_size c <=? 3 then c_value c else c_word c) <> 0).
Proof.
  intros Hc. destruct (SetCompact_spec c Hc) as (v & neg & E & Hw & Hval & Hneg).
  exists v, neg, (2 ^ 256 <=? c_value c). split_and!; [done..|by rewrite Z.leb_le|].
  assert (Hb : Z.testbit c 23 = negb (c <? c_size c * 2 ^ 24 + 2 ^ 23)).
  { rewrite Z.testbit_eqb by lia. unfold c_size. destruct Hc.
    destruct (Z.eqb_spec (c / 2 ^ 23 mod 2) 1), (Z.ltb_spec c (c / 2 ^ 24 * 2 ^ 24 + 2 ^ 23)); cbn; try done; exfalso; zlia. }
  rewrite Hb, Hneg, andb_true_iff, negb_true_iff, Z.eqb_neq. tauto.
Qed.

Lemma compact_decode_exact_witness :
  exists v neg ovf, SetCompact (U := limbs) 0xff123456 = (v, neg, ovf) /\ limbs_wf 8 v /\
    eval v = c_value 0xff123456 mod 2 ^ 256 /\
    (ovf = true <-> 2 ^ 256 <= c_value 0xff123456) /\
    (neg = true <-> Z.testbit 0xff123456 23 = true /\
       (if c_size 0xff123456 <=? 3 then c_value 0xff123456 else c_word 0xff123456) <> 0).
Proof. refine (compact_decode_exact (U := limbs) 0xff123456 _). unfold in_u. lia. Defined.

(** [GetBlockProof] never divides by zero and returns
    [floor (2^256 / (target + 1))] for a valid target and 0 for an invalid one (zero, negative
    or overflowing), positive exactly on the valid ones; and the copy of the formula in
    [CalculateHeadersWork], which lacks the guard for the all-ones target, agrees with it
    on every 32-bit [nBits]. *)
Theorem block_proof_exact {U : Type} `{ArithLaws 256 U} (nBits : Z) : in_u 32 nBits ->
  exists w, GetBlockProof_ (U := U) nBits = Some w /\ header_work_ (U := U) nBits = Some w /\ au_wf w /\
    au_val w = (if c_valid nBits then 2 ^ 256 / (c_value nBits + 1) else 0) /\
    (0 < au_val w <-> c_valid nBits = true).
Proof.
  intros Hc. destruct (GetBlockProof_work (U := U) nBits Hc) as (w & E & Hw & Hv).
  exists w. rewrite header_work_eq by done. split_and!; try done. rewrite Hv. apply work_of_pos, Hc.
Qed.

Lemma block_proof_exact_witness :
  exists w, GetBlockProof_ (U := limbs) 0x1f06a000 = Some w /\ header_work_ (U := limbs) 0x1f06a000 = Some w /\
    limbs_wf 8 w /\
    eval w = (if c_valid 0x1f06a000 then 2 ^ 256 / (c_value 0x1f06a000 + 1) else 0) /\
    (0 < eval w <-> c_valid 0x1f06a000 = true).
Proof. refine (block_proof_exact (U := limbs) 0x1f06a000 _). unfold in_u. lia. Defined.
