(* ===== verification/Sha256.v ===== *)
(** * Sha256: the hasher of [util/sha256.hpp/.cpp]

    The portable [sha256::Transform] (64 unrolled rounds over sixteen rotating
    schedule words) and the buffering hasher [CSHA256].  [Transform] is shown
    equal to the compression function as FIPS 180-4 states it, and a hasher fed
    by any sequence of [Write]s finalizes to the padded one-shot hash of the
    concatenation. *)
From S2P Require Import Prelude Arith Bytes.
Import Endian.

Module Sha256.

Definition Ch (x y z : Z) : Z := Z.lxor z (Z.land x (Z.lxor y z)).
Definition Maj (x y z : Z) : Z := Z.lor (Z.land x y) (Z.land z (Z.lor x y)).

(** [x >> r | x << (32 - r)] on a [uint32_t]. *)
Definition rot (x r l : Z) : Z := Z.lor (Z.shiftr x r) (u32 (Z.shiftl x l)).
Definition Sigma0 (x : Z) : Z := Z.lxor (Z.lxor (rot x 2 30) (rot x 13 19)) (rot x 22 10).
Definition Sigma1 (x : Z) : Z := Z.lxor (Z.lxor (rot x 6 26) (rot x 11 21)) (rot x 25 7).
Definition sigma0 (x : Z) : Z := Z.lxor (Z.lxor (rot x 7 25) (rot x 18 14)) (Z.shiftr x 3).
Definition sigma1 (x : Z) : Z := Z.lxor (Z.lxor (rot x 17 15) (rot x 19 13)) (Z.shiftr x 10).

(** [Round]: the new values of its reference arguments [d] and [h]. *)
Definition Round (a b c d e f g h k : Z) : Z * Z :=
  let t1 := u32 (h + Sigma1 e + Ch e f g + k) in
  let t2 := u32 (Sigma0 a + Maj a b c) in
  (u32 (d + t1), u32 (t1 + t2)).

(** The eight state words. *)
Inductive state := St (a b c d e f g h : Z).

Definition Initialize : state :=
  St 0x6a09e667 0xbb67ae85 0x3c6ef372 0xa54ff53a 0x510e527f 0x9b05688c 0x1f83d9ab 0x5be0cd19.

(** The body of the [while (blocks--)] loop of [Transform], unrolled as in the
    source. *)
Definition Transform_block (s : state) (chunk : bytes) : state :=
  let '(St s0 s1 s2 s3 s4 s5 s6 s7) := s in
  let a := s0 in let b := s1 in let c := s2 in let d := s3 in
  let e := s4 in let f := s5 in let g := s6 in let h := s7 in
  let w0 := ReadBE32 Little (drop 0 chunk) in
  let '(d, h) := Round a b c d e f g h (u32 (0x428a2f98 + w0)) in
  let w1 := ReadBE32 Little (drop 4 chunk) in
  let '(c, g) := Round h a b c d e f g (u32 (0x71374491 + w1)) in
  let w2 := ReadBE32 Little (drop 8 chunk) in
  let '(b, f) := Round g h a b c d e f (u32 (0xb5c0fbcf + w2)) in
  let w3 := ReadBE32 Little (drop 12 chunk) in
  let '(a, e) := Round f g h a b c d e (u32 (0xe9b5dba5 + w3)) in
  let w4 := ReadBE32 Little (drop 16 chunk) in
  let '(h, d) := Round e f g h a b c d (u32 (0x3956c25b + w4)) in
  let w5 := ReadBE32 Little (drop 20 chunk) in
  let '(g, c) := Round d e f g h a b c (u32 (0x59f111f1 + w5)) in
  let w6 := ReadBE32 Little (drop 24 chunk) in
  let '(f, b) := Round c d e f g h a b (u32 (0x923f82a4 + w6)) in
  let w7 := ReadBE32 Little (drop 28 chunk) in
  let '(e, a) := Round b c d e f g h a (u32 (0xab1c5ed5 + w7)) in
  let w8 := ReadBE32 Little (drop 32 chunk) in
  let '(d, h) := Round a b c d e f g h (u32 (0xd807aa98 + w8)) in
  let w9 := ReadBE32 Little (drop 36 chunk) in
  let '(c, g) := Round h a b c d e f g (u32 (0x12835b01 + w9)) in
  let w10 := ReadBE32 Little (drop 40 chunk) in
  let '(b, f) := Round g h a b c d e f (u32 (0x243185be + w10)) in
  let w11 := ReadBE32 Little (drop 44 chunk) in
  let '(a, e) := Round f g h a b c d e (u32 (0x550c7dc3 + w11)) in
  let w12 := ReadBE32 Little (drop 48 chunk) in
  let '(h, d) := Round e f g h a b c d (u32 (0x72be5d74 + w12)) in
  let w13 := ReadBE32 Little (drop 52 chunk) in
  let '(g, c) := Round d e f g h a b c (u32 (0x80deb1fe + w13)) in
  let w14 := ReadBE32 Little (drop 56 chunk) in
  let '(f, b) := Round c d e f g h a b (u32 (0x9bdc06a7 + w14)) in
  let w15 := ReadBE32 Little (drop 60 chunk) in
  let '(e, a) := Round b c d e f g h a (u32 (0xc19bf174 + w15)) in
  let w0 := u32 (w0 + u32 (sigma1 w14 + w9 + sigma0 w1)) in
  let '(d, h) := Round a b c d e f g h (u32 (0xe49b69c1 + w0)) in
  let w1 := u32 (w1 + u32 (sigma1 w15 + w10 + sigma0 w2)) in
  let '(c, g) := Round h a b c d e f g (u32 (0xefbe4786 + w1)) in
  let w2 := u32 (w2 + u32 (sigma1 w0 + w11 + sigma0 w3)) in
  let '(b, f) := Round g h a b c d e f (u32 (0x0fc19dc6 + w2)) in
  let w3 := u32 (w3 + u32 (sigma1 w1 + w12 + sigma0 w4)) in
  let '(a, e) := Round f g h a b c d e (u32 (0x240ca1cc + w3)) in
  let w4 := u32 (w4 + u32 (sigma1 w2 + w13 + sigma0 w5)) in
  let '(h, d) := Round e f g h a b c d (u32 (0x2de92c6f + w4)) in
  let w5 := u32 (w5 + u32 (sigma1 w3 + w14 + sigma0 w6)) in
  let '(g, c) := Round d e f g h a b c (u32 (0x4a7484aa + w5)) in
  let w6 := u32 (w6 + u32 (sigma1 w4 + w15 + sigma0 w7)) in
  let '(f, b) := Round c d e f g h a b (u32 (0x5cb0a9dc + w6)) in
  let w7 := u32 (w7 + u32 (sigma1 w5 + w0 + sigma0 w8)) in
  let '(e, a) := Round b c d e f g h a (u32 (0x76f988da + w7)) in
  let w8 := u32 (w8 + u32 (sigma1 w6 + w1 + sigma0 w9)) in
  let '(d, h) := Round a b c d e f g h (u32 (0x983e5152 + w8)) in
  let w9 := u32 (w9 + u32 (sigma1 w7 + w2 + sigma0 w10)) in
  let '(c, g) := Round h a b c d e f g (u32 (0xa831c66d + w9)) in
  let w10 := u32 (w10 + u32 (sigma1 w8 + w3 + sigma0 w11)) in
  let '(b, f) := Round g h a b c d e f (u32 (0xb00327c8 + w10)) in
  let w11 := u32 (w11 + u32 (sigma1 w9 + w4 + sigma0 w12)) in
  let '(a, e) := Round f g h a b c d e (u32 (0xbf597fc7 + w11)) in
  let w12 := u32 (w12 + u32 (sigma1 w10 + w5 + sigma0 w13)) in
  let '(h, d) := Round e f g h a b c d (u32 (0xc6e00bf3 + w12)) in
  let w13 := u32 (w13 + u32 (sigma1 w11 + w6 + sigma0 w14)) in
  let '(g, c) := Round d e f g h a b c (u32 (0xd5a79147 + w13)) in
  let w14 := u32 (w14 + u32 (sigma1 w12 + w7 + sigma0 w15)) in
  let '(f, b) := Round c d e f g h a b (u32 (0x06ca6351 + w14)) in
  let w15 := u32 (w15 + u32 (sigma1 w13 + w8 + sigma0 w0)) in
  let '(e, a) := Round b c d e f g h a (u32 (0x14292967 + w15)) in
  let w0 := u32 (w0 + u32 (sigma1 w14 + w9 + sigma0 w1)) in
  let '(d, h) := Round a b c d e f g h (u32 (0x27b70a85 + w0)) in
  let w1 := u32 (w1 + u32 (sigma1 w15 + w10 + sigma0 w2)) in
  let '(c, g) := Round h a b c d e f g (u32 (0x2e1b2138 + w1)) in
  let w2 := u32 (w2 + u32 (sigma1 w0 + w11 + sigma0 w3)) in
  let '(b, f) := Round g h a b c d e f (u32 (0x4d2c6dfc + w2)) in
  let w3 := u32 (w3 + u32 (sigma1 w1 + w12 + sigma0 w4)) in
  let '(a, e) := Round f g h a b c d e (u32 (0x53380d13 + w3)) in
  let w4 := u32 (w4 + u32 (sigma1 w2 + w13 + sigma0 w5)) in
  let '(h, d) := Round e f g h a b c d (u32 (0x650a7354 + w4)) in
  let w5 := u32 (w5 + u32 (sigma1 w3 + w14 + sigma0 w6)) in
  let '(g, c) := Round d e f g h a b c (u32 (0x766a0abb + w5)) in
  let w6 := u32 (w6 + u32 (sigma1 w4 + w15 + sigma0 w7)) in
  let '(f, b) := Round c d e f g h a b (u32 (0x81c2c92e + w6)) in
  let w7 := u32 (w7 + u32 (sigma1 w5 + w0 + sigma0 w8)) in
  let '(e, a) := Round b c d e f g h a (u32 (0x92722c85 + w7)) in
  let w8 := u32 (w8 + u32 (sigma1 w6 + w1 + sigma0 w9)) in
  let '(d, h) := Round a b c d e f g h (u32 (0xa2bfe8a1 + w8)) in
  let w9 := u32 (w9 + u32 (sigma1 w7 + w2 + sigma0 w10)) in
  let '(c, g) := Round h a b c d e f g (u32 (0xa81a664b + w9)) in
  let w10 := u32 (w10 + u32 (sigma1 w8 + w3 + sigma0 w11)) in
  let '(b, f) := Round g h a b c d e f (u32 (0xc24b8b70 + w10)) in
  let w11 := u32 (w11 + u32 (sigma1 w9 + w4 + sigma0 w12)) in
  let '(a, e) := Round f g h a b c d e (u32 (0xc76c51a3 + w11)) in
  let w12 := u32 (w12 + u32 (sigma1 w10 + w5 + sigma0 w13)) in
  let '(h, d) := Round e f g h a b c d (u32 (0xd192e819 + w12)) in
  let w13 := u32 (w13 + u32 (sigma1 w11 + w6 + sigma0 w14)) in
  let '(g, c) := Round d e f g h a b c (u32 (0xd6990624 + w13)) in
  let w14 := u32 (w14 + u32 (sigma1 w12 + w7 + sigma0 w15)) in
  let '(f, b) := Round c d e f g h a b (u32 (0xf40e3585 + w14)) in
  let w15 := u32 (w15 + u32 (sigma1 w13 + w8 + sigma0 w0)) in
  let '(e, a) := Round b c d e f g h a (u32 (0x106aa070 + w15)) in
  let w0 := u32 (w0 + u32 (sigma1 w14 + w9 + sigma0 w1)) in
  let '(d, h) := Round a b c d e f g h (u32 (0x19a4c116 + w0)) in
  let w1 := u32 (w1 + u32 (sigma1 w15 + w10 + sigma0 w2)) in
  let '(c, g) := Round h a b c d e f g (u32 (0x1e376c08 + w1)) in
  let w2 := u32 (w2 + u32 (sigma1 w0 + w11 + sigma0 w3)) in
  let '(b, f) := Round g h a b c d e f (u32 (0x2748774c + w2)) in
  let w3 := u32 (w3 + u32 (sigma1 w1 + w12 + sigma0 w4)) in
  let '(a, e) := Round f g h a b c d e (u32 (0x34b0bcb5 + w3)) in
  let w4 := u32 (w4 + u32 (sigma1 w2 + w13 + sigma0 w5)) in
  let '(h, d) := Round e f g h a b c d (u32 (0x391c0cb3 + w4)) in
  let w5 := u32 (w5 + u32 (sigma1 w3 + w14 + sigma0 w6)) in
  let '(g, c) := Round d e f g h a b c (u32 (0x4ed8aa4a + w5)) in
  let w6 := u32 (w6 + u32 (sigma1 w4 + w15 + sigma0 w7)) in
  let '(f, b) := Round c d e f g h a b (u32 (0x5b9cca4f + w6)) in
  let w7 := u32 (w7 + u32 (sigma1 w5 + w0 + sigma0 w8)) in
  let '(e, a) := Round b c d e f g h a (u32 (0x682e6ff3 + w7)) in
  let w8 := u32 (w8 + u32 (sigma1 w6 + w1 + sigma0 w9)) in
  let '(d, h) := Round a b c d e f g h (u32 (0x748f82ee + w8)) in
  let w9 := u32 (w9 + u32 (sigma1 w7 + w2 + sigma0 w10)) in
  let '(c, g) := Round h a b c d e f g (u32 (0x78a5636f + w9)) in
  let w10 := u32 (w10 + u32 (sigma1 w8 + w3 + sigma0 w11)) in
  let '(b, f) := Round g h a b c d e f (u32 (0x84c87814 + w10)) in
  let w11 := u32 (w11 + u32 (sigma1 w9 + w4 + sigma0 w12)) in
  let '(a, e) := Round f g h a b c d e (u32 (0x8cc70208 + w11)) in
  let w12 := u32 (w12 + u32 (sigma1 w10 + w5 + sigma0 w13)) in
  let '(h, d) := Round e f g h a b c d (u32 (0x90befffa + w12)) in
  let w13 := u32 (w13 + u32 (sigma1 w11 + w6 + sigma0 w14)) in
  let '(g, c) := Round d e f g h a b c (u32 (0xa4506ceb + w13)) in
  let '(f, b) := Round c d e f g h a b (u32 (0xbef9a3f7 + u32 (w14 + u32 (sigma1 w12 + w7 + sigma0 w15)))) in
  let '(e, a) := Round b c d e f g h a (u32 (0xc67178f2 + u32 (w15 + u32 (sigma1 w13 + w8 + sigma0 w0)))) in
  St (u32 (s0 + a)) (u32 (s1 + b)) (u32 (s2 + c)) (u32 (s3 + d))
     (u32 (s4 + e)) (u32 (s5 + f)) (u32 (s6 + g)) (u32 (s7 + h)).

(** The [while (blocks--)] loop around one block function. *)
Fixpoint for_blocks (block : state -> bytes -> state) (s : state) (chunk : bytes) (blocks : nat) : state :=
  match blocks with
  | O => s
  | S n => for_blocks block (block s chunk) (drop 64 chunk) n
  end.
Definition Transform : state -> bytes -> nat -> state := for_blocks Transform_block.

(** [class CSHA256]. *)
Record CSHA256 := mkSHA { sh_s : state; sh_buf : bytes; sh_bytes : Z }.

Definition CSHA256_new : CSHA256 := mkSHA Initialize (replicate 64 0) 0.
Definition Reset (c : CSHA256) : CSHA256 := mkSHA Initialize (sh_buf c) 0.

Definition Write (c : CSHA256) (data : bytes) : CSHA256 :=
  let bufsize := Z.to_nat (sh_bytes c mod 64) in
  let len := length data in
  let '(c, data, bufsize) :=
    if negb (bufsize =? 0)%nat && (64 <=? bufsize + len)%nat then
      let buf := write_at bufsize (take (64 - bufsize) data) (sh_buf c) in
      (mkSHA (Transform (sh_s c) buf 1) buf (u64 (sh_bytes c + Z.of_nat (64 - bufsize))),
       drop (64 - bufsize) data, 0%nat)
    else (c, data, bufsize) in
  let '(c, data) :=
    if (64 <=? length data)%nat then
      let blocks := (length data / 64)%nat in
      (mkSHA (Transform (sh_s c) data blocks) (sh_buf c) (u64 (sh_bytes c + Z.of_nat (64 * blocks))),
       drop (64 * blocks) data)
    else (c, data) in
  if (0 <? length data)%nat then
    mkSHA (sh_s c) (write_at bufsize data (sh_buf c)) (u64 (sh_bytes c + Z.of_nat (length data)))
  else c.

Definition pad : bytes := 0x80 :: replicate 63 0.

Definition output (s : state) : bytes :=
  let '(St a b c d e f g h) := s in
  WriteBE32 Little a ++ WriteBE32 Little b ++ WriteBE32 Little c ++ WriteBE32 Little d ++
  WriteBE32 Little e ++ WriteBE32 Little f ++ WriteBE32 Little g ++ WriteBE32 Little h.

Definition Finalize (c : CSHA256) : bytes :=
  let sizedesc := WriteBE64 Little (u64 (Z.shiftl (sh_bytes c) 3)) in
  let c := Write c (take (1 + Z.to_nat ((119 - sh_bytes c mod 64) mod 64)) pad) in
  let c := Write c sizedesc in
  output (sh_s c).

End Sha256.

(** ** The compression function of FIPS 180-4 *)

Module Fips.

(** Integer roots by bisection, and the first 32 bits of the fractional part of the
    square and cube root of a prime, which is how the standard defines its constants. *)
Fixpoint root (deg : Z) (bits : nat) (n r : Z) : Z :=
  match bits with
  | O => r
  | S bits =>
      let r' := r + 2 ^ Z.of_nat bits in
      root deg bits n (if r' ^ deg <=? n then r' else r)
  end.
Definition frac_sqrt (p : Z) : Z := root 2 40 (p * 2 ^ 64) 0 mod 2 ^ 32.
Definition frac_cbrt (p : Z) : Z := root 3 40 (p * 2 ^ 96) 0 mod 2 ^ 32.

Definition is_prime (n : nat) : bool := (1 <? n)%nat && forallb (fun d => negb (n mod d =? 0)%nat) (seq 2 (n - 2)).
Definition primes : list Z := Z.of_nat <$> List.filter is_prime (seq 0 312).

Definition K : list Z := Eval vm_compute in frac_cbrt <$> primes.
Definition H0 : Sha256.state := Eval vm_compute in
  match frac_sqrt <$> primes with
  | a :: b :: c :: d :: e :: f :: g :: h :: _ => Sha256.St a b c d e f g h
  | _ => Sha256.Initialize
  end.

Definition rotr (n x : Z) : Z := Z.lor (Z.shiftr x n) (Z.shiftl x (32 - n) mod 2 ^ 32).
Definition ch (x y z : Z) : Z := Z.lxor (Z.land x y) (Z.land (2 ^ 32 - 1 - x) z).
Definition maj (x y z : Z) : Z := Z.lxor (Z.lxor (Z.land x y) (Z.land x z)) (Z.land y z).
Definition Sum0 (x : Z) : Z := Z.lxor (Z.lxor (rotr 2 x) (rotr 13 x)) (rotr 22 x).
Definition Sum1 (x : Z) : Z := Z.lxor (Z.lxor (rotr 6 x) (rotr 11 x)) (rotr 25 x).
Definition sum0 (x : Z) : Z := Z.lxor (Z.lxor (rotr 7 x) (rotr 18 x)) (Z.shiftr x 3).
Definition sum1 (x : Z) : Z := Z.lxor (Z.lxor (rotr 17 x) (rotr 19 x)) (Z.shiftr x 10).

(** The message schedule: [W_t] for [t < 64], from a window of sixteen words. *)
Fixpoint schedule (n : nat) (win : list Z) : list Z :=
  match n, win with
  | S n', w0 :: win' =>
      w0 :: schedule n' (win' ++ [u32 (w0 + u32 (sum1 (nth 13 win' 0) + nth 8 win' 0 + sum0 (nth 0 win' 0)))])
  | _, _ => []
  end.

(** One step of the working variables with constant [k] and word [w]. *)
Definition step (v : Sha256.state) (k w : Z) : Sha256.state :=
  let '(Sha256.St a b c d e f g h) := v in
  let T1 := (h + Sum1 e + ch e f g + k + w) mod 2 ^ 32 in
  let T2 := (Sum0 a + maj a b c) mod 2 ^ 32 in
  Sha256.St ((T1 + T2) mod 2 ^ 32) a b c ((d + T1) mod 2 ^ 32) e f g.

Definition words (chunk : bytes) : list Z :=
  (fun i => le_combine (rev (take 4 (drop (4 * i) chunk)))) <$> seq 0 16.

Definition add_state (x y : Sha256.state) : Sha256.state :=
  let '(Sha256.St a b c d e f g h) := x in
  let '(Sha256.St a' b' c' d' e' f' g' h') := y in
  Sha256.St (u32 (a + a')) (u32 (b + b')) (u32 (c + c')) (u32 (d + d'))
            (u32 (e + e')) (u32 (f + f')) (u32 (g + g')) (u32 (h + h')).

Definition compress (s : Sha256.state) (chunk : bytes) : Sha256.state :=
  add_state s (foldl (fun v kw => step v (fst kw) (snd kw)) s (combine K (schedule 64 (words chunk)))).

(** Padding to a multiple of 64 bytes and the whole hash. *)
Definition padded (m : bytes) : bytes :=
  m ++ [0x80] ++ replicate (Z.to_nat ((55 - Z.of_nat (length m)) mod 64)) 0 ++
  rev (le_split 8 (8 * Z.of_nat (length m))).

Definition blocks : Sha256.state -> bytes -> nat -> Sha256.state :=
  Sha256.for_blocks (fun s m => compress s (take 64 m)).

Definition digest (s : Sha256.state) : bytes :=
  let '(Sha256.St a b c d e f g h) := s in concat ((fun x => rev (le_split 4 x)) <$> [a; b; c; d; e; f; g; h]).

Definition sha256 (m : bytes) : bytes :=
  digest (blocks H0 (padded m) (length (padded m) / 64)).

End Fips.

(** The same computation with the source's [Round]: 64 steps over a rotating
    register file and a sliding window of schedule words. *)
Module Rolled.
Import Sha256.

Fixpoint schedule (n : nat) (win : list Z) : list Z :=
  match n, win with
  | S n', w0 :: win' =>
      w0 :: schedule n' (win' ++ [u32 (w0 + u32 (sigma1 (nth 13 win' 0) + nth 8 win' 0 + sigma0 (nth 0 win' 0)))])
  | _, _ => []
  end.

Fixpoint rounds (init s : state) (ks ws : list Z) : state :=
  match ks, ws with
  | k :: ks', w :: ws' =>
      let '(St a b c d e f g h) := s in
      let '(d', h') := Round a b c d e f g h (u32 (k + w)) in
      rounds init (St h' a b c d' e f g) ks' ws'
  | _, _ => Fips.add_state init s
  end.

Definition words (chunk : bytes) : list Z := (fun i => ReadBE32 Little (drop (4 * i) chunk)) <$> seq 0 16.

Definition compress (s : state) (chunk : bytes) : state :=
  rounds s s Fips.K (schedule 64 (words chunk)).
End Rolled.

(** Both sides as functions of the word operations they are built from, so
    that comparing them never unfolds the operations. *)
Definition unrolled_gen := ltac:(
  let t := eval cbv delta [Sha256.Transform_block] in Sha256.Transform_block in
  let t' := eval pattern Sha256.Round, Sha256.sigma0, Sha256.sigma1, u32, Z.add, (ReadBE32 Little) in t in
  match t' with ?f _ _ _ _ _ _ => exact f end).
Definition rolled_gen := ltac:(
  let t := eval cbv delta [Rolled.compress Rolled.words Rolled.rounds Rolled.schedule Fips.add_state] in Rolled.compress in
  let t' := eval pattern Sha256.Round, Sha256.sigma0, Sha256.sigma1, u32, Z.add, (ReadBE32 Little) in t in
  match t' with ?f _ _ _ _ _ _ => exact f end).

Lemma gen_eq R g0 g1 w32 plus rd s chunk :
  unrolled_gen R g0 g1 w32 plus rd s chunk = rolled_gen R g0 g1 w32 plus rd s chunk.
Proof. destruct s. reflexivity. Qed.

Lemma unrolled_rolled s chunk : Sha256.Transform_block s chunk = Rolled.compress s chunk.
Proof. exact (gen_eq Sha256.Round Sha256.sigma0 Sha256.sigma1 u32 Z.add (ReadBE32 Little) s chunk). Qed.

#[global] Opaque Sha256.Transform_block.

(** ** Equality with FIPS 180-4 *)

Definition word_ok (x : Z) : Prop := 0 <= x < 2 ^ 32.
Definition state_ok (s : Sha256.state) : Prop :=
  let '(Sha256.St a b c d e f g h) := s in
  word_ok a /\ word_ok b /\ word_ok c /\ word_ok d /\ word_ok e /\ word_ok f /\ word_ok g /\ word_ok h.

Lemma not32_bit x n : word_ok x -> 0 <= n < 32 -> Z.testbit (2 ^ 32 - 1 - x) n = negb (Z.testbit x n).
Proof.
  intros Hx Hn. replace (2 ^ 32 - 1 - x) with (Z.lnot x + 1 * 2 ^ 32) by (unfold Z.lnot; lia).
  rewrite <- (Z.mod_pow2_bits_low _ 32) by lia. rewrite Z.mod_add by lia.
  rewrite Z.mod_pow2_bits_low by lia. apply Z.lnot_spec. lia.
Qed.

Lemma Ch_fips x y z : word_ok x -> word_ok z -> Sha256.Ch x y z = Fips.ch x y z.
Proof.
  intros Hx Hz. unfold Sha256.Ch, Fips.ch. apply Z.bits_inj'. intros n Hn.
  rewrite !Z.lxor_spec, !Z.land_spec, Z.lxor_spec.
  destruct (Z.lt_ge_cases n 32).
  - rewrite not32_bit by done. by destruct (Z.testbit x n), (Z.testbit y n), (Z.testbit z n).
  - rewrite (limb_above x), (limb_above z) by done. by rewrite andb_false_r.
Qed.

Lemma Maj_fips x y z : Sha256.Maj x y z = Fips.maj x y z.
Proof.
  unfold Sha256.Maj, Fips.maj. apply Z.bits_inj'. intros n Hn.
  rewrite Z.lor_spec, !Z.lxor_spec, !Z.land_spec, Z.lor_spec.
  by destruct (Z.testbit x n), (Z.testbit y n), (Z.testbit z n).
Qed.

Lemma Round_fips a b c d e f g h k w : state_ok (Sha256.St a b c d e f g h) ->
  let '(d', h') := Sha256.Round a b c d e f g h (u32 (k + w)) in
  Sha256.St h' a b c d' e f g = Fips.step (Sha256.St a b c d e f g h) k w.
Proof.
  intros (Ha & Hb & Hc & Hd & He & Hf & Hg & Hh). cbn [Sha256.Round Fips.step].
  unfold Sha256.Round. rewrite Ch_fips, Maj_fips by done.
  change (Sha256.Sigma1 e) with (Fips.Sum1 e). change (Sha256.Sigma0 a) with (Fips.Sum0 a).
  assert (E : u32 (h + Fips.Sum1 e + Fips.ch e f g + u32 (k + w)) = (h + Fips.Sum1 e + Fips.ch e f g + k + w) mod 2 ^ 32).
  { unfold u32. rewrite Z.add_mod_idemp_r by lia. f_equal. lia. }
  rewrite E. reflexivity.
Qed.

Lemma step_ok v k w : state_ok v -> state_ok (Fips.step v k w).
Proof.
  destruct v as [a b c d e f g h]. intros (Ha & Hb & Hc & Hd & He & Hf & Hg & Hh).
  cbn [Fips.step state_ok]. split_and!; auto; apply limb_mod.
Qed.

Lemma rounds_fips ks : forall ws init s, state_ok s ->
  Rolled.rounds init s ks ws =
  Fips.add_state init (foldl (fun v kw => Fips.step v (fst kw) (snd kw)) s (combine ks ws)).
Proof.
  induction ks as [|k ks IH]; intros [|w ws] init s Hs; try done.
  destruct s as [a b c d e f g h]. cbn [Rolled.rounds combine foldl fst snd].
  pose proof (Round_fips a b c d e f g h k w Hs) as HR.
  destruct (Sha256.Round a b c d e f g h (u32 (k + w))) as [d' h'].
  rewrite HR. apply IH. by apply step_ok.
Qed.

Lemma rolled_fips s chunk : state_ok s -> (64 <= length chunk)%nat -> Forall byte_ok chunk ->
  Rolled.compress s chunk = Fips.compress s chunk.
Proof.
  intros Hs Hl Hc. unfold Rolled.compress, Fips.compress. rewrite rounds_fips by done.
  assert (E : Rolled.words chunk = Fips.words chunk).
  { unfold Rolled.words, Fips.words. apply list_fmap_ext.
    intros i x Hx%list_elem_of_lookup_2%elem_of_seq.
    apply ReadBE32_eq; [rewrite length_drop; lia|by apply Forall_drop]. }
  rewrite E. reflexivity.
Qed.

Lemma add_state_ok x y : state_ok (Fips.add_state x y).
Proof. destruct x, y. cbn. split_and!; apply limb_mod. Qed.

Lemma transform_block_ok s chunk : state_ok (Sha256.Transform_block s chunk) .
Proof.
  rewrite unrolled_rolled. unfold Rolled.compress. generalize s at 2.
  generalize (Rolled.schedule 64 (Rolled.words chunk)).
  induction Fips.K as [|k ks IH]; intros [|w ws] v; try apply add_state_ok.
  destruct v as [a b c d e f g h]. cbn [Rolled.rounds].
  destruct (Sha256.Round a b c d e f g h (u32 (k + w))). apply IH.
Qed.

(** A block function reads only the first 64 bytes. *)
Lemma transform_block_take s chunk : Sha256.Transform_block s (take 64 chunk) = Sha256.Transform_block s chunk.
Proof.
  assert (E : Rolled.words (take 64 chunk) = Rolled.words chunk).
  { unfold Rolled.words. apply list_fmap_ext. intros i x Hx%list_elem_of_lookup_2%elem_of_seq.
    unfold ReadBE32. do 2 f_equal. rewrite take_drop_commute, take_take, take_drop_commute.
    do 2 f_equal. lia. }
  rewrite (unrolled_rolled s (take 64 chunk)), (unrolled_rolled s chunk).
  unfold Rolled.compress. by rewrite E.
Qed.

(** ** The buffering hasher *)

(** The hasher has absorbed the message [m]. *)
Definition absorbed (c : Sha256.CSHA256) (m : bytes) : Prop :=
  Sha256.sh_s c = Sha256.Transform Sha256.Initialize m (length m / 64) /\
  Sha256.sh_bytes c = u64 (Z.of_nat (length m)) /\
  length (Sha256.sh_buf c) = 64%nat /\
  take (length m mod 64) (Sha256.sh_buf c) = drop (64 * (length m / 64)) m.

Section ForBlocks.
Context (block : Sha256.state -> bytes -> Sha256.state).
Hypothesis block_take : forall s m, block s (take 64 m) = block s m.

Lemma for_blocks_more s m x n : (64 * n <= length m)%nat ->
  Sha256.for_blocks block s (m ++ x) n = Sha256.for_blocks block s m n.
Proof.
  revert s m. induction n as [|n IH]; intros s m Hl; [done|].
  cbn [Sha256.for_blocks]. rewrite drop_app_le by lia.
  rewrite IH by (rewrite length_drop; lia). f_equal.
  rewrite <- (block_take s (m ++ x)), <- (block_take s m).
  by rewrite take_app_le by lia.
Qed.

Lemma for_blocks_split s m n k : Sha256.for_blocks block s m (n + k) =
  Sha256.for_blocks block (Sha256.for_blocks block s m n) (drop (64 * n) m) k.
Proof.
  revert s m. induction n as [|n IH]; intros s m; [done|].
  cbn [Sha256.for_blocks Nat.add]. rewrite IH, drop_drop. do 2 f_equal. lia.
Qed.
End ForBlocks.

Lemma transform_more s m x n : (64 * n <= length m)%nat ->
  Sha256.Transform s (m ++ x) n = Sha256.Transform s m n.
Proof. apply for_blocks_more, transform_block_take. Qed.

Lemma transform_split s m n k : Sha256.Transform s m (n + k) =
  Sha256.Transform (Sha256.Transform s m n) (drop (64 * n) m) k.
Proof. apply for_blocks_split. Qed.

Lemma transform_fips s m n : state_ok s -> Forall byte_ok m -> (64 * n <= length m)%nat ->
  Sha256.Transform s m n = Fips.blocks s m n /\ state_ok (Sha256.Transform s m n).
Proof.
  unfold Sha256.Transform, Fips.blocks. revert s m. induction n as [|n IH]; intros s m Hs Hm Hl; [done|].
  cbn [Sha256.for_blocks].
  assert (Hb : Sha256.Transform_block s m = Fips.compress s (take 64 m)).
  { rewrite <- transform_block_take, unrolled_rolled. apply rolled_fips; [done| |by apply Forall_take].
    rewrite length_take. lia. }
  rewrite <- Hb. apply IH; [apply transform_block_ok|by apply Forall_drop|rewrite length_drop; lia].
Qed.

#[global] Opaque Sha256.Transform.

Lemma absorbed_new : absorbed Sha256.CSHA256_new [].
Proof. repeat split. Qed.

Lemma bufsize_eq n : Z.to_nat (u64 (Z.of_nat n) mod 64) = (n mod 64)%nat.
Proof.
  unfold u64. replace (Z.of_nat n mod 2 ^ 64 mod 64) with (Z.of_nat n mod 64) by zlia.
  rewrite <- (Nat2Z.id (n mod 64)), Nat2Z.inj_mod. done.
Qed.

Lemma u64_add_nat n k : u64 (u64 (Z.of_nat n) + Z.of_nat k) = u64 (Z.of_nat (n + k)).
Proof. unfold u64. rewrite Z.add_mod_idemp_l by lia. f_equal. lia. Qed.

Lemma nat_div_add n k : (n mod 64 + k < 64)%nat ->
  ((n + k) / 64 = n / 64)%nat /\ ((n + k) mod 64 = n mod 64 + k)%nat.
Proof.
  intros. pose proof (Nat.div_mod_eq n 64). pose proof (Nat.div_mod_eq (n + k) 64).
  pose proof (Nat.mod_upper_bound (n + k) 64 ltac:(lia)). lia.
Qed.

(** Step 3: bytes that stay in the buffer. *)
Lemma absorb_rest c m data : absorbed c m -> (length m mod 64 + length data < 64)%nat ->
  absorbed (Sha256.mkSHA (Sha256.sh_s c) (write_at (length m mod 64) data (Sha256.sh_buf c))
                         (u64 (Sha256.sh_bytes c + Z.of_nat (length data)))) (m ++ data).
Proof.
  intros (Hs & Hb & Hl & Ht) Hd. destruct (nat_div_add _ _ Hd) as [E1 E2].
  unfold absorbed. cbn [Sha256.sh_s Sha256.sh_bytes Sha256.sh_buf].
  rewrite length_app, E1, E2, Hb, u64_add_nat.
  pose proof (Nat.div_mod_eq (length m) 64).
  split_and!; [|done|rewrite length_write_at; lia|].
  - rewrite transform_more by lia. done.
  - rewrite take_write_at, Ht, drop_app_le by lia. done.
Qed.

(** Step 2: whole blocks, from an empty buffer. *)
Lemma absorb_blocks c m data : absorbed c m -> (length m mod 64 = 0)%nat -> (length data mod 64 = 0)%nat ->
  absorbed (Sha256.mkSHA (Sha256.Transform (Sha256.sh_s c) data (length data / 64)) (Sha256.sh_buf c)
                         (u64 (Sha256.sh_bytes c + Z.of_nat (length data)))) (m ++ data).
Proof.
  intros (Hs & Hb & Hl & Ht) Hm Hd. unfold absorbed. cbn [Sha256.sh_s Sha256.sh_bytes Sha256.sh_buf].
  pose proof (Nat.div_mod_eq (length m) 64). pose proof (Nat.div_mod_eq (length data) 64).
  rewrite length_app, Hb, u64_add_nat.
  assert (E : ((length m + length data) / 64 = length m / 64 + length data / 64)%nat).
  { replace (length m + length data)%nat with ((length m / 64 + length data / 64) * 64)%nat by lia.
    by rewrite Nat.div_mul. }
  assert (E' : ((length m + length data) mod 64 = 0)%nat).
  { pose proof (Nat.div_mod_eq (length m + length data) 64). lia. }
  rewrite E, E'. split_and!; [|done|done|].
  - rewrite transform_split, transform_more by lia. rewrite Hs. f_equal.
    rewrite drop_app_ge by lia. replace (_ - _)%nat with 0%nat by lia. done.
  - rewrite drop_ge; [done|]. rewrite length_app. lia.
Qed.

(** Step 1: completing the buffered block. *)
Lemma absorb_fill c m data : absorbed c m -> (0 < length m mod 64)%nat ->
  (length m mod 64 + length data = 64)%nat ->
  let buf := write_at (length m mod 64) data (Sha256.sh_buf c) in
  absorbed (Sha256.mkSHA (Sha256.Transform (Sha256.sh_s c) buf 1) buf
                         (u64 (Sha256.sh_bytes c + Z.of_nat (length data)))) (m ++ data).
Proof.
  intros (Hs & Hb & Hl & Ht) Hm Hd buf. unfold absorbed. cbn [Sha256.sh_s Sha256.sh_bytes Sha256.sh_buf].
  pose proof (Nat.div_mod_eq (length m) 64).
  assert (Hbuf : buf = drop (64 * (length m / 64)) m ++ data).
  { rewrite <- Ht. rewrite <- take_write_at by lia. symmetry. apply take_ge.
    fold buf. subst buf. rewrite length_write_at by lia. lia. }
  rewrite length_app, Hb, u64_add_nat.
  assert (E : ((length m + length data) / 64 = length m / 64 + 1)%nat).
  { replace (length m + length data)%nat with ((length m / 64 + 1) * 64)%nat by lia. by rewrite Nat.div_mul. }
  assert (E' : ((length m + length data) mod 64 = 0)%nat).
  { pose proof (Nat.div_mod_eq (length m + length data) 64). lia. }
  rewrite E, E'. split_and!; [|done|subst buf; rewrite length_write_at; lia|].
  - rewrite transform_split, transform_more by lia. rewrite <- Hs.
    rewrite drop_app_le by lia. rewrite Hbuf. reflexivity.
  - rewrite drop_ge; [done|]. rewrite length_app. lia.
Qed.

(** Steps 2 and 3 of [Write], once no partial block is buffered. *)
Lemma absorb_tail c m data : absorbed c m -> (length m mod 64 = 0)%nat ->
  absorbed (let '(c', data') :=
     if (64 <=? length data)%nat then
       (Sha256.mkSHA (Sha256.Transform (Sha256.sh_s c) data (length data / 64)) (Sha256.sh_buf c)
          (u64 (Sha256.sh_bytes c + Z.of_nat (64 * (length data / 64)))), drop (64 * (length data / 64)) data)
     else (c, data) in
   if (0 <? length data')%nat then
     Sha256.mkSHA (Sha256.sh_s c') (write_at 0 data' (Sha256.sh_buf c')) (u64 (Sha256.sh_bytes c' + Z.of_nat (length data')))
   else c') (m ++ data).
Proof.
  intros Hc Hm. pose proof (Nat.div_mod_eq (length data) 64).
  pose proof (Nat.mod_upper_bound (length data) 64 ltac:(lia)).
  assert (Hrest : forall c' m' d', absorbed c' m' -> (length m' mod 64 = 0)%nat -> (length d' < 64)%nat ->
    absorbed (if (0 <? length d')%nat then Sha256.mkSHA (Sha256.sh_s c') (write_at 0 d' (Sha256.sh_buf c'))
                (u64 (Sha256.sh_bytes c' + Z.of_nat (length d'))) else c') (m' ++ d')).
  { intros c' m' d' Hc' Hm' Hd'. destruct (Nat.ltb_spec 0 (length d')).
    - pose proof (absorb_rest c' m' d' Hc') as Hr. rewrite Hm' in Hr. apply Hr. lia.
    - destruct d'; [by rewrite app_nil_r|]. simpl in *. lia. }
  destruct (Nat.leb_spec 64 (length data)) as [Hge|Hlt]; [|by apply Hrest].
  set (k := (64 * (length data / 64))%nat) in *.
  assert (Hk : length (take k data) = k) by (rewrite length_take; lia).
  assert (Hkd : (k / 64 = length data / 64)%nat) by (subst k; rewrite Nat.mul_comm; by apply Nat.div_mul).
  assert (Hkm : (k mod 64 = 0)%nat) by (subst k; rewrite Nat.mul_comm; by apply Nat.Div0.mod_mul).
  replace (m ++ data) with ((m ++ take k data) ++ drop k data) by by rewrite <- app_assoc, take_drop.
  apply Hrest; [|rewrite length_app, Hk; rewrite Nat.Div0.add_mod, Hm, Hkm; done|rewrite length_drop; lia].
  pose proof (absorb_blocks c m (take k data) Hc Hm) as Hb. rewrite Hk, Hkd in Hb.
  pose proof (transform_more (Sha256.sh_s c) (take k data) (drop k data) (length data / 64)) as E.
  rewrite take_drop in E. rewrite E by lia. exact (Hb Hkm).
Qed.

Lemma write_absorbed c m data : absorbed c m -> absorbed (Sha256.Write c data) (m ++ data).
Proof.
  intros Hc. pose proof Hc as (_ & Hb & _ & _). unfold Sha256.Write. rewrite Hb, bufsize_eq.
  pose proof (Nat.mod_upper_bound (length m) 64 ltac:(lia)). pose proof (Nat.div_mod_eq (length m) 64).
  set (r := (length m mod 64)%nat) in *. destruct (Nat.eqb_spec r 0) as [Hr|Hr]; cbn [negb andb].
  { rewrite Hr. by apply absorb_tail. }
  destruct (Nat.leb_spec 64 (r + length data)) as [Hge|Hlt].
  - replace (m ++ data) with ((m ++ take (64 - r) data) ++ drop (64 - r) data)
      by by rewrite <- app_assoc, take_drop.
    assert (Hk : length (take (64 - r) data) = (64 - r)%nat) by (rewrite length_take; lia).
    apply (absorb_tail _ (m ++ take (64 - r) data)).
    + pose proof (absorb_fill c m (take (64 - r) data) Hc ltac:(lia)) as Hf.
      rewrite Hk in Hf. fold r in Hf. rewrite Hb in Hf. apply Hf. lia.
    + rewrite length_app, Hk. replace (length m + (64 - r))%nat with ((length m / 64 + 1) * 64)%nat by lia.
      by apply Nat.Div0.mod_mul.
  - destruct (Nat.leb_spec 64 (length data)); [lia|].
    destruct (Nat.ltb_spec 0 (length data)) as [|Hz].
    + pose proof (absorb_rest c m data Hc) as Hf. fold r in Hf. by apply Hf.
    + destruct data; [by rewrite app_nil_r|]. simpl in Hz. lia.
Qed.

(** ** One-shot specification *)

Lemma output_digest s : state_ok s -> Sha256.output s = Fips.digest s.
Proof.
  destruct s as [a b c d e f g h]. intros (Ha & Hb & Hc & Hd & He & Hf & Hg & Hh).
  unfold Sha256.output, Fips.digest. rewrite !WriteBE32_eq by done.
  cbn [fmap list_fmap concat]. by rewrite app_nil_r.
Qed.

Lemma absorbed_bytes c m : absorbed c m -> Z.of_nat (length m) < 2 ^ 61 ->
  Sha256.sh_bytes c = Z.of_nat (length m).
Proof. intros (_ & -> & _) ?. apply u64_id. unfold in_u. lia. Qed.

Lemma pad_prefix k : (k <= 63)%nat -> take (1 + k) Sha256.pad = [0x80] ++ replicate k 0.
Proof.
  intros. unfold Sha256.pad. cbn [Nat.add firstn app]. f_equal. rewrite take_replicate. f_equal. lia.
Qed.

Lemma length_padded m : (length (Fips.padded m) mod 64 = 0)%nat.
Proof.
  unfold Fips.padded. rewrite !length_app, length_replicate, length_rev, length_le_split. cbn [length].
  pose proof (Z.mod_pos_bound (55 - Z.of_nat (length m)) 64 ltac:(lia)).
  set (k := Z.to_nat _).
  assert (Hk : Z.of_nat k = (55 - Z.of_nat (length m)) mod 64) by (subst k; lia).
  clearbody k. apply Nat2Z.inj. rewrite Nat2Z.inj_mod. zlia.
Qed.

(** The initial state of the code is that of the standard. *)
Lemma h0_initialize : Fips.H0 = Sha256.Initialize.
Proof. reflexivity. Qed.

Lemma finalize_absorbed c m : absorbed c m -> Forall byte_ok m -> Z.of_nat (length m) < 2 ^ 61 ->
  Sha256.Finalize c = Fips.sha256 m.
Proof.
  intros Hc Hm Hl. unfold Sha256.Finalize. rewrite (absorbed_bytes c m Hc Hl).
  assert (Hk : Z.to_nat ((119 - Z.of_nat (length m) mod 64) mod 64) = Z.to_nat ((55 - Z.of_nat (length m)) mod 64))
    by (f_equal; zlia).
  rewrite Hk, pad_prefix by zlia.
  rewrite Z.shiftl_mul_pow2, u64_id by (try unfold in_u; lia).
  rewrite WriteBE64_eq by (unfold in_u; lia). rewrite (Z.mul_comm _ (2 ^ 3)).
  eapply write_absorbed in Hc. eapply write_absorbed in Hc as (Hs & _).
  rewrite Hs. clear Hs. rewrite <- !app_assoc. change (2 ^ 3) with 8.
  fold (Fips.padded m). unfold Fips.sha256. rewrite h0_initialize.
  destruct (transform_fips Sha256.Initialize (Fips.padded m) (length (Fips.padded m) / 64)) as [E Ho].
  - repeat split; by vm_compute.
  - unfold Fips.padded. rewrite !Forall_app. split_and!; [done|by repeat constructor|..].
    + by apply Forall_replicate.
    + apply Forall_rev, le_split_ok.
  - pose proof (Nat.div_mod_eq (length (Fips.padded m)) 64). lia.
  - rewrite <- E. by apply output_digest.
Qed.

(** One message written in one call. *)
Lemma sha256_once m : Forall byte_ok m -> Z.of_nat (length m) < 2 ^ 61 ->
  Sha256.Finalize (Sha256.Write Sha256.CSHA256_new m) = Fips.sha256 m.
Proof. intros. apply finalize_absorbed; [|done..]. apply (write_absorbed _ []), absorbed_new. Qed.

(** A digest is 32 bytes. *)
Lemma sha256_blob m : blob_wf 32 (Fips.sha256 m).
Proof.
  unfold Fips.sha256. generalize (Fips.blocks Fips.H0 (Fips.padded m) (length (Fips.padded m) / 64)).
  intros [a b c d e f g h]. cbn [Fips.digest fmap list_fmap concat]. split.
  - by rewrite !length_app, !length_rev, !length_le_split.
  - rewrite !Forall_app. split_and!; try apply Forall_rev, le_split_ok. constructor.
Qed.

Lemma absorbed_writes chunks c m : absorbed c m -> absorbed (foldl Sha256.Write c chunks) (m ++ concat chunks).
Proof.
  revert c m. induction chunks as [|d chunks IH]; intros c m Hc; cbn [foldl concat]; [by rewrite app_nil_r|].
  rewrite app_assoc. by apply IH, write_absorbed.
Qed.

(** C35: a fresh hasher fed the message in arbitrary pieces and finalized yields the
    SHA-256 digest (FIPS 180-4) of the concatenation, for messages below 2^61 bytes. *)
Theorem sha256_streaming (chunks : list bytes) :
  Forall byte_ok (concat chunks) -> Z.of_nat (length (concat chunks)) < 2 ^ 61 ->
  Sha256.Finalize (foldl Sha256.Write Sha256.CSHA256_new chunks) = Fips.sha256 (concat chunks).
Proof.
  intros Hb Hl. apply finalize_absorbed; [|done..]. apply (absorbed_writes chunks _ []), absorbed_new.
Qed.

(** "abc" written in two pieces: the digest FIPS 180-4 gives for it. *)
Lemma sha256_streaming_witness :
  Fips.sha256 [0x61; 0x62; 0x63] =
  rev (le_split 32 0xba7816bf8f01cfea414140de5dae2223b00361a396177a9cb410ff61f20015ad).
Proof.
  change [0x61; 0x62; 0x63] with (concat [[0x61]; [0x62; 0x63]]).
  rewrite <- sha256_streaming.
  - vm_compute. reflexivity.
  - repeat constructor; unfold byte_ok; lia.
  - cbn. lia.
Defined.
