(* ===== verification/Sha256D64.v ===== *)
(** * Sha256D64: double hashes of 64-byte blobs and the choice of an implementation ([util/sha256.cpp])

    The portable [TransformD64] computes SHA-256 of the SHA-256 of 64 bytes in three runs of rounds whose constants
    already contain the padding; [SHA256D64] does many of them, several at a time where the
    processor allows; [SHA256AutoDetect] chooses the functions and tests them.  The functions for
    special instructions are not in the repository: they are the arguments [Lanes]. *)
From Stdlib Require Import String.
From S2P Require Import Prelude Arith Bytes Sha256.
Import Endian.

#[global] Instance sha_state_eq : EqDecision Sha256.state.
Proof. solve_decision. Defined.

Module D64.
Import Sha256.

(** ** [TransformD64] *)

(** The values the working variables start with in "Transform 1" and "Transform 3". *)
Definition initial : state :=
  St 0x6a09e667 0xbb67ae85 0x3c6ef372 0xa54ff53a 0x510e527f 0x9b05688c 0x1f83d9ab 0x5be0cd19.

(** The working variables after the rounds of "Transform 1".  The constants are [unsigned long]; as every result is cut to
    32 bits, the width of that type does not matter. *)
Definition rounds1 (init : state) (input : bytes) : state :=
  let '(St a b c d e f g h) := init in
  let w0 := ReadBE32 Little (drop 0 input) in
  let '(d, h) := Round a b c d e f g h (u32 (0x428a2f98 + w0)) in
  let w1 := ReadBE32 Little (drop 4 input) in
  let '(c, g) := Round h a b c d e f g (u32 (0x71374491 + w1)) in
  let w2 := ReadBE32 Little (drop 8 input) in
  let '(b, f) := Round g h a b c d e f (u32 (0xb5c0fbcf + w2)) in
  let w3 := ReadBE32 Little (drop 12 input) in
  let '(a, e) := Round f g h a b c d e (u32 (0xe9b5dba5 + w3)) in
  let w4 := ReadBE32 Little (drop 16 input) in
  let '(h, d) := Round e f g h a b c d (u32 (0x3956c25b + w4)) in
  let w5 := ReadBE32 Little (drop 20 input) in
  let '(g, c) := Round d e f g h a b c (u32 (0x59f111f1 + w5)) in
  let w6 := ReadBE32 Little (drop 24 input) in
  let '(f, b) := Round c d e f g h a b (u32 (0x923f82a4 + w6)) in
  let w7 := ReadBE32 Little (drop 28 input) in
  let '(e, a) := Round b c d e f g h a (u32 (0xab1c5ed5 + w7)) in
  let w8 := ReadBE32 Little (drop 32 input) in
  let '(d, h) := Round a b c d e f g h (u32 (0xd807aa98 + w8)) in
  let w9 := ReadBE32 Little (drop 36 input) in
  let '(c, g) := Round h a b c d e f g (u32 (0x12835b01 + w9)) in
  let w10 := ReadBE32 Little (drop 40 input) in
  let '(b, f) := Round g h a b c d e f (u32 (0x243185be + w10)) in
  let w11 := ReadBE32 Little (drop 44 input) in
  let '(a, e) := Round f g h a b c d e (u32 (0x550c7dc3 + w11)) in
  let w12 := ReadBE32 Little (drop 48 input) in
  let '(h, d) := Round e f g h a b c d (u32 (0x72be5d74 + w12)) in
  let w13 := ReadBE32 Little (drop 52 input) in
  let '(g, c) := Round d e f g h a b c (u32 (0x80deb1fe + w13)) in
  let w14 := ReadBE32 Little (drop 56 input) in
  let '(f, b) := Round c d e f g h a b (u32 (0x9bdc06a7 + w14)) in
  let w15 := ReadBE32 Little (drop 60 input) in
  let '(e, a) := Round b c d e f g h a (u32 (0xc19bf174 + w15)) in
  let w0 := u32 (w0 + u32 (sigma1 w14 + w9 + sigma0 w1)) in
  let '(d, h) := Round a b c d e f g h (u32 (0xe49b69c1 + w0)) in
  let w1 := u32 (w1 + u32 (sigma1 w15 + w10 + sigma0 w2)) in
  let '(c, g) := Round h a b c d e f g (u32 (0xefbe4786 + w1)) in
  let w2 := u32 (w2 + u32 (sigma1 w0 + w11 + sigma0 w3)) in
  let '(b, f) := Round g h a b c d e f (u32 (0x0fc19dc6 + w2)) in
  let w3 := u32 (w3 + u32 (sigma1 w1 + w12 + sigma0 w4)) in
  let '(a, e) := Round f g h a b c d e (u32 (0x240ca1cc + w3)) in
  let w4 := u32 (w4 + u32 (sigma1 w2 + w13 + sigma0 w5)) in
  let '(h, d) := Round e f g h a b c d (u32 (0x2de92c6f + w4)) in
  let w5 := u32 (w5 + u32 (sigma1 w3 + w14 + sigma0 w6)) in
  let '(g, c) := Round d e f g h a b c (u32 (0x4a7484aa + w5)) in
  let w6 := u32 (w6 + u32 (sigma1 w4 + w15 + sigma0 w7)) in
  let '(f, b) := Round c d e f g h a b (u32 (0x5cb0a9dc + w6)) in
  let w7 := u32 (w7 + u32 (sigma1 w5 + w0 + sigma0 w8)) in
  let '(e, a) := Round b c d e f g h a (u32 (0x76f988da + w7)) in
  let w8 := u32 (w8 + u32 (sigma1 w6 + w1 + sigma0 w9)) in
  let '(d, h) := Round a b c d e f g h (u32 (0x983e5152 + w8)) in
  let w9 := u32 (w9 + u32 (sigma1 w7 + w2 + sigma0 w10)) in
  let '(c, g) := Round h a b c d e f g (u32 (0xa831c66d + w9)) in
  let w10 := u32 (w10 + u32 (sigma1 w8 + w3 + sigma0 w11)) in
  let '(b, f) := Round g h a b c d e f (u32 (0xb00327c8 + w10)) in
  let w11 := u32 (w11 + u32 (sigma1 w9 + w4 + sigma0 w12)) in
  let '(a, e) := Round f g h a b c d e (u32 (0xbf597fc7 + w11)) in
  let w12 := u32 (w12 + u32 (sigma1 w10 + w5 + sigma0 w13)) in
  let '(h, d) := Round e f g h a b c d (u32 (0xc6e00bf3 + w12)) in
  let w13 := u32 (w13 + u32 (sigma1 w11 + w6 + sigma0 w14)) in
  let '(g, c) := Round d e f g h a b c (u32 (0xd5a79147 + w13)) in
  let w14 := u32 (w14 + u32 (sigma1 w12 + w7 + sigma0 w15)) in
  let '(f, b) := Round c d e f g h a b (u32 (0x06ca6351 + w14)) in
  let w15 := u32 (w15 + u32 (sigma1 w13 + w8 + sigma0 w0)) in
  let '(e, a) := Round b c d e f g h a (u32 (0x14292967 + w15)) in
  let w0 := u32 (w0 + u32 (sigma1 w14 + w9 + sigma0 w1)) in
  let '(d, h) := Round a b c d e f g h (u32 (0x27b70a85 + w0)) in
  let w1 := u32 (w1 + u32 (sigma1 w15 + w10 + sigma0 w2)) in
  let '(c, g) := Round h a b c d e f g (u32 (0x2e1b2138 + w1)) in
  let w2 := u32 (w2 + u32 (sigma1 w0 + w11 + sigma0 w3)) in
  let '(b, f) := Round g h a b c d e f (u32 (0x4d2c6dfc + w2)) in
  let w3 := u32 (w3 + u32 (sigma1 w1 + w12 + sigma0 w4)) in
  let '(a, e) := Round f g h a b c d e (u32 (0x53380d13 + w3)) in
  let w4 := u32 (w4 + u32 (sigma1 w2 + w13 + sigma0 w5)) in
  let '(h, d) := Round e f g h a b c d (u32 (0x650a7354 + w4)) in
  let w5 := u32 (w5 + u32 (sigma1 w3 + w14 + sigma0 w6)) in
  let '(g, c) := Round d e f g h a b c (u32 (0x766a0abb + w5)) in
  let w6 := u32 (w6 + u32 (sigma1 w4 + w15 + sigma0 w7)) in
  let '(f, b) := Round c d e f g h a b (u32 (0x81c2c92e + w6)) in
  let w7 := u32 (w7 + u32 (sigma1 w5 + w0 + sigma0 w8)) in
  let '(e, a) := Round b c d e f g h a (u32 (0x92722c85 + w7)) in
  let w8 := u32 (w8 + u32 (sigma1 w6 + w1 + sigma0 w9)) in
  let '(d, h) := Round a b c d e f g h (u32 (0xa2bfe8a1 + w8)) in
  let w9 := u32 (w9 + u32 (sigma1 w7 + w2 + sigma0 w10)) in
  let '(c, g) := Round h a b c d e f g (u32 (0xa81a664b + w9)) in
  let w10 := u32 (w10 + u32 (sigma1 w8 + w3 + sigma0 w11)) in
  let '(b, f) := Round g h a b c d e f (u32 (0xc24b8b70 + w10)) in
  let w11 := u32 (w11 + u32 (sigma1 w9 + w4 + sigma0 w12)) in
  let '(a, e) := Round f g h a b c d e (u32 (0xc76c51a3 + w11)) in
  let w12 := u32 (w12 + u32 (sigma1 w10 + w5 + sigma0 w13)) in
  let '(h, d) := Round e f g h a b c d (u32 (0xd192e819 + w12)) in
  let w13 := u32 (w13 + u32 (sigma1 w11 + w6 + sigma0 w14)) in
  let '(g, c) := Round d e f g h a b c (u32 (0xd6990624 + w13)) in
  let w14 := u32 (w14 + u32 (sigma1 w12 + w7 + sigma0 w15)) in
  let '(f, b) := Round c d e f g h a b (u32 (0xf40e3585 + w14)) in
  let w15 := u32 (w15 + u32 (sigma1 w13 + w8 + sigma0 w0)) in
  let '(e, a) := Round b c d e f g h a (u32 (0x106aa070 + w15)) in
  let w0 := u32 (w0 + u32 (sigma1 w14 + w9 + sigma0 w1)) in
  let '(d, h) := Round a b c d e f g h (u32 (0x19a4c116 + w0)) in
  let w1 := u32 (w1 + u32 (sigma1 w15 + w10 + sigma0 w2)) in
  let '(c, g) := Round h a b c d e f g (u32 (0x1e376c08 + w1)) in
  let w2 := u32 (w2 + u32 (sigma1 w0 + w11 + sigma0 w3)) in
  let '(b, f) := Round g h a b c d e f (u32 (0x2748774c + w2)) in
  let w3 := u32 (w3 + u32 (sigma1 w1 + w12 + sigma0 w4)) in
  let '(a, e) := Round f g h a b c d e (u32 (0x34b0bcb5 + w3)) in
  let w4 := u32 (w4 + u32 (sigma1 w2 + w13 + sigma0 w5)) in
  let '(h, d) := Round e f g h a b c d (u32 (0x391c0cb3 + w4)) in
  let w5 := u32 (w5 + u32 (sigma1 w3 + w14 + sigma0 w6)) in
  let '(g, c) := Round d e f g h a b c (u32 (0x4ed8aa4a + w5)) in
  let w6 := u32 (w6 + u32 (sigma1 w4 + w15 + sigma0 w7)) in
  let '(f, b) := Round c d e f g h a b (u32 (0x5b9cca4f + w6)) in
  let w7 := u32 (w7 + u32 (sigma1 w5 + w0 + sigma0 w8)) in
  let '(e, a) := Round b c d e f g h a (u32 (0x682e6ff3 + w7)) in
  let w8 := u32 (w8 + u32 (sigma1 w6 + w1 + sigma0 w9)) in
  let '(d, h) := Round a b c d e f g h (u32 (0x748f82ee + w8)) in
  let w9 := u32 (w9 + u32 (sigma1 w7 + w2 + sigma0 w10)) in
  let '(c, g) := Round h a b c d e f g (u32 (0x78a5636f + w9)) in
  let w10 := u32 (w10 + u32 (sigma1 w8 + w3 + sigma0 w11)) in
  let '(b, f) := Round g h a b c d e f (u32 (0x84c87814 + w10)) in
  let w11 := u32 (w11 + u32 (sigma1 w9 + w4 + sigma0 w12)) in
  let '(a, e) := Round f g h a b c d e (u32 (0x8cc70208 + w11)) in
  let w12 := u32 (w12 + u32 (sigma1 w10 + w5 + sigma0 w13)) in
  let '(h, d) := Round e f g h a b c d (u32 (0x90befffa + w12)) in
  let w13 := u32 (w13 + u32 (sigma1 w11 + w6 + sigma0 w14)) in
  let '(g, c) := Round d e f g h a b c (u32 (0xa4506ceb + w13)) in
  let '(f, b) := Round c d e f g h a b (u32 (0xbef9a3f7 + u32 (w14 + u32 (sigma1 w12 + w7 + sigma0 w15)))) in
  let '(e, a) := Round b c d e f g h a (u32 (0xc67178f2 + u32 (w15 + u32 (sigma1 w13 + w8 + sigma0 w0)))) in
  St a b c d e f g h.

(** [a += 0x6a09e667ul], ... *)
Definition transform1 (input : bytes) : state :=
  let '(St a b c d e f g h) := rounds1 initial input in
  St (u32 (a + 0x6a09e667)) (u32 (b + 0xbb67ae85)) (u32 (c + 0x3c6ef372)) (u32 (d + 0xa54ff53a))
     (u32 (e + 0x510e527f)) (u32 (f + 0x9b05688c)) (u32 (g + 0x1f83d9ab)) (u32 (h + 0x5be0cd19)).

(** The rounds of "Transform 2", with constants that contain the padding block. *)
Definition rounds2 (s : state) : state :=
  let '(St a b c d e f g h) := s in
  let '(d, h) := Round a b c d e f g h 0xc28a2f98 in
  let '(c, g) := Round h a b c d e f g 0x71374491 in
  let '(b, f) := Round g h a b c d e f 0xb5c0fbcf in
  let '(a, e) := Round f g h a b c d e 0xe9b5dba5 in
  let '(h, d) := Round e f g h a b c d 0x3956c25b in
  let '(g, c) := Round d e f g h a b c 0x59f111f1 in
  let '(f, b) := Round c d e f g h a b 0x923f82a4 in
  let '(e, a) := Round b c d e f g h a 0xab1c5ed5 in
  let '(d, h) := Round a b c d e f g h 0xd807aa98 in
  let '(c, g) := Round h a b c d e f g 0x12835b01 in
  let '(b, f) := Round g h a b c d e f 0x243185be in
  let '(a, e) := Round f g h a b c d e 0x550c7dc3 in
  let '(h, d) := Round e f g h a b c d 0x72be5d74 in
  let '(g, c) := Round d e f g h a b c 0x80deb1fe in
  let '(f, b) := Round c d e f g h a b 0x9bdc06a7 in
  let '(e, a) := Round b c d e f g h a 0xc19bf374 in
  let '(d, h) := Round a b c d e f g h 0x649b69c1 in
  let '(c, g) := Round h a b c d e f g 0xf0fe4786 in
  let '(b, f) := Round g h a b c d e f 0x0fe1edc6 in
  let '(a, e) := Round f g h a b c d e 0x240cf254 in
  let '(h, d) := Round e f g h a b c d 0x4fe9346f in
  let '(g, c) := Round d e f g h a b c 0x6cc984be in
  let '(f, b) := Round c d e f g h a b 0x61b9411e in
  let '(e, a) := Round b c d e f g h a 0x16f988fa in
  let '(d, h) := Round a b c d e f g h 0xf2c65152 in
  let '(c, g) := Round h a b c d e f g 0xa88e5a6d in
  let '(b, f) := Round g h a b c d e f 0xb019fc65 in
  let '(a, e) := Round f g h a b c d e 0xb9d99ec7 in
  let '(h, d) := Round e f g h a b c d 0x9a1231c3 in
  let '(g, c) := Round d e f g h a b c 0xe70eeaa0 in
  let '(f, b) := Round c d e f g h a b 0xfdb1232b in
  let '(e, a) := Round b c d e f g h a 0xc7353eb0 in
  let '(d, h) := Round a b c d e f g h 0x3069bad5 in
  let '(c, g) := Round h a b c d e f g 0xcb976d5f in
  let '(b, f) := Round g h a b c d e f 0x5a0f118f in
  let '(a, e) := Round f g h a b c d e 0xdc1eeefd in
  let '(h, d) := Round e f g h a b c d 0x0a35b689 in
  let '(g, c) := Round d e f g h a b c 0xde0b7a04 in
  let '(f, b) := Round c d e f g h a b 0x58f4ca9d in
  let '(e, a) := Round b c d e f g h a 0xe15d5b16 in
  let '(d, h) := Round a b c d e f g h 0x007f3e86 in
  let '(c, g) := Round h a b c d e f g 0x37088980 in
  let '(b, f) := Round g h a b c d e f 0xa507ea32 in
  let '(a, e) := Round f g h a b c d e 0x6fab9537 in
  let '(h, d) := Round e f g h a b c d 0x17406110 in
  let '(g, c) := Round d e f g h a b c 0x0d8cd6f1 in
  let '(f, b) := Round c d e f g h a b 0xcdaa3b6d in
  let '(e, a) := Round b c d e f g h a 0xc0bbbe37 in
  let '(d, h) := Round a b c d e f g h 0x83613bda in
  let '(c, g) := Round h a b c d e f g 0xdb48a363 in
  let '(b, f) := Round g h a b c d e f 0x0b02e931 in
  let '(a, e) := Round f g h a b c d e 0x6fd15ca7 in
  let '(h, d) := Round e f g h a b c d 0x521afaca in
  let '(g, c) := Round d e f g h a b c 0x31338431 in
  let '(f, b) := Round c d e f g h a b 0x6ed41a95 in
  let '(e, a) := Round b c d e f g h a 0x6d437890 in
  let '(d, h) := Round a b c d e f g h 0xc39c91f2 in
  let '(c, g) := Round h a b c d e f g 0x9eccabbd in
  let '(b, f) := Round g h a b c d e f 0xb5c9a0e6 in
  let '(a, e) := Round f g h a b c d e 0x532fb63c in
  let '(h, d) := Round e f g h a b c d 0xd2c741c6 in
  let '(g, c) := Round d e f g h a b c 0x07237ea3 in
  let '(f, b) := Round c d e f g h a b 0xa4954b68 in
  let '(e, a) := Round b c d e f g h a 0x4c191d76 in
  St a b c d e f g h.

(** [w0 = t0 + a], ... *)
Definition transform2 (s : state) : state :=
  let '(St t0 t1 t2 t3 t4 t5 t6 t7) := s in
  let '(St a b c d e f g h) := rounds2 s in
  St (u32 (t0 + a)) (u32 (t1 + b)) (u32 (t2 + c)) (u32 (t3 + d)) (u32 (t4 + e)) (u32 (t5 + f)) (u32 (t6 + g)) (u32 (t7 + h)).

(** The rounds of "Transform 3", on the first hash and its padding. *)
Definition rounds3 (init s : state) : state :=
  let '(St w0 w1 w2 w3 w4 w5 w6 w7) := s in
  let '(St a b c d e f g h) := init in
  let '(d, h) := Round a b c d e f g h (u32 (0x428a2f98 + w0)) in
  let '(c, g) := Round h a b c d e f g (u32 (0x71374491 + w1)) in
  let '(b, f) := Round g h a b c d e f (u32 (0xb5c0fbcf + w2)) in
  let '(a, e) := Round f g h a b c d e (u32 (0xe9b5dba5 + w3)) in
  let '(h, d) := Round e f g h a b c d (u32 (0x3956c25b + w4)) in
  let '(g, c) := Round d e f g h a b c (u32 (0x59f111f1 + w5)) in
  let '(f, b) := Round c d e f g h a b (u32 (0x923f82a4 + w6)) in
  let '(e, a) := Round b c d e f g h a (u32 (0xab1c5ed5 + w7)) in
  let '(d, h) := Round a b c d e f g h 0x5807aa98 in
  let '(c, g) := Round h a b c d e f g 0x12835b01 in
  let '(b, f) := Round g h a b c d e f 0x243185be in
  let '(a, e) := Round f g h a b c d e 0x550c7dc3 in
  let '(h, d) := Round e f g h a b c d 0x72be5d74 in
  let '(g, c) := Round d e f g h a b c 0x80deb1fe in
  let '(f, b) := Round c d e f g h a b 0x9bdc06a7 in
  let '(e, a) := Round b c d e f g h a 0xc19bf274 in
  let w0 := u32 (w0 + sigma0 w1) in
  let '(d, h) := Round a b c d e f g h (u32 (0xe49b69c1 + w0)) in
  let w1 := u32 (w1 + (0xa00000 + sigma0 w2)) in
  let '(c, g) := Round h a b c d e f g (u32 (0xefbe4786 + w1)) in
  let w2 := u32 (w2 + u32 (sigma1 w0 + sigma0 w3)) in
  let '(b, f) := Round g h a b c d e f (u32 (0x0fc19dc6 + w2)) in
  let w3 := u32 (w3 + u32 (sigma1 w1 + sigma0 w4)) in
  let '(a, e) := Round f g h a b c d e (u32 (0x240ca1cc + w3)) in
  let w4 := u32 (w4 + u32 (sigma1 w2 + sigma0 w5)) in
  let '(h, d) := Round e f g h a b c d (u32 (0x2de92c6f + w4)) in
  let w5 := u32 (w5 + u32 (sigma1 w3 + sigma0 w6)) in
  let '(g, c) := Round d e f g h a b c (u32 (0x4a7484aa + w5)) in
  let w6 := u32 (w6 + (sigma1 w4 + 0x100 + sigma0 w7)) in
  let '(f, b) := Round c d e f g h a b (u32 (0x5cb0a9dc + w6)) in
  let w7 := u32 (w7 + (sigma1 w5 + w0 + 0x11002000)) in
  let '(e, a) := Round b c d e f g h a (u32 (0x76f988da + w7)) in
  let w8 := u32 (0x80000000 + sigma1 w6 + w1) in
  let '(d, h) := Round a b c d e f g h (u32 (0x983e5152 + w8)) in
  let w9 := u32 (sigma1 w7 + w2) in
  let '(c, g) := Round h a b c d e f g (u32 (0xa831c66d + w9)) in
  let w10 := u32 (sigma1 w8 + w3) in
  let '(b, f) := Round g h a b c d e f (u32 (0xb00327c8 + w10)) in
  let w11 := u32 (sigma1 w9 + w4) in
  let '(a, e) := Round f g h a b c d e (u32 (0xbf597fc7 + w11)) in
  let w12 := u32 (sigma1 w10 + w5) in
  let '(h, d) := Round e f g h a b c d (u32 (0xc6e00bf3 + w12)) in
  let w13 := u32 (sigma1 w11 + w6) in
  let '(g, c) := Round d e f g h a b c (u32 (0xd5a79147 + w13)) in
  let w14 := u32 (sigma1 w12 + w7 + 0x400022) in
  let '(f, b) := Round c d e f g h a b (u32 (0x06ca6351 + w14)) in
  let w15 := u32 (0x100 + sigma1 w13 + w8 + sigma0 w0) in
  let '(e, a) := Round b c d e f g h a (u32 (0x14292967 + w15)) in
  let w0 := u32 (w0 + u32 (sigma1 w14 + w9 + sigma0 w1)) in
  let '(d, h) := Round a b c d e f g h (u32 (0x27b70a85 + w0)) in
  let w1 := u32 (w1 + u32 (sigma1 w15 + w10 + sigma0 w2)) in
  let '(c, g) := Round h a b c d e f g (u32 (0x2e1b2138 + w1)) in
  let w2 := u32 (w2 + u32 (sigma1 w0 + w11 + sigma0 w3)) in
  let '(b, f) := Round g h a b c d e f (u32 (0x4d2c6dfc + w2)) in
  let w3 := u32 (w3 + u32 (sigma1 w1 + w12 + sigma0 w4)) in
  let '(a, e) := Round f g h a b c d e (u32 (0x53380d13 + w3)) in
  let w4 := u32 (w4 + u32 (sigma1 w2 + w13 + sigma0 w5)) in
  let '(h, d) := Round e f g h a b c d (u32 (0x650a7354 + w4)) in
  let w5 := u32 (w5 + u32 (sigma1 w3 + w14 + sigma0 w6)) in
  let '(g, c) := Round d e f g h a b c (u32 (0x766a0abb + w5)) in
  let w6 := u32 (w6 + u32 (sigma1 w4 + w15 + sigma0 w7)) in
  let '(f, b) := Round c d e f g h a b (u32 (0x81c2c92e + w6)) in
  let w7 := u32 (w7 + u32 (sigma1 w5 + w0 + sigma0 w8)) in
  let '(e, a) := Round b c d e f g h a (u32 (0x92722c85 + w7)) in
  let w8 := u32 (w8 + u32 (sigma1 w6 + w1 + sigma0 w9)) in
  let '(d, h) := Round a b c d e f g h (u32 (0xa2bfe8a1 + w8)) in
  let w9 := u32 (w9 + u32 (sigma1 w7 + w2 + sigma0 w10)) in
  let '(c, g) := Round h a b c d e f g (u32 (0xa81a664b + w9)) in
  let w10 := u32 (w10 + u32 (sigma1 w8 + w3 + sigma0 w11)) in
  let '(b, f) := Round g h a b c d e f (u32 (0xc24b8b70 + w10)) in
  let w11 := u32 (w11 + u32 (sigma1 w9 + w4 + sigma0 w12)) in
  let '(a, e) := Round f g h a b c d e (u32 (0xc76c51a3 + w11)) in
  let w12 := u32 (w12 + u32 (sigma1 w10 + w5 + sigma0 w13)) in
  let '(h, d) := Round e f g h a b c d (u32 (0xd192e819 + w12)) in
  let w13 := u32 (w13 + u32 (sigma1 w11 + w6 + sigma0 w14)) in
  let '(g, c) := Round d e f g h a b c (u32 (0xd6990624 + w13)) in
  let w14 := u32 (w14 + u32 (sigma1 w12 + w7 + sigma0 w15)) in
  let '(f, b) := Round c d e f g h a b (u32 (0xf40e3585 + w14)) in
  let w15 := u32 (w15 + u32 (sigma1 w13 + w8 + sigma0 w0)) in
  let '(e, a) := Round b c d e f g h a (u32 (0x106aa070 + w15)) in
  let w0 := u32 (w0 + u32 (sigma1 w14 + w9 + sigma0 w1)) in
  let '(d, h) := Round a b c d e f g h (u32 (0x19a4c116 + w0)) in
  let w1 := u32 (w1 + u32 (sigma1 w15 + w10 + sigma0 w2)) in
  let '(c, g) := Round h a b c d e f g (u32 (0x1e376c08 + w1)) in
  let w2 := u32 (w2 + u32 (sigma1 w0 + w11 + sigma0 w3)) in
  let '(b, f) := Round g h a b c d e f (u32 (0x2748774c + w2)) in
  let w3 := u32 (w3 + u32 (sigma1 w1 + w12 + sigma0 w4)) in
  let '(a, e) := Round f g h a b c d e (u32 (0x34b0bcb5 + w3)) in
  let w4 := u32 (w4 + u32 (sigma1 w2 + w13 + sigma0 w5)) in
  let '(h, d) := Round e f g h a b c d (u32 (0x391c0cb3 + w4)) in
  let w5 := u32 (w5 + u32 (sigma1 w3 + w14 + sigma0 w6)) in
  let '(g, c) := Round d e f g h a b c (u32 (0x4ed8aa4a + w5)) in
  let w6 := u32 (w6 + u32 (sigma1 w4 + w15 + sigma0 w7)) in
  let '(f, b) := Round c d e f g h a b (u32 (0x5b9cca4f + w6)) in
  let w7 := u32 (w7 + u32 (sigma1 w5 + w0 + sigma0 w8)) in
  let '(e, a) := Round b c d e f g h a (u32 (0x682e6ff3 + w7)) in
  let w8 := u32 (w8 + u32 (sigma1 w6 + w1 + sigma0 w9)) in
  let '(d, h) := Round a b c d e f g h (u32 (0x748f82ee + w8)) in
  let w9 := u32 (w9 + u32 (sigma1 w7 + w2 + sigma0 w10)) in
  let '(c, g) := Round h a b c d e f g (u32 (0x78a5636f + w9)) in
  let w10 := u32 (w10 + u32 (sigma1 w8 + w3 + sigma0 w11)) in
  let '(b, f) := Round g h a b c d e f (u32 (0x84c87814 + w10)) in
  let w11 := u32 (w11 + u32 (sigma1 w9 + w4 + sigma0 w12)) in
  let '(a, e) := Round f g h a b c d e (u32 (0x8cc70208 + w11)) in
  let w12 := u32 (w12 + u32 (sigma1 w10 + w5 + sigma0 w13)) in
  let '(h, d) := Round e f g h a b c d (u32 (0x90befffa + w12)) in
  let w13 := u32 (w13 + u32 (sigma1 w11 + w6 + sigma0 w14)) in
  let '(g, c) := Round d e f g h a b c (u32 (0xa4506ceb + w13)) in
  let '(f, b) := Round c d e f g h a b (u32 (0xbef9a3f7 + u32 (w14 + u32 (sigma1 w12 + w7 + sigma0 w15)))) in
  let '(e, a) := Round b c d e f g h a (u32 (0xc67178f2 + u32 (w15 + u32 (sigma1 w13 + w8 + sigma0 w0)))) in
  St a b c d e f g h.

Definition TransformD64 (input : bytes) : bytes :=
  let '(St a b c d e f g h) := rounds3 initial (transform2 (transform1 input)) in
  WriteBE32 Little (u32 (a + 0x6a09e667)) ++ WriteBE32 Little (u32 (b + 0xbb67ae85)) ++
  WriteBE32 Little (u32 (c + 0x3c6ef372)) ++ WriteBE32 Little (u32 (d + 0xa54ff53a)) ++
  WriteBE32 Little (u32 (e + 0x510e527f)) ++ WriteBE32 Little (u32 (f + 0x9b05688c)) ++
  WriteBE32 Little (u32 (g + 0x1f83d9ab)) ++ WriteBE32 Little (u32 (h + 0x5be0cd19)).

(** ** [TransformD64Wrapper] *)

Definition padding1 : bytes := [0x80] ++ replicate 61 0 ++ [2; 0].
Definition buffer2 : bytes := replicate 32 0 ++ [0x80] ++ replicate 29 0 ++ [1; 0].

Definition TransformD64Wrapper (tr : state -> bytes -> nat -> state) (input : bytes) : bytes :=
  let s := tr Initialize input 1%nat in
  let s := tr s padding1 1%nat in
  let buffer2 := write_at 0 (output s) buffer2 in
  output (tr Initialize buffer2 1%nat).

(** ** The chosen functions *)

(** The static function pointers. *)
Record Implementation := mkImpl {
  Transform_ : state -> bytes -> nat -> state;
  TransformD64_ : bytes -> bytes;
  TransformD64_2way : option (bytes -> bytes);
  TransformD64_4way : option (bytes -> bytes);
  TransformD64_8way : option (bytes -> bytes)
}.
Definition standard : Implementation := mkImpl Transform TransformD64 None None None.

(** [while (blocks >= n) { tr(out, in); out += 32 * n; in += 64 * n; blocks -= n; }]: what is written, and what is left. *)
Fixpoint ways (fuel n : nat) (tr : bytes -> bytes) (input : bytes) (blocks : nat) : bytes * bytes * nat :=
  match fuel with
  | O => ([], input, blocks)
  | S fuel =>
      if (n <=? blocks)%nat then
        let '(out, rest, blocks') := ways fuel n tr (drop (64 * n) input) (blocks - n) in (tr input ++ out, rest, blocks')
      else ([], input, blocks)
  end.
Definition ways_if (n : nat) (tr : option (bytes -> bytes)) (input : bytes) (blocks : nat) : bytes * bytes * nat :=
  match tr with
  | Some tr => ways blocks n tr input blocks
  | None => ([], input, blocks)
  end.

Definition SHA256D64 (impl : Implementation) (input : bytes) (blocks : nat) : bytes :=
  let '(out8, input, blocks) := ways_if 8 (TransformD64_8way impl) input blocks in
  let '(out4, input, blocks) := ways_if 4 (TransformD64_4way impl) input blocks in
  let '(out2, input, blocks) := ways_if 2 (TransformD64_2way impl) input blocks in
  let '(out1, _, _) := ways_if 1 (Some (TransformD64_ impl)) input blocks in
  out8 ++ out4 ++ out2 ++ out1.

(** ** [SelfTest] *)

(** The test data without the leading character, as [data + 1]: a string and the zeros that fill the array. *)
Definition data : bytes :=
  str "Lorem ipsum dolor sit amet, consectetur adipiscing elit, sed do "%string ++
  str "eiusmod tempor incididunt ut labore et dolore magna aliqua. Et m"%string ++
  str "olestie ac feugiat sed lectus vestibulum mattis ullamcorper. Mor"%string ++
  str "bi blandit cursus risus at ultrices mi tempus imperdiet nulla. N"%string ++
  str "unc congue nisi vita suscipit tellus mauris. Imperdiet proin fer"%string ++
  str "mentum leo vel orci. Massa tempor nec feugiat nisl pretium fusce"%string ++
  str " id velit. Telus in metus vulputate eu scelerisque felis. Mi tem"%string ++
  str "pus imperdiet nulla malesuada pellentesque. Tristique magna sit."%string ++ replicate 128 0.
Definition result : list state := [
  St 0x6a09e667 0xbb67ae85 0x3c6ef372 0xa54ff53a 0x510e527f 0x9b05688c 0x1f83d9ab 0x5be0cd19;
  St 0x91f8ec6b 0x4da10fe3 0x1c9c292c 0x45e18185 0x435cc111 0x3ca26f09 0xeb954cae 0x402a7069;
  St 0xcabea5ac 0x374fb97c 0x182ad996 0x7bd69cbf 0x450ff900 0xc1d2be8a 0x6a41d505 0xe6212dc3;
  St 0xbcff09d6 0x3e76f36e 0x3ecb2501 0x78866e97 0xe1c1e2fd 0x32f4eaff 0x8aa6c4e5 0xdfc024bc;
  St 0xa08c5d94 0x0a862f93 0x6b7f2f40 0x8f9fae76 0x6d40439f 0x79dcee0c 0x3e39ff3a 0xdc3bdbb1;
  St 0x216a0895 0x9f1a3662 0xe99946f9 0x87ba4364 0x0fb5db2c 0x12bed3d3 0x6689c0c7 0x292f1b04;
  St 0xca3067f8 0xbc8c2656 0x37cb7e0d 0x9b6b8b0f 0x46dc380b 0xf1287f57 0xc42e4b23 0x3fefe94d;
  St 0x3e4c4039 0xbb6fca8c 0x6f27d2f7 0x301e44a4 0x8352ba14 0x5769ce37 0x48a1155f 0xc0e1c4c6;
  St 0xfe2fa9dd 0x69d0862b 0x1ae0db23 0x471f9244 0xf55c0145 0xc30f9c3b 0x40a84ea0 0x5b8a266c].
Definition result_d64 : bytes := [
  0x09; 0x3a; 0xc4; 0xd0; 0x0f; 0xf7; 0x57; 0xe1; 0x72; 0x85; 0x79; 0x42; 0xfe; 0xe7; 0xe0; 0xa0;
  0xfc; 0x52; 0xd7; 0xdb; 0x07; 0x63; 0x45; 0xfb; 0x53; 0x14; 0x7d; 0x17; 0x22; 0x86; 0xf0; 0x52;
  0x48; 0xb6; 0x11; 0x9e; 0x6e; 0x48; 0x81; 0x6d; 0xcc; 0x57; 0x1f; 0xb2; 0x97; 0xa8; 0xd5; 0x25;
  0x9b; 0x82; 0xaa; 0x89; 0xe2; 0xfd; 0x2d; 0x56; 0xe8; 0x28; 0x83; 0x0b; 0xe2; 0xfa; 0x53; 0xb7;
  0xd6; 0x6b; 0x07; 0x85; 0x83; 0xb0; 0x10; 0xa2; 0xf5; 0x51; 0x3c; 0xf9; 0x60; 0x03; 0xab; 0x45;
  0x6c; 0x15; 0x6e; 0xef; 0xb5; 0xac; 0x3e; 0x6c; 0xdf; 0xb4; 0x92; 0x22; 0x2d; 0xce; 0xbf; 0x3e;
  0xe9; 0xe5; 0xf6; 0x29; 0x0e; 0x01; 0x4f; 0xd2; 0xd4; 0x45; 0x65; 0xb3; 0xbb; 0xf2; 0x4c; 0x16;
  0x37; 0x50; 0x3c; 0x6e; 0x49; 0x8c; 0x5a; 0x89; 0x2b; 0x1b; 0xab; 0xc4; 0x37; 0xd1; 0x46; 0xe9;
  0x3d; 0x0e; 0x85; 0xa2; 0x50; 0x73; 0xa1; 0x5e; 0x54; 0x37; 0xd7; 0x94; 0x17; 0x56; 0xc2; 0xd8;
  0xe5; 0x9f; 0xed; 0x4e; 0xae; 0x15; 0x42; 0x06; 0x0d; 0x74; 0x74; 0x5e; 0x24; 0x30; 0xce; 0xd1;
  0x9e; 0x50; 0xa3; 0x9a; 0xb8; 0xf0; 0x4a; 0x57; 0x69; 0x78; 0x67; 0x12; 0x84; 0x58; 0xbe; 0xc7;
  0x36; 0xaa; 0xee; 0x7c; 0x64; 0xa3; 0x76; 0xec; 0xff; 0x55; 0x41; 0x00; 0x2a; 0x44; 0x68; 0x4d;
  0xb6; 0x53; 0x9e; 0x1c; 0x95; 0xb7; 0xca; 0xdc; 0x7f; 0x7d; 0x74; 0x27; 0x5c; 0x8e; 0xa6; 0x84;
  0xb5; 0xac; 0x87; 0xa9; 0xf3; 0xff; 0x75; 0xf2; 0x34; 0xcd; 0x1a; 0x3b; 0x82; 0x2c; 0x2b; 0x4e;
  0x6a; 0x46; 0x30; 0xa6; 0x89; 0x86; 0x23; 0xac; 0xf8; 0xa5; 0x15; 0xe9; 0x0a; 0xaa; 0x1e; 0x9a;
  0xd7; 0x93; 0x6b; 0x28; 0xe4; 0x3b; 0xfd; 0x59; 0xc6; 0xed; 0x7c; 0x5f; 0xa5; 0x41; 0xcb; 0x51].

Definition test_way (n : nat) (tr : option (bytes -> bytes)) : bool :=
  match tr with
  | Some tr => bool_decide (tr data = take (32 * n) result_d64)
  | None => true
  end.

Definition SelfTest (impl : Implementation) : bool :=
  forallb (fun i => bool_decide (Some (Transform_ impl Initialize data i) = result !! i)) (seq 0 9) &&
  test_way 1 (Some (TransformD64_ impl)) && test_way 2 (TransformD64_2way impl) &&
  test_way 4 (TransformD64_4way impl) && test_way 8 (TransformD64_8way impl).

(** ** [SHA256AutoDetect] *)

Definition STANDARD : Z := 0.
Definition USE_SSE4 : Z := Z.shiftl 1 0.
Definition USE_AVX2 : Z := Z.shiftl 1 1.
Definition USE_SHANI : Z := Z.shiftl 1 2.
Definition USE_ALL : Z := Z.lor (Z.lor USE_SSE4 USE_AVX2) USE_SHANI.

(** The macros the build defines. *)
Record Build := mkBuild {
  DISABLE_OPTIMIZED_SHA256 : bool; HAVE_GETCPUID : bool; x86_64 : bool;
  ENABLE_X86_SHANI : bool; ENABLE_SSE41 : bool; ENABLE_AVX2 : bool; ENABLE_ARM_SHANI : bool
}.
(** What the processor answers: [GetCPUID] as (eax, ebx, ecx, edx), [xgetbv], and the system's query for the hash instructions of ARM. *)
Record Machine := mkMachine { GetCPUID : Z -> Z -> Z * Z * Z * Z; xgetbv : Z; has_arm_sha2 : bool }.
(** The functions that are only declared. *)
Record Lanes := mkLanes {
  x86_shani_Transform : state -> bytes -> nat -> state; x86_shani_2way : bytes -> bytes;
  sse4_Transform : state -> bytes -> nat -> state; sse41_4way : bytes -> bytes; avx2_8way : bytes -> bytes;
  arm_shani_Transform : state -> bytes -> nat -> state; arm_shani_2way : bytes -> bytes
}.

Definition bit (x n : Z) : bool := negb (Z.land (Z.shiftr x n) 1 =? 0).
Definition uses (use_implementation flag : Z) : bool := negb (Z.land use_implementation flag =? 0).
Definition AVXEnabled (M : Machine) : bool := Z.land (xgetbv M) 6 =? 6.

Section Detect.
Context (B : Build) (M : Machine) (X : Lanes) (use_implementation : Z).

Definition with_x86_shani (impl : Implementation) : Implementation :=
  mkImpl (x86_shani_Transform X) (TransformD64Wrapper (x86_shani_Transform X)) (Some (x86_shani_2way X)) (TransformD64_4way impl) (TransformD64_8way impl).
Definition with_sse4 (impl : Implementation) (ret : string) : Implementation * string :=
  let '(impl, ret) :=
    if x86_64 B then
      (mkImpl (sse4_Transform X) (TransformD64Wrapper (sse4_Transform X)) (TransformD64_2way impl) (TransformD64_4way impl) (TransformD64_8way impl), "sse4(1way)"%string)
    else (impl, ret) in
  if ENABLE_SSE41 B then
    (mkImpl (Transform_ impl) (TransformD64_ impl) (TransformD64_2way impl) (Some (sse41_4way X)) (TransformD64_8way impl), (ret ++ ",sse41(4way)")%string)
  else (impl, ret).

(** The part under [HAVE_GETCPUID]. *)
Definition detect_x86 (impl : Implementation) (ret : string) : Implementation * string :=
  let '(_, _, ecx, _) := GetCPUID M 1 0 in
  let have_sse4 := uses use_implementation USE_SSE4 && bit ecx 19 in
  let have_xsave := bit ecx 27 in
  let have_avx := bit ecx 28 in
  let enabled_avx := have_xsave && have_avx && AVXEnabled M in
  let '(have_avx2, have_x86_shani) :=
    if have_sse4 then
      let '(_, ebx, _, _) := GetCPUID M 7 0 in
      (uses use_implementation USE_AVX2 && bit ebx 5, uses use_implementation USE_SHANI && bit ebx 29)
    else (false, false) in
  let '(impl, ret, have_sse4, have_avx2) :=
    if ENABLE_X86_SHANI B && have_x86_shani then (with_x86_shani impl, "x86_shani(1way,2way)"%string, false, false)
    else (impl, ret, have_sse4, have_avx2) in
  let '(impl, ret) := if have_sse4 then with_sse4 impl ret else (impl, ret) in
  if ENABLE_AVX2 B && (have_avx2 && have_avx && enabled_avx) then
    (mkImpl (Transform_ impl) (TransformD64_ impl) (TransformD64_2way impl) (TransformD64_4way impl) (Some (avx2_8way X)), (ret ++ ",avx2(8way)")%string)
  else (impl, ret).

(** The part under [ENABLE_ARM_SHANI]. *)
Definition detect_arm (impl : Implementation) (ret : string) : Implementation * string :=
  if uses use_implementation USE_SHANI && has_arm_sha2 M then
    (mkImpl (arm_shani_Transform X) (TransformD64Wrapper (arm_shani_Transform X)) (Some (arm_shani_2way X)) (TransformD64_4way impl) (TransformD64_8way impl),
     "arm_shani(1way,2way)"%string)
  else (impl, ret).

(** [None]: the assertion fails. *)
Definition SHA256AutoDetect : option (Implementation * string) :=
  let '(impl, ret) :=
    if DISABLE_OPTIMIZED_SHA256 B then (standard, "standard"%string)
    else
      let '(impl, ret) := if HAVE_GETCPUID B then detect_x86 standard "standard"%string else (standard, "standard"%string) in
      if ENABLE_ARM_SHANI B then detect_arm impl ret else (impl, ret) in
  if SelfTest impl then Some (impl, ret) else None.
End Detect.
End D64.
