(* ===== verification/Sha256D64Props.v ===== *)
(** * Sha256D64Props: what the double hashes compute

    [TransformD64] equals two runs of the standard's SHA-256, and so does [SHA256D64] on every block, whichever
    functions [SHA256AutoDetect] chooses. *)
From Stdlib Require Import String.
From S2P Require Import Prelude Arith Bytes Sha256 Sha256D64.
Import Endian.

(** ** Rounds as a fold over their constants *)

Fixpoint run (s : Sha256.state) (ks : list Z) : Sha256.state :=
  match ks with
  | k :: ks =>
      let '(Sha256.St a b c d e f g h) := s in
      let '(d', h') := Sha256.Round a b c d e f g h k in
      run (Sha256.St h' a b c d' e f g) ks
  | [] => s
  end.
(** The constant of a round with its word, as a fixpoint so that it computes on both lists. *)
Fixpoint keyed (ks ws : list Z) : list Z :=
  match ks, ws with
  | k :: ks, w :: ws => u32 (k + w) :: keyed ks ws
  | _, _ => []
  end.

Lemma rounds_run init ks : forall s ws, Rolled.rounds init s ks ws = Fips.add_state init (run s (keyed ks ws)).
Proof.
  induction ks as [|k ks IH]; intros [a b c d e f g h] [|w ws]; try done. cbn [Rolled.rounds keyed run].
  destruct (Sha256.Round a b c d e f g h (u32 (k + w))). apply IH.
Qed.
(** The rounds of the block function without the final additions. *)
Definition run1 (init : Sha256.state) (input : bytes) : Sha256.state := run init (keyed Fips.K (Rolled.schedule 64 (Rolled.words input))).
Lemma block_run s chunk : Sha256.Transform_block s chunk = Fips.add_state s (run1 s chunk).
Proof. rewrite unrolled_rolled. apply rounds_run. Qed.

(** ** The three runs of [TransformD64] *)

(** Both sides as functions of the word operations, so that comparing them does not unfold the operations. *)
Definition rounds1_gen := ltac:(
  let t := eval cbv delta [D64.rounds1] in D64.rounds1 in
  let t' := eval pattern Sha256.Round, Sha256.sigma0, Sha256.sigma1, u32, Z.add, (ReadBE32 Little) in t in
  match t' with ?f _ _ _ _ _ _ => exact f end).
Definition run1_gen := ltac:(
  let t := eval cbv delta [run1 run keyed Rolled.words Rolled.schedule] in run1 in
  let t' := eval pattern Sha256.Round, Sha256.sigma0, Sha256.sigma1, u32, Z.add, (ReadBE32 Little) in t in
  match t' with ?f _ _ _ _ _ _ => exact f end).
Lemma rounds1_gen_eq R g0 g1 w32 plus rd init input : rounds1_gen R g0 g1 w32 plus rd init input = run1_gen R g0 g1 w32 plus rd init input.
Proof. destruct init. reflexivity. Qed.
Lemma rounds1_run init input : D64.rounds1 init input = run1 init input.
Proof. exact (rounds1_gen_eq Sha256.Round Sha256.sigma0 Sha256.sigma1 u32 Z.add (ReadBE32 Little) init input). Qed.

Lemma initial_eq : D64.initial = Sha256.Initialize.
Proof. reflexivity. Qed.
Lemma transform1_block input : D64.transform1 input = Sha256.Transform_block Sha256.Initialize input.
Proof.
  rewrite block_run, <- rounds1_run. unfold D64.transform1. rewrite initial_eq. destruct (D64.rounds1 _ input) as [a b c d e f g h].
  cbn [Fips.add_state Sha256.Initialize]. f_equal; f_equal; apply Z.add_comm.
Qed.

Definition keys2 : list Z := Eval vm_compute in keyed Fips.K (Rolled.schedule 64 (Rolled.words D64.padding1)).
Definition rounds2_gen := ltac:(
  let t := eval cbv delta [D64.rounds2] in D64.rounds2 in
  let t' := eval pattern Sha256.Round in t in match t' with ?f _ => exact f end).
Definition run2_gen := ltac:(
  let t := eval cbv delta [run] in (fun s => run s keys2) in
  let t' := eval pattern Sha256.Round in t in match t' with ?f _ => exact f end).
Lemma rounds2_gen_eq R s : rounds2_gen R s = run2_gen R s.
Proof. destruct s. reflexivity. Qed.

Lemma transform2_block s : D64.transform2 s = Sha256.Transform_block s D64.padding1.
Proof.
  rewrite block_run. unfold run1.
  replace (keyed Fips.K (Rolled.schedule 64 (Rolled.words D64.padding1))) with keys2 by (vm_compute; reflexivity).
  pose proof (rounds2_gen_eq Sha256.Round s : D64.rounds2 s = run s keys2) as <-.
  unfold D64.transform2, Fips.add_state. generalize (D64.rounds2 s). intros s'. by destruct s, s'.
Qed.

(** The second sixteen words of the schedule of "Transform 3", with the zeros of the padding left out as in the source. *)
Definition expand3 (w0 w1 w2 w3 w4 w5 w6 w7 : Z) : list Z :=
  let w0 := u32 (w0 + Sha256.sigma0 w1) in
  let w1 := u32 (w1 + (0xa00000 + Sha256.sigma0 w2)) in
  let w2 := u32 (w2 + u32 (Sha256.sigma1 w0 + Sha256.sigma0 w3)) in
  let w3 := u32 (w3 + u32 (Sha256.sigma1 w1 + Sha256.sigma0 w4)) in
  let w4 := u32 (w4 + u32 (Sha256.sigma1 w2 + Sha256.sigma0 w5)) in
  let w5 := u32 (w5 + u32 (Sha256.sigma1 w3 + Sha256.sigma0 w6)) in
  let w6 := u32 (w6 + (Sha256.sigma1 w4 + 0x100 + Sha256.sigma0 w7)) in
  let w7 := u32 (w7 + (Sha256.sigma1 w5 + w0 + 0x11002000)) in
  let w8 := u32 (0x80000000 + Sha256.sigma1 w6 + w1) in
  let w9 := u32 (Sha256.sigma1 w7 + w2) in
  let w10 := u32 (Sha256.sigma1 w8 + w3) in
  let w11 := u32 (Sha256.sigma1 w9 + w4) in
  let w12 := u32 (Sha256.sigma1 w10 + w5) in
  let w13 := u32 (Sha256.sigma1 w11 + w6) in
  let w14 := u32 (Sha256.sigma1 w12 + w7 + 0x400022) in
  let w15 := u32 (0x100 + Sha256.sigma1 w13 + w8 + Sha256.sigma0 w0) in
  [w0; w1; w2; w3; w4; w5; w6; w7; w8; w9; w10; w11; w12; w13; w14; w15].
(** The first sixteen words: the hash and its padding. *)
Definition window3 (w0 w1 w2 w3 w4 w5 w6 w7 : Z) : list Z := [w0; w1; w2; w3; w4; w5; w6; w7; 0x80000000; 0; 0; 0; 0; 0; 0; 0x100].

(** The next sixteen words of any window. *)
Definition expand (v0 v1 v2 v3 v4 v5 v6 v7 v8 v9 v10 v11 v12 v13 v14 v15 : Z) : list Z :=
  let w0 := u32 (v0 + u32 (Sha256.sigma1 v14 + v9 + Sha256.sigma0 v1)) in
  let w1 := u32 (v1 + u32 (Sha256.sigma1 v15 + v10 + Sha256.sigma0 v2)) in
  let w2 := u32 (v2 + u32 (Sha256.sigma1 w0 + v11 + Sha256.sigma0 v3)) in
  let w3 := u32 (v3 + u32 (Sha256.sigma1 w1 + v12 + Sha256.sigma0 v4)) in
  let w4 := u32 (v4 + u32 (Sha256.sigma1 w2 + v13 + Sha256.sigma0 v5)) in
  let w5 := u32 (v5 + u32 (Sha256.sigma1 w3 + v14 + Sha256.sigma0 v6)) in
  let w6 := u32 (v6 + u32 (Sha256.sigma1 w4 + v15 + Sha256.sigma0 v7)) in
  let w7 := u32 (v7 + u32 (Sha256.sigma1 w5 + w0 + Sha256.sigma0 v8)) in
  let w8 := u32 (v8 + u32 (Sha256.sigma1 w6 + w1 + Sha256.sigma0 v9)) in
  let w9 := u32 (v9 + u32 (Sha256.sigma1 w7 + w2 + Sha256.sigma0 v10)) in
  let w10 := u32 (v10 + u32 (Sha256.sigma1 w8 + w3 + Sha256.sigma0 v11)) in
  let w11 := u32 (v11 + u32 (Sha256.sigma1 w9 + w4 + Sha256.sigma0 v12)) in
  let w12 := u32 (v12 + u32 (Sha256.sigma1 w10 + w5 + Sha256.sigma0 v13)) in
  let w13 := u32 (v13 + u32 (Sha256.sigma1 w11 + w6 + Sha256.sigma0 v14)) in
  let w14 := u32 (v14 + u32 (Sha256.sigma1 w12 + w7 + Sha256.sigma0 v15)) in
  let w15 := u32 (v15 + u32 (Sha256.sigma1 w13 + w8 + Sha256.sigma0 w0)) in
  [w0; w1; w2; w3; w4; w5; w6; w7; w8; w9; w10; w11; w12; w13; w14; w15].

Lemma schedule_expand n v0 v1 v2 v3 v4 v5 v6 v7 v8 v9 v10 v11 v12 v13 v14 v15 :
  Rolled.schedule (16 + n) [v0; v1; v2; v3; v4; v5; v6; v7; v8; v9; v10; v11; v12; v13; v14; v15] =
  [v0; v1; v2; v3; v4; v5; v6; v7; v8; v9; v10; v11; v12; v13; v14; v15] ++
  Rolled.schedule n (expand v0 v1 v2 v3 v4 v5 v6 v7 v8 v9 v10 v11 v12 v13 v14 v15).
Proof. reflexivity. Qed.

Lemma let_cong {A B} (x y : A) (f h : A -> B) : x = y -> (forall z, f z = h z) -> (let z := x in f z) = (let z := y in h z).
Proof. intros -> H. exact (H y). Qed.

Lemma expand_padded w0 w1 w2 w3 w4 w5 w6 w7 :
  expand3 w0 w1 w2 w3 w4 w5 w6 w7 = expand w0 w1 w2 w3 w4 w5 w6 w7 0x80000000 0 0 0 0 0 0 0x100.
Proof.
  assert (E0 : Sha256.sigma0 0 = 0) by reflexivity. assert (E1 : Sha256.sigma1 0 = 0) by reflexivity.
  assert (E2 : Sha256.sigma1 0x100 = 0xa00000) by reflexivity. assert (E3 : Sha256.sigma0 0x100 = 0x400022) by reflexivity.
  assert (E4 : Sha256.sigma0 0x80000000 = 0x11002000) by reflexivity.
  cbv beta delta [expand3 expand]. rewrite E0, E1, E2, E3, E4.
  repeat (match goal with |- (let z := ?x in @?f z) = (let z' := ?y in @?h z') => refine (let_cong x y f h _ _) end; [unfold u32; rewrite ?Z.add_mod_idemp_r by lia; f_equal; lia|intros ?; cbv beta]). reflexivity.
Qed.

(** The constants of the first sixteen rounds. *)
Definition keys3 (w0 w1 w2 w3 w4 w5 w6 w7 : Z) : list Z :=
  [u32 (0x428a2f98 + w0); u32 (0x71374491 + w1); u32 (0xb5c0fbcf + w2); u32 (0xe9b5dba5 + w3); u32 (0x3956c25b + w4); u32 (0x59f111f1 + w5);
   u32 (0x923f82a4 + w6); u32 (0xab1c5ed5 + w7); 0x5807aa98; 0x12835b01; 0x243185be; 0x550c7dc3; 0x72be5d74; 0x80deb1fe; 0x9bdc06a7; 0xc19bf274].
Definition run3 (init s : Sha256.state) : Sha256.state :=
  let '(Sha256.St w0 w1 w2 w3 w4 w5 w6 w7) := s in
  run init (keys3 w0 w1 w2 w3 w4 w5 w6 w7 ++ keyed (drop 16 Fips.K) (Rolled.schedule 48 (expand3 w0 w1 w2 w3 w4 w5 w6 w7))).

Definition rounds3_gen := ltac:(
  let t := eval cbv delta [D64.rounds3] in D64.rounds3 in
  let t' := eval pattern Sha256.Round, Sha256.sigma0, Sha256.sigma1, u32, Z.add in t in
  match t' with ?f _ _ _ _ _ => exact f end).
Definition run3_gen := ltac:(
  let t := eval cbv delta [run3 run keyed keys3 expand3 Rolled.schedule] in run3 in
  let t' := eval pattern Sha256.Round, Sha256.sigma0, Sha256.sigma1, u32, Z.add in t in
  match t' with ?f _ _ _ _ _ => exact f end).
Lemma rounds3_gen_eq R g0 g1 w32 plus init s : rounds3_gen R g0 g1 w32 plus init s = run3_gen R g0 g1 w32 plus init s.
Proof. destruct init, s. reflexivity. Qed.
Lemma rounds3_run init s : D64.rounds3 init s = run3 init s.
Proof. exact (rounds3_gen_eq Sha256.Round Sha256.sigma0 Sha256.sigma1 u32 Z.add init s). Qed.

(** ** Words and bytes *)

Definition be_bytes (ws : list Z) : bytes := concat ((fun w => rev (le_split 4 w)) <$> ws).

Lemma be_bytes_ok ws : Forall byte_ok (be_bytes ws).
Proof. induction ws as [|w ws IH]; [constructor|]. apply Forall_app. split; [apply Forall_rev, le_split_ok|done]. Qed.
Lemma length_be_bytes ws : length (be_bytes ws) = (4 * length ws)%nat.
Proof. induction ws as [|w ws IH]; [done|]. change (be_bytes (w :: ws)) with (rev (le_split 4 w) ++ be_bytes ws).
  rewrite length_app, length_rev, length_le_split, IH. cbn [length]. lia. Qed.

Lemma read_be_bytes ws i w : Forall word_ok ws -> ws !! i = Some w -> ReadBE32 Little (drop (4 * i) (be_bytes ws)) = w.
Proof.
  revert i. induction ws as [|v ws IH]; intros i Hws Hi; [done|]. apply Forall_cons in Hws as [Hv Hws]. change (be_bytes (v :: ws)) with (rev (le_split 4 v) ++ be_bytes ws).
  assert (Hlen : length (rev (le_split 4 v)) = 4%nat) by by rewrite length_rev, length_le_split.
  destruct i as [|i].
  - cbn in Hi. injection Hi as ->. rewrite Nat.mul_0_r, drop_0, ReadBE32_eq.
    + rewrite take_app_length' by done. rewrite rev_involutive, le_combine_split. by apply Z.mod_small.
    + rewrite length_app, Hlen. lia.
    + apply Forall_app. split; [apply Forall_rev, le_split_ok|apply be_bytes_ok].
  - replace (4 * S i)%nat with (length (rev (le_split 4 v)) + 4 * i)%nat by (rewrite Hlen; lia).
    rewrite drop_app_add. by apply IH.
Qed.

Lemma words_be_bytes ws : length ws = 16%nat -> Forall word_ok ws -> Rolled.words (be_bytes ws) = ws.
Proof.
  intros Hl Hw. apply list_eq. intros i. unfold Rolled.words. rewrite list_lookup_fmap.
  destruct (decide (i < 16)%nat) as [Hi|Hi].
  - rewrite lookup_seq_lt by lia. cbn [fmap option_fmap option_map]. destruct (lookup_lt_is_Some_2 ws i) as [w Hiw]; [lia|].
    rewrite Hiw. f_equal. by apply read_be_bytes.
  - rewrite lookup_seq_ge by lia. symmetry. apply lookup_ge_None. lia.
Qed.

(** ** Equality with two runs of SHA-256 *)

Definition words_of (s : Sha256.state) : list Z := let '(Sha256.St a b c d e f g h) := s in [a; b; c; d; e; f; g; h].
Lemma output_words s : state_ok s -> Sha256.output s = be_bytes (words_of s).
Proof. intros Hs. rewrite output_digest by done. by destruct s. Qed.
Lemma words_of_ok s : state_ok s -> Forall word_ok (words_of s).
Proof. destruct s. intros (? & ? & ? & ? & ? & ? & ? & ?). repeat (constructor; [done|]). constructor. Qed.

Lemma buffer2_words a b c d e f g h : state_ok (Sha256.St a b c d e f g h) ->
  write_at 0 (Sha256.output (Sha256.St a b c d e f g h)) D64.buffer2 = be_bytes (window3 a b c d e f g h).
Proof.
  intros Hs. rewrite output_words by done. unfold write_at. rewrite length_be_bytes.
  change (drop _ D64.buffer2) with (be_bytes [0x80000000; 0; 0; 0; 0; 0; 0; 0x100]). unfold be_bytes.
  rewrite app_nil_l, <- concat_app, <- fmap_app. done.
Qed.

(** "Transform 3" up to the final additions. *)
Lemma rounds3_block s : state_ok s -> D64.rounds3 D64.initial s = run1 Sha256.Initialize (write_at 0 (Sha256.output s) D64.buffer2).
Proof.
  destruct s as [w0 w1 w2 w3 w4 w5 w6 w7]. intros Hs. rewrite rounds3_run, initial_eq, buffer2_words by done. unfold run1, run3.
  rewrite words_be_bytes; [|done|]. 
  2:{ apply (Forall_app _ (words_of (Sha256.St w0 w1 w2 w3 w4 w5 w6 w7)) [0x80000000; 0; 0; 0; 0; 0; 0; 0x100]).
      split; [by apply words_of_ok|]. repeat constructor; unfold word_ok; lia. }
  change 64%nat with (16 + 48)%nat. unfold window3. rewrite schedule_expand, <- expand_padded. reflexivity.
Qed.

Definition double_sha (m : bytes) : bytes := Fips.sha256 (Fips.sha256 m).

#[local] Transparent Sha256.Transform.
Lemma transform_one s m : Sha256.Transform s m 1 = Sha256.Transform_block s m.
Proof. reflexivity. Qed.
Lemma transform_two s m : Sha256.Transform s m 2 = Sha256.Transform_block (Sha256.Transform_block s m) (drop 64 m).
Proof. reflexivity. Qed.
#[local] Opaque Sha256.Transform.

Lemma initial_state_ok : state_ok Sha256.Initialize.
Proof. repeat split; by vm_compute. Qed.

(** The hash of a message whose padded form is known. *)
Lemma sha256_transform m p n : Fips.padded m = p -> length p = (64 * n)%nat -> Forall byte_ok p ->
  Fips.sha256 m = Sha256.output (Sha256.Transform Sha256.Initialize p n) /\ state_ok (Sha256.Transform Sha256.Initialize p n).
Proof.
  intros Hp Hl Hb. unfold Fips.sha256. rewrite Hp, Hl, h0_initialize, Nat.mul_comm, Nat.div_mul by done.
  destruct (transform_fips Sha256.Initialize p n initial_state_ok Hb) as [E Ho]; [lia|]. rewrite <- E. split; [symmetry; by apply output_digest|done].
Qed.

Lemma padding1_ok : Forall byte_ok D64.padding1.
Proof. apply (bool_decide_unpack (Forall byte_ok _)). by vm_compute. Qed.

Lemma sha256_64 m : length m = 64%nat -> Forall byte_ok m ->
  let s := Sha256.Transform_block (Sha256.Transform_block Sha256.Initialize m) D64.padding1 in
  Fips.sha256 m = Sha256.output s /\ state_ok s.
Proof.
  intros Hl Hb. assert (Hp : Fips.padded m = m ++ D64.padding1) by (unfold Fips.padded; by rewrite Hl).
  pose proof (sha256_transform m _ 2 Hp) as H. rewrite transform_two in H. rewrite drop_app_length' in H by done.
  rewrite <- (transform_block_take _ (m ++ _)), take_app_length' in H by done. apply H.
  - by rewrite length_app, Hl.
  - apply Forall_app. split; [done|apply padding1_ok].
Qed.

Lemma sha256_32 s : state_ok s ->
  let s' := Sha256.Transform_block Sha256.Initialize (write_at 0 (Sha256.output s) D64.buffer2) in
  Fips.sha256 (Sha256.output s) = Sha256.output s' /\ state_ok s'.
Proof.
  intros Hs. destruct s as [a b c d e f g h]. rewrite buffer2_words by done. rewrite <- transform_one. apply sha256_transform; [|done|apply be_bytes_ok].
  unfold Fips.padded. rewrite output_words by done. rewrite length_be_bytes. cbn [words_of length].
  change (be_bytes (window3 a b c d e f g h)) with (be_bytes ([a; b; c; d; e; f; g; h] ++ [0x80000000; 0; 0; 0; 0; 0; 0; 0x100])).
  unfold be_bytes. rewrite fmap_app, concat_app. done.
Qed.

#[local] Opaque run1.
Lemma TransformD64_double m : length m = 64%nat -> Forall byte_ok m -> D64.TransformD64 m = double_sha m.
Proof.
  intros Hl Hb. destruct (sha256_64 m Hl Hb) as [E Hs]. unfold double_sha. rewrite E. clear E.
  unfold D64.TransformD64. rewrite transform1_block, transform2_block.
  revert Hs. cbv zeta. generalize (Sha256.Transform_block (Sha256.Transform_block Sha256.Initialize m) D64.padding1).
  intros s Hs. destruct (sha256_32 s Hs) as [-> _]. rewrite rounds3_block by done. cbv zeta.
  rewrite (block_run Sha256.Initialize (write_at 0 (Sha256.output s) D64.buffer2)). generalize (run1 Sha256.Initialize (write_at 0 (Sha256.output s) D64.buffer2)).
  intros [a b c d e f g h]. cbn [Fips.add_state Sha256.Initialize Sha256.output]. by rewrite !(Z.add_comm _ (Zpos _)).
Qed.

(** ** Many blocks *)

(** The double hashes of the first [n] blocks. *)
Fixpoint doubles (n : nat) (m : bytes) : bytes :=
  match n with
  | O => []
  | S n => double_sha (take 64 m) ++ doubles n (drop 64 m)
  end.

Lemma doubles_add n k m : doubles (n + k) m = doubles n m ++ doubles k (drop (64 * n) m).
Proof.
  revert m. induction n as [|n IH]; intros m; [done|]. cbn [Nat.add doubles]. rewrite IH, drop_drop, <- app_assoc.
  by replace (64 + 64 * n)%nat with (64 * S n)%nat by lia.
Qed.

(** What the functions promise: the block function is that of the standard, and an [n]-way function writes the double hashes
    of [n] blocks. *)
Definition transform_like (tr : Sha256.state -> bytes -> nat -> Sha256.state) : Prop :=
  forall s m n, state_ok s -> Forall byte_ok m -> (64 * n <= length m)%nat -> tr s m n = Fips.blocks s m n.
Definition lanes (n : nat) (f : bytes -> bytes) : Prop :=
  forall m, Forall byte_ok m -> (64 * n <= length m)%nat -> f m = doubles n m.

Class LawfulLanes (X : D64.Lanes) : Prop := {
  x86_shani_ok : transform_like (D64.x86_shani_Transform X);
  x86_shani_2way_ok : lanes 2 (D64.x86_shani_2way X);
  sse4_ok : transform_like (D64.sse4_Transform X);
  sse41_4way_ok : lanes 4 (D64.sse41_4way X);
  avx2_8way_ok : lanes 8 (D64.avx2_8way X);
  arm_shani_ok : transform_like (D64.arm_shani_Transform X);
  arm_shani_2way_ok : lanes 2 (D64.arm_shani_2way X)
}.

Record impl_ok (impl : D64.Implementation) : Prop := {
  io_transform : transform_like (D64.Transform_ impl);
  io_one : lanes 1 (D64.TransformD64_ impl);
  io_two f : D64.TransformD64_2way impl = Some f -> lanes 2 f;
  io_four f : D64.TransformD64_4way impl = Some f -> lanes 4 f;
  io_eight f : D64.TransformD64_8way impl = Some f -> lanes 8 f
}.

Lemma transform_standard : transform_like Sha256.Transform.
Proof. intros s m n Hs Hm Hl. by apply transform_fips. Qed.

Lemma TransformD64_one : lanes 1 D64.TransformD64.
Proof.
  intros m Hm Hl. cbn [doubles]. rewrite app_nil_r, <- TransformD64_double by (rewrite ?length_take; try lia; by apply Forall_take).
  unfold D64.TransformD64. by rewrite !transform1_block, transform_block_take.
Qed.

Lemma wrapper_one tr : transform_like tr -> lanes 1 (D64.TransformD64Wrapper tr).
Proof.
  intros Htr m Hm Hl. assert (Hone : forall s m, state_ok s -> Forall byte_ok m -> (64 <= length m)%nat ->
    tr s m 1%nat = Sha256.Transform_block s m /\ state_ok (Sha256.Transform_block s m)).
  { intros s m' Hs Hm' Hl'. rewrite <- transform_one. destruct (transform_fips s m' 1 Hs Hm') as [E Ho]; [lia|]. rewrite Htr by (done || lia). by rewrite <- E. }
  unfold D64.TransformD64Wrapper. destruct (Hone Sha256.Initialize m initial_state_ok Hm) as [-> H1]; [lia|].
  destruct (Hone _ D64.padding1 H1 padding1_ok) as [-> H2]; [by vm_compute; lia|].
  cbn [doubles]. rewrite app_nil_r. destruct (sha256_64 (take 64 m)) as [E Hs]; [rewrite length_take; lia|by apply Forall_take|].
  unfold double_sha. rewrite E. clear E. rewrite transform_block_take in Hs |- *. destruct (sha256_32 _ Hs) as [-> _].
  f_equal. revert Hs. cbv zeta. generalize (Sha256.Transform_block (Sha256.Transform_block Sha256.Initialize m) D64.padding1). intros [a b c d e f g h] Hs.
  rewrite buffer2_words by done. apply Hone; [apply initial_state_ok|apply be_bytes_ok|by rewrite length_be_bytes].
Qed.

Lemma ways_doubles n f : (0 < n)%nat -> lanes n f -> forall fuel m blocks, (blocks <= fuel)%nat -> Forall byte_ok m -> (64 * blocks <= length m)%nat ->
  let '(out, rest, left_) := D64.ways fuel n f m blocks in
  out ++ doubles left_ rest = doubles blocks m /\ (left_ < n)%nat /\ Forall byte_ok rest /\ (64 * left_ <= length rest)%nat.
Proof.
  intros Hn Hf. induction fuel as [|fuel IH]; intros m blocks Hfuel Hm Hl; cbn [D64.ways].
  { split_and!; try done. lia. }
  destruct (Nat.leb_spec n blocks) as [Hle|Hlt]; [|by split_and!].
  specialize (IH (drop (64 * n) m) (blocks - n)%nat ltac:(lia)).
  destruct (D64.ways fuel n f _ _) as [[out rest] left_]. destruct IH as (E & ? & ? & ?); [by apply Forall_drop|rewrite length_drop; lia|].
  split_and!; [|done..]. rewrite <- app_assoc, E, Hf by (done || lia). rewrite <- doubles_add. f_equal. lia.
Qed.

Lemma ways_if_doubles n o m blocks : (0 < n)%nat -> (forall f, o = Some f -> lanes n f) -> Forall byte_ok m -> (64 * blocks <= length m)%nat ->
  let '(out, rest, left_) := D64.ways_if n o m blocks in
  out ++ doubles left_ rest = doubles blocks m /\ Forall byte_ok rest /\ (64 * left_ <= length rest)%nat.
Proof.
  intros Hn Hf Hm Hl. destruct o as [f|]; cbn [D64.ways_if]; [|done].
  pose proof (ways_doubles n f Hn (Hf f eq_refl) blocks m blocks (le_n _) Hm Hl) as H.
  destruct (D64.ways blocks n f m blocks) as [[out rest] left_]. naive_solver.
Qed.

Lemma sha256d64_doubles impl m blocks : impl_ok impl -> Forall byte_ok m -> (64 * blocks <= length m)%nat ->
  D64.SHA256D64 impl m blocks = doubles blocks m.
Proof.
  intros Hi Hm Hl. unfold D64.SHA256D64.
  pose proof (ways_if_doubles 8 (D64.TransformD64_8way impl) m blocks ltac:(lia) (io_eight _ Hi) Hm Hl) as H.
  destruct (D64.ways_if 8 _ m blocks) as [[o8 m8] b8]. destruct H as (<- & Hm8 & Hl8).
  pose proof (ways_if_doubles 4 (D64.TransformD64_4way impl) m8 b8 ltac:(lia) (io_four _ Hi) Hm8 Hl8) as H.
  destruct (D64.ways_if 4 _ m8 b8) as [[o4 m4] b4]. destruct H as (<- & Hm4 & Hl4).
  pose proof (ways_if_doubles 2 (D64.TransformD64_2way impl) m4 b4 ltac:(lia) (io_two _ Hi) Hm4 Hl4) as H.
  destruct (D64.ways_if 2 _ m4 b4) as [[o2 m2] b2]. destruct H as (<- & Hm2 & Hl2).
  pose proof (ways_doubles 1 (D64.TransformD64_ impl) ltac:(lia) (io_one _ Hi) b2 m2 b2 (le_n _) Hm2 Hl2) as H. cbn [D64.ways_if].
  destruct (D64.ways b2 1 _ m2 b2) as [[o1 m1] b1]. destruct H as (<- & Hb1 & _). destruct b1; [|lia]. by rewrite app_nil_r.
Qed.

(** ** The choice *)

Lemma data_ok : Forall byte_ok D64.data.
Proof. apply (bool_decide_unpack (Forall byte_ok _)). by vm_compute. Qed.
(** Each line of the table follows from the one before. *)
Lemma result_steps i : (i < 8)%nat ->
  (fun r => Fips.blocks r (drop (64 * i) D64.data) 1) <$> D64.result !! i = D64.result !! S i.
Proof. intros Hi. do 8 (destruct i as [|i]; [vm_compute; reflexivity|]). lia. Qed.
Lemma transform_data i : (i < 9)%nat -> Some (Fips.blocks Sha256.Initialize D64.data i) = D64.result !! i.
Proof.
  induction i as [|i IH]; intros Hi; [done|]. rewrite <- result_steps, <- IH by lia. cbn [fmap option_fmap option_map]. f_equal.
  rewrite <- (Nat.add_1_r i). apply (for_blocks_split (fun s m => Fips.compress s (take 64 m))).
Qed.
Lemma doubles_eight : doubles 8 D64.data = D64.result_d64.
Proof. vm_compute. reflexivity. Qed.
Lemma length_doubles n m : length (doubles n m) = (32 * n)%nat.
Proof.
  revert m. induction n as [|n IH]; intros m; [done|]. cbn [doubles]. rewrite length_app, IH. unfold double_sha.
  rewrite (proj1 (sha256_blob _)). lia.
Qed.
Lemma doubles_data n : (n <= 8)%nat -> doubles n D64.data = take (32 * n) D64.result_d64.
Proof.
  intros Hn. pose proof (doubles_add n (8 - n) D64.data) as E. replace (n + (8 - n))%nat with 8%nat in E by lia.
  rewrite <- doubles_eight, E. by rewrite take_app_length' by (symmetry; apply length_doubles).
Qed.

Lemma way_passes n o : (n <= 8)%nat -> (forall f, o = Some f -> lanes n f) -> D64.test_way n o = true.
Proof.
  intros Hn Hf. destruct o as [f|]; [|done]. apply bool_decide_eq_true. rewrite <- doubles_data by done. apply (Hf f eq_refl); [apply data_ok|].
  change (length D64.data) with 640%nat. lia.
Qed.

Lemma self_test_passes impl : impl_ok impl -> D64.SelfTest impl = true.
Proof.
  intros [Ht H1 H2 H4 H8]. unfold D64.SelfTest. rewrite !andb_true_iff. split_and!; try (apply way_passes; [lia|]); auto.
  - apply forallb_forall. intros i Hi%in_seq. apply bool_decide_eq_true. rewrite Ht; [apply transform_data; lia|apply initial_state_ok|apply data_ok|].
    change (length D64.data) with 640%nat. lia.
  - by intros ? [= <-].
Qed.

Section Choice.
Context (B : D64.Build) (M : D64.Machine) (X : D64.Lanes) `{!LawfulLanes X} (use_implementation : Z).

Lemma standard_ok : impl_ok D64.standard.
Proof. split; try done; [apply transform_standard|apply TransformD64_one]. Qed.

Lemma with_sse4_ok impl ret : impl_ok impl -> impl_ok (D64.with_sse4 B X impl ret).1.
Proof.
  intros Hi. unfold D64.with_sse4. destruct (D64.x86_64 B), (D64.ENABLE_SSE41 B); cbn [fst]; try done;
    destruct Hi; split; try done; cbn; try (by intros ? [= <-]; apply sse41_4way_ok); try apply wrapper_one; apply sse4_ok.
Qed.

Lemma detect_x86_ok impl ret : impl_ok impl -> impl_ok (D64.detect_x86 B M X use_implementation impl ret).1.
Proof.
  intros Hi. unfold D64.detect_x86. destruct (D64.GetCPUID M 1 0) as [[[_ _] ecx] _]. cbv zeta.
  match goal with |- context [let '(_, _) := ?x in _] => destruct x as [have_avx2 have_x86_shani] end.
  match goal with |- context [let '(_, _) := ?x in _] => assert (Hx : impl_ok x.1.1.1) end.
  { destruct (_ && _); [|done]. destruct Hi; split; try done; cbn; try (by intros ? [= <-]; apply x86_shani_2way_ok); try apply wrapper_one; apply x86_shani_ok. }
  match goal with |- context [let '(_, _) := ?x in _] => destruct x as [[[impl' ret'] have_sse4] have_avx2'] end. cbn [fst] in Hx.
  match goal with |- context [let '(_, _) := ?x in _] => assert (Hy : impl_ok x.1) by (destruct have_sse4; [by apply with_sse4_ok|done]) end.
  match goal with |- context [let '(_, _) := ?x in _] => destruct x as [impl'' ret''] end. cbn [fst] in Hy.
  destruct (_ && _); [|done]. destruct Hy; split; try done. cbn. intros ? [= <-]. apply avx2_8way_ok.
Qed.

Lemma detect_arm_ok impl ret : impl_ok impl -> impl_ok (D64.detect_arm M X use_implementation impl ret).1.
Proof.
  intros Hi. unfold D64.detect_arm. destruct (_ && _); [|done].
  destruct Hi; split; try done; cbn; try (by intros ? [= <-]; apply arm_shani_2way_ok); try apply wrapper_one; apply arm_shani_ok.
Qed.

Lemma auto_detect_ok : exists impl ret, D64.SHA256AutoDetect B M X use_implementation = Some (impl, ret) /\ impl_ok impl.
Proof.
  unfold D64.SHA256AutoDetect. match goal with |- context [let '(_, _) := ?x in _] => assert (Hx : impl_ok x.1) end.
  { pose proof standard_ok as Hs. destruct (D64.DISABLE_OPTIMIZED_SHA256 B); [done|].
    match goal with |- context [let '(_, _) := ?x in _] => assert (Hy : impl_ok x.1) by (destruct (D64.HAVE_GETCPUID B); [by apply detect_x86_ok|done]) end.
    match goal with |- context [let '(_, _) := ?x in _] => destruct x as [impl ret] end. destruct (D64.ENABLE_ARM_SHANI B); [by apply detect_arm_ok|done]. }
  match goal with |- context [let '(_, _) := ?x in _] => destruct x as [impl ret] end. exists impl, ret. by rewrite self_test_passes.
Qed.

(** C36: whatever functions [SHA256AutoDetect] chooses for the build, the processor and the caller's wishes, its self test passes, the chosen block
    function is the compression of FIPS 180-4, and [SHA256D64] writes the SHA-256 of the SHA-256 of each 64-byte
    block, as long as the functions for special instructions, which are not part of the repository, do what they are
    declared for.  In particular the portable [TransformD64], with its precomputed constants, is the double hash. *)
Theorem sha256d64_exact (blobs : list bytes) : Forall (fun m => length m = 64%nat /\ Forall byte_ok m) blobs ->
  exists impl ret, D64.SHA256AutoDetect B M X use_implementation = Some (impl, ret) /\
    (forall s m n, state_ok s -> Forall byte_ok m -> (64 * n <= length m)%nat -> D64.Transform_ impl s m n = Fips.blocks s m n) /\
    D64.SHA256D64 impl (concat blobs) (length blobs) = concat ((fun m => Fips.sha256 (Fips.sha256 m)) <$> blobs).
Proof.
  intros Hb. destruct auto_detect_ok as (impl & ret & E & Hi). exists impl, ret. split; [done|]. split; [apply Hi|].
  change (fun m => Fips.sha256 (Fips.sha256 m)) with double_sha.
  assert (Forall byte_ok (concat blobs) /\ length (concat blobs) = (64 * length blobs)%nat /\
    doubles (length blobs) (concat blobs) = concat (double_sha <$> blobs)) as (Hok & Hl & <-).
  2:{ apply sha256d64_doubles; [done|done|lia]. }
  induction Hb as [|m blobs [Hm Hmb] _ (IH1 & IH2 & IH3)]; [done|]. cbn [concat length doubles fmap list_fmap]. split_and!.
  - by apply Forall_app.
  - rewrite length_app. lia.
  - rewrite take_app_length', drop_app_length' by done. by f_equal.
Qed.
End Choice.

(** Functions as declared, here made of the portable ones, on a processor that has everything. *)
Definition lanes_of (n : nat) (m : bytes) : bytes := (D64.ways n 1 D64.TransformD64 m n).1.1.
Lemma lanes_of_ok n : lanes n (lanes_of n).
Proof.
  intros m Hm Hl. unfold lanes_of. pose proof (ways_doubles 1 D64.TransformD64 ltac:(lia) TransformD64_one n m n (le_n _) Hm Hl) as H.
  destruct (D64.ways n 1 _ m n) as [[out rest] left_]. destruct H as (<- & Hl1 & _). destruct left_; [|lia]. cbn [fst doubles]. by rewrite app_nil_r.
Qed.
Definition portable_lanes : D64.Lanes :=
  D64.mkLanes Sha256.Transform (lanes_of 2) Sha256.Transform (lanes_of 4) (lanes_of 8) Sha256.Transform (lanes_of 2).
#[global] Instance portable_lanes_ok : LawfulLanes portable_lanes.
Proof. split; (apply transform_standard || apply lanes_of_ok). Qed.

Definition avx2_build : D64.Build := D64.mkBuild false true true false true true false.
Definition full_machine : D64.Machine := D64.mkMachine (fun _ _ => (-1, -1, -1, -1)) 7 false.

(** Fifteen blobs of zeros on a processor with AVX2: one group of eight, one of four, and three single hashes. *)
Lemma sha256d64_exact_witness :
  exists impl ret, D64.SHA256AutoDetect avx2_build full_machine portable_lanes D64.USE_ALL = Some (impl, ret) /\
    D64.SHA256D64 impl (concat (replicate 15 (replicate 64 0))) 15 = concat (replicate 15 (Fips.sha256 (Fips.sha256 (replicate 64 0)))).
Proof.
  destruct (sha256d64_exact avx2_build full_machine portable_lanes D64.USE_ALL (replicate 15 (replicate 64 0))) as (impl & ret & E & _ & H).
  - apply Forall_replicate. split; [done|]. by apply Forall_replicate.
  - exists impl, ret. split; [exact E|]. rewrite fmap_replicate in H. exact H.
Defined.
