(* ===== verification/Block.v ===== *)
(** * Block: the block header of [chain/block.hpp/.cpp]

    [CBlockHeader] with its 100-byte wire format and its hash, and the block
    locator type. *)
From S2P Require Import Prelude Arith Bytes Sha256.
Import Endian.

Abbreviation uint256 := (list Z).
Abbreviation uint160 := (list Z).

(** [class CBlockHeader]. *)
Record CBlockHeader := mkHeader {
  nVersion : Z;            (** int32_t *)
  hashPrevBlock : uint256;
  minerAddress : uint160;
  nTime : Z;               (** uint32_t *)
  nBits : Z;               (** uint32_t *)
  nNonce : Z;              (** uint32_t *)
  hashRandomX : uint256
}.

Module Header.

Definition UINT256_BYTES : nat := 32.
Definition UINT160_BYTES : nat := 20.
Definition HEADER_SIZE : nat := 4 + UINT256_BYTES + UINT160_BYTES + 4 + 4 + 4 + UINT256_BYTES.
Definition OFF_VERSION : nat := 0.
Definition OFF_PREV : nat := OFF_VERSION + 4.
Definition OFF_MINER : nat := OFF_PREV + UINT256_BYTES.
Definition OFF_TIME : nat := OFF_MINER + UINT160_BYTES.
Definition OFF_BITS : nat := OFF_TIME + 4.
Definition OFF_NONCE : nat := OFF_BITS + 4.
Definition OFF_RANDOMX : nat := OFF_NONCE + 4.

(** [SetNull()], also the default-initialised header. *)
Definition SetNull : CBlockHeader :=
  mkHeader 0 (Blob.SetNull 32) (Blob.SetNull 20) 0 0 0 (Blob.SetNull 32).

Definition IsNull (h : CBlockHeader) : bool :=
  (nTime h =? 0) && (nBits h =? 0) && (nNonce h =? 0) &&
  Blob.IsNull (hashPrevBlock h) && Blob.IsNull (minerAddress h) && Blob.IsNull (hashRandomX h).

Definition GetBlockTime (h : CBlockHeader) : Z := nTime h.

(** [SerializeFixed]: each field written at its offset of a zeroed array. *)
Definition SerializeFixed (h : CBlockHeader) : bytes :=
  let data := replicate HEADER_SIZE 0 in
  let data := write_at OFF_VERSION (WriteLE32 Little (u32 (nVersion h))) data in
  let data := write_at OFF_PREV (hashPrevBlock h) data in
  let data := write_at OFF_MINER (minerAddress h) data in
  let data := write_at OFF_TIME (WriteLE32 Little (nTime h)) data in
  let data := write_at OFF_BITS (WriteLE32 Little (nBits h)) data in
  let data := write_at OFF_NONCE (WriteLE32 Little (nNonce h)) data in
  write_at OFF_RANDOMX (hashRandomX h) data.

Definition Serialize (h : CBlockHeader) : bytes := SerializeFixed h.

(** [Deserialize]: the result flag and the header object afterwards. *)
Definition Deserialize (this : CBlockHeader) (data : bytes) : bool * CBlockHeader :=
  if negb (length data =? HEADER_SIZE)%nat then (false, this)
  else (true, {|
    nVersion := i32 (ReadLE32 Little (drop OFF_VERSION data));
    hashPrevBlock := take UINT256_BYTES (drop OFF_PREV data);
    minerAddress := take UINT160_BYTES (drop OFF_MINER data);
    nTime := ReadLE32 Little (drop OFF_TIME data);
    nBits := ReadLE32 Little (drop OFF_BITS data);
    nNonce := ReadLE32 Little (drop OFF_NONCE data);
    hashRandomX := take UINT256_BYTES (drop OFF_RANDOMX data) |}).

(** [GetHash]: double SHA-256 of the wire format. *)
Definition GetHash (h : CBlockHeader) : uint256 :=
  let s := SerializeFixed h in
  let tmp := Sha256.Finalize (Sha256.Write Sha256.CSHA256_new s) in
  Sha256.Finalize (Sha256.Write Sha256.CSHA256_new tmp).

End Header.

(** [struct CBlockLocator]. *)
Record CBlockLocator := mkLocator { vHave : list uint256 }.

(** Every field in the range of its C++ type. *)
Definition header_wf (h : CBlockHeader) : Prop :=
  in_s 32 (nVersion h) /\ blob_wf 32 (hashPrevBlock h) /\ blob_wf 20 (minerAddress h) /\
  in_u 32 (nTime h) /\ in_u 32 (nBits h) /\ in_u 32 (nNonce h) /\ blob_wf 32 (hashRandomX h).

(** ** The wire format *)

Lemma write_at_middle pre old post bs : length bs = length old ->
  write_at (length pre) bs (pre ++ old ++ post) = pre ++ bs ++ post.
Proof.
  intros Hl. unfold write_at. rewrite take_app_length, Hl, drop_app_ge by lia.
  replace (_ - _)%nat with (length old) by lia. by rewrite drop_app_length.
Qed.

Definition wire (h : CBlockHeader) : bytes :=
  le_split 4 (u32 (nVersion h)) ++ hashPrevBlock h ++ minerAddress h ++
  le_split 4 (nTime h) ++ le_split 4 (nBits h) ++ le_split 4 (nNonce h) ++ hashRandomX h.

(** Field-by-field writes into [pre ++ zeros] leave [pre ++ field ++ zeros]. *)
Lemma write_next pre bs n k : length bs = n ->
  write_at (length pre) bs (pre ++ replicate (n + k) 0) = (pre ++ bs) ++ replicate k 0.
Proof.
  intros <-. rewrite replicate_add. rewrite write_at_middle by by rewrite length_replicate.
  by rewrite app_assoc.
Qed.

Lemma write_next_at off pre bs n k : off = length pre -> length bs = n ->
  write_at off bs (pre ++ replicate (n + k) 0) = (pre ++ bs) ++ replicate k 0.
Proof. intros -> <-. by apply write_next. Qed.

Lemma serialize_wire h : header_wf h -> Header.SerializeFixed h = wire h.
Proof.
  intros (Hv & [Hp _] & [Hm _] & Ht & Hb & Hn & [Hr _]).
  unfold Header.SerializeFixed. rewrite !WriteLE32_eq by (done || apply u32_range).
  change (replicate Header.HEADER_SIZE 0) with ([] ++ replicate (4 + 96) 0).
  rewrite (write_next_at _ _ _ 4) by (done || apply length_le_split).
  rewrite (write_next_at _ _ _ 32 64) by (rewrite ?length_app, ?length_le_split; done).
  rewrite (write_next_at _ _ _ 20 44) by (rewrite ?length_app, ?length_le_split, ?Hp; done).
  rewrite (write_next_at _ _ _ 4 40) by (rewrite ?length_app, ?length_le_split, ?Hp, ?Hm; done).
  rewrite (write_next_at _ _ _ 4 36) by (rewrite ?length_app, ?length_le_split, ?Hp, ?Hm; done).
  rewrite (write_next_at _ _ _ 4 32) by (rewrite ?length_app, ?length_le_split, ?Hp, ?Hm; done).
  rewrite (write_next_at _ _ _ 32 0) by (rewrite ?length_app, ?length_le_split, ?Hp, ?Hm; done).
  unfold wire. cbn [replicate app]. by rewrite app_nil_r, <- !app_assoc.
Qed.

Lemma length_wire h : header_wf h -> length (wire h) = 100%nat.
Proof.
  intros (Hv & [Hp _] & [Hm _] & Ht & Hb & Hn & [Hr _]). unfold wire.
  by rewrite !length_app, !length_le_split, Hp, Hm, Hr.
Qed.

Lemma wire_ok h : header_wf h -> Forall byte_ok (wire h).
Proof.
  intros (Hv & [_ Hp] & [_ Hm] & Ht & Hb & Hn & [_ Hr]). unfold wire.
  rewrite !Forall_app. split_and!; auto using le_split_ok.
Qed.

(** Reading back a field that follows a prefix of known length. *)
Lemma take_drop_field (pre x post : bytes) off n : length pre = off -> length x = n ->
  take n (drop off (pre ++ x ++ post)) = x.
Proof. intros <- <-. by rewrite drop_app_length, take_app_length. Qed.

Lemma read_field (pre post : bytes) v off : length pre = off -> in_u 32 v ->
  Forall byte_ok (pre ++ le_split 4 v ++ post) ->
  ReadLE32 Little (drop off (pre ++ le_split 4 v ++ post)) = v.
Proof.
  intros Hoff Hv Hb. rewrite ReadLE32_eq.
  - rewrite take_drop_field by (done || apply length_le_split). rewrite le_combine_split. by apply Z.mod_small.
  - rewrite length_drop, !length_app, length_le_split. lia.
  - by apply Forall_drop.
Qed.

(** The wire format cut at each field. *)
Ltac wire_cut h pre x post :=
  replace (wire h) with (pre ++ x ++ post) by (unfold wire; by rewrite <- ?app_assoc).

Lemma deserialize_wire this h : header_wf h -> Header.Deserialize this (wire h) = (true, h).
Proof.
  intros Hw. pose proof (wire_ok h Hw) as Hok. unfold Header.Deserialize. rewrite length_wire by done.
  change (negb (100 =? Header.HEADER_SIZE)%nat) with false. cbv iota. f_equal.
  pose proof Hw as (Hv & [Hp _] & [Hm _] & Ht & Hb & Hn & [Hr _]).
  destruct h as [ver prev miner tm bits nonce rx]; cbn [nVersion hashPrevBlock minerAddress nTime nBits nNonce hashRandomX] in *.
  set (h := mkHeader _ _ _ _ _ _ _) in *. f_equal.
  - wire_cut h (@nil Z) (le_split 4 (u32 ver)) (prev ++ miner ++ le_split 4 tm ++ le_split 4 bits ++ le_split 4 nonce ++ rx).
    rewrite read_field by (done || apply u32_range). by apply i32_u32.
  - wire_cut h (le_split 4 (u32 ver)) prev (miner ++ le_split 4 tm ++ le_split 4 bits ++ le_split 4 nonce ++ rx).
    by apply take_drop_field.
  - wire_cut h (le_split 4 (u32 ver) ++ prev) miner (le_split 4 tm ++ le_split 4 bits ++ le_split 4 nonce ++ rx).
    apply take_drop_field; [|done]. by rewrite length_app, Hp.
  - wire_cut h (le_split 4 (u32 ver) ++ prev ++ miner) (le_split 4 tm) (le_split 4 bits ++ le_split 4 nonce ++ rx).
    apply read_field; [by rewrite !length_app, Hp, Hm|done|]. unfold wire in Hok. by rewrite <- !app_assoc.
  - wire_cut h (le_split 4 (u32 ver) ++ prev ++ miner ++ le_split 4 tm) (le_split 4 bits) (le_split 4 nonce ++ rx).
    apply read_field; [by rewrite !length_app, Hp, Hm|done|]. unfold wire in Hok. by rewrite <- !app_assoc.
  - wire_cut h (le_split 4 (u32 ver) ++ prev ++ miner ++ le_split 4 tm ++ le_split 4 bits) (le_split 4 nonce) rx.
    apply read_field; [by rewrite !length_app, Hp, Hm|done|]. unfold wire in Hok. by rewrite <- !app_assoc.
  - replace (wire h) with ((le_split 4 (u32 ver) ++ prev ++ miner ++ le_split 4 tm ++ le_split 4 bits ++ le_split 4 nonce) ++ rx ++ [])
      by (unfold wire; by rewrite app_nil_r, <- ?app_assoc).
    apply take_drop_field; [|done]. by rewrite !length_app, Hp, Hm.
Qed.

(** Reading a 32-bit field and writing it again. *)
Lemma reread_field data off : (off + 4 <= length data)%nat -> Forall byte_ok data ->
  in_u 32 (ReadLE32 Little (drop off data)) /\
  le_split 4 (ReadLE32 Little (drop off data)) = take 4 (drop off data).
Proof.
  intros Hl Hd. rewrite ReadLE32_eq by (rewrite ?length_drop; try lia; by apply Forall_drop).
  assert (Hw : blob_wf 4 (take 4 (drop off data))).
  { apply blob_take; [rewrite length_drop; lia|by apply Forall_drop]. }
  split; [exact (le_combine_range 4 _ Hw)|].
  pose proof (le_split_combine _ (proj2 Hw)) as E. by rewrite (proj1 Hw) in E.
Qed.

Lemma u32_i32 x : in_u 32 x -> u32 (i32 x) = x.
Proof.
  unfold in_u, u32, i32, to_signed. pow2. intros. cbv zeta.
  destruct (Z.ltb_spec (x mod 4294967296) 2147483648); zlia.
Qed.

Lemma split_field (data : bytes) n : data = take n data ++ drop n data.
Proof. by rewrite take_drop. Qed.

Lemma deserialize_inv this data : length data = 100%nat -> Forall byte_ok data ->
  exists h, Header.Deserialize this data = (true, h) /\ header_wf h /\ wire h = data.
Proof.
  intros Hl Hd. unfold Header.Deserialize. rewrite Hl.
  change (negb (100 =? Header.HEADER_SIZE)%nat) with false. cbv iota. eexists. split; [done|].
  assert (Hblob : forall off n, (off + n <= 100)%nat -> blob_wf n (take n (drop off data))).
  { intros. apply blob_take; [rewrite length_drop; lia|by apply Forall_drop]. }
  assert (H32 : forall off, (off + 4 <= 100)%nat -> in_u 32 (ReadLE32 Little (drop off data)) /\
            le_split 4 (ReadLE32 Little (drop off data)) = take 4 (drop off data)).
  { intros. apply reread_field; [lia|done]. }
  split.
  - unfold header_wf. cbn. split_and!; try (apply Hblob; cbn; lia); try (apply H32; cbn; lia).
    apply i32_range.
  - unfold wire. cbn [nVersion hashPrevBlock minerAddress nTime nBits nNonce hashRandomX].
    rewrite u32_i32 by (apply H32; cbn; lia).
    rewrite !(fun off H => proj2 (H32 off H)) by (cbn; lia).
    unfold Header.OFF_VERSION, Header.OFF_PREV, Header.OFF_MINER, Header.OFF_TIME, Header.OFF_BITS,
      Header.OFF_NONCE, Header.OFF_RANDOMX, Header.UINT256_BYTES, Header.UINT160_BYTES.
    cbn [Nat.add]. rewrite (take_ge (drop 68 data)) by (rewrite length_drop; lia).
    change (drop (0 + 4) data) with (drop 4 data). rewrite drop_0.
    replace (drop 68 data) with (drop 4 (drop 64 data)) by by rewrite drop_drop.
    rewrite take_drop. replace (drop 64 data) with (drop 4 (drop 60 data)) by by rewrite drop_drop.
    rewrite take_drop. replace (drop 60 data) with (drop 4 (drop 56 data)) by by rewrite drop_drop.
    rewrite take_drop. replace (drop 56 data) with (drop 20 (drop 36 data)) by by rewrite drop_drop.
    rewrite take_drop. replace (drop 36 data) with (drop 32 (drop 4 data)) by by rewrite drop_drop.
    by rewrite !take_drop.
Qed.

(** ** Properties *)

(** the 100-byte encoding of a header is decoded, into whatever object
    [Deserialize] is called on, to the same header; every 100-byte buffer decodes, and
    encoding the result gives the buffer back; and a buffer of any other length is
    refused with the object unchanged. *)
Theorem header_roundtrip :
  (forall this h, header_wf h -> length (Header.Serialize h) = Header.HEADER_SIZE /\
     Header.Deserialize this (Header.Serialize h) = (true, h)) /\
  (forall this data, blob_wf Header.HEADER_SIZE data ->
     exists h, Header.Deserialize this data = (true, h) /\ header_wf h /\ Header.Serialize h = data) /\
  (forall this data, length data <> Header.HEADER_SIZE -> Header.Deserialize this data = (false, this)).
Proof.
  split_and!.
  - intros this h Hw. unfold Header.Serialize. rewrite serialize_wire by done.
    split; [by apply length_wire|by apply deserialize_wire].
  - intros this data [Hl Hd]. destruct (deserialize_inv this data Hl Hd) as (h & E & Hw & Hwire).
    exists h. split_and!; [done..|]. unfold Header.Serialize. by rewrite serialize_wire.
  - intros this data Hl. unfold Header.Deserialize. by rewrite (proj2 (Nat.eqb_neq _ _) Hl).
Qed.

(** The double hash of the wire format, through the FIPS reference. *)
Lemma gethash_fips h : header_wf h -> Header.GetHash h = Fips.sha256 (Fips.sha256 (wire h)).
Proof.
  intros Hw. unfold Header.GetHash. rewrite serialize_wire by done.
  rewrite (sha256_once (wire h)); [|by apply wire_ok|rewrite length_wire by done; lia].
  destruct (sha256_blob (wire h)) as [Hl Hok]. rewrite sha256_once; [done|done|rewrite Hl; lia].
Qed.

Lemma gethash_wf h : header_wf h -> blob_wf 32 (Header.GetHash h).
Proof. intros Hw. rewrite gethash_fips by done. apply sha256_blob. Qed.

(** A concrete header, encoded and decoded. *)
Lemma header_roundtrip_witness :
  let h := mkHeader (-2) (replicate 32 7) (replicate 20 255) 4294967295 0x1f06a000 8497 (replicate 32 1) in
  length (Header.Serialize h) = 100%nat /\ Header.Deserialize Header.SetNull (Header.Serialize h) = (true, h).
Proof.
  intros h. apply (proj1 header_roundtrip Header.SetNull h).
  unfold header_wf, blob_wf, in_s, in_u. cbn. split_and!; try lia; try done;
    repeat constructor; unfold byte_ok; lia.
Defined.
