(* ===== verification/ChainParams.v ===== *)
(** * ChainParams: the three networks of [chain/chainparams.hpp/.cpp]

    Consensus constants, genesis blocks and the selected-network singleton.
    [CRegTestParams] leaves the two ASERT fields uninitialised: they are
    arguments of its model. *)
From Stdlib Require Import String.
From S2P Require Import Prelude Arith Bytes Compact Sha256 Block.
#[local] Open Scope Z_scope.

Inductive ChainType := MAIN | TESTNET | REGTEST.
#[export] Instance ChainType_eq_dec : EqDecision ChainType.
Proof. solve_decision. Defined.

(** [struct ConsensusParams]. *)
Record ConsensusParams := mkConsensus {
  powLimit : uint256;
  nPowTargetSpacing : Z;              (** int64_t *)
  nRandomXEpochDuration : Z;          (** int64_t *)
  nASERTHalfLife : Z;                 (** int64_t *)
  nASERTAnchorHeight : Z;             (** int32_t *)
  hashGenesisBlock : uint256;
  nMinimumChainWork : uint256;
  nNetworkExpirationInterval : Z;     (** int32_t *)
  nNetworkExpirationGracePeriod : Z;  (** int32_t *)
  nOrphanHeaderExpireTime : Z;        (** int64_t *)
  nSuspiciousReorgDepth : Z;          (** int32_t *)
  nAntiDosWorkBufferBlocks : Z        (** int32_t *)
}.

(** [class ChainParams]. *)
Record ChainParams := mkParams {
  consensus : ConsensusParams;
  nDefaultPort : Z;
  chainType : ChainType;
  genesis : CBlockHeader;
  vFixedSeeds : list string
}.

Module Params.

Definition uint256S (s : string) : uint256 := Blob.SetHex 32 (str s).

(** [protocol::magic] and [protocol::ports]. *)
Definition magic_MAINNET : Z := 0x554E4943.
Definition magic_TESTNET : Z := 0xA3F8D412.
Definition magic_REGTEST : Z := 0x4B7C2E91.
Definition ports_MAINNET : Z := 9590.
Definition ports_TESTNET : Z := 19590.
Definition ports_REGTEST : Z := 29590.

Definition CreateGenesisBlock (nTime nNonce nBits nVersion : Z) : CBlockHeader :=
  mkHeader nVersion (Blob.SetNull 32) (Blob.SetNull 20) nTime nBits nNonce (Blob.SetNull 32).

Definition GetChainTypeString (p : ChainParams) : string :=
  match chainType p with MAIN => "main" | TESTNET => "test" | REGTEST => "regtest" end%string.

Definition GetNetworkMagic (p : ChainParams) : Z :=
  match chainType p with MAIN => magic_MAINNET | TESTNET => magic_TESTNET | REGTEST => magic_REGTEST end.

(** [SetSuspiciousReorgDepth], the command-line override. *)
Definition SetSuspiciousReorgDepth (depth : Z) (p : ChainParams) : ChainParams :=
  let '(mkConsensus a b c d e f g h i j _ l) := consensus p in
  mkParams (mkConsensus a b c d e f g h i j depth l) (nDefaultPort p) (chainType p) (genesis p) (vFixedSeeds p).

Definition seed_hosts : list string :=
  ["178.18.251.16"; "185.225.233.49"; "207.244.248.15"; "194.140.197.98"; "173.212.251.205"; "144.126.138.46";
   "194.163.184.29"]%string.

(** The constructors; [None] is a failed assertion on the genesis hash. *)
Definition CMainParams : option ChainParams :=
  let genesis := CreateGenesisBlock 1761330012 8497 0x1f06a000 1 in
  let hash := Header.GetHash genesis in
  if Blob.eqb hash (uint256S "0xb675bea090e27659c91885afe341facf399cf84997918bac927948ee75409ebf") then
    Some {| consensus := {|
              powLimit := uint256S "000fffff00000000000000000000000000000000000000000000000000000000";
              nPowTargetSpacing := 60 * 60;
              nRandomXEpochDuration := 7 * 24 * 60 * 60;
              nASERTHalfLife := 2 * 24 * 60 * 60;
              nASERTAnchorHeight := 1;
              hashGenesisBlock := hash;
              nMinimumChainWork := uint256S "0x0000000000000000000000000000000000000000000000000000000000000000";
              nNetworkExpirationInterval := 0;
              nNetworkExpirationGracePeriod := 0;
              nOrphanHeaderExpireTime := 6 * 60 * 60;
              nSuspiciousReorgDepth := 2;
              nAntiDosWorkBufferBlocks := 6 |};
            nDefaultPort := ports_MAINNET; chainType := MAIN; genesis := genesis;
            vFixedSeeds := (fun h => h ++ ":9590")%string <$> seed_hosts |}
  else None.

Definition CTestNetParams : option ChainParams :=
  let genesis := CreateGenesisBlock 1760549555 253 0x1f7fffff 1 in
  let hash := Header.GetHash genesis in
  if Blob.eqb hash (uint256S "0xcb608755c4b2bee0b929fe5760dec6cc578b48976ee164bb06eb9597c17575f8") then
    Some {| consensus := {|
              powLimit := uint256S "007fffff00000000000000000000000000000000000000000000000000000000";
              nPowTargetSpacing := 2 * 60;
              nRandomXEpochDuration := 7 * 24 * 60 * 60;
              nASERTHalfLife := 60 * 60;
              nASERTAnchorHeight := 1;
              hashGenesisBlock := hash;
              nMinimumChainWork := uint256S "0x0000000000000000000000000000000000000000000000000000000000000000";
              nNetworkExpirationInterval := 2160;
              nNetworkExpirationGracePeriod := 24;
              nOrphanHeaderExpireTime := 12 * 60;
              nSuspiciousReorgDepth := 100;
              nAntiDosWorkBufferBlocks := 144 |};
            nDefaultPort := ports_TESTNET; chainType := TESTNET; genesis := genesis;
            vFixedSeeds := (fun h => h ++ ":19590")%string <$> seed_hosts |}
  else None.

Definition CRegTestParams (uninit_halflife uninit_anchor : Z) : option ChainParams :=
  let genesis := CreateGenesisBlock 1296688602 2 0x207fffff 1 in
  let hash := Header.GetHash genesis in
  if Blob.eqb hash (uint256S "0x0233b37bb6942bfb471cfd7fb95caab0e0f7b19cc8767da65fbef59eb49e45bd") then
    Some {| consensus := {|
              powLimit := uint256S "7fffffffffffffffffffffffffffffffffffffffffffffffffffffffffffffff";
              nPowTargetSpacing := 2 * 60;
              nRandomXEpochDuration := 365 * 24 * 60 * 60 * 100;
              nASERTHalfLife := uninit_halflife;
              nASERTAnchorHeight := uninit_anchor;
              hashGenesisBlock := hash;
              nMinimumChainWork := uint256S "0x0000000000000000000000000000000000000000000000000000000000000000";
              nNetworkExpirationInterval := 0;
              nNetworkExpirationGracePeriod := 0;
              nOrphanHeaderExpireTime := 12 * 60;
              nSuspiciousReorgDepth := 100;
              nAntiDosWorkBufferBlocks := 144 |};
            nDefaultPort := ports_REGTEST; chainType := REGTEST; genesis := genesis; vFixedSeeds := [] |}
  else None.

(** [GlobalChainParams]: the singleton as an optional value; [Get] throws when it is unset. *)
Definition Select (uninit_halflife uninit_anchor : Z) (chain : ChainType) : option ChainParams :=
  match chain with
  | MAIN => CMainParams
  | TESTNET => CTestNetParams
  | REGTEST => CRegTestParams uninit_halflife uninit_anchor
  end.

Definition Get (instance : option ChainParams) : ChainParams + string :=
  match instance with
  | Some p => inl p
  | None => inr "GlobalChainParams not initialized - call Select() first"%string
  end.

Definition IsInitialized (instance : option ChainParams) : bool := bool_decide (is_Some instance).

End Params.

(** ** Facts about the constants *)

Lemma main_genesis_hash :
  Header.GetHash (Params.CreateGenesisBlock 1761330012 8497 0x1f06a000 1) =
  Params.uint256S "0xb675bea090e27659c91885afe341facf399cf84997918bac927948ee75409ebf".
Proof. vm_compute. reflexivity. Qed.

Lemma test_genesis_hash :
  Header.GetHash (Params.CreateGenesisBlock 1760549555 253 0x1f7fffff 1) =
  Params.uint256S "0xcb608755c4b2bee0b929fe5760dec6cc578b48976ee164bb06eb9597c17575f8".
Proof. vm_compute. reflexivity. Qed.

Lemma regtest_genesis_hash :
  Header.GetHash (Params.CreateGenesisBlock 1296688602 2 0x207fffff 1) =
  Params.uint256S "0x0233b37bb6942bfb471cfd7fb95caab0e0f7b19cc8767da65fbef59eb49e45bd".
Proof. vm_compute. reflexivity. Qed.

(** What the difficulty code needs of the parameters. *)
Record params_wf (p : ChainParams) : Prop := {
  pw_limit : blob_wf 32 (powLimit (consensus p));
  pw_limit_pos : 0 < le_combine (powLimit (consensus p));
  pw_spacing : 0 < nPowTargetSpacing (consensus p) <= 3600;
  pw_halflife : chainType p <> REGTEST -> 3600 <= nASERTHalfLife (consensus p) < 2 ^ 32;
  pw_anchor : chainType p <> REGTEST -> nASERTAnchorHeight (consensus p) = 1;
  pw_epoch : 0 < nRandomXEpochDuration (consensus p) < 2 ^ 32
}.

Lemma uint256S_wf s : blob_wf 32 (Params.uint256S s).
Proof. apply sethex_wf. Qed.

Lemma genesis_wf t n b : in_u 32 t -> in_u 32 n -> in_u 32 b -> header_wf (Params.CreateGenesisBlock t n b 1).
Proof.
  intros. unfold header_wf, Params.CreateGenesisBlock. cbn -[Blob.SetNull]. unfold in_s.
  split_and!; try done; apply setnull_wf.
Qed.

(** The constructors evaluated. *)
Lemma select_ok (u1 u2 : Z) (chain : ChainType) :
  exists p, Params.Select u1 u2 chain = Some p /\ chainType p = chain /\ params_wf p /\
    header_wf (genesis p) /\ hashGenesisBlock (consensus p) = Header.GetHash (genesis p) /\
    Blob.IsNull (hashPrevBlock (genesis p)) = true /\
    nBits (genesis p) = match chain with MAIN => 0x1f06a000 | TESTNET => 0x1f7fffff | REGTEST => 0x207fffff end /\
    bits_within (le_combine (powLimit (consensus p))) (nBits (genesis p)) /\
    Blob.GetHex (hashGenesisBlock (consensus p)) =
      str match chain with
          | MAIN => "b675bea090e27659c91885afe341facf399cf84997918bac927948ee75409ebf"
          | TESTNET => "cb608755c4b2bee0b929fe5760dec6cc578b48976ee164bb06eb9597c17575f8"
          | REGTEST => "0233b37bb6942bfb471cfd7fb95caab0e0f7b19cc8767da65fbef59eb49e45bd"
          end /\
    0 <= nAntiDosWorkBufferBlocks (consensus p) <= 144.
Proof.
  destruct chain; cbn [Params.Select].
  - unfold Params.CMainParams. rewrite main_genesis_hash. eexists. split; [reflexivity|].
    cbn [chainType consensus genesis hashGenesisBlock].
    split_and!; [done| |apply genesis_wf; unfold in_u; lia|by rewrite main_genesis_hash|done|done|split; vm_compute; done|vm_compute; done|cbn; lia|cbn; lia].
    split; cbn [powLimit nPowTargetSpacing nASERTHalfLife nASERTAnchorHeight nRandomXEpochDuration consensus chainType];
      first [lia|done|apply uint256S_wf|vm_compute; done].
  - unfold Params.CTestNetParams. rewrite test_genesis_hash. eexists. split; [reflexivity|].
    cbn [chainType consensus genesis hashGenesisBlock].
    split_and!; [done| |apply genesis_wf; unfold in_u; lia|by rewrite test_genesis_hash|done|done|split; vm_compute; done|vm_compute; done|cbn; lia|cbn; lia].
    split; cbn [powLimit nPowTargetSpacing nASERTHalfLife nASERTAnchorHeight nRandomXEpochDuration consensus chainType];
      first [lia|done|apply uint256S_wf|vm_compute; done].
  - unfold Params.CRegTestParams. rewrite regtest_genesis_hash. eexists. split; [reflexivity|].
    cbn [chainType consensus genesis hashGenesisBlock].
    split_and!; [done| |apply genesis_wf; unfold in_u; lia|by rewrite regtest_genesis_hash|done|done|split; vm_compute; done|vm_compute; done|cbn; lia|cbn; lia].
    split; cbn [powLimit nPowTargetSpacing nASERTHalfLife nASERTAnchorHeight nRandomXEpochDuration consensus chainType];
      first [lia|done|apply uint256S_wf|vm_compute; done].
Qed.

(** ** Properties *)

(** the constructors of the three networks never fail the assertion on the genesis
    hash, whatever the uninitialised fields of regtest hold: the double SHA-256 of each genesis
    header is the hash the source gives, each genesis header has a null previous hash and a valid
    target within the network's limit, and the
    parameters satisfy the ranges the difficulty code relies on. *)
Theorem select_network_exact (u1 u2 : Z) (chain : ChainType) :
  exists p, Params.Select u1 u2 chain = Some p /\ chainType p = chain /\ params_wf p /\
    header_wf (genesis p) /\ hashGenesisBlock (consensus p) = Header.GetHash (genesis p) /\
    Blob.IsNull (hashPrevBlock (genesis p)) = true /\
    nBits (genesis p) = match chain with MAIN => 0x1f06a000 | TESTNET => 0x1f7fffff | REGTEST => 0x207fffff end /\
    bits_within (le_combine (powLimit (consensus p))) (nBits (genesis p)) /\
    Blob.GetHex (hashGenesisBlock (consensus p)) =
      str match chain with
          | MAIN => "b675bea090e27659c91885afe341facf399cf84997918bac927948ee75409ebf"
          | TESTNET => "cb608755c4b2bee0b929fe5760dec6cc578b48976ee164bb06eb9597c17575f8"
          | REGTEST => "0233b37bb6942bfb471cfd7fb95caab0e0f7b19cc8767da65fbef59eb49e45bd"
          end /\
    0 <= nAntiDosWorkBufferBlocks (consensus p) <= 144.
Proof. apply select_ok. Qed.
