(* ===== verification/BlockIndex.v ===== *)
(** * BlockIndex: block metadata and ancestor queries of [chain/block_index.hpp/.cpp]

    A [CBlockIndex*] is the key of the entry of [BlockManager::m_block_index]
    that it points to ([phashBlock] points to that key, so [GetBlockHash] of a
    pointer is the pointer), and the null pointer is [None].  Functions that
    dereference pointers take the map.  An outer [None] is a failed assertion or a
    dangling pointer; the theorems show that it does not occur on a well-formed
    index. *)
From stdpp Require Export gmap sorting.
From S2P Require Import Prelude Arith Bytes Compact Sha256 Block.

Definition MEDIAN_TIME_SPAN : nat := 11.

(** [enum BlockStatus]: the levels that [IsValid] and [RaiseValidity] accept (their
    assertion excludes the failure flags), and the failure flags. *)
Inductive ValidityLevel := BLOCK_VALID_UNKNOWN | BLOCK_VALID_HEADER | BLOCK_VALID_TREE.
Definition level (l : ValidityLevel) : Z :=
  match l with BLOCK_VALID_UNKNOWN => 0 | BLOCK_VALID_HEADER => 1 | BLOCK_VALID_TREE => 2 end.
Definition BLOCK_FAILED_VALID : Z := 32.
Definition BLOCK_FAILED_CHILD : Z := 64.
Definition BLOCK_FAILED_MASK : Z := Z.lor BLOCK_FAILED_VALID BLOCK_FAILED_CHILD.
Definition VALIDITY_LEVEL_MASK : Z := 0xFF.

Module Idx.

(** [class CBlockIndex]. *)
Record CBlockIndex := mkIndex {
  nStatus : Z;               (** uint32_t *)
  pprev : option uint256;
  pskip : option uint256;
  nHeight : Z;               (** int *)
  nChainWork : Z;            (** arith_uint256 *)
  nVersion : Z;
  minerAddress : uint160;
  nTime : Z;
  nBits : Z;
  nNonce : Z;
  hashRandomX : uint256;
  nTimeReceived : Z;         (** int64_t *)
  nTimeMax : Z               (** int64_t *)
}.

(** The constructor from a header; the other members are default-initialised. *)
Definition of_header (h : CBlockHeader) : CBlockIndex := {|
  nStatus := 0; pprev := None; pskip := None; nHeight := 0; nChainWork := 0;
  nVersion := Block.nVersion h; minerAddress := Block.minerAddress h; nTime := Block.nTime h;
  nBits := Block.nBits h; nNonce := Block.nNonce h; hashRandomX := Block.hashRandomX h;
  nTimeReceived := 0; nTimeMax := 0 |}.

Definition set_nStatus (s : Z) (b : CBlockIndex) : CBlockIndex :=
  let '(mkIndex _ pp ps nh w v m t bi no rx tr tm) := b in mkIndex s pp ps nh w v m t bi no rx tr tm.
Definition set_pskip (s : option uint256) (b : CBlockIndex) : CBlockIndex :=
  let '(mkIndex st pp _ nh w v m t bi no rx tr tm) := b in mkIndex st pp s nh w v m t bi no rx tr tm.
Definition set_links (pp ps : option uint256) (b : CBlockIndex) : CBlockIndex :=
  let '(mkIndex st _ _ nh w v m t bi no rx tr tm) := b in mkIndex st pp ps nh w v m t bi no rx tr tm.
Definition set_pprev (pp : option uint256) (b : CBlockIndex) : CBlockIndex :=
  let '(mkIndex st _ ps nh w v m t bi no rx tr tm) := b in mkIndex st pp ps nh w v m t bi no rx tr tm.
Definition set_tree (nh w tm : Z) (b : CBlockIndex) : CBlockIndex :=
  let '(mkIndex st pp ps _ _ v m t bi no rx tr _) := b in mkIndex st pp ps nh w v m t bi no rx tr tm.
Definition set_nTimeReceived (tr : Z) (b : CBlockIndex) : CBlockIndex :=
  let '(mkIndex st pp ps nh w v m t bi no rx _ tm) := b in mkIndex st pp ps nh w v m t bi no rx tr tm.

(** [GetBlockHeader]. *)
Definition GetBlockHeader (b : CBlockIndex) : CBlockHeader := {|
  Block.nVersion := nVersion b;
  Block.hashPrevBlock := match pprev b with Some p => p | None => Blob.SetNull 32 end;
  Block.minerAddress := minerAddress b; Block.nTime := nTime b; Block.nBits := nBits b;
  Block.nNonce := nNonce b; Block.hashRandomX := hashRandomX b |}.

Definition GetBlockTime (b : CBlockIndex) : Z := nTime b.

(** [IsValid] and [RaiseValidity]. *)
Definition IsValid (b : CBlockIndex) (nUpTo : ValidityLevel) : bool :=
  if negb (Z.land (nStatus b) BLOCK_FAILED_MASK =? 0) then false
  else level nUpTo <=? Z.land (nStatus b) VALIDITY_LEVEL_MASK.

Definition RaiseValidity (b : CBlockIndex) (nUpTo : ValidityLevel) : bool * CBlockIndex :=
  if negb (Z.land (nStatus b) BLOCK_FAILED_MASK =? 0) then (false, b)
  else if Z.land (nStatus b) VALIDITY_LEVEL_MASK <? level nUpTo then
    (true, set_nStatus (Z.lor (Z.land (nStatus b) (2 ^ 32 - 1 - VALIDITY_LEVEL_MASK)) (level nUpTo)) b)
  else (false, b).

End Idx.
Import Idx (CBlockIndex, mkIndex, nHeight, pprev, pskip, nChainWork, nStatus, nTimeMax, nTimeReceived).

(** The block index and pointers into it. *)
Abbreviation block_ptr := uint256.
Abbreviation block_map := (gmap (list Z) Idx.CBlockIndex).

(** [pindex->nHeight] and the like, through the map. *)
Definition deref {A} (f : CBlockIndex -> A) (d : A) (m : block_map) (p : block_ptr) : A :=
  match m !! p with Some b => f b | None => d end.

(** ** Skip list *)

Definition InvertLowestOne (n : Z) : Z := Z.land n (n - 1).

Definition GetSkipHeight (height : Z) : Z :=
  if height <? 2 then 0
  else if Z.odd height then InvertLowestOne (InvertLowestOne (height - 1)) + 1
  else InvertLowestOne height.

(** The loop of [GetAncestor] from a block at [heightWalk] down to [height]. *)
Fixpoint GetAncestor_loop (fuel : nat) (m : block_map) (pindexWalk : block_ptr) (heightWalk height : Z)
  : option block_ptr :=
  if height <? heightWalk then
    match fuel, m !! pindexWalk with
    | S fuel, Some b =>
        let heightSkip := GetSkipHeight heightWalk in
        let heightSkipPrev := GetSkipHeight (heightWalk - 1) in
        let use_skip := (heightSkip =? height) ||
          ((height <? heightSkip) &&
           negb ((heightSkipPrev <? heightSkip - 2) && (height <=? heightSkipPrev))) in
        match pskip b, use_skip, pprev b with
        | Some s, true, _ => GetAncestor_loop fuel m s heightSkip height
        | _, _, Some p => GetAncestor_loop fuel m p (heightWalk - 1) height
        | _, _, None => None
        end
    | _, _ => None
    end
  else Some pindexWalk.

(** [GetAncestor]: [Some None] is a returned [nullptr]. *)
Definition GetAncestor (m : block_map) (this : block_ptr) (height : Z) : option (option block_ptr) :=
  match m !! this with
  | None => None
  | Some b =>
      if (nHeight b <? height) || (height <? 0) then Some None
      else option_map Some (GetAncestor_loop (Z.to_nat (nHeight b)) m this (nHeight b) height)
  end.

(** [BuildSkip] of an entry whose [pprev] and [nHeight] are set: its [pskip]. *)
Definition BuildSkip (m : block_map) (b : CBlockIndex) : option (option block_ptr) :=
  match pprev b with
  | Some p => GetAncestor m p (GetSkipHeight (nHeight b))
  | None => Some (pskip b)
  end.

(** ** Median time past *)

(** The times of the last [n] blocks, the oldest first. *)
Fixpoint past_times (n : nat) (m : block_map) (pindex : option block_ptr) (pbegin : list Z) : list Z :=
  match n, pindex with
  | S n, Some p =>
      match m !! p with
      | Some b => past_times n m (pprev b) (Idx.GetBlockTime b :: pbegin)
      | None => pbegin
      end
  | _, _ => pbegin
  end.

Definition GetMedianTimePast (m : block_map) (this : block_ptr) : Z :=
  let sorted := merge_sort Z.le (past_times MEDIAN_TIME_SPAN m (Some this) []) in
  nth (length sorted / 2) sorted 0.

(** ** Work and common ancestors *)

Definition GetBlockProof (block : CBlockIndex) : Z := default 0 (GetBlockProof_ (U := Z) (Idx.nBits block)).

Definition prev_of (m : block_map) (p : option block_ptr) : option block_ptr :=
  match p with Some p => deref pprev None m p | None => None end.

Fixpoint lca_loop (fuel : nat) (m : block_map) (pa pb : option block_ptr) : option (option block_ptr) :=
  if negb (bool_decide (pa = pb)) && bool_decide (is_Some pa) && bool_decide (is_Some pb) then
    match fuel with
    | O => None
    | S fuel => lca_loop fuel m (prev_of m pa) (prev_of m pb)
    end
  else Some pa.

(** [LastCommonAncestor]. *)
Definition LastCommonAncestor (m : block_map) (pa pb : option block_ptr) : option (option block_ptr) :=
  match pa, pb with
  | Some a, Some b =>
      let ha := deref nHeight 0 m a in
      let hb := deref nHeight 0 m b in
      let pa' := if hb <? ha then GetAncestor m a hb else Some (Some a) in
      let pb' := if (ha <? hb) then GetAncestor m b ha else Some (Some b) in
      match pa', pb' with
      | Some pa', Some pb' => lca_loop (S (Z.to_nat (Z.min ha hb))) m pa' pb'
      | _, _ => None
      end
  | _, _ => Some None
  end.

(** ** Reference definitions: the tree of parents *)

(** [n] steps along [pprev]. *)
Fixpoint back (m : block_map) (n : nat) (p : block_ptr) : option block_ptr :=
  match n with
  | O => Some p
  | S n => match deref pprev None m p with Some q => back m n q | None => None end
  end.

(** The ancestor at a height, by walking [pprev] only. *)
Definition ancestor_at (m : block_map) (p : block_ptr) (height : Z) : option block_ptr :=
  let h := deref nHeight 0 m p in
  if (0 <=? height) && (height <=? h) then back m (Z.to_nat (h - height)) p else None.

(** [a] is [p] or one of its ancestors. *)
Definition ancestor (m : block_map) (a p : block_ptr) : Prop := exists n, back m n p = Some a.

(** Well-formedness of an entry of the index. *)
Record entry_wf (m : block_map) (b : CBlockIndex) : Prop := {
  ew_height : 0 <= nHeight b;
  ew_root : pprev b = None -> nHeight b = 0 /\ pskip b = None;
  ew_parent p : pprev b = Some p -> exists pb, m !! p = Some pb /\ nHeight b = nHeight pb + 1;
  ew_skip p s : pprev b = Some p -> pskip b = Some s -> ancestor_at m p (GetSkipHeight (nHeight b)) = Some s
}.

Definition tree_wf (m : block_map) : Prop := forall p b, m !! p = Some b -> entry_wf m b.

(** *** Skip heights *)

Lemma land_le_r a b : 0 <= b -> 0 <= Z.land a b <= b.
Proof.
  intros Hb. apply Z.ldiff_le; [done|]. apply Z.bits_inj'. intros i _.
  rewrite Z.ldiff_spec, Z.land_spec, Z.bits_0. by destruct (Z.testbit a i), (Z.testbit b i).
Qed.

Lemma invert_range n : 1 <= n -> 0 <= InvertLowestOne n <= n - 1.
Proof. intros Hn. unfold InvertLowestOne. apply land_le_r. lia. Qed.

Lemma skip_range h : 1 <= h -> 0 <= GetSkipHeight h < h.
Proof.
  intros Hh. unfold GetSkipHeight. destruct (Z.ltb_spec h 2); [lia|].
  destruct (Z.odd h) eqn:E.
  - pose proof (invert_range (h - 1) ltac:(lia)) as H1.
    destruct (Z.eq_dec (InvertLowestOne (h - 1)) 0) as [Hz|Hz]; [rewrite Hz; change (InvertLowestOne 0) with 0; lia|].
    pose proof (invert_range (InvertLowestOne (h - 1)) ltac:(lia)). lia.
  - pose proof (invert_range h ltac:(lia)). lia.
Qed.

(** *** Walking back *)

Lemma deref_eq {A} (f : CBlockIndex -> A) d m p b : m !! p = Some b -> deref f d m p = f b.
Proof. unfold deref. by intros ->. Qed.

Lemma back_add m i j p : back m (i + j) p = match back m i p with Some q => back m j q | None => None end.
Proof.
  revert p. induction i as [|i IH]; intros p; [done|]. cbn [Nat.add back].
  destruct (deref pprev None m p); [apply IH|done].
Qed.

Section Tree.
Context (m : block_map) (Hwf : tree_wf m).

(** A block at height [h] has exactly [h] proper ancestors, one for each smaller height. *)
Lemma back_some n p b : m !! p = Some b -> Z.of_nat n <= nHeight b ->
  exists q c, back m n p = Some q /\ m !! q = Some c /\ nHeight c = nHeight b - Z.of_nat n.
Proof.
  revert p b. induction n as [|n IH]; intros p b Hp Hn.
  - exists p, b. split_and!; [done..|lia].
  - destruct (Hwf p b Hp) as [Hh Hroot Hpar _]. cbn [back]. rewrite (deref_eq pprev None m p b Hp).
    destruct (pprev b) as [q|] eqn:E; [|destruct (Hroot eq_refl); lia].
    destruct (Hpar q eq_refl) as (pb & Hq & Hhe).
    destruct (IH q pb Hq ltac:(lia)) as (r & c & ? & ? & ?). exists r, c. split_and!; [done..|lia].
Qed.

Lemma back_none n p b : m !! p = Some b -> nHeight b < Z.of_nat n -> back m n p = None.
Proof.
  revert p b. induction n as [|n IH]; intros p b Hp Hn; [destruct (Hwf p b Hp); lia|].
  destruct (Hwf p b Hp) as [Hh Hroot Hpar _]. cbn [back]. rewrite (deref_eq pprev None m p b Hp).
  destruct (pprev b) as [q|] eqn:E; [|done]. destruct (Hpar q eq_refl) as (pb & Hq & Hhe).
  apply (IH q pb Hq). lia.
Qed.

Lemma back_height n p b q : m !! p = Some b -> back m n p = Some q ->
  exists c, m !! q = Some c /\ nHeight c = nHeight b - Z.of_nat n.
Proof.
  intros Hp Hb. destruct (Z_le_gt_dec (Z.of_nat n) (nHeight b)).
  - destruct (back_some n p b Hp ltac:(lia)) as (r & c & E & Hr & Hc). exists c. split; congruence.
  - rewrite (back_none n p b Hp) in Hb by lia. done.
Qed.

Lemma ancestor_at_some p b h : m !! p = Some b -> 0 <= h <= nHeight b ->
  exists q c, ancestor_at m p h = Some q /\ m !! q = Some c /\ nHeight c = h.
Proof.
  intros Hp Hh. unfold ancestor_at. rewrite (deref_eq nHeight 0 m p b Hp). cbv zeta.
  rewrite (proj2 (Z.leb_le 0 h)), (proj2 (Z.leb_le h _)) by lia. cbn [andb].
  destruct (back_some (Z.to_nat (nHeight b - h)) p b Hp ltac:(lia)) as (q & c & ? & ? & ?).
  exists q, c. split_and!; [done..|lia].
Qed.

(** Ancestors of an ancestor. *)
Lemma ancestor_at_step p b q h : m !! p = Some b -> ancestor_at m p h = Some q ->
  forall h', h' <= h -> ancestor_at m p h' = ancestor_at m q h'.
Proof.
  intros Hp Hq h' Hh'. unfold ancestor_at in Hq |- *. rewrite (deref_eq nHeight 0 m p b Hp) in *. cbv zeta in *.
  destruct ((0 <=? h) && (h <=? nHeight b)) eqn:E; [|done]. apply andb_true_iff in E as [E1%Z.leb_le E2%Z.leb_le].
  destruct (back_height _ p b q Hp Hq) as (c & Hc & Hhc). rewrite (deref_eq nHeight 0 m q c Hc).
  replace (h' <=? nHeight b) with true by (symmetry; apply Z.leb_le; lia).
  replace (h' <=? nHeight c) with true by (symmetry; apply Z.leb_le; lia).
  destruct (Z.leb_spec 0 h'); cbn [andb]; [|done].
  replace (Z.to_nat (nHeight b - h')) with (Z.to_nat (nHeight b - h) + Z.to_nat (nHeight c - h'))%nat by lia.
  by rewrite back_add, Hq.
Qed.

Lemma ancestor_at_parent p b q h : m !! p = Some b -> pprev b = Some q -> h < nHeight b ->
  ancestor_at m p h = ancestor_at m q h.
Proof.
  intros Hp Hq Hh. destruct (Hwf p b Hp) as [_ _ Hpar _]. destruct (Hpar q Hq) as (c & Hc & Hhc).
  unfold ancestor_at. rewrite (deref_eq nHeight 0 m p b Hp), (deref_eq nHeight 0 m q c Hc). cbv zeta.
  replace (h <=? nHeight b) with true by (symmetry; apply Z.leb_le; lia).
  replace (h <=? nHeight c) with true by (symmetry; apply Z.leb_le; lia).
  destruct (Z.leb_spec 0 h); cbn [andb]; [|done].
  replace (Z.to_nat (nHeight b - h)) with (S (Z.to_nat (nHeight c - h))) by lia. cbn [back].
  by rewrite (deref_eq pprev None m p b Hp), Hq.
Qed.

Lemma ancestor_at_self p b : m !! p = Some b -> ancestor_at m p (nHeight b) = Some p.
Proof.
  intros Hp. unfold ancestor_at. rewrite (deref_eq nHeight 0 m p b Hp). cbv zeta.
  destruct (Hwf p b Hp). rewrite Z.sub_diag. destruct (Z.leb_spec 0 (nHeight b)); [|lia].
  by rewrite Z.leb_refl.
Qed.

(** The loop with skip pointers finds the ancestor that walking parents finds. *)
Lemma GetAncestor_loop_ok fuel p b h : m !! p = Some b -> 0 <= h <= nHeight b -> nHeight b - h <= Z.of_nat fuel ->
  GetAncestor_loop fuel m p (nHeight b) h = ancestor_at m p h.
Proof.
  revert p b. induction fuel as [|fuel IH]; intros p b Hp Hh Hf; cbn [GetAncestor_loop].
  - rewrite (proj2 (Z.ltb_ge _ _)) by lia. replace h with (nHeight b) by lia. by rewrite (ancestor_at_self p b).
  - destruct (Z.ltb_spec h (nHeight b)) as [Hlt|]; [|replace h with (nHeight b) by lia; by rewrite (ancestor_at_self p b)].
    rewrite Hp. destruct (Hwf p b Hp) as [_ Hroot Hpar Hskip].
    destruct (pprev b) as [q|] eqn:Eq; [|destruct (Hroot eq_refl); lia].
    destruct (Hpar q eq_refl) as (c & Hc & Hhc).
    assert (Hprev : GetAncestor_loop fuel m q (nHeight b - 1) h = ancestor_at m p h).
    { rewrite (ancestor_at_parent p b q h) by done. replace (nHeight b - 1) with (nHeight c) by lia.
      apply IH; [done|lia..]. }
    destruct (pskip b) as [s|] eqn:Es; [|done].
    set (sk := GetSkipHeight (nHeight b)) in *. destruct (_ || _) eqn:Euse; [|done].
    assert (Hsk : h <= sk).
    { apply orb_true_iff in Euse as [E%Z.eqb_eq|[E%Z.ltb_lt _]%andb_true_iff]; lia. }
    pose proof (skip_range (nHeight b) ltac:(lia)) as Hrange. fold sk in Hrange.
    specialize (Hskip q s eq_refl eq_refl).
    assert (Hs : ancestor_at m p sk = Some s) by (rewrite (ancestor_at_parent p b q sk) by (done || lia); done).
    destruct (ancestor_at_some p b sk Hp ltac:(lia)) as (s' & d & E & Hd & Hhd).
    assert (s' = s) as -> by congruence.
    rewrite (ancestor_at_step p b s sk Hp Hs h Hsk), <- Hhd. apply IH; [done|lia..].
Qed.

Lemma GetAncestor_ok p b h : m !! p = Some b -> GetAncestor m p h = Some (ancestor_at m p h).
Proof.
  intros Hp. unfold GetAncestor. rewrite Hp. destruct (_ || _) eqn:E.
  - unfold ancestor_at. rewrite (deref_eq nHeight 0 m p b Hp). cbv zeta. f_equal.
    destruct (Z.leb_spec 0 h), (Z.leb_spec h (nHeight b)); cbn [andb]; try done.
    apply orb_true_iff in E as [E%Z.ltb_lt|E%Z.ltb_lt]; lia.
  - apply orb_false_iff in E as [E1%Z.ltb_ge E2%Z.ltb_ge].
    rewrite (GetAncestor_loop_ok _ p b) by (done || lia).
    destruct (ancestor_at_some p b h Hp ltac:(lia)) as (q & c & -> & _). done.
Qed.
End Tree.

(** *** Common ancestors *)

Section Common.
Context (m : block_map) (Hwf : tree_wf m).

Lemma ancestor_refl p : ancestor m p p.
Proof. by exists O. Qed.

Lemma ancestor_trans a b c : ancestor m a b -> ancestor m b c -> ancestor m a c.
Proof. intros [i Hi] [j Hj]. exists (j + i)%nat. by rewrite back_add, Hj. Qed.

Lemma ancestor_height a p b : m !! p = Some b -> ancestor m a p ->
  exists c, m !! a = Some c /\ 0 <= nHeight c <= nHeight b /\ ancestor_at m p (nHeight c) = Some a.
Proof.
  intros Hp [n Hn]. destruct (back_height m Hwf n p b a Hp Hn) as (c & Hc & Hh).
  destruct (Hwf a c Hc) as [Hnn _ _ _]. exists c. split_and!; [done|done|lia|].
  unfold ancestor_at. rewrite (deref_eq nHeight 0 m p b Hp). cbv zeta.
  rewrite (proj2 (Z.leb_le 0 _)), (proj2 (Z.leb_le _ (nHeight b))) by lia. cbn [andb].
  by replace (Z.to_nat (nHeight b - nHeight c)) with n by lia.
Qed.

Lemma ancestor_at_ancestor p h a : ancestor_at m p h = Some a -> ancestor m a p.
Proof. unfold ancestor_at. cbv zeta. destruct (_ && _); [|done]. intros E. by eexists. Qed.

(** Below the height of an ancestor [q] of [p], [p] and [q] have the same ancestors. *)
Lemma ancestor_below p b q h a c : m !! p = Some b -> ancestor_at m p h = Some q ->
  m !! a = Some c -> nHeight c <= h -> ancestor m a p <-> ancestor m a q.
Proof.
  intros Hp Hq Ha Hh. split.
  - intros Hap. destruct (ancestor_height a p b Hp Hap) as (c' & Hc' & Hr & E).
    assert (c' = c) as -> by congruence.
    rewrite (ancestor_at_step m Hwf p b q h Hp Hq _ Hh) in E. by eapply ancestor_at_ancestor.
  - intros Haq. eapply ancestor_trans; [done|]. by eapply ancestor_at_ancestor.
Qed.

Lemma ancestor_inv a p b : m !! p = Some b -> ancestor m a p ->
  a = p \/ exists q, pprev b = Some q /\ ancestor m a q.
Proof.
  intros Hp [[|n] Hn]; cbn [back] in Hn; [left; congruence|right].
  rewrite (deref_eq pprev None m p b Hp) in Hn. destruct (pprev b) as [q|]; [|done]. exists q. split; [done|by exists n].
Qed.

Lemma ancestor_parent q p b : m !! p = Some b -> pprev b = Some q -> ancestor m q p.
Proof. intros Hp Hq. exists 1%nat. cbn [back]. by rewrite (deref_eq pprev None m p b Hp), Hq. Qed.

Definition is_common (r : option block_ptr) (a b : block_ptr) : Prop :=
  forall c, ancestor m c a /\ ancestor m c b <-> exists r', r = Some r' /\ ancestor m c r'.

Lemma lca_loop_ok fuel a b ba bb : m !! a = Some ba -> m !! b = Some bb -> nHeight ba = nHeight bb ->
  nHeight ba < Z.of_nat fuel -> exists r, lca_loop fuel m (Some a) (Some b) = Some r /\ is_common r a b.
Proof.
  revert a b ba bb. induction fuel as [|fuel IH]; intros a b ba bb Ha Hb Hh Hf.
  { destruct (Hwf a ba Ha). lia. }
  cbn [lca_loop]. destruct (decide (a = b)) as [->|Hne].
  { rewrite bool_decide_true by done. cbn [negb andb]. exists (Some b). split; [done|]. intros c.
    split; [intros []; by exists b|by intros (? & [= <-] & ?)]. }
  rewrite (bool_decide_false (Some a = Some b)), !bool_decide_true by (congruence || done). cbn [negb andb prev_of].
  rewrite (deref_eq pprev None m a ba Ha), (deref_eq pprev None m b bb Hb).
  destruct (Hwf a ba Ha) as [_ Hra Hpa _], (Hwf b bb Hb) as [_ Hrb Hpb _].
  assert (Hdown : forall c, ancestor m c a /\ ancestor m c b <->
    exists pa pb, pprev ba = Some pa /\ pprev bb = Some pb /\ ancestor m c pa /\ ancestor m c pb).
  { intros c. split.
    - intros [Hca Hcb]. destruct (ancestor_height c a ba Ha Hca) as (bc & Hc & Hhc & Ea).
      destruct (ancestor_height c b bb Hb Hcb) as (bc' & Hc' & _ & Eb). assert (bc' = bc) as -> by congruence.
      assert (c <> a /\ c <> b) as [Hna Hnb].
      { split; intros ->; apply Hne.
        - assert (bc = ba) as -> by congruence. rewrite Hh, (ancestor_at_self m Hwf b bb) in Eb by done. congruence.
        - assert (bc = bb) as -> by congruence. rewrite <- Hh, (ancestor_at_self m Hwf a ba) in Ea by done. congruence. }
      destruct (ancestor_inv c a ba Ha Hca) as [|(pa & ? & ?)]; [done|].
      destruct (ancestor_inv c b bb Hb Hcb) as [|(pb & ? & ?)]; [done|]. by exists pa, pb.
    - intros (pa & pb & Epa & Epb & Hca & Hcb).
      split; [by apply (ancestor_trans c pa), (ancestor_parent pa a ba)|by apply (ancestor_trans c pb), (ancestor_parent pb b bb)]. }
  destruct (pprev ba) as [pa|] eqn:Epa, (pprev bb) as [pb|] eqn:Epb.
  - destruct (Hpa pa eq_refl) as (ca & Hca & Hha), (Hpb pb eq_refl) as (cb & Hcb & Hhb).
    destruct (IH pa pb ca cb Hca Hcb ltac:(lia) ltac:(lia)) as (r & E & Hr). exists r. split; [done|].
    intros c. rewrite Hdown, <- (Hr c). split; [by intros (? & ? & [= <-] & [= <-] & ?)|intros []; by exists pa, pb].
  - destruct (Hrb eq_refl), (Hpa pa eq_refl) as (ca & Hca & Hha). destruct (Hwf pa ca Hca). lia.
  - destruct (Hra eq_refl), (Hpb pb eq_refl) as (cb & Hcb & Hhb). destruct (Hwf pb cb Hcb). lia.
  - exists None. split; [by destruct fuel|]. intros c. rewrite Hdown. split; [by intros (? & ? & ? & _)|by intros (? & ? & _)].
Qed.

Lemma is_common_sym r a b : is_common r a b -> is_common r b a.
Proof. intros H c. rewrite <- (H c). tauto. Qed.

Lemma is_common_lift r a a' b ba bb : m !! a = Some ba -> m !! b = Some bb ->
  ancestor_at m a (nHeight bb) = Some a' -> is_common r a' b -> is_common r a b.
Proof.
  intros Ha Hb Ha' Hr c. rewrite <- (Hr c).
  split; intros [H1 H2]; (split; [|done]);
    destruct (ancestor_height c b bb Hb H2) as (bc & Hc & Hh & _);
    apply (ancestor_below a ba a' (nHeight bb) c bc); try done; lia.
Qed.

Lemma LastCommonAncestor_ok a b ba bb : m !! a = Some ba -> m !! b = Some bb ->
  exists r, LastCommonAncestor m (Some a) (Some b) = Some r /\ is_common r a b.
Proof.
  intros Ha Hb. unfold LastCommonAncestor. rewrite (deref_eq nHeight 0 m a ba Ha), (deref_eq nHeight 0 m b bb Hb).
  destruct (Hwf a ba Ha) as [Hna _ _ _], (Hwf b bb Hb) as [Hnb _ _ _]. cbv zeta.
  destruct (Z.ltb_spec (nHeight bb) (nHeight ba)), (Z.ltb_spec (nHeight ba) (nHeight bb)); try lia.
  - rewrite (GetAncestor_ok m Hwf a ba) by done.
    destruct (ancestor_at_some m Hwf a ba (nHeight bb) Ha ltac:(lia)) as (a' & ca & E & Hca & Hh). rewrite E.
    destruct (lca_loop_ok (S (Z.to_nat (Z.min (nHeight ba) (nHeight bb)))) a' b ca bb Hca Hb Hh ltac:(lia)) as (r & Er & Hr).
    exists r. split; [done|]. by eapply is_common_lift.
  - rewrite (GetAncestor_ok m Hwf b bb) by done.
    destruct (ancestor_at_some m Hwf b bb (nHeight ba) Hb ltac:(lia)) as (b' & cb & E & Hcb & Hh). rewrite E.
    destruct (lca_loop_ok (S (Z.to_nat (Z.min (nHeight ba) (nHeight bb)))) a b' ba cb Ha Hcb ltac:(lia) ltac:(lia)) as (r & Er & Hr).
    exists r. split; [done|]. apply is_common_sym. eapply is_common_lift; [done..|]. by apply is_common_sym.
  - apply (lca_loop_ok _ a b ba bb); [done..|lia|lia].
Qed.
End Common.

(** ** The median *)

Definition median (l : list Z) : Z := let s := merge_sort Z.le l in nth (length s / 2) s 0.

Definition count_ge (x : Z) (l : list Z) : nat := length (filter (fun t => x <= t) l).

Lemma count_ge_cons x y l : count_ge x (y :: l) = ((if decide (x <= y)%Z then 1 else 0) + count_ge x l)%nat.
Proof. unfold count_ge. rewrite filter_cons. by destruct (decide (x <= y)). Qed.

Lemma count_ge_app x l k : count_ge x (l ++ k) = (count_ge x l + count_ge x k)%nat.
Proof. unfold count_ge. by rewrite filter_app, length_app. Qed.

Lemma count_ge_le x l : (count_ge x l <= length l)%nat.
Proof. apply length_filter. Qed.

Lemma count_ge_perm x l k : l ≡ₚ k -> count_ge x l = count_ge x k.
Proof. intros H. unfold count_ge. by rewrite H. Qed.

Lemma count_ge_all x l : Forall (Z.le x) l -> count_ge x l = length l.
Proof.
  induction 1 as [|y l Hy Hl IH]; [done|]. rewrite count_ge_cons, decide_True by done. cbn [length]. lia.
Qed.

Lemma sorted_nth x s i : StronglySorted Z.le s -> (i < length s)%nat ->
  x <= nth i s 0 <-> (length s - i <= count_ge x s)%nat.
Proof.
  intros Hs. revert i. induction Hs as [|y s Hs IH Hy]; intros i Hi; [cbn in Hi; lia|].
  rewrite count_ge_cons. pose proof (count_ge_le x s). cbn [length] in *. destruct (decide (x <= y)) as [Hxy|Hxy].
  - assert (Forall (Z.le x) s) as Hall by (eapply Forall_impl; [exact Hy|intros; cbn in *; lia]).
    rewrite count_ge_all by done. split; [lia|intros _]. destruct i as [|i]; [done|]. cbn [nth].
    apply (proj1 (Forall_nth (Z.le x) 0 s) Hall). lia.
  - destruct i as [|i]; cbn [nth]; [split; [lia|lia]|]. rewrite (IH i) by lia. lia.
Qed.

(** At least half of the elements are no smaller than the median, and the median is the
    largest bound with that property. *)
Lemma median_ge x l : l <> [] -> x <= median l <-> (length l - length l / 2 <= count_ge x l)%nat.
Proof.
  intros Hl. unfold median. cbv zeta. pose proof (merge_sort_Permutation Z.le l) as Hp.
  assert (Hlen : length (merge_sort Z.le l) = length l) by by rewrite Hp.
  assert (0 < length l)%nat by (destruct l; cbn; [done|lia]).
  rewrite sorted_nth.
  - by rewrite (count_ge_perm _ _ _ Hp), Hlen.
  - apply (StronglySorted_merge_sort Z.le).
  - rewrite Hlen. apply Nat.div_lt; lia.
Qed.

(** The times of the last [n] blocks, the newest first. *)
Fixpoint times (n : nat) (m : block_map) (p : option block_ptr) : list Z :=
  match n, p with
  | S n, Some p => match m !! p with Some b => Idx.nTime b :: times n m (pprev b) | None => [] end
  | _, _ => []
  end.

Lemma past_times_eq n m p acc : past_times n m p acc = rev (times n m p) ++ acc.
Proof.
  revert p acc. induction n as [|n IH]; intros p acc; [by destruct p|]. destruct p as [p|]; [|done].
  cbn [past_times times]. destruct (m !! p) as [b|]; [|done]. rewrite IH. cbn [rev]. by rewrite <- app_assoc.
Qed.

Lemma median_perm l k : l ≡ₚ k -> l <> [] -> median l = median k.
Proof.
  intros H Hl. assert (Hk : k <> []) by (intros ->; by apply Permutation_nil_r in H).
  assert (forall x, x <= median l <-> x <= median k) as E.
  { intros x. rewrite !median_ge by done. by rewrite (count_ge_perm x _ _ H), H. }
  pose proof (proj1 (E (median l)) ltac:(lia)). pose proof (proj2 (E (median k)) ltac:(lia)). lia.
Qed.

Lemma times_nonempty n m p b : m !! p = Some b -> times (S n) m (Some p) <> [].
Proof. intros Hp. cbn [times]. by rewrite Hp. Qed.

Lemma mtp_median m p b : m !! p = Some b -> GetMedianTimePast m p = median (times MEDIAN_TIME_SPAN m (Some p)).
Proof.
  intros Hp. unfold GetMedianTimePast. rewrite past_times_eq, app_nil_r. fold (median (rev (times MEDIAN_TIME_SPAN m (Some p)))).
  pose proof (times_nonempty 10 m p b Hp).
  symmetry. apply median_perm; [apply Permutation_rev|done].
Qed.

(** A window one longer adds at most one, the oldest, time. *)
Lemma times_snoc n m p : exists l, times (S n) m p = times n m p ++ l /\
  (length l = 0 \/ length l = 1 /\ length (times n m p) = n)%nat.
Proof.
  revert p. induction n as [|n IH]; intros p.
  - destruct p as [p|]; [|by exists []; auto]. cbn. destruct (m !! p) as [b|]; eexists; (split; [done|]); cbn; auto.
  - destruct p as [p|]; [|by exists []; auto]. cbn [times]. destruct (m !! p) as [b|]; [|by exists []; auto].
    destruct (IH (pprev b)) as (l & E & Hl). cbn [times] in E. exists l. rewrite E. split; [done|]. cbn [length]. lia.
Qed.

(** A block later than the median of its parent has a median no smaller than it. *)
Lemma mtp_mono m p b q c : m !! p = Some b -> pprev b = Some q -> m !! q = Some c ->
  GetMedianTimePast m q < Idx.nTime b -> GetMedianTimePast m q <= GetMedianTimePast m p.
Proof.
  intros Hp Hpq Hq Ht. rewrite (mtp_median m p b Hp). rewrite (mtp_median m q c Hq) in *.
  apply median_ge; [by apply (times_nonempty 10 m p b)|].
  set (x := median (times MEDIAN_TIME_SPAN m (Some q))) in *.
  assert (Hx : (length (times MEDIAN_TIME_SPAN m (Some q)) - length (times MEDIAN_TIME_SPAN m (Some q)) / 2
                <= count_ge x (times MEDIAN_TIME_SPAN m (Some q)))%nat).
  { apply median_ge; [by apply (times_nonempty 10 m q c)|lia]. }
  destruct (times_snoc 10 m (Some q)) as (l & E & Hl).
  assert (En : times MEDIAN_TIME_SPAN m (Some p) = Idx.nTime b :: times 10 m (Some q)).
  { unfold MEDIAN_TIME_SPAN. cbn [times]. by rewrite Hp, Hpq. }
  rewrite En. unfold MEDIAN_TIME_SPAN in Hx. rewrite E in Hx. rewrite length_app, count_ge_app in Hx.
  pose proof (count_ge_le x l). set (w := times 10 m (Some q)) in *. rewrite count_ge_cons, decide_True by lia. cbn [length].
  pose proof (Nat.div_mod_eq (S (length w)) 2) as E1. pose proof (Nat.mod_upper_bound (S (length w)) 2).
  pose proof (Nat.div_mod_eq (length w + length l) 2). pose proof (Nat.mod_upper_bound (length w + length l) 2). lia.
Qed.

(** The rule that validation enforces on every block with a parent. *)
Definition mtp_rule (m : block_map) : Prop :=
  forall r c pr, m !! r = Some c -> pprev c = Some pr -> GetMedianTimePast m pr < Idx.nTime c.

Lemma mtp_ancestor m : tree_wf m -> mtp_rule m -> forall q p b, m !! p = Some b -> ancestor m q p ->
  GetMedianTimePast m q <= GetMedianTimePast m p.
Proof.
  intros Hwf Hr q p b Hp [n Hn]. revert p b Hp Hn. induction n as [|n IH]; intros p b Hp Hn; cbn [back] in Hn.
  - simplify_eq. lia.
  - rewrite (deref_eq pprev None m p b Hp) in Hn. destruct (pprev b) as [pr|] eqn:E; [|done].
    destruct (ew_parent _ _ (Hwf p b Hp) pr E) as (c & Hc & _).
    transitivity (GetMedianTimePast m pr); [by apply (IH pr c)|].
    eapply mtp_mono; [done..|]. by eapply Hr.
Qed.

Lemma mtp_descendant m : tree_wf m -> mtp_rule m -> forall q p b, m !! p = Some b -> ancestor m q p -> q <> p ->
  GetMedianTimePast m q < Idx.nTime b.
Proof.
  intros Hwf Hr q p b Hp Hq Hne. destruct (ancestor_inv m q p b Hp Hq) as [|(pr & E & Ha)]; [done|].
  destruct (ew_parent _ _ (Hwf p b Hp) pr E) as (c & Hc & _).
  eapply Z.le_lt_trans; [by apply (mtp_ancestor m Hwf Hr q pr c)|]. by eapply Hr.
Qed.

(** ** Properties *)

(** on a well-formed index [GetAncestor] with its skip pointers fails no assertion,
    terminates within [nHeight] iterations, and returns the block that walking [pprev] down to the
    requested height reaches, or null for a height that is negative or above the block. *)
Theorem get_ancestor_exact (m : block_map) (p : block_ptr) (b : CBlockIndex) (height : Z) :
  tree_wf m -> m !! p = Some b ->
  GetAncestor m p height =
    Some (if (0 <=? height) && (height <=? nHeight b) then back m (Z.to_nat (nHeight b - height)) p else None).
Proof.
  intros Hwf Hp. rewrite (GetAncestor_ok m Hwf p b height Hp). unfold ancestor_at.
  by rewrite (deref_eq nHeight 0 m p b Hp).
Qed.

(** on a well-formed index [LastCommonAncestor] terminates within the smaller height plus
    one iterations and fails no assertion; the blocks that are ancestors of both arguments are
    exactly the ancestors of its result (none when it returns null). *)
Theorem last_common_ancestor_exact (m : block_map) (a b : block_ptr) :
  tree_wf m -> is_Some (m !! a) -> is_Some (m !! b) ->
  exists r, LastCommonAncestor m (Some a) (Some b) = Some r /\
    forall c, ancestor m c a /\ ancestor m c b <-> exists r', r = Some r' /\ ancestor m c r'.
Proof. intros Hwf [ba Ha] [bb Hb]. by apply (LastCommonAncestor_ok m Hwf a b ba bb). Qed.

(** on an index whose blocks are each later than the median time past of their
    parent, the median time past never decreases along a chain, and every proper descendant of a
    block is later than that block's median time past. *)
Theorem median_time_past_monotone (m : block_map) (p q : block_ptr) (b : CBlockIndex) :
  tree_wf m -> mtp_rule m -> m !! p = Some b -> ancestor m q p ->
  GetMedianTimePast m q <= GetMedianTimePast m p /\ (q <> p -> GetMedianTimePast m q < Idx.nTime b).
Proof.
  intros Hwf Hr Hp Hq. split; [by apply (mtp_ancestor m Hwf Hr q p b)|]. intros Hne.
  by apply (mtp_descendant m Hwf Hr q p b).
Qed.

(** *** A small index: a chain 0-1-2-3 with a fork 4 above 1 *)

Definition sample_entry (pp ps : option block_ptr) (h t : Z) : CBlockIndex :=
  mkIndex 2 pp ps h (h + 1) 1 (Blob.SetNull 20) t 0x1f06a000 0 (Blob.SetNull 32) 0 (if h =? 3 then 300 else t).
Definition sample : block_map :=
  <[[0] := sample_entry None None 0 100]> (<[[1] := sample_entry (Some [0]) (Some [0]) 1 150]>
  (<[[2] := sample_entry (Some [1]) (Some [0]) 2 300]> (<[[3] := sample_entry (Some [2]) (Some [1]) 3 200]>
  (<[[4] := sample_entry (Some [1]) (Some [0]) 2 170]> ∅)))).

(** Case analysis on a lookup in a literal map. *)
Ltac lookup_cases H :=
  repeat (apply lookup_insert_Some in H as [[<- <-]|[_ H]]); try (by rewrite lookup_empty in H).

Lemma sample_wf : tree_wf sample.
Proof.
  intros p b Hp. unfold sample in Hp.
  lookup_cases Hp; split; cbn; try done; intros; simplify_eq;
    try (eexists; split; [reflexivity|done]); reflexivity.
Qed.

Lemma get_ancestor_exact_witness :
  GetAncestor sample [3] 1 = Some (if (0 <=? 1) && (1 <=? 3) then back sample (Z.to_nat (3 - 1)) [3] else None).
Proof.
  apply (get_ancestor_exact sample [3] (sample_entry (Some [2]) (Some [1]) 3 200) 1); [apply sample_wf|reflexivity].
Defined.

Lemma last_common_ancestor_exact_witness :
  LastCommonAncestor sample (Some [3]) (Some [4]) = Some (Some [1]) /\
  exists r, LastCommonAncestor sample (Some [3]) (Some [4]) = Some r /\
    forall c, ancestor sample c [3] /\ ancestor sample c [4] <-> exists r', r = Some r' /\ ancestor sample c r'.
Proof.
  split; [vm_compute; reflexivity|].
  apply (last_common_ancestor_exact sample [3] [4]); [apply sample_wf|by eexists..].
Defined.

Lemma sample_mtp : mtp_rule sample.
Proof.
  intros r c pr Hr Hpr. unfold sample in Hr. lookup_cases Hr; cbn in Hpr; simplify_eq; vm_compute; done.
Qed.

Lemma median_time_past_monotone_witness :
  GetMedianTimePast sample [0] <= GetMedianTimePast sample [3] /\
  ([0] <> [3] -> GetMedianTimePast sample [0] < 200).
Proof.
  apply (median_time_past_monotone sample [3] [0] (sample_entry (Some [2]) (Some [1]) 3 200));
    [apply sample_wf|apply sample_mtp|reflexivity|by exists 3%nat].
Defined.
