(* ===== verification/Chain.v ===== *)
(** * Chain: the active chain [CChain] of [chain/chain.hpp/.cpp]

    The vector [vChain] of block pointers indexed by height, [SetTip] that
    rewrites it for a new tip, fork and time queries, and block locators. *)
From S2P Require Import Prelude Arith Bytes Compact Sha256 Block BlockIndex.
#[local] Open Scope Z_scope.
Import Idx (CBlockIndex, mkIndex, nHeight, pprev, pskip, nChainWork, nStatus, nTimeMax, nTimeReceived).

Module CChain.

Abbreviation vChain := (list (option block_ptr)).

Definition Genesis (v : vChain) : option block_ptr :=
  if (0 <? length v)%nat then nth 0 v None else None.
Definition Tip (v : vChain) : option block_ptr :=
  if (0 <? length v)%nat then nth (length v - 1) v None else None.
Definition at_height (v : vChain) (nHeight : Z) : option block_ptr :=
  if (nHeight <? 0) || (Z.of_nat (length v) <=? nHeight) then None else nth (Z.to_nat nHeight) v None.

Definition Contains (m : block_map) (v : vChain) (pindex : option block_ptr) : bool :=
  match pindex with
  | None => false
  | Some p =>
      let h := deref nHeight 0 m p in
      if (h <? 0) || (Z.of_nat (length v) <=? h) then false
      else bool_decide (nth (Z.to_nat h) v None = Some p)
  end.

Definition Next (m : block_map) (v : vChain) (pindex : option block_ptr) : option block_ptr :=
  match pindex with
  | Some p => if Contains m v (Some p) then at_height v (deref nHeight 0 m p + 1) else None
  | None => None
  end.

Definition Height (v : vChain) : Z := Z.of_nat (length v) - 1.
Definition Clear : vChain := [].

(** [vector::resize]: new elements are null. *)
Definition resize (n : nat) (v : vChain) : vChain := take n v ++ replicate (n - length v) None.

(** The backward walk of [SetTip]; [None] is a dangling pointer. *)
Fixpoint SetTip_loop (fuel : nat) (m : block_map) (v : vChain) (pindex : option block_ptr) : option vChain :=
  match pindex with
  | None => Some v
  | Some p =>
      match fuel, m !! p with
      | S fuel, Some b =>
          if nHeight b <? 0 then Some v
          else
            let idx := Z.to_nat (nHeight b) in
            let v := if (length v <=? idx)%nat then resize (idx + 1) v else v in
            if bool_decide (nth idx v None = Some p) then Some v
            else SetTip_loop fuel m (<[idx := Some p]> v) (pprev b)
      | _, _ => None
      end
  end.

Definition SetTip (m : block_map) (v : vChain) (block : block_ptr) : option vChain :=
  match m !! block with
  | None => None
  | Some b =>
      if nHeight b <? 0 then Some v
      else SetTip_loop (S (Z.to_nat (nHeight b))) m (resize (Z.to_nat (nHeight b) + 1) v) (Some block)
  end.

(** ** Locators *)

(** The loop of [LocatorEntries] with the number of entries so far. *)
Fixpoint Locator_loop (fuel : nat) (m : block_map) (index : option block_ptr) (step : Z) (have : list uint256)
  : option (list uint256) :=
  match index with
  | None => Some have
  | Some p =>
      match fuel, m !! p with
      | S fuel, Some b =>
          let have := have ++ [p] in
          if nHeight b =? 0 then Some have
          else
            let height := Z.max (nHeight b - step) 0 in
            match GetAncestor m p height with
            | None => None
            | Some index => Locator_loop fuel m index (if (10 <? length have)%nat then step * 2 else step) have
            end
      | _, _ => None
      end
  end.

Definition LocatorEntries (m : block_map) (index : option block_ptr) : option (list uint256) :=
  match index with
  | None => Some []
  | Some p => Locator_loop (S (Z.to_nat (deref nHeight 0 m p))) m (Some p) 1 []
  end.

Definition GetLocator_of (m : block_map) (index : option block_ptr) : option CBlockLocator :=
  option_map mkLocator (LocatorEntries m index).
Definition GetLocator (m : block_map) (v : vChain) : option CBlockLocator := GetLocator_of m (Tip v).

(** ** Queries *)

Fixpoint FindFork_loop (fuel : nat) (m : block_map) (v : vChain) (pindex : option block_ptr)
  : option (option block_ptr) :=
  match pindex with
  | None => Some None
  | Some p =>
      if Contains m v (Some p) then Some (Some p)
      else match fuel with O => None | S fuel => FindFork_loop fuel m v (deref pprev None m p) end
  end.

Definition FindFork (m : block_map) (v : vChain) (pindex : option block_ptr) : option (option block_ptr) :=
  match pindex with
  | None => Some None
  | Some p =>
      let h := deref nHeight 0 m p in
      let start := if Height v <? h then GetAncestor m p (Height v) else Some (Some p) in
      match start with
      | None => None
      | Some q => FindFork_loop (S (Z.to_nat (Z.min h (Height v)))) m v q
      end
  end.

(** [std::lower_bound]: the halving search for the first element on which [less] is false. *)
Fixpoint lower_bound (fuel : nat) (less : option block_ptr -> bool) (v : vChain) (first count : nat) : nat :=
  match fuel, count with
  | S fuel, S _ =>
      let step := (count / 2)%nat in
      if less (nth (first + step) v None) then lower_bound fuel less v (first + step + 1) (count - (step + 1))
      else lower_bound fuel less v first step
  | _, _ => first
  end.

Definition earlier (m : block_map) (nTime height : Z) (pBlock : option block_ptr) : bool :=
  match pBlock with
  | Some p => (deref nTimeMax 0 m p <? nTime) || (deref nHeight 0 m p <? height)
  | None => false
  end.

Definition FindEarliestAtLeast (m : block_map) (v : vChain) (nTime height : Z) : option block_ptr :=
  nth (lower_bound (length v) (earlier m nTime height) v 0 (length v)) v None.

End CChain.

(** ** The chain below a tip *)

(** The vector of the ancestors of [p], one per height. *)
Definition path (m : block_map) (p : block_ptr) : list (option block_ptr) :=
  (fun i => ancestor_at m p (Z.of_nat i)) <$> seq 0 (S (Z.to_nat (deref nHeight 0 m p))).

(** [vChain] is empty or holds the ancestors of a block of the index. *)
Definition chain_wf (m : block_map) (v : list (option block_ptr)) : Prop :=
  v = [] \/ exists t b, m !! t = Some b /\ v = path m t.

Section Path.
Context (m : block_map) (Hwf : tree_wf m).

Lemma path_lookup p b i : m !! p = Some b -> (i <= Z.to_nat (nHeight b))%nat ->
  path m p !! i = Some (ancestor_at m p (Z.of_nat i)).
Proof.
  intros Hp Hi. unfold path. rewrite list_lookup_fmap, (deref_eq nHeight 0 m p b Hp).
  by rewrite lookup_seq_lt by lia.
Qed.

Lemma path_length p b : m !! p = Some b -> length (path m p) = S (Z.to_nat (nHeight b)).
Proof. intros Hp. unfold path. by rewrite length_fmap, length_seq, (deref_eq nHeight 0 m p b Hp). Qed.

(** Entries below a filled one are its ancestors. *)
Definition coherent (v : list (option block_ptr)) (k : nat) : Prop :=
  forall i q, (i <= k)%nat -> v !! i = Some (Some q) ->
    forall j, (j <= i)%nat -> v !! j = Some (ancestor_at m q (Z.of_nat j)).

Lemma coherent_path t b k : m !! t = Some b -> coherent (path m t) k.
Proof.
  intros Ht i q _ Hi j Hj.
  assert (i < length (path m t))%nat as Hlt by by apply lookup_lt_Some in Hi.
  rewrite (path_length t b Ht) in Hlt. rewrite (path_lookup t b i Ht ltac:(lia)) in Hi.
  rewrite (path_lookup t b j Ht ltac:(lia)). f_equal. injection Hi as Hi.
  by apply (ancestor_at_step m Hwf t b q (Z.of_nat i) Ht Hi); lia.
Qed.

Lemma resize_lookup n v i : CChain.resize n v !! i =
  if decide (i < n)%nat then (if decide (i < length v)%nat then v !! i else Some None) else None.
Proof.
  unfold CChain.resize. rewrite lookup_app, length_take. destruct (decide (i < n)%nat).
  - destruct (decide (i < length v)%nat) as [Hl|Hl].
    + rewrite lookup_take_lt by lia. by destruct (lookup_lt_is_Some_2 v i Hl) as [x ->].
    + rewrite lookup_take_lt by lia. rewrite (proj2 (lookup_ge_None v i)) by lia.
      apply lookup_replicate. split; [done|lia].
  - rewrite lookup_take_ge by lia. apply lookup_ge_None. rewrite length_replicate. lia.
Qed.

Lemma resize_length n v : length (CChain.resize n v) = n.
Proof. unfold CChain.resize. rewrite length_app, length_take, length_replicate. lia. Qed.

Lemma coherent_resize n v k : coherent v k -> coherent (CChain.resize n v) k.
Proof.
  intros Hc i q Hi. rewrite resize_lookup. destruct (decide _); [|done]. destruct (decide _); [|done].
  intros Hq j Hj. rewrite resize_lookup, !decide_True by lia. by apply (Hc i q).
Qed.

Lemma chain_coherent v k : chain_wf m v -> coherent v k.
Proof.
  intros [->|(t & b & Ht & ->)]; [|by eapply coherent_path]. intros i q _ Hq. by rewrite lookup_nil in Hq.
Qed.

Lemma nth_of_lookup {A} (v : list A) i d x : v !! i = Some x -> nth i v d = x.
Proof. intros H. by rewrite (nth_lookup v i d), H. Qed.

(** The walk replaces the entries up to the block's height and stops where the old chain
    already agrees. *)
Lemma SetTip_loop_ok fuel v p b : m !! p = Some b -> (Z.to_nat (nHeight b) < length v)%nat ->
  coherent v (Z.to_nat (nHeight b)) -> (Z.to_nat (nHeight b) < fuel)%nat ->
  exists v', CChain.SetTip_loop fuel m v (Some p) = Some v' /\ length v' = length v /\
    forall j, v' !! j = if decide (j <= Z.to_nat (nHeight b))%nat then Some (ancestor_at m p (Z.of_nat j)) else v !! j.
Proof.
  revert v p b. induction fuel as [|fuel IH]; intros v p b Hp Hlen Hcoh Hf; [lia|].
  cbn [CChain.SetTip_loop]. rewrite Hp. destruct (Hwf p b Hp) as [Hh Hroot Hpar _].
  rewrite (proj2 (Z.ltb_ge _ _) Hh). set (k := Z.to_nat (nHeight b)) in *.
  rewrite (proj2 (Nat.leb_gt _ _) Hlen). cbv zeta.
  assert (Hself : ancestor_at m p (Z.of_nat k) = Some p).
  { subst k. rewrite Z2Nat.id by lia. by apply (ancestor_at_self m Hwf). }
  destruct (lookup_lt_is_Some_2 v k Hlen) as [x Hx].
  rewrite (nth_of_lookup v k None x Hx). destruct (decide (x = Some p)) as [->|Hne].
  - rewrite bool_decide_true by done. exists v. split_and!; [done..|]. intros j.
    destruct (decide _); [|done]. by apply (Hcoh k p).
  - rewrite bool_decide_false by done. destruct (pprev b) as [q|] eqn:Eq.
    + destruct (Hpar q eq_refl) as (c & Hc & Hhc). destruct (Hwf q c Hc) as [Hhq _ _ _].
      destruct (IH (<[k := Some p]> v) q c Hc) as (v' & E & Hl & Hv').
      * rewrite length_insert. lia.
      * intros i r Hi. rewrite list_lookup_insert_ne by lia. intros Hr j Hj.
        rewrite list_lookup_insert_ne by lia. apply (Hcoh i r); [lia|done..].
      * lia.
      * exists v'. split_and!; [done|by rewrite Hl, length_insert|]. intros j. rewrite Hv'.
        destruct (decide (j <= Z.to_nat (nHeight c))%nat), (decide (j <= k)%nat); try lia.
        -- f_equal. symmetry. apply (ancestor_at_parent m Hwf p b q); [done..|lia].
        -- assert (j = k) as -> by lia. rewrite list_lookup_insert_eq by done. by rewrite Hself.
        -- by rewrite list_lookup_insert_ne by lia.
    + destruct (Hroot eq_refl) as [Hh0 _]. exists (<[k := Some p]> v).
      split; [by destruct fuel|]. split; [by rewrite length_insert|]. intros j.
      destruct (decide (j <= k)%nat) as [Hj|Hj].
      * assert (j = k) as -> by lia. rewrite list_lookup_insert_eq by done. by rewrite Hself.
      * by rewrite list_lookup_insert_ne by lia.
Qed.

Lemma SetTip_ok v p b : chain_wf m v -> m !! p = Some b -> CChain.SetTip m v p = Some (path m p).
Proof.
  intros Hv Hp. unfold CChain.SetTip. rewrite Hp. destruct (Hwf p b Hp) as [Hh _ _ _].
  rewrite (proj2 (Z.ltb_ge _ _) Hh).
  destruct (SetTip_loop_ok (S (Z.to_nat (nHeight b))) (CChain.resize (Z.to_nat (nHeight b) + 1) v) p b Hp)
    as (v' & E & Hl & Hv').
  - rewrite resize_length. lia.
  - by apply coherent_resize, chain_coherent.
  - lia.
  - rewrite E. f_equal. apply list_eq. intros j. rewrite Hv'.
    destruct (decide _) as [Hj|Hj]; [by rewrite (path_lookup p b)|].
    rewrite resize_lookup, decide_False by lia. symmetry. apply lookup_ge_None. rewrite (path_length p b Hp). lia.
Qed.
End Path.

(** ** Fork point *)

Section Fork.
Context (m : block_map) (Hwf : tree_wf m).

Lemma contains_path t bt q c : m !! t = Some bt -> m !! q = Some c ->
  CChain.Contains m (path m t) (Some q) = true <-> ancestor m q t.
Proof.
  intros Ht Hq. unfold CChain.Contains. rewrite (deref_eq nHeight 0 m q c Hq), (path_length m t bt Ht). cbv zeta.
  destruct (Hwf q c Hq) as [Hhq _ _ _], (Hwf t bt Ht) as [Hht _ _ _].
  rewrite (proj2 (Z.ltb_ge _ _) Hhq). cbn [orb].
  destruct (Z.leb_spec (Z.of_nat (S (Z.to_nat (nHeight bt)))) (nHeight c)) as [Hle|Hgt].
  - split; [done|]. intros Ha. destruct (ancestor_height m Hwf q t bt Ht Ha) as (c' & Hc' & ? & _).
    simplify_eq. lia.
  - rewrite bool_decide_eq_true.
    rewrite (nth_of_lookup _ _ _ (ancestor_at m t (nHeight c))).
    + split; [apply ancestor_at_ancestor|]. intros Ha.
      destruct (ancestor_height m Hwf q t bt Ht Ha) as (c' & Hc' & _ & E). by simplify_eq.
    + rewrite (path_lookup m t bt) by (done || lia). by rewrite Z2Nat.id.
Qed.

Lemma FindFork_loop_ok t bt fuel q c : m !! t = Some bt -> m !! q = Some c -> nHeight c < Z.of_nat fuel ->
  exists r, CChain.FindFork_loop fuel m (path m t) (Some q) = Some r /\ is_common m r q t.
Proof.
  intros Ht. revert q c. induction fuel as [|fuel IH]; intros q c Hq Hf; [destruct (Hwf q c Hq); lia|].
  cbn [CChain.FindFork_loop]. pose proof (contains_path t bt q c Ht Hq) as Hc.
  destruct (CChain.Contains m (path m t) (Some q)).
  - exists (Some q). split; [done|]. pose proof (proj1 Hc eq_refl) as Ha. intros x. split.
    + intros [Hx _]. by exists q.
    + intros (? & [= <-] & Hx). split; [done|]. by eapply ancestor_trans.
  - assert (Hn : ~ ancestor m q t) by (intros Ha; by apply Hc in Ha).
    rewrite (deref_eq pprev None m q c Hq). destruct (Hwf q c Hq) as [_ _ Hpar _].
    assert (Hx : forall x, ancestor m x q /\ ancestor m x t <->
      exists q', pprev c = Some q' /\ ancestor m x q' /\ ancestor m x t).
    { intros x. split.
      - intros [Hxq Hxt]. destruct (ancestor_inv m x q c Hq Hxq) as [->|(q' & ? & ?)]; [done|by exists q'].
      - intros (q' & Hq' & Hxq & Hxt). split; [|done]. apply (ancestor_trans m x q'); [done|]. by apply (ancestor_parent m q' q c). }
    destruct (pprev c) as [q'|] eqn:Eq.
    + destruct (Hpar q' eq_refl) as (c' & Hc' & Hh). destruct (IH q' c' Hc' ltac:(lia)) as (r & E & Hr).
      exists r. split; [done|]. intros x. rewrite Hx, <- (Hr x).
      split; [by intros (? & [= <-] & ?)|by intros; exists q'].
    + exists None. split; [by destruct fuel|]. intros x. rewrite Hx.
      split; [by intros (? & ? & _)|by intros (? & ? & _)].
Qed.

Lemma FindFork_ok t bt p b : m !! t = Some bt -> m !! p = Some b ->
  exists r, CChain.FindFork m (path m t) (Some p) = Some r /\ is_common m r p t.
Proof.
  intros Ht Hp. unfold CChain.FindFork. rewrite (deref_eq nHeight 0 m p b Hp). cbv zeta.
  destruct (Hwf t bt Ht) as [Hht _ _ _], (Hwf p b Hp) as [Hhp _ _ _].
  replace (CChain.Height (path m t)) with (nHeight bt) by (unfold CChain.Height; rewrite (path_length m t bt Ht); lia).
  destruct (Z.ltb_spec (nHeight bt) (nHeight b)).
  - rewrite (GetAncestor_ok m Hwf p b) by done.
    destruct (ancestor_at_some m Hwf p b (nHeight bt) Hp ltac:(lia)) as (q & c & E & Hq & Hh). rewrite E.
    destruct (FindFork_loop_ok t bt (S (Z.to_nat (Z.min (nHeight b) (nHeight bt)))) q c Ht Hq ltac:(lia)) as (r & Er & Hr).
    exists r. split; [done|]. by eapply (is_common_lift m Hwf).
  - by apply (FindFork_loop_ok t bt _ p b); [..|lia].
Qed.

Lemma is_common_unique r r' a b : is_Some (m !! a) -> is_common m r a b -> is_common m r' a b -> r = r'.
Proof.
  intros [ba Ha] H1 H2.
  assert (Hs : forall x y, is_common m (Some x) a b -> is_common m y a b -> y = Some x).
  { intros x y Hx Hy. destruct (proj2 (Hx x)) as [Hxa Hxb]; [exists x; split; [done|apply ancestor_refl]|].
    destruct (proj1 (Hy x) (conj Hxa Hxb)) as (z & -> & Hxz).
    destruct (proj2 (Hy z)) as [Hza Hzb]; [exists z; split; [done|apply ancestor_refl]|].
    destruct (proj1 (Hx z) (conj Hza Hzb)) as (? & [= <-] & Hzx).
    destruct (ancestor_height m Hwf x a ba Ha Hxa) as (bx & Hbx & _ & Ex).
    destruct (ancestor_height m Hwf z a ba Ha Hza) as (bz & Hbz & _ & Ez).
    destruct (ancestor_height m Hwf x z bz Hbz Hxz) as (? & ? & ? & _).
    destruct (ancestor_height m Hwf z x bx Hbx Hzx) as (? & ? & ? & _). simplify_eq.
    assert (nHeight bx = nHeight bz) as Eh by lia. rewrite Eh in Ex. congruence. }
  destruct r as [x|]; [symmetry; by apply Hs|]. destruct r' as [y|]; [by apply Hs|done].
Qed.
End Fork.

(** ** Time search *)

Section PathBlocks.
Context (m : block_map) (Hwf : tree_wf m).

Lemma path_block t bt i : m !! t = Some bt -> (i < length (path m t))%nat ->
  exists q c, nth i (path m t) None = Some q /\ m !! q = Some c /\ nHeight c = Z.of_nat i /\
    ancestor_at m t (Z.of_nat i) = Some q.
Proof.
  intros Ht Hi. rewrite (path_length m t bt Ht) in Hi. destruct (Hwf t bt Ht) as [Hh _ _ _].
  destruct (ancestor_at_some m Hwf t bt (Z.of_nat i) Ht ltac:(lia)) as (q & c & E & Hq & Hc).
  exists q, c. split_and!; [|done..]. apply nth_of_lookup. rewrite (path_lookup m t bt) by (done || lia). by rewrite E.
Qed.

Lemma path_ancestor t bt q c : m !! t = Some bt -> m !! q = Some c -> ancestor m q t ->
  (Z.to_nat (nHeight c) < length (path m t))%nat /\ nth (Z.to_nat (nHeight c)) (path m t) None = Some q.
Proof.
  intros Ht Hq Ha. destruct (ancestor_height m Hwf q t bt Ht Ha) as (c' & Hc' & Hr & E). simplify_eq.
  rewrite (path_length m t bt Ht). split; [lia|]. apply nth_of_lookup.
  rewrite (path_lookup m t bt) by (done || lia). rewrite Z2Nat.id by lia. by rewrite E.
Qed.

Lemma path_tip t bt : m !! t = Some bt -> CChain.Tip (path m t) = Some t.
Proof.
  intros Ht. unfold CChain.Tip. rewrite (path_length m t bt Ht). cbn [Nat.ltb Nat.leb]. apply nth_of_lookup.
  destruct (Hwf t bt Ht) as [Hh _ _ _]. rewrite (path_lookup m t bt) by (done || lia). f_equal.
  replace (Z.of_nat _) with (nHeight bt) by lia. by apply (ancestor_at_self m Hwf).
Qed.

Lemma timemax_ancestor :
  (forall p b q c, m !! p = Some b -> pprev b = Some q -> m !! q = Some c -> nTimeMax c <= nTimeMax b) ->
  forall a p ba bp, m !! a = Some ba -> m !! p = Some bp -> ancestor m a p -> nTimeMax ba <= nTimeMax bp.
Proof.
  intros Hmono a p ba bp Ha Hp [n Hn]. revert p bp Hp Hn. induction n as [|n IH]; intros p bp Hp Hn; cbn [back] in Hn.
  - simplify_eq. lia.
  - rewrite (deref_eq pprev None m p bp Hp) in Hn. destruct (pprev bp) as [q|] eqn:Eq; [|done].
    destruct (ew_parent _ _ (Hwf p bp Hp) q Eq) as (c & Hc & _).
    transitivity (nTimeMax c); [by apply (IH q)|by apply (Hmono p bp q c)].
Qed.
End PathBlocks.

Section Search.
Context (less : option block_ptr -> bool) (v : list (option block_ptr)).
Hypothesis Hpart : forall i j, (i <= j < length v)%nat -> less (nth j v None) = true -> less (nth i v None) = true.

Lemma lower_bound_ok fuel first count : (count <= fuel)%nat -> (first + count <= length v)%nat ->
  let k := CChain.lower_bound fuel less v first count in
  (first <= k <= first + count)%nat /\
  (forall i, (first <= i < k)%nat -> less (nth i v None) = true) /\
  (forall i, (k <= i < first + count)%nat -> less (nth i v None) = false).
Proof.
  revert first count. induction fuel as [|fuel IH]; intros first count Hf Hl k; subst k.
  { assert (count = 0)%nat as -> by lia. cbn. repeat split; intros; lia. }
  destruct count as [|count']; [cbn; repeat split; intros; lia|].
  set (count := S count') in *. cbn [CChain.lower_bound]. fold count.
  assert (Hst : (count / 2 < count)%nat) by (apply Nat.div_lt; lia).
  change (match count with O => first | S _ => ?x end) with x. cbv zeta.
  set (step := (count / 2)%nat) in *. destruct (less (nth (first + step) v None)) eqn:E.
  - destruct (IH (first + step + 1)%nat (count - (step + 1))%nat ltac:(lia) ltac:(lia)) as (H1 & H2 & H3).
    split_and!; [lia|lia| |intros i Hi; apply H3; lia]. intros i Hi.
    destruct (le_lt_dec (first + step + 1) i); [apply H2; lia|]. apply (Hpart i (first + step)); [lia|done].
  - destruct (IH first step ltac:(lia) ltac:(lia)) as (H1 & H2 & H3).
    split_and!; [lia|lia|done|]. intros i Hi.
    destruct (le_lt_dec (first + step) i); [|apply H3; lia].
    destruct (less (nth i v None)) eqn:Ei; [|done].
    rewrite (Hpart (first + step) i) in E; [done|lia|done].
Qed.
End Search.

(** ** Locators *)

Section Locator.
Context (m : block_map) (Hwf : tree_wf m).

(** Hashes of ancestors of [p] at strictly decreasing heights, from [p] down to height 0. *)
Inductive descent : block_ptr -> list uint256 -> Prop :=
| descent_end p b : m !! p = Some b -> nHeight b = 0 -> descent p [p]
| descent_step p b q c l : m !! p = Some b -> m !! q = Some c -> nHeight c < nHeight b ->
    ancestor m q p -> descent q l -> descent p (p :: l).

Lemma Locator_loop_ok fuel p b step have : m !! p = Some b -> 1 <= step -> nHeight b < Z.of_nat fuel ->
  exists l, CChain.Locator_loop fuel m (Some p) step have = Some (have ++ l) /\ descent p l.
Proof.
  revert p b step have. induction fuel as [|fuel IH]; intros p b step have Hp Hs Hf;
    [destruct (Hwf p b Hp); lia|].
  cbn [CChain.Locator_loop]. rewrite Hp. destruct (Hwf p b Hp) as [Hh _ _ _].
  destruct (Z.eqb_spec (nHeight b) 0) as [H0|H0]; [exists [p]; split; [done|by eapply descent_end]|].
  rewrite (GetAncestor_ok m Hwf p b) by done. set (h := Z.max (nHeight b - step) 0).
  destruct (ancestor_at_some m Hwf p b h Hp ltac:(lia)) as (q & c & E & Hq & Hc). rewrite E.
  destruct (IH q c (if (10 <? length (have ++ [p]))%nat then step * 2 else step) (have ++ [p]) Hq)
    as (l & El & Hl).
  - destruct (_ <? _)%nat; lia.
  - lia.
  - exists (p :: l). rewrite El, <- app_assoc. split; [done|].
    eapply descent_step; [done..|lia|by eapply ancestor_at_ancestor|done].
Qed.

(** Once ten entries are out every step doubles: from height [x] with step [s],
    [x < s * 2^k] leaves at most [k + 2] entries. *)
Lemma Locator_loop_length fuel p b step have k : m !! p = Some b -> 1 <= step -> (10 <= length have)%nat ->
  nHeight b < step * 2 ^ Z.of_nat k -> nHeight b < Z.of_nat fuel ->
  exists l, CChain.Locator_loop fuel m (Some p) step have = Some l /\ (length l <= length have + k + 2)%nat.
Proof.
  revert p b step have k. induction fuel as [|fuel IH]; intros p b step have k Hp Hs Hh Hk Hf;
    [destruct (Hwf p b Hp); lia|].
  cbn [CChain.Locator_loop]. rewrite Hp. destruct (Hwf p b Hp) as [Hnn _ _ _].
  destruct (Z.eqb_spec (nHeight b) 0) as [H0|H0].
  { eexists. split; [done|]. rewrite length_app. cbn. lia. }
  rewrite (GetAncestor_ok m Hwf p b) by done. set (h := Z.max (nHeight b - step) 0).
  destruct (ancestor_at_some m Hwf p b h Hp ltac:(lia)) as (q & c & E & Hq & Hc). rewrite E.
  assert (Hl : length (have ++ [p]) = S (length have)) by (rewrite length_app; cbn; lia). cbv zeta.
  rewrite Hl, (proj2 (Nat.ltb_lt 10 (S (length have)))) by lia.
  destruct k as [|k].
  - assert (h = 0) as E0 by (change (2 ^ Z.of_nat 0) with 1 in Hk; lia). destruct fuel as [|fuel]; [lia|].
    cbn [CChain.Locator_loop]. rewrite Hq, Hc, E0. change (0 =? 0) with true. cbv iota zeta.
    eexists. split; [done|]. rewrite length_app, Hl. cbn. lia.
  - rewrite Nat2Z.inj_succ, Z.pow_succ_r in Hk by lia.
    destruct (IH q c (step * 2) (have ++ [p]) k Hq) as (l & El & Hll); [lia|lia| |lia|].
    + assert (0 < 2 ^ Z.of_nat k) by lia. nia.
    + exists l. split; [done|]. lia.
Qed.

(** The first ten entries use step one. *)
Lemma Locator_loop_first fuel p b have : m !! p = Some b -> (length have <= 10)%nat ->
  nHeight b < Z.of_nat fuel -> nHeight b < 2 ^ 31 ->
  exists l, CChain.Locator_loop fuel m (Some p) 1 have = Some l /\ (length l <= 43)%nat.
Proof.
  intros Hp Hle. remember (10 - length have)%nat as n eqn:En. revert fuel p b have Hp Hle En.
  induction n as [|n IH]; intros fuel p b have Hp Hle En Hf Hb.
  - destruct (Locator_loop_length fuel p b 1 have 31 Hp) as (l & E & Hl); [lia|lia|cbn; lia|done|].
    exists l. split; [done|lia].
  - destruct fuel as [|fuel]; [destruct (Hwf p b Hp); lia|]. cbn [CChain.Locator_loop]. rewrite Hp.
    destruct (Hwf p b Hp) as [Hnn _ _ _]. destruct (Z.eqb_spec (nHeight b) 0) as [H0|H0].
    { eexists. split; [done|]. rewrite length_app. cbn. lia. }
    rewrite (GetAncestor_ok m Hwf p b) by done. set (h := Z.max (nHeight b - 1) 0).
    destruct (ancestor_at_some m Hwf p b h Hp ltac:(lia)) as (q & c & E & Hq & Hc). rewrite E.
    assert (Hl : length (have ++ [p]) = S (length have)) by (rewrite length_app; cbn; lia). cbv zeta.
    rewrite Hl, (proj2 (Nat.ltb_ge 10 (S (length have)))) by lia. apply (IH fuel q c); [done|lia..].
Qed.
End Locator.

(** ** Properties *)

(** [SetTip] on a chain that is empty or holds the ancestors of some block
    leaves exactly the ancestors of the new tip, one per height, although its walk stops at the first
    block that is already in place; it terminates within [nHeight + 1] steps. *)
Theorem set_tip_exact (m : block_map) (v : list (option block_ptr)) (p : block_ptr) (b : CBlockIndex) :
  tree_wf m -> chain_wf m v -> m !! p = Some b ->
  exists v', CChain.SetTip m v p = Some v' /\ CChain.Tip v' = Some p /\ CChain.Height v' = nHeight b /\
    chain_wf m v' /\
    (forall h, CChain.at_height v' h = if (0 <=? h) && (h <=? nHeight b) then back m (Z.to_nat (nHeight b - h)) p else None) /\
    (forall q, is_Some (m !! q) -> CChain.Contains m v' (Some q) = true <-> ancestor m q p).
Proof.
  intros Hwf Hv Hp. exists (path m p). pose proof (path_length m p b Hp) as Hl. destruct (Hwf p b Hp) as [Hh _ _ _].
  assert (Hat : forall h, CChain.at_height (path m p) h = ancestor_at m p h).
  { intros h. unfold CChain.at_height. rewrite Hl. unfold ancestor_at. rewrite (deref_eq nHeight 0 m p b Hp). cbv zeta.
    destruct (Z.ltb_spec h 0), (Z.leb_spec 0 h); try lia; [done|]. cbn [orb andb].
    destruct (Z.leb_spec (Z.of_nat (S (Z.to_nat (nHeight b)))) h), (Z.leb_spec h (nHeight b)); try lia; [done|].
    apply nth_of_lookup. rewrite (path_lookup m p b) by (done || lia). rewrite Z2Nat.id by lia.
    unfold ancestor_at. rewrite (deref_eq nHeight 0 m p b Hp). cbv zeta.
    by rewrite (proj2 (Z.leb_le 0 h)), (proj2 (Z.leb_le h _)) by lia. }
  split_and!.
  - by apply (SetTip_ok m Hwf v p b).
  - by apply (path_tip m Hwf p b).
  - unfold CChain.Height. rewrite Hl. lia.
  - right. by exists p, b.
  - intros h. rewrite Hat. unfold ancestor_at. by rewrite (deref_eq nHeight 0 m p b Hp).
  - intros q [c Hq]. by apply (contains_path m Hwf p b q c).
Qed.

Lemma set_tip_exact_witness :
  CChain.SetTip sample (path sample [4]) [3] = Some [Some [0]; Some [1]; Some [2]; Some [3]] /\
  exists v', CChain.SetTip sample (path sample [4]) [3] = Some v' /\ CChain.Tip v' = Some [3] /\ CChain.Height v' = 3 /\
    chain_wf sample v' /\
    (forall h, CChain.at_height v' h = if (0 <=? h) && (h <=? 3) then back sample (Z.to_nat (3 - h)) [3] else None) /\
    (forall q, is_Some (sample !! q) -> CChain.Contains sample v' (Some q) = true <-> ancestor sample q [3]).
Proof.
  split; [vm_compute; reflexivity|].
  apply (set_tip_exact sample (path sample [4]) [3] (sample_entry (Some [2]) (Some [1]) 3 200));
    [apply sample_wf| |reflexivity].
  right. exists [4], (sample_entry (Some [1]) (Some [0]) 2 170). split; [reflexivity|done].
Defined.

(** [FindFork] returns the same block as [LastCommonAncestor] of its argument and the
    tip of the chain, that is the highest block of the active chain among the argument and its
    ancestors. *)
Theorem find_fork_lca (m : block_map) (t p : block_ptr) :
  tree_wf m -> is_Some (m !! t) -> is_Some (m !! p) ->
  exists r, CChain.FindFork m (path m t) (Some p) = Some r /\
    LastCommonAncestor m (Some p) (Some t) = Some r.
Proof.
  intros Hwf [bt Ht] [b Hp]. destruct (FindFork_ok m Hwf t bt p b Ht Hp) as (r & E & Hr).
  destruct (LastCommonAncestor_ok m Hwf p t b bt Hp Ht) as (r' & E' & Hr').
  exists r. split; [done|]. by rewrite (is_common_unique m Hwf r r' p t (ex_intro _ b Hp) Hr Hr').
Qed.

Lemma find_fork_lca_witness :
  exists r, CChain.FindFork sample (path sample [4]) (Some [3]) = Some r /\
    LastCommonAncestor sample (Some [3]) (Some [4]) = Some r.
Proof. apply find_fork_lca; [apply sample_wf|by eexists..]. Defined.

(** the locator of a block starts with it, ends with the block at height 0, lists
    ancestors at strictly decreasing heights, and for heights that fit an [int] has at most 43
    entries. *)
Theorem locator_exact (m : block_map) (p : block_ptr) (b : CBlockIndex) :
  tree_wf m -> m !! p = Some b -> nHeight b < 2 ^ 31 ->
  exists l, CChain.LocatorEntries m (Some p) = Some l /\ descent m p l /\ (length l <= 43)%nat.
Proof.
  intros Hwf Hp Hb. unfold CChain.LocatorEntries. rewrite (deref_eq nHeight 0 m p b Hp).
  destruct (Hwf p b Hp) as [Hh _ _ _].
  destruct (Locator_loop_ok m Hwf (S (Z.to_nat (nHeight b))) p b 1 [] Hp) as (l & E & Hd); [lia|lia|].
  destruct (Locator_loop_first m Hwf (S (Z.to_nat (nHeight b))) p b [] Hp) as (l' & E' & Hl); [cbn; lia|lia|done|].
  exists l. rewrite E in E'. cbn [app] in *. simplify_eq. done.
Qed.

Lemma locator_exact_witness :
  exists l, CChain.LocatorEntries sample (Some [3]) = Some l /\ descent sample [3] l /\ (length l <= 43)%nat.
Proof.
  apply (locator_exact sample [3] (sample_entry (Some [2]) (Some [1]) 3 200)); [apply sample_wf|reflexivity|cbn; lia].
Defined.

(** on a chain whose [nTimeMax] does not decrease, [FindEarliestAtLeast] returns null
    exactly when no block of the chain has both the time and the height asked for, and otherwise
    the lowest such block. *)
Theorem find_earliest_exact (m : block_map) (t : block_ptr) (bt : CBlockIndex) (nTime height : Z) :
  tree_wf m -> m !! t = Some bt ->
  (forall p b q c, m !! p = Some b -> pprev b = Some q -> m !! q = Some c -> nTimeMax c <= nTimeMax b) ->
  match CChain.FindEarliestAtLeast m (path m t) nTime height with
  | None => forall q c, m !! q = Some c -> ancestor m q t -> nTimeMax c < nTime \/ nHeight c < height
  | Some q => exists c, m !! q = Some c /\ ancestor m q t /\ nTime <= nTimeMax c /\ height <= nHeight c /\
      forall q' c', m !! q' = Some c' -> ancestor m q' t -> nTime <= nTimeMax c' -> height <= nHeight c' ->
        nHeight c <= nHeight c'
  end.
Proof.
  intros Hwf Ht Hmono. pose proof (path_length m t bt Ht) as Hl. destruct (Hwf t bt Ht) as [Hh _ _ _].
  set (v := path m t) in *.
  assert (Hblk : forall i, (i < length v)%nat -> exists q c, nth i v None = Some q /\ m !! q = Some c /\
            nHeight c = Z.of_nat i /\ ancestor_at m t (Z.of_nat i) = Some q) by (intros; by apply (path_block m Hwf t bt)).
  assert (Hout : forall q c, m !! q = Some c -> ancestor m q t ->
            (Z.to_nat (nHeight c) < length v)%nat /\ nth (Z.to_nat (nHeight c)) v None = Some q)
    by (intros; by apply (path_ancestor m Hwf t bt)).
  unfold CChain.FindEarliestAtLeast.
  destruct (lower_bound_ok (CChain.earlier m nTime height) v) with (fuel := length v) (first := 0%nat) (count := length v)
    as (Hk & Hbelow & Habove); [|lia|lia|].
  { intros i j Hij. destruct (Hblk i) as (qi & ci & -> & Hi & Hhi & Ai); [lia|].
    destruct (Hblk j) as (qj & cj & -> & Hj & Hhj & Aj); [lia|].
    unfold CChain.earlier. rewrite !(deref_eq nTimeMax 0 m qi ci Hi), !(deref_eq nHeight 0 m qi ci Hi),
      !(deref_eq nTimeMax 0 m qj cj Hj), !(deref_eq nHeight 0 m qj cj Hj).
    rewrite !orb_true_iff, !Z.ltb_lt.
    assert (nTimeMax ci <= nTimeMax cj).
    { apply (timemax_ancestor m Hwf Hmono qi qj ci cj); [done..|].
      apply (ancestor_at_ancestor m qj (Z.of_nat i)). rewrite <- Ai. symmetry.
      apply (ancestor_at_step m Hwf t bt qj (Z.of_nat j)); [done..|lia]. }
    lia. }
  set (k := CChain.lower_bound _ _ _ _ _) in *. rewrite Nat.add_0_l in Hk, Habove.
  destruct (Nat.eq_dec k (length v)) as [Ek|Ek].
  - rewrite nth_overflow by lia. intros q c Hq Ha. destruct (Hout q c Hq Ha) as [Hlt En].
    specialize (Hbelow (Z.to_nat (nHeight c)) ltac:(lia)). rewrite En in Hbelow. unfold CChain.earlier in Hbelow.
    rewrite (deref_eq nTimeMax 0 m q c Hq), (deref_eq nHeight 0 m q c Hq), orb_true_iff, !Z.ltb_lt in Hbelow. lia.
  - destruct (Hblk k) as (q & c & E & Hq & Hhq & Aq); [lia|]. rewrite E. exists c.
    specialize (Habove k ltac:(lia)). rewrite E in Habove. unfold CChain.earlier in Habove.
    rewrite (deref_eq nTimeMax 0 m q c Hq), (deref_eq nHeight 0 m q c Hq), orb_false_iff, !Z.ltb_ge in Habove.
    split_and!; [done|by eapply ancestor_at_ancestor|lia|lia|]. intros q' c' Hq' Ha' Ht' Hh'.
    destruct (Hout q' c' Hq' Ha') as [Hlt En]. destruct (Z_le_gt_dec (nHeight c) (nHeight c')); [done|].
    destruct (Hwf q' c' Hq') as [? _ _ _].
    specialize (Hbelow (Z.to_nat (nHeight c')) ltac:(lia)). rewrite En in Hbelow. unfold CChain.earlier in Hbelow.
    rewrite (deref_eq nTimeMax 0 m q' c' Hq'), (deref_eq nHeight 0 m q' c' Hq'), orb_true_iff, !Z.ltb_lt in Hbelow. lia.
Qed.

Lemma find_earliest_exact_witness :
  match CChain.FindEarliestAtLeast sample (path sample [3]) 200 1 with
  | None => forall q c, sample !! q = Some c -> ancestor sample q [3] -> nTimeMax c < 200 \/ nHeight c < 1
  | Some q => exists c, sample !! q = Some c /\ ancestor sample q [3] /\ 200 <= nTimeMax c /\ 1 <= nHeight c /\
      forall q' c', sample !! q' = Some c' -> ancestor sample q' [3] -> 200 <= nTimeMax c' -> 1 <= nHeight c' ->
        nHeight c <= nHeight c'
  end.
Proof.
  apply (find_earliest_exact sample [3] (sample_entry (Some [2]) (Some [1]) 3 200) 200 1); [apply sample_wf|reflexivity|].
  intros p b q c Hp Hpq Hq. unfold sample in Hp.
  lookup_cases Hp; cbn in Hpq; simplify_eq; vm_compute in Hq; simplify_eq; vm_compute; done.
Defined.
