(* ===== verification/Pow.v ===== *)
(** * Pow: ASERT difficulty and the proof-of-work check of [chain/pow.cpp]

    The difficulty computation is written against the [ArithUint] interface at
    256 and 512 bits.  RandomX ([randomx_calculate_hash] and
    [randomx_calculate_commitment]) is a parameter of the check. *)
From S2P Require Import Prelude Arith Bytes Compact Sha256 Block BlockIndex ChainParams.
#[local] Open Scope Z_scope.
Import Idx (CBlockIndex, mkIndex, nHeight, pprev, pskip, nChainWork, nStatus, nTimeMax, nTimeReceived).

Section Asert.
Context {U V : Type} `{ArithUint 256 U, ArithUint 512 V, ArithWiden U V}.

Definition llabs (x : Z) : Z := Z.abs x.

(** The fixed-point exponent. *)
Definition asert_exponent (nPowTargetSpacing nTimeDiff nHeightDiff nHalfLife : Z) : option Z :=
  let exponentBase := i64 (nTimeDiff - i64 (nPowTargetSpacing * i64 (nHeightDiff + 1))) in
  if negb (llabs exponentBase <? Z.shiftl 1 (63 - 16)) then None
  else Some (Z.quot (i64 (exponentBase * 65536)) nHalfLife).

(** The cubic approximation of [65536 * 2^(frac/65536)], in [uint64_t]. *)
Definition asert_factor (frac : Z) : Z :=
  u32 (u64 (65536 + Z.shiftr (u64 (u64 (u64 (u64 (195766423245049 * frac) +
                                             u64 (u64 (971821376 * frac) * frac)) +
                                        u64 (u64 (u64 (5127 * frac) * frac) * frac)) +
                                   Z.shiftl 1 47)) 48)).

(** The product scaled by [2^shifts], in 512 bits. *)
Definition asert_scale (nextTarget512 powLimit512 : V) (shifts : Z) : V :=
  if shifts <=? 0 then au_shr nextTarget512 (u32 (- shifts))
  else
    let nextTarget512Shifted := au_shl nextTarget512 (u32 shifts) in
    if negb (au_eqb (au_shr nextTarget512Shifted (u32 shifts)) nextTarget512) then powLimit512
    else nextTarget512Shifted.

(** [CalculateASERT]; [None] is a failed assertion. *)
Definition CalculateASERT (refTarget : U) (nPowTargetSpacing nTimeDiff nHeightDiff : Z) (powLimit : U)
  (nHalfLife : Z) : option U :=
  if negb (au_gtb refTarget (au_of_u64 0) && negb (au_gtb refTarget powLimit)) then None
  else if negb (0 <=? nHeightDiff) then None
  else match asert_exponent nPowTargetSpacing nTimeDiff nHeightDiff nHalfLife with
  | None => None
  | Some exponent =>
      let shifts := Z.shiftr exponent 16 in
      let frac := u16 exponent in
      if negb (exponent =? shifts * 65536 + frac) then None
      else
        let nextTarget512 : V := au_mul32 (au_widen refTarget) (asert_factor frac) in
        let powLimit512 : V := au_widen powLimit in
        let nextTarget512 := asert_scale nextTarget512 powLimit512 (shifts - 16) in
        let nextTarget512 := if au_gtb nextTarget512 powLimit512 then powLimit512 else nextTarget512 in
        let nextTarget : U := au_narrow nextTarget512 in
        Some (if au_eq64 nextTarget 0 then au_of_u64 1
              else if au_gtb nextTarget powLimit then powLimit
              else nextTarget)
  end.
End Asert.

(** ** The reference computation over the integers *)

Definition asert_e (spacing dt dh hl : Z) : Z := Z.quot ((dt - spacing * (dh + 1)) * 65536) hl.
Definition poly (f : Z) : Z :=
  65536 + (195766423245049 * f + 971821376 * f * f + 5127 * f * f * f + 2 ^ 47) / 2 ^ 48.
Definition scale (x n : Z) : Z := if n <=? 0 then x / 2 ^ (- n) else x * 2 ^ n.
Definition asert_target (ref e : Z) : Z := scale (ref * poly (e mod 65536)) (e / 65536 - 16).

(** *** The polynomial *)

Lemma poly_range f : 0 <= f < 65536 -> 65536 <= poly f < 131072.
Proof. intros Hf. unfold poly. change (2 ^ 47) with 140737488355328. change (2 ^ 48) with 281474976710656. split.
  - assert (0 <= (195766423245049 * f + 971821376 * f * f + 5127 * f * f * f + 140737488355328) / 281474976710656); [|lia].
    apply Z.div_pos; [|lia]. nia.
  - assert ((195766423245049 * f + 971821376 * f * f + 5127 * f * f * f + 140737488355328) / 281474976710656 < 65536); [|lia].
    apply Z.div_lt_upper_bound; [lia|].
    assert (f * f <= 65535 * 65535) by nia. assert (f * f * f <= 65535 * 65535 * 65535) by nia. lia.
Qed.

Lemma poly_mono f f' : 0 <= f <= f' -> poly f <= poly f'.
Proof.
  intros Hf. unfold poly. apply Z.add_le_mono_l, Z.div_le_mono; [lia|].
  assert (f * f <= f' * f') by nia. assert (f * f * f <= f' * f' * f') by nia. lia.
Qed.

(** No intermediate result of the polynomial wraps around. *)
Lemma asert_factor_poly f : 0 <= f < 65536 -> asert_factor f = poly f.
Proof.
  intros Hf. pose proof (poly_range f Hf) as Hp. unfold asert_factor, poly in *.
  assert (f * f <= 65535 * 65535) by nia. assert (f * f * f <= 65535 * 65535 * 65535) by nia.
  assert (0 <= f * f) by nia. assert (0 <= f * f * f) by nia.
  rewrite (u64_id (195766423245049 * f)), (u64_id (971821376 * f)), (u64_id (5127 * f)) by (unfold in_u; lia).
  rewrite (u64_id (971821376 * f * f)), (u64_id (5127 * f * f)) by (unfold in_u; lia).
  rewrite (u64_id (5127 * f * f * f)) by (unfold in_u; lia).
  rewrite (u64_id (_ + 971821376 * f * f)) by (unfold in_u; lia).
  rewrite (u64_id (_ + 5127 * f * f * f)) by (unfold in_u; lia).
  change (Z.shiftl 1 47) with (2 ^ 47).
  rewrite (u64_id (_ + 2 ^ 47)) by (unfold in_u; lia).
  rewrite Z.shiftr_div_pow2 by lia. rewrite u64_id, u32_id by (unfold in_u; lia). done.
Qed.

(** *** Scaling by powers of two *)

Lemma scale_mono x y n : x <= y -> scale x n <= scale y n.
Proof.
  intros Hxy. unfold scale. destruct (Z.leb_spec n 0).
  - apply Z.div_le_mono; [|done]. apply Z.pow_pos_nonneg; lia.
  - assert (0 < 2 ^ n) by (apply Z.pow_pos_nonneg; lia). nia.
Qed.

Lemma scale_double x n : scale (2 * x) n = scale x (n + 1).
Proof.
  unfold scale. destruct (Z.leb_spec n 0), (Z.leb_spec (n + 1) 0); try lia.
  - replace (- n) with (- (n + 1) + 1) by lia. rewrite Z.pow_add_r, Z.pow_1_r by lia.
    rewrite (Z.mul_comm 2 x), Z.div_mul_cancel_r; [done| |lia]. assert (0 < 2 ^ (-(n+1))) by (apply Z.pow_pos_nonneg; lia). lia.
  - assert (n = 0) as -> by lia. cbn. rewrite Z.div_1_r. lia.
  - rewrite Z.pow_add_r, Z.pow_1_r by lia. ring.
Qed.

Lemma scale_nonneg x n : 0 <= x -> 0 <= scale x n.
Proof.
  intros. unfold scale. destruct (Z.leb_spec n 0); [apply Z.div_pos; [done|]|]; [apply Z.pow_pos_nonneg; lia|].
  assert (0 < 2 ^ n) by (apply Z.pow_pos_nonneg; lia). nia.
Qed.

Lemma scale_mono_n x n n' : 0 <= x -> n <= n' -> scale x n <= scale x n'.
Proof.
  intros Hx Hn. replace n' with (n + Z.of_nat (Z.to_nat (n' - n))) by lia. induction (Z.to_nat (n' - n)) as [|k IH].
  - rewrite Z.add_0_r. lia.
  - etrans; [exact IH|]. replace (n + Z.of_nat (S k)) with (n + Z.of_nat k + 1) by lia.
    rewrite <- scale_double. apply scale_mono. lia.
Qed.

Lemma asert_target_mono ref e e' : 0 <= ref -> e <= e' -> asert_target ref e <= asert_target ref e'.
Proof.
  intros Hr He. unfold asert_target. pose proof (Z.mod_pos_bound e 65536 ltac:(lia)) as Hf.
  pose proof (Z.mod_pos_bound e' 65536 ltac:(lia)) as Hf'.
  pose proof (Z.div_mod e 65536 ltac:(lia)). pose proof (Z.div_mod e' 65536 ltac:(lia)).
  pose proof (poly_range _ Hf). pose proof (poly_range _ Hf').
  destruct (Z.eq_dec (e / 65536) (e' / 65536)) as [E|E].
  - rewrite <- E. apply scale_mono. pose proof (poly_mono (e mod 65536) (e' mod 65536) ltac:(lia)). nia.
  - transitivity (scale (2 * (ref * poly (e' mod 65536))) (e / 65536 - 16)); [apply scale_mono; nia|].
    rewrite scale_double. apply scale_mono_n; nia.
Qed.

(** ** The implementation computes the reference *)

Section AsertLaws.
Context {U V : Type} `{HU : ArithLaws 256 U, HV : ArithLaws 512 V, !ArithWiden U V, HW : !WidenLaws 256 U V}.

Lemma asert_scale_ok (x l : V) (n : Z) : au_wf x -> au_wf l -> 0 < au_val x -> - 2 ^ 32 < n < 2 ^ 32 ->
  au_wf (asert_scale x l n) /\
  Z.min (au_val l) (au_val (asert_scale x l n)) = Z.min (au_val l) (scale (au_val x) n).
Proof.
  intros Hx Hl Hp Hn. unfold asert_scale, scale. destruct (Z.leb_spec n 0).
  - rewrite u32_id by (unfold in_u; lia). destruct (au_shr_ok x (- n) Hx ltac:(lia)) as [Hw Hv].
    split; [done|]. by rewrite Hv, Z.shiftr_div_pow2 by lia.
  - rewrite u32_id by (unfold in_u; lia). destruct (au_shl_ok x n Hx ltac:(lia)) as [Hw Hv].
    rewrite Z.shiftl_mul_pow2 in Hv by lia.
    destruct (au_shr_ok (au_shl x n) n Hw ltac:(lia)) as [Hw' Hv']. rewrite Z.shiftr_div_pow2, Hv in Hv' by lia.
    cbv zeta. rewrite au_eqb_ok, Hv' by done. set (y := au_val x * 2 ^ n) in *.
    assert (Hpn : 0 < 2 ^ n) by (apply Z.pow_pos_nonneg; lia).
    pose proof (au_range l Hl) as Rl. assert (0 <= y) by (subst y; nia).
    destruct (Z.lt_ge_cases y (2 ^ 512)) as [Hlt|Hge].
    + rewrite Z.mod_small by lia. replace (y / 2 ^ n) with (au_val x) by (subst y; symmetry; apply Z.div_mul; lia).
      rewrite Z.eqb_refl. cbn [negb]. split; [done|]. by rewrite Hv, Z.mod_small by lia.
    + pose proof (Z.mod_pos_bound y (2 ^ 512) ltac:(lia)) as Hm.
      pose proof (Z.mul_div_le (y mod 2 ^ 512) (2 ^ n) Hpn).
      assert (y mod 2 ^ 512 / 2 ^ n < au_val x) by (subst y; nia).
      destruct (Z.eqb_spec (y mod 2 ^ 512 / 2 ^ n) (au_val x)); [lia|]. cbn [negb]. split; [done|]. lia.
Qed.

Lemma quot_abs_bound a b : 0 < b -> Z.abs (Z.quot a b) * b <= Z.abs a.
Proof.
  intros Hb. rewrite <- (Z.abs_eq b) at 2 by lia. rewrite <- Z.abs_mul.
  pose proof (Z.quot_rem' a b) as E. pose proof (Z.rem_bound_abs a b ltac:(lia)).
  destruct (Z.le_gt_cases 0 a).
  - pose proof (Z.rem_nonneg a b ltac:(lia) ltac:(lia)). pose proof (Z.quot_pos a b ltac:(lia) ltac:(lia)). nia.
  - pose proof (Z.rem_nonpos a b ltac:(lia) ltac:(lia)).
    assert (Z.quot a b <= 0).
    { pose proof (Z.quot_pos (- a) b ltac:(lia) ltac:(lia)). rewrite Z.quot_opp_l in *; lia. }
    nia.
Qed.

Lemma asert_exponent_ok spacing dt dh hl : 0 < spacing <= 3600 -> 0 <= dt < 2 ^ 32 -> 0 <= dh < 2 ^ 31 ->
  3600 <= hl < 2 ^ 32 ->
  asert_exponent spacing dt dh hl = Some (asert_e spacing dt dh hl) /\
  - 2 ^ 31 - 1 <= asert_e spacing dt dh hl / 65536 <= 2 ^ 31.
Proof.
  intros Hs Hdt Hdh Hhl. unfold asert_exponent, llabs, asert_e.
  assert (0 <= spacing * (dh + 1) <= 3600 * 2 ^ 31) by nia.
  rewrite (i64_id (dh + 1)) by (unfold in_s; lia).
  rewrite (i64_id (spacing * (dh + 1))) by (unfold in_s; lia).
  rewrite (i64_id (dt - _)) by (unfold in_s; lia). set (x := dt - spacing * (dh + 1)) in *.
  change (Z.shiftl 1 (63 - 16)) with (2 ^ 47).
  rewrite (proj2 (Z.ltb_lt (Z.abs x) (2 ^ 47))) by lia. cbn [negb].
  rewrite i64_id by (unfold in_s; lia). split; [done|].
  pose proof (quot_abs_bound (x * 65536) hl ltac:(lia)) as Hq. set (e := Z.quot (x * 65536) hl) in *.
  assert (Z.abs e * 3600 <= Z.abs (x * 65536)) by nia.
  assert (- (2 ^ 31 * 65536) <= e <= 2 ^ 47) by lia.
  split; [apply Z.div_le_lower_bound; lia|apply Z.div_le_upper_bound; lia].
Qed.

Lemma CalculateASERT_ok (ref limit : U) spacing dt dh hl :
  au_wf ref -> au_wf limit -> 0 < au_val ref <= au_val limit ->
  0 < spacing <= 3600 -> 0 <= dt < 2 ^ 32 -> 0 <= dh < 2 ^ 31 -> 3600 <= hl < 2 ^ 32 ->
  exists t, CalculateASERT (V := V) ref spacing dt dh limit hl = Some t /\ au_wf t /\
    au_val t = Z.max 1 (Z.min (au_val limit) (asert_target (au_val ref) (asert_e spacing dt dh hl))).
Proof.
  intros Hr Hl Hrl Hs Hdt Hdh Hhl. unfold CalculateASERT.
  destruct (asert_exponent_ok spacing dt dh hl Hs Hdt Hdh Hhl) as [-> Hsh].
  set (e := asert_e spacing dt dh hl) in *.
  destruct (au_of_u64_ok (U := U) 0) as [W0 V0]; [unfold in_u; lia|].
  destruct (au_of_u64_ok (U := U) 1) as [W1 V1]; [unfold in_u; lia|].
  rewrite !au_gtb_ok, V0 by done.
  rewrite (proj2 (Z.ltb_lt 0 _)), (proj2 (Z.ltb_ge (au_val limit) _)), (proj2 (Z.leb_le 0 dh)) by lia. cbn [negb andb].
  rewrite Z.shiftr_div_pow2 by lia. change (2 ^ 16) with 65536. cbv zeta.
  change (u16 e) with (e mod 65536). pose proof (Z.div_mod e 65536 ltac:(lia)) as Ediv.
  rewrite (proj2 (Z.eqb_eq e _)) by lia. cbn [negb].
  pose proof (Z.mod_pos_bound e 65536 ltac:(lia)) as Hf. pose proof (poly_range _ Hf) as Hp.
  rewrite asert_factor_poly by done. pose proof (au_range ref Hr) as Rr. pose proof (au_range limit Hl) as Rl.
  destruct (au_widen_ok (V := V) ref Hr) as [Wr Vr]. destruct (au_widen_ok (V := V) limit Hl) as [Wl Vl].
  change (2 * 256) with 512 in *.
  destruct (au_mul32_ok (au_widen ref) (poly (e mod 65536)) Wr) as [Wm Vm]; [unfold in_u; lia|].
  rewrite Vr, (Z.mod_small (au_val ref * _)) in Vm.
  2:{ split; [apply Z.mul_nonneg_nonneg; lia|].
      apply Z.lt_trans with (2 ^ 256 * 131072); [apply Z.mul_lt_mono_nonneg; lia|reflexivity]. }
  destruct (asert_scale_ok (au_mul32 (au_widen ref) (poly (e mod 65536))) (au_widen limit) (e / 65536 - 16))
    as [Ws Vs]; [done|done|rewrite Vm; apply Z.mul_pos_pos; lia|lia|].
  set (n512 := asert_scale _ _ _) in *. rewrite Vm, Vl in Vs. fold (asert_target (au_val ref) e) in Vs.
  set (tgt := asert_target (au_val ref) e) in *.
  set (c := if au_gtb n512 (au_widen limit) then au_widen limit else n512).
  assert (Hc : au_wf c /\ au_val c = Z.min (au_val limit) tgt).
  { subst c. rewrite au_gtb_ok, Vl by done. rewrite <- Vs.
    destruct (Z.ltb_spec (au_val limit) (au_val n512)); split; try done; lia. }
  destruct Hc as [Wc Vc]. destruct (au_narrow_ok (BITS := 256) (U := U) c Wc) as [Wn Vn].
  assert (0 <= tgt).
  { subst tgt. apply scale_nonneg, Z.mul_nonneg_nonneg; lia. }
  change (2 * 256) with 512 in *. rewrite Vc, Z.mod_small in Vn by lia.
  rewrite au_eq64_ok, au_gtb_ok, Vn by (done || (unfold in_u; lia)).
  destruct (Z.eqb_spec (Z.min (au_val limit) tgt) 0).
  - exists (au_of_u64 1). split_and!; [done..|lia].
  - destruct (Z.ltb_spec (au_val limit) (Z.min (au_val limit) tgt)); [lia|].
    eexists. split_and!; [done..|]. rewrite Vn. lia.
Qed.
End AsertLaws.

(** ** The next difficulty *)

Module Pow.

(** [UintToArith256] at the integer level. *)
Definition arith_of (b : uint256) : Z := le_combine b.

(** [GetNextWorkRequired]; [None] is a failed assertion. *)
Definition GetNextWorkRequired (m : block_map) (pindexPrev : option block_ptr) (params : ChainParams) : option Z :=
  let c := consensus params in
  let limit_bits := GetCompact (U := Z) (arith_of (powLimit c)) false in
  match pindexPrev with
  | None => limit_bits
  | Some prev =>
      if bool_decide (chainType params = REGTEST) then limit_bits
      else match m !! prev with
      | None => None
      | Some bp =>
          if nHeight bp <? nASERTAnchorHeight c then limit_bits
          else match GetAncestor m prev (nASERTAnchorHeight c) with
          | Some (Some anchor) =>
              match m !! anchor with
              | None => None
              | Some ba =>
                  if negb (nHeight ba =? nASERTAnchorHeight c) then None
                  else
                    let refTarget := fst (fst (SetCompact (U := Z) (Idx.nBits ba))) in
                    let nTimeDiff := u32 (Idx.nTime bp - Idx.nTime ba) in
                    let nHeightDiff := i32 (nHeight bp - nASERTAnchorHeight c) in
                    match CalculateASERT (U := Z) (V := Z) refTarget (nPowTargetSpacing c) nTimeDiff nHeightDiff
                            (arith_of (powLimit c)) (nASERTHalfLife c) with
                    | Some nextTarget => GetCompact (U := Z) nextTarget false
                    | None => None
                    end
              end
          | _ => None
          end
      end
  end.

(** [GetTargetFromBits]. *)
Definition GetTargetFromBits (nBits : Z) : Z :=
  let '(target, fNegative, fOverflow) := SetCompact (U := Z) nBits in
  if fNegative || fOverflow || (target =? 0) then 0 else target.

End Pow.

(** *** Well-formed entries and the anchor *)

(** Block times and bits in range. *)
Definition fields_wf (m : block_map) : Prop :=
  forall p b, m !! p = Some b -> in_u 32 (Idx.nTime b) /\ in_u 32 (Idx.nBits b).

Lemma limit_range params : params_wf params -> 0 < Pow.arith_of (powLimit (consensus params)) < 2 ^ 256.
Proof.
  intros Hp. split; [apply (pw_limit_pos _ Hp)|]. unfold Pow.arith_of.
  destruct (pw_limit _ Hp) as [Hl Hb]. pose proof (le_combine_range 32 _ (conj Hl Hb)) as Hr.
  change (bytes_mod 32) with (2 ^ 256) in Hr. lia.
Qed.

(** Encoding a positive number gives a valid target no larger than it. *)
Lemma GetCompact_valid t : 0 < t < 2 ^ 256 ->
  exists c, GetCompact (U := Z) t false = Some c /\ in_u 32 c /\ c_valid c = true /\ 0 < c_value c <= t.
Proof.
  intros Ht. pose proof (GetCompact_norm (U := Z) t) as E. cbn in E. specialize (E ltac:(lia)).
  eexists. split; [exact E|]. pose proof (norm_packed_range t ltac:(lia)) as Hc.
  pose proof (norm_value t ltac:(lia)) as Hv. pose proof (truncated_le t ltac:(lia)) as Htr.
  pose proof (truncated_blen t Ht) as Hbl. destruct (blen_pos t ltac:(lia)) as [_ Hb1].
  assert (Hnz : truncated t <> 0) by (intros E0; rewrite E0 in Hbl; change (blen 0) with 0 in Hbl; lia).
  split; [done|]. rewrite Hv. split; [|lia]. unfold c_valid, c_negative. rewrite Hv.
  pose proof (norm_spec t ltac:(lia)) as Hn. destruct (norm t) as [mm s] eqn:En. cbn [fst snd] in *.
  rewrite norm_not_negative by apply Hn. cbn [negb]. rewrite andb_false_r. cbn [negb andb].
  rewrite (proj2 (Z.ltb_lt _ _)), (proj2 (Z.eqb_neq _ _)) by lia. done.
Qed.

Lemma set_compact_value c : in_u 32 c -> c_valid c = true -> fst (fst (SetCompact (U := Z) c)) = c_value c.
Proof.
  intros Hc Hv. destruct (set_compact_valid (U := Z) c Hc) as (v & neg & ovf & E & _ & _ & Hval).
  rewrite E. exact (Hval Hv).
Qed.

(** The difficulty of the block after [prev] on a network with retargeting: the target that
    the anchor's target, the elapsed time and the height give. *)
Lemma next_work_asert m prev bp params : tree_wf m -> fields_wf m -> params_wf params ->
  chainType params <> REGTEST -> m !! prev = Some bp -> 1 <= nHeight bp < 2 ^ 31 ->
  (forall a ba, m !! a = Some ba -> nHeight ba = 1 ->
     bits_within (Pow.arith_of (powLimit (consensus params))) (Idx.nBits ba)) ->
  exists anchor ba, ancestor_at m prev 1 = Some anchor /\ m !! anchor = Some ba /\ nHeight ba = 1 /\
    Pow.GetNextWorkRequired m (Some prev) params =
    GetCompact (U := Z) (Z.max 1 (Z.min (Pow.arith_of (powLimit (consensus params)))
      (asert_target (c_value (Idx.nBits ba))
        (asert_e (nPowTargetSpacing (consensus params)) (u32 (Idx.nTime bp - Idx.nTime ba)) (nHeight bp - 1)
           (nASERTHalfLife (consensus params)))))) false.
Proof.
  intros Hwf Hf Hp Hnr Hprev Hh Hanch. pose proof (limit_range params Hp) as Hlim.
  destruct (ancestor_at_some m Hwf prev bp 1 Hprev ltac:(lia)) as (anchor & ba & Ea & Hba & Hha).
  exists anchor, ba. split_and!; [done..|]. unfold Pow.GetNextWorkRequired.
  rewrite bool_decide_false, Hprev, (pw_anchor _ Hp) by done.
  rewrite (proj2 (Z.ltb_ge (nHeight bp) 1)) by lia. rewrite (GetAncestor_ok m Hwf prev bp), Ea, Hba by done.
  rewrite Hha, Z.eqb_refl. cbn [negb]. destruct (Hanch anchor ba Hba Hha) as [Hv Hle].
  destruct (Hf anchor ba Hba) as [_ Hbits]. rewrite set_compact_value by done. cbv zeta.
  rewrite i32_id by (unfold in_s; lia).
  assert (0 < c_value (Idx.nBits ba)).
  { pose proof (c_value_nonneg (Idx.nBits ba) (proj1 Hbits)). unfold c_valid in Hv.
    rewrite !andb_true_iff, !negb_true_iff, Z.eqb_neq in Hv. lia. }
  pose proof (u32_range (Idx.nTime bp - Idx.nTime ba)) as Hd. unfold in_u in Hd.
  destruct (CalculateASERT_ok (U := Z) (V := Z) (c_value (Idx.nBits ba)) (Pow.arith_of (powLimit (consensus params)))
    (nPowTargetSpacing (consensus params)) (u32 (Idx.nTime bp - Idx.nTime ba)) (nHeight bp - 1)
    (nASERTHalfLife (consensus params))) as (t & -> & _ & Ht);
    [cbn; lia|cbn; lia|cbn; lia|apply (pw_spacing _ Hp)|lia|lia|by apply (pw_halflife _ Hp)|].
  cbn in Ht. by rewrite Ht.
Qed.

(** The difficulty computation fails no assertion and yields a valid target within the limit. *)
Lemma next_work_ok m prev params : tree_wf m -> fields_wf m -> params_wf params ->
  match prev with Some p => exists bp, m !! p = Some bp /\ nHeight bp < 2 ^ 31 | None => True end ->
  (forall a ba, m !! a = Some ba -> nHeight ba = 1 -> chainType params <> REGTEST ->
     bits_within (Pow.arith_of (powLimit (consensus params))) (Idx.nBits ba)) ->
  exists c, Pow.GetNextWorkRequired m prev params = Some c /\ in_u 32 c /\
    bits_within (Pow.arith_of (powLimit (consensus params))) c.
Proof.
  intros Hwf Hf Hp Hprev Hanch. pose proof (limit_range params Hp) as Hlim.
  assert (Hlimit : exists c, GetCompact (U := Z) (Pow.arith_of (powLimit (consensus params))) false = Some c /\
    in_u 32 c /\ bits_within (Pow.arith_of (powLimit (consensus params))) c).
  { destruct (GetCompact_valid _ Hlim) as (c & E & Hc & Hv & Hle). exists c. split_and!; [done..|]. split; [done|lia]. }
  destruct prev as [p|]; [|done]. destruct Hprev as (bp & Hbp & Hh).
  destruct (decide (chainType params = REGTEST)) as [Er|Enr].
  { unfold Pow.GetNextWorkRequired. by rewrite bool_decide_true. }
  destruct (Z.lt_ge_cases (nHeight bp) 1) as [Hlt|Hge].
  { unfold Pow.GetNextWorkRequired. rewrite bool_decide_false, Hbp, (pw_anchor _ Hp) by done.
    by rewrite (proj2 (Z.ltb_lt _ _) Hlt). }
  destruct (next_work_asert m p bp params Hwf Hf Hp Enr Hbp ltac:(lia)) as (anchor & ba & Ea & Hba & Hha & ->).
  { intros a ba' ??. by eapply Hanch. }
  destruct (GetCompact_valid (Z.max 1 (Z.min (Pow.arith_of (powLimit (consensus params)))
    (asert_target (c_value (Idx.nBits ba)) (asert_e (nPowTargetSpacing (consensus params))
       (u32 (Idx.nTime bp - Idx.nTime ba)) (nHeight bp - 1) (nASERTHalfLife (consensus params)))))) ltac:(lia))
    as (c & E & Hc & Hv & Hle).
  exists c. split_and!; [done..|]. split; [done|lia].
Qed.

(** Blocks above the anchor are not earlier than it. *)
Lemma anchor_time m p b a ba : tree_wf m -> mtp_rule m -> m !! p = Some b -> ancestor_at m p 1 = Some a ->
  m !! a = Some ba -> nHeight ba = 1 -> Idx.nTime ba <= Idx.nTime b.
Proof.
  intros Hwf Hr Hp Ha Hba Hh. destruct (decide (a = p)) as [->|Hne]; [simplify_eq; lia|].
  assert (Idx.nTime ba <= GetMedianTimePast m a) as Hm.
  { rewrite (mtp_median m a ba Hba). destruct (Hwf a ba Hba) as [_ Hroot Hpar _].
    destruct (pprev ba) as [g|] eqn:Eg; [|destruct (Hroot eq_refl); lia].
    destruct (Hpar g eq_refl) as (bg & Hg & Hhg). destruct (Hwf g bg Hg) as [_ _ Hparg _].
    assert (pprev bg = None) as Eng.
    { destruct (pprev bg) as [gg|] eqn:E; [|done]. destruct (Hparg gg eq_refl) as (bgg & Hgg & ?).
      destruct (Hwf gg bgg Hgg). lia. }
    apply median_ge; [by apply (times_nonempty 10 m a ba)|].
    assert (times MEDIAN_TIME_SPAN m (Some a) = [Idx.nTime ba; Idx.nTime bg]) as ->.
    { unfold MEDIAN_TIME_SPAN. cbn [times]. by rewrite Hba, Eg, Hg, Eng. }
    rewrite count_ge_cons, decide_True by lia. cbn [length]. cbn. lia. }
  pose proof (mtp_descendant m Hwf Hr a p b Hp (ancestor_at_ancestor m p 1 a Ha) Hne). lia.
Qed.

(** ** Properties of the difficulty adjustment *)

(** C34: for every implementation of the arithmetic (limbs included), on parameters in the
    ranges of the three networks [CalculateASERT] fails no assertion and no intermediate value
    overflows: its result is [floor(refTarget * poly(e mod 2^16) * 2^(e / 2^16 - 16))] clamped to
    [1, powLimit], where [e] is the 16-bit fixed-point exponent. *)
Theorem asert_exact {U V : Type} `{HU : ArithLaws 256 U, HV : ArithLaws 512 V, !ArithWiden U V, !WidenLaws 256 U V}
  (ref limit : U) (spacing dt dh hl : Z) :
  au_wf ref -> au_wf limit -> 0 < au_val ref <= au_val limit ->
  0 < spacing <= 3600 -> 0 <= dt < 2 ^ 32 -> 0 <= dh < 2 ^ 31 -> 3600 <= hl < 2 ^ 32 ->
  exists t, CalculateASERT (V := V) ref spacing dt dh limit hl = Some t /\ au_wf t /\
    au_val t = Z.max 1 (Z.min (au_val limit) (asert_target (au_val ref) (asert_e spacing dt dh hl))).
Proof. apply CalculateASERT_ok. Qed.

Lemma asert_exact_witness :
  exists t, CalculateASERT (U := limbs) (V := limbs) (Limb.of_u64 8 1000) 3600 86400 5 (Limb.of_u64 8 100000) 172800 = Some t /\
    limbs_wf 8 t /\
    eval t = Z.max 1 (Z.min 100000 (asert_target 1000 (asert_e 3600 86400 5 172800))).
Proof.
  destruct (of_u64_spec 8 1000) as [W1 V1]; [lia|unfold in_u; lia|].
  destruct (of_u64_spec 8 100000) as [W2 V2]; [lia|unfold in_u; lia|].
  destruct (asert_exact (U := limbs) (V := limbs) (Limb.of_u64 8 1000) (Limb.of_u64 8 100000) 3600 86400 5 172800)
    as (t & E & Hw & Hv); [exact W1|exact W2| |lia..|].
  - change (0 < eval (Limb.of_u64 8 1000) <= eval (Limb.of_u64 8 100000)). lia.
  - exists t. split; [exact E|]. split; [exact Hw|]. by rewrite <- V1, <- V2.
Defined.

(** a chain that is exactly on schedule keeps the anchor's target. *)
Theorem asert_on_schedule (ref limit spacing dh hl : Z) :
  0 < ref <= limit -> limit < 2 ^ 256 -> 0 < spacing <= 3600 -> 0 <= dh < 2 ^ 20 -> 3600 <= hl < 2 ^ 32 ->
  CalculateASERT (U := Z) (V := Z) ref spacing (spacing * (dh + 1)) dh limit hl = Some ref.
Proof.
  intros Hr Hl Hs Hdh Hhl.
  destruct (CalculateASERT_ok (U := Z) (V := Z) ref limit spacing (spacing * (dh + 1)) dh hl)
    as (t & -> & _ & Ht); [cbn; lia|cbn; lia|cbn; lia|done|nia|lia|done|].
  cbn in Ht. rewrite Ht. unfold asert_e. rewrite Z.sub_diag, Z.mul_0_l, Z.quot_0_l by lia.
  unfold asert_target, scale. change (0 mod 65536) with 0. change (poly 0) with 65536.
  change (0 / 65536 - 16 <=? 0) with true. cbv iota. change (2 ^ (- (0 / 65536 - 16))) with 65536.
  rewrite Z.div_mul by lia. f_equal. lia.
Qed.

Lemma asert_on_schedule_witness :
  CalculateASERT (U := Z) (V := Z) 12345 3600 (3600 * (7 + 1)) 7 (2 ^ 240) 172800 = Some 12345.
Proof. apply asert_on_schedule; lia. Defined.

(** with more elapsed time since the anchor the target never gets harder, and with more
    blocks mined in the same time it never gets easier. *)
Theorem asert_monotone (ref limit spacing dt dt' dh dh' hl : Z) :
  0 < ref <= limit -> limit < 2 ^ 256 -> 0 < spacing <= 3600 -> 3600 <= hl < 2 ^ 32 ->
  0 <= dt <= dt' -> dt' < 2 ^ 32 -> 0 <= dh' <= dh -> dh < 2 ^ 31 ->
  exists t t', CalculateASERT (U := Z) (V := Z) ref spacing dt dh limit hl = Some t /\
    CalculateASERT (U := Z) (V := Z) ref spacing dt' dh' limit hl = Some t' /\ 1 <= t <= t' /\ t' <= limit.
Proof.
  intros Hr Hl Hs Hhl Hdt Hdt' Hdh Hdh'.
  destruct (CalculateASERT_ok (U := Z) (V := Z) ref limit spacing dt dh hl)
    as (t & -> & _ & Ht); [cbn; lia|cbn; lia|cbn; lia|done|lia|lia|done|].
  destruct (CalculateASERT_ok (U := Z) (V := Z) ref limit spacing dt' dh' hl)
    as (t' & -> & _ & Ht'); [cbn; lia|cbn; lia|cbn; lia|done|lia|lia|done|].
  exists t, t'. split; [done|]. split; [done|]. cbn in Ht, Ht'.
  assert (asert_e spacing dt dh hl <= asert_e spacing dt' dh' hl) as He.
  { unfold asert_e. apply Z.quot_le_mono; [lia|]. nia. }
  pose proof (asert_target_mono ref _ _ ltac:(lia) He). lia.
Qed.

Lemma asert_monotone_witness :
  exists t t', CalculateASERT (U := Z) (V := Z) 1000 3600 7200 5 100000 172800 = Some t /\
    CalculateASERT (U := Z) (V := Z) 1000 3600 90000 4 100000 172800 = Some t' /\ 1 <= t <= t' /\ t' <= 100000.
Proof. apply asert_monotone; lia. Defined.

(** [GetNextWorkRequired] is total on a well-formed index: with valid anchors it fails no
    assertion and returns a compact target that is valid and no easier than the network's
    limit; in particular regtest never reads its uninitialised ASERT fields. *)
Theorem next_work_required_valid (m : block_map) (prev : block_ptr) (bp : CBlockIndex) (params : ChainParams) :
  tree_wf m -> fields_wf m -> params_wf params -> m !! prev = Some bp -> nHeight bp < 2 ^ 31 ->
  (forall a ba, m !! a = Some ba -> nHeight ba = 1 -> chainType params <> REGTEST ->
     bits_within (Pow.arith_of (powLimit (consensus params))) (Idx.nBits ba)) ->
  exists c, Pow.GetNextWorkRequired m (Some prev) params = Some c /\ in_u 32 c /\
    bits_within (Pow.arith_of (powLimit (consensus params))) c.
Proof. intros. eapply (next_work_ok m (Some prev)); eauto. Qed.

Lemma sample_fields : fields_wf sample.
Proof. intros p b Hp. unfold sample in Hp. lookup_cases Hp; unfold in_u; cbn; lia. Qed.

Lemma next_work_required_valid_witness :
  exists p, Params.Select 0 0 MAIN = Some p /\
  exists c, Pow.GetNextWorkRequired sample (Some [3]) p = Some c /\ in_u 32 c /\
    bits_within (Pow.arith_of (powLimit (consensus p))) c.
Proof.
  destruct (select_ok 0 0 MAIN) as (p & E & _ & Hp & _ & _ & _ & Eb & Hb & _). exists p. split; [exact E|].
  rewrite Eb in Hb.
  apply (next_work_required_valid sample [3] (sample_entry (Some [2]) (Some [1]) 3 200) p);
    [apply sample_wf|apply sample_fields|exact Hp|reflexivity|cbn; lia|].
  intros a ba Ha _ _. assert (Idx.nBits ba = 0x1f06a000) as ->; [|exact Hb].
  unfold sample in Ha. lookup_cases Ha; reflexivity.
Defined.

(** when every block obeys the median-time rule, the unsigned subtraction of the
    anchor's time from a later block's time does not wrap: the time difference ASERT sees is the real
    one. *)
Theorem asert_time_diff_exact (m : block_map) (p a : block_ptr) (b ba : CBlockIndex) :
  tree_wf m -> mtp_rule m -> fields_wf m -> m !! p = Some b -> 1 <= nHeight b ->
  GetAncestor m p 1 = Some (Some a) -> m !! a = Some ba ->
  u32 (Idx.nTime b - Idx.nTime ba) = Idx.nTime b - Idx.nTime ba /\ Idx.nTime ba <= Idx.nTime b.
Proof.
  intros Hwf Hr Hf Hp Hh Ha Hba. rewrite (GetAncestor_ok m Hwf p b) in Ha by done. injection Ha as Ha.
  destruct (ancestor_at_some m Hwf p b 1 Hp ltac:(lia)) as (a' & ba' & E & Hba' & Hha). simplify_eq.
  pose proof (anchor_time m p b a ba Hwf Hr Hp Ha Hba Hha) as Ht. split; [|done].
  destruct (Hf p b Hp) as [Hb _], (Hf a ba Hba) as [Ha' _]. unfold in_u in *. apply u32_id. unfold in_u. lia.
Qed.

Lemma asert_time_diff_exact_witness : u32 (200 - 150) = 200 - 150 /\ 150 <= 200.
Proof.
  apply (asert_time_diff_exact sample [3] [1] (sample_entry (Some [2]) (Some [1]) 3 200)
    (sample_entry (Some [0]) (Some [0]) 1 150));
    [apply sample_wf|apply sample_mtp|apply sample_fields|reflexivity|cbn; lia|vm_compute; reflexivity|reflexivity].
Defined.
