(* ===== verification/RandomX.v ===== *)
(** * RandomX: epochs, VM caching and the proof-of-work check

    [chain/randomx_pow.cpp] and [CheckProofOfWork] of [chain/pow.cpp].  The
    RandomX library is a record of functions; its VMs are deterministic
    functions of the key their cache was initialised with. *)
From Stdlib Require Import String DecimalString.
From S2P Require Import Prelude Arith Bytes Compact Sha256 Block BlockIndex ChainParams Pow.
#[local] Open Scope Z_scope.

(** The part of the RandomX library the node calls.  [randomx_alloc_cache] and
    [randomx_create_vm] may return null. *)
Class RandomXLib := {
  randomx_cache : Type;
  randomx_vm : Type;
  randomx_init_cache : bytes -> option randomx_cache;   (** allocation and initialisation *)
  randomx_create_vm : randomx_cache -> option randomx_vm;
  randomx_calculate_hash : randomx_vm -> bytes -> bytes;
  randomx_calculate_commitment : bytes -> bytes -> bytes
}.

(** [enum class POWVerifyMode]. *)
Inductive POWVerifyMode := FULL | COMMITMENT_ONLY | MINING.
#[export] Instance POWVerifyMode_eq_dec : EqDecision POWVerifyMode.
Proof. solve_decision. Defined.

(** Exceptions as values. *)
Definition result (A : Type) : Type := A + string.

Module Rx.

Definition GetEpoch (nTime nDuration : Z) : Z := nTime / nDuration.

(** [snprintf] of the epoch with ["%d"], which reads the [uint32_t] as an [int]. *)
Definition seed_string (nEpoch : Z) : string :=
  ("Alpha/RandomX/Epoch/" ++ NilZero.string_of_int (Z.to_int (i32 nEpoch)))%string.

Definition GetSeedHash (nEpoch : Z) : uint256 :=
  let h1 := Sha256.Finalize (Sha256.Write Sha256.CSHA256_new (str (seed_string nEpoch))) in
  Sha256.Finalize (Sha256.Write Sha256.CSHA256_new h1).

(** The memory image of a [CBlockHeader] object: its members in order, without
    padding, integers in host byte order. *)
Definition object_bytes (h : Endian.host) (b : CBlockHeader) : bytes :=
  Endian.store h 4 (u32 (nVersion b)) ++ hashPrevBlock b ++ minerAddress b ++
  Endian.store h 4 (nTime b) ++ Endian.store h 4 (nBits b) ++ Endian.store h 4 (nNonce b) ++ hashRandomX b.

Definition clear_hashRandomX (b : CBlockHeader) : CBlockHeader :=
  mkHeader (nVersion b) (hashPrevBlock b) (minerAddress b) (nTime b) (nBits b) (nNonce b) (Blob.SetNull 32).
Definition set_hashRandomX (x : uint256) (b : CBlockHeader) : CBlockHeader :=
  mkHeader (nVersion b) (hashPrevBlock b) (minerAddress b) (nTime b) (nBits b) (nNonce b) x.

Section Code.
Context `{RandomXLib} (h : Endian.host).

(** The initialisation flag and the two thread-local caches. *)
Record state := mkState {
  g_randomx_initialized : bool;
  t_cache_storage : gmap Z randomx_cache;
  t_vm_cache : gmap Z randomx_vm
}.

Definition InitRandomX (s : state) : state :=
  if g_randomx_initialized s then s else mkState true (t_cache_storage s) (t_vm_cache s).
Definition ShutdownRandomX (s : state) : state :=
  if negb (g_randomx_initialized s) then s else mkState false ∅ ∅.

(** The thread's cache for an epoch, created on first use. *)
Definition epoch_cache (s : state) (nEpoch : Z) : result randomx_cache * state :=
  match t_cache_storage s !! nEpoch with
  | Some c => (inl c, s)
  | None =>
      match randomx_init_cache (GetSeedHash nEpoch) with
      | None => (inr "Failed to allocate RandomX cache"%string, s)
      | Some c => (inl c, mkState (g_randomx_initialized s) (<[nEpoch := c]> (t_cache_storage s)) (t_vm_cache s))
      end
  end.

Definition GetCachedVM (s : state) (nEpoch : Z) : result randomx_vm * state :=
  if negb (g_randomx_initialized s) then (inr "RandomX not initialized"%string, s)
  else match t_vm_cache s !! nEpoch with
  | Some vm => (inl vm, s)
  | None =>
      match epoch_cache s nEpoch with
      | (inr e, s) => (inr e, s)
      | (inl c, s) =>
          match randomx_create_vm c with
          | None => (inr "Failed to create RandomX VM"%string, s)
          | Some vm => (inl vm, mkState (g_randomx_initialized s) (t_cache_storage s) (<[nEpoch := vm]> (t_vm_cache s)))
          end
      end
  end.

(** [CreateVMForEpoch]: a VM that is not cached. *)
Definition CreateVMForEpoch (s : state) (nEpoch : Z) : result randomx_vm * state :=
  if negb (g_randomx_initialized s) then (inr "RandomX not initialized"%string, s)
  else match epoch_cache s nEpoch with
  | (inr e, s) => (inr e, s)
  | (inl c, s) =>
      match randomx_create_vm c with
      | None => (inr "Failed to create RandomX VM for parallel verification"%string, s)
      | Some vm => (inl vm, s)
      end
  end.

Definition GetRandomXCommitment (block : CBlockHeader) (inHash : option uint256) : uint256 :=
  let rx_hash := match inHash with None => hashRandomX block | Some x => x end in
  randomx_calculate_commitment (object_bytes h (clear_hashRandomX block)) rx_hash.

(** The RandomX part of [CheckProofOfWork]: the hash of the header, from the VM of its epoch. *)
Definition compute_hash (s : state) (block : CBlockHeader) (nEpochDuration : Z) : result bytes * state :=
  match GetCachedVM s (GetEpoch (nTime block) nEpochDuration) with
  | (inr e, s) => (inr e, s)
  | (inl vm, s) => (inl (randomx_calculate_hash vm (object_bytes h (clear_hashRandomX block))), s)
  end.

(** The final sanity check on what was verified. *)
Definition verified (fHashVerified fCommitmentVerified : bool) (mode : POWVerifyMode) : bool :=
  (fHashVerified && fCommitmentVerified) ||
  (bool_decide (mode = COMMITMENT_ONLY) && negb fHashVerified && fCommitmentVerified).

(** [CheckProofOfWork]: the verdict with the value stored through [outHash] (when a pointer
    was passed and the check succeeds), or an exception. *)
Definition CheckProofOfWork (s : state) (block : CBlockHeader) (nBits : Z) (params : ChainParams)
  (mode : POWVerifyMode) (outHash : bool) : result (bool * option uint256) * state :=
  let nEpochDuration := u32 (nRandomXEpochDuration (consensus params)) in
  let '(bnTarget, fNegative, fOverflow) := SetCompact (U := Z) nBits in
  let no := (inl (false, None)) in
  if fNegative || (bnTarget =? 0) || fOverflow then (no, s)
  else if negb outHash && bool_decide (mode = MINING) then
    (inr "MINING mode requires outHash parameter"%string, s)
  else if negb (bool_decide (mode = MINING)) &&
          (Blob.IsNull (hashRandomX block) || (bnTarget <? Pow.arith_of (GetRandomXCommitment block None))) then (no, s)
  else
    let fCommitmentVerified := negb (bool_decide (mode = MINING)) in
    if bool_decide (mode = FULL) || bool_decide (mode = MINING) then
      match compute_hash s block nEpochDuration with
      | (inr e, s) => (inr e, s)
      | (inl rx_hash, s) =>
          if negb (bool_decide (mode = MINING)) then
            if negb (bool_decide (rx_hash = hashRandomX block)) then (no, s)
            else if negb (verified true fCommitmentVerified mode) then (no, s)
            else (inl (true, if outHash then Some (hashRandomX block) else None), s)
          else if bnTarget <? Pow.arith_of (GetRandomXCommitment block (Some rx_hash)) then (no, s)
          else if negb (verified true true mode) then (no, s)
          else (inl (true, if outHash then Some rx_hash else None), s)
      end
    else if negb (verified false fCommitmentVerified mode) then (no, s)
    else (inl (true, if outHash then Some (hashRandomX block) else None), s).
End Code.
End Rx.

(** ** Properties *)

Section Laws.
Context `{RandomXLib} (h : Endian.host).

(** The VM that the library builds for an epoch, when allocation succeeds. *)
Definition epoch_vm (nEpoch : Z) : option randomx_vm :=
  match randomx_init_cache (Rx.GetSeedHash nEpoch) with
  | Some c => randomx_create_vm c
  | None => None
  end.

(** Every cached object was built for its epoch. *)
Definition caches_ok (s : Rx.state) : Prop :=
  (forall e c, Rx.t_cache_storage s !! e = Some c -> randomx_init_cache (Rx.GetSeedHash e) = Some c) /\
  (forall e vm, Rx.t_vm_cache s !! e = Some vm -> epoch_vm e = Some vm).

Lemma epoch_cache_ok s e : caches_ok s ->
  caches_ok (snd (Rx.epoch_cache s e)) /\
  match fst (Rx.epoch_cache s e) with
  | inl c => randomx_init_cache (Rx.GetSeedHash e) = Some c
  | inr _ => randomx_init_cache (Rx.GetSeedHash e) = None
  end /\ Rx.g_randomx_initialized (snd (Rx.epoch_cache s e)) = Rx.g_randomx_initialized s.
Proof.
  intros [Hc Hv]. unfold Rx.epoch_cache. destruct (Rx.t_cache_storage s !! e) as [c|] eqn:E.
  - split_and!; [done|by apply Hc|done].
  - destruct (randomx_init_cache (Rx.GetSeedHash e)) as [c|] eqn:Ei; [|split_and!; done].
    split_and!; [|done..]. split; cbn; [|done]. intros e' c'. rewrite lookup_insert_Some.
    intros [[<- <-]|[_ ?]]; [done|by apply Hc].
Qed.

(** The result of [GetCachedVM] does not depend on what is cached. *)
Lemma GetCachedVM_ok s e : caches_ok s -> Rx.g_randomx_initialized s = true ->
  caches_ok (snd (Rx.GetCachedVM s e)) /\
  match fst (Rx.GetCachedVM s e) with inl vm => epoch_vm e = Some vm | inr _ => epoch_vm e = None end.
Proof.
  intros Hok Hi. unfold Rx.GetCachedVM. rewrite Hi. cbn [negb].
  destruct (Rx.t_vm_cache s !! e) as [vm|] eqn:E; [split; [done|by apply Hok]|].
  pose proof (epoch_cache_ok s e Hok) as (Hok' & Hr & _). destruct (Rx.epoch_cache s e) as [[c|err] s'];
    cbn [fst snd] in *; unfold epoch_vm in *; [|rewrite Hr; done].
  rewrite Hr. destruct (randomx_create_vm c) as [vm|] eqn:Ev; cbn [fst snd]; [|done]. split; [|done].
  destruct Hok' as [H1 H2]. split; cbn; [done|]. intros e' vm'. rewrite lookup_insert_Some. unfold epoch_vm.
  intros [[<- <-]|[_ ?]]; [by rewrite Hr|by apply H2].
Qed.

Definition epoch_of (params : ChainParams) (b : CBlockHeader) : Z :=
  Rx.GetEpoch (nTime b) (u32 (nRandomXEpochDuration (consensus params))).

(** The RandomX hash of a header. *)
Definition rx_hash_of (params : ChainParams) (b : CBlockHeader) : option bytes :=
  option_map (fun vm => randomx_calculate_hash vm (Rx.object_bytes h (Rx.clear_hashRandomX b)))
             (epoch_vm (epoch_of params b)).

Lemma compute_hash_ok s b params : caches_ok s -> Rx.g_randomx_initialized s = true ->
  caches_ok (snd (Rx.compute_hash h s b (u32 (nRandomXEpochDuration (consensus params))))) /\
  match fst (Rx.compute_hash h s b (u32 (nRandomXEpochDuration (consensus params)))) with
  | inl x => rx_hash_of params b = Some x
  | inr _ => rx_hash_of params b = None
  end.
Proof.
  intros Hok Hi. unfold Rx.compute_hash, rx_hash_of. fold (epoch_of params b).
  pose proof (GetCachedVM_ok s (epoch_of params b) Hok Hi) as [H1 H2].
  destruct (Rx.GetCachedVM s (epoch_of params b)) as [[vm|err] s']; cbn [fst snd] in *; by rewrite H2.
Qed.

Definition commitment_ok (b : CBlockHeader) (nBits : Z) (x : uint256) : Prop :=
  c_valid nBits = true /\ Pow.arith_of (Rx.GetRandomXCommitment h b (Some x)) <= c_value nBits.

Definition accepts (r : Rx.state -> result (bool * option uint256) * Rx.state) (s : Rx.state) : Prop :=
  exists o, fst (r s) = inl (true, o).

Lemma pow_target nBits : in_u 32 nBits -> exists t neg ovf, SetCompact (U := Z) nBits = (t, neg, ovf) /\
  (neg || (t =? 0) || ovf) = negb (c_valid nBits) /\ (c_valid nBits = true -> t = c_value nBits).
Proof.
  intros Hn. destruct (set_compact_valid (U := Z) nBits Hn) as (t & neg & ovf & E & _ & Hb & Hv).
  exists t, neg, ovf. split; [done|]. split; [|done]. rewrite <- Hb. cbn. by destruct neg, ovf, (t =? 0).
Qed.

(** Evaluate the tests on a known mode. *)
Ltac mode_simpl :=
  unfold Rx.verified;
  repeat match goal with
  | |- context [bool_decide (?a = ?b :> POWVerifyMode)] =>
      let v := eval vm_compute in (bool_decide (a = b)) in change (bool_decide (a = b)) with v
  end; cbn [andb orb negb].

Lemma check_commitment s b nBits params : in_u 32 nBits ->
  accepts (fun s => Rx.CheckProofOfWork h s b nBits params COMMITMENT_ONLY false) s <->
  commitment_ok b nBits (hashRandomX b) /\ Blob.IsNull (hashRandomX b) = false.
Proof.
  intros Hn. unfold accepts, Rx.CheckProofOfWork, commitment_ok.
  destruct (pow_target nBits Hn) as (t & neg & ovf & -> & -> & Ht). cbv zeta. mode_simpl.
  destruct (c_valid nBits); cbn -[Rx.GetRandomXCommitment]; [rewrite (Ht eq_refl)|].
  2:{ split; [by intros [? ?]|by intros [[? _] _]]. }
  destruct (Blob.IsNull (hashRandomX b)); cbn -[Rx.GetRandomXCommitment].
  { split; [by intros [? ?]|by intros [_ ?]]. }
  change (Rx.GetRandomXCommitment h b (Some (hashRandomX b))) with (Rx.GetRandomXCommitment h b None).
  destruct (Z.ltb_spec (c_value nBits) (Pow.arith_of (Rx.GetRandomXCommitment h b None))); cbn.
  - split; [by intros [? ?]|]. intros [[_ ?] _]. lia.
  - split; [done|]. intros _. by eexists.
Qed.

Lemma check_full s b nBits params : caches_ok s -> Rx.g_randomx_initialized s = true -> in_u 32 nBits ->
  accepts (fun s => Rx.CheckProofOfWork h s b nBits params FULL false) s <->
  commitment_ok b nBits (hashRandomX b) /\ Blob.IsNull (hashRandomX b) = false /\
  rx_hash_of params b = Some (hashRandomX b).
Proof.
  intros Hok Hi Hn. unfold accepts, Rx.CheckProofOfWork, commitment_ok.
  destruct (pow_target nBits Hn) as (t & neg & ovf & -> & -> & Ht). cbv zeta. mode_simpl.
  pose proof (compute_hash_ok s b params Hok Hi) as [_ Hc].
  destruct (Rx.compute_hash h s b (u32 (nRandomXEpochDuration (consensus params)))) as [r s'].
  change (Rx.GetRandomXCommitment h b (Some (hashRandomX b))) with (Rx.GetRandomXCommitment h b None).
  destruct (c_valid nBits); cbn -[Rx.GetRandomXCommitment]; [rewrite (Ht eq_refl)|].
  2:{ split; [by intros [? ?]|by intros [[? _] _]]. }
  destruct (Blob.IsNull (hashRandomX b)); cbn -[Rx.GetRandomXCommitment].
  { split; [by intros [? ?]|by intros (_ & ? & _)]. }
  destruct (Z.ltb_spec (c_value nBits) (Pow.arith_of (Rx.GetRandomXCommitment h b None)));
    cbn -[Rx.GetRandomXCommitment].
  { split; [by intros [? ?]|]. intros [[_ ?] _]. lia. }
  cbn [fst] in Hc. destruct r as [x|err]; rewrite Hc.
  - destruct (decide (x = hashRandomX b)) as [->|Hne].
    + rewrite bool_decide_true by done. cbn. split; [done|]. intros _. by eexists.
    + rewrite bool_decide_false by done. cbn. split; [by intros [? ?]|]. intros (_ & _ & ?). congruence.
  - cbn. split; [by intros [? ?]|by intros (_ & _ & ?)].
Qed.

(** Only an allocation failure makes a check throw, and the commitment check never does. *)
Lemma check_commitment_returns s b nBits params :
  exists r, fst (Rx.CheckProofOfWork h s b nBits params COMMITMENT_ONLY false) = inl r.
Proof.
  unfold Rx.CheckProofOfWork. destruct (SetCompact (U := Z) nBits) as [[t neg] ovf]. cbv zeta. mode_simpl.
  repeat case_match; by eexists.
Qed.

Lemma check_full_returns s b nBits params : caches_ok s -> Rx.g_randomx_initialized s = true ->
  is_Some (rx_hash_of params b) -> exists r, fst (Rx.CheckProofOfWork h s b nBits params FULL false) = inl r.
Proof.
  intros Hok Hi [x Hx]. unfold Rx.CheckProofOfWork. destruct (SetCompact (U := Z) nBits) as [[t neg] ovf]. cbv zeta. mode_simpl.
  pose proof (compute_hash_ok s b params Hok Hi) as [_ Hc].
  destruct (Rx.compute_hash h s b (u32 (nRandomXEpochDuration (consensus params)))) as [[y|err] s']; cbn [fst] in Hc; [|congruence].
  repeat case_match; by eexists.
Qed.

Lemma check_mining s b nBits params x : caches_ok s -> Rx.g_randomx_initialized s = true -> in_u 32 nBits ->
  fst (Rx.CheckProofOfWork h s b nBits params MINING true) = inl (true, Some x) <->
  rx_hash_of params b = Some x /\ commitment_ok b nBits x.
Proof.
  intros Hok Hi Hn. unfold Rx.CheckProofOfWork, commitment_ok.
  destruct (pow_target nBits Hn) as (t & neg & ovf & -> & -> & Ht). cbv zeta. mode_simpl.
  pose proof (compute_hash_ok s b params Hok Hi) as [_ Hc].
  destruct (Rx.compute_hash h s b (u32 (nRandomXEpochDuration (consensus params)))) as [r s'].
  destruct (c_valid nBits); cbn -[Rx.GetRandomXCommitment]; [rewrite (Ht eq_refl)|].
  2:{ split; [done|by intros (_ & ? & _)]. }
  cbn [fst] in Hc. destruct r as [y|err]; rewrite Hc; [|split; [done|by intros [? _]]].
  destruct (Z.ltb_spec (c_value nBits) (Pow.arith_of (Rx.GetRandomXCommitment h b (Some y))));
    cbn -[Rx.GetRandomXCommitment].
  - split; [done|]. intros ([= <-] & _ & ?). lia.
  - split; [by intros [= <-]|]. by intros ([= <-] & _).
Qed.

(** A mining attempt returns, with the hash when it succeeds. *)
Lemma check_mining_returns s b nBits params : caches_ok s -> Rx.g_randomx_initialized s = true ->
  is_Some (rx_hash_of params b) ->
  exists r : option uint256, fst (Rx.CheckProofOfWork h s b nBits params MINING true) =
    inl (match r with Some x => (true, Some x) | None => (false, None) end).
Proof.
  intros Hok Hi [y Hy]. unfold Rx.CheckProofOfWork. destruct (SetCompact nBits) as [[t neg] ovf]. cbv zeta. mode_simpl.
  destruct (_ || _); [by exists None|]. pose proof (compute_hash_ok s b params Hok Hi) as [_ Hc].
  destruct (Rx.compute_hash h s b (u32 (nRandomXEpochDuration (consensus params)))) as [[x|err] s']; cbn [fst] in Hc; [|congruence].
  destruct (_ <? _); [by exists None|by exists (Some x)].
Qed.

(** what proof of work a header needs in each mode.  In full mode it must carry a
    non-null RandomX hash that is the hash of the header with the VM of its epoch, and its commitment
    must not exceed the target; in commitment-only mode the hash itself is not recomputed; in mining mode
    the commitment of the computed hash must meet the target, the hash is stored, and the
    header completed with it (when it is not null) passes the full check.  The verdict does not
    depend on which caches and VMs the thread already holds. *)
Theorem check_pow_exact (s : Rx.state) (b : CBlockHeader) (nBits : Z) (params : ChainParams) :
  caches_ok s -> Rx.g_randomx_initialized s = true -> in_u 32 nBits ->
  (accepts (fun s => Rx.CheckProofOfWork h s b nBits params COMMITMENT_ONLY false) s <->
     commitment_ok b nBits (hashRandomX b) /\ Blob.IsNull (hashRandomX b) = false) /\
  (accepts (fun s => Rx.CheckProofOfWork h s b nBits params FULL false) s <->
     commitment_ok b nBits (hashRandomX b) /\ Blob.IsNull (hashRandomX b) = false /\
     rx_hash_of params b = Some (hashRandomX b)) /\
  (forall x, fst (Rx.CheckProofOfWork h s b nBits params MINING true) = inl (true, Some x) <->
     rx_hash_of params b = Some x /\ commitment_ok b nBits x) /\
  (forall x, fst (Rx.CheckProofOfWork h s b nBits params MINING true) = inl (true, Some x) ->
     Blob.IsNull x = false ->
     accepts (fun s => Rx.CheckProofOfWork h s (Rx.set_hashRandomX x b) nBits params FULL false) s).
Proof.
  intros Hok Hi Hn. split; [by apply check_commitment|]. split; [by apply check_full|].
  split; [intros x; by apply check_mining|]. intros x Hx Hnull. apply check_mining in Hx as [Hx Hc]; [|done..].
  apply check_full; [done..|]. cbn [hashRandomX Rx.set_hashRandomX]. split_and!; [|done|].
  - exact Hc.
  - exact Hx.
Qed.
End Laws.

(** A toy RandomX: the first 32 bytes of the key and input. *)
#[local] Instance toy_lib : RandomXLib := {|
  randomx_cache := bytes; randomx_vm := bytes;
  randomx_init_cache k := Some k; randomx_create_vm c := Some c;
  randomx_calculate_hash vm x := take 32 (vm ++ x);
  randomx_calculate_commitment x r := Blob.SetNull 32 |}.

Definition toy_header : CBlockHeader := mkHeader 1 (Blob.SetNull 32) (Blob.SetNull 20) 1761330012 0x1f06a000 0 (Blob.SetNull 32).

Lemma check_pow_exact_witness :
  exists p, Params.Select 0 0 MAIN = Some p /\
  let s := Rx.InitRandomX (Rx.mkState false ∅ ∅) in
  let b := Rx.set_hashRandomX (Rx.GetSeedHash (epoch_of p toy_header)) toy_header in
  (accepts (fun s => Rx.CheckProofOfWork Endian.Little s b 0x1f06a000 p FULL false) s <->
     commitment_ok Endian.Little b 0x1f06a000 (hashRandomX b) /\ Blob.IsNull (hashRandomX b) = false /\
     rx_hash_of Endian.Little p b = Some (hashRandomX b)).
Proof.
  destruct (select_ok 0 0 MAIN) as (p & E & _). exists p. split; [exact E|]. intros s b.
  apply (check_pow_exact Endian.Little s b 0x1f06a000 p); [split; intros ?? Hl; vm_compute in Hl; discriminate Hl|done|unfold in_u; lia].
Defined.
