(* ===== verification/Validation.v ===== *)
(** * Validation: the header checks of [chain/validation.hpp/.cpp]

    [CheckBlockHeader] and [ContextualCheckBlockHeader] with the reasons they
    reject for, and the work and continuity checks on batches of headers. *)
From Stdlib Require Import String DecimalString.
From S2P Require Import Prelude Arith Bytes Compact Sha256 Block BlockIndex ChainParams Pow RandomX.
#[local] Open Scope Z_scope.
Import Idx (CBlockIndex, mkIndex, nHeight, pprev, pskip, nChainWork, nStatus, nTimeMax, nTimeReceived).

(** [class ValidationState]. *)
Inductive Result := VALID | INVALID | ERROR.
#[export] Instance Result_eq_dec : EqDecision Result.
Proof. solve_decision. Defined.
Record ValidationState := mkVState { result_ : Result; reject_reason_ : string; debug_message_ : string }.

Module Val.

Definition fresh : ValidationState := mkVState VALID "" "".
Definition IsValid (s : ValidationState) : bool := bool_decide (result_ s = VALID).
Definition IsInvalid (s : ValidationState) : bool := bool_decide (result_ s = INVALID).
Definition IsError (s : ValidationState) : bool := bool_decide (result_ s = ERROR).
(** [Invalid] and [Error] overwrite the state and return false. *)
Definition Invalid (reason debug : string) : bool * ValidationState := (false, mkVState INVALID reason debug).
Definition Error (reason debug : string) : bool * ValidationState := (false, mkVState ERROR reason debug).

Definition to_string (n : Z) : string := NilZero.string_of_int (Z.to_int n).

Definition MAX_FUTURE_BLOCK_TIME : Z := 2 * 60 * 60.

Section Pow.
Context `{RandomXLib} (h : Endian.host).

(** [CheckBlockHeader]: an exception of the proof-of-work check propagates. *)
Definition CheckBlockHeader (rx : Rx.state) (header : CBlockHeader) (params : ChainParams) (state : ValidationState)
  : RandomX.result (bool * ValidationState) * Rx.state :=
  match Rx.CheckProofOfWork h rx header (nBits header) params FULL false with
  | (inr e, rx) => (inr e, rx)
  | (inl (ok, _), rx) =>
      (inl (if negb ok then Invalid "high-hash" "proof of work failed" else (true, state)), rx)
  end.

(** [CheckHeadersPoW]: the first header that fails (or throws) ends the loop. *)
Fixpoint CheckHeadersPoW (rx : Rx.state) (headers : list CBlockHeader) (params : ChainParams)
  : RandomX.result bool * Rx.state :=
  match headers with
  | [] => (inl true, rx)
  | header :: rest =>
      match Rx.CheckProofOfWork h rx header (nBits header) params COMMITMENT_ONLY false with
      | (inr e, rx) => (inr e, rx)
      | (inl (ok, _), rx) => if negb ok then (inl false, rx) else CheckHeadersPoW rx rest params
      end
  end.
End Pow.

(** [ContextualCheckBlockHeader]; [None] is a failed assertion in the difficulty computation. *)
Definition ContextualCheckBlockHeader (m : block_map) (header : CBlockHeader) (pindexPrev : option block_ptr)
  (params : ChainParams) (adjusted_time : Z) (state : ValidationState) : option (bool * ValidationState) :=
  match Pow.GetNextWorkRequired m pindexPrev params with
  | None => None
  | Some expected_bits =>
      Some (
        if negb (nBits header =? expected_bits) then
          Invalid "bad-diffbits" ("incorrect difficulty: expected " ++ to_string expected_bits ++ ", got " ++
                                  to_string (nBits header))%string
        else
          let median_time_past := match pindexPrev with Some p => GetMedianTimePast m p | None => 0 end in
          if bool_decide (is_Some pindexPrev) && (nTime header <=? median_time_past) then
            Invalid "time-too-old" ("block's timestamp is too early: " ++ to_string (nTime header) ++ " <= " ++
                                    to_string median_time_past)%string
          else if adjusted_time + MAX_FUTURE_BLOCK_TIME <? nTime header then
            Invalid "time-too-new" ("block timestamp too far in future: " ++ to_string (nTime header) ++ " > " ++
                                    to_string (adjusted_time + MAX_FUTURE_BLOCK_TIME))%string
          else if nVersion header <? 1 then
            Invalid "bad-version" ("block version too old: " ++ to_string (nVersion header))%string
          else
            let c := consensus params in
            let currentHeight := match pindexPrev with Some p => deref nHeight 0 m p + 1 | None => 0 end in
            if (0 <? nNetworkExpirationInterval c) && (nNetworkExpirationInterval c <=? currentHeight) then
              Invalid "network-expired" ("Network expired at block " ++ to_string (nNetworkExpirationInterval c) ++
                ". This version is outdated. Please update to the latest version to continue.")%string
            else (true, state))
  end.

(** [GetAdjustedTime] from the clock and the offset of the peers. *)
Definition GetAdjustedTime (now offset : Z) : Z := i64 (now + offset).

(** [GetAntiDoSWorkThreshold]; the product with the block count wraps like the source's. *)
Definition GetAntiDoSWorkThreshold (tip : option CBlockIndex) (params : ChainParams) (is_ibd : bool) : Z :=
  if is_ibd then 0
  else
    let near_tip_work :=
      match tip with
      | None => 0
      | Some t =>
          let block_proof := GetBlockProof t in
          let buffer := au_mul32 (BITS := 256) block_proof (u32 (nAntiDosWorkBufferBlocks (consensus params))) in
          au_sub (BITS := 256) (nChainWork t) (Z.min buffer (nChainWork t))
      end in
    Z.max near_tip_work (Pow.arith_of (nMinimumChainWork (consensus params))).

(** [CalculateHeadersWork]. *)
Definition CalculateHeadersWork (headers : list CBlockHeader) : Z :=
  foldl (fun total_work header =>
           au_add (BITS := 256) total_work (default 0 (header_work_ (U := Z) (nBits header)))) 0 headers.

(** [CheckHeadersAreContinuous]: the loop over adjacent pairs. *)
Fixpoint CheckHeadersAreContinuous (headers : list CBlockHeader) : bool :=
  match headers with
  | prev :: ((cur :: _) as rest) =>
      if negb (Blob.eqb (hashPrevBlock cur) (Header.GetHash prev)) then false else CheckHeadersAreContinuous rest
  | _ => true
  end.

End Val.

(** ** Lemmas *)

Lemma GetBlockProof_eq b : in_u 32 (Idx.nBits b) -> GetBlockProof b = work_of (Idx.nBits b).
Proof.
  intros Hb. unfold GetBlockProof. destruct (GetBlockProof_work (U := Z) _ Hb) as (w & -> & _ & Hw). exact Hw.
Qed.

Lemma header_work_work c : in_u 32 c -> default 0 (header_work_ (U := Z) c) = work_of c.
Proof.
  intros Hc. rewrite header_work_eq by done. destruct (GetBlockProof_work (U := Z) c Hc) as (w & -> & _ & Hw). exact Hw.
Qed.

Definition total_work (headers : list CBlockHeader) : Z := foldr (fun h acc => work_of (nBits h) + acc) 0 headers.

Lemma headers_work_mod headers acc : Forall (fun h => in_u 32 (nBits h)) headers -> 0 <= acc < 2 ^ 256 ->
  foldl (fun total h => au_add (BITS := 256) total (default 0 (header_work_ (U := Z) (nBits h)))) acc headers =
  (acc + total_work headers) mod 2 ^ 256.
Proof.
  intros Hh. revert acc. induction Hh as [|h headers Hb Hh IH]; intros acc Ha; cbn [foldl total_work foldr].
  - rewrite Z.add_0_r. by rewrite Z.mod_small.
  - rewrite header_work_work by done. change (au_add acc (work_of (nBits h))) with ((acc + work_of (nBits h)) mod 2 ^ 256).
    rewrite IH by (apply Z.mod_pos_bound; lia). rewrite Z.add_mod_idemp_l by lia. f_equal. unfold total_work. lia.
Qed.

(** A rejection: the result is false with one of the listed reasons. *)
Ltac rejected :=
  unfold Val.Invalid; cbn [fst snd result_ reject_reason_];
  split; [split; [discriminate|]|split; [reflexivity|repeat first [apply list_elem_of_here|apply list_elem_of_further]]].

(** What the contextual check answers on each branch. *)
Lemma contextual_check_ok (m : block_map) (header : CBlockHeader) (prev : block_ptr) (bp : CBlockIndex)
  (params : ChainParams) (now : Z) (state : ValidationState) :
  tree_wf m -> fields_wf m -> params_wf params -> m !! prev = Some bp -> nHeight bp < 2 ^ 31 ->
  (forall a ba, m !! a = Some ba -> nHeight ba = 1 -> chainType params <> REGTEST ->
     bits_within (Pow.arith_of (powLimit (consensus params))) (Idx.nBits ba)) ->
  exists r, Val.ContextualCheckBlockHeader m header (Some prev) params now state = Some r /\
    (fst r = true <->
       Pow.GetNextWorkRequired m (Some prev) params = Some (nBits header) /\
       GetMedianTimePast m prev < nTime header <= now + 7200 /\ 1 <= nVersion header /\
       (nNetworkExpirationInterval (consensus params) <= 0 \/
        nHeight bp + 1 < nNetworkExpirationInterval (consensus params))) /\
    (if fst r then snd r = state
     else result_ (snd r) = INVALID /\
       reject_reason_ (snd r) ∈ ["bad-diffbits"; "time-too-old"; "time-too-new"; "bad-version"; "network-expired"]%string).
Proof.
  intros Hwf Hf Hp Hprev Hh Hanch.
  destruct (next_work_ok m (Some prev) params Hwf Hf Hp (ex_intro _ bp (conj Hprev Hh)) Hanch) as (c & E & _).
  unfold Val.ContextualCheckBlockHeader. rewrite E, bool_decide_true by done. eexists. split; [done|].
  rewrite (deref_eq nHeight 0 m prev bp Hprev). cbn [andb]. unfold Val.MAX_FUTURE_BLOCK_TIME.
  destruct (Z.eqb_spec (nBits header) c) as [->|Hne]; cbn [negb].
  2:{ rejected. intros [[= ?] _]. by subst. }
  cbv zeta. destruct (Z.leb_spec (nTime header) (GetMedianTimePast m prev)).
  { rejected. intros (_ & ? & _). lia. }
  destruct (Z.ltb_spec (now + 2 * 60 * 60) (nTime header)).
  { rejected. intros (_ & ? & _). lia. }
  destruct (Z.ltb_spec (nVersion header) 1).
  { rejected. intros (_ & _ & ? & _). lia. }
  destruct (Z.ltb_spec 0 (nNetworkExpirationInterval (consensus params))),
    (Z.leb_spec (nNetworkExpirationInterval (consensus params)) (nHeight bp + 1)); cbn [andb];
    try (rejected; intros (_ & _ & _ & ?); lia);
    (cbn [fst snd]; split; [|done]; split; [|done]; intros _; split_and!; try done; lia).
Qed.

(** ** Properties *)

(** [ContextualCheckBlockHeader] never fails an assertion on a well-formed index with valid
    anchors, and accepts a header (leaving the state untouched) exactly when its bits are the
    required ones, its time is after the parent's median time past and at most two hours ahead of
    the adjusted time, its version is positive and the network has not expired at its height. *)
Theorem contextual_check_exact (m : block_map) (header : CBlockHeader) (prev : block_ptr) (bp : CBlockIndex)
  (params : ChainParams) (now : Z) (state : ValidationState) :
  tree_wf m -> fields_wf m -> params_wf params -> m !! prev = Some bp -> nHeight bp < 2 ^ 31 ->
  (forall a ba, m !! a = Some ba -> nHeight ba = 1 -> chainType params <> REGTEST ->
     bits_within (Pow.arith_of (powLimit (consensus params))) (Idx.nBits ba)) ->
  exists r, Val.ContextualCheckBlockHeader m header (Some prev) params now state = Some r /\
    (fst r = true <->
       Pow.GetNextWorkRequired m (Some prev) params = Some (nBits header) /\
       GetMedianTimePast m prev < nTime header <= now + 7200 /\ 1 <= nVersion header /\
       (nNetworkExpirationInterval (consensus params) <= 0 \/
        nHeight bp + 1 < nNetworkExpirationInterval (consensus params))) /\
    (if fst r then snd r = state
     else result_ (snd r) = INVALID /\
       reject_reason_ (snd r) ∈ ["bad-diffbits"; "time-too-old"; "time-too-new"; "bad-version"; "network-expired"]%string).
Proof. apply contextual_check_ok. Qed.

Lemma contextual_check_exact_witness :
  let header := mkHeader 1 [3] (Blob.SetNull 20) 400 0x1f0b8dfb 0 (Blob.SetNull 32) in
  exists p, Params.Select 0 0 MAIN = Some p /\
  exists r, Val.ContextualCheckBlockHeader sample header (Some [3]) p 1000 Val.fresh = Some r /\
    (fst r = true <->
       Pow.GetNextWorkRequired sample (Some [3]) p = Some (nBits header) /\
       GetMedianTimePast sample [3] < nTime header <= 1000 + 7200 /\ 1 <= nVersion header /\
       (nNetworkExpirationInterval (consensus p) <= 0 \/ 3 + 1 < nNetworkExpirationInterval (consensus p))) /\
    (if fst r then snd r = Val.fresh
     else result_ (snd r) = INVALID /\
       reject_reason_ (snd r) ∈ ["bad-diffbits"; "time-too-old"; "time-too-new"; "bad-version"; "network-expired"]%string).
Proof.
  intros header. destruct (select_ok 0 0 MAIN) as (p & E & _ & Hp & _ & _ & _ & Eb & Hb & _). exists p. split; [exact E|].
  rewrite Eb in Hb.
  apply (contextual_check_exact sample header [3] (sample_entry (Some [2]) (Some [1]) 3 200) p 1000 Val.fresh);
    [apply sample_wf|apply sample_fields|exact Hp|reflexivity|cbn; lia|].
  intros a ba Ha _ _. assert (Idx.nBits ba = 0x1f06a000) as ->; [|exact Hb].
  unfold sample in Ha. lookup_cases Ha; reflexivity.
Defined.

(** [CalculateHeadersWork] is the sum of [floor(2^256 / (target + 1))] over the headers
    with valid bits (the others count 0), reduced modulo [2^256]; without overflow it is additive over
    concatenation. *)
Theorem headers_work_exact (headers more : list CBlockHeader) :
  Forall (fun h => in_u 32 (nBits h)) (headers ++ more) ->
  Val.CalculateHeadersWork headers = total_work headers mod 2 ^ 256 /\
  (total_work (headers ++ more) < 2 ^ 256 ->
   Val.CalculateHeadersWork (headers ++ more) = Val.CalculateHeadersWork headers + Val.CalculateHeadersWork more).
Proof.
  intros [Hh Hm]%Forall_app. unfold Val.CalculateHeadersWork.
  assert (Happ : total_work (headers ++ more) = total_work headers + total_work more).
  { clear Hh. induction headers as [|x l IH]; [done|]. cbn [app total_work foldr] in *. fold (total_work l). unfold total_work in *. lia. }
  assert (Hnn : forall l, Forall (fun h => in_u 32 (nBits h)) l -> 0 <= total_work l).
  { induction 1 as [|x l Hx Hl IH]; [done|]. cbn [total_work foldr]. fold (total_work l).
    pose proof (work_of_range (nBits x) (proj1 Hx)). lia. }
  pose proof (Hnn _ Hh). pose proof (Hnn _ Hm).
  rewrite !headers_work_mod by (first [lia|by apply Forall_app|done]). rewrite !Z.add_0_l. split; [done|].
  intros Hlt. rewrite Happ in *. by rewrite !Z.mod_small by lia.
Qed.

Lemma headers_work_exact_witness :
  let g := Params.CreateGenesisBlock 1296688602 2 0x207fffff 1 in
  Val.CalculateHeadersWork [g] = total_work [g] mod 2 ^ 256 /\
  (total_work ([g] ++ [g]) < 2 ^ 256 ->
   Val.CalculateHeadersWork ([g] ++ [g]) = Val.CalculateHeadersWork [g] + Val.CalculateHeadersWork [g]).
Proof. intros g. apply headers_work_exact. repeat constructor; cbn; lia. Defined.

(** a batch passes [CheckHeadersAreContinuous] exactly when every header names the hash of
    the one before it. *)
Theorem headers_continuous_exact (headers : list CBlockHeader) : Forall header_wf headers ->
  Val.CheckHeadersAreContinuous headers = true <->
  forall i a b, headers !! i = Some a -> headers !! S i = Some b -> hashPrevBlock b = Header.GetHash a.
Proof.
  intros Hall. induction Hall as [|x [|y l] Hx Hl IH]; cbn [Val.CheckHeadersAreContinuous].
  - split; [by intros _ i a b Hi|done].
  - split; [intros _ [|i] a b _ Hb; discriminate|done].
  - apply Forall_cons in Hl as Hl'. destruct Hl' as [Hy _].
    assert (length (hashPrevBlock y) = length (Header.GetHash x)) as Hlen.
    { destruct (gethash_wf x Hx) as [-> _]. apply Hy. }
    destruct (Blob.eqb (hashPrevBlock y) (Header.GetHash x)) eqn:E; cbn [negb].
    + apply blob_eqb_eq in E; [|done]. rewrite IH. split.
      * intros H [|i] a b Ha Hb; [by cbn in *; simplify_eq|]. by apply (H i a b).
      * intros H i a b Ha Hb. by apply (H (S i) a b).
    + split; [done|]. intros H. specialize (H 0%nat x y eq_refl eq_refl). apply blob_eqb_eq in H; [|done]. congruence.
Qed.

Lemma headers_continuous_exact_witness :
  let g := Params.CreateGenesisBlock 1296688602 2 0x207fffff 1 in
  Val.CheckHeadersAreContinuous [g; g] = true <->
  forall i a b, [g; g] !! i = Some a -> [g; g] !! S i = Some b -> hashPrevBlock b = Header.GetHash a.
Proof.
  intros g. apply headers_continuous_exact.
  repeat (apply Forall_cons_2; [apply genesis_wf; unfold in_u; lia|]). apply Forall_nil_2.
Defined.

(** the anti-DoS threshold is 0 during initial download, and otherwise the larger of the
    configured minimum and the tip's work less the buffer's worth of blocks at its difficulty
    (0 when the buffer exceeds the work), provided the buffer fits in 256 bits; it never exceeds both
    the tip's work and the minimum. *)
Theorem anti_dos_threshold_exact (t : CBlockIndex) (params : ChainParams) :
  in_u 32 (Idx.nBits t) -> 0 <= nChainWork t < 2 ^ 256 ->
  0 <= nAntiDosWorkBufferBlocks (consensus params) < 2 ^ 31 ->
  work_of (Idx.nBits t) * nAntiDosWorkBufferBlocks (consensus params) < 2 ^ 256 ->
  Val.GetAntiDoSWorkThreshold (Some t) params true = 0 /\
  Val.GetAntiDoSWorkThreshold (Some t) params false =
    Z.max (Z.max 0 (nChainWork t - work_of (Idx.nBits t) * nAntiDosWorkBufferBlocks (consensus params)))
          (Pow.arith_of (nMinimumChainWork (consensus params))) /\
  Val.GetAntiDoSWorkThreshold (Some t) params false <=
    Z.max (nChainWork t) (Pow.arith_of (nMinimumChainWork (consensus params))).
Proof.
  intros Hb Hw Hk Hlt. split; [done|]. unfold Val.GetAntiDoSWorkThreshold. rewrite GetBlockProof_eq by done.
  pose proof (work_of_range _ (proj1 Hb)). rewrite u32_id by (unfold in_u; lia). cbn [au_mul32 au_sub z256 z_ops].
  set (k := nAntiDosWorkBufferBlocks (consensus params)) in *. assert (0 <= work_of (Idx.nBits t) * k) by nia.
  rewrite (Z.mod_small (work_of (Idx.nBits t) * k)) by lia. cbv zeta.
  rewrite (Z.mod_small (nChainWork t - _)) by lia. lia.
Qed.

Lemma anti_dos_threshold_exact_witness :
  exists p, Params.Select 0 0 MAIN = Some p /\
  let t := sample_entry None None 0 100 in
  Val.GetAntiDoSWorkThreshold (Some t) p true = 0 /\
  Val.GetAntiDoSWorkThreshold (Some t) p false =
    Z.max (Z.max 0 (1 - work_of 0x1f06a000 * nAntiDosWorkBufferBlocks (consensus p)))
          (Pow.arith_of (nMinimumChainWork (consensus p))) /\
  Val.GetAntiDoSWorkThreshold (Some t) p false <= Z.max 1 (Pow.arith_of (nMinimumChainWork (consensus p))).
Proof.
  destruct (select_ok 0 0 MAIN) as (p & E & _ & _ & _ & _ & _ & _ & _ & _ & Hk). exists p. split; [exact E|]. intros t.
  assert (work_of 0x1f06a000 < 2 ^ 240) as Hw by (vm_compute; reflexivity).
  apply (anti_dos_threshold_exact t p); [unfold in_u; cbn; lia|cbn; lia|lia|].
  change (Idx.nBits t) with 0x1f06a000. nia.
Defined.
