(* ===== verification/ChainSelector.v ===== *)
(** * ChainSelector: candidate tips and the most-work rule of [chain/chain_selector.cpp]

    [std::set<CBlockIndex*, CBlockIndexWorkComparator>] is the list of its
    elements in iteration order; insertion and removal follow the comparator. *)
From S2P Require Import Prelude Arith Bytes Compact Sha256 Block BlockIndex Chain.
#[local] Open Scope Z_scope.
Import Idx (CBlockIndex, mkIndex, nHeight, pprev, pskip, nChainWork, nStatus, nTimeMax, nTimeReceived).

Module Selector.

(** [CBlockIndexWorkComparator]: more work, then more height, then the smaller hash first. *)
Definition compare (m : block_map) (pa pb : block_ptr) : bool :=
  let wa := deref nChainWork 0 m pa in let wb := deref nChainWork 0 m pb in
  if negb (wa =? wb) then wb <? wa
  else
    let ha := deref nHeight 0 m pa in let hb := deref nHeight 0 m pb in
    if negb (ha =? hb) then hb <? ha
    else Blob.ltb pa pb.

(** [std::set] operations for a comparator. *)
Fixpoint set_insert (less : block_ptr -> block_ptr -> bool) (x : block_ptr) (l : list block_ptr) : list block_ptr :=
  match l with
  | [] => [x]
  | y :: l' => if less x y then x :: l else if less y x then y :: set_insert less x l' else l
  end.
Definition set_equiv (less : block_ptr -> block_ptr -> bool) (x y : block_ptr) : bool := negb (less x y) && negb (less y x).
Fixpoint set_erase (less : block_ptr -> block_ptr -> bool) (x : block_ptr) (l : list block_ptr) : list block_ptr :=
  match l with
  | [] => []
  | y :: l' => if set_equiv less x y then l' else y :: set_erase less x l'
  end.

Record state := mkSelector { m_candidates : list block_ptr; m_best_header : option block_ptr }.

(** Failed or not validated to the tree level. *)
Definition unusable (m : block_map) (p : block_ptr) : bool :=
  match m !! p with
  | Some b => negb (Z.land (nStatus b) BLOCK_FAILED_MASK =? 0) || negb (Idx.IsValid b BLOCK_VALID_TREE)
  | None => true
  end.

(** [FindMostWorkChain]: drops unusable entries from the front. *)
Fixpoint find_loop (m : block_map) (l : list block_ptr) : option block_ptr * list block_ptr :=
  match l with
  | [] => (None, [])
  | p :: l' => if unusable m p then find_loop m l' else (Some p, l)
  end.
Definition FindMostWorkChain (m : block_map) (s : state) : option block_ptr * state :=
  let '(r, l) := find_loop m (m_candidates s) in (r, mkSelector l (m_best_header s)).

Definition has_children (m : block_map) (p : block_ptr) : bool :=
  existsb (fun kv => bool_decide (pprev (snd kv) = Some p)) (map_to_list m).

(** [TryAddBlockIndexCandidate]; [None] is a failed assertion. *)
Definition TryAddBlockIndexCandidate (m : block_map) (pindex : option block_ptr) (s : state) : option state :=
  match pindex with
  | None => Some s
  | Some p =>
      match m !! p with
      | None => None
      | Some b =>
          if negb (0 <=? nHeight b) then None
          else if negb (0 <? nChainWork b) then None
          else if negb (Idx.IsValid b BLOCK_VALID_TREE) then Some s
          else if has_children m p then Some s
          else
            let l := match pprev b with
                     | Some q => set_erase (compare m) q (m_candidates s)
                     | None => m_candidates s
                     end in
            Some (mkSelector (set_insert (compare m) p l) (m_best_header s))
      end
  end.

(** The rules of [PruneBlockIndexCandidates] on one candidate. *)
Definition should_remove (m : block_map) (v : list (option block_ptr)) (tip p : block_ptr) : bool :=
  if deref nChainWork 0 m p <? deref nChainWork 0 m tip then true
  else if bool_decide (p = tip) then true
  else if CChain.Contains m v (Some p) then true
  else if has_children m p then true
  else unusable m p.

Definition PruneBlockIndexCandidates (m : block_map) (v : list (option block_ptr)) (s : state) : state :=
  match CChain.Tip v with
  | None => s
  | Some tip => mkSelector (List.filter (fun p => negb (should_remove m v tip p)) (m_candidates s)) (m_best_header s)
  end.

Definition AddCandidateUnchecked (m : block_map) (pindex : option block_ptr) (s : state) : state :=
  match pindex with
  | Some p => mkSelector (set_insert (compare m) p (m_candidates s)) (m_best_header s)
  | None => s
  end.

Definition ClearCandidates (s : state) : state := mkSelector [] (m_best_header s).
Definition GetCandidateCount (s : state) : nat := length (m_candidates s).

Definition UpdateBestHeader (m : block_map) (pindex : option block_ptr) (s : state) : state :=
  match pindex with
  | None => s
  | Some p =>
      match m_best_header s with
      | None => mkSelector (m_candidates s) (Some p)
      | Some bh => if deref nChainWork 0 m bh <? deref nChainWork 0 m p then mkSelector (m_candidates s) (Some p) else s
      end
  end.
Definition SetBestHeader (pindex : option block_ptr) (s : state) : state := mkSelector (m_candidates s) pindex.

Definition RemoveCandidate (m : block_map) (pindex : option block_ptr) (s : state) : state :=
  match pindex with
  | Some p => mkSelector (set_erase (compare m) p (m_candidates s)) (m_best_header s)
  | None => s
  end.

End Selector.

(** ** The comparator is a strict total order on hashes of one width *)

Section Order.
Context (m : block_map).
Let less := Selector.compare m.

Lemma compare_irrefl a : less a a = false.
Proof. unfold less, Selector.compare. rewrite !Z.eqb_refl. cbn. apply blob_ltb_irrefl. Qed.

Lemma compare_trans a b c : length a = length b -> length b = length c ->
  less a b = true -> less b c = true -> less a c = true.
Proof.
  intros H1 H2. unfold less, Selector.compare. cbv zeta.
  set (wa := deref nChainWork 0 m a). set (wb := deref nChainWork 0 m b). set (wc := deref nChainWork 0 m c).
  set (ha := deref nHeight 0 m a). set (hb := deref nHeight 0 m b). set (hc := deref nHeight 0 m c).
  destruct (Z.eqb_spec wa wb), (Z.eqb_spec wb wc), (Z.eqb_spec wa wc); cbn [negb]; rewrite ?Z.ltb_lt; try lia.
  destruct (Z.eqb_spec ha hb), (Z.eqb_spec hb hc), (Z.eqb_spec ha hc); cbn [negb]; rewrite ?Z.ltb_lt; try lia.
  by apply blob_ltb_trans.
Qed.

Lemma compare_total a b : length a = length b -> less a b = true \/ a = b \/ less b a = true.
Proof.
  intros Hl. unfold less, Selector.compare. cbv zeta.
  set (wa := deref nChainWork 0 m a). set (wb := deref nChainWork 0 m b).
  set (ha := deref nHeight 0 m a). set (hb := deref nHeight 0 m b).
  rewrite (Z.eqb_sym wb wa), (Z.eqb_sym hb ha).
  destruct (Z.eqb_spec wa wb); cbn [negb]; rewrite ?Z.ltb_lt; [|lia].
  destruct (Z.eqb_spec ha hb); cbn [negb]; rewrite ?Z.ltb_lt; [|lia].
  by apply blob_ltb_total.
Qed.

Lemma compare_asym a b : length a = length b -> less a b = true -> less b a = false.
Proof.
  intros Hl Hab. destruct (less b a) eqn:E; [|done].
  pose proof (compare_trans a b a Hl (eq_sym Hl) Hab E) as H. by rewrite compare_irrefl in H.
Qed.

Lemma equiv_eq a b : length a = length b -> Selector.set_equiv less a b = true <-> a = b.
Proof.
  intros Hl. unfold Selector.set_equiv. split.
  - rewrite andb_true_iff, !negb_true_iff. intros [H1 H2].
    destruct (compare_total a b Hl) as [?|[?|?]]; congruence.
  - intros ->. by rewrite compare_irrefl.
Qed.

(** A set: strictly sorted hashes of one width. *)
Definition cand_wf (l : list block_ptr) : Prop :=
  StronglySorted (fun a b => less a b = true) l /\ Forall (fun p => length p = 32%nat) l.

Lemma set_insert_elem x l y : length x = 32%nat -> Forall (fun p => length p = 32%nat) l ->
  y ∈ Selector.set_insert less x l <-> y = x \/ y ∈ l.
Proof.
  intros Hx. induction 1 as [|z l Hz Hl IH]; cbn [Selector.set_insert]; [set_solver|].
  destruct (less x z) eqn:E1; [set_solver|]. destruct (less z x) eqn:E2; [set_solver|].
  assert (x = z) as ->. { destruct (compare_total x z) as [?|[?|?]]; congruence. }
  set_solver.
Qed.

Lemma set_insert_wf x l : length x = 32%nat -> cand_wf l -> cand_wf (Selector.set_insert less x l).
Proof.
  intros Hx [Hs Hl]. split.
  - induction Hs as [|z l Hs IH Hz]; cbn [Selector.set_insert]; [by repeat constructor|].
    apply Forall_cons in Hl as [Hlz Hl].
    destruct (less x z) eqn:E1.
    + constructor; [by constructor|]. constructor; [done|].
      rewrite Forall_forall in Hz, Hl |- *. intros y Hy. apply (compare_trans x z y); [congruence|rewrite (Hl y Hy); done|done|by apply Hz].
    + destruct (less z x) eqn:E2; [|by constructor]. constructor; [by apply IH|].
      rewrite Forall_forall in Hz |- *. intros y. rewrite set_insert_elem by done. intros [->|?]; [done|by apply Hz].
  - rewrite Forall_forall in Hl |- *. intros y. rewrite set_insert_elem by (done || by apply Forall_forall).
    intros [->|?]; [done|by apply Hl].
Qed.

Lemma set_erase_elem x l y : length x = 32%nat -> cand_wf l ->
  y ∈ Selector.set_erase less x l <-> y ∈ l /\ y <> x.
Proof.
  intros Hx [Hs Hl]. induction Hs as [|z l Hs IH Hz]; cbn [Selector.set_erase]; [set_solver|].
  apply Forall_cons in Hl as [Hlz Hl]. destruct (Selector.set_equiv less x z) eqn:E.
  - apply equiv_eq in E as ->; [|congruence]. rewrite elem_of_cons. split.
    + intros Hy. split; [by right|]. intros ->. rewrite Forall_forall in Hz. specialize (Hz _ Hy). cbn in Hz.
      by rewrite compare_irrefl in Hz.
    + intros [[->|?] ?]; done.
  - assert (x <> z) by (intros ->; rewrite (proj2 (equiv_eq z z eq_refl) eq_refl) in E; done).
    rewrite !elem_of_cons, IH by done. naive_solver.
Qed.

Lemma sublist_forall {A} (P : A -> Prop) l k : sublist k l -> Forall P l -> Forall P k.
Proof. intros Hs. rewrite !Forall_forall. intros HP x Hx. apply HP. by eapply elem_of_sublist. Qed.

Lemma sorted_sublist l k : sublist k l -> cand_wf l -> cand_wf k.
Proof.
  intros Hsub [Hs Hl]. split; [|by eapply sublist_forall]. clear Hl.
  induction Hsub as [|x k l Hsub IH|x k l Hsub IH]; [done| |]; apply StronglySorted_inv in Hs as [Hs Hx]; [|by apply IH].
  constructor; [by apply IH|]. by eapply sublist_forall.
Qed.

Lemma set_erase_sublist x l : sublist (Selector.set_erase less x l) l.
Proof.
  induction l as [|z l IH]; cbn [Selector.set_erase]; [done|]. destruct (Selector.set_equiv less x z).
  - by apply sublist_cons.
  - by apply sublist_skip.
Qed.

Lemma set_erase_length x l : x ∈ l -> (length (Selector.set_erase less x l) < length l)%nat.
Proof.
  induction l as [|z l IH]; cbn [Selector.set_erase]; [by intros ?%not_elem_of_nil|]. intros Hx.
  destruct (Selector.set_equiv less x z) eqn:E; cbn [length]; [lia|]. apply elem_of_cons in Hx as [->|Hx].
  - by rewrite (proj2 (equiv_eq z z eq_refl) eq_refl) in E.
  - specialize (IH Hx). lia.
Qed.

Lemma filter_sublist (f : block_ptr -> bool) l : sublist (List.filter f l) l.
Proof. induction l as [|z l IH]; cbn; [done|]. destruct (f z); [by apply sublist_skip|by apply sublist_cons]. Qed.

Lemma find_loop_spec l : exists drop, l = drop ++ snd (Selector.find_loop m l) /\
  Forall (fun p => Selector.unusable m p = true) drop /\
  match fst (Selector.find_loop m l) with
  | Some p => Selector.unusable m p = false /\ exists l', snd (Selector.find_loop m l) = p :: l'
  | None => snd (Selector.find_loop m l) = []
  end.
Proof.
  induction l as [|p l IH]; cbn [Selector.find_loop]; [by exists []|].
  destruct (Selector.unusable m p) eqn:E.
  - destruct IH as (d & El & Hd & Hr). exists (p :: d). split; [cbn; by rewrite <- El|]. split; [by constructor|done].
  - exists []. split; [done|]. split; [done|]. split; [done|by eexists].
Qed.
End Order.

Lemma unusable_spec m p b : m !! p = Some b ->
  Selector.unusable m p = false <-> Idx.IsValid b BLOCK_VALID_TREE = true.
Proof.
  intros Hp. unfold Selector.unusable, Idx.IsValid. rewrite Hp.
  destruct (Z.land (nStatus b) BLOCK_FAILED_MASK =? 0); cbn; [|done]. by rewrite negb_false_iff.
Qed.

Lemma has_children_spec m p : Selector.has_children m p = true <-> exists q b, m !! q = Some b /\ pprev b = Some p.
Proof.
  unfold Selector.has_children. rewrite existsb_exists. split.
  - intros ((q & b) & Hin & Hd). apply bool_decide_eq_true in Hd. apply list_elem_of_In, elem_of_map_to_list in Hin.
    by exists q, b.
  - intros (q & b & Hq & Hb). exists (q, b). split; [by apply list_elem_of_In, elem_of_map_to_list|].
    by apply bool_decide_eq_true.
Qed.

(** The candidate returned is the best usable one. *)
Lemma find_most_work_ok (m : block_map) (s : Selector.state) :
  cand_wf m (Selector.m_candidates s) ->
  let '(r, s') := Selector.FindMostWorkChain m s in
  cand_wf m (Selector.m_candidates s') /\
  (forall p, p ∈ Selector.m_candidates s -> Selector.unusable m p = false -> p ∈ Selector.m_candidates s') /\
  match r with
  | Some p => p ∈ Selector.m_candidates s' /\ Selector.unusable m p = false /\
      forall q, q ∈ Selector.m_candidates s -> Selector.unusable m q = false -> q = p \/ Selector.compare m p q = true
  | None => forall q, q ∈ Selector.m_candidates s -> Selector.unusable m q = true
  end.
Proof.
  intros [Hs Hl]. unfold Selector.FindMostWorkChain.
  destruct (find_loop_spec m (Selector.m_candidates s)) as (d & E & Hd & Hr).
  destruct (Selector.find_loop m (Selector.m_candidates s)) as [r l']. cbn [fst snd Selector.m_candidates] in *.
  assert (Hwf' : cand_wf m l').
  { apply (sorted_sublist m (Selector.m_candidates s)); [rewrite E; by apply sublist_inserts_l|done]. }
  rewrite Forall_forall in Hd. split; [done|]. split.
  - intros p Hp Hu. rewrite E in Hp. apply elem_of_app in Hp as [Hp|Hp]; [|done]. rewrite (Hd p Hp) in Hu. done.
  - destruct r as [p|].
    + destruct Hr as [Hu [l'' ->]]. split; [by left|]. split; [done|]. intros q Hq Huq. rewrite E in Hq.
      apply elem_of_app in Hq as [Hq|Hq]; [rewrite (Hd q Hq) in Huq; done|].
      apply elem_of_cons in Hq as [->|Hq]; [by left|right].
      destruct Hwf' as [Hs' _]. apply StronglySorted_inv in Hs' as [_ Hs']. rewrite Forall_forall in Hs'. by apply Hs'.
    + subst l'. rewrite app_nil_r in E. intros q Hq. apply Hd. by rewrite <- E.
Qed.

(** ** Properties *)

(** the comparator of the candidate set is a strict total order on the 32-byte hashes:
    irreflexive, transitive, and any two distinct blocks are ordered. *)
Theorem comparator_strict_total (m : block_map) (a b c : block_ptr) :
  length a = 32%nat -> length b = 32%nat -> length c = 32%nat ->
  Selector.compare m a a = false /\
  (Selector.compare m a b = true -> Selector.compare m b c = true -> Selector.compare m a c = true) /\
  (Selector.compare m a b = true \/ a = b \/ Selector.compare m b a = true) /\
  (deref nChainWork 0 m b < deref nChainWork 0 m a -> Selector.compare m a b = true).
Proof.
  intros Ha Hb Hc. split_and!.
  - apply compare_irrefl.
  - apply compare_trans; congruence.
  - apply compare_total. congruence.
  - intros Hw. unfold Selector.compare. cbv zeta. rewrite (proj2 (Z.eqb_neq _ _)) by lia. cbn [negb]. by apply Z.ltb_lt.
Qed.

Lemma comparator_strict_total_witness :
  let a := replicate 32 1 in let b := replicate 32 2 in let c := replicate 32 3 in
  Selector.compare sample a a = false /\
  (Selector.compare sample a b = true -> Selector.compare sample b c = true -> Selector.compare sample a c = true) /\
  (Selector.compare sample a b = true \/ a = b \/ Selector.compare sample b a = true) /\
  (deref nChainWork 0 sample b < deref nChainWork 0 sample a -> Selector.compare sample a b = true).
Proof. intros a b c. by apply comparator_strict_total. Defined.

(** [FindMostWorkChain] on a sorted candidate set returns the usable candidate with the most
    work (ties broken by height, then hash), or null when no candidate is usable, and erases only
    unusable candidates. *)
Theorem find_most_work_exact (m : block_map) (s : Selector.state) :
  cand_wf m (Selector.m_candidates s) ->
  let '(r, s') := Selector.FindMostWorkChain m s in
  cand_wf m (Selector.m_candidates s') /\
  (forall p, p ∈ Selector.m_candidates s -> Selector.unusable m p = false -> p ∈ Selector.m_candidates s') /\
  match r with
  | Some p => p ∈ Selector.m_candidates s' /\ Selector.unusable m p = false /\
      forall q, q ∈ Selector.m_candidates s -> Selector.unusable m q = false -> q = p \/ Selector.compare m p q = true
  | None => forall q, q ∈ Selector.m_candidates s -> Selector.unusable m q = true
  end.
Proof. apply find_most_work_ok. Qed.

Lemma find_most_work_exact_witness :
  let k1 := replicate 32 1 in let k2 := replicate 32 2 in
  let m : block_map := <[k1 := sample_entry None None 0 100]> (<[k2 := sample_entry (Some k1) (Some k1) 1 150]> ∅) in
  let s := Selector.mkSelector [k2; k1] None in
  let '(r, s') := Selector.FindMostWorkChain m s in
  cand_wf m (Selector.m_candidates s') /\
  (forall p, p ∈ Selector.m_candidates s -> Selector.unusable m p = false -> p ∈ Selector.m_candidates s') /\
  match r with
  | Some p => p ∈ Selector.m_candidates s' /\ Selector.unusable m p = false /\
      forall q, q ∈ Selector.m_candidates s -> Selector.unusable m q = false -> q = p \/ Selector.compare m p q = true
  | None => forall q, q ∈ Selector.m_candidates s -> Selector.unusable m q = true
  end.
Proof.
  intros k1 k2 m s. apply (find_most_work_exact m s). split.
  - apply SSorted_cons; [apply SSorted_cons; [apply SSorted_nil|apply Forall_nil_2]|].
    apply Forall_cons_2; [vm_compute; reflexivity|apply Forall_nil_2].
  - repeat (apply Forall_cons_2; [reflexivity|]). apply Forall_nil_2.
Defined.
