(* ===== verification/BlockManager.v ===== *)
(** * BlockManager: the block index of [chain/block_manager.hpp/.cpp]

    The map of all known headers, the active chain, and the operations that
    grow the map.  Persistence ([Save]/[Load]) is in [Persist]. *)
From Stdlib Require Import String DecimalString.
From S2P Require Import Prelude Arith Bytes Compact Sha256 Block BlockIndex Chain ChainParams Pow RandomX Validation.
#[local] Open Scope Z_scope.
Import Idx (CBlockIndex, mkIndex, nHeight, pprev, pskip, nChainWork, nStatus, nTimeMax, nTimeReceived).

Module BM.

(** [class BlockManager]. *)
Record BlockManager := mkBM {
  m_block_index : block_map;
  m_active_chain : list (option block_ptr);
  m_genesis_hash : uint256;
  m_initialized : bool
}.

Definition new : BlockManager := mkBM ∅ [] (Blob.SetNull 32) false.

Definition LookupBlockIndex (m : block_map) (hash : uint256) : option block_ptr :=
  match m !! hash with Some _ => Some hash | None => None end.

(** The error messages of [VerifyChainContinuity], with the values they print. *)
Inductive continuity_error :=
| null_pointer
| walk_exceeded_1M
| wrong_genesis (found expected : uint256)
| genesis_height (h : Z)
| height_mismatch (h walked : Z).

(** The backward walk of [VerifyChainContinuity].  The fuel is the number of blocks: a walk
    that needs more revisits a block, so the source's loop goes on until its limit. *)
Fixpoint continuity_walk (fuel : nat) (m : block_map) (walk : block_ptr) (blocks_walked : Z)
  : (block_ptr * Z) + continuity_error :=
  match deref pprev None m walk with
  | None => inl (walk, blocks_walked)
  | Some q =>
      if 1000000 <? blocks_walked + 1 then inr walk_exceeded_1M
      else match fuel with
           | O => inr walk_exceeded_1M
           | S fuel => continuity_walk fuel m q (blocks_walked + 1)
           end
  end.

(** [VerifyChainContinuity]: [inr] carries the error. *)
Definition VerifyChainContinuity (m : block_map) (pindex : option block_ptr) (expected_genesis_hash : uint256)
  : unit + continuity_error :=
  match pindex with
  | None => inr null_pointer
  | Some p =>
      match continuity_walk (size m) m p 0 with
      | inr e => inr e
      | inl (walk, blocks_walked) =>
          if negb (bool_decide (walk = expected_genesis_hash)) then inr (wrong_genesis walk expected_genesis_hash)
          else if negb (deref nHeight 0 m walk =? 0) then inr (genesis_height (deref nHeight 0 m walk))
          else if negb (deref nHeight 0 m p =? blocks_walked) then inr (height_mismatch (deref nHeight 0 m p) blocks_walked)
          else inl tt
      end
  end.

(** [AddToBlockIndex]: the pointer returned and the map afterwards; [None] is a failed
    assertion of [BuildSkip]. *)
Definition AddToBlockIndex (m : block_map) (header : CBlockHeader) : option (option block_ptr * block_map) :=
  let hash := Header.GetHash header in
  match m !! hash with
  | Some _ => Some (Some hash, m)
  | None =>
      let entry := Idx.of_header header in
      let m1 := <[hash := entry]> m in
      match LookupBlockIndex m1 (hashPrevBlock header) with
      | Some prev =>
          let work := au_add (BITS := 256) (deref nChainWork 0 m1 prev) (GetBlockProof entry) in
          let entry := Idx.set_tree (deref nHeight 0 m1 prev + 1) work
                         (Z.max (deref nTimeMax 0 m1 prev) (Idx.GetBlockTime entry)) (Idx.set_pprev (Some prev) entry) in
          let m2 := <[hash := entry]> m1 in
          match BuildSkip m2 entry with
          | Some s => Some (Some hash, <[hash := Idx.set_pskip s entry]> m2)
          | None => None
          end
      | None =>
          if negb (Blob.IsNull (hashPrevBlock header)) then Some (None, delete hash m1)
          else
            let entry := Idx.set_tree 0 (GetBlockProof entry) (Idx.GetBlockTime entry) entry in
            let m2 := <[hash := entry]> m1 in
            match BuildSkip m2 entry with
            | Some s => Some (Some hash, <[hash := Idx.set_pskip s entry]> m2)
            | None => None
            end
      end
  end.

Definition GetTip (bm : BlockManager) : option block_ptr := CChain.Tip (m_active_chain bm).
Definition GetBlockCount (bm : BlockManager) : nat := size (m_block_index bm).

Definition SetActiveTip (bm : BlockManager) (block : block_ptr) : option BlockManager :=
  match CChain.SetTip (m_block_index bm) (m_active_chain bm) block with
  | Some v => Some (mkBM (m_block_index bm) v (m_genesis_hash bm) (m_initialized bm))
  | None => None
  end.

(** [Initialize]. *)
Definition Initialize (bm : BlockManager) (genesis : CBlockHeader) : option (bool * BlockManager) :=
  if m_initialized bm then Some (false, bm)
  else match AddToBlockIndex (m_block_index bm) genesis with
  | None => None
  | Some (None, m) => Some (false, mkBM m (m_active_chain bm) (m_genesis_hash bm) (m_initialized bm))
  | Some (Some pindex, m) =>
      match SetActiveTip (mkBM m (m_active_chain bm) (m_genesis_hash bm) (m_initialized bm)) pindex with
      | None => None
      | Some bm =>
          let bm := mkBM (m_block_index bm) (m_active_chain bm) (Header.GetHash genesis) (m_initialized bm) in
          match VerifyChainContinuity (m_block_index bm) (Some pindex) (m_genesis_hash bm) with
          | inr _ => Some (false, bm)
          | inl _ => Some (true, mkBM (m_block_index bm) (m_active_chain bm) (m_genesis_hash bm) true)
          end
      end
  end.

End BM.

(** ** The invariant of the block index *)

(** An entry with its key: its header hashes to the key, and height, work, times and links
    are those its parent determines. *)
Record block_wf (g : uint256) (m : block_map) (h : uint256) (b : CBlockIndex) : Prop := {
  bw_height : 0 <= nHeight b;
  bw_key : h = Header.GetHash (Idx.GetBlockHeader b);
  bw_header : header_wf (Idx.GetBlockHeader b);
  bw_root : pprev b = None -> h = g /\ nHeight b = 0 /\ nChainWork b = work_of (Idx.nBits b) /\
              nTimeMax b = Idx.nTime b /\ pskip b = None;
  bw_parent p : pprev b = Some p -> exists pb, m !! p = Some pb /\ nHeight b = nHeight pb + 1 /\
              nChainWork b = (nChainWork pb + work_of (Idx.nBits b)) mod 2 ^ 256 /\
              nTimeMax b = Z.max (nTimeMax pb) (Idx.nTime b) /\
              pskip b = ancestor_at m p (GetSkipHeight (nHeight b))
}.

Definition index_wf (g : uint256) (m : block_map) : Prop := forall h b, m !! h = Some b -> block_wf g m h b.

Lemma index_tree g m : index_wf g m -> tree_wf m.
Proof.
  intros Hwf h b Hb. destruct (Hwf h b Hb) as [Hh _ _ Hroot Hpar]. split; [done| | |].
  - intros E. destruct (Hroot E) as (_ & ? & _ & _ & ?). done.
  - intros p E. destruct (Hpar p E) as (pb & ? & ? & _). by exists pb.
  - intros p s E Es. destruct (Hpar p E) as (pb & _ & _ & _ & _ & Hs). by rewrite <- Hs.
Qed.

Lemma index_fields g m : index_wf g m -> fields_wf m.
Proof.
  intros Hwf h b Hb. destruct (bw_header _ _ _ _ (Hwf h b Hb)) as (_ & _ & _ & Ht & Hbits & _). done.
Qed.

Lemma index_key g m h b : index_wf g m -> m !! h = Some b -> blob_wf 32 h.
Proof. intros Hwf Hb. rewrite (bw_key _ _ _ _ (Hwf h b Hb)). apply gethash_wf, (bw_header _ _ _ _ (Hwf h b Hb)). Qed.

(** *** Growing the map does not change what existing blocks see *)

Section Grow.
Context (m m' : block_map) (Hwf : tree_wf m) (Hsub : m ⊆ m').

Lemma deref_grow {A} (f : CBlockIndex -> A) d p : is_Some (m !! p) -> deref f d m' p = deref f d m p.
Proof.
  intros [b Hb]. rewrite (deref_eq f d m p b Hb). apply deref_eq. by eapply lookup_weaken.
Qed.

Lemma back_grow n p : is_Some (m !! p) -> back m' n p = back m n p.
Proof.
  revert p. induction n as [|n IH]; intros p Hp; [done|]. cbn [back]. rewrite (deref_grow pprev None p Hp).
  destruct Hp as [b Hb]. rewrite (deref_eq pprev None m p b Hb). destruct (pprev b) as [q|] eqn:E; [|done].
  apply IH. destruct (ew_parent _ _ (Hwf p b Hb) q E) as (c & Hc & _). by eexists.
Qed.

Lemma ancestor_at_grow p h : is_Some (m !! p) -> ancestor_at m' p h = ancestor_at m p h.
Proof. intros Hp. unfold ancestor_at. rewrite (deref_grow nHeight 0 p Hp). by rewrite back_grow. Qed.

Lemma ancestor_grow a p : is_Some (m !! p) -> ancestor m' a p <-> ancestor m a p.
Proof. intros Hp. unfold ancestor. split; intros [n Hn]; exists n; by rewrite back_grow in *. Qed.

Lemma times_grow n p : is_Some (m !! p) -> times n m' (Some p) = times n m (Some p).
Proof.
  revert p. induction n as [|n IH]; intros p [b Hb]; [done|]. cbn [times].
  rewrite Hb, (lookup_weaken m m' p b Hb Hsub). destruct (pprev b) as [q|] eqn:E; [|by destruct n].
  f_equal. apply IH. destruct (ew_parent _ _ (Hwf p b Hb) q E) as (c & Hc & _). by eexists.
Qed.

Lemma mtp_grow p : is_Some (m !! p) -> GetMedianTimePast m' p = GetMedianTimePast m p.
Proof.
  intros [b Hb]. rewrite (mtp_median m p b Hb), (mtp_median m' p b) by by eapply lookup_weaken.
  by rewrite times_grow by by eexists.
Qed.

Lemma path_grow p : is_Some (m !! p) -> path m' p = path m p.
Proof.
  intros Hp. unfold path. rewrite (deref_grow nHeight 0 p Hp). apply list_fmap_ext. intros i x _.
  by apply ancestor_at_grow.
Qed.
End Grow.

Lemma block_wf_grow g m m' h b : tree_wf m -> m ⊆ m' -> block_wf g m h b -> block_wf g m' h b.
Proof.
  intros Ht Hsub [Hh Hk Hhd Hroot Hpar]. split; [done..|]. intros p E. destruct (Hpar p E) as (pb & Hp & ? & ? & ? & Hs).
  exists pb. split_and!; [by eapply lookup_weaken|done..|]. rewrite Hs. symmetry. apply ancestor_at_grow; [done..|by eexists].
Qed.

(** *** [AddToBlockIndex] *)

(** The entries the operation creates. *)
Definition child_entry (m : block_map) (h : CBlockHeader) (p : block_ptr) (pb : CBlockIndex) : CBlockIndex :=
  mkIndex 0 (Some p) (ancestor_at m p (GetSkipHeight (nHeight pb + 1))) (nHeight pb + 1)
    ((nChainWork pb + work_of (nBits h)) mod 2 ^ 256) (nVersion h) (minerAddress h) (nTime h) (nBits h) (nNonce h)
    (hashRandomX h) 0 (Z.max (nTimeMax pb) (nTime h)).
Definition root_entry (h : CBlockHeader) : CBlockIndex :=
  mkIndex 0 None None 0 (work_of (nBits h)) (nVersion h) (minerAddress h) (nTime h) (nBits h) (nNonce h)
    (hashRandomX h) 0 (nTime h).

Lemma entry_wf_grow m m' b : tree_wf m -> m ⊆ m' -> entry_wf m b -> entry_wf m' b.
Proof.
  intros Ht Hsub [Hh Hr Hp Hs]. split; [done|done| |].
  - intros p E. destruct (Hp p E) as (pb & ? & ?). exists pb. split; [by eapply lookup_weaken|done].
  - intros p s E Es. destruct (Hp p E) as (pb & Hpb & _). rewrite <- (Hs p s E Es).
    apply ancestor_at_grow; [done..|by eexists].
Qed.

Lemma tree_wf_insert m h b : tree_wf m -> m !! h = None -> entry_wf m b -> tree_wf (<[h := b]> m).
Proof.
  intros Ht Hn Hb p c. assert (m ⊆ <[h := b]> m) by by apply insert_subseteq.
  rewrite lookup_insert_Some. intros [[<- <-]|[_ Hc]]; (eapply entry_wf_grow; [done..|]); [done|by apply (Ht p)].
Qed.

Section Add.
Context (g : uint256) (m : block_map) (Hwf : index_wf g m) (h : CBlockHeader) (Hh : header_wf h).
Let hash := Header.GetHash h.
Hypothesis Hnew : m !! hash = None.

Lemma header_proof : GetBlockProof (Idx.of_header h) = work_of (nBits h).
Proof. rewrite GetBlockProof_eq; [done|]. destruct Hh as (_ & _ & _ & _ & Hb & _). done. Qed.

Lemma insert_sub b : m ⊆ <[hash := b]> m.
Proof. by apply insert_subseteq. Qed.

(** [BuildSkip] on the entry just connected, before its skip pointer is set. *)
Lemma build_skip_child e p pb : m !! p = Some pb -> pprev e = Some p -> pskip e = None ->
  nHeight e = nHeight pb + 1 ->
  BuildSkip (<[hash := e]> m) e = Some (ancestor_at m p (GetSkipHeight (nHeight pb + 1))).
Proof.
  intros Hp Ep Es Eh. pose proof (index_tree g m Hwf) as Ht.
  assert (Hne : p <> hash) by congruence. pose proof (bw_height _ _ _ _ (Hwf p pb Hp)) as Hhp.
  unfold BuildSkip. rewrite Ep, Eh. rewrite (GetAncestor_ok (<[hash := e]> m)) with (b := pb).
  - f_equal. apply ancestor_at_grow; [done|apply insert_sub|by eexists].
  - apply tree_wf_insert; [done..|]. split; [lia|by rewrite Ep| |].
    + intros q. rewrite Ep. intros [= <-]. by exists pb.
    + intros q s _. by rewrite Es.
  - by rewrite lookup_insert_ne.
Qed.

Lemma add_child p pb : hashPrevBlock h = p -> m !! p = Some pb ->
  BM.AddToBlockIndex m h = Some (Some hash, <[hash := child_entry m h p pb]> m).
Proof.
  intros Hp Hpb. assert (p <> hash) as Hne by congruence. pose proof (index_tree g m Hwf) as Ht.
  unfold BM.AddToBlockIndex. fold hash. rewrite Hnew, Hp. unfold BM.LookupBlockIndex.
  rewrite lookup_insert_ne, Hpb by done. cbv zeta. rewrite header_proof.
  rewrite !(deref_eq nChainWork 0 _ p pb), !(deref_eq nHeight 0 _ p pb), !(deref_eq nTimeMax 0 _ p pb)
    by by rewrite lookup_insert_ne.
  rewrite insert_insert_eq. rewrite (build_skip_child _ p pb) by done. by rewrite insert_insert_eq.
Qed.

Lemma add_root : m !! hashPrevBlock h = None -> hash <> hashPrevBlock h -> Blob.IsNull (hashPrevBlock h) = true ->
  BM.AddToBlockIndex m h = Some (Some hash, <[hash := root_entry h]> m).
Proof.
  intros Hp Hne Hnull. unfold BM.AddToBlockIndex. fold hash. rewrite Hnew. unfold BM.LookupBlockIndex.
  rewrite lookup_insert_ne, Hp, Hnull by done. cbv zeta. cbn [negb]. rewrite header_proof.
  rewrite insert_insert_eq. unfold BuildSkip. cbn [pprev Idx.set_tree Idx.of_header].
  by rewrite insert_insert_eq.
Qed.

Lemma add_orphan : m !! hashPrevBlock h = None -> hash <> hashPrevBlock h -> Blob.IsNull (hashPrevBlock h) = false ->
  BM.AddToBlockIndex m h = Some (None, m).
Proof.
  intros Hp Hne Hnull. unfold BM.AddToBlockIndex. fold hash. rewrite Hnew. unfold BM.LookupBlockIndex.
  rewrite lookup_insert_ne, Hp, Hnull by done. cbn [negb]. by rewrite delete_insert_id.
Qed.

Lemma header_of_child p pb : hashPrevBlock h = p -> Idx.GetBlockHeader (child_entry m h p pb) = h.
Proof. intros <-. by destruct h. Qed.

Lemma child_wf p pb : hashPrevBlock h = p -> m !! p = Some pb ->
  index_wf g (<[hash := child_entry m h p pb]> m).
Proof.
  intros Hp Hpb q c. pose proof (index_tree g m Hwf) as Ht. pose proof (bw_height _ _ _ _ (Hwf p pb Hpb)).
  rewrite lookup_insert_Some. intros [[<- <-]|[_ Hc]].
  - split; [cbn; lia|by rewrite header_of_child|by rewrite header_of_child|done|].
    intros q. cbn [pprev child_entry]. intros [= <-]. exists pb.
    assert (p <> hash) by congruence. split_and!; [by rewrite lookup_insert_ne|done..|].
    cbn [pskip nHeight child_entry]. symmetry. apply ancestor_at_grow; [done|apply insert_sub|by eexists].
  - eapply block_wf_grow; [done|apply insert_sub|by apply Hwf].
Qed.

Lemma header_of_root : Blob.IsNull (hashPrevBlock h) = true -> Idx.GetBlockHeader (root_entry h) = h.
Proof.
  intros Hn. destruct Hh as (_ & Hp & _). apply isnull_spec in Hn as Hn'. destruct h. cbn in *.
  unfold Idx.GetBlockHeader, root_entry. cbn. f_equal. destruct Hp as [Hl _]. by rewrite Hn', Hl.
Qed.

Lemma root_wf : Blob.IsNull (hashPrevBlock h) = true -> hash = g -> index_wf g (<[hash := root_entry h]> m).
Proof.
  intros Hn Hg q c. pose proof (index_tree g m Hwf) as Ht. rewrite lookup_insert_Some. intros [[<- <-]|[_ Hc]].
  - split; [done|by rewrite header_of_root|by rewrite header_of_root|intros _; by split_and!|done].
  - eapply block_wf_grow; [done|apply insert_sub|by apply Hwf].
Qed.
End Add.

(** *** Continuity of a chain *)

Section Continuity.
Context (g : uint256) (m : block_map) (Hwf : index_wf g m).

(** The root of a block's chain. *)
Lemma back_root p b : m !! p = Some b -> back m (Z.to_nat (nHeight b)) p = Some g.
Proof.
  pose proof (index_tree g m Hwf) as Ht. intros Hp.
  destruct (back_some m Ht (Z.to_nat (nHeight b)) p b Hp) as (q & c & E & Hq & Hc).
  { pose proof (bw_height _ _ _ _ (Hwf p b Hp)). lia. }
  rewrite E. f_equal. destruct (Hwf q c Hq) as [Hh _ _ Hroot Hpar]. destruct (pprev c) as [r|] eqn:Er; [|by apply Hroot].
  destruct (Hpar r eq_refl) as (rb & Hr & ? & _). pose proof (bw_height _ _ _ _ (Hwf r rb Hr)).
  pose proof (bw_height _ _ _ _ (Hwf p b Hp)). lia.
Qed.

Lemma continuity_walk_ok fuel p b w : m !! p = Some b -> (Z.to_nat (nHeight b) <= fuel)%nat ->
  w + nHeight b <= 1000000 -> BM.continuity_walk fuel m p w = inl (g, w + nHeight b).
Proof.
  revert p b w. induction fuel as [|fuel IH]; intros p b w Hp Hf Hw;
    destruct (Hwf p b Hp) as [Hh _ _ Hroot Hpar]; cbn [BM.continuity_walk]; rewrite (deref_eq pprev None m p b Hp);
    (destruct (pprev b) as [q|] eqn:E;
      [destruct (Hpar q eq_refl) as (c & Hc & Hhc & _); pose proof (bw_height _ _ _ _ (Hwf q c Hc))
      |destruct (Hroot eq_refl) as (-> & -> & _); by rewrite Z.add_0_r]).
  - lia.
  - rewrite (proj2 (Z.ltb_ge 1000000 (w + 1))) by lia. rewrite (IH q c) by (done || lia). do 2 f_equal. lia.
Qed.

Lemma continuity_walk_far fuel p b w : m !! p = Some b -> (Z.to_nat (nHeight b) <= fuel)%nat ->
  0 <= w <= 1000000 -> 1000000 < w + nHeight b -> BM.continuity_walk fuel m p w = inr BM.walk_exceeded_1M.
Proof.
  revert p b w. induction fuel as [|fuel IH]; intros p b w Hp Hf Hw Hfar;
    destruct (Hwf p b Hp) as [Hh _ _ Hroot Hpar]; cbn [BM.continuity_walk]; rewrite (deref_eq pprev None m p b Hp);
    (destruct (pprev b) as [q|] eqn:E;
      [destruct (Hpar q eq_refl) as (c & Hc & Hhc & _); pose proof (bw_height _ _ _ _ (Hwf q c Hc))
      |destruct (Hroot eq_refl) as (_ & ? & _); lia]).
  - lia.
  - destruct (Z.ltb_spec 1000000 (w + 1)); [done|]. apply (IH q c); [done|lia..].
Qed.

(** A height is smaller than the number of blocks. *)
Lemma height_size p b : m !! p = Some b -> (Z.to_nat (nHeight b) < size m)%nat.
Proof.
  pose proof (index_tree g m Hwf) as Ht. intros Hp. pose proof (bw_height _ _ _ _ (Hwf p b Hp)) as Hh.
  set (f := fun i => default g (ancestor_at m p (Z.of_nat i))).
  assert (Hf : forall i, (i < S (Z.to_nat (nHeight b)))%nat -> exists c, m !! f i = Some c /\ nHeight c = Z.of_nat i).
  { intros i Hi. destruct (ancestor_at_some m Ht p b (Z.of_nat i) Hp ltac:(lia)) as (q & c & E & Hq & Hc).
    unfold f. rewrite E. by exists c. }
  assert (Hnd : NoDup (f <$> seq 0 (S (Z.to_nat (nHeight b))))).
  { apply NoDup_fmap_2_strong; [|apply NoDup_seq]. intros i j Hi Hj E.
    apply elem_of_seq in Hi, Hj. destruct (Hf i ltac:(lia)) as (c & Hc & ?), (Hf j ltac:(lia)) as (c' & Hc' & ?).
    rewrite E in Hc. simplify_eq. lia. }
  assert (Hle : (length (f <$> seq 0 (S (Z.to_nat (nHeight b)))) <= size (dom m))%nat).
  { rewrite <- (size_list_to_set (C := gset (list Z)) _ Hnd). apply subseteq_size.
    intros q. rewrite elem_of_list_to_set, list_elem_of_fmap. intros (i & -> & Hi). apply elem_of_seq in Hi.
    destruct (Hf i ltac:(lia)) as (c & Hc & _). by apply elem_of_dom. }
  rewrite length_fmap, length_seq, size_dom in Hle. lia.
Qed.
End Continuity.

(** *** Accumulated work *)

(** The sum of the work of a block and its ancestors. *)
Fixpoint work_sum (n : nat) (m : block_map) (p : option block_ptr) : Z :=
  match n, p with
  | S n, Some p => match m !! p with Some b => work_of (Idx.nBits b) + work_sum n m (pprev b) | None => 0 end
  | _, _ => 0
  end.

Lemma chainwork_sum g m p b n : index_wf g m -> m !! p = Some b -> nHeight b < Z.of_nat n ->
  nChainWork b = work_sum n m (Some p) mod 2 ^ 256.
Proof.
  intros Hwf. revert p b. induction n as [|n IH]; intros p b Hp Hn; [pose proof (bw_height _ _ _ _ (Hwf p b Hp)); lia|].
  cbn [work_sum]. rewrite Hp. destruct (Hwf p b Hp) as [Hh _ Hhd Hroot Hpar].
  assert (Hb : in_u 32 (Idx.nBits b)) by by apply (index_fields g m Hwf p).
  pose proof (work_of_range _ (proj1 Hb)). destruct (pprev b) as [q|] eqn:E.
  - destruct (Hpar q eq_refl) as (c & Hc & Hhc & -> & _). rewrite (IH q c Hc) by lia.
    rewrite Z.add_mod_idemp_l by lia. f_equal. lia.
  - destruct (Hroot eq_refl) as (_ & _ & -> & _). destruct n; cbn [work_sum]; rewrite Z.add_0_r, Z.mod_small; lia.
Qed.

Lemma work_sum_nonneg g m n p : index_wf g m -> 0 <= work_sum n m p.
Proof.
  intros Hwf. revert p. induction n as [|n IH]; intros [p|]; cbn [work_sum]; try lia.
  destruct (m !! p) as [b|] eqn:Hp; [|lia]. destruct (index_fields g m Hwf p b Hp) as [_ Hb].
  pose proof (work_of_range _ (proj1 Hb)). specialize (IH (pprev b)). lia.
Qed.

(** ** Properties *)

(** on a well-formed index [AddToBlockIndex] fails no assertion.  A known header changes
    nothing; a header whose parent is known gets an entry whose height, work, maximal time and skip
    pointer derive from the parent, every other entry stays the same, and the index remains well-formed;
    a header with an unknown, non-null parent is refused and leaves the map as it was. *)
Theorem add_to_block_index_exact (g : uint256) (m : block_map) (h : CBlockHeader) :
  index_wf g m -> header_wf h -> Header.GetHash h <> hashPrevBlock h ->
  let hash := Header.GetHash h in
  (is_Some (m !! hash) -> BM.AddToBlockIndex m h = Some (Some hash, m)) /\
  (m !! hash = None -> forall pb, m !! hashPrevBlock h = Some pb ->
     exists m', BM.AddToBlockIndex m h = Some (Some hash, m') /\ index_wf g m' /\
       m' = <[hash := child_entry m h (hashPrevBlock h) pb]> m /\ Idx.GetBlockHeader (child_entry m h (hashPrevBlock h) pb) = h) /\
  (m !! hash = None -> m !! hashPrevBlock h = None -> Blob.IsNull (hashPrevBlock h) = false ->
     BM.AddToBlockIndex m h = Some (None, m)) /\
  (m !! hash = None -> m !! hashPrevBlock h = None -> Blob.IsNull (hashPrevBlock h) = true -> hash = g ->
     exists m', BM.AddToBlockIndex m h = Some (Some hash, m') /\ index_wf g m' /\ m' = <[hash := root_entry h]> m).
Proof.
  intros Hwf Hh Hne hash. split_and!.
  - intros [b Hb]. unfold BM.AddToBlockIndex. fold hash. by rewrite Hb.
  - intros Hn pb Hpb. eexists. split; [by apply (add_child g m Hwf h Hh Hn (hashPrevBlock h) pb)|].
    split; [by apply (child_wf g m Hwf h Hh Hn (hashPrevBlock h) pb)|]. split; [done|by apply header_of_child].
  - intros Hn Hp Hnull. by apply add_orphan.
  - intros Hn Hp Hnull Hg. eexists. split; [by apply (add_root m h Hh Hn)|]. split; [by apply (root_wf g m Hwf h Hh Hn)|done].
Qed.

(** the accumulated work of a block is the sum, modulo [2^256], of the work of its chain
    down to genesis; as long as that sum fits, a block whose bits are a valid target has strictly
    more work than its parent. *)
Theorem chain_work_exact (g : uint256) (m : block_map) (p : block_ptr) (b : CBlockIndex) :
  index_wf g m -> m !! p = Some b ->
  nChainWork b = work_sum (S (Z.to_nat (nHeight b))) m (Some p) mod 2 ^ 256 /\
  (work_sum (S (Z.to_nat (nHeight b))) m (Some p) < 2 ^ 256 -> c_valid (Idx.nBits b) = true ->
   forall q c, pprev b = Some q -> m !! q = Some c -> nChainWork c < nChainWork b).
Proof.
  intros Hwf Hp. pose proof (bw_height _ _ _ _ (Hwf p b Hp)) as Hh.
  pose proof (chainwork_sum g m p b (S (Z.to_nat (nHeight b))) Hwf Hp ltac:(lia)) as E. split; [done|].
  intros Hlt Hv q c Hq Hc. destruct (bw_parent _ _ _ _ (Hwf p b Hp) q Hq) as (c' & Hc' & Hhc & _ & _). simplify_eq.
  pose proof (bw_height _ _ _ _ (Hwf q c Hc)).
  pose proof (chainwork_sum g m q c (Z.to_nat (nHeight b)) Hwf Hc ltac:(lia)) as Ec.
  rewrite E, Ec. cbn [work_sum] in *. rewrite Hp, Hq in *. destruct (index_fields g m Hwf p b Hp) as [_ Hb].
  pose proof (proj2 (work_of_pos _ (proj1 Hb)) Hv). pose proof (work_sum_nonneg g m (Z.to_nat (nHeight b)) (Some q) Hwf).
  rewrite !Z.mod_small by lia. lia.
Qed.

Lemma verify_continuity_ok (g : uint256) (m : block_map) (p : block_ptr) (b : CBlockIndex) :
  index_wf g m -> m !! p = Some b ->
  BM.VerifyChainContinuity m (Some p) g =
    if nHeight b <=? 1000000 then inl tt else inr BM.walk_exceeded_1M.
Proof.
  intros Hwf Hp. pose proof (height_size g m Hwf p b Hp) as Hs. pose proof (bw_height _ _ _ _ (Hwf p b Hp)) as Hh.
  unfold BM.VerifyChainContinuity. destruct (Z.leb_spec (nHeight b) 1000000).
  - rewrite (continuity_walk_ok g m Hwf (size m) p b 0) by (done || lia). rewrite bool_decide_true by done. cbn [negb].
    destruct (back_height m (index_tree g m Hwf) _ p b g Hp (back_root g m Hwf p b Hp)) as (c & Hc & Hhc).
    rewrite (deref_eq nHeight 0 m g c Hc), (deref_eq nHeight 0 m p b Hp).
    rewrite (proj2 (Z.eqb_eq (nHeight c) 0)) by lia. rewrite Z.add_0_l, Z.eqb_refl. done.
  - by rewrite (continuity_walk_far g m Hwf (size m) p b 0) by (done || lia).
Qed.

(** [VerifyChainContinuity] accepts every block of a well-formed index up to height
    1,000,000, and refuses every higher one, although its chain is intact. *)
Theorem verify_continuity_exact (g : uint256) (m : block_map) (p : block_ptr) (b : CBlockIndex) :
  index_wf g m -> m !! p = Some b ->
  BM.VerifyChainContinuity m (Some p) g =
    if nHeight b <=? 1000000 then inl tt else inr BM.walk_exceeded_1M.
Proof. apply verify_continuity_ok. Qed.

(** [Initialize] of a fresh manager with a genesis header succeeds and leaves a well-formed
    index holding genesis alone, as the tip of the active chain; a second call is refused and
    changes nothing. *)
Lemma initialize_ok (h : CBlockHeader) :
  header_wf h -> Blob.IsNull (hashPrevBlock h) = true -> Header.GetHash h <> hashPrevBlock h ->
  exists bm, BM.Initialize BM.new h = Some (true, bm) /\
    BM.m_block_index bm = {[Header.GetHash h := root_entry h]} /\ index_wf (Header.GetHash h) (BM.m_block_index bm) /\
    BM.m_active_chain bm = [Some (Header.GetHash h)] /\ BM.m_genesis_hash bm = Header.GetHash h /\
    BM.m_initialized bm = true /\
    forall h', BM.Initialize bm h' = Some (false, bm).
Proof.
  intros Hh Hnull Hne. set (g := Header.GetHash h) in *.
  assert (Hwf0 : index_wf g ∅) by (intros q c Hc; by rewrite lookup_empty in Hc).
  pose proof (add_root ∅ h Hh (lookup_empty _) (lookup_empty _) Hne Hnull) as E.
  pose proof (root_wf g ∅ Hwf0 h Hh (lookup_empty _) Hnull eq_refl) as Hwf. fold g in E, Hwf.
  set (m := <[g := root_entry h]> (∅ : block_map)) in *.
  assert (Hg : m !! g = Some (root_entry h)) by apply lookup_insert_eq.
  assert (Hpath : path m g = [Some g]).
  { unfold path. rewrite (deref_eq nHeight 0 m g _ Hg). cbn [nHeight root_entry Z.to_nat seq fmap list_fmap].
    f_equal. apply (ancestor_at_self m (index_tree g m Hwf) g _ Hg). }
  unfold BM.Initialize. cbn [BM.m_initialized BM.new BM.m_block_index]. rewrite E.
  unfold BM.SetActiveTip. cbn [BM.m_block_index BM.m_active_chain BM.new].
  rewrite (SetTip_ok m (index_tree g m Hwf) [] g (root_entry h)) by (done || by left). rewrite Hpath.
  cbn [BM.m_block_index BM.m_active_chain BM.m_genesis_hash BM.m_initialized].
  assert (Hcont : BM.VerifyChainContinuity m (Some g) g = inl tt).
  { unfold BM.VerifyChainContinuity. rewrite (continuity_walk_ok g m Hwf _ g _ 0 Hg) by (cbn; lia).
    rewrite bool_decide_true, (deref_eq nHeight 0 m g _ Hg) by done. done. }
  fold g. rewrite Hcont. eexists. split; [done|]. cbn [BM.m_block_index BM.m_active_chain BM.m_genesis_hash BM.m_initialized].
  split_and!; done.
Qed.

(** *** A concrete index: the regtest genesis *)

Definition regtest_genesis : CBlockHeader := Params.CreateGenesisBlock 1296688602 2 0x207fffff 1.
Definition regtest_hash : uint256 := Params.uint256S "0x0233b37bb6942bfb471cfd7fb95caab0e0f7b19cc8767da65fbef59eb49e45bd".
Definition genesis_index : block_map := {[regtest_hash := root_entry regtest_genesis]}.

Lemma regtest_genesis_wf : header_wf regtest_genesis.
Proof. apply genesis_wf; unfold in_u; lia. Qed.

Lemma regtest_hash_eq : Header.GetHash regtest_genesis = regtest_hash.
Proof. apply regtest_genesis_hash. Qed.

Lemma genesis_index_wf : index_wf regtest_hash genesis_index.
Proof.
  pose proof (root_wf regtest_hash ∅ (fun _ _ H => False_rect _ (lookup_empty_Some _ _ H)) regtest_genesis
    regtest_genesis_wf (lookup_empty _) eq_refl regtest_hash_eq) as H.
  rewrite regtest_hash_eq in H. exact H.
Qed.

(** A header on top of genesis. *)
Definition next_header : CBlockHeader :=
  mkHeader 1 regtest_hash (Blob.SetNull 20) 1296688800 0x207fffff 7 (Blob.SetNull 32).

Lemma next_header_wf : header_wf next_header.
Proof.
  unfold header_wf, next_header. cbn [nVersion hashPrevBlock minerAddress nTime nBits nNonce hashRandomX].
  unfold in_u, in_s. split_and!; try lia; try apply setnull_wf; apply uint256S_wf.
Qed.

Lemma next_header_fresh : Header.GetHash next_header <> regtest_hash.
Proof. intros E. vm_compute in E. discriminate E. Qed.

Lemma add_to_block_index_exact_witness :
  let m := genesis_index in let h := next_header in let g := regtest_hash in
  let hash := Header.GetHash h in
  (is_Some (m !! hash) -> BM.AddToBlockIndex m h = Some (Some hash, m)) /\
  (m !! hash = None -> forall pb, m !! hashPrevBlock h = Some pb ->
     exists m', BM.AddToBlockIndex m h = Some (Some hash, m') /\ index_wf g m' /\
       m' = <[hash := child_entry m h (hashPrevBlock h) pb]> m /\ Idx.GetBlockHeader (child_entry m h (hashPrevBlock h) pb) = h) /\
  (m !! hash = None -> m !! hashPrevBlock h = None -> Blob.IsNull (hashPrevBlock h) = false ->
     BM.AddToBlockIndex m h = Some (None, m)) /\
  (m !! hash = None -> m !! hashPrevBlock h = None -> Blob.IsNull (hashPrevBlock h) = true -> hash = g ->
     exists m', BM.AddToBlockIndex m h = Some (Some hash, m') /\ index_wf g m' /\ m' = <[hash := root_entry h]> m).
Proof.
  intros m h g. exact (add_to_block_index_exact g m h genesis_index_wf next_header_wf next_header_fresh).
Defined.

Lemma genesis_lookup : genesis_index !! regtest_hash = Some (root_entry regtest_genesis).
Proof. apply lookup_insert_eq. Qed.

Lemma chain_work_exact_witness :
  let b := root_entry regtest_genesis in
  nChainWork b = work_sum (S (Z.to_nat (nHeight b))) genesis_index (Some regtest_hash) mod 2 ^ 256 /\
  (work_sum (S (Z.to_nat (nHeight b))) genesis_index (Some regtest_hash) < 2 ^ 256 -> c_valid (Idx.nBits b) = true ->
   forall q c, pprev b = Some q -> genesis_index !! q = Some c -> nChainWork c < nChainWork b).
Proof. intros b. exact (chain_work_exact regtest_hash genesis_index regtest_hash b genesis_index_wf genesis_lookup). Defined.

Lemma verify_continuity_exact_witness :
  BM.VerifyChainContinuity genesis_index (Some regtest_hash) regtest_hash =
    if nHeight (root_entry regtest_genesis) <=? 1000000 then inl tt else inr BM.walk_exceeded_1M.
Proof. exact (verify_continuity_exact regtest_hash genesis_index regtest_hash _ genesis_index_wf genesis_lookup). Defined.

Lemma regtest_not_fixpoint : Header.GetHash regtest_genesis <> hashPrevBlock regtest_genesis.
Proof. intros E. vm_compute in E. discriminate E. Qed.
