(* ===== verification/SameTree.v ===== *)
(** * SameTree: block indexes that differ only in status and reception time

    The status word and the reception time of a block change after insertion; the
    tree of headers does not.  [same_tree] is that equivalence, with the [Proper] instances of
    the tree definitions; [grows] is its preorder version, for an index that also gains blocks. *)
From S2P Require Import Prelude Arith Bytes Compact Sha256 Block BlockIndex Chain ChainParams Pow RandomX Validation.
From S2P Require Import ChainSelector BlockManager.
#[local] Open Scope Z_scope.
Import Idx (CBlockIndex, mkIndex, nHeight, pprev, pskip, nChainWork, nStatus, nTimeMax, nTimeReceived).

(** What is left of an entry without its status and reception time. *)
Definition shape (b : CBlockIndex) : CBlockIndex := Idx.set_nStatus 0 (Idx.set_nTimeReceived 0 b).

(** A field that the shape determines. *)
Class ShapeField {A} (f : CBlockIndex -> A) : Prop := shape_field b : f (shape b) = f b.
#[export] Instance sf_pprev : ShapeField pprev. Proof. by intros []. Qed.
#[export] Instance sf_pskip : ShapeField pskip. Proof. by intros []. Qed.
#[export] Instance sf_height : ShapeField nHeight. Proof. by intros []. Qed.
#[export] Instance sf_work : ShapeField nChainWork. Proof. by intros []. Qed.
#[export] Instance sf_timemax : ShapeField nTimeMax. Proof. by intros []. Qed.
#[export] Instance sf_time : ShapeField Idx.nTime. Proof. by intros []. Qed.
#[export] Instance sf_bits : ShapeField Idx.nBits. Proof. by intros []. Qed.
#[export] Instance sf_header : ShapeField Idx.GetBlockHeader. Proof. by intros []. Qed.

(** An update that keeps the shape. *)
Class KeepsShape (f : CBlockIndex -> CBlockIndex) : Prop := keeps_shape b : shape (f b) = shape b.
#[export] Instance ks_status g : KeepsShape (fun b => Idx.set_nStatus (g b) b). Proof. by intros []. Qed.
#[export] Instance ks_received t : KeepsShape (Idx.set_nTimeReceived t). Proof. by intros []. Qed.
#[export] Instance ks_raise l : KeepsShape (fun b => snd (Idx.RaiseValidity b l)).
Proof. intros b. unfold Idx.RaiseValidity. repeat case_match; simplify_eq; by destruct b. Qed.

Record same_tree (m m' : block_map) : Prop := same_tree_intro { same_shape : shape <$> m = shape <$> m' }.
#[export] Instance same_tree_equiv : Equivalence same_tree.
Proof. split; [by intros ?|intros ? ? [E]; by split|intros ? ? ? [E] [E']; split; by rewrite E]. Qed.

(** The second index has the blocks of the first, with the same shapes. *)
Definition grows (m m' : block_map) : Prop := (shape <$> m : block_map) ⊆ shape <$> m'.
#[export] Instance grows_preorder : PreOrder grows.
Proof. unfold grows. split; [by intros ?|intros ? ? ? ? ?; by etrans]. Qed.

Lemma same_grows m m' : same_tree m m' -> grows m m'.
Proof. unfold grows. by intros [->]. Qed.

Lemma sub_grows (m m' : block_map) : m ⊆ m' -> grows m m'.
Proof. intros H. by apply map_fmap_mono. Qed.

Lemma shape_tree (m : block_map) : same_tree (shape <$> m) m.
Proof. split. rewrite <- map_fmap_compose. apply map_fmap_ext. intros i [] _. done. Qed.

Lemma alter_same f `{!KeepsShape f} (p : block_ptr) (m : block_map) : same_tree (alter f p m) m.
Proof.
  split. apply map_eq. intros q. rewrite !lookup_fmap, lookup_alter.
  destruct (decide (p = q)) as [<-|]; [|done]. destruct (m !! p) as [b|]; [|done]. cbn. f_equal. apply keeps_shape.
Qed.

Lemma grows_lookup m m' p b : grows m m' -> m !! p = Some b -> exists b', m' !! p = Some b' /\ shape b' = shape b.
Proof.
  intros Hg Hb. assert ((shape <$> m : block_map) !! p = Some (shape b)) as H by by rewrite lookup_fmap, Hb.
  apply (lookup_weaken _ _ _ _ H) in Hg. rewrite lookup_fmap in Hg. destruct (m' !! p) as [b'|]; [|done].
  exists b'. split; [done|by injection Hg].
Qed.

Lemma same_lookup m m' p b : same_tree m m' -> m !! p = Some b -> exists b', m' !! p = Some b' /\ shape b' = shape b.
Proof. intros Hs. apply grows_lookup. by apply same_grows. Qed.

Lemma shape_eq {A} (f : CBlockIndex -> A) `{!ShapeField f} b b' : shape b' = shape b -> f b' = f b.
Proof. intros E. by rewrite <- (shape_field (f := f) b'), E, (shape_field (f := f)). Qed.

Lemma grows_some m m' p : grows m m' -> is_Some (m !! p) -> is_Some (m' !! p).
Proof. intros Hg [b Hb]. destruct (grows_lookup m m' p b Hg Hb) as (b' & ? & _). by exists b'. Qed.

#[export] Instance same_some_proper : Proper (same_tree ==> eq ==> iff) (fun m p => is_Some (m !! p)).
Proof. intros m m' Hs p ? <-. split; apply grows_some, same_grows; [done|by symmetry]. Qed.

Lemma same_size m m' : same_tree m m' -> size m = size m'.
Proof. intros Hs. by rewrite <- (map_size_fmap shape m), (same_shape _ _ Hs), map_size_fmap. Qed.

(** ** The tree definitions respect the equivalence *)

Lemma deref_same {A} (f : CBlockIndex -> A) `{!ShapeField f} d m m' p : same_tree m m' -> deref f d m p = deref f d m' p.
Proof.
  intros Hs. unfold deref. destruct (m !! p) as [b|] eqn:E.
  - destruct (same_lookup m m' p b Hs E) as (b' & -> & Hb). symmetry. by apply shape_eq.
  - destruct (m' !! p) as [b'|] eqn:E'; [|done].
    destruct (same_lookup m' m p b' (symmetry Hs) E') as (b & Hb & _). congruence.
Qed.

Lemma back_same n m m' p : same_tree m m' -> back m n p = back m' n p.
Proof.
  intros Hs. revert p. induction n as [|n IH]; intros p; [done|]. cbn [back].
  rewrite (deref_same pprev None m m' p Hs). destruct (deref pprev None m' p); [apply IH|done].
Qed.

#[export] Instance ancestor_at_proper : Proper (same_tree ==> eq ==> eq ==> eq) ancestor_at.
Proof.
  intros m m' Hs p ? <- h ? <-. unfold ancestor_at. by rewrite (deref_same nHeight 0 m m' p Hs), (back_same _ m m' p Hs).
Qed.

#[export] Instance ancestor_proper : Proper (same_tree ==> eq ==> eq ==> iff) ancestor.
Proof.
  intros m m' Hs a ? <- p ? <-. unfold ancestor. split; intros [n Hn]; exists n; by rewrite (back_same n m m') in *.
Qed.

#[export] Instance path_proper : Proper (same_tree ==> eq ==> eq) path.
Proof.
  intros m m' Hs p ? <-. unfold path. rewrite (deref_same nHeight 0 m m' p Hs). apply list_fmap_ext.
  intros i x _. by rewrite Hs.
Qed.

#[export] Instance compare_proper : Proper (same_tree ==> eq ==> eq ==> eq) Selector.compare.
Proof.
  intros m m' Hs a ? <- b ? <-. unfold Selector.compare. cbv zeta.
  by rewrite !(deref_same nChainWork 0 m m'), !(deref_same nHeight 0 m m').
Qed.

#[export] Instance contains_proper : Proper (same_tree ==> eq ==> eq ==> eq) CChain.Contains.
Proof.
  intros m m' Hs v ? <- [p|] ? <-; [|done]. unfold CChain.Contains. cbv zeta. by rewrite !(deref_same nHeight 0 m m').
Qed.

Lemma has_children_grows m m' p : grows m m' -> Selector.has_children m p = true -> Selector.has_children m' p = true.
Proof.
  intros Hg. rewrite !has_children_spec. intros (q & b & Hq & Hb). destruct (grows_lookup m m' q b Hg Hq) as (b' & ? & E).
  exists q, b'. split; [done|]. by rewrite (shape_eq pprev b b').
Qed.

#[export] Instance has_children_proper : Proper (same_tree ==> eq ==> eq) Selector.has_children.
Proof. intros m m' Hs p ? <-. apply eq_true_iff_eq. split; apply has_children_grows, same_grows; [done|by symmetry]. Qed.

Lemma block_wf_shape g m m' h b b' : same_tree m m' -> shape b' = shape b -> block_wf g m h b -> block_wf g m' h b'.
Proof.
  intros Hs E [Hh Hk Hhd Hroot Hpar].
  split; rewrite ?(shape_eq nHeight b b'), ?(shape_eq Idx.GetBlockHeader b b'), ?(shape_eq pprev b b'),
    ?(shape_eq nChainWork b b'), ?(shape_eq Idx.nBits b b'), ?(shape_eq nTimeMax b b'), ?(shape_eq Idx.nTime b b'),
    ?(shape_eq pskip b b') by done; [done..|].
  intros p Ep. destruct (Hpar p Ep) as (pb & Hp & ? & ? & ? & Hsk).
  destruct (same_lookup m m' p pb Hs Hp) as (pb' & Hp' & Eb). exists pb'.
  rewrite (shape_eq nHeight pb pb'), (shape_eq nChainWork pb pb'), (shape_eq nTimeMax pb pb') by done.
  split_and!; [done..|]. by rewrite <- Hs.
Qed.

#[export] Instance index_wf_proper : Proper (eq ==> same_tree ==> iff) index_wf.
Proof.
  assert (forall g m m', same_tree m m' -> index_wf g m -> index_wf g m') as Hone.
  { intros g m m' Hs Hwf h b' Hb'. destruct (same_lookup m' m h b' (symmetry Hs) Hb') as (b & Hb & E).
    apply (block_wf_shape g m m' h b b'); [done|done|by apply Hwf]. }
  intros g ? <- m m' Hs. split; apply Hone; [done|by symmetry].
Qed.

Lemma cand_wf_ext m m' l : (forall a b, a ∈ l -> b ∈ l -> Selector.compare m a b = Selector.compare m' a b) ->
  cand_wf m l -> cand_wf m' l.
Proof.
  intros Hext [Hs Hl]. split; [|done]. clear Hl. induction Hs as [|x l Hs IH Hx]; constructor.
  - apply IH. intros a b Ha Hb. apply Hext; by right.
  - rewrite Forall_forall in Hx |- *. intros y Hy. rewrite <- Hext; [by apply Hx|left; done|by right].
Qed.

#[export] Instance cand_wf_proper : Proper (same_tree ==> eq ==> iff) cand_wf.
Proof.
  intros m m' Hs l ? <-. split; apply cand_wf_ext; intros a b _ _; by rewrite Hs.
Qed.

(** ** What existing blocks see of an index that grew *)

Section Grows.
Context (m m' : block_map) (Hwf : tree_wf (shape <$> m)) (Hg : grows m m').

Lemma grows_deref {A} (f : CBlockIndex -> A) `{!ShapeField f} d p : is_Some (m !! p) -> deref f d m' p = deref f d m p.
Proof.
  intros [b Hb]. destruct (grows_lookup m m' p b Hg Hb) as (b' & Hb' & E).
  rewrite (deref_eq f d m p b Hb), (deref_eq f d m' p b' Hb'). by apply shape_eq.
Qed.

Lemma grows_path p : is_Some (m !! p) -> path m' p = path m p.
Proof.
  intros Hp. rewrite <- (shape_tree m'), <- (shape_tree m). apply path_grow; [done|done|].
  rewrite lookup_fmap. by apply fmap_is_Some.
Qed.

Lemma grows_ancestor a p : is_Some (m !! p) -> ancestor m' a p <-> ancestor m a p.
Proof.
  intros Hp. rewrite <- (shape_tree m'), <- (shape_tree m). apply ancestor_grow; [done|done|].
  rewrite lookup_fmap. by apply fmap_is_Some.
Qed.

Lemma grows_cand l : (forall p, p ∈ l -> is_Some (m !! p)) -> cand_wf m l -> cand_wf m' l.
Proof.
  intros Hin. apply cand_wf_ext. intros a b Ha%Hin Hb%Hin. unfold Selector.compare. cbv zeta.
  by rewrite !(grows_deref nChainWork 0), !(grows_deref nHeight 0) by done.
Qed.
End Grows.

Lemma index_shape_tree g m : index_wf g m -> tree_wf (shape <$> m).
Proof. intros H. apply (index_tree g). by rewrite shape_tree. Qed.
