(* ===== verification/Persist.v ===== *)
(** * Persist: [BlockManager::Save] and [BlockManager::Load]

    The file is a JSON value: the text format is the JSON library's.  [json] has
    the kinds of values that [Save] writes; [JOther] stands for every kind whose
    conversion to a number or a string throws. *)
From Stdlib Require Import String.
From S2P Require Import Prelude Arith Bytes Compact Sha256 Block BlockIndex Chain ChainParams Pow RandomX Validation BlockManager.
#[local] Open Scope Z_scope.
#[local] Set Warnings "-register-all".
Import Idx (CBlockIndex, mkIndex, nHeight, pprev, pskip, nChainWork, nStatus, nTimeMax, nTimeReceived).

(** The JSON values that the node writes, with [JOther] for null.  Booleans and floating-point numbers, which the library would
    convert to integers on reading, are not represented: the files of the node contain none. *)
Inductive json :=
| JInt (z : Z)
| JStr (s : list Z)
| JArr (l : list json)
| JObj (l : list (string * json))
| JOther.

Module Persist.

(** Lookup of a member; [get] conversions ([None] throws). *)
Fixpoint assoc (k : string) (l : list (string * json)) : option json :=
  match l with
  | [] => None
  | (k', v) :: l => if String.eqb k k' then Some v else assoc k l
  end.
Definition member (k : string) (j : json) : option json :=
  match j with JObj l => assoc k l | _ => None end.
Definition contains (k : string) (j : json) : bool := bool_decide (is_Some (member k j)).
Definition get_int (j : json) : option Z := match j with JInt z => Some z | _ => None end.
Definition get_str (j : json) : option (list Z) := match j with JStr s => Some s | _ => None end.

(** [root.value(key, default)]: throws on a value that is not an object and on a
    member of another type. *)
Definition value_int (k : string) (d : Z) (j : json) : option Z :=
  match j with
  | JObj l => match assoc k l with None => Some d | Some v => option_map i32 (get_int v) end
  | _ => None
  end.
Definition value_str (k : string) (d : list Z) (j : json) : option (list Z) :=
  match j with
  | JObj l => match assoc k l with None => Some d | Some v => get_str v end
  | _ => None
  end.

(** Iteration order of [std::map<uint256, ...>], and the order after sorting by height.
    ([std::sort] leaves the order of equal heights open; here it is the order of the hashes.) *)
Definition hash_le (a b : uint256) : Prop := Blob.Compare a b <= 0.
#[export] Instance hash_le_dec a b : Decision (hash_le a b) := Z_le_dec _ _.
Definition sorted_keys {A} (m : gmap (list Z) A) : list uint256 := merge_sort hash_le ((map_to_list m).*1).

Definition height_le (m : block_map) (a b : block_ptr) : Prop := deref nHeight 0 m a <= deref nHeight 0 m b.
#[export] Instance height_le_dec m a b : Decision (height_le m a b) := Z_le_dec _ _.
Definition by_height (m : block_map) : list block_ptr := merge_sort (height_le m) (sorted_keys m).

(** [arith_uint256::GetHex] and [SetHex] at the integer level. *)
Definition work_hex (w : Z) : list Z := Blob.GetHex (le_split 32 w).
Definition work_of_hex (s : list Z) : Z := le_combine (Blob.SetHex 32 s).

(** ** [Save] *)

Definition save_block (h : uint256) (b : CBlockIndex) : json :=
  JObj [("hash", JStr (Blob.GetHex h));
        ("version", JInt (Idx.nVersion b));
        ("miner_address", JStr (Blob.GetHex (Idx.minerAddress b)));
        ("time", JInt (Idx.nTime b));
        ("bits", JInt (Idx.nBits b));
        ("nonce", JInt (Idx.nNonce b));
        ("hash_randomx", JStr (Blob.GetHex (Idx.hashRandomX b)));
        ("height", JInt (nHeight b));
        ("chainwork", JStr (work_hex (nChainWork b)));
        ("status", JInt (nStatus b));
        ("prev_hash", JStr (Blob.GetHex (match pprev b with Some p => p | None => Blob.SetNull 32 end)))]%string.

Definition save_entry (m : block_map) (h : block_ptr) : list json :=
  match m !! h with Some b => [save_block h b] | None => [] end.

Definition Save (bm : BM.BlockManager) : json :=
  let m := BM.m_block_index bm in
  JObj [("version", JInt 1);
        ("block_count", JInt (Z.of_nat (size m)));
        ("tip_hash", JStr (match BM.GetTip bm with Some t => Blob.GetHex t | None => [] end));
        ("genesis_hash", JStr (Blob.GetHex (BM.m_genesis_hash bm)));
        ("blocks", JArr (concat (save_entry m <$> by_height m)))]%string.

(** ** [Load] *)

(** How a pass ends: with a value, by returning false with the map as it is, or by an exception. *)
Inductive outcome (A : Type) := Done (a : A) | Fail (m : block_map) | Throw.
Arguments Done {A}. Arguments Fail {A}. Arguments Throw {A}.

Definition required_fields : list string :=
  ["hash"; "prev_hash"; "version"; "miner_address"; "time"; "bits"; "nonce"; "hash_randomx"; "height"; "chainwork"; "status"]%string.

Definition get_block_str (k : string) (j : json) : option (list Z) :=
  match member k j with Some v => get_str v | None => None end.
Definition get_block_int (k : string) (j : json) : option Z :=
  match member k j with Some v => get_int v | None => None end.

(** The stored hash and the header of a block entry; [None] throws. *)
Definition parse_header (j : json) : option (uint256 * CBlockHeader) :=
  hash ← get_block_str "hash" j;
  prev_hash ← get_block_str "prev_hash" j;
  version ← get_block_int "version" j;
  miner ← get_block_str "miner_address" j;
  time ← get_block_int "time" j;
  bits ← get_block_int "bits" j;
  nonce ← get_block_int "nonce" j;
  rx ← get_block_str "hash_randomx" j;
  Some (Blob.SetHex 32 hash,
        mkHeader (i32 version) (Blob.SetHex 32 prev_hash) (Blob.SetHex 20 miner) (u32 time) (u32 bits) (u32 nonce)
          (Blob.SetHex 32 rx)).

(** The height, work and status of a block entry; [None] throws. *)
Definition parse_meta (j : json) : option (Z * Z * Z) :=
  height ← get_block_int "height" j;
  work ← get_block_str "chainwork" j;
  status ← get_block_int "status" j;
  Some (i32 height, work_of_hex work, u32 status).

(** First pass: the entries without links, with the previous hash of each.  The message about a
    corrupted entry reads its height, which throws when it is not a number. *)
Fixpoint first_pass (blocks : list json) (m : block_map) (prevs : gmap (list Z) uint256)
  : outcome (block_map * gmap (list Z) uint256) :=
  match blocks with
  | [] => Done (m, prevs)
  | j :: rest =>
      if negb (forallb (fun f => contains f j) required_fields) then Fail m
      else match parse_header j with
      | None => Throw
      | Some (hash, header) =>
          if negb (bool_decide (Header.GetHash header = hash)) then
            match get_block_int "height" j with Some _ => Fail m | None => Throw end
          else match m !! hash with
          | Some _ => Fail m
          | None =>
              match parse_meta j with
              | None => Throw
              | Some (height, work, status) =>
                  let b := Idx.set_nStatus status (Idx.set_tree height work 0 (Idx.of_header header)) in
                  first_pass rest (<[hash := b]> m) (<[hash := hashPrevBlock header]> prevs)
              end
          end
      end
  end.

(** Second pass: the links to the parents. *)
Fixpoint second_pass (hashes : list uint256) (prevs : gmap (list Z) uint256) (m : block_map) : outcome block_map :=
  match hashes with
  | [] => Done m
  | h :: rest =>
      match m !! h, prevs !! h with
      | Some b, Some prev_hash =>
          if negb (Blob.IsNull prev_hash) then
            match BM.LookupBlockIndex m prev_hash with
            | Some p => second_pass rest prevs (<[h := Idx.set_pprev (Some p) b]> m)
            | None => Fail (<[h := Idx.set_pprev None b]> m)
            end
          else second_pass rest prevs (<[h := Idx.set_pprev None b]> m)
      | _, _ => Throw
      end
  end.

(** The blocks without a parent, in map order. *)
Definition roots (m : block_map) : list block_ptr :=
  List.filter (fun h => bool_decide (deref pprev None m h = None)) (sorted_keys m).

(** Third pass, in height order: heights are checked, maximal times and skip pointers set. *)
Fixpoint third_pass (hashes : list block_ptr) (m : block_map) : outcome block_map :=
  match hashes with
  | [] => Done m
  | h :: rest =>
      match m !! h with
      | None => Throw
      | Some b =>
          if nHeight b <? 0 then Fail m
          else
            let time :=
              match pprev b with
              | Some p => if negb (deref nHeight 0 m p + 1 =? nHeight b) then None
                          else Some (Z.max (deref nTimeMax 0 m p) (Idx.GetBlockTime b))
              | None => if negb (nHeight b =? 0) then None else Some (Idx.GetBlockTime b)
              end in
            match time with
            | None => Fail m
            | Some t =>
                let b := Idx.set_tree (nHeight b) (nChainWork b) t b in
                let m := <[h := b]> m in
                match BuildSkip m b with
                | Some s => third_pass rest (<[h := Idx.set_pskip s b]> m)
                | None => Throw
                end
            end
      end
  end.

(** The best tip: the first block, in map order, with the most work among those not failed. *)
Definition better_tip (m : block_map) (genesis : uint256) (best : option block_ptr * Z) (h : block_ptr) : option block_ptr * Z :=
  match m !! h with
  | None => best
  | Some b =>
      if negb (Z.land (nStatus b) BLOCK_FAILED_MASK =? 0) then best
      else if bool_decide (pprev b = None) && negb (bool_decide (h = genesis)) then best
      else if snd best <? nChainWork b then (Some h, nChainWork b) else best
  end.
Definition find_best_tip (m : block_map) (genesis : uint256) : option block_ptr :=
  fst (foldl (better_tip m genesis) (None, 0) (sorted_keys m)).

(** [Load]; [root] is [None] when the file cannot be opened.  An exception clears the state. *)
Definition thrown (bm : BM.BlockManager) : bool * BM.BlockManager :=
  (false, BM.mkBM ∅ [] (BM.m_genesis_hash bm) false).

(** The part of [Load] after the links are restored: genesis uniqueness, heights, tip. *)
Definition load_finish (bm : BM.BlockManager) (m : block_map) (expected_genesis_hash : uint256)
  (genesis_hash_str : list Z) : bool * BM.BlockManager :=
  let keep m := BM.mkBM m [] (BM.m_genesis_hash bm) (BM.m_initialized bm) in
  match roots m with
  | [found_genesis] =>
      if negb (bool_decide (found_genesis = expected_genesis_hash)) then (false, keep m)
      else match third_pass (by_height m) m with
      | Throw => thrown bm
      | Fail m => (false, keep m)
      | Done m =>
          let genesis_hash := Blob.SetHex 32 genesis_hash_str in
          let bm' := BM.mkBM m [] genesis_hash (BM.m_initialized bm) in
          match find_best_tip m genesis_hash with
          | None => (false, bm')
          | Some best_tip =>
              match BM.SetActiveTip bm' best_tip with
              | None => thrown bm'
              | Some bm' =>
                  match BM.VerifyChainContinuity m (Some best_tip) genesis_hash with
                  | inr _ => (false, bm')
                  | inl _ => (true, BM.mkBM m (BM.m_active_chain bm') genesis_hash true)
                  end
              end
          end
      end
  | _ => (false, keep m)
  end.

Definition Load (bm : BM.BlockManager) (file : option json) (expected_genesis_hash : uint256) : bool * BM.BlockManager :=
  match file with
  | None => (false, bm)
  | Some root =>
      match value_int "version" 0 root, value_int "block_count" 0 root, value_str "genesis_hash" [] root,
            value_str "tip_hash" [] root with
      | Some version, Some _, Some genesis_hash_str, Some _ =>
          if negb (version =? 1) then (false, bm)
          else if negb (bool_decide (Blob.SetHex 32 genesis_hash_str = expected_genesis_hash)) then (false, bm)
          else
            let keep m := BM.mkBM m [] (BM.m_genesis_hash bm) (BM.m_initialized bm) in
            match member "blocks" root with
            | Some (JArr blocks) =>
                match first_pass blocks ∅ ∅ with
                | Throw => thrown bm
                | Fail m => (false, keep m)
                | Done (m, prevs) =>
                    match second_pass (sorted_keys prevs) prevs m with
                    | Throw => thrown bm
                    | Fail m => (false, keep m)
                    | Done m => load_finish bm m expected_genesis_hash genesis_hash_str
                    end
                end
            | _ => (false, keep ∅)
            end
      | Some version, _, _, _ => if negb (version =? 1) then (false, bm) else thrown bm
      | None, _, _, _ => thrown bm
      end
  end.

End Persist.

(** ** The keys of a map in order *)

Lemma sorted_keys_elem {A} (m : gmap (list Z) A) h : h ∈ Persist.sorted_keys m <-> is_Some (m !! h).
Proof.
  unfold Persist.sorted_keys. rewrite (merge_sort_Permutation Persist.hash_le). rewrite list_elem_of_fmap. split.
  - intros ((k & v) & -> & Hin). apply elem_of_map_to_list in Hin. by exists v.
  - intros [v Hv]. exists (h, v). split; [done|]. by apply elem_of_map_to_list.
Qed.

Lemma sorted_keys_nodup {A} (m : gmap (list Z) A) : NoDup (Persist.sorted_keys m).
Proof. unfold Persist.sorted_keys. rewrite (merge_sort_Permutation Persist.hash_le). apply NoDup_fst_map_to_list. Qed.
