(* ===== verification/PersistProps.v ===== *)
(** * PersistProps: loading what was saved

    The round trip of [BlockManager::Save] and [BlockManager::Load]: the index comes back
    with every field but the reception times, and the tip is chosen afresh by work. *)
From Stdlib Require Import String.
From S2P Require Import Prelude Arith Bytes Compact Sha256 Block BlockIndex Chain ChainParams Pow RandomX Validation.
From S2P Require Import ChainSelector BlockManager SameTree Persist.
#[local] Open Scope Z_scope.
Import Idx (CBlockIndex, mkIndex, nHeight, pprev, pskip, nChainWork, nStatus, nTimeMax, nTimeReceived).

(** An entry as the passes restore it: without links and maximal time, then with the parent, then whole. *)
Definition bare (b : CBlockIndex) : CBlockIndex :=
  Idx.set_nStatus (nStatus b) (Idx.set_tree (nHeight b) (nChainWork b) 0 (Idx.of_header (Idx.GetBlockHeader b))).
Definition linked (b : CBlockIndex) : CBlockIndex := Idx.set_pprev (pprev b) (bare b).
Definition restored (b : CBlockIndex) : CBlockIndex := Idx.set_nTimeReceived 0 b.

(** Status words, heights and works within their types, and no parent with the null hash. *)
Record savable (g : uint256) (m : block_map) : Prop := {
  sv_index : index_wf g m;
  sv_genesis : is_Some (m !! g);
  sv_size : Z.of_nat (size m) < 2 ^ 31;
  sv_status h b : m !! h = Some b -> in_u 32 (nStatus b);
  sv_parent h b p : m !! h = Some b -> pprev b = Some p -> Blob.IsNull p = false
}.

(** ** Entries *)

Lemma null_blob : Blob.SetHex 32 (Blob.GetHex (Blob.SetNull 32)) = Blob.SetNull 32.
Proof. apply sethex_gethex, setnull_wf. Qed.

Lemma work_hex_ok w : 0 <= w < 2 ^ 256 -> Persist.work_of_hex (Persist.work_hex w) = w.
Proof.
  intros Hw. unfold Persist.work_of_hex, Persist.work_hex. rewrite sethex_gethex by apply le_split_wf.
  rewrite le_combine_split. by apply Z.mod_small.
Qed.

Section Entries.
Context (g : uint256) (m : block_map) (Hsv : savable g m).

Lemma work_range h b : m !! h = Some b -> 0 <= nChainWork b < 2 ^ 256.
Proof.
  intros Hb. destruct (sv_index _ _ Hsv h b Hb) as [_ _ Hhd Hroot Hpar]. destruct (pprev b) as [p|] eqn:E.
  - destruct (Hpar p eq_refl) as (pb & _ & _ & -> & _). apply Z.mod_pos_bound. lia.
  - destruct (Hroot eq_refl) as (_ & _ & -> & _). pose proof (work_of_range (Idx.nBits b) ltac:(apply Hhd)). lia.
Qed.

Lemma height_range h b : m !! h = Some b -> in_s 32 (nHeight b).
Proof.
  intros Hb. pose proof (height_size g m (sv_index _ _ Hsv) h b Hb). pose proof (sv_size _ _ Hsv).
  pose proof (bw_height _ _ _ _ (sv_index _ _ Hsv h b Hb)). unfold in_s. lia.
Qed.

Lemma prev_hash_of b : match pprev b with Some p => p | None => Blob.SetNull 32 end = hashPrevBlock (Idx.GetBlockHeader b).
Proof. done. Qed.

Lemma header_back b : header_wf (Idx.GetBlockHeader b) ->
  mkHeader (i32 (Idx.nVersion b)) (hashPrevBlock (Idx.GetBlockHeader b)) (Idx.minerAddress b) (u32 (Idx.nTime b))
    (u32 (Idx.nBits b)) (u32 (Idx.nNonce b)) (Idx.hashRandomX b) = Idx.GetBlockHeader b.
Proof.
  intros (Hv & _ & _ & Ht & Hb & Hn & _). cbn [nVersion nTime nBits nNonce Idx.GetBlockHeader] in *.
  by rewrite i32_id, !u32_id.
Qed.

Lemma parse_header_ok h b : m !! h = Some b -> Persist.parse_header (Persist.save_block h b) = Some (h, Idx.GetBlockHeader b).
Proof.
  intros Hb. destruct (sv_index _ _ Hsv h b Hb) as [_ Hk Hhd _ _]. pose proof (index_key g m h b (sv_index _ _ Hsv) Hb) as Hkey.
  unfold Persist.parse_header, Persist.save_block. rewrite prev_hash_of. cbn -[Blob.SetHex Blob.GetHex Idx.GetBlockHeader i32 u32].
  pose proof Hhd as (_ & Hp & Hm & _ & _ & _ & Hr).
  rewrite (sethex_gethex 32 h), (sethex_gethex 32 (hashPrevBlock _)), (sethex_gethex 20), (sethex_gethex 32 (Idx.hashRandomX b)) by done.
  by rewrite header_back.
Qed.

Lemma parse_meta_ok h b : m !! h = Some b ->
  Persist.parse_meta (Persist.save_block h b) = Some (nHeight b, nChainWork b, nStatus b).
Proof.
  intros Hb. unfold Persist.parse_meta, Persist.save_block. cbn -[Persist.work_hex Persist.work_of_hex i32 u32].
  rewrite work_hex_ok by by eapply work_range. rewrite i32_id by by eapply height_range.
  by rewrite u32_id by by eapply (sv_status _ _ Hsv).
Qed.

(** ** The passes

    Each pass visits blocks once and writes one entry per block; what a pass has written after [h :: l]. *)

Lemma pass_step {A} (f : CBlockIndex -> A) (h : uint256) (b : CBlockIndex) (l : list uint256) (m0 m1 : gmap (list Z) A) : m !! h = Some b -> h ∉ l ->
  (forall q : uint256, m1 !! q = if decide (q ∈ l) then f <$> m !! q else <[h := f b]> m0 !! q) ->
  forall q : uint256, m1 !! q = if decide (q ∈ h :: l) then f <$> m !! q else m0 !! q.
Proof.
  intros Hb Hh Hm q. rewrite Hm. destruct (decide (q = h)) as [->|Hne].
  - rewrite decide_False, decide_True by (done || apply list_elem_of_here). by rewrite lookup_insert_eq, Hb.
  - rewrite lookup_insert_ne by done. destruct (decide (q ∈ l)) as [Hq|Hq].
    + rewrite decide_True; [done|by apply list_elem_of_further].
    + rewrite decide_False; [done|]. rewrite elem_of_cons. tauto.
Qed.

Lemma pass_nil {A} (f : CBlockIndex -> A) (m0 : gmap (list Z) A) (q : uint256) : m0 !! q = if decide (q ∈ ([] : list uint256)) then f <$> m !! q else m0 !! q.
Proof. rewrite decide_False; [done|apply not_elem_of_nil]. Qed.

Definition prev_of (b : CBlockIndex) : uint256 := hashPrevBlock (Idx.GetBlockHeader b).

Lemma first_pass_ok l m0 p0 : NoDup l -> (forall h, h ∈ l -> is_Some (m !! h)) -> (forall h, h ∈ l -> m0 !! h = None) ->
  exists m1 p1, Persist.first_pass (concat (Persist.save_entry m <$> l)) m0 p0 = Persist.Done (m1, p1) /\
    (forall h, m1 !! h = if decide (h ∈ l) then bare <$> m !! h else m0 !! h) /\
    (forall h, p1 !! h = if decide (h ∈ l) then prev_of <$> m !! h else p0 !! h).
Proof.
  revert m0 p0. induction l as [|h l IH]; intros m0 p0 Hnd Hin Hout.
  { exists m0, p0. split; [done|]. split; intros q; apply pass_nil. }
  apply NoDup_cons in Hnd as [Hh Hnd]. destruct (Hin h (list_elem_of_here h l)) as [b Hb].
  assert (Hhb : Header.GetHash (Idx.GetBlockHeader b) = h) by (symmetry; apply (bw_key _ _ _ _ (sv_index _ _ Hsv h b Hb))).
  assert (Estep : Persist.first_pass (concat (Persist.save_entry m <$> h :: l)) m0 p0 =
    Persist.first_pass (concat (Persist.save_entry m <$> l)) (<[h := bare b]> m0) (<[h := prev_of b]> p0)).
  { cbn [fmap list_fmap concat]. unfold Persist.save_entry at 1. rewrite Hb. cbn [app Persist.first_pass].
    change (forallb _ _) with true. cbn [negb]. rewrite (parse_header_ok h b Hb).
    rewrite (bool_decide_true _ Hhb), (Hout h (list_elem_of_here h l)). cbn [negb].
    rewrite (parse_meta_ok h b Hb). reflexivity. }
  destruct (IH (<[h := bare b]> m0) (<[h := prev_of b]> p0) Hnd) as (m1 & p1 & E & Hm & Hp).
  { intros q Hq. apply Hin. by apply list_elem_of_further. }
  { intros q Hq. rewrite lookup_insert_ne by (intros ->; done). apply Hout. by apply list_elem_of_further. }
  exists m1, p1. rewrite Estep. split; [done|]. split; by eapply pass_step.
Qed.

Lemma second_pass_ok l prevs m0 : NoDup l -> (forall h, h ∈ l -> is_Some (m !! h)) ->
  (forall h, h ∈ l -> m0 !! h = bare <$> m !! h) -> (forall h, is_Some (m !! h) -> is_Some (m0 !! h)) ->
  (forall h b, m !! h = Some b -> prevs !! h = Some (prev_of b)) ->
  exists m1, Persist.second_pass l prevs m0 = Persist.Done m1 /\
    (forall h, m1 !! h = if decide (h ∈ l) then linked <$> m !! h else m0 !! h).
Proof.
  revert m0. induction l as [|h l IH]; intros m0 Hnd Hin Hbare Hdom Hprev.
  { exists m0. split; [done|]. intros q. apply pass_nil. }
  apply NoDup_cons in Hnd as [Hh Hnd]. destruct (Hin h (list_elem_of_here h l)) as [b Hb].
  assert (Estep : Persist.second_pass (h :: l) prevs m0 = Persist.second_pass l prevs (<[h := linked b]> m0)).
  { cbn [Persist.second_pass]. rewrite (Hbare h (list_elem_of_here h l)), Hb, (Hprev h b Hb). cbn [fmap option_fmap option_map].
    unfold linked. destruct (pprev b) as [p|] eqn:Ep.
    - assert (prev_of b = p) as -> by (unfold prev_of, Idx.GetBlockHeader; cbn [hashPrevBlock]; by rewrite Ep).
      rewrite (sv_parent _ _ Hsv h b p Hb Ep). cbn [negb]. unfold BM.LookupBlockIndex.
      destruct (bw_parent _ _ _ _ (sv_index _ _ Hsv h b Hb) p Ep) as (pb & Hpb & _).
      destruct (Hdom p ltac:(by eexists)) as [x ->]. done.
    - assert (prev_of b = Blob.SetNull 32) as -> by (unfold prev_of, Idx.GetBlockHeader; cbn [hashPrevBlock]; by rewrite Ep).
      done. }
  destruct (IH (<[h := linked b]> m0) Hnd) as (m1 & E & Hm).
  { intros q Hq. apply Hin. by apply list_elem_of_further. }
  { intros q Hq. rewrite lookup_insert_ne by (intros ->; done). apply Hbare. by apply list_elem_of_further. }
  { intros q Hq. destruct (decide (q = h)) as [->|]; [rewrite lookup_insert_eq; by eexists|]. rewrite lookup_insert_ne by done. by apply Hdom. }
  { done. }
  exists m1. rewrite Estep. split; [done|]. by eapply pass_step.
Qed.
(** ** The third pass: partially restored indexes have the tree of the original *)

Definition resembles (b0 b : CBlockIndex) : Prop :=
  nHeight b0 = nHeight b /\ pprev b0 = pprev b /\ (pskip b0 = None \/ pskip b0 = pskip b).
Definition partial (m0 : block_map) : Prop := forall q,
  match m0 !! q, m !! q with Some b0, Some b => resembles b0 b | None, None => True | _, _ => False end.

Lemma partial_deref {A} (f : CBlockIndex -> A) d m0 q : (forall b0 b, resembles b0 b -> f b0 = f b) -> partial m0 ->
  deref f d m0 q = deref f d m q.
Proof. intros Hf Hp. specialize (Hp q). unfold deref. destruct (m0 !! q), (m !! q); try done. by apply Hf. Qed.

Lemma partial_back n m0 q : partial m0 -> back m0 n q = back m n q.
Proof.
  intros Hp. revert q. induction n as [|n IH]; intros q; [done|]. cbn [back].
  rewrite (partial_deref pprev None m0 q) by (done || by intros ? ? (_ & ? & _)). destruct (deref pprev None m q); [apply IH|done].
Qed.

Lemma partial_ancestor m0 q h : partial m0 -> ancestor_at m0 q h = ancestor_at m q h.
Proof.
  intros Hp. unfold ancestor_at. rewrite (partial_deref nHeight 0 m0 q) by (done || by intros ? ? (? & _)). by rewrite partial_back.
Qed.

Lemma partial_tree m0 : partial m0 -> tree_wf m0.
Proof.
  intros Hp q b0 Hq. pose proof (Hp q) as Hr. rewrite Hq in Hr. destruct (m !! q) as [b|] eqn:Hb; [|done].
  destruct Hr as (Eh & Ep & Es). destruct (index_tree g m (sv_index _ _ Hsv) q b Hb) as [H1 H2 H3 H4].
  split; rewrite ?Eh, ?Ep; [done| | |].
  - intros E. destruct (H2 E) as [Hz Hs]. split; [done|]. destruct Es as [->| ->]; done.
  - intros p E. destruct (H3 p E) as (pb & Hpb & Hhp). pose proof (Hp p) as Hr. rewrite Hpb in Hr.
    destruct (m0 !! p) as [pb0|] eqn:E0; [|done]. exists pb0. split; [done|]. destruct Hr as (-> & _). done.
  - intros p x E Ex. rewrite (partial_ancestor m0 p _ Hp). destruct Es as [Es|Es]; rewrite Es in Ex; [done|by apply (H4 p)].
Qed.

(** The blocks of [todo] are linked, the others restored. *)
Definition progress (todo : list uint256) (m0 : block_map) : Prop := forall q : uint256,
  m0 !! q = if decide (q ∈ todo) then linked <$> m !! q else restored <$> m !! q.

Lemma progress_partial todo m0 : progress todo m0 -> partial m0.
Proof.
  intros Hp q. rewrite (Hp q). destruct (decide (q ∈ todo)); destruct (m !! q) as [[]|]; cbn; try done; unfold resembles; cbn; auto.
Qed.

Lemma partial_insert m0 h b b' : partial m0 -> m !! h = Some b -> resembles b' b -> partial (<[h := b']> m0).
Proof.
  intros Hp Hb Hr q. destruct (decide (q = h)) as [->|Hne]; [by rewrite lookup_insert_eq, Hb|].
  rewrite lookup_insert_ne by done. apply Hp.
Qed.

(** One block of the third pass, its parent restored before it. *)
Lemma restore_block m0 h b : partial m0 -> m !! h = Some b -> m0 !! h = Some (linked b) ->
  (forall p pb, pprev b = Some p -> m !! p = Some pb -> m0 !! p = Some (restored pb)) ->
  forall rest, Persist.third_pass (h :: rest) m0 = Persist.third_pass rest (<[h := restored b]> m0).
Proof.
  intros Hp Hb H0 Hpar rest. cbn [Persist.third_pass]. rewrite H0.
  destruct (sv_index _ _ Hsv h b Hb) as [Hh _ _ Hroot Hparent].
  change (nHeight (linked b)) with (nHeight b). change (nChainWork (linked b)) with (nChainWork b).
  change (pprev (linked b)) with (pprev b). change (Idx.GetBlockTime (linked b)) with (Idx.nTime b).
  rewrite (proj2 (Z.ltb_ge _ _) Hh).
  set (mk := fun t s => Idx.set_pskip s (Idx.set_tree (nHeight b) (nChainWork b) t (linked b))).
  assert (Efull : mk (nTimeMax b) (pskip b) = restored b) by (unfold mk; by destruct b).
  assert (Hres : forall t, resembles (Idx.set_tree (nHeight b) (nChainWork b) t (linked b)) b) by (intros t; unfold resembles; cbn; auto).
  destruct (pprev b) as [p|] eqn:Ep.
  - destruct (Hparent p eq_refl) as (pb & Hpb & Ehh & _ & Et & Es).
    rewrite (deref_eq nHeight 0 m0 p (restored pb)), (deref_eq nTimeMax 0 m0 p (restored pb)) by by apply (Hpar p pb).
    assert (nHeight (restored pb) = nHeight pb) as -> by by destruct pb.
    assert (nTimeMax (restored pb) = nTimeMax pb) as -> by by destruct pb.
    rewrite (proj2 (Z.eqb_eq (nHeight pb + 1) (nHeight b))) by lia. cbn [negb]. rewrite <- Et.
    set (e := Idx.set_tree _ _ _ _). assert (Hpe : partial (<[h := e]> m0)) by exact (partial_insert m0 h b e Hp Hb (Hres _)).
    unfold BuildSkip. assert (pprev e = Some p) as -> by by (unfold e; cbn; rewrite Ep).
    assert (Hne : p <> h).
    { intros ->. rewrite Hb in Hpb. injection Hpb as <-. lia. }
    rewrite (GetAncestor_ok _ (partial_tree _ Hpe) p (restored pb)) by (rewrite lookup_insert_ne by done; by apply (Hpar p pb)).
    rewrite (partial_ancestor _ _ _ Hpe). change (nHeight e) with (nHeight b). rewrite <- Es, insert_insert_eq.
    change (Idx.set_pskip (pskip b) e) with (mk (nTimeMax b) (pskip b)). by rewrite Efull.
  - destruct (Hroot eq_refl) as (_ & Ez & _ & Et & Es). rewrite (proj2 (Z.eqb_eq _ _) Ez). cbn [negb]. rewrite <- Et.
    set (e := Idx.set_tree _ _ _ _). unfold BuildSkip. assert (pprev e = None) as -> by by (unfold e; cbn; rewrite Ep).
    assert (pskip e = pskip b) as -> by by rewrite Es. rewrite insert_insert_eq.
    change (Idx.set_pskip (pskip b) e) with (mk (nTimeMax b) (pskip b)). by rewrite Efull.
Qed.

Lemma third_pass_ok l m0 : NoDup l -> StronglySorted (Persist.height_le m) l -> (forall h, h ∈ l -> is_Some (m !! h)) ->
  progress l m0 -> Persist.third_pass l m0 = Persist.Done (restored <$> m).
Proof.
  revert m0. induction l as [|h l IH]; intros m0 Hnd Hso Hin Hpr.
  { cbn. f_equal. apply map_eq. intros q. rewrite lookup_fmap, (Hpr q), decide_False; [done|apply not_elem_of_nil]. }
  apply NoDup_cons in Hnd as [Hh Hnd]. destruct (Hin h (list_elem_of_here h l)) as [b Hb].
  apply StronglySorted_inv in Hso as [Hso Hle].
  rewrite (restore_block m0 h b).
  - apply IH; [done|done|intros q Hq; apply Hin; by apply list_elem_of_further|]. intros q.
    destruct (decide (q = h)) as [->|Hne]; [rewrite lookup_insert_eq, decide_False by done; by rewrite Hb|].
    rewrite lookup_insert_ne by done. rewrite (Hpr q). destruct (decide (q ∈ l)) as [Hq|Hq].
    + rewrite decide_True; [done|by apply list_elem_of_further].
    + rewrite decide_False; [done|]. rewrite elem_of_cons. tauto.
  - by eapply progress_partial.
  - done.
  - rewrite (Hpr h), decide_True by apply list_elem_of_here. by rewrite Hb.
  - intros p pb Ep Hpb. destruct (bw_parent _ _ _ _ (sv_index _ _ Hsv h b Hb) p Ep) as (pb' & Hpb' & Ehh & _).
    rewrite Hpb in Hpb'. injection Hpb' as <-. rewrite (Hpr p), decide_False; [by rewrite Hpb|]. intros Hpl.
    assert (Hge : nHeight b <= nHeight pb); [|lia]. apply elem_of_cons in Hpl as [->|Hpl].
    + rewrite Hb in Hpb. injection Hpb as <-. lia.
    + pose proof (proj1 (Forall_forall _ _) Hle p Hpl) as H1. unfold Persist.height_le in H1.
      by rewrite (deref_eq nHeight 0 m h b Hb), (deref_eq nHeight 0 m p pb Hpb) in H1.
Qed.
(** ** Genesis and tip *)

Lemma genesis_no_parent b : m !! g = Some b -> pprev b = None.
Proof.
  intros Hb. pose proof (sv_index _ _ Hsv) as Hwf. destruct (pprev b) as [p|] eqn:Ep; [exfalso|done].
  destruct (back_height m (index_tree g m Hwf) _ g b g Hb (back_root g m Hwf g b Hb)) as (c & Hc & Hh).
  rewrite Hb in Hc. injection Hc as <-. destruct (bw_parent _ _ _ _ (Hwf g b Hb) p Ep) as (pb & Hpb & Ehh & _).
  pose proof (bw_height _ _ _ _ (Hwf p pb Hpb)). lia.
Qed.

Lemma filter_one {A} (f : A -> bool) (x : A) l : NoDup l -> x ∈ l -> (forall y, y ∈ l -> f y = true <-> y = x) -> List.filter f l = [x].
Proof.
  intros Hnd Hx Hf. induction l as [|y l IH]; [by apply not_elem_of_nil in Hx|]. apply NoDup_cons in Hnd as [Hy Hnd].
  cbn [List.filter]. destruct (f y) eqn:Ey.
  - apply (Hf y (list_elem_of_here y l)) in Ey as ->. f_equal. clear IH Hx Hnd. assert (Hno : forall z, z ∈ l -> f z = false).
    { intros z Hz. destruct (f z) eqn:Ez; [|done]. apply (Hf z (list_elem_of_further _ _ _ Hz)) in Ez as ->. done. }
    clear Hf Hy. induction l as [|z l IH]; [done|]. cbn [List.filter]. rewrite (Hno z (list_elem_of_here z l)).
    apply IH. intros w Hw. apply Hno. by apply list_elem_of_further.
  - apply IH; [done| |intros z Hz; apply Hf; by apply list_elem_of_further].
    apply elem_of_cons in Hx as [->|Hx]; [|done]. pose proof (proj2 (Hf y (list_elem_of_here y l)) eq_refl). congruence.
Qed.

Lemma roots_ok : Persist.roots (linked <$> m) = [g].
Proof.
  unfold Persist.roots. apply filter_one; [apply sorted_keys_nodup| |].
  - apply sorted_keys_elem. rewrite lookup_fmap. destruct (sv_genesis _ _ Hsv) as [b ->]. by eexists.
  - intros h Hh. apply sorted_keys_elem in Hh. rewrite lookup_fmap in Hh. destruct (m !! h) as [b|] eqn:Hb; [|by destruct Hh].
    rewrite bool_decide_eq_true, (deref_eq pprev None _ h (linked b)) by by rewrite lookup_fmap, Hb.
    change (pprev (linked b)) with (pprev b). split.
    + intros E. by destruct (bw_root _ _ _ _ (sv_index _ _ Hsv h b Hb) E).
    + intros ->. by apply genesis_no_parent.
Qed.

(** A block that may become the tip. *)
Definition usable_block (h : block_ptr) (b : CBlockIndex) : Prop := m !! h = Some b /\ Z.land (nStatus b) BLOCK_FAILED_MASK = 0.

Lemma better_tip_eq best h b : m !! h = Some b -> Persist.better_tip (restored <$> m) g best h =
  if negb (Z.land (nStatus b) BLOCK_FAILED_MASK =? 0) then best else if snd best <? nChainWork b then (Some h, nChainWork b) else best.
Proof.
  intros Hb. unfold Persist.better_tip. rewrite lookup_fmap, Hb. cbn [fmap option_fmap option_map].
  assert (nStatus (restored b) = nStatus b) as -> by by destruct b. assert (pprev (restored b) = pprev b) as -> by by destruct b.
  assert (nChainWork (restored b) = nChainWork b) as -> by by destruct b.
  destruct (negb _); [done|]. case_bool_decide as Ep; cbn [andb]; [|done].
  destruct (bw_root _ _ _ _ (sv_index _ _ Hsv h b Hb) Ep) as (-> & _). by rewrite bool_decide_true.
Qed.

Lemma best_tip_fold l best : (forall h, h ∈ l -> is_Some (m !! h)) ->
  (best = (None, 0) \/ exists t b, best = (Some t, nChainWork b) /\ usable_block t b) ->
  let best' := foldl (Persist.better_tip (restored <$> m) g) best l in
  (best' = (None, 0) \/ exists t b, best' = (Some t, nChainWork b) /\ usable_block t b) /\
  snd best <= snd best' /\ forall h b, h ∈ l -> usable_block h b -> nChainWork b <= snd best'.
Proof.
  revert best. induction l as [|h l IH]; intros best Hin Hb; cbn [foldl].
  { split; [done|]. split; [lia|]. intros h b Hh. by apply not_elem_of_nil in Hh. }
  destruct (Hin h (list_elem_of_here h l)) as [b Hhb]. rewrite (better_tip_eq best h b Hhb).
  set (best1 := if negb _ then _ else _).
  assert (H1 : (best1 = (None, 0) \/ exists t b, best1 = (Some t, nChainWork b) /\ usable_block t b) /\ snd best <= snd best1 /\
    (usable_block h b -> nChainWork b <= snd best1)).
  { unfold best1. destruct (Z.eqb_spec (Z.land (nStatus b) BLOCK_FAILED_MASK) 0) as [E|E]; cbn [negb].
    - destruct (Z.ltb_spec (snd best) (nChainWork b)); [|split_and!; [done|lia|lia]]. split_and!; [|cbn; lia|cbn; lia].
      right. exists h, b. by split.
    - split_and!; [done|lia|]. by intros [_ ?]. }
  destruct H1 as (H1 & H2 & H3). destruct (IH best1) as (I1 & I2 & I3).
  { intros q Hq. apply Hin. by apply list_elem_of_further. } { done. }
  split; [done|]. split; [lia|]. intros q c Hq Hc. apply elem_of_cons in Hq as [->|Hq]; [|by eapply I3].
  assert (c = b) as -> by (destruct Hc as [Hc _]; congruence). specialize (H3 Hc). lia.
Qed.

Lemma find_best_tip_ok : (exists h b, usable_block h b /\ 0 < nChainWork b) ->
  exists t b, Persist.find_best_tip (restored <$> m) g = Some t /\ usable_block t b /\
    forall h c, usable_block h c -> nChainWork c <= nChainWork b.
Proof.
  intros (h & b & Hh & Hw). unfold Persist.find_best_tip.
  assert (Hkeys : forall q, q ∈ Persist.sorted_keys (restored <$> m) <-> is_Some (m !! q)).
  { intros q. rewrite sorted_keys_elem, lookup_fmap, fmap_is_Some. done. }
  destruct (best_tip_fold (Persist.sorted_keys (restored <$> m)) (None, 0)) as (H1 & _ & H3).
  { intros q Hq. by apply Hkeys. } { by left. }
  assert (Hall : forall q c, usable_block q c -> nChainWork c <= snd (foldl (Persist.better_tip (restored <$> m) g) (None, 0) (Persist.sorted_keys (restored <$> m)))).
  { intros q c Hc. apply (H3 q); [|done]. apply Hkeys. destruct Hc as [-> _]. by eexists. }
  destruct H1 as [E|(t & c & E & Hc)]; rewrite E in *; cbn [fst snd] in *.
  - specialize (Hall h b Hh). lia.
  - exists t, c. by split_and!.
Qed.
End Entries.

(** ** The round trip *)

#[local] Instance height_le_total m : Total (Persist.height_le m).
Proof. intros a b. unfold Persist.height_le. lia. Qed.
#[local] Instance height_le_trans m : Transitive (Persist.height_le m).
Proof. intros a b c. unfold Persist.height_le. lia. Qed.

Lemma by_height_ok m : NoDup (Persist.by_height m) /\ StronglySorted (Persist.height_le m) (Persist.by_height m) /\
  forall h, h ∈ Persist.by_height m <-> is_Some (m !! h).
Proof.
  unfold Persist.by_height. split_and!.
  - rewrite (merge_sort_Permutation (Persist.height_le m)). apply sorted_keys_nodup.
  - apply (StronglySorted_merge_sort (Persist.height_le m)).
  - intros h. rewrite (merge_sort_Permutation (Persist.height_le m)). apply sorted_keys_elem.
Qed.

Lemma sorted_impl {A} (R R' : A -> A -> Prop) l : (forall a b, R a b -> R' a b) -> StronglySorted R l -> StronglySorted R' l.
Proof. intros HR. induction 1; constructor; [done|]. eapply Forall_impl; [done|]. by apply HR. Qed.

(** The passes on a saved index. *)
Lemma passes_ok g m : savable g m ->
  exists m1 p1, Persist.first_pass (concat (Persist.save_entry m <$> Persist.by_height m)) ∅ ∅ = Persist.Done (m1, p1) /\
    Persist.second_pass (Persist.sorted_keys p1) p1 m1 = Persist.Done (linked <$> m) /\
    Persist.third_pass (Persist.by_height (linked <$> m)) (linked <$> m) = Persist.Done (restored <$> m).
Proof.
  intros Hsv. destruct (by_height_ok m) as (Hnd & _ & Hmem).
  destruct (first_pass_ok g m Hsv (Persist.by_height m) ∅ ∅ Hnd) as (m1 & p1 & E1 & Hm1 & Hp1); [by intros h ?; apply Hmem|done|].
  assert (Hall : forall {A} (f : CBlockIndex -> A) (x : gmap (list Z) A), (forall h : uint256, x !! h =
      if decide (h ∈ Persist.by_height m) then f <$> m !! h else (∅ : gmap (list Z) A) !! h) -> x = f <$> m).
  { intros A f x Hx. apply map_eq. intros h. rewrite Hx, lookup_fmap. destruct (decide _) as [_|Hn]; [done|].
    destruct (m !! h) eqn:E; [|done]. exfalso. apply Hn, Hmem. by eexists. }
  apply Hall in Hm1 as ->. apply Hall in Hp1 as ->. exists (bare <$> m), (prev_of <$> m). split; [done|].
  assert (Hk : forall {A} (f : CBlockIndex -> A) h, h ∈ Persist.sorted_keys (f <$> m) <-> is_Some (m !! h)).
  { intros A f h. by rewrite sorted_keys_elem, lookup_fmap, fmap_is_Some. }
  destruct (second_pass_ok g m Hsv (Persist.sorted_keys (prev_of <$> m)) (prev_of <$> m) (bare <$> m)) as (m2 & E2 & Hm2).
  { apply sorted_keys_nodup. } { intros h Hh. by apply (Hk _ prev_of). } { intros h _. by rewrite lookup_fmap. }
  { intros h Hh. by rewrite lookup_fmap, fmap_is_Some. } { intros h b Hb. by rewrite lookup_fmap, Hb. }
  assert (m2 = linked <$> m) as ->.
  { apply map_eq. intros h. rewrite Hm2, !lookup_fmap. destruct (decide _) as [_|Hn]; [done|].
    destruct (m !! h) eqn:E; [|done]. exfalso. apply Hn, (Hk _ prev_of). by eexists. }
  split; [done|]. destruct (by_height_ok (linked <$> m)) as (Hnd2 & Hs2 & Hmem2).
  assert (Hmem2' : forall h, h ∈ Persist.by_height (linked <$> m) <-> is_Some (m !! h)).
  { intros h. by rewrite Hmem2, lookup_fmap, fmap_is_Some. }
  apply (third_pass_ok g m Hsv); [done| |by intros h ?; apply Hmem2'|].
  - eapply sorted_impl; [|exact Hs2]. intros a b. unfold Persist.height_le, deref. rewrite !lookup_fmap.
    by destruct (m !! a), (m !! b).
  - intros q. rewrite lookup_fmap. destruct (decide _) as [_|Hn]; [done|]. destruct (m !! q) eqn:E; [|done].
    exfalso. apply Hn, Hmem2'. by eexists.
Qed.

Lemma restored_same m : same_tree (restored <$> m) m.
Proof. split. rewrite <- map_fmap_compose. apply map_fmap_ext. by intros i [] _. Qed.

(** C6: a saved block index loads, if none of its heights exceeds 1,000,000 (the limit of the continuity check of [Load]) and some block that is not marked as failed
    has positive work: whatever the manager held before, [Load] of the file that [Save] wrote succeeds and
    restores every block with its header, height, work, status, parent, skip pointer and maximal time (only the
    time of reception is lost); the index is well formed and the active chain is that of a block with most work among those not
    marked as failed. *)
Theorem save_load_roundtrip (g : uint256) (bm bm0 : BM.BlockManager) :
  let m := BM.m_block_index bm in
  savable g m -> BM.m_genesis_hash bm = g -> (forall h b, m !! h = Some b -> nHeight b <= 1000000) ->
  (exists h b, usable_block m h b /\ 0 < nChainWork b) ->
  exists t b, Persist.Load bm0 (Some (Persist.Save bm)) g = (true, BM.mkBM (restored <$> m) (path m t) g true) /\
    index_wf g (restored <$> m) /\ usable_block m t b /\ forall h c, usable_block m h c -> nChainWork c <= nChainWork b.
Proof.
  intros m Hsv Hg Hh Hu. destruct (find_best_tip_ok g m Hsv Hu) as (t & b & Et & Ht & Hmax). exists t, b.
  pose proof (restored_same m) as Hst. assert (Hwf : index_wf g (restored <$> m)) by (rewrite Hst; apply Hsv).
  split; [|done]. destruct (passes_ok g m Hsv) as (m1 & p1 & E1 & E2 & E3).
  assert (Eg : Blob.SetHex 32 (Blob.GetHex g) = g).
  { destruct (sv_genesis _ _ Hsv) as [x Hx]. apply sethex_gethex. by apply (index_key g m g x (sv_index _ _ Hsv)). }
  unfold Persist.Load, Persist.Save. fold m. rewrite Hg.
  change (Persist.value_int "version" 0 _) with (Some 1). change (Persist.value_int "block_count" 0 _) with (Some (i32 (Z.of_nat (size m)))).
  change (Persist.value_str "genesis_hash" [] _) with (Some (Blob.GetHex g)).
  change (Persist.value_str "tip_hash" [] _) with (Some (match BM.GetTip bm with Some t => Blob.GetHex t | None => [] end)).
  change (Persist.member "blocks" _) with (Some (JArr (concat (Persist.save_entry m <$> Persist.by_height m)))).
  cbv beta iota zeta. change (negb (1 =? 1)) with false. rewrite Eg, (bool_decide_true (g = g)) by done. cbn [negb].
  rewrite E1, E2. unfold Persist.load_finish. rewrite (roots_ok g m Hsv), (bool_decide_true (g = g)) by done. cbn [negb].
  rewrite E3, Eg, Et. unfold BM.SetActiveTip. cbn [BM.m_block_index BM.m_active_chain BM.m_genesis_hash BM.m_initialized].
  destruct Ht as [Ht _]. assert (Ht' : (restored <$> m) !! t = Some (restored b)) by by rewrite lookup_fmap, Ht.
  rewrite (SetTip_ok _ (index_tree g _ Hwf) [] t (restored b)) by (done || by left).
  rewrite (verify_continuity_ok g _ t (restored b) Hwf Ht').
  assert (nHeight (restored b) = nHeight b) as -> by by destruct b. rewrite (proj2 (Z.leb_le _ _)) by by apply (Hh t).
  cbn [BM.m_active_chain]. assert (path (restored <$> m) t = path m t) as -> by (by rewrite Hst). done.
Qed.

Lemma genesis_savable : savable regtest_hash genesis_index.
Proof.
  split; [apply genesis_index_wf|rewrite genesis_lookup; by eexists|unfold genesis_index; rewrite map_size_singleton; lia| |];
    intros h b; [intros Hb|intros p Hb Hp]; unfold genesis_index in Hb; apply lookup_singleton_Some in Hb as [_ <-]; [unfold in_u; cbn; lia|done].
Qed.

Lemma save_load_roundtrip_witness :
  let bm := BM.mkBM genesis_index [Some regtest_hash] regtest_hash true in
  exists t b, Persist.Load BM.new (Some (Persist.Save bm)) regtest_hash =
      (true, BM.mkBM (restored <$> genesis_index) (path genesis_index t) regtest_hash true) /\
    index_wf regtest_hash (restored <$> genesis_index) /\ usable_block genesis_index t b /\
    forall h c, usable_block genesis_index h c -> nChainWork c <= nChainWork b.
Proof.
  intros bm. apply (save_load_roundtrip regtest_hash bm BM.new genesis_savable eq_refl).
  - intros h b Hb. cbn [bm BM.m_block_index] in Hb. unfold genesis_index in Hb. apply lookup_singleton_Some in Hb as [_ <-]. cbn. lia.
  - exists regtest_hash, (root_entry regtest_genesis). split; [split; [apply genesis_lookup|reflexivity]|reflexivity].
Defined.
