(* ===== verification/Chainstate.v ===== *)
(** * Chainstate: [ChainstateManager] of [chain/chainstate_manager.hpp/.cpp]

    Header acceptance, best-chain activation with its reorganisation policy, the
    orphan pool, initial-download detection, loading and block invalidation.
    The recursive [validation_mutex_] serialises the public operations, so each is
    one step on the state.  The virtual checks are the interface [HeaderChecks].
    The clock readings of an operation are its arguments; deferred
    notifications are its list of events. *)
From Stdlib Require Import String.
From S2P Require Import Prelude Arith Bytes Compact Sha256 Block BlockIndex Chain ChainParams Pow RandomX Validation.
From S2P Require Import ChainSelector BlockManager Persist.
#[local] Open Scope Z_scope.
Import Idx (CBlockIndex, mkIndex, nHeight, pprev, pskip, nChainWork, nStatus, nTimeMax, nTimeReceived).

(** The virtual [CheckProofOfWork], [CheckBlockHeaderWrapper] and
    [ContextualCheckBlockHeaderWrapper]; [None] is an exception or a failed assertion. *)
Class HeaderChecks := {
  hc_pow : CBlockHeader -> POWVerifyMode -> option bool;
  hc_header : CBlockHeader -> ValidationState -> option (bool * ValidationState);
  hc_context : block_map -> CBlockHeader -> option block_ptr -> Z -> ValidationState -> option (bool * ValidationState)
}.

(** Their default implementations, for the RandomX caches of the calling thread (the network-expiry
    notification of the third is not modelled). *)
Definition node_checks `{RandomXLib} (host : Endian.host) (rx : Rx.state) (params : ChainParams) : HeaderChecks := {|
  hc_pow header mode :=
    match fst (Rx.CheckProofOfWork host rx header (nBits header) params mode false) with
    | inl (ok, _) => Some ok
    | inr _ => None
    end;
  hc_header header state :=
    match fst (Val.CheckBlockHeader host rx header params state) with inl r => Some r | inr _ => None end;
  hc_context m header pindexPrev adjusted_time state :=
    Val.ContextualCheckBlockHeader m header pindexPrev params adjusted_time state |}.

(** Deferred and immediate notifications. *)
Inductive event :=
| BlockConnected (header : CBlockHeader) (pindex : block_ptr) (height : Z)
| BlockDisconnected (header : CBlockHeader) (pindex : block_ptr) (height : Z)
| ChainTip (pindex : block_ptr) (height : Z).

Inductive ActivateResult := OK | CONSENSUS_INVALID | POLICY_REFUSED | SYSTEM_ERROR.
#[export] Instance ActivateResult_eq_dec : EqDecision ActivateResult.
Proof. solve_decision. Defined.

(** [struct OrphanHeader]. *)
Record OrphanHeader := mkOrphan { o_header : CBlockHeader; o_time : Z; o_peer : Z }.

(** [class ChainstateManager]. *)
Record Chainstate := mkCS {
  block_manager_ : BM.BlockManager;
  chain_selector_ : Selector.state;
  m_orphan_headers : gmap (list Z) OrphanHeader;
  m_peer_orphan_count : gmap Z Z;
  m_failed_blocks : gset (list Z);
  m_cached_finished_ibd : bool;
  suspicious_reorg_depth_ : Z
}.

Module CS.

Definition MAX_ORPHAN_HEADERS : nat := 1000.
Definition MAX_ORPHAN_HEADERS_PER_PEER : Z := 50.

Definition new (params : ChainParams) : Chainstate :=
  mkCS BM.new (Selector.mkSelector [] None) ∅ ∅ ∅ false (nSuspiciousReorgDepth (consensus params)).

(** Accessors and single-field updates. *)
Definition index (c : Chainstate) : block_map := BM.m_block_index (block_manager_ c).
Definition active (c : Chainstate) : list (option block_ptr) := BM.m_active_chain (block_manager_ c).
Definition tip (c : Chainstate) : option block_ptr := CChain.Tip (active c).

Definition with_bm (bm : BM.BlockManager) (c : Chainstate) : Chainstate :=
  let '(mkCS _ s o p f i d) := c in mkCS bm s o p f i d.
Definition with_index (m : block_map) (c : Chainstate) : Chainstate :=
  let b := block_manager_ c in
  with_bm (BM.mkBM m (BM.m_active_chain b) (BM.m_genesis_hash b) (BM.m_initialized b)) c.
Definition with_sel (s : Selector.state) (c : Chainstate) : Chainstate :=
  let '(mkCS b _ o p f i d) := c in mkCS b s o p f i d.
Definition with_orphans (o : gmap (list Z) OrphanHeader) (p : gmap Z Z) (c : Chainstate) : Chainstate :=
  let '(mkCS b s _ _ f i d) := c in mkCS b s o p f i d.
Definition with_failed (f : gset (list Z)) (c : Chainstate) : Chainstate :=
  let '(mkCS b s o p _ i d) := c in mkCS b s o p f i d.
Definition with_ibd (i : bool) (c : Chainstate) : Chainstate :=
  let '(mkCS b s o p f _ d) := c in mkCS b s o p f i d.

Definition update_entry (f : CBlockIndex -> CBlockIndex) (p : block_ptr) (c : Chainstate) : Chainstate :=
  with_index (alter f p (index c)) c.
Definition update_sel (f : Selector.state -> Selector.state) (c : Chainstate) : Chainstate :=
  with_sel (f (chain_selector_ c)) c.

Definition set_status_bits (bits : Z) (b : CBlockIndex) : CBlockIndex := Idx.set_nStatus (Z.lor (nStatus b) bits) b.
Definition failed (b : CBlockIndex) : bool := negb (Z.land (nStatus b) BLOCK_FAILED_MASK =? 0).

(** ** The orphan pool *)

(** The decrement shared by expiry, eviction and processing. *)
Definition decrement_peer (peer_id : Z) (count : gmap Z Z) : gmap Z Z :=
  match count !! peer_id with
  | None => count
  | Some n => if n - 1 =? 0 then delete peer_id count else <[peer_id := n - 1]> count
  end.

Definition drop_orphan (hash : uint256) (pool : gmap (list Z) OrphanHeader * gmap Z Z) : gmap (list Z) OrphanHeader * gmap Z Z :=
  match fst pool !! hash with
  | Some o => (delete hash (fst pool), decrement_peer (o_peer o) (snd pool))
  | None => pool
  end.

Definition expired (params : ChainParams) (now : Z) (o : OrphanHeader) : bool :=
  nOrphanHeaderExpireTime (consensus params) <? now - o_time o.

(** The first of the oldest orphans, in map order. *)
Definition oldest_orphan (o : gmap (list Z) OrphanHeader) : option uint256 :=
  match Persist.sorted_keys o with
  | [] => None
  | h0 :: rest =>
      Some (foldl (fun oldest h =>
                     match o !! h, o !! oldest with
                     | Some a, Some b => if o_time a <? o_time b then h else oldest
                     | _, _ => oldest
                     end) h0 rest)
  end.

(** [EvictOrphanHeaders]: the number evicted. *)
Definition EvictOrphanHeaders (params : ChainParams) (now : Z) (c : Chainstate) : nat * Chainstate :=
  if bool_decide (m_orphan_headers c = ∅) then (0%nat, c)
  else
    let dead := List.filter (fun h => match m_orphan_headers c !! h with Some o => expired params now o | None => false end)
                  (Persist.sorted_keys (m_orphan_headers c)) in
    let '(o, p) := foldl (fun pool h => drop_orphan h pool) (m_orphan_headers c, m_peer_orphan_count c) dead in
    let evicted := length dead in
    if (evicted =? 0)%nat && (MAX_ORPHAN_HEADERS <=? size o)%nat then
      match oldest_orphan o with
      | Some h => let '(o, p) := drop_orphan h (o, p) in (S evicted, with_orphans o p c)
      | None => (evicted, with_orphans o p c)
      end
    else (evicted, with_orphans o p c).

(** [TryAddOrphanHeader]. *)
Definition TryAddOrphanHeader (params : ChainParams) (now : Z) (header : CBlockHeader) (peer_id : Z) (c : Chainstate)
  : bool * Chainstate :=
  let hash := Header.GetHash header in
  if bool_decide (is_Some (m_orphan_headers c !! hash)) then (true, c)
  else
    let peer_orphan_count := default 0 (m_peer_orphan_count c !! peer_id) in
    let c := with_orphans (m_orphan_headers c) (<[peer_id := peer_orphan_count]> (m_peer_orphan_count c)) c in
    if MAX_ORPHAN_HEADERS_PER_PEER <=? peer_orphan_count then (false, c)
    else
      let add (c : Chainstate) :=
        (true, with_orphans (<[hash := mkOrphan header now peer_id]> (m_orphan_headers c))
                 (<[peer_id := default 0 (m_peer_orphan_count c !! peer_id) + 1]> (m_peer_orphan_count c)) c) in
      if (MAX_ORPHAN_HEADERS <=? size (m_orphan_headers c))%nat then
        let '(evicted, c) := EvictOrphanHeaders params now c in
        if (evicted =? 0)%nat then (false, c) else add c
      else add c.

Definition AddOrphanHeader := TryAddOrphanHeader.
Definition GetOrphanHeaderCount (c : Chainstate) : nat := size (m_orphan_headers c).

(** ** Header acceptance *)

Section Accept.
Context `{HeaderChecks} (params : ChainParams) (now adjusted_time : Z).

(** The walk that marks the blocks between a header's parent and a failed block. *)
Fixpoint mark_failed_child (fuel : nat) (invalid_walk failedit : block_ptr) (c : Chainstate) : option Chainstate :=
  if bool_decide (invalid_walk = failedit) then Some c
  else match fuel, index c !! invalid_walk with
  | S fuel, Some b =>
      match pprev b with
      | Some q => mark_failed_child fuel q failedit (update_entry (set_status_bits BLOCK_FAILED_CHILD) invalid_walk c)
      | None => None
      end
  | _, _ => None
  end.

(** Step 6: the first failed block that is an ancestor of the parent.  The source iterates a set of
    pointers in address order; here it is the order of [elements]. *)
Definition descends_from_failed (c : Chainstate) (prev : block_ptr) : option block_ptr :=
  head (List.filter (fun f => bool_decide (GetAncestor (index c) prev (deref nHeight 0 (index c) f) = Some (Some f)))
          (elements (m_failed_blocks c))).

(** How [AcceptBlockHeader] proceeds up to the insertion. *)
Inductive accept_step :=
| Reject (state : ValidationState) (c : Chainstate)
| Known (p : block_ptr)
| Inserted (p : block_ptr) (state : ValidationState) (c : Chainstate).

(** Steps 5 and 6: the parent must not be invalid. *)
Definition check_parent (c : Chainstate) (prev : block_ptr) (bp : CBlockIndex)
  : option (option (ValidationState * Chainstate)) :=
  if failed bp then Some (Some (snd (Val.Invalid "bad-prevblk" "previous block is invalid"), c))
  else if negb (Idx.IsValid bp BLOCK_VALID_TREE) then
    match descends_from_failed c prev with
    | Some f =>
        match mark_failed_child (S (Z.to_nat (nHeight bp))) prev f c with
        | Some c => Some (Some (snd (Val.Invalid "bad-prevblk" "previous block descends from invalid block"), c))
        | None => None
        end
    | None => Some None
    end
  else Some None.

(** Steps 9 and 10: the anti-DoS gate, insertion, validity and best header. *)
Definition insert_header (c : Chainstate) (header : CBlockHeader) (state : ValidationState) (min_pow_checked : bool)
  : option accept_step :=
  if negb min_pow_checked then
    Some (Reject (snd (Val.Invalid "too-little-chainwork" "missing anti-DoS work validation")) c)
  else match BM.AddToBlockIndex (index c) header with
  | None => None
  | Some (None, m) => Some (Reject (snd (Val.Error "failed to add block to index" "")) (with_index m c))
  | Some (Some p, m) =>
      let c := with_index m c in
      let c := update_entry (Idx.set_nTimeReceived now) p c in
      let c := update_entry (fun b => snd (Idx.RaiseValidity b BLOCK_VALID_TREE)) p c in
      let c := update_sel (Selector.UpdateBestHeader (index c) (Some p)) c in
      Some (Inserted p state c)
  end.

(** Steps 7 to 10: contextual checks, then the full proof of work. *)
Definition check_header (c : Chainstate) (header : CBlockHeader) (state : ValidationState) (min_pow_checked : bool)
  : option accept_step :=
  match hc_context (index c) header (Some (hashPrevBlock header)) adjusted_time state with
  | None => None
  | Some (false, state) => Some (Reject state c)
  | Some (true, state) =>
      match hc_header header state with
      | None => None
      | Some (false, state) => Some (Reject state c)
      | Some (true, state) => insert_header c header state min_pow_checked
      end
  end.

(** Steps 1 to 10. *)
Definition accept_checks (c : Chainstate) (header : CBlockHeader) (state : ValidationState) (min_pow_checked : bool)
  : option accept_step :=
  let hash := Header.GetHash header in
  match index c !! hash with
  | Some b =>
      if failed b then Some (Reject (snd (Val.Invalid "duplicate" "known invalid header re-announced")) c)
      else Some (Known hash)
  | None =>
      match hc_pow header COMMITMENT_ONLY with
      | None => None
      | Some false => Some (Reject (snd (Val.Invalid "high-hash" "proof of work commitment failed")) c)
      | Some true =>
          if Blob.IsNull (hashPrevBlock header) then
            if negb (Blob.eqb hash (hashGenesisBlock (consensus params))) then
              Some (Reject (snd (Val.Invalid "bad-genesis" "genesis block hash mismatch")) c)
            else Some (Reject (snd (Val.Invalid "genesis-via-accept" "genesis block must be added via Initialize()")) c)
          else match index c !! hashPrevBlock header with
          | None => Some (Reject (snd (Val.Invalid "prev-blk-not-found" "parent block not found")) c)
          | Some bp =>
              match check_parent c (hashPrevBlock header) bp with
              | None => None
              | Some (Some (state, c)) => Some (Reject state c)
              | Some None => check_header c header state min_pow_checked
              end
          end
      end
  end.

(** The orphans waiting for a parent, in map order. *)
Definition waiting_orphans (c : Chainstate) (parentHash : uint256) : list uint256 :=
  List.filter (fun h => match m_orphan_headers c !! h with
                        | Some o => bool_decide (hashPrevBlock (o_header o) = parentHash)
                        | None => false
                        end) (Persist.sorted_keys (m_orphan_headers c)).

(** One orphan of [ProcessOrphanHeaders]: removed from the pool, then accepted. *)
Definition process_orphan
  (accept : Chainstate -> CBlockHeader -> ValidationState -> bool -> option (option block_ptr * ValidationState * Chainstate))
  (hash : uint256) (c : Chainstate) : option Chainstate :=
  match m_orphan_headers c !! hash with
  | None => Some c
  | Some o =>
      let '(os, ps) := drop_orphan hash (m_orphan_headers c, m_peer_orphan_count c) in
      match accept (with_orphans os ps c) (o_header o) Val.fresh true with
      | Some (_, _, c) => Some c
      | None => None
      end
  end.

Fixpoint process_all
  (accept : Chainstate -> CBlockHeader -> ValidationState -> bool -> option (option block_ptr * ValidationState * Chainstate))
  (hashes : list uint256) (c : Chainstate) : option Chainstate :=
  match hashes with
  | [] => Some c
  | h :: rest => match process_orphan accept h c with Some c => process_all accept rest c | None => None end
  end.

(** [AcceptBlockHeader] with its recursion through [ProcessOrphanHeaders]. *)
Fixpoint accept (fuel : nat) (c : Chainstate) (header : CBlockHeader) (state : ValidationState) (min_pow_checked : bool)
  : option (option block_ptr * ValidationState * Chainstate) :=
  match accept_checks c header state min_pow_checked with
  | None => None
  | Some (Reject state c) => Some (None, state, c)
  | Some (Known p) => Some (Some p, state, c)
  | Some (Inserted p state c) =>
      match fuel with
      | O => None
      | S fuel =>
          match process_all (accept fuel) (waiting_orphans c (Header.GetHash header)) c with
          | Some c => Some (Some p, state, c)
          | None => None
          end
      end
  end.

(** Every recursive call first removes an orphan from the pool. *)
Definition AcceptBlockHeader (c : Chainstate) (header : CBlockHeader) (state : ValidationState) (min_pow_checked : bool)
  : option (option block_ptr * ValidationState * Chainstate) :=
  accept (S (size (m_orphan_headers c))) c header state min_pow_checked.

(** [ProcessOrphanHeaders] on its own. *)
Definition ProcessOrphanHeaders (c : Chainstate) (parentHash : uint256) : option Chainstate :=
  process_all (accept (S (size (m_orphan_headers c)))) (waiting_orphans c parentHash) c.
End Accept.
End CS.
