(* ===== verification/OrphanPool.v ===== *)
(** * OrphanPool: the limits and counters of the orphan pool

    Theorems about [TryAddOrphanHeader], [EvictOrphanHeaders] and the removal of
    orphans in [Chainstate]. *)
From S2P Require Import Prelude Arith Bytes Compact Sha256 Block BlockIndex Chain ChainParams Pow RandomX Validation.
From S2P Require Import ChainSelector BlockManager Persist Chainstate.
#[local] Open Scope Z_scope.
Import CS.

(** The number of orphans a peer has in the pool. *)
Definition count_peer (o : gmap (list Z) OrphanHeader) (peer : Z) : Z :=
  Z.of_nat (size (filter (fun kv => o_peer (snd kv) = peer) o)).

Definition counts_ok (o : gmap (list Z) OrphanHeader) (p : gmap Z Z) : Prop :=
  forall peer, default 0 (p !! peer) = count_peer o peer.

Record pool_wf (c : Chainstate) : Prop := {
  pw_counts : counts_ok (m_orphan_headers c) (m_peer_orphan_count c);
  pw_keys h x : m_orphan_headers c !! h = Some x -> h = Header.GetHash (o_header x);
  pw_size : (size (m_orphan_headers c) <= MAX_ORPHAN_HEADERS)%nat;
  pw_peers peer : count_peer (m_orphan_headers c) peer <= MAX_ORPHAN_HEADERS_PER_PEER
}.

Lemma count_insert o h x peer : o !! h = None ->
  count_peer (<[h := x]> o) peer = count_peer o peer + (if decide (o_peer x = peer) then 1 else 0).
Proof.
  intros Hn. unfold count_peer. destruct (decide (o_peer x = peer)).
  - rewrite map_filter_insert_True by done. rewrite map_size_insert_None; [lia|].
    apply map_lookup_filter_None. by left.
  - rewrite map_filter_insert_not' by (done || by intros ? ?; simplify_eq). lia.
Qed.

Lemma count_delete o h x peer : o !! h = Some x ->
  count_peer (delete h o) peer = count_peer o peer - (if decide (o_peer x = peer) then 1 else 0).
Proof.
  intros Hx. rewrite <- (insert_delete_id o h x Hx) at 2. rewrite count_insert by apply lookup_delete_eq. lia.
Qed.

Lemma count_pos o h x : o !! h = Some x -> 1 <= count_peer o (o_peer x).
Proof.
  intros Hx. rewrite <- (insert_delete_id o h x Hx), count_insert by apply lookup_delete_eq.
  rewrite decide_True by done. unfold count_peer. lia.
Qed.

Lemma decrement_lookup p peer n peer' : p !! peer = Some n ->
  default 0 (decrement_peer peer p !! peer') = default 0 (p !! peer') - (if decide (peer = peer') then 1 else 0).
Proof.
  intros Hp. unfold decrement_peer. rewrite Hp. destruct (decide (peer = peer')) as [<-|Hne].
  - rewrite Hp. destruct (Z.eqb_spec (n - 1) 0); [rewrite lookup_delete_eq|rewrite lookup_insert_eq]; cbn; lia.
  - rewrite Z.sub_0_r. destruct (Z.eqb_spec (n - 1) 0); [rewrite lookup_delete_ne|rewrite lookup_insert_ne]; done.
Qed.

Lemma drop_orphan_counts h o p : counts_ok o p ->
  counts_ok (fst (drop_orphan h (o, p))) (snd (drop_orphan h (o, p))).
Proof.
  intros Hc. unfold drop_orphan. cbn [fst snd]. destruct (o !! h) as [x|] eqn:E; [|done]. cbn [fst snd].
  intros peer. rewrite (count_delete o h x) by done. pose proof (count_pos o h x E) as Hpos.
  pose proof (Hc (o_peer x)) as Hx. destruct (p !! o_peer x) as [n|] eqn:En; [|cbn in Hx; lia].
  rewrite (decrement_lookup p (o_peer x) n) by done. by rewrite Hc.
Qed.

Lemma drop_orphan_fst h o p : fst (drop_orphan h (o, p)) = delete h o.
Proof.
  unfold drop_orphan. cbn [fst snd]. destruct (o !! h) eqn:E; [done|]. cbn. by rewrite delete_id.
Qed.

Definition drop_all (l : list uint256) (o : gmap (list Z) OrphanHeader) (p : gmap Z Z) : gmap (list Z) OrphanHeader * gmap Z Z :=
  foldl (fun pool h => drop_orphan h pool) (o, p) l.

Lemma drop_all_cons h l o p :
  drop_all (h :: l) o p = drop_all l (fst (drop_orphan h (o, p))) (snd (drop_orphan h (o, p))).
Proof. unfold drop_all. cbn [foldl]. by destruct (drop_orphan h (o, p)). Qed.

Lemma drop_all_ok l o p : counts_ok o p ->
  counts_ok (fst (drop_all l o p)) (snd (drop_all l o p)) /\
  (forall h, fst (drop_all l o p) !! h = if decide (h ∈ l) then None else o !! h).
Proof.
  revert o p. induction l as [|x l IH]; intros o p Hc.
  - split; [done|]. intros h. rewrite decide_False; [done|]. apply not_elem_of_nil.
  - rewrite drop_all_cons. destruct (IH _ _ (drop_orphan_counts x o p Hc)) as [H1 H2]. split; [done|].
    intros h. rewrite H2, drop_orphan_fst. destruct (decide (h ∈ l)) as [Hin|Hin].
    + rewrite decide_True; [done|]. by right.
    + destruct (decide (h = x)) as [->|Hne].
      * rewrite lookup_delete_eq, decide_True; [done|]. by left.
      * rewrite lookup_delete_ne by done. rewrite decide_False; [done|]. set_solver.
Qed.

Lemma drop_all_size l o p : NoDup l -> (forall h, h ∈ l -> is_Some (o !! h)) -> counts_ok o p ->
  (size (fst (drop_all l o p)) + length l = size o)%nat.
Proof.
  intros Hnd. revert o p. induction Hnd as [|x l Hx Hnd IH]; intros o p Hin Hc; [cbn; lia|].
  rewrite drop_all_cons. cbn [length]. specialize (IH (delete x o) (snd (drop_orphan x (o, p)))).
  rewrite drop_orphan_fst. destruct (Hin x ltac:(by left)) as [y Hy].
  assert (Hs : size o = S (size (delete x o))).
  { rewrite <- (insert_delete_id o x y Hy) at 1. by rewrite map_size_insert_None by apply lookup_delete_eq. }
  rewrite Hs, <- IH; [lia| |].
  - intros h Hh. rewrite lookup_delete_ne by (intros ->; done). apply Hin. by right.
  - rewrite <- (drop_orphan_fst x o p). by apply drop_orphan_counts.
Qed.

(** *** Keys in map order *)

(** *** Eviction *)

(** The pool after an eviction. *)
Record evicted_to (params : ChainParams) (now : Z) (c c' : Chainstate) (n : nat) : Prop := {
  ev_counts : counts_ok (m_orphan_headers c') (m_peer_orphan_count c');
  ev_sub : m_orphan_headers c' ⊆ m_orphan_headers c;
  ev_size : (size (m_orphan_headers c') + n = size (m_orphan_headers c))%nat;
  ev_live h o : m_orphan_headers c' !! h = Some o -> expired params now o = false;
  ev_full : (MAX_ORPHAN_HEADERS <= size (m_orphan_headers c))%nat -> (0 < n)%nat;
  ev_frame : c' = with_orphans (m_orphan_headers c') (m_peer_orphan_count c') c
}.

Lemma oldest_orphan_ok (o : gmap (list Z) OrphanHeader) : o <> ∅ ->
  exists h x, oldest_orphan o = Some h /\ o !! h = Some x /\ forall h' x', o !! h' = Some x' -> o_time x <= o_time x'.
Proof.
  intros Hne. unfold oldest_orphan. pose proof (sorted_keys_elem o) as Hel.
  destruct (Persist.sorted_keys o) as [|h0 rest] eqn:E.
  { exfalso. apply Hne, map_eq. intros h. rewrite lookup_empty. destruct (o !! h) as [x|] eqn:Eh; [|done].
    pose proof (proj2 (Hel h) (ex_intro _ x Eh)) as Hin. set_solver. }
  set (f := fun oldest h => match o !! h, o !! oldest with
     | Some a, Some b => if o_time a <? o_time b then h else oldest | _, _ => oldest end).
  assert (Hfold : forall l h, is_Some (o !! h) -> (forall k, k ∈ l -> is_Some (o !! k)) ->
    exists x, o !! foldl f h l = Some x /\ (forall k y, k = h \/ k ∈ l -> o !! k = Some y -> o_time x <= o_time y)).
  { induction l as [|k l IH]; intros h [x Hx] Hl; cbn [foldl].
    - exists x. split; [done|]. intros k y [->|Hk] Hy; [simplify_eq; lia|by apply not_elem_of_nil in Hk].
    - destruct (Hl k ltac:(by left)) as [y Hy].
      assert (Ef : f h k = if o_time y <? o_time x then k else h) by (unfold f; by rewrite Hx, Hy).
      destruct (IH (f h k)) as (z & Hz & Hmin).
      { rewrite Ef. destruct (_ <? _); [by exists y|by exists x]. }
      { intros k' Hk'. apply Hl. by right. }
      exists z. split; [done|]. rewrite Ef in Hmin.
      assert (o_time z <= o_time x /\ o_time z <= o_time y) as [Hzx Hzy].
      { destruct (Z.ltb_spec (o_time y) (o_time x)).
        - pose proof (Hmin k y ltac:(by left) Hy). lia.
        - pose proof (Hmin h x ltac:(by left) Hx). lia. }
      intros k' y' Hk' Hy'. destruct Hk' as [->|Hk']; [simplify_eq; lia|].
      apply elem_of_cons in Hk' as [->|Hk']; [simplify_eq; lia|]. apply (Hmin k' y'); [by right|done]. }
  destruct (Hfold rest h0) as (x & Hx & Hmin).
  { apply Hel. by left. }
  { intros k Hk. apply Hel. by right. }
  exists (foldl f h0 rest), x. split_and!; [done..|]. intros h' x' Hx'. apply (Hmin h' x'); [|done].
  apply elem_of_cons, Hel. by exists x'.
Qed.

Lemma with_orphans_orphans o p c : m_orphan_headers (with_orphans o p c) = o.
Proof. by destruct c. Qed.
Lemma with_orphans_counts o p c : m_peer_orphan_count (with_orphans o p c) = p.
Proof. by destruct c. Qed.
Lemma with_orphans_self c : with_orphans (m_orphan_headers c) (m_peer_orphan_count c) c = c.
Proof. by destruct c. Qed.
Lemma with_orphans_twice o p o' p' c : with_orphans o p (with_orphans o' p' c) = with_orphans o p c.
Proof. by destruct c. Qed.

Definition dead_orphans (params : ChainParams) (now : Z) (o : gmap (list Z) OrphanHeader) : list uint256 :=
  List.filter (fun h => match o !! h with Some x => expired params now x | None => false end) (Persist.sorted_keys o).

Lemma dead_elem params now o h : h ∈ dead_orphans params now o <-> exists x, o !! h = Some x /\ expired params now x = true.
Proof.
  unfold dead_orphans. rewrite list_elem_of_In, filter_In, <- list_elem_of_In, sorted_keys_elem.
  destruct (o !! h) as [x|]; [|by split; [intros [[? ?] _]|intros (? & ? & _)]].
  split; [intros [_ ?]; by exists x|]. intros (? & [= <-] & ?). split; [by eexists|done].
Qed.

Lemma dead_nodup params now o : NoDup (dead_orphans params now o).
Proof. unfold dead_orphans. apply NoDup_ListNoDup, List.NoDup_filter, NoDup_ListNoDup, sorted_keys_nodup. Qed.

Lemma EvictOrphanHeaders_ok params now c : counts_ok (m_orphan_headers c) (m_peer_orphan_count c) ->
  evicted_to params now c (snd (EvictOrphanHeaders params now c)) (fst (EvictOrphanHeaders params now c)).
Proof.
  intros Hc. unfold EvictOrphanHeaders. destruct (decide (m_orphan_headers c = ∅)) as [E|E].
  { rewrite bool_decide_true by done. cbn [fst snd]. split.
    - done.
    - done.
    - lia.
    - rewrite E. intros h o. by rewrite lookup_empty.
    - rewrite E, map_size_empty. unfold MAX_ORPHAN_HEADERS. lia.
    - by rewrite with_orphans_self. }
  rewrite bool_decide_false by done. fold (dead_orphans params now (m_orphan_headers c)).
  set (o := m_orphan_headers c) in *. set (p := m_peer_orphan_count c) in *.
  set (dead := dead_orphans params now o). fold (drop_all dead o p).
  destruct (drop_all_ok dead o p Hc) as [Hc1 Hlook].
  pose proof (drop_all_size dead o p (dead_nodup params now o)
    (fun h Hh => ltac:(apply dead_elem in Hh as (x & Hx & _); by exists x)) Hc) as Hsize.
  destruct (drop_all dead o p) as [o1 p1]. cbn [fst snd] in *.
  assert (Hsub : o1 ⊆ o).
  { apply map_subseteq_spec. intros h x. rewrite Hlook. by destruct (decide _). }
  assert (Hlive : forall h x, o1 !! h = Some x -> expired params now x = false).
  { intros h x. rewrite Hlook. destruct (decide (h ∈ dead)) as [|Hn]; [done|]. intros Hx.
    destruct (expired params now x) eqn:Ex; [|done]. exfalso. apply Hn, dead_elem. by exists x. }
  destruct (length dead =? 0)%nat eqn:Ed; cbn [andb].
  - apply Nat.eqb_eq in Ed. destruct (Nat.leb_spec MAX_ORPHAN_HEADERS (size o1)).
    + assert (o1 <> ∅) by (intros ->; rewrite map_size_empty in *; unfold MAX_ORPHAN_HEADERS in *; lia).
      destruct (oldest_orphan_ok o1) as (h & x & Eo & Hx & _); [done|]. rewrite Eo.
      pose proof (drop_orphan_counts h o1 p1 Hc1) as Hc2. pose proof (drop_orphan_fst h o1 p1) as Hf2.
      destruct (drop_orphan h (o1, p1)) as [o2 p2]. cbn [fst snd] in *. subst o2. rewrite Ed.
      assert (Hs2 : size o1 = S (size (delete h o1))).
      { rewrite <- (insert_delete_id o1 h x Hx) at 1. by rewrite map_size_insert_None by apply lookup_delete_eq. }
      split; rewrite ?with_orphans_orphans, ?with_orphans_counts; fold o; try done; try lia.
      * transitivity o1; [apply delete_subseteq|done].
      * intros h' x'. rewrite lookup_delete_Some. intros [_ ?]. by eapply Hlive.
    + cbn [fst snd]. split; rewrite ?with_orphans_orphans, ?with_orphans_counts; fold o; try done; lia.
  - apply Nat.eqb_neq in Ed. cbn [fst snd].
    split; rewrite ?with_orphans_orphans, ?with_orphans_counts; fold o; try done; lia.
Qed.

Lemma count_sub o o' peer : o' ⊆ o -> count_peer o' peer <= count_peer o peer.
Proof.
  intros Hs. unfold count_peer. apply inj_le. rewrite <- !size_dom. apply subseteq_size, subseteq_dom.
  apply map_subseteq_spec. intros h x. rewrite !map_lookup_filter_Some. intros [Hx ?]. split; [by eapply lookup_weaken|done].
Qed.

(** Adding to a pool that has room. *)
Lemma add_orphan_wf c h hd now peer : pool_wf c -> m_orphan_headers c !! h = None -> h = Header.GetHash hd ->
  (size (m_orphan_headers c) < MAX_ORPHAN_HEADERS)%nat ->
  count_peer (m_orphan_headers c) peer < MAX_ORPHAN_HEADERS_PER_PEER ->
  pool_wf (with_orphans (<[h := mkOrphan hd now peer]> (m_orphan_headers c))
             (<[peer := default 0 (m_peer_orphan_count c !! peer) + 1]> (m_peer_orphan_count c)) c).
Proof.
  intros [Hc Hk Hs Hp] Hn Hh Hroom Hpeer. split; rewrite ?with_orphans_orphans, ?with_orphans_counts.
  - intros q. rewrite count_insert by done. cbn [o_peer]. destruct (decide (peer = q)) as [<-|Hne].
    + rewrite lookup_insert_eq. cbn. by rewrite (Hc peer).
    + rewrite lookup_insert_ne by done. rewrite (Hc q). lia.
  - intros k x. rewrite lookup_insert_Some. intros [[<- <-]|[_ ?]]; [done|by apply Hk].
  - rewrite map_size_insert_None by done. lia.
  - intros q. rewrite count_insert by done. cbn [o_peer]. pose proof (Hp q). destruct (decide (peer = q)) as [<-|]; lia.
Qed.

Lemma evicted_wf params now c c' n : pool_wf c -> evicted_to params now c c' n -> pool_wf c'.
Proof.
  intros [Hc Hk Hs Hp] [E1 E2 E3 E4 E5 E6]. split; [done| |lia|].
  - intros h x Hx. apply Hk. by eapply lookup_weaken.
  - intros peer. etrans; [by apply count_sub|done].
Qed.

(** Recording a zero count does not change what the counters say. *)
Lemma touch_wf c peer : pool_wf c ->
  pool_wf (with_orphans (m_orphan_headers c)
    (<[peer := default 0 (m_peer_orphan_count c !! peer)]> (m_peer_orphan_count c)) c).
Proof.
  intros [Hc Hk Hs Hp]. split; rewrite ?with_orphans_orphans, ?with_orphans_counts; try done.
  intros q. destruct (decide (peer = q)) as [<-|Hne]; [rewrite lookup_insert_eq; apply Hc|rewrite lookup_insert_ne by done; apply Hc].
Qed.

(** ** Properties *)

(** What [TryAddOrphanHeader] does to the pool. *)
Lemma try_add_orphan_ok (params : ChainParams) (now : Z) (hd : CBlockHeader) (peer : Z) (c : Chainstate) :
  pool_wf c ->
  let '(r, c') := TryAddOrphanHeader params now hd peer c in
  pool_wf c' /\
  (r = false <-> m_orphan_headers c !! Header.GetHash hd = None /\
                 count_peer (m_orphan_headers c) peer = MAX_ORPHAN_HEADERS_PER_PEER) /\
  (r = true -> is_Some (m_orphan_headers c' !! Header.GetHash hd)) /\
  c' = with_orphans (m_orphan_headers c') (m_peer_orphan_count c') c /\
  (forall q x, m_orphan_headers c' !! q = Some x -> m_orphan_headers c !! q = Some x \/ q = Header.GetHash hd /\ o_header x = hd) /\
  (size (m_orphan_headers c') <= S (size (m_orphan_headers c)))%nat.
Proof.
  intros Hwf. unfold TryAddOrphanHeader. set (h := Header.GetHash hd).
  destruct (decide (is_Some (m_orphan_headers c !! h))) as [Hin|Hout].
  { rewrite bool_decide_true by done. split_and!; [done| |done|by rewrite with_orphans_self|by left|lia].
    split; [done|]. intros [E _]. rewrite E in Hin. by destruct Hin. }
  rewrite bool_decide_false by done. apply eq_None_not_Some in Hout as Hnone. cbv zeta.
  pose proof (pw_counts c Hwf peer) as Hcount. pose proof (pw_peers c Hwf peer) as Hpeer.
  pose proof (touch_wf c peer Hwf) as Hwf1. set (c1 := with_orphans _ _ c) in *.
  assert (Ho1 : m_orphan_headers c1 = m_orphan_headers c) by apply with_orphans_orphans.
  assert (Hfr1 : forall o p, with_orphans o p c1 = with_orphans o p c) by (intros; apply with_orphans_twice).
  rewrite Hcount. destruct (Z.leb_spec MAX_ORPHAN_HEADERS_PER_PEER (count_peer (m_orphan_headers c) peer)).
  { rewrite Ho1. split_and!; [done| |done| |by left|lia]; [split; [intros _; split; [done|lia]|done]|].
    rewrite <- Ho1, <- Hfr1. by rewrite with_orphans_self. }
  assert (Hadd : forall c2, pool_wf c2 -> m_orphan_headers c2 ⊆ m_orphan_headers c ->
    (size (m_orphan_headers c2) < MAX_ORPHAN_HEADERS)%nat -> (forall o p, with_orphans o p c2 = with_orphans o p c) ->
    let c' := with_orphans (<[h := mkOrphan hd now peer]> (m_orphan_headers c2))
                 (<[peer := default 0 (m_peer_orphan_count c2 !! peer) + 1]> (m_peer_orphan_count c2)) c2 in
    pool_wf c' /\ (true = false <-> m_orphan_headers c !! h = None /\ count_peer (m_orphan_headers c) peer = MAX_ORPHAN_HEADERS_PER_PEER) /\
    (true = true -> is_Some (m_orphan_headers c' !! h)) /\
    c' = with_orphans (m_orphan_headers c') (m_peer_orphan_count c') c /\
    (forall q x, m_orphan_headers c' !! q = Some x -> m_orphan_headers c !! q = Some x \/ q = h /\ o_header x = hd) /\
    (size (m_orphan_headers c') <= S (size (m_orphan_headers c)))%nat).
  { intros c2 Hw2 Hsub Hroom Hfr c'. pose proof (count_sub _ _ peer Hsub). split_and!.
    - apply add_orphan_wf; [done| |done|done|lia].
      destruct (m_orphan_headers c2 !! h) as [x|] eqn:E; [|done].
      rewrite (lookup_weaken _ _ _ _ E Hsub) in Hnone. done.
    - split; [done|]. intros [_ ?]. lia.
    - intros _. unfold c'. rewrite with_orphans_orphans, lookup_insert_eq. by eexists.
    - unfold c'. by rewrite with_orphans_orphans, with_orphans_counts, Hfr.
    - intros q x. unfold c'. rewrite with_orphans_orphans, lookup_insert_Some. intros [[<- <-]|[_ Hq]]; [by right|].
      left. by apply (lookup_weaken _ _ _ _ Hq Hsub).
    - unfold c'. rewrite with_orphans_orphans. pose proof (map_subseteq_size _ _ Hsub).
      rewrite map_size_insert. destruct (m_orphan_headers c2 !! h); cbn [id]; lia. }
  destruct (Nat.leb_spec MAX_ORPHAN_HEADERS (size (m_orphan_headers c1))) as [Hfull|Hroom].
  - pose proof (EvictOrphanHeaders_ok params now c1 (pw_counts c1 Hwf1)) as Hev.
    destruct (EvictOrphanHeaders params now c1) as [n c2]. cbn [fst snd] in Hev.
    pose proof (ev_full _ _ _ _ _ Hev Hfull) as Hpos. pose proof (ev_size _ _ _ _ _ Hev) as Hsz.
    pose proof (pw_size c1 Hwf1). destruct (Nat.eqb_spec n 0); [lia|]. apply (Hadd c2).
    + by eapply evicted_wf.
    + rewrite <- Ho1. apply (ev_sub _ _ _ _ _ Hev).
    + lia.
    + intros o p. by rewrite (ev_frame _ _ _ _ _ Hev), with_orphans_twice, Hfr1.
  - apply (Hadd c1); [done|by rewrite Ho1|done|done].
Qed.

(** C37: the orphan pool keeps its limits: at most 1000 headers, at most 50 per peer, and per-peer
    counters that equal the number of that peer's headers in the pool.  [TryAddOrphanHeader]
    answers false exactly when the header is not in the pool yet and its peer is at the limit; otherwise the
    header is in the pool afterwards.  Nothing but the pool changes. *)
Theorem try_add_orphan_exact (params : ChainParams) (now : Z) (hd : CBlockHeader) (peer : Z) (c : Chainstate) :
  pool_wf c ->
  let '(r, c') := TryAddOrphanHeader params now hd peer c in
  pool_wf c' /\
  (r = false <-> m_orphan_headers c !! Header.GetHash hd = None /\
                 count_peer (m_orphan_headers c) peer = MAX_ORPHAN_HEADERS_PER_PEER) /\
  (r = true -> is_Some (m_orphan_headers c' !! Header.GetHash hd)) /\
  c' = with_orphans (m_orphan_headers c') (m_peer_orphan_count c') c.
Proof.
  intros Hwf. pose proof (try_add_orphan_ok params now hd peer c Hwf) as H.
  destruct (TryAddOrphanHeader params now hd peer c) as [r c']. destruct H as (H1 & H2 & H3 & H4 & _).
  exact (conj H1 (conj H2 (conj H3 H4))).
Qed.

(** [EvictOrphanHeaders] reports the number of headers it removed, leaves no expired header,
    keeps the per-peer counters exact, touches nothing else, and always makes room in a full
    pool. *)
Theorem evict_orphans_exact (params : ChainParams) (now : Z) (c : Chainstate) :
  pool_wf c ->
  let '(n, c') := EvictOrphanHeaders params now c in
  pool_wf c' /\ (size (m_orphan_headers c') + n = size (m_orphan_headers c))%nat /\
  m_orphan_headers c' ⊆ m_orphan_headers c /\
  (forall h o, m_orphan_headers c' !! h = Some o -> now - o_time o <= nOrphanHeaderExpireTime (consensus params)) /\
  ((size (m_orphan_headers c) = MAX_ORPHAN_HEADERS)%nat -> (size (m_orphan_headers c') < MAX_ORPHAN_HEADERS)%nat) /\
  c' = with_orphans (m_orphan_headers c') (m_peer_orphan_count c') c.
Proof.
  intros Hwf. pose proof (EvictOrphanHeaders_ok params now c (pw_counts c Hwf)) as Hev.
  destruct (EvictOrphanHeaders params now c) as [n c']. cbn [fst snd] in Hev. pose proof (evicted_wf _ _ _ _ _ Hwf Hev) as Hwf'.
  destruct Hev as [_ Hsub Hsize Hlive Hfull Hfr]. split_and!; [done..| | |done].
  - intros h o Ho. specialize (Hlive h o Ho). unfold expired in Hlive. by apply Z.ltb_ge in Hlive.
  - intros E. specialize (Hfull ltac:(lia)). lia.
Qed.

(** ** Witnesses *)

Lemma count_empty peer : count_peer ∅ peer = 0.
Proof. unfold count_peer. by rewrite map_filter_empty, map_size_empty. Qed.

Lemma new_pool_wf params : pool_wf (CS.new params).
Proof.
  split; cbn.
  - intros peer. by rewrite lookup_empty, count_empty.
  - intros h x. by rewrite lookup_empty.
  - rewrite map_size_empty. unfold MAX_ORPHAN_HEADERS. lia.
  - intros peer. rewrite count_empty. unfold MAX_ORPHAN_HEADERS_PER_PEER. lia.
Qed.

Lemma try_add_orphan_exact_witness :
  exists p, Params.Select 0 0 MAIN = Some p /\ let c := CS.new p in let hd := next_header in
  let '(r, c') := TryAddOrphanHeader p 1000 hd 7 c in
  pool_wf c' /\
  (r = false <-> m_orphan_headers c !! Header.GetHash hd = None /\
                 count_peer (m_orphan_headers c) 7 = MAX_ORPHAN_HEADERS_PER_PEER) /\
  (r = true -> is_Some (m_orphan_headers c' !! Header.GetHash hd)) /\
  c' = with_orphans (m_orphan_headers c') (m_peer_orphan_count c') c.
Proof.
  destruct (select_ok 0 0 MAIN) as (p & E & _). exists p. split; [exact E|].
  exact (try_add_orphan_exact p 1000 next_header 7 (CS.new p) (new_pool_wf p)).
Defined.

(** A pool with one orphan, evicted when it has expired. *)
Definition one_orphan (params : ChainParams) : Chainstate :=
  with_orphans {[Header.GetHash next_header := mkOrphan next_header 1000 7]} {[7 := 1]} (CS.new params).

Lemma one_orphan_wf params : pool_wf (one_orphan params).
Proof.
  pose proof (add_orphan_wf (CS.new params) (Header.GetHash next_header) next_header 1000 7 (new_pool_wf params)) as H.
  apply H; cbn [m_orphan_headers CS.new]; [by rewrite lookup_empty|done|..].
  - rewrite map_size_empty. unfold MAX_ORPHAN_HEADERS. lia.
  - by rewrite count_empty.
Qed.

Lemma evict_orphans_exact_witness :
  exists p, Params.Select 0 0 MAIN = Some p /\ let c := one_orphan p in
  let '(n, c') := EvictOrphanHeaders p 100000 c in
  pool_wf c' /\ (size (m_orphan_headers c') + n = size (m_orphan_headers c))%nat /\
  m_orphan_headers c' ⊆ m_orphan_headers c /\
  (forall h o, m_orphan_headers c' !! h = Some o -> 100000 - o_time o <= nOrphanHeaderExpireTime (consensus p)) /\
  ((size (m_orphan_headers c) = MAX_ORPHAN_HEADERS)%nat -> (size (m_orphan_headers c') < MAX_ORPHAN_HEADERS)%nat) /\
  c' = with_orphans (m_orphan_headers c') (m_peer_orphan_count c') c.
Proof.
  destruct (select_ok 0 0 MAIN) as (p & E & _). exists p. split; [exact E|].
  exact (evict_orphans_exact p 100000 (one_orphan p) (one_orphan_wf p)).
Defined.
