(* ===== verification/Accept.v ===== *)
(** * Accept: header acceptance keeps the chain state well formed

    The invariant [cs_wf] of [ChainstateManager], what the virtual checks owe to it
    ([LawfulChecks], discharged for the default checks), and the theorems
    about [AcceptBlockHeader] and [ProcessOrphanHeaders]. *)
From Stdlib Require Import String.
From S2P Require Import Prelude Arith Bytes Compact Sha256 Block BlockIndex Chain ChainParams Pow RandomX Validation.
From S2P Require Import ChainSelector BlockManager SameTree Persist Chainstate OrphanPool.
#[local] Open Scope Z_scope.
Import Idx (CBlockIndex, mkIndex, nHeight, pprev, pskip, nChainWork, nStatus, nTimeMax, nTimeReceived).
Import CS.

Abbreviation candidates c := (Selector.m_candidates (chain_selector_ c)).
Abbreviation best_header c := (Selector.m_best_header (chain_selector_ c)).

(** The block with the most work known. *)
Definition best_of (m : block_map) (o : option block_ptr) : Prop :=
  exists p, o = Some p /\ is_Some (m !! p) /\ forall q b, m !! q = Some b -> nChainWork b <= deref nChainWork 0 m p.

(** The invariant. *)
Record cs_wf (g : uint256) (c : Chainstate) : Prop := {
  cw_index : index_wf g (index c);
  cw_active : exists t, is_Some (index c !! t) /\ active c = path (index c) t;
  cw_cand : cand_wf (index c) (candidates c);
  cw_known p : p ∈ candidates c -> is_Some (index c !! p);
  cw_best : best_of (index c) (best_header c);
  cw_pool : pool_wf c;
  cw_headers h x : m_orphan_headers c !! h = Some x -> header_wf (o_header x)
}.

(** Status words: every block is failed or valid to the tree level, and failure passes on to
    children. *)
Record status_wf (m : block_map) : Prop := {
  sw_level h b : m !! h = Some b -> failed b = true \/ Idx.IsValid b BLOCK_VALID_TREE = true;
  sw_closed h b p pb : m !! h = Some b -> pprev b = Some p -> m !! p = Some pb -> failed pb = true -> failed b = true
}.

(** What the virtual checks owe to the acceptance of headers: an invariant of theirs on the
    index that accepted headers preserve and under which they neither throw nor fail an assertion. *)
Class LawfulChecks `{HeaderChecks} (g : uint256) := {
  lc_inv : block_map -> Prop;
  lc_same m m' : same_tree m m' -> lc_inv m -> lc_inv m';
  lc_pow header : header_wf header -> is_Some (hc_pow header COMMITMENT_ONLY);
  lc_header header st : header_wf header -> is_Some (hc_header header st);
  lc_context m header now st : index_wf g m -> lc_inv m -> header_wf header -> is_Some (m !! hashPrevBlock header) ->
    Z.of_nat (size m) < 2 ^ 31 -> is_Some (hc_context m header (Some (hashPrevBlock header)) now st);
  lc_grow m header now st st' pb : index_wf g m -> lc_inv m -> header_wf header ->
    m !! Header.GetHash header = None -> m !! hashPrevBlock header = Some pb -> Z.of_nat (size m) < 2 ^ 31 ->
    hc_context m header (Some (hashPrevBlock header)) now st = Some (true, st') ->
    lc_inv (<[Header.GetHash header := child_entry m header (hashPrevBlock header) pb]> m)
}.

(** ** What an operation that only accepts headers may change *)

Record accepted (c c' : Chainstate) : Prop := {
  ac_grows : grows (index c) (index c');
  ac_active : active c' = active c;
  ac_cands : candidates c' = candidates c;
  ac_orphans : m_orphan_headers c' ⊆ m_orphan_headers c;
  ac_failed : m_failed_blocks c' = m_failed_blocks c;
  ac_ibd : m_cached_finished_ibd c' = m_cached_finished_ibd c;
  ac_depth : suspicious_reorg_depth_ c' = suspicious_reorg_depth_ c
}.

#[export] Instance accepted_preorder : PreOrder accepted.
Proof.
  split; [intros c; by split|]. intros c1 c2 c3 [] []. split; try congruence; by etrans.
Qed.

(** Updates of the index that keep the tree. *)
Definition same_state (c c' : Chainstate) : Prop := exists m, same_tree m (index c) /\ c' = with_index m c.

Lemma index_with_index m c : index (with_index m c) = m.
Proof. by destruct c. Qed.
Lemma active_with_index m c : active (with_index m c) = active c.
Proof. by destruct c. Qed.
Lemma sel_with_index m c : chain_selector_ (with_index m c) = chain_selector_ c.
Proof. by destruct c. Qed.
Lemma with_index_twice m m' c : with_index m (with_index m' c) = with_index m c.
Proof. by destruct c. Qed.
Lemma with_index_self c : with_index (index c) c = c.
Proof. by destruct c as [[] ? ? ? ? ? ?]. Qed.

#[export] Instance same_state_preorder : PreOrder same_state.
Proof.
  split; [intros c; exists (index c); by rewrite with_index_self|].
  intros c1 c2 c3 (m & Hm & ->) (m' & Hm' & ->). exists m'. rewrite index_with_index in Hm'.
  split; [by etrans|apply with_index_twice].
Qed.

Lemma update_same f `{!KeepsShape f} p c : same_state c (update_entry f p c).
Proof. exists (alter f p (index c)). split; [by apply alter_same|done]. Qed.

Lemma same_state_index c c' : same_state c c' -> same_tree (index c') (index c).
Proof. intros (m & Hm & ->). by rewrite index_with_index. Qed.

Lemma same_state_accepted c c' : same_state c c' -> accepted c c'.
Proof.
  intros (m & Hm & ->). split; try (by destruct c); rewrite ?index_with_index. apply same_grows. by symmetry.
Qed.

Lemma pool_wf_with c c' : m_orphan_headers c' = m_orphan_headers c -> m_peer_orphan_count c' = m_peer_orphan_count c ->
  pool_wf c -> pool_wf c'.
Proof. intros E1 E2 [? ? ? ?]. split; rewrite ?E1, ?E2; done. Qed.

Lemma best_same m m' o : same_tree m m' -> best_of m o -> best_of m' o.
Proof.
  intros Hs (p & -> & Hp & Hb). exists p. split_and!; [done|by rewrite <- (same_some_proper _ _ Hs p p eq_refl)|].
  intros q b Hq. destruct (same_lookup m' m q b (symmetry Hs) Hq) as (b' & Hb' & E).
  rewrite <- (deref_same nChainWork 0 m m' p Hs), <- (shape_eq nChainWork b b' E). by apply (Hb q).
Qed.

Lemma same_state_wf g c c' : same_state c c' -> cs_wf g c -> cs_wf g c'.
Proof.
  intros (m & Hm & ->) [Hi (t & Ht & Ha) Hc Hk Hb Hp Hh]. split; rewrite ?index_with_index, ?active_with_index, ?sel_with_index.
  - by rewrite Hm.
  - exists t. split; [by apply (same_some_proper _ _ Hm t t eq_refl)|]. by rewrite Hm.
  - by rewrite Hm.
  - intros p Hpin. by apply (same_some_proper _ _ Hm p p eq_refl), Hk.
  - by apply (best_same (index c)).
  - eapply pool_wf_with; [| |exact Hp]; by destruct c.
  - intros h x Hx. apply (Hh h). by destruct c.
Qed.

(** ** The steps of acceptance *)

Lemma check_parent_ok c prev bp : status_wf (index c) -> index c !! prev = Some bp ->
  check_parent c prev bp =
    if failed bp then Some (Some (snd (Val.Invalid "bad-prevblk" "previous block is invalid"), c)) else Some None.
Proof.
  intros Hs Hp. unfold check_parent. destruct (failed bp) eqn:Ef; [done|].
  destruct (sw_level _ Hs prev bp Hp) as [E| ->]; [congruence|done].
Qed.

(** A fresh block that is now the last one inserted. *)
Lemma update_sel_fields f c : index (update_sel f c) = index c /\ active (update_sel f c) = active c /\
  chain_selector_ (update_sel f c) = f (chain_selector_ c) /\ m_orphan_headers (update_sel f c) = m_orphan_headers c /\
  m_peer_orphan_count (update_sel f c) = m_peer_orphan_count c.
Proof. by destruct c. Qed.

Lemma update_best m0 m h e s : m0 !! h = None -> same_tree m (<[h := e]> m0) ->
  best_of m0 (Selector.m_best_header s) ->
  best_of m (Selector.m_best_header (Selector.UpdateBestHeader m (Some h) s)).
Proof.
  intros Hn Hs (p & Hp & [bp Hbp] & Hmax). apply (best_same (<[h := e]> m0)); [by symmetry|].
  unfold Selector.UpdateBestHeader. rewrite Hp, !(deref_same nChainWork 0 m (<[h := e]> m0)) by done.
  assert (p <> h) as Hne by congruence.
  rewrite (deref_eq nChainWork 0 (<[h := e]> m0) h e) by by rewrite lookup_insert_eq.
  rewrite (deref_eq nChainWork 0 (<[h := e]> m0) p bp) by by rewrite lookup_insert_ne.
  rewrite (deref_eq nChainWork 0 m0 p bp Hbp) in Hmax.
  destruct (Z.ltb_spec (nChainWork bp) (nChainWork e)); [exists h|exists p]; (split; [done|]).
  - rewrite (deref_eq nChainWork 0 _ h e) by by rewrite lookup_insert_eq. split; [by rewrite lookup_insert_eq|].
    intros q b. rewrite lookup_insert_Some. intros [[_ <-]|[_ Hb]]; [lia|]. specialize (Hmax q b Hb). lia.
  - rewrite (deref_eq nChainWork 0 _ p bp) by by rewrite lookup_insert_ne.
    split; [by rewrite lookup_insert_ne|]. intros q b. rewrite lookup_insert_Some. intros [[_ <-]|[_ Hb]]; [lia|by apply (Hmax q)].
Qed.

(** The state after the insertion of a child. *)
Record inserted (g : uint256) (c : Chainstate) (header : CBlockHeader) (pb : CBlockIndex) (now : Z) (c' : Chainstate) : Prop := {
  in_tree : same_tree (index c') (<[Header.GetHash header := child_entry (index c) header (hashPrevBlock header) pb]> (index c));
  in_entry : exists b, index c' !! Header.GetHash header = Some b /\ Idx.GetBlockHeader b = header /\
    Idx.IsValid b BLOCK_VALID_TREE = true /\ nTimeReceived b = now;
  in_others h : h <> Header.GetHash header -> index c' !! h = index c !! h;
  in_orphans : m_orphan_headers c' = m_orphan_headers c;
  in_counts : m_peer_orphan_count c' = m_peer_orphan_count c;
  in_accepted : accepted c c';
  in_wf : cs_wf g c'
}.

Lemma valid_not_failed b l : Idx.IsValid b l = true -> failed b = false.
Proof. unfold Idx.IsValid, failed. by destruct (_ =? 0). Qed.

(** The status words after the insertion below a parent that has not failed. *)
Lemma inserted_status g c header pb now c' : cs_wf g c -> status_wf (index c) -> index c !! Header.GetHash header = None ->
  index c !! hashPrevBlock header = Some pb -> failed pb = false -> inserted g c header pb now c' -> status_wf (index c').
Proof.
  intros Hwf [Hl Hc] Hnew Hpar Hf [Ht (b & Hb & Ehd & Hv & _) Hoth _ _ _ _].
  assert (Hpp : pprev b = Some (hashPrevBlock header)).
  { destruct (same_lookup _ _ _ b Ht Hb) as (e & He & E). rewrite lookup_insert_eq in He. simplify_eq.
    by rewrite <- (shape_eq pprev _ _ E). }
  split.
  - intros h x Hx. destruct (decide (h = Header.GetHash header)) as [->|Hne]; [simplify_eq; by right|].
    rewrite Hoth in Hx by done. by apply (Hl h).
  - intros h x p y Hx Hp Hy Hfy. destruct (decide (h = Header.GetHash header)) as [->|Hne].
    + simplify_eq. rewrite Hoth in Hy by congruence. simplify_eq; congruence.
    + rewrite Hoth in Hx by done. destruct (decide (p = Header.GetHash header)) as [->|Hne'].
      * destruct (bw_parent _ _ _ _ (cw_index g c Hwf h x Hx) _ Hp) as (z & Hz & _). congruence.
      * rewrite Hoth in Hy by done. by apply (Hc h x p y).
Qed.

Lemma raise_fresh b : nStatus b = 0 -> Idx.IsValid (snd (Idx.RaiseValidity b BLOCK_VALID_TREE)) BLOCK_VALID_TREE = true.
Proof. intros E. unfold Idx.RaiseValidity. rewrite E. destruct b. cbn in *. subst. reflexivity. Qed.

Section Insert.
Context `{HeaderChecks} (g : uint256) (now : Z) (c : Chainstate) (header : CBlockHeader) (pb : CBlockIndex).
Context (Hwf : cs_wf g c) (Hh : header_wf header) (Hnew : index c !! Header.GetHash header = None)
  (Hpar : index c !! hashPrevBlock header = Some pb).
Let hash := Header.GetHash header.
Let e := child_entry (index c) header (hashPrevBlock header) pb.
Let raise b := snd (Idx.RaiseValidity b BLOCK_VALID_TREE).
Let m := alter raise hash (alter (Idx.set_nTimeReceived now) hash (<[hash := e]> (index c))).
Let c' := update_sel (Selector.UpdateBestHeader m (Some hash)) (with_index m c).

Lemma insert_tree : same_tree m (<[hash := e]> (index c)).
Proof. unfold m, raise. etrans; apply alter_same; apply _. Qed.

Lemma insert_fields : index c' = m /\ active c' = active c /\ candidates c' = candidates c /\
  m_orphan_headers c' = m_orphan_headers c /\ m_peer_orphan_count c' = m_peer_orphan_count c /\
  m_failed_blocks c' = m_failed_blocks c /\ m_cached_finished_ibd c' = m_cached_finished_ibd c /\
  suspicious_reorg_depth_ c' = suspicious_reorg_depth_ c.
Proof.
  unfold c', Selector.UpdateBestHeader. destruct c as [[] [] ? ? ? ? ?]. cbn. split_and!; try done.
  by repeat case_match.
Qed.

Lemma insert_step st : insert_header now c header st true = Some (Inserted hash st c').
Proof.
  unfold insert_header. cbn [negb]. rewrite (add_child g (index c) (cw_index g c Hwf) header Hh Hnew _ pb eq_refl Hpar).
  cbv zeta. fold hash e. do 2 f_equal. unfold c', m, raise, update_entry. rewrite !index_with_index, !with_index_twice. done.
Qed.

Lemma insert_grows : grows (index c) m.
Proof.
  etrans; [apply (sub_grows _ (<[hash := e]> (index c))); by apply insert_subseteq|].
  apply same_grows. symmetry. apply insert_tree.
Qed.

Lemma insert_accepted : accepted c c'.
Proof.
  destruct insert_fields as (Ei & Ea & Ec & Eo & Ep & Ef & Eb & Ed). split; rewrite ?Ei, ?Eo; try done. apply insert_grows.
Qed.

Lemma insert_wf : cs_wf g c'.
Proof.
  destruct Hwf as [Hi (t & Ht & Ha) Hc Hk Hb Hp Hhd].
  destruct insert_fields as (Ei & Ea & Ec & Eo & Ep & _). pose proof insert_grows as Hg.
  pose proof (index_shape_tree g _ Hi) as Hst. split; rewrite ?Ei, ?Ea, ?Ec, ?Eo.
  - rewrite insert_tree. by apply child_wf.
  - exists t. split; [by eapply grows_some|]. by rewrite (grows_path (index c)).
  - by apply (grows_cand (index c)).
  - intros p Hpin. eapply grows_some; [done|by apply Hk].
  - unfold c'. rewrite (proj1 (proj2 (proj2 (update_sel_fields _ _)))), sel_with_index.
    by apply (update_best (index c) m hash e); [|apply insert_tree|].
  - by eapply pool_wf_with.
  - done.
Qed.

Lemma insert_entry : m !! hash = Some (raise (Idx.set_nTimeReceived now e)).
Proof. unfold m. by rewrite !lookup_alter_eq, lookup_insert_eq. Qed.

Lemma insert_header_ok st : insert_header now c header st true = Some (Inserted hash st c') /\ inserted g c header pb now c'.
Proof.
  split; [apply insert_step|]. destruct insert_fields as (Ei & _ & _ & Eo & Ep & _).
  split; [rewrite Ei; apply insert_tree| | |done|done|apply insert_accepted|apply insert_wf].
  - exists (raise (Idx.set_nTimeReceived now e)). rewrite Ei. split; [apply insert_entry|]. split_and!.
    + rewrite (shape_eq Idx.GetBlockHeader e); [by apply header_of_child|]. unfold raise.
      by rewrite (ks_raise _ _), (ks_received _ _).
    + by apply raise_fresh.
    + unfold raise, Idx.RaiseValidity, e. cbn. reflexivity.
  - intros h Hne. rewrite Ei. unfold m. by rewrite !lookup_alter_ne, lookup_insert_ne.
Qed.
End Insert.

(** ** Orphans leave the pool *)

Lemma with_orphans_fields o p c : index (with_orphans o p c) = index c /\ active (with_orphans o p c) = active c /\
  chain_selector_ (with_orphans o p c) = chain_selector_ c /\ m_failed_blocks (with_orphans o p c) = m_failed_blocks c /\
  m_cached_finished_ibd (with_orphans o p c) = m_cached_finished_ibd c /\
  suspicious_reorg_depth_ (with_orphans o p c) = suspicious_reorg_depth_ c.
Proof. by destruct c. Qed.

Lemma drop_orphan_wf g c h x : cs_wf g c -> m_orphan_headers c !! h = Some x ->
  exists p, drop_orphan h (m_orphan_headers c, m_peer_orphan_count c) = (delete h (m_orphan_headers c), p) /\
    cs_wf g (with_orphans (delete h (m_orphan_headers c)) p c).
Proof.
  intros [Hi Ha Hc Hk Hb Hp Hhd] Hx. pose proof (drop_orphan_counts h _ _ (pw_counts c Hp)) as Hcnt.
  unfold drop_orphan in *. cbn [fst snd] in *. rewrite Hx in *. cbn [fst snd] in Hcnt. eexists. split; [done|].
  set (p := decrement_peer _ _) in *. destruct (with_orphans_fields (delete h (m_orphan_headers c)) p c) as (Ei & Ea & Es & _).
  assert (Hsub : delete h (m_orphan_headers c) ⊆ m_orphan_headers c) by apply delete_subseteq.
  split; rewrite ?Ei, ?Ea, ?Es, ?with_orphans_orphans; try done.
  - destruct Hp as [_ Hkey Hs Hpeer]. split; rewrite ?with_orphans_orphans, ?with_orphans_counts; [done| | |].
    + intros h' x' Hx'. apply Hkey. by eapply lookup_weaken.
    + etrans; [|exact Hs]. rewrite <- !size_dom. by apply subseteq_size, subseteq_dom.
    + intros q. etrans; [by apply count_sub|done].
  - intros h' x' Hx'. apply (Hhd h'). by eapply lookup_weaken.
Qed.

Lemma delete_size {A} (o : gmap (list Z) A) h x : o !! h = Some x -> size o = S (size (delete h o)).
Proof. intros Hx. rewrite <- (insert_delete_id o h x Hx) at 1. by rewrite map_size_insert_None by apply lookup_delete_eq. Qed.

Section Accepting.
Context `{HeaderChecks} (g : uint256) `{!LawfulChecks g} (params : ChainParams) (now adjusted_time : Z).

Definition cs_inv (c : Chainstate) : Prop := cs_wf g c /\ status_wf (index c) /\ lc_inv (index c).

(** The conditions for a header to enter the index, except for the anti-DoS flag. *)
Definition acceptable (c : Chainstate) (header : CBlockHeader) (st st' : ValidationState) : Prop :=
  index c !! Header.GetHash header = None /\ hc_pow header COMMITMENT_ONLY = Some true /\
  Blob.IsNull (hashPrevBlock header) = false /\
  exists bp st1, index c !! hashPrevBlock header = Some bp /\ failed bp = false /\
    hc_context (index c) header (Some (hashPrevBlock header)) adjusted_time st = Some (true, st1) /\
    hc_header header st1 = Some (true, st').

Definition known_valid (c : Chainstate) (header : CBlockHeader) : Prop :=
  exists b, index c !! Header.GetHash header = Some b /\ failed b = false.

(** The three ways the checks end. *)
Inductive checked (c : Chainstate) (header : CBlockHeader) (st : ValidationState) (mpc : bool) : option accept_step -> Prop :=
| checked_reject st' : (forall st2, acceptable c header st st2 -> mpc = false) -> ~ known_valid c header ->
    checked c header st mpc (Some (Reject st' c))
| checked_known : known_valid c header -> checked c header st mpc (Some (Known (Header.GetHash header)))
| checked_insert st' c' pb : acceptable c header st st' -> mpc = true ->
    inserted g c header pb now c' -> cs_inv c' -> checked c header st mpc (Some (Inserted (Header.GetHash header) st' c')).

Lemma accept_checks_ok c header st mpc : cs_inv c -> header_wf header -> Z.of_nat (size (index c)) < 2 ^ 31 ->
  checked c header st mpc (accept_checks params now adjusted_time c header st mpc).
Proof.
  intros (Hwf & Hst & Hlc) Hh Hsz. unfold accept_checks. cbv zeta.
  destruct (index c !! Header.GetHash header) as [b|] eqn:Hnew.
  { destruct (failed b) eqn:Ef; [|apply checked_known; by exists b]. apply checked_reject.
    - intros st2 (? & _). congruence.
    - intros (b' & ? & ?). congruence. }
  assert (Hk : ~ known_valid c header) by (intros (b' & ? & ?); congruence).
  destruct (lc_pow header Hh) as [[|] Epow]; rewrite Epow; [|apply checked_reject; [|done]; intros st2 (_ & ? & _); congruence].
  destruct (Blob.IsNull (hashPrevBlock header)) eqn:En.
  { destruct (negb _); (apply checked_reject; [|done]); intros st2 (_ & _ & ? & _); congruence. }
  destruct (index c !! hashPrevBlock header) as [pb|] eqn:Hpar;
    [|apply checked_reject; [|done]; intros st2 (_ & _ & _ & ? & ? & ? & _); congruence].
  rewrite (check_parent_ok c _ pb Hst Hpar). destruct (failed pb) eqn:Ef.
  { apply checked_reject; [|done]. intros st2 (_ & _ & _ & ? & ? & ? & ? & _). congruence. }
  unfold check_header.
  destruct (lc_context (index c) header adjusted_time st (cw_index g c Hwf) Hlc Hh ltac:(by rewrite Hpar) Hsz) as [[[|] st1] Ec];
    rewrite Ec; [|apply checked_reject; [|done]; intros st2 (_ & _ & _ & ? & ? & _ & _ & ? & _); congruence].
  destruct (lc_header header st1 Hh) as [[[|] st2] Ehd]; rewrite Ehd;
    [|apply checked_reject; [|done]; intros ? (_ & _ & _ & ? & ? & _ & _ & ? & ?); congruence].
  destruct mpc; [|by apply checked_reject].
  destruct (insert_header_ok g now c header pb Hwf Hh Hnew Hpar st2) as [-> Hin].
  apply (checked_insert c header st true st2 _ pb); [|done|exact Hin|].
  - split_and!; [done..|]. by exists pb, st1.
  - split_and!; [apply (in_wf _ _ _ _ _ _ Hin)|by eapply inserted_status|].
    eapply lc_same; [symmetry; apply (in_tree _ _ _ _ _ _ Hin)|]. by apply (lc_grow (index c) header adjusted_time st st1 pb (cw_index g c Hwf)).
Qed.

(** The number of blocks the index and the pool may hold together. *)
Definition total (c : Chainstate) : Z := Z.of_nat (size (index c)) + Z.of_nat (size (m_orphan_headers c)).

(** Blocks only come from the headers given and from the pool. *)
Definition from (c c' : Chainstate) (new : uint256 -> Prop) : Prop :=
  forall q, is_Some (index c' !! q) -> is_Some (index c !! q) \/ new q \/ is_Some (m_orphan_headers c !! q).

Lemma from_trans c1 c2 c3 P : m_orphan_headers c2 ⊆ m_orphan_headers c1 -> from c1 c2 P -> from c2 c3 (fun _ => False) ->
  from c1 c3 P.
Proof.
  intros Hsub H12 H23 q Hq. destruct (H23 q Hq) as [?|[[]|[x Hx]]]; [by apply H12|].
  right; right. exists x. by eapply lookup_weaken.
Qed.

(** The outcome of processing orphans. *)
Record processed (c c' : Chainstate) (hs : list uint256) : Prop := {
  pr_inv : cs_inv c';
  pr_accepted : accepted c c';
  pr_total : total c' <= total c;
  pr_gone h : h ∈ hs -> m_orphan_headers c' !! h = None;
  pr_from : from c c' (fun _ => False);
  pr_same p b : index c !! p = Some b -> index c' !! p = Some b
}.

(** The outcome of accepting a header. *)
Definition outcome (c : Chainstate) (header : CBlockHeader) (st : ValidationState) (mpc : bool)
  (r : option block_ptr) (st' : ValidationState) (c' : Chainstate) : Prop :=
  match r with
  | None => c' = c /\ ~ known_valid c header /\ (forall st2, acceptable c header st st2 -> mpc = false)
  | Some p => p = Header.GetHash header /\
      ((known_valid c header /\ st' = st /\ c' = c) \/
       (acceptable c header st st' /\ mpc = true /\
        (exists b, index c' !! p = Some b /\ Idx.GetBlockHeader b = header /\ Idx.IsValid b BLOCK_VALID_TREE = true) /\
        forall h x, m_orphan_headers c' !! h = Some x -> hashPrevBlock (o_header x) <> p))
  end.

Record accepts_to (c : Chainstate) (header : CBlockHeader) (c' : Chainstate) : Prop := {
  at_inv : cs_inv c';
  at_accepted : accepted c c';
  at_total : total c' <= total c + 1;
  at_from : from c c' (fun q => q = Header.GetHash header);
  at_same p b : index c !! p = Some b -> index c' !! p = Some b
}.

Lemma waiting_elem c p h : h ∈ waiting_orphans c p <-> exists x, m_orphan_headers c !! h = Some x /\ hashPrevBlock (o_header x) = p.
Proof.
  unfold waiting_orphans. rewrite list_elem_of_In, filter_In, <- list_elem_of_In, sorted_keys_elem.
  destruct (m_orphan_headers c !! h) as [x|]; [|by split; [intros [[? ?] _]|intros (? & ? & _)]].
  rewrite bool_decide_eq_true. split; [intros [_ ?]; by exists x|]. intros (? & [= <-] & ?). split; [by eexists|done].
Qed.

Lemma processed_refl c : cs_inv c -> processed c c [].
Proof. intros Hc. split; [done|done|lia|by intros ? ?%not_elem_of_nil|intros q; by left|done]. Qed.

Lemma processed_trans c1 c2 c3 hs hs' : processed c1 c2 hs -> processed c2 c3 hs' -> processed c1 c3 (hs ++ hs').
Proof.
  intros [H1 A1 T1 G1 F1 S1] [H2 A2 T2 G2 F2 S2]. split; [done|by etrans|lia| | |].
  - intros h [Hh|Hh]%elem_of_app; [|by apply G2]. destruct (m_orphan_headers c3 !! h) as [x|] eqn:E; [|done].
    specialize (G1 h Hh). by rewrite (lookup_weaken _ _ _ _ E (ac_orphans _ _ A2)) in G1.
  - eapply from_trans; [apply A1|done|done].
  - intros p b Hp. by apply S2, S1.
Qed.

Section Process.
Context (fuel : nat).
Context (acc : Chainstate -> CBlockHeader -> ValidationState -> bool -> option (option block_ptr * ValidationState * Chainstate)).
Hypothesis Hacc : forall c header st mpc, cs_inv c -> header_wf header -> total c < 2 ^ 31 ->
  (size (m_orphan_headers c) < fuel)%nat ->
  exists r st' c', acc c header st mpc = Some (r, st', c') /\ accepts_to c header c' /\ outcome c header st mpc r st' c'.

Lemma process_orphan_ok c h : cs_inv c -> total c <= 2 ^ 31 -> (size (m_orphan_headers c) <= fuel)%nat ->
  exists c', process_orphan acc h c = Some c' /\ processed c c' [h].
Proof.
  intros (Hwf & Hst & Hlc) Ht Hf. unfold process_orphan. destruct (m_orphan_headers c !! h) as [x|] eqn:Hx.
  2:{ exists c. split; [done|]. split; [done|done|lia| |intros q; by left|done]. by intros h' ->%list_elem_of_singleton. }
  destruct (drop_orphan_wf g c h x Hwf Hx) as (p & -> & Hwf1). set (c1 := with_orphans _ p c) in *.
  destruct (with_orphans_fields (delete h (m_orphan_headers c)) p c) as (Ei & Ea & Es & Ef & Eb & Ed). fold c1 in Ei, Ea, Es, Ef, Eb, Ed.
  assert (Eo : m_orphan_headers c1 = delete h (m_orphan_headers c)) by apply with_orphans_orphans.
  pose proof (delete_size _ h x Hx) as Hsz.
  destruct (Hacc c1 (o_header x) Val.fresh true) as (r & st' & c' & -> & [Hinv Hac Htot Hfr Hsm] & _).
  { split_and!; [done|by rewrite Ei|by rewrite Ei]. }
  { by apply (cw_headers g c Hwf h). }
  { unfold total in *. rewrite Ei, Eo. lia. }
  { rewrite Eo. lia. }
  exists c'. split; [done|]. destruct Hac as [A1 A2 A3 A4 A5 A6 A7]. rewrite Ei, ?Ea, ?Es, ?Ef, ?Eb, ?Ed, ?Eo in *.
  assert (Hsub : delete h (m_orphan_headers c) ⊆ m_orphan_headers c) by apply delete_subseteq.
  split; [done| | | | |done].
  - split; try done. by etrans.
  - unfold total in *. rewrite Ei, Eo in Htot. lia.
  - intros h' ->%list_elem_of_singleton. destruct (m_orphan_headers c' !! h) as [y|] eqn:E; [|done].
    apply (lookup_weaken _ _ _ _ E) in A4. by rewrite lookup_delete_eq in A4.
  - intros q Hq. destruct (Hfr q Hq) as [Hi|[->|[y Hy]]]; [left; by rewrite Ei in Hi| |].
    + right; right. rewrite <- (pw_keys c (cw_pool g c Hwf) h x Hx). by exists x.
    + right; right. exists y. rewrite Eo in Hy. by eapply lookup_weaken.
Qed.

Lemma process_all_ok hs c : cs_inv c -> total c <= 2 ^ 31 -> (size (m_orphan_headers c) <= fuel)%nat ->
  exists c', process_all acc hs c = Some c' /\ processed c c' hs.
Proof.
  revert c. induction hs as [|h hs IH]; intros c Hc Ht Hf; cbn [process_all].
  { exists c. split; [done|by apply processed_refl]. }
  destruct (process_orphan_ok c h Hc Ht Hf) as (c1 & -> & H1).
  destruct (IH c1) as (c2 & -> & H2).
  - apply H1.
  - pose proof (pr_total _ _ _ H1). lia.
  - pose proof (ac_orphans _ _ (pr_accepted _ _ _ H1)) as Hsub.
    etrans; [|exact Hf]. rewrite <- !size_dom. by apply subseteq_size, subseteq_dom.
  - exists c2. split; [done|]. by apply (processed_trans c c1 c2 [h] hs).
Qed.
End Process.

Lemma inserted_total c header pb c' : index c !! Header.GetHash header = None -> inserted g c header pb now c' ->
  total c' = total c + 1.
Proof.
  intros Hn Hin. unfold total. rewrite (in_orphans _ _ _ _ _ _ Hin), (same_size _ _ (in_tree _ _ _ _ _ _ Hin)).
  rewrite map_size_insert_None by done. lia.
Qed.

Lemma accept_ok fuel c header st mpc : cs_inv c -> header_wf header -> total c < 2 ^ 31 ->
  (size (m_orphan_headers c) < fuel)%nat ->
  exists r st' c', accept params now adjusted_time fuel c header st mpc = Some (r, st', c') /\
    accepts_to c header c' /\ outcome c header st mpc r st' c'.
Proof.
  revert c header st mpc. induction fuel as [|fuel IH]; intros c header st mpc Hc Hh Ht Hf; [lia|]. cbn [accept].
  assert (Hself : accepts_to c header c) by (split; [done|done|lia|intros q; by left|done]).
  assert (Hsz : Z.of_nat (size (index c)) < 2 ^ 31) by (unfold total in Ht; lia).
  destruct (accept_checks_ok c header st mpc Hc Hh Hsz) as [st' Hno Hk|Hk|st' c1 pb Hacc -> Hin Hc1].
  - by exists None, st', c.
  - exists (Some (Header.GetHash header)), st, c. split_and!; [done..|]. split; [done|]. by left.
  - pose proof (inserted_total c header pb c1 (proj1 Hacc) Hin) as Htot.
    destruct (process_all_ok fuel _ IH (waiting_orphans c1 (Header.GetHash header)) c1 Hc1) as (c2 & -> & Hp).
    { lia. }
    { rewrite (in_orphans _ _ _ _ _ _ Hin). lia. }
    destruct Hp as [P1 P2 P3 P4 P5 P6]. destruct Hin as [I1 (b & Hb & Ehd & Hv & _) I3 I4 I5 I6 I7].
    exists (Some (Header.GetHash header)), st', c2. split; [done|]. split.
    + split; [done|by etrans|lia| |].
      * intros q Hq. destruct (P5 q Hq) as [Hq1|[[]|Hq1]]; [|right; right; by rewrite <- I4].
        destruct (decide (q = Header.GetHash header)) as [->|Hne]; [by right; left|]. left. by rewrite <- I3.
      * intros p bp Hpb. apply P6. rewrite I3; [done|]. intros ->. destruct Hacc as (Hn & _). congruence.
    + split; [done|]. right. split_and!; [done|done| |].
      * exists b. split_and!; [by apply P6|done|done].
      * intros h x Hx E. pose proof (ac_orphans _ _ P2) as Hsub. pose proof (lookup_weaken _ _ _ _ Hx Hsub) as Hx1.
        rewrite (P4 h) in Hx; [done|]. apply waiting_elem. by exists x.
Qed.
End Accepting.
