(* ===== verification/Activation.v ===== *)
(** * Activation: best-chain activation, initial download, loading and invalidation

    The rest of [ChainstateManager] ([chain/chainstate_manager.cpp]). *)
From Stdlib Require Import String.
From S2P Require Import Prelude Arith Bytes Compact Sha256 Block BlockIndex Chain ChainParams Pow RandomX Validation.
From S2P Require Import ChainSelector BlockManager Persist Chainstate.
#[local] Open Scope Z_scope.
Import Idx (CBlockIndex, mkIndex, nHeight, pprev, pskip, nChainWork, nStatus, nTimeMax, nTimeReceived).
Import CS.

Module Act.

(** ** Moving the tip *)

(** [ConnectTip]: outer [None] is a dangling pointer. *)
Definition ConnectTip (c : Chainstate) (pindexNew : option block_ptr) (events : list event)
  : option (bool * Chainstate * list event) :=
  match pindexNew with
  | None => Some (false, c, events)
  | Some p =>
      match BM.SetActiveTip (block_manager_ c) p, index c !! p with
      | Some bm, Some b =>
          Some (true, with_bm bm c, events ++ [BlockConnected (Idx.GetBlockHeader b) p (nHeight b)])
      | _, _ => None
      end
  end.

(** [DisconnectTip]. *)
Definition DisconnectTip (c : Chainstate) (events : list event) : option (bool * Chainstate * list event) :=
  match tip c with
  | None => Some (false, c, events)
  | Some p =>
      match index c !! p with
      | None => None
      | Some b =>
          match pprev b with
          | None => Some (false, c, events)
          | Some q =>
              match BM.SetActiveTip (block_manager_ c) q with
              | Some bm => Some (true, with_bm bm c, events ++ [BlockDisconnected (Idx.GetBlockHeader b) p (nHeight b)])
              | None => None
              end
          end
      end
  end.

(** The disconnect loop: back to the fork, with the list of disconnected blocks. *)
Fixpoint disconnect_to (fuel : nat) (c : Chainstate) (pindexFork : block_ptr) (pindexWalk : option block_ptr)
  (disconnected : list block_ptr) (events : list event) : option (bool * Chainstate * list block_ptr * list event) :=
  match pindexWalk with
  | None => Some (true, c, disconnected, events)
  | Some w =>
      if bool_decide (w = pindexFork) then Some (true, c, disconnected, events)
      else match fuel with
      | O => None
      | S fuel =>
          match DisconnectTip c events with
          | None => None
          | Some (false, c, events) => Some (false, c, disconnected ++ [w], events)
          | Some (true, c, events) => disconnect_to fuel c pindexFork (tip c) (disconnected ++ [w]) events
          end
      end
  end.

(** The list of blocks from the new tip down to the fork (exclusive). *)
Fixpoint connect_list (fuel : nat) (m : block_map) (pindexFork : option block_ptr) (pindexWalk : option block_ptr)
  : option (list block_ptr) :=
  match pindexWalk with
  | None => Some []
  | Some w =>
      if bool_decide (Some w = pindexFork) then Some []
      else match fuel with
      | O => None
      | S fuel => match connect_list fuel m pindexFork (deref pprev None m w) with
                  | Some l => Some (w :: l)
                  | None => None
                  end
      end
  end.

(** Connecting blocks in order; the flag is false at the first failure. *)
Fixpoint connect_all (c : Chainstate) (blocks : list block_ptr) (events : list event)
  : option (bool * Chainstate * list event) :=
  match blocks with
  | [] => Some (true, c, events)
  | p :: rest =>
      match ConnectTip c (Some p) events with
      | Some (true, c, events) => connect_all c rest events
      | r => r
      end
  end.

(** The rollback after a failed connection: down to the fork, then up the old chain. *)
Fixpoint rollback_to (fuel : nat) (c : Chainstate) (pindexFork : option block_ptr) (events : list event)
  : option (bool * Chainstate * list event) :=
  if bool_decide (tip c = pindexFork) then Some (true, c, events)
  else match fuel with
  | O => None
  | S fuel =>
      match DisconnectTip c events with
      | Some (true, c, events) => rollback_to fuel c pindexFork events
      | r => r
      end
  end.

Definition rollback (fuel : nat) (c : Chainstate) (pindexFork : option block_ptr) (disconnected : list block_ptr)
  (events : list event) : option (ActivateResult * Chainstate) :=
  match rollback_to fuel c pindexFork events with
  | None => None
  | Some (false, c, _) => Some (SYSTEM_ERROR, c)
  | Some (true, c, events) =>
      match connect_all c (rev disconnected) events with
      | None => None
      | Some (false, c, _) => Some (SYSTEM_ERROR, c)
      | Some (true, c, _) => Some (if bool_decide (tip c = None) then SYSTEM_ERROR else CONSENSUS_INVALID, c)
      end
  end.

(** The switch itself, once the policy allows it. *)
Definition switch_chain (c : Chainstate) (pindexOldTip pindexFork : option block_ptr) (pindexMostWork : block_ptr)
  (events : list event) : option (ActivateResult * Chainstate * list event) :=
  let m := index c in
  let fuel p := S (Z.to_nat (deref nHeight 0 m p)) in
  let disc :=
    match pindexOldTip, pindexFork with
    | Some o, Some f => disconnect_to (fuel o) c f (Some o) [] []
    | _, _ => Some (true, c, [], [])
    end in
  match disc with
  | None => None
  | Some (false, c, _, _) => Some (SYSTEM_ERROR, c, events)
  | Some (true, c, disconnected, local) =>
      match connect_list (fuel pindexMostWork) m pindexFork (Some pindexMostWork) with
      | None => None
      | Some connect =>
          match connect_all c (rev connect) local with
          | None => None
          | Some (false, c, local) =>
              match rollback (fuel pindexMostWork) c pindexFork disconnected local with
              | Some (r, c) => Some (r, c, events)
              | None => None
              end
          | Some (true, c, local) =>
              let local := local ++ [ChainTip pindexMostWork (deref nHeight 0 m pindexMostWork)] in
              let c := update_sel (Selector.PruneBlockIndexCandidates (index c) (active c)) c in
              Some (OK, c, events ++ local)
          end
      end
  end.

(** The reorganisation depth that policy looks at. *)
Definition reorg_depth (m : block_map) (o f : option block_ptr) : Z :=
  match o, f with
  | Some o, Some f => deref nHeight 0 m o - deref nHeight 0 m f
  | _, _ => 0
  end.

(** [ActivateBestChainStep]. *)
Definition ActivateBestChainStep (c : Chainstate) (pindexMostWork : option block_ptr) (events : list event)
  : option (ActivateResult * Chainstate * list event) :=
  match pindexMostWork with
  | None => Some (OK, c, events)
  | Some w =>
      let m := index c in
      let pindexOldTip := tip c in
      if bool_decide (pindexOldTip = Some w) then Some (OK, c, events)
      else if match pindexOldTip with
              | Some o => deref nChainWork 0 m w <=? deref nChainWork 0 m o
              | None => false
              end then Some (OK, c, events)
      else match LastCommonAncestor m pindexOldTip (Some w) with
      | None => None
      | Some pindexFork =>
          if bool_decide (pindexFork = None) && negb (bool_decide (pindexOldTip = None)) then
            Some (CONSENSUS_INVALID, c, events)
          else if bool_decide (is_Some pindexOldTip) && bool_decide (is_Some pindexFork) &&
                  (0 <? suspicious_reorg_depth_ c) &&
                  (suspicious_reorg_depth_ c <=? reorg_depth m pindexOldTip pindexFork) then
            Some (POLICY_REFUSED, c, events)
          else switch_chain c pindexOldTip pindexFork w events
      end
  end.

(** The loop of [ActivateBestChain]. *)
Fixpoint activate_loop (fuel : nat) (c : Chainstate) (pindexMostWork : option block_ptr) (events : list event)
  : option (bool * Chainstate * list event) :=
  match fuel with
  | O => None
  | S fuel =>
      let '(w, c) :=
        match pindexMostWork with
        | Some w => (Some w, c)
        | None => let '(w, s) := Selector.FindMostWorkChain (index c) (chain_selector_ c) in (w, with_sel s c)
        end in
      match w with
      | None => Some (true, c, events)
      | Some w =>
          if bool_decide (tip c = Some w) then Some (true, c, events)
          else match ActivateBestChainStep c (Some w) events with
          | None => None
          | Some (OK, c, events) => Some (true, c, events)
          | Some (POLICY_REFUSED, c, events) =>
              activate_loop fuel (update_sel (Selector.RemoveCandidate (index c) (Some w)) c) None events
          | Some (CONSENSUS_INVALID, c, events) =>
              let c := update_entry (set_status_bits BLOCK_FAILED_VALID) w c in
              let c := with_failed ({[w]} ∪ m_failed_blocks c) c in
              activate_loop fuel (update_sel (Selector.RemoveCandidate (index c) (Some w)) c) None events
          | Some (SYSTEM_ERROR, c, events) => Some (false, c, events)
          end
      end
  end.

(** [ActivateBestChain]: every iteration but the last removes a candidate, the first possibly one
    that is not in the set. *)
Definition ActivateBestChain (c : Chainstate) (pindexMostWork : option block_ptr) : option (bool * Chainstate * list event) :=
  activate_loop (S (S (length (Selector.m_candidates (chain_selector_ c))))) c pindexMostWork [].

(** [TryAddBlockIndexCandidate]. *)
Definition TryAddBlockIndexCandidate (c : Chainstate) (pindex : option block_ptr) : option Chainstate :=
  match Selector.TryAddBlockIndexCandidate (index c) pindex (chain_selector_ c) with
  | Some s => Some (with_sel s c)
  | None => None
  end.

(** [ProcessNewBlockHeader]. *)
Definition ProcessNewBlockHeader `{HeaderChecks} (params : ChainParams) (now adjusted_time : Z) (c : Chainstate)
  (header : CBlockHeader) (state : ValidationState) : option (bool * ValidationState * Chainstate * list event) :=
  match AcceptBlockHeader params now adjusted_time c header state true with
  | None => None
  | Some (None, state, c) => Some (false, state, c, [])
  | Some (Some p, state, c) =>
      match TryAddBlockIndexCandidate c (Some p) with
      | None => None
      | Some c =>
          match ActivateBestChain c None with
          | Some (r, c, events) => Some (r, state, c, events)
          | None => None
          end
      end
  end.

(** ** Queries *)

Definition GetLocator (c : Chainstate) (pindex : option block_ptr) : option CBlockLocator :=
  match pindex with
  | Some p => CChain.GetLocator_of (index c) (Some p)
  | None => CChain.GetLocator (index c) (active c)
  end.
Definition IsOnActiveChain (c : Chainstate) (pindex : option block_ptr) : bool :=
  bool_decide (is_Some pindex) && CChain.Contains (index c) (active c) pindex.
Definition GetBlockAtHeight (c : Chainstate) (height : Z) : option block_ptr :=
  if (height <? 0) || (CChain.Height (active c) <? height) then None else CChain.at_height (active c) height.

(** [IsInitialBlockDownload], which latches. *)
Definition IsInitialBlockDownload (params : ChainParams) (now : Z) (c : Chainstate) : bool * Chainstate :=
  if m_cached_finished_ibd c then (false, c)
  else match tip c with
  | None => (true, c)
  | Some t =>
      if deref nHeight 0 (index c) t =? 0 then (true, c)
      else if deref Idx.nTime 0 (index c) t <? now - 12 * 3600 then (true, c)
      else if deref nChainWork 0 (index c) t <? Pow.arith_of (nMinimumChainWork (consensus params)) then (true, c)
      else (false, with_ibd true c)
  end.

(** ** Initialisation and loading *)

Definition Initialize (c : Chainstate) (genesis_header : CBlockHeader) : option (bool * Chainstate) :=
  match BM.Initialize (block_manager_ c) genesis_header with
  | None => None
  | Some (false, bm) => Some (false, with_bm bm c)
  | Some (true, bm) =>
      let c := with_bm bm c in
      match tip c with
      | None => Some (true, c)
      | Some g =>
          let c := update_entry (fun b => snd (Idx.RaiseValidity b BLOCK_VALID_TREE)) g c in
          let c := update_sel (Selector.AddCandidateUnchecked (index c) (Some g)) c in
          Some (true, update_sel (Selector.SetBestHeader (Some g)) c)
      end
  end.

(** [Load]: the block manager's, then every valid leaf becomes a candidate. *)
Definition load_leaf (m : block_map) (s : Selector.state) (h : block_ptr) : Selector.state :=
  if Selector.has_children m h then s
  else match m !! h with
  | Some b => if Idx.IsValid b BLOCK_VALID_TREE
              then Selector.UpdateBestHeader m (Some h) (Selector.AddCandidateUnchecked m (Some h) s)
              else s
  | None => s
  end.

Definition Load (params : ChainParams) (c : Chainstate) (file : option json) : bool * Chainstate :=
  match Persist.Load (block_manager_ c) file (hashGenesisBlock (consensus params)) with
  | (false, bm) => (false, with_bm bm c)
  | (true, bm) =>
      let c := with_bm bm c in
      let s := Selector.SetBestHeader None (Selector.ClearCandidates (chain_selector_ c)) in
      (true, with_sel (foldl (load_leaf (index c)) s (Persist.sorted_keys (index c))) c)
  end.

Definition Save (c : Chainstate) : json := Persist.Save (block_manager_ c).

(** ** Invalidation *)

(** The pre-built fork candidates.  The source keeps them in a multimap by work; they only go into
    the candidate set, so their order does not matter. *)
Definition fork_candidates (c : Chainstate) (bp : CBlockIndex) : list block_ptr :=
  List.filter (fun h =>
    match index c !! h with
    | Some b => negb (CChain.Contains (index c) (active c) (Some h)) && (nChainWork bp <=? nChainWork b) &&
                Idx.IsValid b BLOCK_VALID_TREE
    | None => false
    end) (Persist.sorted_keys (index c)).

(** The disconnect loop of [InvalidateBlock]: each parent and each fork with at least its work becomes
    a candidate. *)
Fixpoint invalidate_loop (fuel : nat) (c : Chainstate) (pindex : block_ptr) (forks : list block_ptr) (events : list event)
  : option (bool * Chainstate * list event) :=
  if negb (bool_decide (is_Some (tip c))) || negb (CChain.Contains (index c) (active c) (Some pindex)) then
    Some (true, c, events)
  else match fuel, tip c with
  | S fuel, Some t =>
      match DisconnectTip c events with
      | None => None
      | Some (false, c, events) => Some (false, c, events)
      | Some (true, c, events) =>
          let m := index c in
          let c := update_sel (Selector.RemoveCandidate m (Some t)) c in
          match deref pprev None m t with
          | None => invalidate_loop fuel c pindex forks events
          | Some q =>
              let viable f := deref nChainWork 0 m q <=? deref nChainWork 0 m f in
              let c := update_sel (Selector.AddCandidateUnchecked m (Some q)) c in
              let c := update_sel (fun s => foldl (fun s f => Selector.AddCandidateUnchecked m (Some f) s) s (List.filter viable forks)) c in
              invalidate_loop fuel c pindex (List.filter (fun f => negb (viable f)) forks) events
          end
      end
  | _, _ => None
  end.

(** Marking a descendant: [FAILED_CHILD] replaces [FAILED_VALID]. *)
Definition mark_descendant (b : CBlockIndex) : CBlockIndex :=
  Idx.set_nStatus (Z.lor (Z.land (nStatus b) (2 ^ 32 - 1 - BLOCK_FAILED_VALID)) BLOCK_FAILED_CHILD) b.

Definition is_descendant (m : block_map) (pindex h : block_ptr) : bool :=
  bool_decide (GetAncestor m h (deref nHeight 0 m pindex) = Some (Some pindex)).

Definition mark_step (pindex : block_ptr) (c : Chainstate) (h : block_ptr) : Chainstate :=
  if bool_decide (h = pindex) then c
  else if is_descendant (index c) pindex h then
    let c := update_entry mark_descendant h c in
    let c := with_failed ({[h]} ∪ m_failed_blocks c) c in
    update_sel (Selector.RemoveCandidate (index c) (Some h)) c
  else c.

(** The final scan: valid leaves with at least the tip's work become candidates. *)
Definition final_step (t : block_ptr) (c : Chainstate) (h : block_ptr) : Chainstate :=
  match index c !! h with
  | Some b =>
      if Idx.IsValid b BLOCK_VALID_TREE && (deref nChainWork 0 (index c) t <=? nChainWork b) &&
         negb (Selector.has_children (index c) h)
      then update_sel (Selector.AddCandidateUnchecked (index c) (Some h)) c
      else c
  | None => c
  end.

(** Step 3 of [InvalidateBlock] and the final cleanup. *)
Definition invalidate_mark (c : Chainstate) (pindex : block_ptr) : Chainstate :=
  let c := update_entry (set_status_bits BLOCK_FAILED_VALID) pindex c in
  let c := with_failed ({[pindex]} ∪ m_failed_blocks c) c in
  let c := update_sel (Selector.RemoveCandidate (index c) (Some pindex)) c in
  foldl (mark_step pindex) c (Persist.sorted_keys (index c)).

Definition InvalidateBlock (c : Chainstate) (hash : uint256) : option (bool * Chainstate * list event) :=
  match index c !! hash with
  | None => Some (false, c, [])
  | Some b =>
      if nHeight b =? 0 then Some (false, c, [])
      else
        let forks := match pprev b with
                     | Some q => match index c !! q with Some bp => fork_candidates c bp | None => [] end
                     | None => []
                     end in
        match invalidate_loop (length (active c)) c hash forks [] with
        | None => None
        | Some (false, c, _) => Some (false, c, [])
        | Some (true, c, events) =>
            if CChain.Contains (index c) (active c) (Some hash) then Some (false, c, [])
            else
              let c := invalidate_mark c hash in
              let c := match tip c with
                       | Some t => foldl (final_step t) c (Persist.sorted_keys (index c))
                       | None => c
                       end in
              Some (true, c, events)
        end
  end.

(** [CheckHeadersPoW] over the virtual check. *)
Fixpoint CheckHeadersPoW `{HeaderChecks} (headers : list CBlockHeader) : option bool :=
  match headers with
  | [] => Some true
  | header :: rest =>
      match hc_pow header COMMITMENT_ONLY with
      | Some true => CheckHeadersPoW rest
      | r => r
      end
  end.

End Act.
