(* ===== verification/NodeChecks.v ===== *)
(** * NodeChecks: the default header checks discharge the interface

    [node_checks] (RandomX proof of work and the contextual rules) is a lawful
    implementation of [HeaderChecks], so the theorems of [Accept] hold for the node, and a
    header enters the index exactly when it obeys the consensus rules. *)
From Stdlib Require Import String.
From S2P Require Import Prelude Arith Bytes Compact Sha256 Block BlockIndex Chain ChainParams Pow RandomX Validation.
From S2P Require Import ChainSelector BlockManager SameTree Persist Chainstate OrphanPool Accept.
#[local] Open Scope Z_scope.
Import Idx (CBlockIndex, mkIndex, nHeight, pprev, pskip, nChainWork, nStatus, nTimeMax, nTimeReceived).
Import CS.

(** The ASERT anchors (the blocks of height 1) have targets within the limit. *)
Definition anchors_ok (params : ChainParams) (m : block_map) : Prop :=
  forall a ba, m !! a = Some ba -> nHeight ba = 1 -> chainType params <> REGTEST ->
    bits_within (Pow.arith_of (powLimit (consensus params))) (Idx.nBits ba).

Section Node.
Context `{RandomXLib} (host : Endian.host) (rx : Rx.state) (params : ChainParams) (g : uint256).
(** RandomX is initialised, the caches of the thread are genuine, and its allocations succeed. *)
Context (Hrx : caches_ok rx) (Hinit : Rx.g_randomx_initialized rx = true)
  (Halloc : forall header, is_Some (rx_hash_of host params header)) (Hparams : params_wf params).

(** The rules a header must obey below the block [prev]. *)
Record consensus_rules (m : block_map) (header : CBlockHeader) (adjusted_time : Z) : Prop := {
  cr_work : commitment_ok host header (nBits header) (hashRandomX header) /\ Blob.IsNull (hashRandomX header) = false /\
            rx_hash_of host params header = Some (hashRandomX header);
  cr_bits : Pow.GetNextWorkRequired m (Some (hashPrevBlock header)) params = Some (nBits header);
  cr_time : GetMedianTimePast m (hashPrevBlock header) < nTime header <= adjusted_time + 7200;
  cr_version : 1 <= nVersion header;
  cr_expiry : nNetworkExpirationInterval (consensus params) <= 0 \/
              deref nHeight 0 m (hashPrevBlock header) + 1 < nNetworkExpirationInterval (consensus params)
}.

#[local] Instance checks : HeaderChecks := node_checks host rx params.

Lemma header_bits header : header_wf header -> in_u 32 (nBits header).
Proof. by intros (_ & _ & _ & _ & Hb & _). Qed.

Lemma node_pow header : header_wf header ->
  exists ok, hc_pow header COMMITMENT_ONLY = Some ok /\
    (ok = true <-> commitment_ok host header (nBits header) (hashRandomX header) /\ Blob.IsNull (hashRandomX header) = false).
Proof.
  intros Hh. cbn [hc_pow checks node_checks].
  pose proof (check_commitment host rx header (nBits header) params (header_bits header Hh)) as Hiff. unfold accepts in Hiff.
  destruct (check_commitment_returns host rx header (nBits header) params) as [[ok o] E]. rewrite E in *.
  exists ok. split; [done|]. rewrite <- Hiff. split; [intros ->; by eexists|]. by intros [? [= -> _]].
Qed.

Lemma node_header header st : header_wf header ->
  exists ok st', hc_header header st = Some (ok, st') /\ (ok = true -> st' = st) /\
    (ok = true <-> commitment_ok host header (nBits header) (hashRandomX header) /\ Blob.IsNull (hashRandomX header) = false /\
                   rx_hash_of host params header = Some (hashRandomX header)).
Proof.
  intros Hh. cbn [hc_header checks node_checks]. unfold Val.CheckBlockHeader.
  pose proof (check_full host rx header (nBits header) params Hrx Hinit (header_bits header Hh)) as Hiff. unfold accepts in Hiff.
  destruct (check_full_returns host rx header (nBits header) params Hrx Hinit (Halloc header)) as [[ok o] E].
  destruct (Rx.CheckProofOfWork host rx header (nBits header) params FULL false) as [r rx']. cbn [fst] in *. subst r.
  destruct ok; cbn [negb fst]; eexists _, _; (split; [done|]); (split; [done|]); rewrite <- Hiff; (split; [|]); try done.
  - intros _. by eexists.
  - by intros [? ?].
Qed.

Lemma index_height_bound m p b : index_wf g m -> m !! p = Some b -> Z.of_nat (size m) < 2 ^ 31 -> nHeight b < 2 ^ 31.
Proof. intros Hi Hp Hs. pose proof (height_size g m Hi p b Hp). lia. Qed.

Lemma node_context m header now st bp : index_wf g m -> anchors_ok params m -> m !! hashPrevBlock header = Some bp ->
  Z.of_nat (size m) < 2 ^ 31 ->
  exists ok st', hc_context m header (Some (hashPrevBlock header)) now st = Some (ok, st') /\ (ok = true -> st' = st) /\
    (ok = true <-> Pow.GetNextWorkRequired m (Some (hashPrevBlock header)) params = Some (nBits header) /\
       GetMedianTimePast m (hashPrevBlock header) < nTime header <= now + 7200 /\ 1 <= nVersion header /\
       (nNetworkExpirationInterval (consensus params) <= 0 \/ nHeight bp + 1 < nNetworkExpirationInterval (consensus params))).
Proof.
  intros Hi Ha Hp Hs.
  destruct (contextual_check_ok m header _ bp params now st (index_tree g m Hi) (index_fields g m Hi) Hparams Hp
    (index_height_bound m _ bp Hi Hp Hs) Ha) as ([ok st'] & E & Hiff & Hst). cbn [fst snd] in *.
  exists ok, st'. split; [exact E|]. split; [|done]. intros ->. done.
Qed.

Lemma child_anchor m header pb : index_wf g m -> anchors_ok params m -> Z.of_nat (size m) < 2 ^ 31 ->
  m !! hashPrevBlock header = Some pb ->
  Pow.GetNextWorkRequired m (Some (hashPrevBlock header)) params = Some (nBits header) ->
  anchors_ok params (<[Header.GetHash header := child_entry m header (hashPrevBlock header) pb]> m).
Proof.
  intros Hi Ha Hs Hp Hbits a ba. rewrite lookup_insert_Some. intros [[_ <-]|[_ Hba]]; [|by apply (Ha a)]. intros _ _.
  destruct (next_work_ok m (Some (hashPrevBlock header)) params (index_tree g m Hi) (index_fields g m Hi) Hparams
    (ex_intro _ pb (conj Hp (index_height_bound m _ pb Hi Hp Hs))) Ha) as (w & Ew & _ & Hw).
  rewrite Ew in Hbits. injection Hbits as ->. exact Hw.
Qed.

#[local] Instance node_lawful : LawfulChecks g.
Proof.
  refine {| lc_inv := anchors_ok params |}.
  - intros m m' Hs Ha a ba Hba. destruct (same_lookup m' m a ba (symmetry Hs) Hba) as (b & Hb & E).
    rewrite <- (shape_eq nHeight ba b E), <- (shape_eq Idx.nBits ba b E). by apply (Ha a).
  - intros header Hh. destruct (node_pow header Hh) as (ok & -> & _). done.
  - intros header st Hh. destruct (node_header header st Hh) as (ok & st' & -> & _). done.
  - intros m header now st Hi Ha Hh [bp Hp] Hs.
    destruct (node_context m header now st bp Hi Ha Hp Hs) as (ok & st' & -> & _). done.
  - intros m header now st st' pb Hi Ha Hh _ Hp Hs E.
    destruct (node_context m header now st pb Hi Ha Hp Hs) as (ok & st2 & E2 & _ & Hiff).
    rewrite E2 in E. injection E as -> _. apply child_anchor; [done..|]. by apply Hiff.
Defined.

(** A header is acceptable exactly when it is new, its parent is known and has not failed,
    and it obeys the rules. *)
Lemma node_acceptable c header adjusted_time st st' : index_wf g (index c) -> anchors_ok params (index c) ->
  header_wf header -> Z.of_nat (size (index c)) < 2 ^ 31 ->
  acceptable adjusted_time c header st st' <->
  st' = st /\ index c !! Header.GetHash header = None /\ Blob.IsNull (hashPrevBlock header) = false /\
  (exists bp, index c !! hashPrevBlock header = Some bp /\ failed bp = false) /\
  consensus_rules (index c) header adjusted_time.
Proof.
  intros Hi Ha Hh Hs. unfold acceptable. destruct (node_pow header Hh) as (pow & -> & Hpow). split.
  - intros (Hn & [= ->] & Hnull & bp & st1 & Hp & Hf & Ec & Eh).
    destruct (node_context (index c) header adjusted_time st bp Hi Ha Hp Hs) as (ok & st2 & Ec2 & Est & Hctx).
    rewrite Ec2 in Ec. injection Ec as -> ->. specialize (Est eq_refl). subst st1.
    destruct (node_header header st Hh) as (ok & st3 & Eh2 & Est & Hfull). rewrite Eh2 in Eh. injection Eh as -> ->.
    destruct (proj1 Hctx eq_refl) as (? & ? & ? & ?).
    split_and!; [by apply Est|done|done|by exists bp|]. split; [by apply Hfull|done|done|done|].
    by rewrite (deref_eq nHeight 0 _ _ bp Hp).
  - intros (-> & Hn & Hnull & (bp & Hp & Hf) & [[Hc1 [Hc2 Hc3]] Hb Ht Hv He]).
    rewrite (deref_eq nHeight 0 _ _ bp Hp) in He.
    split_and!; [done|f_equal; by apply Hpow|done|]. exists bp, st.
    destruct (node_context (index c) header adjusted_time st bp Hi Ha Hp Hs) as (ok & st2 & -> & Est & Hctx).
    rewrite (proj2 Hctx) in * by done. rewrite (Est eq_refl).
    destruct (node_header header st Hh) as (ok' & st3 & -> & Est' & Hfull). rewrite (proj2 Hfull) in * by done.
    by rewrite (Est' eq_refl).
Qed.
End Node.
