(* ===== verification/Reorg.v ===== *)
(** * Reorg: moving the tip, reorganisation policy and activation

    Theorems about [ConnectTip], [DisconnectTip], [ActivateBestChainStep] and
    [ActivateBestChain] of [Activation], on states that satisfy the invariant of [Accept]. *)
From Stdlib Require Import String.
From S2P Require Import Prelude Arith Bytes Compact Sha256 Block BlockIndex Chain ChainParams Pow RandomX Validation.
From S2P Require Import ChainSelector BlockManager SameTree Persist Chainstate OrphanPool Accept Activation.
#[local] Open Scope Z_scope.
Import Idx (CBlockIndex, mkIndex, nHeight, pprev, pskip, nChainWork, nStatus, nTimeMax, nTimeReceived).
Import CS.

(** The state with another tip. *)
Definition with_tip (p : block_ptr) (c : Chainstate) : Chainstate :=
  let b := block_manager_ c in
  with_bm (BM.mkBM (index c) (path (index c) p) (BM.m_genesis_hash b) (BM.m_initialized b)) c.

Lemma index_with_tip p c : index (with_tip p c) = index c.
Proof. by destruct c. Qed.
Lemma active_with_tip p c : active (with_tip p c) = path (index c) p.
Proof. by destruct c. Qed.
Lemma sel_with_tip p c : chain_selector_ (with_tip p c) = chain_selector_ c.
Proof. by destruct c. Qed.
Lemma with_tip_twice p q c : with_tip p (with_tip q c) = with_tip p c.
Proof. by destruct c. Qed.
Lemma depth_with_tip p c : suspicious_reorg_depth_ (with_tip p c) = suspicious_reorg_depth_ c.
Proof. by destruct c. Qed.

(** The notifications for one block. *)
Definition connected (m : block_map) (p : block_ptr) : event :=
  BlockConnected (deref Idx.GetBlockHeader regtest_genesis m p) p (deref nHeight 0 m p).
Definition disconnected (m : block_map) (p : block_ptr) : event :=
  BlockDisconnected (deref Idx.GetBlockHeader regtest_genesis m p) p (deref nHeight 0 m p).

(** The [n] blocks from [p] downwards. *)
Fixpoint down (n : nat) (m : block_map) (p : block_ptr) : list block_ptr :=
  match n with
  | O => []
  | S n => p :: match deref pprev None m p with Some q => down n m q | None => [] end
  end.

Section Moves.
Context (g : uint256).

Lemma tip_of c t : index_wf g (index c) -> is_Some (index c !! t) -> active c = path (index c) t -> tip c = Some t.
Proof. intros Hi [b Hb] Ha. unfold tip. rewrite Ha. by apply (path_tip _ (index_tree g _ Hi) t b). Qed.

Lemma with_tip_self c t : active c = path (index c) t -> with_tip t c = c.
Proof. destruct c as [[] ? ? ? ? ? ?]. unfold with_tip, active, index. cbn. by intros ->. Qed.

Lemma with_tip_wf c p : cs_wf g c -> is_Some (index c !! p) -> cs_wf g (with_tip p c).
Proof.
  intros [Hi Ha Hc Hk Hb Hp Hh] Hpin. split; rewrite ?index_with_tip, ?active_with_tip, ?sel_with_tip; try done.
  - by exists p.
  - eapply pool_wf_with; [| |exact Hp]; by destruct c.
  - intros h x Hx. apply (Hh h). by destruct c.
Qed.

Lemma set_active_ok c p : cs_wf g c -> is_Some (index c !! p) ->
  exists bm, BM.SetActiveTip (block_manager_ c) p = Some bm /\ with_bm bm c = with_tip p c.
Proof.
  intros Hwf [b Hb]. unfold BM.SetActiveTip. fold (index c) (active c).
  destruct (cw_active g c Hwf) as (t & [bt Ht] & Ha).
  rewrite (SetTip_ok (index c) (index_tree g _ (cw_index g c Hwf)) (active c) p b); [by eexists| |done].
  right. by exists t, bt.
Qed.

Lemma connect_ok c p ev : cs_wf g c -> is_Some (index c !! p) ->
  Act.ConnectTip c (Some p) ev = Some (true, with_tip p c, ev ++ [connected (index c) p]).
Proof.
  intros Hwf Hp. unfold Act.ConnectTip. destruct (set_active_ok c p Hwf Hp) as (bm & -> & E). destruct Hp as [b Hb].
  rewrite Hb, E. unfold connected. by rewrite !(deref_eq _ _ (index c) p b).
Qed.

Lemma disconnect_ok c t b q ev : cs_wf g c -> index c !! t = Some b -> active c = path (index c) t -> pprev b = Some q ->
  Act.DisconnectTip c ev = Some (true, with_tip q c, ev ++ [disconnected (index c) t]).
Proof.
  intros Hwf Ht Ha Hq. pose proof (cw_index g c Hwf) as Hi. unfold Act.DisconnectTip.
  rewrite (tip_of c t Hi (ex_intro _ b Ht) Ha), Ht, Hq.
  destruct (bw_parent _ _ _ _ (Hi t b Ht) q Hq) as (pb & Hpb & _).
  destruct (set_active_ok c q Hwf (ex_intro _ pb Hpb)) as (bm & -> & E). rewrite E.
  unfold disconnected. by rewrite !(deref_eq _ _ (index c) t b).
Qed.

(** Walking from [t] down to its ancestor [f]. *)
Lemma disconnect_to_ok fuel c t b f done_ ev : cs_wf g c -> index c !! t = Some b -> active c = path (index c) t ->
  ancestor (index c) f t -> nHeight b < Z.of_nat fuel ->
  let n := Z.to_nat (nHeight b - deref nHeight 0 (index c) f) in
  Act.disconnect_to fuel c f (Some t) done_ ev =
    Some (true, with_tip f c, done_ ++ down n (index c) t, ev ++ (disconnected (index c) <$> down n (index c) t)).
Proof.
  revert c t b done_ ev. induction fuel as [|fuel IH]; intros c t b done_ ev Hwf Ht Ha Hf Hh.
  { pose proof (bw_height _ _ _ _ (cw_index g c Hwf t b Ht)). lia. }
  pose proof (cw_index g c Hwf) as Hi. cbn zeta. cbn [Act.disconnect_to]. destruct (decide (t = f)) as [->|Hne].
  { rewrite bool_decide_true by done. rewrite (deref_eq nHeight 0 _ f b Ht), Z.sub_diag. cbn [Z.to_nat down fmap list_fmap].
    by rewrite !app_nil_r, with_tip_self. }
  rewrite bool_decide_false by done.
  destruct (ancestor_inv _ f t b Ht Hf) as [->|(q & Hq & Hfq)]; [done|].
  destruct (bw_parent _ _ _ _ (Hi t b Ht) q Hq) as (pb & Hpb & Hhq & _).
  rewrite (disconnect_ok c t b q ev Hwf Ht Ha Hq).
  assert (Hq1 : index (with_tip q c) !! q = Some pb) by by rewrite index_with_tip.
  rewrite (tip_of (with_tip q c) q); [|by rewrite index_with_tip|by eexists|by rewrite index_with_tip, active_with_tip].
  rewrite (IH (with_tip q c) q pb); [|by apply with_tip_wf; [|eexists]|done|by rewrite index_with_tip, active_with_tip|
    by rewrite index_with_tip|lia].
  rewrite !index_with_tip, with_tip_twice.
  destruct (ancestor_height _ (index_tree g _ Hi) f q pb Hpb Hfq) as (bf & Hbf & Hr & _).
  rewrite !(deref_eq nHeight 0 (index c) f bf Hbf).
  replace (Z.to_nat (nHeight b - nHeight bf)) with (S (Z.to_nat (nHeight pb - nHeight bf))) by lia.
  cbn [down]. rewrite (deref_eq pprev None _ t b Ht), Hq. cbn [fmap list_fmap]. by rewrite <- !app_assoc.
Qed.

Lemma connect_list_ok fuel m t b f : index_wf g m -> m !! t = Some b -> ancestor m f t -> nHeight b < Z.of_nat fuel ->
  Act.connect_list fuel m (Some f) (Some t) = Some (down (Z.to_nat (nHeight b - deref nHeight 0 m f)) m t).
Proof.
  intros Hi. revert t b. induction fuel as [|fuel IH]; intros t b Ht Hf Hh.
  { pose proof (bw_height _ _ _ _ (Hi t b Ht)). lia. }
  cbn [Act.connect_list]. destruct (decide (t = f)) as [->|Hne].
  { rewrite bool_decide_true by done. by rewrite (deref_eq nHeight 0 _ f b Ht), Z.sub_diag. }
  rewrite bool_decide_false by congruence. destruct (ancestor_inv _ f t b Ht Hf) as [->|(q & Hq & Hfq)]; [done|].
  destruct (bw_parent _ _ _ _ (Hi t b Ht) q Hq) as (pb & Hpb & Hhq & _).
  rewrite (deref_eq pprev None _ t b Ht), Hq, (IH q pb) by (done || lia).
  destruct (ancestor_height _ (index_tree g _ Hi) f q pb Hpb Hfq) as (bf & Hbf & Hr & _).
  rewrite !(deref_eq nHeight 0 m f bf Hbf).
  replace (Z.to_nat (nHeight b - nHeight bf)) with (S (Z.to_nat (nHeight pb - nHeight bf))) by lia.
  cbn [down]. by rewrite (deref_eq pprev None _ t b Ht), Hq.
Qed.

Lemma connect_all_ok c l ev : cs_wf g c -> Forall (fun p => is_Some (index c !! p)) l ->
  Act.connect_all c l ev =
    Some (true, match last l with Some p => with_tip p c | None => c end, ev ++ (connected (index c) <$> l)).
Proof.
  intros Hwf Hl. revert c ev Hwf Hl. induction l as [|p l IH]; intros c ev Hwf Hl; cbn [Act.connect_all].
  { by rewrite app_nil_r. }
  apply Forall_cons in Hl as [Hp Hl]. rewrite connect_ok by done.
  rewrite IH; [|by apply with_tip_wf|by rewrite index_with_tip].
  rewrite index_with_tip, <- app_assoc. do 3 f_equal. rewrite last_cons.
  destruct (last l); [by rewrite with_tip_twice|done].
Qed.
End Moves.

(** ** Switching chains *)

Definition switched (w : block_ptr) (c : Chainstate) : Chainstate :=
  update_sel (Selector.PruneBlockIndexCandidates (index c) (path (index c) w)) (with_tip w c).

(** The notifications of a switch from [t] to [w] through the fork [f]. *)
Definition switch_events (m : block_map) (t f w : block_ptr) : list event :=
  let n p := Z.to_nat (deref nHeight 0 m p - deref nHeight 0 m f) in
  (disconnected m <$> down (n t) m t) ++ (connected m <$> rev (down (n w) m w)) ++ [ChainTip w (deref nHeight 0 m w)].

Section Switch.
Context (g : uint256).

Lemma down_known n m p : index_wf g m -> is_Some (m !! p) -> Forall (fun q => is_Some (m !! q)) (down n m p).
Proof.
  intros Hi. revert p. induction n as [|n IH]; intros p Hp; cbn [down]; [constructor|]. constructor; [done|].
  destruct Hp as [b Hb]. rewrite (deref_eq pprev None m p b Hb). destruct (pprev b) as [q|] eqn:E; [|constructor].
  apply IH. destruct (bw_parent _ _ _ _ (Hi p b Hb) q E) as (pb & ? & _). by exists pb.
Qed.

Lemma fork_exists m a b : index_wf g m -> is_Some (m !! a) -> is_Some (m !! b) ->
  exists f bf, LastCommonAncestor m (Some a) (Some b) = Some (Some f) /\ is_common m (Some f) a b /\ m !! f = Some bf /\
    ancestor m f a /\ ancestor m f b.
Proof.
  intros Hi [ba Ha] [bb Hb]. pose proof (index_tree g m Hi) as Ht.
  destruct (LastCommonAncestor_ok m Ht a b ba bb Ha Hb) as (r & E & Hr).
  destruct (proj1 (Hr g)) as (f & -> & _).
  { split; eexists; eapply back_root; done. }
  destruct (proj2 (Hr f)) as [Hfa Hfb]; [exists f; split; [done|apply ancestor_refl]|].
  destruct (ancestor_height m Ht f a ba Ha Hfa) as (bf & Hbf & _). by exists f, bf.
Qed.

Lemma prune_sublist m v s : sublist (Selector.m_candidates (Selector.PruneBlockIndexCandidates m v s)) (Selector.m_candidates s).
Proof. unfold Selector.PruneBlockIndexCandidates. destruct (CChain.Tip v); [apply filter_sublist|done]. Qed.

(** Dropping candidates keeps the invariant. *)
Lemma update_sel_wf f c : cs_wf g c -> sublist (Selector.m_candidates (f (chain_selector_ c))) (candidates c) ->
  Selector.m_best_header (f (chain_selector_ c)) = best_header c -> cs_wf g (update_sel f c).
Proof.
  intros [Hi Ha Hc Hk Hb Hp Hh] Hs Eb. destruct (update_sel_fields f c) as (E1 & E2 & E3 & E4 & E5).
  split; rewrite ?E1, ?E2, ?E3, ?E4; try done.
  - by eapply sorted_sublist.
  - intros p Hpin. apply Hk. by eapply elem_of_sublist.
  - by rewrite Eb.
  - by eapply pool_wf_with.
Qed.

Lemma switched_wf w c : cs_wf g c -> is_Some (index c !! w) -> cs_wf g (switched w c).
Proof.
  intros Hwf Hw. apply update_sel_wf; [by apply with_tip_wf|rewrite sel_with_tip; apply prune_sublist|].
  rewrite sel_with_tip. unfold Selector.PruneBlockIndexCandidates. by destruct (CChain.Tip _).
Qed.

Lemma switch_ok c t bt f w bw ev : cs_wf g c -> index c !! t = Some bt -> active c = path (index c) t ->
  index c !! w = Some bw -> ancestor (index c) f t -> ancestor (index c) f w ->
  Act.switch_chain c (Some t) (Some f) w ev = Some (OK, switched w c, ev ++ switch_events (index c) t f w).
Proof.
  intros Hwf Ht Ha Hw Hft Hfw. pose proof (cw_index g c Hwf) as Hi. unfold Act.switch_chain. cbv zeta.
  rewrite (deref_eq nHeight 0 _ t bt Ht), (deref_eq nHeight 0 _ w bw Hw).
  rewrite (disconnect_to_ok g _ c t bt f [] []) by (done || lia).
  rewrite (connect_list_ok g _ (index c) w bw f) by (done || lia). cbn [app].
  destruct (ancestor_height _ (index_tree g _ Hi) f w bw Hw Hfw) as (bf & Hbf & Hr & _).
  set (l := down _ (index c) w). assert (Hl : Forall (fun q => is_Some (index c !! q)) (rev l)).
  { apply Forall_rev, down_known; [done|by eexists]. }
  rewrite (connect_all_ok g); [|apply with_tip_wf; [done|by eexists]|by rewrite index_with_tip].
  rewrite index_with_tip. assert (Hlast : match last (rev l) with Some p => with_tip p (with_tip f c) | None => with_tip f c end = with_tip w c).
  { unfold l. rewrite (deref_eq nHeight 0 _ f bf Hbf).
    destruct (Z.to_nat (nHeight bw - nHeight bf)) as [|k] eqn:En.
    - cbn [down rev last]. assert (f = w) as ->; [|done].
      destruct (ancestor_inv _ f w bw Hw Hfw) as [->|(q & Hq & Hfq)]; [done|].
      destruct (bw_parent _ _ _ _ (Hi w bw Hw) q Hq) as (pb & Hpb & ? & _).
      destruct (ancestor_height _ (index_tree g _ Hi) f q pb Hpb Hfq) as (bf' & ? & ? & _). simplify_eq. lia.
    - cbn [down rev]. rewrite last_snoc. apply with_tip_twice. }
  rewrite Hlast, index_with_tip, active_with_tip. unfold switched, switch_events. cbv zeta.
  rewrite (deref_eq nHeight 0 _ t bt Ht), (deref_eq nHeight 0 _ w bw Hw), <- app_assoc. done.
Qed.
End Switch.

(** ** One activation step *)

(** The policy refuses to leave [t] for [w]: the reorganisation is at least as deep as the limit. *)
Definition policy_refuses (m : block_map) (limit : Z) (t w : block_ptr) : bool :=
  match LastCommonAncestor m (Some t) (Some w) with
  | Some (Some f) => (0 <? limit) && (limit <=? deref nHeight 0 m t - deref nHeight 0 m f)
  | _ => false
  end.

Definition more_work (m : block_map) (w t : block_ptr) : bool := deref nChainWork 0 m t <? deref nChainWork 0 m w.

Section Step.
Context (g : uint256).

Lemma chain_step_ok c t w ev : cs_wf g c -> is_Some (index c !! t) -> active c = path (index c) t -> is_Some (index c !! w) ->
  exists f, LastCommonAncestor (index c) (Some t) (Some w) = Some (Some f) /\ is_common (index c) (Some f) t w /\
  Act.ActivateBestChainStep c (Some w) ev =
    Some (if negb (more_work (index c) w t) then (OK, c, ev)
          else if policy_refuses (index c) (suspicious_reorg_depth_ c) t w then (POLICY_REFUSED, c, ev)
          else (OK, switched w c, ev ++ switch_events (index c) t f w)).
Proof.
  intros Hwf [bt Ht] Ha [bw Hw]. pose proof (cw_index g c Hwf) as Hi.
  destruct (fork_exists g (index c) t w Hi (ex_intro _ bt Ht) (ex_intro _ bw Hw)) as (f & bf & Ef & Hc & Hbf & Hft & Hfw).
  exists f. split; [done|]. split; [done|]. unfold Act.ActivateBestChainStep. cbv zeta.
  rewrite (tip_of g c t Hi (ex_intro _ bt Ht) Ha). unfold more_work.
  destruct (decide (t = w)) as [->|Hne].
  { rewrite bool_decide_true by done. by rewrite Z.ltb_irrefl. }
  rewrite bool_decide_false by congruence. rewrite <- Z.leb_antisym.
  destruct (deref nChainWork 0 (index c) w <=? deref nChainWork 0 (index c) t) eqn:Ew; [done|]. rewrite Ef.
  unfold policy_refuses. rewrite Ef.
  rewrite (bool_decide_false (Some f = None)) by done. cbn [andb]. rewrite !bool_decide_true by done.
  cbn [negb andb Act.reorg_depth].
  destruct ((0 <? _) && _); [done|]. by rewrite (switch_ok g c t bt f w bw).
Qed.
End Step.

(** ** The activation loop *)

Lemma with_sel_fields s c : index (with_sel s c) = index c /\ active (with_sel s c) = active c /\
  chain_selector_ (with_sel s c) = s /\ suspicious_reorg_depth_ (with_sel s c) = suspicious_reorg_depth_ c.
Proof. by destruct c. Qed.
Lemma with_sel_self c : with_sel (chain_selector_ c) c = c.
Proof. by destruct c. Qed.
Lemma with_sel_twice s s' c : with_sel s (with_sel s' c) = with_sel s c.
Proof. by destruct c. Qed.
Lemma with_tip_sel p s c : with_tip p (with_sel s c) = with_sel s (with_tip p c).
Proof. by destruct c. Qed.

(** A selector with fewer candidates. *)
Record fewer (s s' : Selector.state) : Prop := {
  fw_sub : sublist (Selector.m_candidates s') (Selector.m_candidates s);
  fw_best : Selector.m_best_header s' = Selector.m_best_header s
}.
#[export] Instance fewer_preorder : PreOrder fewer.
Proof. split; [by intros s|]. intros s1 s2 s3 [] []. split; [by etrans|congruence]. Qed.

Lemma fewer_wf g c s : cs_wf g c -> fewer (chain_selector_ c) s -> cs_wf g (with_sel s c).
Proof. intros Hwf [Hs Hb]. by apply (update_sel_wf g (fun _ => s)). Qed.

Lemma prune_fewer m v s : fewer s (Selector.PruneBlockIndexCandidates m v s).
Proof. split; [apply prune_sublist|]. unfold Selector.PruneBlockIndexCandidates. by destruct (CChain.Tip v). Qed.

Lemma remove_fewer m p s : fewer s (Selector.RemoveCandidate m (Some p) s).
Proof. split; [apply set_erase_sublist|done]. Qed.

Lemma find_fewer m s : fewer s (snd (Selector.FindMostWorkChain m s)).
Proof.
  unfold Selector.FindMostWorkChain. destruct (find_loop_spec m (Selector.m_candidates s)) as (d & E & _).
  destruct (Selector.find_loop m (Selector.m_candidates s)) as [r l]. cbn [fst snd] in *.
  split; [|done]. cbn. rewrite E. by apply sublist_inserts_l.
Qed.

(** Activation among a list of candidates, seen from the tip [t]. *)
Record activated (c : Chainstate) (t : block_ptr) (cands : list block_ptr) (c' : Chainstate) (t' : block_ptr)
  (evs : list event) : Prop := {
  av_state : exists s, fewer (chain_selector_ c) s /\ c' = with_sel s (with_tip t' c);
  av_known : is_Some (index c !! t');
  av_move : (t' = t /\ evs = []) \/
    exists f, t' ∈ cands /\ Selector.unusable (index c) t' = false /\ more_work (index c) t' t = true /\
      policy_refuses (index c) (suspicious_reorg_depth_ c) t t' = false /\
      LastCommonAncestor (index c) (Some t) (Some t') = Some (Some f) /\ evs = switch_events (index c) t f t';
  av_best q : q ∈ cands -> Selector.unusable (index c) q = false -> more_work (index c) q t' = true ->
    policy_refuses (index c) (suspicious_reorg_depth_ c) t q = true
}.

Lemma compare_work m p q : Selector.compare m p q = true -> more_work m q p = false.
Proof.
  unfold Selector.compare, more_work. cbv zeta. rewrite Z.ltb_ge.
  destruct (Z.eqb_spec (deref nChainWork 0 m p) (deref nChainWork 0 m q)) as [->|]; cbn [negb]; [lia|].
  rewrite Z.ltb_lt. lia.
Qed.

Section Loop.
Context (g : uint256).

(** The state and the tip it shows. *)
Definition at_tip (c : Chainstate) (t : block_ptr) : Prop :=
  cs_wf g c /\ is_Some (index c !! t) /\ active c = path (index c) t.

Lemma at_tip_sel c t s : at_tip c t -> fewer (chain_selector_ c) s -> at_tip (with_sel s c) t.
Proof.
  intros (Hwf & Ht & Ha) Hs. destruct (with_sel_fields s c) as (E1 & E2 & _). unfold at_tip. rewrite E1, E2.
  split_and!; [by apply fewer_wf|done..].
Qed.

Lemma iteration c t w fuel ev : at_tip c t -> is_Some (index c !! w) ->
  exists f, LastCommonAncestor (index c) (Some t) (Some w) = Some (Some f) /\
  Act.activate_loop (S fuel) c (Some w) ev =
    if negb (more_work (index c) w t) then Some (true, c, ev)
    else if policy_refuses (index c) (suspicious_reorg_depth_ c) t w
    then Act.activate_loop fuel (update_sel (Selector.RemoveCandidate (index c) (Some w)) c) None ev
    else Some (true, switched w c, ev ++ switch_events (index c) t f w).
Proof.
  intros (Hwf & Ht & Ha) Hw. destruct (chain_step_ok g c t w ev Hwf Ht Ha Hw) as (f & Ef & _ & Estep).
  exists f. split; [done|]. cbn [Act.activate_loop]. rewrite (tip_of g c t (cw_index g c Hwf) Ht Ha).
  destruct (decide (t = w)) as [->|Hne].
  { rewrite bool_decide_true by done. unfold more_work. by rewrite Z.ltb_irrefl. }
  rewrite bool_decide_false by congruence. rewrite Estep. destruct (negb (more_work _ _ _)); [done|].
  by destruct (policy_refuses _ _ _ _).
Qed.

Lemma search fuel c ev : Act.activate_loop (S fuel) c None ev =
  let '(r, s) := Selector.FindMostWorkChain (index c) (chain_selector_ c) in
  match r with
  | Some w => Act.activate_loop (S fuel) (with_sel s c) (Some w) ev
  | None => Some (true, with_sel s c, ev)
  end.
Proof. cbn [Act.activate_loop]. destruct (Selector.FindMostWorkChain _ _) as [[w|] s]; done. Qed.

Lemma stay c t s cands : at_tip c t -> fewer (chain_selector_ c) s ->
  (forall q, q ∈ cands -> Selector.unusable (index c) q = false -> more_work (index c) q t = true ->
     policy_refuses (index c) (suspicious_reorg_depth_ c) t q = true) ->
  activated c t cands (with_sel s c) t [].
Proof.
  intros (Hwf & Ht & Ha) Hs Hq. split; [|done|by left|done]. exists s. by rewrite with_tip_self.
Qed.

Lemma move c t w f s cands : at_tip c t -> is_Some (index c !! w) -> fewer (chain_selector_ c) s -> w ∈ cands ->
  Selector.unusable (index c) w = false -> more_work (index c) w t = true ->
  policy_refuses (index c) (suspicious_reorg_depth_ c) t w = false ->
  LastCommonAncestor (index c) (Some t) (Some w) = Some (Some f) ->
  (forall q, q ∈ cands -> Selector.unusable (index c) q = false -> more_work (index c) q w = true ->
     policy_refuses (index c) (suspicious_reorg_depth_ c) t q = true) ->
  activated c t cands (switched w (with_sel s c)) w (switch_events (index c) t f w).
Proof.
  intros Htip Hw Hs Hin Hu Hm Hp Hf Hq. split; [|done| |done].
  - eexists. split; [|unfold switched, update_sel; rewrite with_tip_sel, with_sel_twice; done].
    etrans; [exact Hs|]. rewrite (proj1 (proj2 (proj2 (with_sel_fields s _)))). apply prune_fewer.
  - right. by exists f.
Qed.

Lemma activate_loop_ok fuel c t ev : at_tip c t -> (length (candidates c) < fuel)%nat ->
  exists c' t' evs, Act.activate_loop fuel c None ev = Some (true, c', ev ++ evs) /\
    activated c t (candidates c) c' t' evs.
Proof.
  revert c ev. induction fuel as [|fuel IH]; intros c ev Htip Hl; [lia|]. rewrite search.
  pose proof Htip as (Hwf & Ht & Ha). pose proof (find_fewer (index c) (chain_selector_ c)) as Hfew.
  pose proof (find_most_work_ok (index c) (chain_selector_ c) (cw_cand g c Hwf)) as Hfind.
  destruct (Selector.FindMostWorkChain (index c) (chain_selector_ c)) as [r s]. cbn [snd] in Hfew.
  destruct Hfind as (Hcw & Hkeep & Hr). destruct r as [w|].
  2:{ exists (with_sel s c), t, []. rewrite app_nil_r. split; [done|]. apply stay; [done..|].
      intros q Hq Hu. rewrite (Hr q Hq) in Hu. done. }
  destruct Hr as (Hws & Hwu & Hbest). assert (Hwin : w ∈ candidates c) by (eapply elem_of_sublist; [done|apply Hfew]).
  assert (Hbest' : forall q, q ∈ candidates c -> Selector.unusable (index c) q = false -> more_work (index c) q w = false).
  { intros q Hq Hu. destruct (Hbest q Hq Hu) as [->|?]; [apply Z.ltb_irrefl|by apply compare_work]. }
  destruct (with_sel_fields s c) as (E1 & E2 & E3 & E4).
  destruct (iteration (with_sel s c) t w fuel ev) as (f & Ef & ->); [by apply at_tip_sel|rewrite E1; by apply (cw_known g c Hwf)|].
  rewrite E1, E4 in *. destruct (more_work (index c) w t) eqn:Em; cbn [negb].
  2:{ exists (with_sel s c), t, []. rewrite app_nil_r. split; [done|]. apply stay; [done..|].
      intros q Hq Hu Hm. specialize (Hbest' q Hq Hu). unfold more_work in *. rewrite Z.ltb_ge, Z.ltb_lt in *. lia. }
  destruct (policy_refuses (index c) (suspicious_reorg_depth_ c) t w) eqn:Ep.
  2:{ exists (switched w (with_sel s c)), w, (switch_events (index c) t f w). split; [done|].
      apply move; [done|by apply (cw_known g c Hwf)|done..|]. intros q Hq Hu. by rewrite (Hbest' q Hq Hu). }
  unfold update_sel. rewrite E3, with_sel_twice. set (s1 := Selector.RemoveCandidate _ _ s).
  assert (Hfew1 : fewer (chain_selector_ c) s1) by (etrans; [exact Hfew|apply remove_fewer]).
  destruct (with_sel_fields s1 c) as (F1 & F2 & F3 & F4).
  destruct (IH (with_sel s1 c) ev) as (c' & t' & evs & -> & [(s' & Hs' & Hc') Hk Hmv Hb]); [by apply at_tip_sel| |].
  - rewrite F3. unfold s1. cbn. pose proof (sublist_length _ _ (fw_sub _ _ Hfew)).
    destruct Hcw as [_ Hlen]. rewrite Forall_forall in Hlen.
    enough (length (Selector.set_erase (Selector.compare (index c)) w (Selector.m_candidates s)) < length (Selector.m_candidates s))%nat by lia.
    by apply (set_erase_length (index c)).
  - exists c', t', evs. split; [done|]. rewrite F1, F3, F4 in *. split; [|done| |].
    + exists s'. split; [by etrans|]. rewrite Hc', with_tip_sel, with_sel_twice. done.
    + destruct Hmv as [?|(f' & ? & ?)]; [by left|]. right. exists f'. split; [|done]. eapply elem_of_sublist; [done|apply Hfew1].
    + intros q Hq Hu Hm. destruct (decide (q = w)) as [->|Hne]; [done|]. apply Hb; [|done..].
      unfold s1. cbn. pose proof (cw_cand g c Hwf) as [_ Hlen]. rewrite Forall_forall in Hlen.
      apply set_erase_elem; [by apply Hlen|done|]. split; [by apply Hkeep|done].
Qed.
End Loop.
