(* ===== verification/ChainstateProps.v ===== *)
(** * ChainstateProps: the theorems about [ChainstateManager]

    Initialisation, acceptance of headers (abstractly and for the node's own checks),
    reorganisation policy, activation, and the composition in [ProcessNewBlockHeader]. *)
From Stdlib Require Import String.
From S2P Require Import Prelude Arith Bytes Compact Sha256 Block BlockIndex Chain ChainParams Pow RandomX Validation.
From S2P Require Import ChainSelector BlockManager SameTree Persist Chainstate OrphanPool Accept Activation NodeChecks Reorg.
#[local] Open Scope Z_scope.
Import Idx (CBlockIndex, mkIndex, nHeight, pprev, pskip, nChainWork, nStatus, nTimeMax, nTimeReceived).
Import CS.

(** ** Initialisation *)

(** Genesis as [Initialize] leaves it. *)
Definition genesis_entry (h : CBlockHeader) : CBlockIndex := snd (Idx.RaiseValidity (root_entry h) BLOCK_VALID_TREE).

Definition genesis_state (params : ChainParams) (h : CBlockHeader) : Chainstate :=
  let g := Header.GetHash h in
  mkCS (BM.mkBM {[g := genesis_entry h]} [Some g] g true) (Selector.mkSelector [g] (Some g)) ∅ ∅ ∅ false
    (nSuspiciousReorgDepth (consensus params)).

Lemma init_ok params h : header_wf h -> Blob.IsNull (hashPrevBlock h) = true -> Header.GetHash h <> hashPrevBlock h ->
  Act.Initialize (CS.new params) h = Some (true, genesis_state params h).
Proof.
  intros Hh Hn Hne. destruct (initialize_ok h Hh Hn Hne) as (bm & E & Ei & _ & Ea & Eg & Et & _).
  unfold Act.Initialize. cbn [block_manager_ CS.new]. rewrite E. unfold with_bm, tip, active, update_entry, update_sel, index.
  cbn [CS.new block_manager_]. rewrite Ea. cbn [CChain.Tip length Nat.ltb Nat.leb Nat.sub nth].
  unfold with_index, index, with_bm, with_sel. cbn [block_manager_ chain_selector_]. rewrite Ei, Ea, Eg, Et.
  cbn [BM.m_block_index]. unfold genesis_state. do 3 f_equal.
  f_equal. unfold genesis_entry. apply (alter_singleton_eq (fun b => snd (Idx.RaiseValidity b BLOCK_VALID_TREE))).
Qed.

Lemma genesis_state_wf params h : header_wf h -> Blob.IsNull (hashPrevBlock h) = true -> Header.GetHash h <> hashPrevBlock h ->
  cs_wf (Header.GetHash h) (genesis_state params h) /\ status_wf (index (genesis_state params h)).
Proof.
  intros Hh Hn Hne. set (g := Header.GetHash h). set (m := {[g := genesis_entry h]} : block_map).
  assert (Hs : same_tree m {[g := root_entry h]}).
  { split. unfold m. rewrite !map_fmap_singleton. done. }
  assert (Hi : index_wf g m).
  { rewrite Hs. apply (root_wf g ∅); [intros ? ? E; by rewrite lookup_empty in E|done|apply lookup_empty|done|done]. }
  assert (Hg : m !! g = Some (genesis_entry h)) by apply lookup_singleton_eq.
  assert (Honly : forall q b, m !! q = Some b -> q = g /\ b = genesis_entry h).
  { intros q b. unfold m. rewrite lookup_singleton_Some. by intros [<- <-]. }
  assert (Hnh : nHeight (genesis_entry h) = 0) by (unfold genesis_entry; by rewrite (shape_eq nHeight (root_entry h)) by apply ks_raise).
  split; [split|split].
  - exact Hi.
  - exists g. split; [by eexists|]. change (index _) with m. unfold path. rewrite (deref_eq nHeight 0 m g _ Hg), Hnh.
    cbn [Z.to_nat seq fmap list_fmap active genesis_state BM.m_active_chain block_manager_]. f_equal. symmetry.
    rewrite <- Hnh at 1. apply (ancestor_at_self m (index_tree g m Hi) g _ Hg).
  - split; [by repeat constructor|]. repeat constructor. apply gethash_wf. exact Hh.
  - intros p. change (candidates _) with [g]. rewrite list_elem_of_singleton. intros ->. by eexists.
  - exists g. split_and!; [done|by eexists|]. intros q b [-> ->]%Honly. change (index _) with m.
    rewrite (deref_eq nChainWork 0 m g _ Hg). lia.
  - apply (pool_wf_with (CS.new params)); [done|done|apply new_pool_wf].
  - intros ? ? E. change (m_orphan_headers _) with (∅ : gmap (list Z) OrphanHeader) in E. by rewrite lookup_empty in E.
  - intros q b [_ ->]%Honly. right. apply raise_fresh. done.
  - intros q b p pb [_ ->]%Honly Hp. unfold genesis_entry in Hp.
    rewrite (shape_eq pprev (root_entry h)) in Hp by apply ks_raise. done.
Qed.

Lemma null_hash n : Blob.IsNull n = true -> length n = 32%nat -> n = Blob.SetNull 32.
Proof. intros Hn Hl. apply isnull_spec in Hn. by rewrite Hn, Hl. Qed.

Lemma genesis_not_null u1 u2 chain p : Params.Select u1 u2 chain = Some p -> Header.GetHash (genesis p) <> hashPrevBlock (genesis p).
Proof.
  intros E. destruct (select_ok u1 u2 chain) as (p' & E' & _ & _ & Hh & Hg & Hn & _ & _ & Hx & _). rewrite E in E'. injection E' as <-.
  intros Heq. rewrite Hg, Heq, (null_hash _ Hn) in Hx; [|apply Hh]. destruct chain; vm_compute in Hx; discriminate Hx.
Qed.

(** The conclusion of initialisation, for every network. *)
Lemma select_init u1 u2 chain p : Params.Select u1 u2 chain = Some p ->
  let g := Header.GetHash (genesis p) in let c := genesis_state p (genesis p) in
  Act.Initialize (CS.new p) (genesis p) = Some (true, c) /\ cs_wf g c /\ status_wf (index c).
Proof.
  intros E. pose proof (genesis_not_null u1 u2 chain p E) as Hne.
  destruct (select_ok u1 u2 chain) as (p' & E' & _ & _ & Hh & Hg & Hn & _). rewrite E in E'. injection E' as <-.
  split; [by apply init_ok|by apply genesis_state_wf].
Qed.

(** on every network, initialising a fresh chain state with the network's genesis
    succeeds and yields a state in the invariant whose index, active chain, candidate set
    and best header are genesis alone, validated to the tree level; a second call is refused and
    changes nothing. *)
Theorem initialize_chainstate_exact (u1 u2 : Z) (chain : ChainType) :
  exists p c, Params.Select u1 u2 chain = Some p /\ Act.Initialize (CS.new p) (genesis p) = Some (true, c) /\
    cs_wf (hashGenesisBlock (consensus p)) c /\ status_wf (index c) /\
    tip c = Some (hashGenesisBlock (consensus p)) /\ candidates c = [hashGenesisBlock (consensus p)] /\
    best_header c = Some (hashGenesisBlock (consensus p)) /\ size (index c) = 1%nat /\
    forall h, Act.Initialize c h = Some (false, c).
Proof.
  destruct (select_ok u1 u2 chain) as (p & E & _ & _ & _ & Hg & _). exists p, (genesis_state p (genesis p)).
  destruct (select_init u1 u2 chain p E) as (Ei & Hwf & Hs). rewrite Hg. split_and!; try done.
  unfold index, genesis_state. cbn. by rewrite map_size_singleton.
Qed.

(** ** Acceptance *)

(** C4: [AcceptBlockHeader], with its recursion through the orphans that waited for the
    header, always returns (no assertion fails, and the recursion ends) and preserves the invariant of the
    chain state, for any lawful checks.  It returns null exactly when the header is not a known
    valid block and is not acceptable (or was not checked for work), and then the state is unchanged; otherwise
    it returns the header's hash, which is then in the index, valid, with no orphan left waiting for it.
    Known blocks, the active chain and the candidates do not change, and
    every block added is the header itself or came from the orphan pool. *)
Theorem accept_header_exact `{HeaderChecks} (g : uint256) `{!LawfulChecks g} (params : ChainParams) (now adjusted_time : Z)
  (c : Chainstate) (header : CBlockHeader) (st : ValidationState) (mpc : bool) :
  cs_inv g c -> header_wf header -> total c < 2 ^ 31 ->
  exists r st' c', AcceptBlockHeader params now adjusted_time c header st mpc = Some (r, st', c') /\
    cs_inv g c' /\ accepted c c' /\
    (forall p b, index c !! p = Some b -> index c' !! p = Some b) /\
    (forall q, is_Some (index c' !! q) ->
       is_Some (index c !! q) \/ q = Header.GetHash header \/ is_Some (m_orphan_headers c !! q)) /\
    match r with
    | None => c' = c /\ ~ known_valid c header /\ (forall st2, acceptable adjusted_time c header st st2 -> mpc = false)
    | Some p => p = Header.GetHash header /\
        ((known_valid c header /\ st' = st /\ c' = c) \/
         (acceptable adjusted_time c header st st' /\ mpc = true /\
          (exists b, index c' !! p = Some b /\ Idx.GetBlockHeader b = header /\ Idx.IsValid b BLOCK_VALID_TREE = true) /\
          forall h x, m_orphan_headers c' !! h = Some x -> hashPrevBlock (o_header x) <> p))
    end.
Proof.
  intros Hc Hh Ht. unfold AcceptBlockHeader.
  destruct (accept_ok g params now adjusted_time (S (size (m_orphan_headers c))) c header st mpc Hc Hh Ht) as (r & st' & c' & E & [] & Ho);
    [lia|].
  exists r, st', c'. by split_and!.
Qed.

(** Checks that accept every header, as the unit tests of the node use. *)
#[local] Instance accept_all : HeaderChecks := {|
  hc_pow _ _ := Some true; hc_header _ st := Some (true, st); hc_context _ _ _ _ st := Some (true, st) |}.
#[local] Instance accept_all_lawful g : LawfulChecks g.
Proof. refine {| lc_inv := fun _ => True |}; try done; intros; by eexists. Defined.

Definition regtest_state (params : ChainParams) : Chainstate := genesis_state params regtest_genesis.

Lemma regtest_inv params : cs_inv regtest_hash (regtest_state params).
Proof.
  destruct (genesis_state_wf params regtest_genesis regtest_genesis_wf eq_refl regtest_not_fixpoint) as [H1 H2].
  rewrite regtest_hash_eq in H1. by split_and!.
Qed.

Lemma regtest_total params : total (regtest_state params) = 1.
Proof. unfold total, index, regtest_state, genesis_state. cbn. by rewrite map_size_singleton. Qed.

Lemma accept_header_exact_witness :
  exists p, Params.Select 0 0 REGTEST = Some p /\
  let c := regtest_state p in let st := Val.fresh in let header := next_header in
  exists r st' c', AcceptBlockHeader p 1000 2000 c header st true = Some (r, st', c') /\
    cs_inv regtest_hash c' /\ accepted c c' /\
    (forall p b, index c !! p = Some b -> index c' !! p = Some b) /\
    (forall q, is_Some (index c' !! q) ->
       is_Some (index c !! q) \/ q = Header.GetHash header \/ is_Some (m_orphan_headers c !! q)) /\
    match r with
    | None => c' = c /\ ~ known_valid c header /\ (forall st2, acceptable 2000 c header st st2 -> true = false)
    | Some p => p = Header.GetHash header /\
        ((known_valid c header /\ st' = st /\ c' = c) \/
         (acceptable 2000 c header st st' /\ true = true /\
          (exists b, index c' !! p = Some b /\ Idx.GetBlockHeader b = header /\ Idx.IsValid b BLOCK_VALID_TREE = true) /\
          forall h x, m_orphan_headers c' !! h = Some x -> hashPrevBlock (o_header x) <> p))
    end.
Proof.
  destruct (select_ok 0 0 REGTEST) as (p & E & _). exists p. split; [exact E|]. intros c st header.
  apply (accept_header_exact regtest_hash p 1000 2000 c header st true (regtest_inv p) next_header_wf).
  unfold c. rewrite regtest_total. lia.
Defined.

(** ** The node's own checks *)

(** C2: with the node's checks (RandomX initialised and able to allocate), acceptance never
    throws, and a new header enters the index exactly when it is not a genesis, its parent is known and has
    not failed, and it obeys the consensus rules: proof of work, required difficulty, median time past,
    two-hour limit, version and expiry.  A rejected header leaves the state unchanged; the
    invariants, among them the validity of the ASERT anchors, are preserved. *)
Theorem node_accept_exact `{RandomXLib} (host : Endian.host) (rx : Rx.state) (params : ChainParams) (g : uint256)
  (now adjusted_time : Z) (c : Chainstate) (header : CBlockHeader) :
  caches_ok rx -> Rx.g_randomx_initialized rx = true -> (forall h, is_Some (rx_hash_of host params h)) -> params_wf params ->
  cs_wf g c -> status_wf (index c) -> anchors_ok params (index c) -> header_wf header -> total c < 2 ^ 31 ->
  index c !! Header.GetHash header = None ->
  exists r st' c',
    AcceptBlockHeader (H := node_checks host rx params) params now adjusted_time c header Val.fresh true = Some (r, st', c') /\
    (r = Some (Header.GetHash header) <->
       Blob.IsNull (hashPrevBlock header) = false /\
       (exists bp, index c !! hashPrevBlock header = Some bp /\ failed bp = false) /\
       consensus_rules host params (index c) header adjusted_time) /\
    (r = None -> c' = c) /\ (is_Some r -> is_Some (index c' !! Header.GetHash header)) /\
    cs_wf g c' /\ status_wf (index c') /\ anchors_ok params (index c').
Proof.
  intros Hrx Hinit Halloc Hp Hwf Hst Ha Hh Ht Hnew.
  set (L := node_lawful host rx params g Hrx Hinit Halloc Hp).
  assert (Hsz : Z.of_nat (size (index c)) < 2 ^ 31) by (unfold total in Ht; lia).
  pose proof (fun st' => node_acceptable host rx params g Hrx Hinit Halloc Hp c header adjusted_time Val.fresh st'
    (cw_index g c Hwf) Ha Hh Hsz) as Hacc.
  destruct (accept_ok (LawfulChecks0 := L) g params now adjusted_time (S (size (m_orphan_headers c))) c header Val.fresh true) as
    (r & st' & c' & E & [(Hwf' & Hst' & Ha') _ _ _ _] & Ho); [by split_and!|done|done|lia|].
  exists r, st', c'. split; [exact E|]. split; [|split; [|split; [|by split_and!]]].
  - destruct r as [p|].
    + destruct Ho as (-> & [((b & Hb & _) & _)|(Hac & _)]); [congruence|]. by apply Hacc in Hac as (_ & _ & ?).
    + destruct Ho as (_ & _ & Hno). split; [done|]. intros (Hn & Hpar & Hrules).
      specialize (Hno Val.fresh (proj2 (Hacc Val.fresh) (conj eq_refl (conj Hnew (conj Hn (conj Hpar Hrules)))))). done.
  - intros ->. by destruct Ho.
  - intros [p ->]. destruct Ho as (-> & [((b & Hb & _) & _)|(_ & _ & (b & Hb & _) & _)]); [congruence|by exists b].
Qed.

Lemma genesis_anchors params' params h : anchors_ok params' (index (genesis_state params h)).
Proof.
  intros a ba Hb. change (index _) with ({[Header.GetHash h := genesis_entry h]} : block_map) in Hb.
  apply lookup_singleton_Some in Hb as [_ <-]. done.
Qed.

Lemma regtest_next_fresh params : index (regtest_state params) !! Header.GetHash next_header = None.
Proof.
  change (index _) with ({[Header.GetHash regtest_genesis := genesis_entry regtest_genesis]} : block_map).
  apply lookup_singleton_ne. rewrite regtest_hash_eq. apply not_eq_sym, next_header_fresh.
Qed.

#[local] Existing Instance toy_lib.

Lemma node_accept_exact_witness :
  exists p, Params.Select 0 0 REGTEST = Some p /\
  let rx := Rx.InitRandomX (Rx.mkState false ∅ ∅) in let c := regtest_state p in let header := next_header in
  exists r st' c',
    AcceptBlockHeader (H := node_checks Endian.Little rx p) p 1000 1296689000 c header Val.fresh true = Some (r, st', c') /\
    (r = Some (Header.GetHash header) <->
       Blob.IsNull (hashPrevBlock header) = false /\
       (exists bp, index c !! hashPrevBlock header = Some bp /\ failed bp = false) /\
       consensus_rules Endian.Little p (index c) header 1296689000) /\
    (r = None -> c' = c) /\ (is_Some r -> is_Some (index c' !! Header.GetHash header)) /\
    cs_wf regtest_hash c' /\ status_wf (index c') /\ anchors_ok p (index c').
Proof.
  destruct (select_ok 0 0 REGTEST) as (p & E & _ & Hp & _). exists p. split; [exact E|]. intros rx c header.
  destruct (regtest_inv p) as (Hwf & Hst & _).
  apply (node_accept_exact Endian.Little rx p regtest_hash 1000 1296689000 c header).
  - split; intros ? ? Hl; vm_compute in Hl; discriminate Hl.
  - reflexivity.
  - intros h. eexists. reflexivity.
  - exact Hp.
  - exact Hwf.
  - exact Hst.
  - exact (genesis_anchors p p regtest_genesis).
  - exact next_header_wf.
  - unfold c. rewrite regtest_total. lia.
  - apply regtest_next_fresh.
Defined.

(** ** Reorganisation *)

(** one activation step never fails: on a state in the invariant, [ActivateBestChainStep]
    to a known block [w] does nothing unless [w] has strictly more work than the tip, refuses with
    no change when the reorganisation would disconnect at least the configured number of blocks, and otherwise makes
    [w] the tip, with notifications for every block disconnected down to the fork, every block connected
    up to [w], and the new tip, in this order.  The fork is the last common ancestor. *)
Theorem activate_step_exact (g : uint256) (c : Chainstate) (t w : block_ptr) (ev : list event) :
  cs_wf g c -> tip c = Some t -> is_Some (index c !! w) ->
  exists f, is_common (index c) (Some f) t w /\
    let m := index c in
    let depth := deref nHeight 0 m t - deref nHeight 0 m f in
    exists r c' ev', Act.ActivateBestChainStep c (Some w) ev = Some (r, c', ev') /\ cs_wf g c' /\ index c' = m /\
      (deref nChainWork 0 m w <= deref nChainWork 0 m t -> r = OK /\ c' = c /\ ev' = ev) /\
      (deref nChainWork 0 m t < deref nChainWork 0 m w -> 0 < suspicious_reorg_depth_ c <= depth ->
         r = POLICY_REFUSED /\ c' = c /\ ev' = ev) /\
      (deref nChainWork 0 m t < deref nChainWork 0 m w -> ~ 0 < suspicious_reorg_depth_ c <= depth ->
         r = OK /\ tip c' = Some w /\ ev' = ev ++ switch_events m t f w).
Proof.
  intros Hwf Htip Hw. destruct (cw_active g c Hwf) as (t' & Ht & Ha).
  pose proof (tip_of g c t' (cw_index g c Hwf) Ht Ha) as E. rewrite E in Htip. injection Htip as ->.
  destruct (chain_step_ok g c t w ev Hwf Ht Ha Hw) as (f & Ef & Hc & Estep). exists f. split; [done|]. intros m depth.
  rewrite Estep. unfold more_work, policy_refuses. rewrite Ef. fold m depth.
  destruct (Z.ltb_spec (deref nChainWork 0 m t) (deref nChainWork 0 m w)); cbn [negb].
  2:{ exists OK, c, ev. split_and!; [done..| |]; lia. }
  destruct (Z.ltb_spec 0 (suspicious_reorg_depth_ c)), (Z.leb_spec (suspicious_reorg_depth_ c) depth); cbn [andb];
    [exists POLICY_REFUSED, c, ev; split_and!; [done..|lia|done|lia]|..];
    (exists OK, (switched w c), (ev ++ switch_events m t f w);
     pose proof (switched_wf g w c Hwf Hw) as Hwf'; split_and!; [done|done|by destruct c|lia|lia|];
     intros _ _; split_and!; [done| |done]; apply (tip_of g); [apply Hwf'|by destruct c|by destruct c]).
Qed.

(** A state with one block above its tip. *)
Lemma grown_state : exists c, cs_wf regtest_hash c /\ status_wf (index c) /\ tip c = Some regtest_hash /\
  is_Some (index c !! Header.GetHash next_header).
Proof.
  destruct (select_ok 0 0 REGTEST) as (p & E & _). set (c0 := regtest_state p).
  pose proof (regtest_next_fresh p) as Hnew. destruct (regtest_inv p) as (Hwf0 & Hst0 & _). fold c0 in Hnew, Hwf0, Hst0.
  assert (Hg : exists b, index c0 !! hashPrevBlock next_header = Some b /\ failed b = false).
  { exists (genesis_entry regtest_genesis). split; [|reflexivity].
    change (index c0) with ({[Header.GetHash regtest_genesis := genesis_entry regtest_genesis]} : block_map).
    rewrite regtest_hash_eq. apply lookup_singleton_eq. }
  destruct Hg as (b & Hb & Hf).
  destruct (insert_header_ok regtest_hash 1000 c0 next_header b Hwf0 next_header_wf Hnew Hb Val.fresh) as [_ Hin].
  eexists. split; [exact (in_wf _ _ _ _ _ _ Hin)|]. split; [exact (inserted_status _ _ _ _ _ _ Hwf0 Hst0 Hnew Hb Hf Hin)|].
  destruct (in_entry _ _ _ _ _ _ Hin) as (e & He & _). split; [|by exists e].
  unfold tip. rewrite (ac_active _ _ (in_accepted _ _ _ _ _ _ Hin)). cbn. by rewrite regtest_hash_eq.
Qed.

Lemma activate_step_exact_witness :
  let w := Header.GetHash next_header in
  exists c, cs_wf regtest_hash c /\ tip c = Some regtest_hash /\ is_Some (index c !! w) /\
  exists f, is_common (index c) (Some f) regtest_hash w /\
    let m := index c in
    let depth := deref nHeight 0 m regtest_hash - deref nHeight 0 m f in
    exists r c' ev', Act.ActivateBestChainStep c (Some w) [] = Some (r, c', ev') /\ cs_wf regtest_hash c' /\ index c' = m /\
      (deref nChainWork 0 m w <= deref nChainWork 0 m regtest_hash -> r = OK /\ c' = c /\ ev' = []) /\
      (deref nChainWork 0 m regtest_hash < deref nChainWork 0 m w -> 0 < suspicious_reorg_depth_ c <= depth ->
         r = POLICY_REFUSED /\ c' = c /\ ev' = []) /\
      (deref nChainWork 0 m regtest_hash < deref nChainWork 0 m w -> ~ 0 < suspicious_reorg_depth_ c <= depth ->
         r = OK /\ tip c' = Some w /\ ev' = [] ++ switch_events m regtest_hash f w).
Proof.
  intros w. destruct grown_state as (c & Hwf & _ & Ht & Hw). exists c. split; [exact Hwf|]. split; [exact Ht|]. split; [exact Hw|].
  exact (activate_step_exact regtest_hash c regtest_hash w [] Hwf Ht Hw).
Defined.

(** The tip of a state, with its chain. *)
Lemma tip_at g c t : cs_wf g c -> tip c = Some t -> at_tip g c t.
Proof.
  intros Hwf E. destruct (cw_active g c Hwf) as (t' & Ht & Ha).
  rewrite (tip_of g c t' (cw_index g c Hwf) Ht Ha) in E. injection E as ->. by split_and!.
Qed.

Lemma activated_wf g c t cands c' t' evs : at_tip g c t -> activated c t cands c' t' evs -> at_tip g c' t' /\ index c' = index c.
Proof.
  intros (Hwf & _) [(s & Hs & ->) Hk _ _]. destruct (with_sel_fields s (with_tip t' c)) as (E1 & E2 & _).
  assert (Hwf' : cs_wf g (with_sel s (with_tip t' c))).
  { apply fewer_wf; [by apply with_tip_wf|]. by rewrite sel_with_tip. }
  split; [split_and!; [done| |]|]; rewrite ?E1, ?E2, ?index_with_tip, ?active_with_tip; done.
Qed.

(** C3: [ActivateBestChain] terminates and never reports a system error on a state in the
    invariant.  The new tip is the old one, or a usable candidate with strictly more work whose
    reorganisation is shallower than the limit; no usable candidate with more work than the new
    tip remains, except those the policy refuses.  The notifications are those of one switch. *)
Theorem activate_best_chain_exact (g : uint256) (c : Chainstate) (t : block_ptr) :
  cs_wf g c -> tip c = Some t ->
  exists c' t' evs, Act.ActivateBestChain c None = Some (true, c', evs) /\ cs_wf g c' /\ tip c' = Some t' /\
    index c' = index c /\
    (t' = t /\ evs = [] \/
     exists f, t' ∈ candidates c /\ Selector.unusable (index c) t' = false /\
       deref nChainWork 0 (index c) t < deref nChainWork 0 (index c) t' /\
       LastCommonAncestor (index c) (Some t) (Some t') = Some (Some f) /\
       (0 < suspicious_reorg_depth_ c ->
        deref nHeight 0 (index c) t - deref nHeight 0 (index c) f < suspicious_reorg_depth_ c) /\
       evs = switch_events (index c) t f t') /\
    (forall q, q ∈ candidates c -> Selector.unusable (index c) q = false ->
       deref nChainWork 0 (index c) t' < deref nChainWork 0 (index c) q ->
       policy_refuses (index c) (suspicious_reorg_depth_ c) t q = true).
Proof.
  intros Hwf Ht. pose proof (tip_at g c t Hwf Ht) as Hat. unfold Act.ActivateBestChain.
  destruct (activate_loop_ok g (S (S (length (candidates c)))) c t [] Hat) as (c' & t' & evs & E & Hav); [lia|].
  destruct (activated_wf g c t _ c' t' evs Hat Hav) as [(Hwf' & Hk & Ha) Ei]. destruct Hav as [_ _ Hm Hb].
  exists c', t', evs. split; [exact E|]. split; [done|]. split; [apply (tip_of g); [apply Hwf'|done|done]|]. split; [done|]. split.
  - destruct Hm as [?|(f & ? & ? & Hmw & Hp & Hf & ?)]; [by left|]. right. exists f. split_and!; [done..|by apply Z.ltb_lt|done| |done].
    unfold policy_refuses in Hp. rewrite Hf in Hp. intros Hpos. rewrite (proj2 (Z.ltb_lt _ _) Hpos) in Hp. cbn [andb] in Hp.
    by apply Z.leb_gt in Hp.
  - intros q Hq Hu Hw. apply Hb; [done..|]. by apply Z.ltb_lt.
Qed.

Lemma activate_best_chain_exact_witness :
  exists c, cs_wf regtest_hash c /\ tip c = Some regtest_hash /\
  let t := regtest_hash in
  exists c' t' evs, Act.ActivateBestChain c None = Some (true, c', evs) /\ cs_wf regtest_hash c' /\ tip c' = Some t' /\
    index c' = index c /\
    (t' = t /\ evs = [] \/
     exists f, t' ∈ candidates c /\ Selector.unusable (index c) t' = false /\
       deref nChainWork 0 (index c) t < deref nChainWork 0 (index c) t' /\
       LastCommonAncestor (index c) (Some t) (Some t') = Some (Some f) /\
       (0 < suspicious_reorg_depth_ c ->
        deref nHeight 0 (index c) t - deref nHeight 0 (index c) f < suspicious_reorg_depth_ c) /\
       evs = switch_events (index c) t f t') /\
    (forall q, q ∈ candidates c -> Selector.unusable (index c) q = false ->
       deref nChainWork 0 (index c) t' < deref nChainWork 0 (index c) q ->
       policy_refuses (index c) (suspicious_reorg_depth_ c) t q = true).
Proof.
  destruct grown_state as (c & Hwf & _ & Ht & _). exists c. split; [exact Hwf|]. split; [exact Ht|].
  exact (activate_best_chain_exact regtest_hash c regtest_hash Hwf Ht).
Defined.

(** ** Processing a header *)

Lemma candidate_width g m p : index_wf g m -> is_Some (m !! p) -> length p = 32%nat.
Proof. intros Hi [b Hb]. by apply (index_key g m p b). Qed.

(** A block that is a valid leaf becomes a candidate; nothing but the candidates changes. *)
Lemma try_add_ok g c p b : cs_wf g c -> index c !! p = Some b -> 0 < nChainWork b ->
  exists s, Act.TryAddBlockIndexCandidate c (Some p) = Some (with_sel s c) /\ cs_wf g (with_sel s c) /\
    (forall q, q ∈ Selector.m_candidates s -> q = p \/ q ∈ candidates c) /\
    (Idx.IsValid b BLOCK_VALID_TREE = true -> Selector.has_children (index c) p = false -> p ∈ Selector.m_candidates s) /\
    (Selector.has_children (index c) p = true -> s = chain_selector_ c).
Proof.
  intros Hwf Hp Hw. pose proof (cw_index g c Hwf) as Hi. pose proof (bw_height _ _ _ _ (Hi p b Hp)) as Hh.
  unfold Act.TryAddBlockIndexCandidate, Selector.TryAddBlockIndexCandidate. rewrite Hp.
  rewrite (proj2 (Z.leb_le _ _) Hh), (proj2 (Z.ltb_lt _ _) Hw). cbn [negb].
  assert (Hself : cs_wf g (with_sel (chain_selector_ c) c)) by by rewrite with_sel_self.
  destruct (Idx.IsValid b BLOCK_VALID_TREE) eqn:Ev; cbn [negb]; [|eexists; split_and!; [done|done|by right|done|done]].
  destruct (Selector.has_children (index c) p) eqn:Ec; [eexists; split_and!; [done|done|by right|done|done]|].
  set (l := match pprev b with Some q => _ | None => _ end). pose proof (candidate_width g _ p Hi (ex_intro _ b Hp)) as Hl.
  assert (Hsub : sublist l (candidates c)) by (unfold l; destruct (pprev b); [apply set_erase_sublist|done]).
  assert (Hcl : cand_wf (index c) l) by (eapply sorted_sublist; [exact Hsub|apply (cw_cand g c Hwf)]).
  assert (Hel : forall q, q ∈ Selector.set_insert (Selector.compare (index c)) p l <-> q = p \/ q ∈ l).
  { intros q. apply set_insert_elem; [done|apply Hcl]. }
  eexists. split; [done|]. split_and!.
  - destruct Hwf as [_ Ha Hc Hk Hb Hpl Hhd]. split; try (by destruct c).
    + destruct (with_sel_fields (Selector.mkSelector (Selector.set_insert (Selector.compare (index c)) p l) (best_header c)) c) as (-> & _ & -> & _).
      by apply set_insert_wf.
    + intros q. destruct c. cbn. intros [->|Hq]%Hel; [by eexists|]. apply Hk. by eapply elem_of_sublist.
    + eapply pool_wf_with; [| |exact Hpl]; by destruct c.
  - intros q [->|Hq]%Hel; [by left|]. right. by eapply elem_of_sublist.
  - intros _ _. apply Hel. by left.
  - done.
Qed.

Lemma valid_usable m p b : m !! p = Some b -> Idx.IsValid b BLOCK_VALID_TREE = true -> Selector.unusable m p = false.
Proof. intros Hp Hv. by apply (unusable_spec m p b). Qed.

Lemma known_valid_tree g `{HeaderChecks} `{!LawfulChecks g} c header b : cs_inv g c ->
  index c !! Header.GetHash header = Some b -> failed b = false -> Idx.IsValid b BLOCK_VALID_TREE = true.
Proof. intros (_ & Hs & _) Hb Hf. destruct (sw_level _ Hs _ b Hb); [congruence|done]. Qed.

(** The block returned by acceptance is in the index and valid. *)
Lemma outcome_block g `{HeaderChecks} `{!LawfulChecks g} t0 c header st mpc p st' c' : cs_inv g c' ->
  outcome t0 c header st mpc (Some p) st' c' ->
  p = Header.GetHash header /\ exists b, index c' !! p = Some b /\ Idx.IsValid b BLOCK_VALID_TREE = true.
Proof.
  intros Hc' (-> & [((b & Hb & Hf) & _ & ->)|(_ & _ & (b & Hb & _ & Hv) & _)]); (split; [done|]); exists b; split; try done.
  by apply (known_valid_tree g c header b).
Qed.

Lemma process_header_ok `{HeaderChecks} (g : uint256) `{!LawfulChecks g} (params : ChainParams) (now adjusted_time : Z)
  (c : Chainstate) (t : block_ptr) (header : CBlockHeader) (st : ValidationState) :
  cs_inv g c -> header_wf header -> total c < 2 ^ 31 -> tip c = Some t ->
  let hash := Header.GetHash header in
  match Act.ProcessNewBlockHeader params now adjusted_time c header st with
  | None => exists r st1 c1 b, AcceptBlockHeader params now adjusted_time c header st true = Some (r, st1, c1) /\
      index c1 !! hash = Some b /\ nChainWork b <= 0
  | Some (r, st', c', ev) =>
      exists t', cs_inv g c' /\ tip c' = Some t' /\
      deref nChainWork 0 (index c') t <= deref nChainWork 0 (index c') t' /\
      (forall p b, index c !! p = Some b -> index c' !! p = Some b) /\
      (r = true <-> known_valid c header \/ exists st2, acceptable adjusted_time c header st st2) /\
      (r = false -> c' = c /\ ev = []) /\
      (r = true -> is_Some (index c' !! hash) /\
         (Selector.has_children (index c') hash = false ->
            deref nChainWork 0 (index c') hash <= deref nChainWork 0 (index c') t' \/
            policy_refuses (index c') (suspicious_reorg_depth_ c) t hash = true) /\
         (Selector.has_children (index c') hash = true -> t' = t \/ t' ∈ candidates c))
  end.
Proof.
  intros Hc Hh Htot Ht hash. unfold Act.ProcessNewBlockHeader, AcceptBlockHeader.
  destruct (accept_ok g params now adjusted_time (S (size (m_orphan_headers c))) c header st true Hc Hh Htot ltac:(lia))
    as (r & st1 & c1 & E & [Hc1 Hac _ _ Hsame] & Ho). rewrite E. destruct r as [p|].
  2:{ destruct Ho as (-> & Hk & Hno). exists t. split_and!; try done.
      - split; [done|]. intros [Hkv|[st2 Ha]]; [by destruct Hk|]. by specialize (Hno st2 Ha). }
  pose proof (outcome_block g adjusted_time c header st true p st1 c1 Hc1 Ho) as (-> & b & Hb & Hv). fold hash in Hb |- *.
  destruct Hc1 as (Hwf1 & Hst1 & Hlc1).
  assert (Ht1 : tip c1 = Some t) by (unfold tip; by rewrite (ac_active _ _ Hac)).
  destruct (Z.ltb_spec 0 (nChainWork b)) as [Hw|Hw].
  2:{ unfold Act.TryAddBlockIndexCandidate, Selector.TryAddBlockIndexCandidate. rewrite Hb.
      pose proof (bw_height _ _ _ _ (cw_index g c1 Hwf1 hash b Hb)) as Hbh.
      rewrite (proj2 (Z.leb_le _ _) Hbh), (proj2 (Z.ltb_ge _ _) Hw). cbn [negb]. by exists (Some hash), st1, c1, b. }
  destruct (try_add_ok g c1 hash b Hwf1 Hb Hw) as (s & -> & Hwf2 & Hfrom & Hleaf & Hnl).
  destruct (with_sel_fields s c1) as (E1 & E2 & E3 & E4). set (c2 := with_sel s c1) in *.
  assert (Hat : at_tip g c2 t) by (apply tip_at; [done|]; unfold tip; by rewrite E2).
  unfold Act.ActivateBestChain.
  destruct (activate_loop_ok g (S (S (length (candidates c2)))) c2 t [] Hat) as (c3 & t' & evs & -> & Hav); [lia|].
  destruct (activated_wf g c2 t _ c3 t' evs Hat Hav) as [(Hwf3 & Hk3 & Ha3) Ei]. destruct Hav as [_ _ Hm Hbest].
  rewrite E1 in *. rewrite E3, E4, (ac_depth _ _ Hac) in *. exists t'. rewrite Ei. cbn [app].
  split; [unfold cs_inv; rewrite Ei; by split_and!|]. split; [apply (tip_of g); [apply Hwf3|done|done]|].
  split; [|split; [done|split; [|split; [done|]]]].
  - destruct Hm as [[-> _]|(f & _ & _ & Hmw & _)]; [lia|]. apply Z.ltb_lt in Hmw. lia.
  - split; [|done]. intros _. destruct Ho as (_ & [[Hkv _]|[Ha _]]); [by left|right; by exists st1].
  - intros _. split; [by eexists|]. split.
    + intros Hnc. destruct (Z.leb_spec (deref nChainWork 0 (index c1) hash) (deref nChainWork 0 (index c1) t')); [by left|right].
      apply Hbest; [by apply Hleaf|by eapply valid_usable|by apply Z.ltb_lt].
    + intros Hch. destruct Hm as [[-> _]|(f & Hin & _)]; [by left|right]. specialize (Hnl Hch). subst s.
      by rewrite (ac_cands _ _ Hac) in Hin.
Qed.

(** C1: processing a header preserves the invariant and never lowers the work of the tip; the
    known blocks do not change.  It succeeds exactly when the header is known and valid or
    acceptable, and otherwise changes nothing.  On success the header is in the index, and if it is a leaf
    then the tip has at least its work or the policy refused it; if it is not a leaf, only the former
    candidates compete.  An assertion can fail only when the accumulated work of the
    header's chain has wrapped around to zero. *)
Theorem process_header_exact `{HeaderChecks} (g : uint256) `{!LawfulChecks g} (params : ChainParams) (now adjusted_time : Z)
  (c : Chainstate) (t : block_ptr) (header : CBlockHeader) (st : ValidationState) :
  cs_inv g c -> header_wf header -> total c < 2 ^ 31 -> tip c = Some t ->
  let hash := Header.GetHash header in
  match Act.ProcessNewBlockHeader params now adjusted_time c header st with
  | None => exists r st1 c1 b, AcceptBlockHeader params now adjusted_time c header st true = Some (r, st1, c1) /\
      index c1 !! hash = Some b /\ nChainWork b <= 0
  | Some (r, st', c', ev) =>
      exists t', cs_inv g c' /\ tip c' = Some t' /\
      deref nChainWork 0 (index c') t <= deref nChainWork 0 (index c') t' /\
      (forall p b, index c !! p = Some b -> index c' !! p = Some b) /\
      (r = true <-> known_valid c header \/ exists st2, acceptable adjusted_time c header st st2) /\
      (r = false -> c' = c /\ ev = []) /\
      (r = true -> is_Some (index c' !! hash) /\
         (Selector.has_children (index c') hash = false ->
            deref nChainWork 0 (index c') hash <= deref nChainWork 0 (index c') t' \/
            policy_refuses (index c') (suspicious_reorg_depth_ c) t hash = true) /\
         (Selector.has_children (index c') hash = true -> t' = t \/ t' ∈ candidates c))
  end.
Proof. apply process_header_ok. Qed.

Lemma process_header_exact_witness :
  exists p, Params.Select 0 0 REGTEST = Some p /\
  let c := regtest_state p in let header := next_header in let t := regtest_hash in let hash := Header.GetHash header in
  match Act.ProcessNewBlockHeader p 1000 2000 c header Val.fresh with
  | None => exists r st1 c1 b, AcceptBlockHeader p 1000 2000 c header Val.fresh true = Some (r, st1, c1) /\
      index c1 !! hash = Some b /\ nChainWork b <= 0
  | Some (r, st', c', ev) =>
      exists t', cs_inv regtest_hash c' /\ tip c' = Some t' /\
      deref nChainWork 0 (index c') t <= deref nChainWork 0 (index c') t' /\
      (forall p b, index c !! p = Some b -> index c' !! p = Some b) /\
      (r = true <-> known_valid c header \/ exists st2, acceptable 2000 c header Val.fresh st2) /\
      (r = false -> c' = c /\ ev = []) /\
      (r = true -> is_Some (index c' !! hash) /\
         (Selector.has_children (index c') hash = false ->
            deref nChainWork 0 (index c') hash <= deref nChainWork 0 (index c') t' \/
            policy_refuses (index c') (suspicious_reorg_depth_ c) t hash = true) /\
         (Selector.has_children (index c') hash = true -> t' = t \/ t' ∈ candidates c))
  end.
Proof.
  destruct (select_ok 0 0 REGTEST) as (p & E & _). exists p. split; [exact E|]. intros c header t hash.
  apply (process_header_exact regtest_hash p 1000 2000 c t header Val.fresh (regtest_inv p) next_header_wf).
  - unfold c. rewrite regtest_total. lia.
  - unfold c, regtest_state, genesis_state, tip. cbn [active block_manager_ BM.m_active_chain]. rewrite regtest_hash_eq. reflexivity.
Defined.

(** The tip is announced exactly when it moves. *)
Lemma process_header_events `{HeaderChecks} g `{!LawfulChecks g} params now adjusted_time c t header st r st' c' ev :
  cs_inv g c -> header_wf header -> total c < 2 ^ 31 -> tip c = Some t ->
  Act.ProcessNewBlockHeader params now adjusted_time c header st = Some (r, st', c', ev) ->
  tip c' = Some t /\ ev = [] \/ exists w h, tip c' = Some w /\ w <> t /\ ChainTip w h ∈ ev.
Proof.
  intros Hc Hh Htot Ht. unfold Act.ProcessNewBlockHeader, AcceptBlockHeader.
  destruct (accept_ok g params now adjusted_time (S (size (m_orphan_headers c))) c header st true Hc Hh Htot ltac:(lia))
    as (r1 & st1 & c1 & -> & [Hc1 Hac _ _ _] & Ho). destruct r1 as [p|].
  2:{ destruct Ho as (-> & _). intros [= <- <- <- <-]. by left. }
  pose proof (outcome_block g adjusted_time c header st true p st1 c1 Hc1 Ho) as (-> & b & Hb & _).
  destruct (Act.TryAddBlockIndexCandidate c1 _) as [c2|] eqn:E2; [|done]. destruct (Z.ltb_spec 0 (nChainWork b)) as [Hw|Hw].
  2:{ unfold Act.TryAddBlockIndexCandidate, Selector.TryAddBlockIndexCandidate in E2. rewrite Hb, (proj2 (Z.ltb_ge _ _) Hw) in E2.
      by destruct (negb (0 <=? nHeight b)). }
  destruct (try_add_ok g c1 _ b (proj1 Hc1) Hb Hw) as (s & E2' & Hwf2 & _). rewrite E2' in E2. injection E2 as <-.
  destruct (with_sel_fields s c1) as (E1 & E2 & _). set (c2 := with_sel s c1) in *.
  assert (Hat : at_tip g c2 t) by (apply tip_at; [done|]; unfold tip; by rewrite E2, (ac_active _ _ Hac)).
  unfold Act.ActivateBestChain.
  destruct (activate_loop_ok g (S (S (length (candidates c2)))) c2 t [] Hat) as (c3 & t' & evs & -> & Hav); [lia|].
  destruct (activated_wf g c2 t _ c3 t' evs Hat Hav) as [(Hwf3 & Hk3 & Ha3) _].
  assert (Ht3 : tip c3 = Some t') by (apply (tip_of g); [apply Hwf3|done|done]).
  intros [= <- <- <- <-]. destruct (av_move _ _ _ _ _ _ Hav) as [[-> ->]|(f & _ & _ & Hmw & _ & _ & ->)]; [by left|right].
  exists t', (deref nHeight 0 (index c2) t'). split_and!; [done| |].
  - intros ->. apply Z.ltb_lt in Hmw. lia.
  - unfold switch_events. cbn [app]. rewrite !elem_of_app, list_elem_of_singleton. by right; right.
Qed.

(** A child of [next_header], known before its parent. *)
Definition child_header : CBlockHeader :=
  mkHeader 1 (Header.GetHash next_header) (Blob.SetNull 20) 1296688900 0x207fffff 9 (Blob.SetNull 32).

(** The child arrives first and waits in the pool; then its parent is processed. *)
Definition child_first (p : ChainParams) : option (bool * Chainstate) :=
  let '(_, c) := TryAddOrphanHeader p 1000 child_header 7 (regtest_state p) in
  match Act.ProcessNewBlockHeader p 1000 1296689000 c next_header Val.fresh with
  | Some (r, _, c', _) => Some (r, c')
  | None => None
  end.

(** No candidate has more work than the tip. *)
Definition settled (c : Chainstate) (t : block_ptr) : Prop :=
  forall q, q ∈ candidates c -> deref nChainWork 0 (index c) q <= deref nChainWork 0 (index c) t.

Lemma settled_activate g c t : cs_wf g c -> tip c = Some t -> settled c t ->
  exists s, fewer (chain_selector_ c) s /\ Act.ActivateBestChain c None = Some (true, with_sel s (with_tip t c), []).
Proof.
  intros Hwf Ht Hset. pose proof (tip_at g c t Hwf Ht) as Hat. unfold Act.ActivateBestChain.
  destruct (activate_loop_ok g (S (S (length (candidates c)))) c t [] Hat) as (c' & t' & evs & E & Hav); [lia|].
  destruct Hav as [(s & Hs & ->) _ Hm _]. destruct Hm as [[-> ->]|(f & Hin & _ & Hmw & _)]; [by exists s|].
  apply Z.ltb_lt in Hmw. specialize (Hset t' Hin). lia.
Qed.

Lemma settled_fewer g c t s : cs_wf g c -> tip c = Some t -> settled c t -> fewer (chain_selector_ c) s ->
  let c' := with_sel s (with_tip t c) in cs_wf g c' /\ tip c' = Some t /\ settled c' t /\ (forall q, q ∈ candidates c' -> q ∈ candidates c).
Proof.
  intros Hwf Ht Hset Hs c'. pose proof (tip_at g c t Hwf Ht) as (_ & Hk & Ha).
  destruct (with_sel_fields s (with_tip t c)) as (E1 & E2 & E3 & _). fold c' in E1, E2, E3. rewrite index_with_tip in E1. rewrite active_with_tip in E2.
  assert (Hwf' : cs_wf g c') by (apply fewer_wf; [by apply with_tip_wf|by rewrite sel_with_tip]).
  assert (Hc : forall q, q ∈ candidates c' -> q ∈ candidates c) by (intros q; unfold candidates; rewrite E3; intros Hq; eapply elem_of_sublist; [exact Hq|apply Hs]).
  split_and!; [done| | |done].
  - apply (tip_of g); [apply Hwf'|by rewrite E1|by rewrite E1, E2].
  - intros q Hq. rewrite E1. by apply Hset, Hc.
Qed.

(** C38: an orphan can stall its chain.  In any state whose tip has at least the work of every candidate, process a new
    header while a child of it waits in the orphan pool.  If the header is accepted the child leaves the pool; and if the child
    thereby enters the index, the call reports success with the tip where it was and no notification, whatever work the
    two have: neither is a candidate, because the parent is no longer a leaf when it is offered and the accepted orphan
    is never offered, and activating the best chain again does not move the tip either.  (An assertion fails only when the work of the header's chain has wrapped around
    to zero.) *)
Theorem orphan_child_stalls_tip `{HeaderChecks} (g : uint256) `{!LawfulChecks g} (params : ChainParams) (now adjusted_time : Z)
  (c : Chainstate) (t h : block_ptr) (x : OrphanHeader) (header : CBlockHeader) (st : ValidationState) :
  cs_inv g c -> header_wf header -> total c < 2 ^ 31 -> tip c = Some t -> settled c t ->
  let hash := Header.GetHash header in
  index c !! hash = None -> index c !! h = None ->
  m_orphan_headers c !! h = Some x -> hashPrevBlock (o_header x) = hash ->
  match Act.ProcessNewBlockHeader params now adjusted_time c header st with
  | None => exists r st1 c1 b, AcceptBlockHeader params now adjusted_time c header st true = Some (r, st1, c1) /\
      index c1 !! hash = Some b /\ nChainWork b <= 0
  | Some (r, st', c', ev) =>
      (r = true -> m_orphan_headers c' !! h = None) /\
      ((exists b, index c' !! h = Some b /\ pprev b = Some hash) ->
       r = true /\ tip c' = Some t /\ ev = [] /\ (hash ∉ candidates c') /\ (h ∉ candidates c') /\
       exists c2, Act.ActivateBestChain c' None = Some (true, c2, []) /\ tip c2 = Some t)
  end.
Proof.
  intros Hc Hh Htot Ht Hset hash Hnew Hnewh Hx Hprev.
  unfold Act.ProcessNewBlockHeader, AcceptBlockHeader.
  destruct (accept_ok g params now adjusted_time (S (size (m_orphan_headers c))) c header st true Hc Hh Htot ltac:(lia))
    as (r & st1 & c1 & E & [Hc1 Hac _ _ Hsame] & Ho). rewrite E. destruct r as [p|].
  2:{ destruct Ho as (-> & _). split; [done|]. intros (b & Hb & _). congruence. }
  pose proof (outcome_block g adjusted_time c header st true p st1 c1 Hc1 Ho) as (-> & b & Hb & Hv). fold hash in Hb |- *.
  destruct Ho as (_ & [[(b' & Hb' & _) _]|(_ & _ & _ & Hgone)]); [fold hash in Hb'; congruence|]. fold hash in Hgone.
  assert (Hpool : m_orphan_headers c1 !! h = None).
  { destruct (m_orphan_headers c1 !! h) as [y|] eqn:Ey; [|done]. exfalso. apply (Hgone h y Ey).
    pose proof (lookup_weaken _ _ _ _ Ey (ac_orphans _ _ Hac)). by simplify_eq. }
  destruct Hc1 as (Hwf1 & Hst1 & Hlc1).
  destruct (Z.ltb_spec 0 (nChainWork b)) as [Hw|Hw].
  2:{ unfold Act.TryAddBlockIndexCandidate, Selector.TryAddBlockIndexCandidate. rewrite Hb.
      pose proof (bw_height _ _ _ _ (cw_index g c1 Hwf1 hash b Hb)) as Hbh.
      rewrite (proj2 (Z.leb_le _ _) Hbh), (proj2 (Z.ltb_ge _ _) Hw). cbn [negb]. by exists (Some hash), st1, c1, b. }
  destruct (try_add_ok g c1 hash b Hwf1 Hb Hw) as (s & -> & Hwf2 & _ & _ & Hnl).
  assert (Ht1 : tip c1 = Some t) by (unfold tip; by rewrite (ac_active _ _ Hac)).
  assert (Hset1 : settled c1 t).
  { intros q. rewrite (ac_cands _ _ Hac). intros Hq. specialize (Hset q Hq). destruct Hc as (Hwf & _ & _).
    pose proof (tip_at g c t Hwf Ht) as (_ & [bt Hbt] & _). destruct (cw_known g c Hwf q Hq) as [bq Hbq].
    by rewrite (deref_eq _ _ _ _ _ (Hsame _ _ Hbt)), (deref_eq _ _ _ _ _ (Hsame _ _ Hbq)), <- (deref_eq nChainWork 0 _ _ _ Hbt), <- (deref_eq nChainWork 0 _ _ _ Hbq). }
  assert (Hnc : forall q, index c !! q = None -> q ∉ candidates c1).
  { intros q Hq Hin. rewrite (ac_cands _ _ Hac) in Hin. destruct (cw_known g c (proj1 Hc) q Hin). congruence. }
  destruct (with_sel_fields s c1) as (E1 & E2 & E3 & _). set (c2 := with_sel s c1) in *.
  assert (Ht2 : tip c2 = Some t) by (unfold tip; by rewrite E2).
  unfold Act.ActivateBestChain at 1.
  destruct (activate_loop_ok g (S (S (length (candidates c2)))) c2 t [] (tip_at g c2 t Hwf2 Ht2)) as (c3 & t' & evs & -> & Hav); [lia|].
  destruct (activated_wf g c2 t _ c3 t' evs (tip_at g c2 t Hwf2 Ht2) Hav) as [_ Ei]. destruct Hav as [(s3 & Hs3 & ->) _ Hm _].
  rewrite Ei, E1. split; [intros _; by destruct c1|]. intros (bh & Hbh & Hpp).
  assert (Hch : Selector.has_children (index c1) hash = true) by (apply has_children_spec; by exists h, bh).
  specialize (Hnl Hch). subst s. assert (Ec2 : c2 = c1) by (unfold c2; apply with_sel_self). rewrite Ec2 in *. clear c2 Ec2.
  destruct Hm as [[-> ->]|(f & Hin & _ & Hmw & _)]; [|apply Z.ltb_lt in Hmw; specialize (Hset1 t' Hin); lia].
  destruct (settled_fewer g c1 t s3 Hwf1 Ht1 Hset1 Hs3) as (Hwf3 & Ht3 & Hset3 & Hsub).
  split_and!; [done|done|done|by intros Hq%Hsub%Hnc|by intros Hq%Hsub%Hnc|].
  destruct (settled_activate g _ t Hwf3 Ht3 Hset3) as (s4 & Hs4 & ->). eexists. split; [done|].
  by apply (settled_fewer g _ t s4 Hwf3 Ht3 Hset3 Hs4).
Qed.

(** A regtest node in this situation: the child of [next_header] waits, then [next_header] is processed. *)
Lemma child_first_stalls :
  match (p ← Params.Select 0 0 REGTEST; child_first p) with
  | Some (r, c) =>
      r = true /\ tip c = Some regtest_hash /\ candidates c = [regtest_hash] /\
      deref (fun b => Idx.IsValid b BLOCK_VALID_TREE) false (index c) (Header.GetHash child_header) = true /\
      deref nHeight 0 (index c) (Header.GetHash child_header) = 2 /\
      deref nChainWork 0 (index c) regtest_hash < deref nChainWork 0 (index c) (Header.GetHash next_header) <
        deref nChainWork 0 (index c) (Header.GetHash child_header)
  | None => False
  end.
Proof. vm_compute. split_and!; reflexivity. Qed.

Lemma add_orphan_inv `{HeaderChecks} g `{!LawfulChecks g} params t hd p c : cs_inv g c -> header_wf hd ->
  cs_inv g (snd (TryAddOrphanHeader params t hd p c)).
Proof.
  intros ([W1 W2 W3 W4 W5 W6 W7] & Hs & Hi) Hh. pose proof (try_add_orphan_ok params t hd p c W6) as Ho.
  destruct (TryAddOrphanHeader params t hd p c) as [r c']. cbn [snd]. destruct Ho as (O1 & _ & _ & O4 & O5 & _).
  destruct (with_orphans_fields (m_orphan_headers c') (m_peer_orphan_count c') c) as (E1 & E2 & E3 & _).
  rewrite <- O4 in E1, E2, E3. split_and!; [|by rewrite E1|by rewrite E1]. split; rewrite ?E1, ?E2, ?E3; try done.
  intros q x Hq. destruct (O5 q x Hq) as [Hq'|[_ ->]]; [by apply (W7 q)|done].
Qed.

(** The situation of the theorem, computed. *)
Definition child_waits (p : ChainParams) : Chainstate := snd (TryAddOrphanHeader p 1000 child_header 7 (regtest_state p)).
Definition child_first_ok (p : ChainParams) (c : Chainstate) : bool :=
  let h := Header.GetHash child_header in
  bool_decide (tip c = Some regtest_hash) && bool_decide (candidates c = [regtest_hash]) && (total c <? 2 ^ 31) &&
  bool_decide (index c !! Header.GetHash next_header = None) && bool_decide (index c !! h = None) &&
  bool_decide ((hashPrevBlock ∘ o_header) <$> m_orphan_headers c !! h = Some (Header.GetHash next_header)) &&
  match Act.ProcessNewBlockHeader p 1000 1296689000 c next_header Val.fresh with
  | Some (_, _, c', _) => bool_decide ((index c' !! h) ≫= pprev = Some (Header.GetHash next_header))
  | None => false
  end.

Lemma child_header_wf : header_wf child_header.
Proof. repeat split; vm_compute; try reflexivity; repeat constructor; try discriminate. Qed.

Lemma orphan_child_stalls_tip_witness : exists p, Params.Select 0 0 REGTEST = Some p /\
  let c := child_waits p in
  match Act.ProcessNewBlockHeader p 1000 1296689000 c next_header Val.fresh with
  | Some (r, _, c', ev) => r = true /\ tip c' = Some regtest_hash /\ ev = [] /\ m_orphan_headers c' !! Header.GetHash child_header = None
  | None => False
  end.
Proof.
  destruct (select_ok 0 0 REGTEST) as (p & E & _). exists p. split; [exact E|]. cbv zeta.
  assert (Hok : match (p ← Params.Select 0 0 REGTEST; Some (child_first_ok p (child_waits p))) with Some r => r | None => false end = true)
    by (vm_compute; reflexivity).
  rewrite E in Hok. cbn [mbind option_bind] in Hok.
  pose proof (add_orphan_inv regtest_hash p 1000 child_header 7 _ (regtest_inv p) child_header_wf : cs_inv regtest_hash (child_waits p)) as Hc.
  revert Hok Hc. generalize (child_waits p). intros c Hok Hc. unfold child_first_ok in Hok. cbv zeta in Hok.
  rewrite !andb_true_iff, !bool_decide_eq_true, Z.ltb_lt in Hok. destruct Hok as ((((((Ht & Hcand) & Htot) & Hn) & Hnh) & Ho) & Hp).
  destruct (m_orphan_headers c !! Header.GetHash child_header) as [x|] eqn:Ex; [|discriminate Ho].
  pose proof (Some_inj _ _ Ho : hashPrevBlock (o_header x) = Header.GetHash next_header) as Hx.
  pose proof (orphan_child_stalls_tip regtest_hash p 1000 1296689000 c regtest_hash (Header.GetHash child_header) x next_header Val.fresh
    Hc next_header_wf Htot Ht) as Hst. cbv zeta in Hst.
  specialize (Hst ltac:(intros q; rewrite Hcand, list_elem_of_singleton; intros ->; lia) Hn Hnh Ex Hx).
  destruct Act.ProcessNewBlockHeader as [[[[r st'] c'] ev]|]; [|discriminate Hp]. apply bool_decide_eq_true in Hp.
  destruct Hst as [H1 H2]. destruct (index c' !! Header.GetHash child_header) as [b|] eqn:Eb; [|discriminate Hp]. cbn [mbind option_bind] in Hp.
  destruct (H2 (ex_intro _ b (conj eq_refl Hp))) as (Hr & Ht' & Hev & _). exact (conj Hr (conj Ht' (conj Hev (H1 Hr)))).
Defined.
