(* ===== verification/Invalidate.v ===== *)
(** * Invalidate: [InvalidateBlock]

    Theorems about the invalidation of a block ([Act.InvalidateBlock]): the branch above it
    leaves the active chain, it and its descendants are marked as failed, and the candidate set offers
    every other branch that could replace it. *)
From Stdlib Require Import String.
From S2P Require Import Prelude Arith Bytes Compact Sha256 Block BlockIndex Chain ChainParams Pow RandomX Validation.
From S2P Require Import ChainSelector BlockManager SameTree Persist Chainstate OrphanPool Accept Activation Reorg ChainstateProps.
#[local] Open Scope Z_scope.
Import Idx (CBlockIndex, mkIndex, nHeight, pprev, pskip, nChainWork, nStatus, nTimeMax, nTimeReceived).
Import CS.

(** ** Changing the candidate set *)

(** Only the candidates change, and they stay a set of known blocks. *)
Record reselects (c c' : Chainstate) : Prop := {
  rs_state : exists s, c' = with_sel s c;
  rs_cand : cand_wf (index c) (candidates c) -> cand_wf (index c) (candidates c');
  rs_known p : p ∈ candidates c' -> p ∈ candidates c \/ is_Some (index c !! p);
  rs_best : best_header c' = best_header c
}.

Lemma reselects_index c c' : reselects c c' -> index c' = index c /\ active c' = active c.
Proof. intros [(s & ->) _ _ _]. by destruct c. Qed.

#[export] Instance reselects_preorder : PreOrder reselects.
Proof.
  split; [intros c; split; auto; exists (chain_selector_ c); by rewrite with_sel_self|].
  intros c1 c2 c3 H12 H23. destruct (reselects_index c1 c2 H12) as [E1 _].
  destruct H12 as [(s & ->) H1 H2 H3], H23 as [(s' & ->) H1' H2' H3']. rewrite E1 in *. split.
  - exists s'. by destruct c1.
  - auto.
  - intros p Hp. destruct (H2' p Hp); auto.
  - congruence.
Qed.

Lemma reselects_wf g c c' : cs_wf g c -> reselects c c' -> cs_wf g c'.
Proof.
  intros [Hi Ha Hc Hk Hb Hp Hh] Hr. destruct (reselects_index c c' Hr) as [E1 E2]. destruct Hr as [(s & ->) H1 H2 H3].
  split; rewrite ?E1, ?E2; auto.
  - intros p Hpin. destruct (H2 p Hpin); auto.
  - by rewrite H3.
  - eapply pool_wf_with; [| |exact Hp]; by destruct c.
  - intros h x Hx. apply (Hh h x). by destruct c.
Qed.

Section Candidates.
Context (g : uint256).

Lemma add_reselects c p : index_wf g (index c) -> is_Some (index c !! p) -> let c' := update_sel (Selector.AddCandidateUnchecked (index c) (Some p)) c in
  reselects c c' /\ (cand_wf (index c) (candidates c) -> forall q, q ∈ candidates c' <-> q = p \/ q ∈ candidates c).
Proof.
  intros Hi [b Hb] c'. pose proof (proj1 (index_key g _ p b Hi Hb)) as Hl.
  assert (Ec : candidates c' = Selector.set_insert (Selector.compare (index c)) p (candidates c)) by by destruct c.
  assert (Hin : forall l, Forall (fun p => length p = 32%nat) l -> forall q, q ∈ Selector.set_insert (Selector.compare (index c)) p l <-> q = p \/ q ∈ l).
  { intros l Hll q. by apply set_insert_elem. }
  split; [split|].
  - by exists (Selector.AddCandidateUnchecked (index c) (Some p) (chain_selector_ c)).
  - intros Hc. rewrite Ec. by apply set_insert_wf.
  - intros q. rewrite Ec. clear -Hb. induction (candidates c) as [|x l IH]; cbn [Selector.set_insert].
    + intros Hq. apply list_elem_of_singleton in Hq as ->. right. by eexists.
    + destruct (Selector.compare (index c) p x); [|destruct (Selector.compare (index c) x p); [|auto]]; intros Hq;
        apply elem_of_cons in Hq as [->|Hq]; [right; by eexists|by left|left; apply list_elem_of_here|].
      destruct (IH Hq); [left; by apply list_elem_of_further|by right].
  - by destruct c.
  - intros [_ Hll] q. rewrite Ec. by apply Hin.
Qed.

Lemma remove_reselects c p : cand_wf (index c) (candidates c) -> length p = 32%nat ->
  let c' := update_sel (Selector.RemoveCandidate (index c) (Some p)) c in
  reselects c c' /\ forall q, q ∈ candidates c' <-> q ∈ candidates c /\ q <> p.
Proof.
  intros Hc Hl c'. assert (Ec : candidates c' = Selector.set_erase (Selector.compare (index c)) p (candidates c)) by by destruct c.
  split; [split|].
  - by exists (Selector.RemoveCandidate (index c) (Some p) (chain_selector_ c)).
  - intros _. rewrite Ec. eapply sorted_sublist; [apply set_erase_sublist|done].
  - intros q. rewrite Ec. intros Hq. left. by eapply elem_of_sublist; [|apply set_erase_sublist].
  - by destruct c.
  - intros q. rewrite Ec. by apply set_erase_elem.
Qed.

(** Offering the blocks of a list that satisfy a test. *)
Lemma offer_reselects (step : Chainstate -> block_ptr -> Chainstate) (test : block_map -> block_ptr -> bool) l c :
  (forall c h, step c h = if test (index c) h then update_sel (Selector.AddCandidateUnchecked (index c) (Some h)) c else c) ->
  index_wf g (index c) -> cand_wf (index c) (candidates c) -> Forall (fun h => is_Some (index c !! h)) l ->
  let c' := foldl step c l in
  reselects c c' /\ forall q, q ∈ candidates c' <-> q ∈ candidates c \/ (q ∈ l /\ test (index c) q = true).
Proof.
  intros Hstep. revert c. induction l as [|h l IH]; intros c Hi Hc Hl; cbn [foldl].
  { split; [reflexivity|]. intros q. split; [by left|]. intros [?|[Hq _]]; [done|]. by apply not_elem_of_nil in Hq. }
  apply Forall_cons in Hl as [Hh Hl]. rewrite Hstep. destruct (test (index c) h) eqn:Et.
  - destruct (add_reselects c h Hi Hh) as [Hr Hm]. specialize (Hm Hc). set (c1 := update_sel _ c) in *.
    destruct (reselects_index c c1 Hr) as [E1 _]. destruct (IH c1) as [Hr2 Hm2].
    { by rewrite E1. } { rewrite E1. by apply (rs_cand _ _ Hr). } { by rewrite E1. }
    split; [by etrans|]. intros q. rewrite Hm2, Hm, E1, elem_of_cons. split.
    + intros [[->|?]|[? ?]]; auto.
    + intros [?|[[->|?] ?]]; auto.
  - destruct (IH c Hi Hc Hl) as [Hr2 Hm2]. split; [done|]. intros q. rewrite Hm2, elem_of_cons. split.
    + intros [?|[? ?]]; auto.
    + intros [?|[[->|?] ?]]; auto. congruence.
Qed.
End Candidates.

(** ** Marking blocks as failed *)

(** Operations on the state other than the index, the candidates and the set of failed blocks keep the invariant. *)
Lemma with_failed_fields f c : index (with_failed f c) = index c /\ active (with_failed f c) = active c /\
  chain_selector_ (with_failed f c) = chain_selector_ c /\ m_orphan_headers (with_failed f c) = m_orphan_headers c /\
  m_peer_orphan_count (with_failed f c) = m_peer_orphan_count c.
Proof. by destruct c. Qed.

Lemma with_failed_wf g f c : cs_wf g c -> cs_wf g (with_failed f c).
Proof.
  intros [Hi Ha Hc Hk Hb Hp Hh]. destruct (with_failed_fields f c) as (E1 & E2 & E3 & E4 & E5).
  split; rewrite ?E1, ?E2, ?E3, ?E4; try done. by eapply pool_wf_with.
Qed.

(** The blocks of [l] are marked as failed and are no candidates any more; nothing else changes. *)
Record marks (g : uint256) (l : list block_ptr) (c c' : Chainstate) : Prop := {
  mk_wf : cs_wf g c';
  mk_same : same_tree (index c') (index c);
  mk_active : active c' = active c;
  mk_kept p : p ∉ l -> index c' !! p = index c !! p;
  mk_failed p b : p ∈ l -> index c' !! p = Some b -> failed b = true;
  mk_cands p : p ∈ candidates c' <-> p ∈ candidates c /\ p ∉ l
}.

Lemma marks_nil g c : cs_wf g c -> marks g [] c c.
Proof. intros Hwf. split; try done; [intros p b Hp; by apply not_elem_of_nil in Hp|]. intros p. split; [|tauto]. intros Hp. split; [done|apply not_elem_of_nil]. Qed.

Lemma marks_trans g l l' c1 c2 c3 : marks g l c1 c2 -> marks g l' c2 c3 -> marks g (l ++ l') c1 c3.
Proof.
  intros [A1 A2 A3 A4 A5 A6] [B1 B2 B3 B4 B5 B6]. split; [done|by etrans|congruence| | |].
  - intros p Hp. rewrite not_elem_of_app in Hp. destruct Hp as [H1 H2]. by rewrite B4, A4.
  - intros p b Hp Hb. destruct (decide (p ∈ l')) as [H2|H2]; [by apply (B5 p)|]. apply elem_of_app in Hp as [H1|?]; [|done].
    rewrite B4 in Hb by done. by apply (A5 p).
  - intros p. rewrite B6, A6, not_elem_of_app. tauto.
Qed.

(** One block. *)
Lemma mark_one g f `{!KeepsShape f} h c : (forall b, failed (f b) = true) -> cs_wf g c -> is_Some (index c !! h) ->
  let c1 := with_failed ({[h]} ∪ m_failed_blocks (update_entry f h c)) (update_entry f h c) in
  marks g [h] c (update_sel (Selector.RemoveCandidate (index c1) (Some h)) c1).
Proof.
  intros Hf Hwf [b Hb] c1. set (c0 := update_entry f h c). pose proof (update_same f h c) as Hs. fold c0 in Hs.
  pose proof (same_state_index _ _ Hs) as Hst. assert (Hwf1 : cs_wf g c1) by (apply with_failed_wf; by eapply same_state_wf).
  pose proof (with_failed_fields ({[h]} ∪ m_failed_blocks c0) c0) as Hff. change (with_failed _ c0) with c1 in Hff.
  destruct Hff as (E1 & E2 & E3 & _).
  assert (Ei : index c1 = alter f h (index c)) by (rewrite E1; unfold c0, update_entry; by rewrite index_with_index).
  assert (Ea : active c1 = active c) by (rewrite E2; unfold c0, update_entry; by rewrite active_with_index).
  assert (Ec : candidates c1 = candidates c) by (rewrite E3; unfold c0, update_entry; by rewrite sel_with_index).
  pose proof (proj1 (index_key g _ h b (cw_index _ _ Hwf) Hb)) as Hlen.
  destruct (remove_reselects c1 h (cw_cand _ _ Hwf1) Hlen) as [Hr Hm]. set (c2 := update_sel _ c1) in *.
  destruct (reselects_index c1 c2 Hr) as [R1 R2].
  split; [by eapply reselects_wf|rewrite R1, Ei; by apply alter_same|congruence| | |].
  - intros p Hp. rewrite R1, Ei. apply lookup_alter_ne. intros ->. apply Hp, list_elem_of_here.
  - intros p x Hp Hx. apply list_elem_of_singleton in Hp as ->. rewrite R1, Ei, lookup_alter_eq, Hb in Hx.
    injection Hx as <-. apply Hf.
  - intros p. by rewrite Hm, Ec, list_elem_of_singleton.
Qed.

Lemma failed_bit b s : Z.land s BLOCK_FAILED_MASK <> 0 -> failed (Idx.set_nStatus s b) = true.
Proof. intros Hs. unfold failed. assert (nStatus (Idx.set_nStatus s b) = s) as -> by by destruct b. by apply negb_true_iff, Z.eqb_neq. Qed.

Lemma failed_lor b s x : (x = BLOCK_FAILED_VALID \/ x = BLOCK_FAILED_CHILD) -> failed (Idx.set_nStatus (Z.lor s x) b) = true.
Proof.
  intros Hx. apply failed_bit. intros E. assert (Ht : Z.testbit (Z.land (Z.lor s x) BLOCK_FAILED_MASK) (Z.log2 x) = true).
  { rewrite Z.land_spec, Z.lor_spec. destruct Hx as [->| ->]; by rewrite orb_true_r. }
  rewrite E, Z.bits_0 in Ht. done.
Qed.

Lemma mark_valid_failed b : failed (set_status_bits BLOCK_FAILED_VALID b) = true.
Proof. apply failed_lor. by left. Qed.
Lemma mark_child_failed b : failed (Act.mark_descendant b) = true.
Proof. apply failed_lor. by right. Qed.

#[export] Instance ks_bits x : KeepsShape (set_status_bits x).
Proof. intros []. done. Qed.
#[export] Instance ks_mark : KeepsShape Act.mark_descendant.
Proof. intros []. done. Qed.

Lemma is_descendant_ok m p h b : tree_wf m -> m !! h = Some b -> is_Some (m !! p) ->
  Act.is_descendant m p h = true <-> ancestor m p h.
Proof.
  intros Hwf Hb [bp Hp]. unfold Act.is_descendant. rewrite (GetAncestor_ok m Hwf h b _ Hb), bool_decide_eq_true, (deref_eq nHeight 0 m p bp Hp).
  split.
  - intros E. injection E as E. by eapply ancestor_at_ancestor.
  - intros Ha. destruct (ancestor_height m Hwf p h b Hb Ha) as (bp' & Hp' & _ & E). rewrite Hp in Hp'. injection Hp' as <-. by rewrite E.
Qed.

Lemma is_descendant_same m m' p h : tree_wf m -> tree_wf m' -> same_tree m' m -> is_Some (m !! h) ->
  Act.is_descendant m' p h = Act.is_descendant m p h.
Proof.
  intros Hwf Hwf' Hs [b Hb]. destruct (same_lookup m m' h b (symmetry Hs) Hb) as (b' & Hb' & _).
  unfold Act.is_descendant. rewrite (GetAncestor_ok m Hwf h b _ Hb), (GetAncestor_ok m' Hwf' h b' _ Hb').
  by rewrite (deref_same nHeight 0 m' m p Hs), (ancestor_at_proper m' m Hs h h eq_refl _ _ eq_refl).
Qed.

Section Mark.
Context (g : uint256) (pindex : block_ptr).

Definition marked (m : block_map) (h : block_ptr) : bool := negb (bool_decide (h = pindex)) && Act.is_descendant m pindex h.

Lemma mark_fold ks c : cs_wf g c -> Forall (fun h => is_Some (index c !! h)) ks ->
  marks g (List.filter (marked (index c)) ks) c (foldl (Act.mark_step pindex) c ks).
Proof.
  revert c. induction ks as [|h ks IH]; intros c Hwf Hks; cbn [foldl List.filter]; [by apply marks_nil|].
  apply Forall_cons in Hks as [Hh Hks].
  assert (Hstep : marks g (if marked (index c) h then [h] else []) c (Act.mark_step pindex c h)).
  { unfold marked, Act.mark_step. case_bool_decide; cbn [negb andb]; [by apply marks_nil|].
    destruct (Act.is_descendant (index c) pindex h); [|by apply marks_nil]. exact (mark_one g Act.mark_descendant h c mark_child_failed Hwf Hh). }
  set (c1 := Act.mark_step pindex c h) in *. pose proof (mk_same _ _ _ _ Hstep) as Hst. pose proof (mk_wf _ _ _ _ Hstep) as Hwf1.
  assert (Hk : forall k, is_Some (index c1 !! k) <-> is_Some (index c !! k)) by (intros k; by apply (same_some_proper _ _ Hst k k eq_refl)).
  assert (Ef : List.filter (marked (index c1)) ks = List.filter (marked (index c)) ks).
  { apply filter_ext_in. intros k Hin. unfold marked. f_equal.
    apply is_descendant_same; [apply (index_tree g), Hwf|apply (index_tree g), Hwf1|done|].
    rewrite Forall_forall in Hks. apply Hks. by apply list_elem_of_In. }
  assert (Hks1 : Forall (fun k => is_Some (index c1 !! k)) ks) by (eapply Forall_impl; [exact Hks|]; intros k; apply Hk).
  pose proof (marks_trans g _ _ _ _ _ Hstep (IH c1 Hwf1 Hks1)) as Ht. rewrite Ef in Ht. by destruct (marked (index c) h).
Qed.

(** [invalidate_mark] marks the block and its descendants. *)
Lemma invalidate_mark_ok c : cs_wf g c -> is_Some (index c !! pindex) ->
  exists l, marks g l c (Act.invalidate_mark c pindex) /\ (forall p, p ∈ l <-> ancestor (index c) pindex p /\ is_Some (index c !! p)).
Proof.
  intros Hwf Hp. unfold Act.invalidate_mark.
  pose proof (mark_one g (set_status_bits BLOCK_FAILED_VALID) pindex c mark_valid_failed Hwf Hp) as H1.
  set (c1 := update_sel _ _) in *. pose proof (mk_same _ _ _ _ H1) as Hst. pose proof (mk_wf _ _ _ _ H1) as Hwf1.
  assert (Hk : forall k, is_Some (index c1 !! k) <-> is_Some (index c !! k)) by (intros k; by apply (same_some_proper _ _ Hst k k eq_refl)).
  pose proof (mark_fold (Persist.sorted_keys (index c1)) c1 Hwf1) as H2.
  eexists. split; [eapply marks_trans; [exact H1|apply H2]|].
  { apply Forall_forall. intros k Hkin. by apply sorted_keys_elem. }
  intros p. rewrite elem_of_app, list_elem_of_singleton. split.
  - intros [->|Hin]; [split; [apply ancestor_refl|done]|]. apply list_elem_of_In, filter_In in Hin as [Hin Hm].
    apply list_elem_of_In, sorted_keys_elem in Hin. split; [|by apply Hk]. unfold marked in Hm. apply andb_true_iff in Hm as [_ Hm].
    destruct Hin as [b Hb]. rewrite <- (ancestor_proper _ _ Hst pindex pindex eq_refl p p eq_refl).
    apply (is_descendant_ok _ _ _ b); [apply (index_tree g), Hwf1|done|by apply Hk|done].
  - intros [Ha Hkp]. destruct (decide (p = pindex)) as [->|Hne]; [by left|right]. apply list_elem_of_In, filter_In.
    pose proof (proj2 (Hk p) Hkp) as [b Hb]. split; [apply list_elem_of_In, sorted_keys_elem; by eexists|].
    unfold marked. rewrite bool_decide_false by done. cbn [negb andb].
    apply (is_descendant_ok _ _ _ b); [apply (index_tree g), Hwf1|done|by apply Hk|].
    by apply (ancestor_proper _ _ Hst pindex pindex eq_refl p p eq_refl).
Qed.
End Mark.

(** ** Disconnecting the branch *)

Lemma update_sel_compose f h c : update_sel f (update_sel h c) = update_sel (fun s => f (h s)) c.
Proof. by destruct c. Qed.

Lemma reselects_tip q c c' : reselects c c' -> reselects (with_tip q c) (with_tip q c').
Proof.
  intros [(s & ->) H1 H2 H3]. split; rewrite ?index_with_tip, ?sel_with_tip; auto. exists s. by destruct c.
Qed.

Section Loop.
Context (g : uint256) (pindex : block_ptr).

Lemma forks_reselects l c : index_wf g (index c) -> Forall (fun f => is_Some (index c !! f)) l ->
  reselects c (update_sel (fun s => foldl (fun s f => Selector.AddCandidateUnchecked (index c) (Some f) s) s l) c).
Proof.
  intros Hi Hl. set (m := index c). assert (Hgen : forall c1, index c1 = m ->
    reselects c1 (update_sel (fun s => foldl (fun s f => Selector.AddCandidateUnchecked m (Some f) s) s l) c1)); [|by apply Hgen].
  induction Hl as [|f l Hf Hl IH]; intros c1 E1; cbn [foldl].
  { unfold update_sel. rewrite with_sel_self. reflexivity. }
  destruct (add_reselects g c1 f) as [Hr _]; [by rewrite E1|by rewrite E1|].
  rewrite E1 in Hr. etrans; [exact Hr|]. destruct (reselects_index _ _ Hr) as [E2 _].
  rewrite <- (update_sel_compose (fun s => foldl (fun s f => Selector.AddCandidateUnchecked m (Some f) s) s l)).
  apply IH. by rewrite E2.
Qed.

(** One round: the tip becomes its parent. *)
Lemma loop_round c t b r forks ev fuel : at_tip g c t -> index c !! t = Some b -> pprev b = Some r ->
  ancestor (index c) pindex t -> is_Some (index c !! pindex) -> Forall (fun f => is_Some (index c !! f)) forks ->
  exists c1 forks1, Act.invalidate_loop (S fuel) c pindex forks ev =
      Act.invalidate_loop fuel c1 pindex forks1 (ev ++ [disconnected (index c) t]) /\
    reselects (with_tip r c) c1 /\ Forall (fun f => is_Some (index c !! f)) forks1.
Proof.
  intros (Hwf & Hk & Ha) Ht Hr Hanc [bp Hp] Hf. pose proof (cw_index _ _ Hwf) as Hi. pose proof (index_tree g _ Hi) as Htree.
  cbn [Act.invalidate_loop]. rewrite (tip_of g c t Hi Hk Ha), bool_decide_true by by eexists.
  rewrite Ha, (proj2 (contains_path _ Htree t b pindex bp Ht Hp) Hanc). cbn [negb orb].
  rewrite (disconnect_ok g c t b r ev Hwf Ht Ha Hr). rewrite !index_with_tip, (deref_eq pprev None _ t b Ht), Hr.
  set (c0 := with_tip r c). assert (E0 : index c0 = index c) by apply index_with_tip.
  destruct (bw_parent _ _ _ _ (Hi t b Ht) r Hr) as (rb & Hrb & _).
  assert (Hwf0 : cs_wf g c0) by (apply with_tip_wf; [done|by eexists]).
  destruct (remove_reselects c0 t (cw_cand _ _ Hwf0) (proj1 (index_key g _ t b Hi Ht))) as [R1 _]. rewrite E0 in R1.
  set (c1 := update_sel _ c0) in *. destruct (reselects_index _ _ R1) as [E1 _]. rewrite E0 in E1.
  destruct (add_reselects g c1 r) as [R2 _]; [by rewrite E1|rewrite E1; by eexists|]. rewrite E1 in R2.
  set (c2 := update_sel _ c1) in *. destruct (reselects_index _ _ R2) as [E2 _]. rewrite E1 in E2.
  set (viable := fun f => deref nChainWork 0 (index c) r <=? deref nChainWork 0 (index c) f).
  assert (Hv : forall p : block_ptr -> bool, Forall (fun f => is_Some (index c !! f)) (List.filter p forks)).
  { intros p. apply Forall_forall. intros f Hin. apply list_elem_of_In, filter_In in Hin as [Hin _].
    rewrite Forall_forall in Hf. apply Hf. by apply list_elem_of_In. }
  pose proof (forks_reselects (List.filter viable forks) c2 ltac:(by rewrite E2) ltac:(rewrite E2; apply Hv)) as R3. rewrite E2 in R3.
  eexists _, _. split; [reflexivity|]. split; [|apply Hv]. etrans; [exact R1|]. etrans; [exact R2|exact R3].
Qed.

Lemma invalidate_loop_ok fuel c t b bp q forks ev : at_tip g c t -> index c !! t = Some b -> ancestor (index c) pindex t ->
  index c !! pindex = Some bp -> pprev bp = Some q -> Forall (fun f => is_Some (index c !! f)) forks -> nHeight b < Z.of_nat fuel ->
  exists c', Act.invalidate_loop fuel c pindex forks ev =
      Some (true, c', ev ++ (disconnected (index c) <$> down (S (Z.to_nat (nHeight b - nHeight bp))) (index c) t)) /\
    reselects (with_tip q c) c'.
Proof.
  revert c t b forks ev. induction fuel as [|fuel IH]; intros c t b forks ev Hat Ht Hanc Hp Hq Hf Hh;
    pose proof Hat as (Hwf & _ & _); pose proof (cw_index _ _ Hwf) as Hi; pose proof (index_tree g _ Hi) as Htree;
    pose proof (bw_height _ _ _ _ (Hi t b Ht)) as Hh0.
  { lia. }
  destruct (bw_parent _ _ _ _ (Hi pindex bp Hp) q Hq) as (qb & Hqb & Hqh & _).
  destruct (ancestor_height _ Htree pindex t b Ht Hanc) as (bp' & Hp' & Hle & _). rewrite Hp in Hp'. injection Hp' as <-.
  pose proof (bw_height _ _ _ _ (Hi q qb Hqb)) as Hq0.
  destruct (pprev b) as [r|] eqn:Hr; [|destruct (bw_root _ _ _ _ (Hi t b Ht) Hr) as (_ & ? & _); lia].
  destruct (bw_parent _ _ _ _ (Hi t b Ht) r Hr) as (rb & Hrb & Hrh & _).
  destruct (loop_round c t b r forks ev fuel Hat Ht Hr Hanc ltac:(by eexists) Hf) as (c1 & forks1 & -> & R1 & Hf1).
  destruct (reselects_index _ _ R1) as [E1 E2]. rewrite index_with_tip in E1. rewrite active_with_tip in E2.
  assert (Hat1 : at_tip g c1 r).
  { split; [|by rewrite E1, E2; split; [eexists|]]. eapply reselects_wf; [|exact R1]. apply with_tip_wf; [done|by eexists]. }
  assert (Ed : forall n, disconnected (index c) <$> down (S n) (index c) t =
    disconnected (index c) t :: (disconnected (index c) <$> down n (index c) r)).
  { intros n. cbn [down]. by rewrite (deref_eq pprev None _ t b Ht), Hr. }
  destruct (ancestor_inv _ pindex t b Ht Hanc) as [->|(r' & Hr' & Har)].
  - rewrite Ht in Hp. injection Hp as <-. rewrite Hr in Hq. injection Hq as <-. exists c1. split; [|done].
    assert (Hnot : CChain.Contains (index c1) (active c1) (Some t) = false).
    { rewrite E1, E2. destruct (CChain.Contains _ _ _) eqn:Ec; [|done]. exfalso.
      apply (contains_path _ Htree r rb t b Hrb Ht) in Ec. destruct (ancestor_height _ Htree t r rb Hrb Ec) as (x & Hx & Hxh & _).
      rewrite Ht in Hx. injection Hx as <-. lia. }
    rewrite Ed, Z.sub_diag. cbn [Z.to_nat down fmap list_fmap].
    destruct fuel; cbn [Act.invalidate_loop]; rewrite Hnot, orb_true_r; by rewrite <- ?app_assoc.
  - rewrite Hr in Hr'. injection Hr' as <-.
    destruct (IH c1 r rb forks1 (ev ++ [disconnected (index c) t]) Hat1) as (c' & E & R2); rewrite ?E1; [done..|lia|].
    rewrite E1 in E. exists c'. split.
    + rewrite E, Ed, <- app_assoc. cbn [app].
      destruct (ancestor_height _ Htree pindex r rb Hrb Har) as (x & Hx & Hxh & _). rewrite Hp in Hx. injection Hx as <-.
      by replace (Z.to_nat (nHeight b - nHeight bp)) with (S (Z.to_nat (nHeight rb - nHeight bp))) by lia.
    + etrans; [|exact R2]. rewrite <- (with_tip_twice q r c). by apply reselects_tip.
Qed.
End Loop.

(** ** The whole operation *)

(** Where the tip goes when [hash] is invalidated. *)
Definition tip_after (m : block_map) (hash q t : block_ptr) : block_ptr := if Act.is_descendant m hash t then q else t.
Definition events_after (m : block_map) (hash t : block_ptr) : list event :=
  if Act.is_descendant m hash t
  then disconnected m <$> down (S (Z.to_nat (deref nHeight 0 m t - deref nHeight 0 m hash))) m t else [].

Lemma fork_candidates_known c bp : Forall (fun f => is_Some (index c !! f)) (Act.fork_candidates c bp).
Proof.
  apply Forall_forall. intros f Hin. apply list_elem_of_In, filter_In in Hin as [Hin _].
  apply list_elem_of_In, sorted_keys_elem in Hin. done.
Qed.

(** The first part: the tip is moved. *)
Lemma detach_ok g c t b hash q forks : at_tip g c t -> index c !! hash = Some b -> pprev b = Some q ->
  Forall (fun f => is_Some (index c !! f)) forks ->
  exists c', Act.invalidate_loop (length (active c)) c hash forks [] = Some (true, c', events_after (index c) hash t) /\
    reselects (with_tip (tip_after (index c) hash q t) c) c' /\
    CChain.Contains (index c') (active c') (Some hash) = false.
Proof.
  intros Hat Hb Hq Hf. pose proof Hat as (Hwf & [bt Ht] & Ha). pose proof (cw_index _ _ Hwf) as Hi.
  pose proof (index_tree g _ Hi) as Htree. pose proof (is_descendant_ok _ hash t bt Htree Ht ltac:(by eexists)) as Hd.
  destruct (bw_parent _ _ _ _ (Hi hash b Hb) q Hq) as (qb & Hqb & Hqh & _). pose proof (bw_height _ _ _ _ (Hi t bt Ht)) as Hh0.
  unfold tip_after, events_after. destruct (Act.is_descendant (index c) hash t) eqn:Ed.
  - destruct (invalidate_loop_ok g hash (length (active c)) c t bt b q forks [] Hat Ht (proj1 Hd eq_refl) Hb Hq Hf) as (c' & E & R).
    { rewrite Ha, (path_length _ t bt Ht). lia. }
    exists c'. rewrite (deref_eq nHeight 0 _ t bt Ht), (deref_eq nHeight 0 _ hash b Hb). split; [done|]. split; [done|].
    destruct (reselects_index _ _ R) as [-> ->]. rewrite index_with_tip, active_with_tip.
    destruct (CChain.Contains _ _ _) eqn:Ec; [|done]. exfalso. apply (contains_path _ Htree q qb hash b Hqb Hb) in Ec.
    destruct (ancestor_height _ Htree hash q qb Hqb Ec) as (x & Hx & Hxh & _). rewrite Hb in Hx. injection Hx as <-. lia.
  - assert (Hnot : CChain.Contains (index c) (active c) (Some hash) = false).
    { rewrite Ha. destruct (CChain.Contains _ _ _) eqn:Ec; [|done]. apply (contains_path _ Htree t bt hash b Ht Hb) in Ec.
      by apply Hd in Ec. }
    exists c. split; [|split; [by rewrite with_tip_self|done]].
    destruct (length (active c)); cbn [Act.invalidate_loop]; by rewrite Hnot, orb_true_r.
Qed.

(** The valid leaves with at least the work of [t]. *)
Definition replaces (t : block_ptr) (m : block_map) (h : block_ptr) : bool :=
  match m !! h with
  | Some b => Idx.IsValid b BLOCK_VALID_TREE && (deref nChainWork 0 m t <=? nChainWork b) && negb (Selector.has_children m h)
  | None => false
  end.

Lemma final_steps_ok g c t : cs_wf g c -> let c' := foldl (Act.final_step t) c (Persist.sorted_keys (index c)) in
  reselects c c' /\ forall q, q ∈ candidates c' <-> q ∈ candidates c \/ replaces t (index c) q = true.
Proof.
  intros Hwf c'. destruct (offer_reselects g (Act.final_step t) (replaces t) (Persist.sorted_keys (index c)) c) as [Hr Hm].
  - intros c0 h. unfold Act.final_step, replaces. by destruct (index c0 !! h).
  - apply Hwf.
  - apply Hwf.
  - apply Forall_forall. intros h Hh. by apply sorted_keys_elem.
  - split; [done|]. intros q. unfold c'. rewrite Hm. split; [intros [?|[_ ?]]; auto|]. intros [?|Hq]; [by left|right]. split; [|done].
    apply sorted_keys_elem. unfold replaces in Hq. destruct (index c !! q); [by eexists|done].
Qed.

(** Marking a block and its descendants keeps the rules of the status words. *)
Lemma marks_status g l c c' pindex : status_wf (index c) -> index_wf g (index c) -> marks g l c c' ->
  (forall p, p ∈ l <-> ancestor (index c) pindex p /\ is_Some (index c !! p)) -> status_wf (index c').
Proof.
  intros [Hlev Hclo] Hi Hm Hl. split.
  - intros h b Hb. destruct (decide (h ∈ l)) as [Hin|Hout]; [left; by apply (mk_failed _ _ _ _ Hm h)|].
    rewrite (mk_kept _ _ _ _ Hm) in Hb by done. by apply (Hlev h).
  - intros h b p pb Hb Hp Hpb Hf. destruct (decide (h ∈ l)) as [Hin|Hout]; [by apply (mk_failed _ _ _ _ Hm h)|].
    rewrite (mk_kept _ _ _ _ Hm) in Hb by done. destruct (decide (p ∈ l)) as [Hpin|Hpout].
    + exfalso. apply Hout, Hl. apply Hl in Hpin as [Ha _]. split; [|by eexists]. eapply ancestor_trans; [exact Ha|].
      by eapply ancestor_parent.
    + rewrite (mk_kept _ _ _ _ Hm) in Hpb by done. by apply (Hclo h b p pb).
Qed.

Lemma invalidate_block_ok (g : uint256) (c : Chainstate) (t : block_ptr) (hash : uint256) :
  cs_wf g c -> status_wf (index c) -> tip c = Some t ->
  let m := index c in
  match m !! hash with
  | None => Act.InvalidateBlock c hash = Some (false, c, [])
  | Some b =>
      if nHeight b =? 0 then Act.InvalidateBlock c hash = Some (false, c, [])
      else exists q c', pprev b = Some q /\ let t' := tip_after m hash q t in
        Act.InvalidateBlock c hash = Some (true, c', events_after m hash t) /\
        cs_wf g c' /\ status_wf (index c') /\ same_tree (index c') m /\ tip c' = Some t' /\
        (forall p x, ancestor m hash p -> index c' !! p = Some x -> failed x = true /\ p ∉ candidates c') /\
        (forall p, ~ ancestor m hash p -> index c' !! p = m !! p) /\
        (forall p, replaces t' (index c') p = true -> p ∈ candidates c')
  end.
Proof.
  intros Hwf Hst Ht m. unfold Act.InvalidateBlock. fold m. destruct (m !! hash) as [b|] eqn:Hb; [|done].
  destruct (nHeight b =? 0) eqn:Ez; [done|]. apply Z.eqb_neq in Ez. pose proof (cw_index _ _ Hwf) as Hi.
  destruct (pprev b) as [q|] eqn:Hq; [|by destruct (bw_root _ _ _ _ (Hi hash b Hb) Hq) as (_ & ? & _)].
  destruct (bw_parent _ _ _ _ (Hi hash b Hb) q Hq) as (qb & Hqb & _). fold m in Hqb. rewrite Hqb.
  pose proof (tip_at g c t Hwf Ht) as Hat. pose proof Hat as (_ & [bt Hbt] & Ha).
  destruct (detach_ok g c t b hash q _ Hat Hb Hq (fork_candidates_known c qb)) as (c1 & -> & R1 & ->). fold m in R1.
  set (t' := tip_after m hash q t) in *. assert (Hkt : is_Some (m !! t')).
  { unfold t', tip_after. destruct (Act.is_descendant m hash t); by eexists. }
  destruct (reselects_index _ _ R1) as [E1 E2]. rewrite index_with_tip in E1. rewrite active_with_tip in E2. fold m in E1, E2.
  assert (Hwf1 : cs_wf g c1) by (eapply reselects_wf; [|exact R1]; by apply with_tip_wf).
  destruct (invalidate_mark_ok g hash c1 Hwf1) as (l & Hm & Hl); [rewrite E1; by eexists|]. rewrite E1 in Hl.
  set (c2 := Act.invalidate_mark c1 hash) in *. pose proof (mk_same _ _ _ _ Hm) as Hs2. rewrite E1 in Hs2.
  assert (Et2 : tip c2 = Some t').
  { apply (tip_of g); [apply Hm|by apply (same_some_proper _ _ Hs2 t' t' eq_refl)|]. rewrite (mk_active _ _ _ _ Hm), E2. by rewrite Hs2. }
  rewrite Et2. destruct (final_steps_ok g c2 t' (mk_wf _ _ _ _ Hm)) as [R3 Hc3]. set (c3 := foldl _ c2 _) in *.
  destruct (reselects_index _ _ R3) as [E3 E4]. exists q, c3. split; [done|]. split; [done|].
  assert (Hst2 : status_wf (index c2)).
  { eapply (marks_status g l c1 c2 hash); [by rewrite E1|by rewrite E1|done|by rewrite E1]. }
  split; [by eapply reselects_wf; [apply Hm|]|]. rewrite E3. split; [done|]. split; [done|].
  split; [by unfold tip in *; rewrite E4|]. split; [|split].
  - intros p x Hanc Hx. assert (Hin : p ∈ l).
    { apply Hl. split; [done|]. apply (same_some_proper _ _ Hs2 p p eq_refl). by eexists. }
    pose proof (mk_failed _ _ _ _ Hm p x Hin Hx) as Hf. split; [done|]. rewrite Hc3, (mk_cands _ _ _ _ Hm). intros [[_ ?]|Hr]; [done|].
    unfold replaces in Hr. rewrite Hx in Hr. apply andb_true_iff in Hr as [Hr _]. apply andb_true_iff in Hr as [Hr _].
    apply valid_not_failed in Hr. congruence.
  - intros p Hno. rewrite (mk_kept _ _ _ _ Hm); [by rewrite E1|]. rewrite Hl. tauto.
  - intros p Hr. apply Hc3. by right.
Qed.

(** C5: [InvalidateBlock] refuses unknown blocks and genesis without any change.  Otherwise it always succeeds: the
    tip moves to the parent of the block when the block is on the active chain and stays otherwise, each disconnected block
    is announced, the block and all its descendants are failed and no candidates, no other entry changes, every remaining valid
    leaf with at least the work of the tip is a candidate, and the invariants of the state are kept. *)
Theorem invalidate_block_exact (g : uint256) (c : Chainstate) (t : block_ptr) (hash : uint256) :
  cs_wf g c -> status_wf (index c) -> tip c = Some t ->
  let m := index c in
  match m !! hash with
  | None => Act.InvalidateBlock c hash = Some (false, c, [])
  | Some b =>
      if nHeight b =? 0 then Act.InvalidateBlock c hash = Some (false, c, [])
      else exists q c', pprev b = Some q /\ let t' := tip_after m hash q t in
        Act.InvalidateBlock c hash = Some (true, c', events_after m hash t) /\
        cs_wf g c' /\ status_wf (index c') /\ same_tree (index c') m /\ tip c' = Some t' /\
        (forall p x, ancestor m hash p -> index c' !! p = Some x -> failed x = true /\ p ∉ candidates c') /\
        (forall p, ~ ancestor m hash p -> index c' !! p = m !! p) /\
        (forall p, replaces t' (index c') p = true -> p ∈ candidates c')
  end.
Proof. apply invalidate_block_ok. Qed.

Lemma invalidate_block_exact_witness :
  let hash := Header.GetHash next_header in
  exists c, cs_wf regtest_hash c /\ tip c = Some regtest_hash /\ is_Some (index c !! hash) /\
  let m := index c in
  match m !! hash with
  | None => Act.InvalidateBlock c hash = Some (false, c, [])
  | Some b =>
      if nHeight b =? 0 then Act.InvalidateBlock c hash = Some (false, c, [])
      else exists q c', pprev b = Some q /\ let t' := tip_after m hash q regtest_hash in
        Act.InvalidateBlock c hash = Some (true, c', events_after m hash regtest_hash) /\
        cs_wf regtest_hash c' /\ status_wf (index c') /\ same_tree (index c') m /\ tip c' = Some t' /\
        (forall p x, ancestor m hash p -> index c' !! p = Some x -> failed x = true /\ p ∉ candidates c') /\
        (forall p, ~ ancestor m hash p -> index c' !! p = m !! p) /\
        (forall p, replaces t' (index c') p = true -> p ∈ candidates c')
  end.
Proof.
  intros hash. destruct grown_state as (c & Hwf & Hst & Ht & Hw). exists c. split; [exact Hwf|]. split; [exact Ht|]. split; [exact Hw|].
  exact (invalidate_block_exact regtest_hash c regtest_hash hash Hwf Hst Ht).
Defined.
