(* ===== verification/Miner.v ===== *)
(** * Miner: [CPUMiner] of [chain/miner.hpp/.cpp]

    The worker thread is a state machine whose steps are the pieces of [MiningWorker] between
    two accesses to the chainstate or to the flags that other threads write, so that other
    threads can act between any two of them.  [None] is an exception or a
    failed assertion on the worker.  The timing for the hash rate and the log are left out. *)
From Stdlib Require Import String.
From S2P Require Import Prelude Arith Bytes Compact Sha256 Block BlockIndex Chain ChainParams Pow RandomX Validation.
From S2P Require Import ChainSelector BlockManager Persist Chainstate Activation.
#[local] Open Scope Z_scope.
Import Idx (nHeight).
Import CS.

(** [struct BlockTemplate]. *)
Record BlockTemplate := mkTemplate {
  tm_header : CBlockHeader;
  tm_nBits : Z;
  tm_nHeight : Z;
  tm_hashPrevBlock : uint256
}.

(** The shared members of [CPUMiner]. *)
Record CPUMiner := mkMiner {
  mining_address_ : uint160;
  mining_ : bool;
  total_hashes_ : Z;            (** [uint64_t] *)
  blocks_found_ : Z;            (** [int] *)
  template_invalidated_ : bool;
  target_height_ : Z            (** [int], -1 for no limit *)
}.

(** Where the worker is in its loop. *)
Inductive point :=
| Loop                          (** the loop test and [ShouldRegenerateTemplate] *)
| Regenerate                    (** the template is to be created again *)
| Try                           (** one proof-of-work attempt *)
| Submit (found : CBlockHeader) (** a block was found *)
| CheckTarget                   (** it was accepted *)
| NextBlock.                    (** the template of the next block is to be created *)

(** The worker thread with its local variables. *)
Inductive worker :=
| Entering
| Running (pt : point) (nonce : Z) (local_template : BlockTemplate) (template_prev_hash : uint256)
| Exited.

Module Mine.

Definition new : CPUMiner := mkMiner (Blob.SetNull 20) false 0 0 false (-1).

Definition set_mining (b : bool) (m : CPUMiner) : CPUMiner :=
  let '(mkMiner a _ h f i t) := m in mkMiner a b h f i t.
Definition set_invalidated (b : bool) (m : CPUMiner) : CPUMiner :=
  let '(mkMiner a g h f _ t) := m in mkMiner a g h f b t.
Definition SetMiningAddress (address : uint160) (m : CPUMiner) : CPUMiner :=
  let '(mkMiner _ g h f i t) := m in mkMiner address g h f i t.
Definition InvalidateTemplate : CPUMiner -> CPUMiner := set_invalidated true.
Definition count_hash (m : CPUMiner) : CPUMiner :=
  let '(mkMiner a g h f i t) := m in mkMiner a g (u64 (h + 1)) f i t.
Definition count_block (m : CPUMiner) : CPUMiner :=
  let '(mkMiner a g h f i t) := m in mkMiner a g h (i32 (f + 1)) i t.

Definition set_nonce (n : Z) (t : BlockTemplate) : BlockTemplate :=
  let h := tm_header t in
  mkTemplate (mkHeader (nVersion h) (hashPrevBlock h) (minerAddress h) (nTime h) (nBits h) n (hashRandomX h))
    (tm_nBits t) (tm_nHeight t) (tm_hashPrevBlock t).
Definition set_time (n : Z) (t : BlockTemplate) : BlockTemplate :=
  let h := tm_header t in
  mkTemplate (mkHeader (nVersion h) (hashPrevBlock h) (minerAddress h) n (nBits h) (nNonce h) (hashRandomX h))
    (tm_nBits t) (tm_nHeight t) (tm_hashPrevBlock t).

(** [CreateBlockTemplate] at the time [now]. *)
Definition CreateBlockTemplate (params : ChainParams) (now : Z) (address : uint160) (c : Chainstate) : option BlockTemplate :=
  let '(prev, height) := match tip c with
    | None => (Blob.SetNull 32, 0)
    | Some t => (t, i32 (deref nHeight 0 (index c) t + 1))
    end in
  match Pow.GetNextWorkRequired (index c) (tip c) params with
  | None => None
  | Some bits =>
      let time := match tip c with
        | None => u32 now
        | Some t => let median_time_past := GetMedianTimePast (index c) t in
                    if u32 now <=? median_time_past then u32 (median_time_past + 1) else u32 now
        end in
      Some (mkTemplate (mkHeader 1 prev address time bits 0 (Blob.SetNull 32)) bits height prev)
  end.

(** [ShouldRegenerateTemplate]: the verdict, and the miner with its flag reset. *)
Definition ShouldRegenerateTemplate (m : CPUMiner) (c : Chainstate) (prev_hash : uint256) : bool * CPUMiner :=
  if template_invalidated_ m then (true, set_invalidated false m)
  else match tip c with
  | None => (false, m)
  | Some t => (negb (bool_decide (t = prev_hash)), m)
  end.

Section Worker.
Context `{RandomXLib} (host : Endian.host) (params : ChainParams).

(** The miner, its thread ([None] when it is not joinable), the RandomX caches of that thread,
    and the chainstate the miner refers to. *)
Record system := mkSystem {
  miner : CPUMiner;
  worker_ : option worker;
  worker_rx : Rx.state;
  chainstate_ : Chainstate
}.

(** A new template in the worker's locals, with the nonce restarted. *)
Definition with_template (now : Z) (s : system) : option system :=
  match CreateBlockTemplate params now (mining_address_ (miner s)) (chainstate_ s) with
  | None => None
  | Some t => Some (mkSystem (miner s) (Some (Running Loop 0 t (tm_hashPrevBlock t))) (worker_rx s) (chainstate_ s))
  end.

Definition at_point (pt : point) (s : system) : system :=
  match worker_ s with
  | Some (Running _ n t p) => mkSystem (miner s) (Some (Running pt n t p)) (worker_rx s) (chainstate_ s)
  | _ => s
  end.

(** The end of an attempt that found nothing: the next nonce, and when the nonces are exhausted the next
    second or a new template. *)
Definition next_nonce (now : Z) (s : system) (n : Z) (t : BlockTemplate) (p : uint256) : option system :=
  let goto n t := mkSystem (miner s) (Some (Running Loop n t p)) (worker_rx s) (chainstate_ s) in
  let nonce := u32 (n + 1) in
  if nonce =? 0 then
    let current_time := u32 now in
    let max_future_time := u32 (current_time + 2 * 60 * 60) in
    if nTime (tm_header t) <? max_future_time then Some (goto nonce (set_time (u32 (nTime (tm_header t) + 1)) t))
    else with_template now s
  else Some (goto nonce t).

(** What the application's tip callback does to the miner, on the thread that publishes the notification. *)
Definition on_events (events : list event) (m : CPUMiner) : CPUMiner :=
  if existsb (fun e => match e with ChainTip _ _ => true | _ => false end) events then InvalidateTemplate m else m.

(** One step of [MiningWorker]. *)
Definition worker_step (now adjusted_time : Z) (s : system) : option system :=
  match worker_ s with
  | None | Some Exited => Some s
  | Some Entering => with_template now s
  | Some (Running Loop n t p) =>
      if mining_ (miner s) then
        let '(regenerate, m) := ShouldRegenerateTemplate (miner s) (chainstate_ s) p in
        Some (mkSystem m (Some (Running (if regenerate then Regenerate else Try) n t p)) (worker_rx s) (chainstate_ s))
      else Some (mkSystem (miner s) (Some Exited) (worker_rx s) (chainstate_ s))
  | Some (Running Regenerate n t p) =>
      match with_template now s with None => None | Some s => Some (at_point Try s) end
  | Some (Running Try n t p) =>
      let t := set_nonce n t in
      let m := count_hash (miner s) in
      match Rx.CheckProofOfWork host (worker_rx s) (tm_header t) (tm_nBits t) params MINING true with
      | (inr _, _) | (inl (true, None), _) => None
      | (inl (true, Some rx_hash), rx) =>
          Some (mkSystem (count_block m) (Some (Running (Submit (Rx.set_hashRandomX rx_hash (tm_header t))) n t p)) rx (chainstate_ s))
      | (inl (false, _), rx) =>
          next_nonce now (mkSystem m (worker_ s) rx (chainstate_ s)) n t p
      end
  | Some (Running (Submit found) n t p) =>
      match Act.ProcessNewBlockHeader (H := node_checks host (worker_rx s) params) params now adjusted_time
              (chainstate_ s) found Val.fresh with
      | None => None
      | Some (ok, _, c, events) =>
          Some (mkSystem (on_events events (miner s)) (Some (Running (if ok then CheckTarget else Loop) n t p)) (worker_rx s) c)
      end
  | Some (Running CheckTarget n t p) =>
      let target := target_height_ (miner s) in
      let actual_height := match tip (chainstate_ s) with
        | Some t => deref nHeight 0 (index (chainstate_ s)) t
        | None => -1
        end in
      if negb (target =? -1) && (target <=? actual_height) then
        Some (mkSystem (set_mining false (miner s)) (Some Exited) (worker_rx s) (chainstate_ s))
      else Some (at_point NextBlock s)
  | Some (Running NextBlock n t p) => with_template now s
  end.

(** [Start]: the exchange on [mining_] ([false] is the refusal), and what follows the join, which returns
    only when the former thread has finished.  A new thread starts with empty caches. *)
Definition Start_exchange (s : system) : bool * system :=
  if mining_ (miner s) then (false, s)
  else (true, mkSystem (set_mining true (miner s)) (worker_ s) (worker_rx s) (chainstate_ s)).
Definition joined (s : system) : bool :=
  match worker_ s with None | Some Exited => true | Some _ => false end.
Definition Start_launch (target_height : Z) (s : system) : option system :=
  if joined s then
    let '(mkMiner a g _ _ i _) := miner s in
    Some (mkSystem (mkMiner a g 0 0 i target_height) (Some Entering)
           (Rx.mkState (Rx.g_randomx_initialized (worker_rx s)) ∅ ∅) (chainstate_ s))
  else None.

(** [Stop]: the store, and the join ([None] while it waits). *)
Definition Stop_store (s : system) : system :=
  mkSystem (set_mining false (miner s)) (worker_ s) (worker_rx s) (chainstate_ s).
Definition Stop_join (s : system) : option system :=
  if joined s then Some (mkSystem (miner s) None (worker_rx s) (chainstate_ s)) else None.

(** Several worker steps, with the clock readings of each. *)
Fixpoint worker_run (clocks : list (Z * Z)) (s : system) : option system :=
  match clocks with
  | [] => Some s
  | (now, adjusted_time) :: clocks =>
      match worker_step now adjusted_time s with Some s => worker_run clocks s | None => None end
  end.
End Worker.
End Mine.
