(* ===== verification/MinerProps.v ===== *)
(** * MinerProps: what the miner submits, and how its worker ends

    Every template below the miner obeys the rules that do not depend on the clock, under any
    interference of the other threads; so the verdict on a found block is known.  The worker ends after
    [Stop]; a block that the node rejects is found again for ever. *)
From Stdlib Require Import String.
From S2P Require Import Prelude Arith Bytes Compact Sha256 Block BlockIndex Chain ChainParams Pow RandomX Validation.
From S2P Require Import ChainSelector BlockManager SameTree Persist Chainstate OrphanPool Accept Activation NodeChecks Reorg ChainstateProps Miner.
#[local] Open Scope Z_scope.
Import Idx (CBlockIndex, mkIndex, nHeight, pprev, pskip, nChainWork, nStatus, nTimeMax, nTimeReceived).
Import CS.

(** ** What a template sees of an index that grew *)

Section Grown.
Context (m m' : block_map) (Hwf : tree_wf m) (Hwf' : tree_wf m') (Hg : grows m m').

Lemma parent_known p b q : m !! p = Some b -> pprev b = Some q -> is_Some (m !! q).
Proof. intros Hb Hq. destruct (ew_parent _ _ (Hwf p b Hb) q Hq) as (c & ? & _). by exists c. Qed.

Lemma grows_times n p : is_Some (m !! p) -> times n m' (Some p) = times n m (Some p).
Proof.
  revert p. induction n as [|n IH]; intros p [b Hb]; [done|]. cbn [times].
  destruct (grows_lookup m m' p b Hg Hb) as (b' & Hb' & E). rewrite Hb, Hb', (shape_eq Idx.nTime b b'), (shape_eq pprev b b') by done.
  f_equal. destruct (pprev b) as [q|] eqn:Eq; [|by destruct n]. apply IH. by apply (parent_known p b).
Qed.

Lemma grows_mtp p : is_Some (m !! p) -> GetMedianTimePast m' p = GetMedianTimePast m p.
Proof.
  intros [b Hb]. destruct (grows_lookup m m' p b Hg Hb) as (b' & Hb' & _).
  rewrite (mtp_median m p b Hb), (mtp_median m' p b' Hb'), grows_times by by eexists. done.
Qed.

Lemma grows_back n p : is_Some (m !! p) -> back m' n p = back m n p.
Proof.
  revert p. induction n as [|n IH]; intros p Hp; [done|]. cbn [back]. rewrite (grows_deref m m' Hg pprev None p Hp).
  destruct Hp as [b Hb]. rewrite (deref_eq pprev None m p b Hb). destruct (pprev b) as [q|] eqn:E; [|done].
  apply IH. by apply (parent_known p b).
Qed.

Lemma grows_ancestor_at p h : is_Some (m !! p) -> ancestor_at m' p h = ancestor_at m p h.
Proof. intros Hp. unfold ancestor_at. rewrite (grows_deref m m' Hg nHeight 0 p Hp). by rewrite grows_back. Qed.

Lemma grows_next_work params p : is_Some (m !! p) ->
  Pow.GetNextWorkRequired m' (Some p) params = Pow.GetNextWorkRequired m (Some p) params.
Proof.
  intros [b Hb]. destruct (grows_lookup m m' p b Hg Hb) as (b' & Hb' & E). unfold Pow.GetNextWorkRequired.
  case_bool_decide; [done|]. rewrite Hb, Hb', (shape_eq nHeight b b'), (shape_eq Idx.nTime b b') by done.
  case_match; [done|]. rewrite (GetAncestor_ok m' Hwf' p b' _ Hb'), (GetAncestor_ok m Hwf p b _ Hb), grows_ancestor_at by by eexists.
  destruct (ancestor_at m p (nASERTAnchorHeight (consensus params))) as [a|] eqn:Ea; [|done].
  destruct (m !! a) as [ba|] eqn:Ha.
  - destruct (grows_lookup m m' a ba Hg Ha) as (ba' & Ha' & Ea'). rewrite Ha'.
    by rewrite (shape_eq nHeight ba ba'), (shape_eq Idx.nTime ba ba'), (shape_eq Idx.nBits ba ba').
  - exfalso. unfold ancestor_at in Ea. cbv zeta in Ea. destruct (_ && _) eqn:Eb in Ea; [|done].
    apply andb_true_iff in Eb as [H1%Z.leb_le H2%Z.leb_le]. rewrite (deref_eq nHeight 0 m p b Hb) in H2.
    destruct (ancestor_at_some m Hwf p b _ Hb (conj H1 H2)) as (q & c & Eq & Hq & _).
    unfold ancestor_at in Eq. rewrite (deref_eq nHeight 0 m p b Hb) in *. cbv zeta in Eq.
    rewrite (proj2 (Z.leb_le _ _) H1), (proj2 (Z.leb_le _ _) H2) in Eq. cbn [andb] in Eq. congruence.
Qed.
End Grown.

(** ** The invariant *)

Section Invariant.
Context `{RandomXLib} (host : Endian.host) (params : ChainParams) (g : uint256).
(** RandomX can allocate, and its hashes have 32 bytes. *)
Context (Hparams : params_wf params) (Halloc : forall header, is_Some (rx_hash_of host params header))
  (Hwidth : forall header x, header_wf header -> rx_hash_of host params header = Some x -> blob_wf 32 x).

Definition chain_ok (c : Chainstate) : Prop := cs_wf g c /\ status_wf (index c) /\ anchors_ok params (index c).

(** A template that obeys the rules below its parent. *)
Record template_ok (m : block_map) (t : BlockTemplate) : Prop := {
  to_header : header_wf (tm_header t);
  to_version : nVersion (tm_header t) = 1;
  to_prev : hashPrevBlock (tm_header t) = tm_hashPrevBlock t;
  to_bits : nBits (tm_header t) = tm_nBits t;
  to_known : exists bp, m !! tm_hashPrevBlock t = Some bp /\ tm_nHeight t = nHeight bp + 1;
  to_work : Pow.GetNextWorkRequired m (Some (tm_hashPrevBlock t)) params = Some (tm_nBits t);
  to_time : GetMedianTimePast m (tm_hashPrevBlock t) < 2 ^ 32 - 1 ->
            GetMedianTimePast m (tm_hashPrevBlock t) < nTime (tm_header t)
}.

Definition worker_ok (m : block_map) (w : worker) : Prop :=
  match w with
  | Running pt n t p =>
      template_ok m t /\ p = tm_hashPrevBlock t /\ in_u 32 n /\
      match pt with
      | Submit found => nNonce (tm_header t) = n /\ exists x, found = Rx.set_hashRandomX x (tm_header t) /\
          rx_hash_of host params (tm_header t) = Some x /\ commitment_ok host (tm_header t) (tm_nBits t) x
      | _ => True
      end
  | _ => True
  end.

Record system_ok (s : Mine.system) : Prop := {
  so_chain : chain_ok (Mine.chainstate_ s);
  so_rx : caches_ok (Mine.worker_rx s);
  so_init : Rx.g_randomx_initialized (Mine.worker_rx s) = true;
  so_address : blob_wf 20 (mining_address_ (Mine.miner s));
  so_worker : from_option (worker_ok (index (Mine.chainstate_ s))) True (Mine.worker_ s)
}.

(** *** Preservation *)

Lemma template_grows m m' t : tree_wf m -> tree_wf m' -> grows m m' -> template_ok m t -> template_ok m' t.
Proof.
  intros Hm Hm' Hg [? ? ? ? (bp & Hbp & Eh) Hw Ht].
  assert (Hk : is_Some (m !! tm_hashPrevBlock t)) by by eexists.
  split; [done..| | |].
  - destruct (grows_lookup m m' _ bp Hg Hbp) as (bp' & ? & E). exists bp'. by rewrite (shape_eq nHeight bp bp').
  - by rewrite (grows_next_work m m' Hm Hm' Hg params _ Hk).
  - by rewrite (grows_mtp m m' Hm Hg _ Hk).
Qed.

Lemma worker_grows m m' w : tree_wf m -> tree_wf m' -> grows m m' -> worker_ok m w -> worker_ok m' w.
Proof.
  intros Hm Hm' Hg. destruct w as [|pt n t p|]; [done| |done]. cbn [worker_ok]. intros (Ht & Hrest).
  split; [by apply (template_grows m)|done].
Qed.

Lemma chain_tree c : chain_ok c -> tree_wf (index c).
Proof. intros (Hwf & _). by apply (index_tree g), cw_index. Qed.

Lemma times_nonneg n m p : fields_wf m -> Forall (fun x => 0 <= x) (times n m p).
Proof.
  intros Hf. revert p. induction n as [|n IH]; intros p; [by destruct p|]. destruct p as [p|]; [|done]. cbn [times].
  destruct (m !! p) as [b|] eqn:E; [|done]. constructor; [apply (Hf p b E)|apply IH].
Qed.

Lemma mtp_nonneg m p : fields_wf m -> 0 <= GetMedianTimePast m p.
Proof.
  intros Hf. unfold GetMedianTimePast. cbv zeta. rewrite past_times_eq, app_nil_r.
  set (l := rev _). assert (Hl : Forall (fun x => 0 <= x) (merge_sort Z.le l)).
  { rewrite (merge_sort_Permutation Z.le l). unfold l. rewrite <- Permutation_rev. by apply times_nonneg. }
  destruct (nth_in_or_default (length (merge_sort Z.le l) / 2) (merge_sort Z.le l) 0) as [Hin| ->]; [|done].
  rewrite List.Forall_forall in Hl. by apply Hl.
Qed.

Lemma create_ok now a c : chain_ok c -> total c < 2 ^ 31 -> blob_wf 20 a ->
  exists t, Mine.CreateBlockTemplate params now a c = Some t /\ template_ok (index c) t /\ tip c = Some (tm_hashPrevBlock t).
Proof.
  intros (Hwf & Hst & Ha) Ht Hadr. destruct (cw_active g c Hwf) as (t & [b Hb] & Eact).
  assert (Etip : tip c = Some t) by (apply (tip_of g); [apply Hwf|by eexists|done]).
  assert (Hsz : Z.of_nat (size (index c)) < 2 ^ 31) by (unfold total in Ht; lia).
  pose proof (cw_index g c Hwf) as Hi. pose proof (height_size g _ Hi t b Hb) as Hh. pose proof (bw_height _ _ _ _ (Hi t b Hb)) as Hh0.
  destruct (next_work_ok (index c) (Some t) params (index_tree g _ Hi) (index_fields g _ Hi) Hparams
    (ex_intro _ b (conj Hb (index_height_bound g _ t b Hi Hb Hsz))) Ha) as (w & Ew & Hw & _).
  unfold Mine.CreateBlockTemplate. rewrite Etip, Ew. eexists. split; [done|].
  pose proof (mtp_nonneg (index c) t (index_fields g _ Hi)) as Hm.
  assert (Htime : in_u 32 (if u32 now <=? GetMedianTimePast (index c) t then u32 (GetMedianTimePast (index c) t + 1) else u32 now)).
  { case_match; apply u32_range. }
  split; [|done]. split; cbn [tm_header tm_nBits tm_nHeight tm_hashPrevBlock nVersion hashPrevBlock nBits nTime]; try done.
  - unfold header_wf. cbn -[Blob.SetNull]. split_and!; try done; try apply setnull_wf. by eapply index_key.
  - exists b. split; [done|]. rewrite (deref_eq nHeight 0 _ _ b Hb). apply i32_id. unfold in_s. lia.
  - intros Hlim. destruct (Z.leb_spec (u32 now) (GetMedianTimePast (index c) t)); [|lia]. rewrite u32_id; unfold in_u; lia.
Qed.

Lemma compute_hash_init rx b : Rx.g_randomx_initialized rx = true ->
  Rx.g_randomx_initialized (snd (Rx.compute_hash host rx b (u32 (nRandomXEpochDuration (consensus params))))) = true.
Proof.
  intros Hi. unfold Rx.compute_hash, Rx.GetCachedVM, Rx.epoch_cache. rewrite Hi. cbn [negb].
  repeat case_match; simplify_eq; done.
Qed.

(** The proof-of-work check keeps the thread's RandomX state sound. *)
Lemma pow_state_ok rx b bits mode out : caches_ok rx -> Rx.g_randomx_initialized rx = true ->
  caches_ok (snd (Rx.CheckProofOfWork host rx b bits params mode out)) /\
  Rx.g_randomx_initialized (snd (Rx.CheckProofOfWork host rx b bits params mode out)) = true.
Proof.
  intros Hok Hi. pose proof (compute_hash_ok host rx b params Hok Hi) as [Hc _]. pose proof (compute_hash_init rx b Hi) as Hi'.
  unfold Rx.CheckProofOfWork. cbv zeta. destruct (Rx.compute_hash host rx b _) as [[x|e] rx']; cbn [snd] in *; repeat case_match; simplify_eq; done.
Qed.
(** The node's verdict on a header. *)
Definition admissible (c : Chainstate) (header : CBlockHeader) (adjusted_time : Z) : Prop :=
  known_valid c header \/
  (index c !! Header.GetHash header = None /\ Blob.IsNull (hashPrevBlock header) = false /\
   (exists bp, index c !! hashPrevBlock header = Some bp /\ failed bp = false) /\
   consensus_rules host params (index c) header adjusted_time).

(** The miner hears of a new tip exactly when the tip moved. *)
Definition told (c c' : Chainstate) (m : CPUMiner) : CPUMiner :=
  if decide (tip c' = tip c) then m else Mine.InvalidateTemplate m.

Lemma told_events c c' t ev m : tip c = Some t ->
  tip c' = Some t /\ ev = [] \/ (exists w h, tip c' = Some w /\ w <> t /\ ChainTip w h ∈ ev) -> Mine.on_events ev m = told c c' m.
Proof.
  intros Ht [[Ht' ->]|(w & h & Ht' & Hne & Hin)]; unfold told, Mine.on_events; rewrite Ht, Ht'.
  - by rewrite decide_True.
  - rewrite decide_False by congruence. rewrite (proj2 (existsb_exists _ _)); [done|]. exists (ChainTip w h). by rewrite <- list_elem_of_In.
Qed.

Lemma told_fields c c' m : mining_ (told c c' m) = mining_ m /\ mining_address_ (told c c' m) = mining_address_ m.
Proof. unfold told. destruct (decide _); by destruct m. Qed.

Lemma told_same c m : told c c m = m.
Proof. unfold told. by rewrite decide_True. Qed.

(** Processing a header with the node's checks; an assertion fails only when the header's chain work has wrapped to zero. *)
Lemma process_node rx now adjusted_time c header : caches_ok rx -> Rx.g_randomx_initialized rx = true ->
  chain_ok c -> header_wf header -> total c < 2 ^ 31 ->
  match Act.ProcessNewBlockHeader (H := node_checks host rx params) params now adjusted_time c header Val.fresh with
  | None => exists r st1 c1 b, AcceptBlockHeader (H := node_checks host rx params) params now adjusted_time c header Val.fresh true = Some (r, st1, c1) /\
      index c1 !! Header.GetHash header = Some b /\ nChainWork b <= 0 /\ admissible c header adjusted_time
  | Some (r, _, c', events) => chain_ok c' /\ grows (index c) (index c') /\ (r = false -> c' = c) /\
      (forall m, Mine.on_events events m = told c c' m) /\
      (r = true <-> admissible c header adjusted_time)
  end.
Proof.
  intros Hrx Hi (Hwf & Hst & Ha) Hh Ht. destruct (cw_active g c Hwf) as (t & Hk & Eact).
  assert (Etip : tip c = Some t) by (apply (tip_of g); [apply Hwf|done|done]).
  assert (Hsz : Z.of_nat (size (index c)) < 2 ^ 31) by (unfold total in Ht; lia).
  set (L := node_lawful host rx params g Hrx Hi Halloc Hparams).
  assert (Hac : (known_valid c header \/ exists st2, acceptable (H := node_checks host rx params) adjusted_time c header Val.fresh st2) <->
    admissible c header adjusted_time).
  { unfold admissible. split; (intros [?|Hac]; [by left|right]).
    - destruct Hac as [st2 Hac]. by apply (node_acceptable host rx params g Hrx Hi Halloc Hparams) in Hac as (_ & ?); [|apply Hwf|done..].
    - exists Val.fresh. apply (node_acceptable host rx params g Hrx Hi Halloc Hparams); [apply Hwf|done..]. }
  pose proof (process_header_ok g (LawfulChecks0 := L) params now adjusted_time
    c t header Val.fresh (conj Hwf (conj Hst Ha)) Hh Ht Etip) as Hp. cbv zeta in Hp.
  destruct Act.ProcessNewBlockHeader as [[[[r st'] c'] ev]|] eqn:Eproc.
  - destruct Hp as (t' & (Hwf' & Hst' & Ha') & _ & _ & Hsub & Hr & Hno & _). split; [done|].
    split; [by apply sub_grows, map_subseteq_spec|]. split; [intros E; by apply Hno|]. split; [|by rewrite Hr].
    intros m. apply (told_events c c' t _ m Etip).
    by apply (process_header_events g (LawfulChecks0 := L) params now adjusted_time c t header Val.fresh r st' c' ev (conj Hwf (conj Hst Ha)) Hh Ht Etip).
  - destruct Hp as (r & st1 & c1 & b & E & Hb & Hneg). exists r, st1, c1, b. split_and!; [done..|].
    destruct (accept_ok (LawfulChecks0 := L) g params now adjusted_time (S (size (m_orphan_headers c))) c header Val.fresh true) as
      (r2 & st2 & c2 & E2 & _ & Ho); [by split_and!|done|done|lia|].
    unfold AcceptBlockHeader in E. rewrite E2 in E. injection E as <- <- <-. apply Hac. destruct r2 as [q|].
    + destruct Ho as (_ & [[? _]|[? _]]); [by left|right; by exists st2].
    + exfalso. unfold Act.ProcessNewBlockHeader, AcceptBlockHeader in Eproc. by rewrite E2 in Eproc.
Qed.

(** *** The steps of the worker *)

Lemma with_template_ok now s : system_ok s -> total (Mine.chainstate_ s) < 2 ^ 31 ->
  exists t, Mine.with_template params now s =
    Some (Mine.mkSystem (Mine.miner s) (Some (Running Loop 0 t (tm_hashPrevBlock t))) (Mine.worker_rx s) (Mine.chainstate_ s)) /\
    template_ok (index (Mine.chainstate_ s)) t /\ tip (Mine.chainstate_ s) = Some (tm_hashPrevBlock t).
Proof.
  intros [Hc _ _ Ha _] Ht. destruct (create_ok now _ _ Hc Ht Ha) as (t & E & ?). exists t. unfold Mine.with_template. by rewrite E.
Qed.

Lemma set_nonce_ok m n t : in_u 32 n -> template_ok m t -> template_ok m (Mine.set_nonce n t).
Proof.
  intros Hn [(? & ? & ? & ? & ? & _ & ?) ? ? ? ? ? ?]. split; cbn; try done.
Qed.

Lemma set_time_ok m x t : in_u 32 x -> nTime (tm_header t) <= x -> template_ok m t -> template_ok m (Mine.set_time x t).
Proof.
  intros Hx Hle [(? & ? & ? & _ & ? & ? & ?) ? ? ? ? ? Ht]. split; cbn; try done.
  intros Hlim. specialize (Ht Hlim). cbn in *; lia.
Qed.

Lemma found_wf m t x : template_ok m t -> rx_hash_of host params (tm_header t) = Some x ->
  header_wf (Rx.set_hashRandomX x (tm_header t)).
Proof.
  intros [Hh ? ? ? ? ? ?] Hx. pose proof (Hwidth _ _ Hh Hx). destruct Hh as (? & ? & ? & ? & ? & ? & _).
  unfold header_wf. cbn. by split_and!.
Qed.

(** How far the worker is from its end once [mining_] is cleared. *)
Definition rank (w : option worker) : nat :=
  match w with
  | None | Some Exited => 0
  | Some (Running Loop _ _ _) => 1
  | Some Entering | Some (Running NextBlock _ _ _) => 2
  | Some (Running CheckTarget _ _ _) => 3
  | Some (Running (Submit _) _ _ _) => 4
  | Some (Running Try _ _ _) => 5
  | Some (Running Regenerate _ _ _) => 6
  end.

Lemma next_nonce_ok now s n t p : system_ok s -> total (Mine.chainstate_ s) < 2 ^ 31 -> in_u 32 n ->
  template_ok (index (Mine.chainstate_ s)) t -> p = tm_hashPrevBlock t ->
  exists s', Mine.next_nonce params now s n t p = Some s' /\ system_ok s' /\ Mine.miner s' = Mine.miner s /\
    exists n' t' p', Mine.worker_ s' = Some (Running Loop n' t' p').
Proof.
  intros Hs Ht Hn Htm Hp. pose proof (u32_range (n + 1)) as Hn'. unfold Mine.next_nonce. cbv zeta.
  destruct (u32 (n + 1) =? 0); [case_match eqn:Elt|].
  - apply Z.ltb_lt in Elt. pose proof (u32_range (u32 now + 2 * 60 * 60)) as Hr. unfold in_u in Hr.
    destruct (to_header _ _ Htm) as (_ & _ & _ & Htime & _). unfold in_u in Htime.
    rewrite (u32_id (nTime (tm_header t) + 1)) by (unfold in_u; lia).
    eexists. split; [done|]. split; [|split; [done|by eexists _, _, _]]. destruct Hs as [? ? ? ? _]. split; try done. cbn.
    split; [apply set_time_ok; [unfold in_u; lia|lia|done]|done].
  - destruct (with_template_ok now s Hs Ht) as (t' & -> & Ht' & _). eexists. split; [done|].
    split; [|split; [done|by eexists _, _, _]]. destruct Hs as [? ? ? ? _]. split; try done.
  - eexists. split; [done|]. split; [|split; [done|by eexists _, _, _]]. destruct Hs as [? ? ? ? _]. split; try done.
Qed.

(** The attempt either continues with the next nonce or submits the block found. *)
Lemma try_ok now adjusted_time s n t p : system_ok s -> total (Mine.chainstate_ s) < 2 ^ 31 ->
  Mine.worker_ s = Some (Running Try n t p) ->
  exists s', Mine.worker_step host params now adjusted_time s = Some s' /\ system_ok s' /\
    (mining_ (Mine.miner s) = false -> mining_ (Mine.miner s') = false /\ (rank (Mine.worker_ s') <= 4)%nat) /\
    Mine.chainstate_ s' = Mine.chainstate_ s /\
    (forall x, rx_hash_of host params (tm_header (Mine.set_nonce n t)) = Some x ->
       commitment_ok host (tm_header (Mine.set_nonce n t)) (tm_nBits t) x ->
       Mine.miner s' = Mine.count_block (Mine.count_hash (Mine.miner s)) /\
       Mine.worker_ s' = Some (Running (Submit (Rx.set_hashRandomX x (tm_header (Mine.set_nonce n t)))) n (Mine.set_nonce n t) p)).
Proof.
  intros Hs Ht Ew. pose proof Hs as [Hc Hrx Hi Ha Hw]. rewrite Ew in Hw. cbn in Hw. destruct Hw as (Htm & Ep & Hn & _).
  pose proof (set_nonce_ok _ n t Hn Htm) as Htm'. set (t1 := Mine.set_nonce n t) in *.
  assert (Hb : in_u 32 (tm_nBits t1)) by (rewrite <- (to_bits _ _ Htm'); apply header_bits, Htm').
  pose proof (check_mining host (Mine.worker_rx s) (tm_header t1) (tm_nBits t1) params) as Hm.
  pose proof (pow_state_ok (Mine.worker_rx s) (tm_header t1) (tm_nBits t1) MINING true Hrx Hi) as [Hrx' Hi'].
  destruct (check_mining_returns host (Mine.worker_rx s) (tm_header t1) (tm_nBits t1) params Hrx Hi (Halloc _)) as (r & Er).
  unfold Mine.worker_step. rewrite Ew. fold t1. 
  destruct (Rx.CheckProofOfWork host (Mine.worker_rx s) (tm_header t1) (tm_nBits t1) params MINING true) as [r' rx'].
  cbn [fst snd] in *. subst r'. destruct r as [x|].
  - destruct (proj1 (Hm x Hrx Hi Hb) eq_refl) as [Hx Hcm]. eexists. split; [done|]. split; [|split; [|split; [done|]]].
    + destruct s as [[] ? ? ?]. split; try done. cbn. split_and!; try done. by exists x.
    + destruct s as [[] ? ? ?]. done.
    + intros y Hy _. rewrite Hx in Hy. injection Hy as <-. done.
  - destruct (next_nonce_ok now (Mine.mkSystem (Mine.count_hash (Mine.miner s)) (Some (Running Try n t p)) rx' (Mine.chainstate_ s)) n t1 p)
      as (s' & E & Hs' & Em & n' & t' & p' & Ew'); try done.
    { destruct s as [[] ? ? ?]; by split. }
    exists s'. split; [exact E|]. split; [done|]. split; [|split].
    + rewrite Em, Ew'. cbn. destruct s as [[] ? ? ?]. cbn. intros ?. split; [done|lia].
    + unfold Mine.next_nonce, Mine.with_template in E. cbv zeta in E. repeat case_match; simplify_eq; done.
    + intros x Hx Hcm. pose proof (proj2 (Hm x Hrx Hi Hb) (conj Hx Hcm)) as X. discriminate X.
Qed.
(** The processing of the admissible block at hand fails an assertion, because the work of its
    chain has wrapped around to zero. *)
Definition submit_fails (now adjusted_time : Z) (s : Mine.system) : Prop :=
  exists found n t p, Mine.worker_ s = Some (Running (Submit found) n t p) /\
    admissible (Mine.chainstate_ s) found adjusted_time /\
    (exists r st1 c1 b, AcceptBlockHeader (H := node_checks host (Mine.worker_rx s) params) params now adjusted_time
       (Mine.chainstate_ s) found Val.fresh true = Some (r, st1, c1) /\
       index c1 !! Header.GetHash found = Some b /\ nChainWork b <= 0) /\
    Act.ProcessNewBlockHeader (H := node_checks host (Mine.worker_rx s) params) params now adjusted_time
      (Mine.chainstate_ s) found Val.fresh = None.

Lemma submit_ok now adjusted_time s found n t p : system_ok s -> total (Mine.chainstate_ s) < 2 ^ 31 ->
  Mine.worker_ s = Some (Running (Submit found) n t p) ->
  match Mine.worker_step host params now adjusted_time s with
  | Some s' => exists ok c', s' = Mine.mkSystem (told (Mine.chainstate_ s) c' (Mine.miner s))
        (Some (Running (if ok : bool then CheckTarget else Loop) n t p)) (Mine.worker_rx s) c' /\
      system_ok s' /\ (ok = false -> c' = Mine.chainstate_ s) /\ (ok = true <-> admissible (Mine.chainstate_ s) found adjusted_time)
  | None => submit_fails now adjusted_time s
  end.
Proof.
  intros [Hc Hrx Hi Ha Hw] Ht Ew. rewrite Ew in Hw. cbn in Hw. destruct Hw as (Htm & Hp & Hn & _ & x & -> & Hx & Hcm).
  pose proof (process_node (Mine.worker_rx s) now adjusted_time _ _ Hrx Hi Hc (found_wf _ t x Htm Hx) Ht) as Hproc.
  unfold Mine.worker_step. rewrite Ew. destruct Act.ProcessNewBlockHeader as [[[[ok st] c'] ev]|] eqn:E.
  2:{ destruct Hproc as (r & st1 & c1 & b & ? & ? & ? & ?). eexists _, _, _, _. split_and!; [done|done| |done]. by exists r, st1, c1, b. }
  destruct Hproc as (Hc' & Hg & Hno & Htold & Hiff). exists ok, c'. rewrite Htold. split; [done|]. split; [|done].
  destruct (told_fields (Mine.chainstate_ s) c' (Mine.miner s)) as [_ Hta]. split; cbn; rewrite ?Hta; try done.
  pose proof (template_grows _ _ t (chain_tree _ Hc) (chain_tree _ Hc') Hg Htm). by destruct ok.
Qed.

Lemma worker_step_ok now adjusted_time s : system_ok s -> total (Mine.chainstate_ s) < 2 ^ 31 ->
  match Mine.worker_step host params now adjusted_time s with
  | Some s' => system_ok s' /\
      (mining_ (Mine.miner s) = false -> mining_ (Mine.miner s') = false /\
         (rank (Mine.worker_ s') <= Nat.pred (rank (Mine.worker_ s)))%nat)
  | None => submit_fails now adjusted_time s
  end.
Proof.
  intros Hs Ht. destruct (Mine.worker_ s) as [[|pt n t p|]|] eqn:Ew; [|destruct pt as [| | |found| |]| |].
  - unfold Mine.worker_step. rewrite Ew. destruct (with_template_ok now s Hs Ht) as (t & -> & Htm & _).
    destruct Hs as [? ? ? ? _]. by split; [split|].
  - unfold Mine.worker_step. rewrite Ew. destruct Hs as [? ? ? ? Hw]. rewrite Ew in Hw. destruct Hw as (? & ? & ? & _).
    destruct (mining_ (Mine.miner s)) eqn:Em; [|by split; [split|]].
    unfold Mine.ShouldRegenerateTemplate. destruct s as [[a mg h f [] tg] w rx c]; cbn in *; [by split; [split|]|].
    destruct (tip c); [case_bool_decide|]; by split; [split|].
  - unfold Mine.worker_step. rewrite Ew. destruct (with_template_ok now s Hs Ht) as (t' & -> & Htm & _).
    destruct Hs as [? ? ? ? _]. by split; [split|].
  - destruct (try_ok now adjusted_time s n t p Hs Ht Ew) as (s' & -> & Hs' & Hrank & _). done.
  - pose proof (submit_ok now adjusted_time s found n t p Hs Ht Ew) as Hsub. destruct Mine.worker_step as [s'|]; [|done].
    destruct Hsub as (ok & c' & -> & Hs' & _). split; [done|]. cbn. rewrite (proj1 (told_fields _ _ _)). intros Hm. split; [done|]. destruct ok; cbn; lia.
  - unfold Mine.worker_step. rewrite Ew. destruct Hs as [? ? ? ? Hw]. rewrite Ew in Hw.
    destruct s as [[a mg h f iv tg] w rx c]; cbn in *. subst w. cbv zeta. destruct (_ && _); (split; [by split|]); cbn; intros ?; (split; [done|lia]).
  - unfold Mine.worker_step. rewrite Ew. destruct (with_template_ok now s Hs Ht) as (t' & -> & Htm & _).
    destruct Hs as [? ? ? ? _]. by split; [split|].
  - unfold Mine.worker_step. rewrite Ew. split; [done|]. intros ?. split; [done|]. by rewrite Ew.
  - unfold Mine.worker_step. rewrite Ew. split; [done|]. intros ?. split; [done|]. by rewrite Ew.
Qed.
(** *** The worker among the other threads *)

Inductive step : Mine.system -> Mine.system -> Prop :=
| step_worker now adjusted_time s s' : total (Mine.chainstate_ s) < 2 ^ 31 ->
    Mine.worker_step host params now adjusted_time s = Some s' -> step s s'
| step_chain s c' : chain_ok c' -> grows (index (Mine.chainstate_ s)) (index c') ->
    step s (Mine.mkSystem (Mine.miner s) (Mine.worker_ s) (Mine.worker_rx s) c')
| step_invalidate s : step s (Mine.mkSystem (Mine.InvalidateTemplate (Mine.miner s)) (Mine.worker_ s) (Mine.worker_rx s) (Mine.chainstate_ s))
| step_address s a : blob_wf 20 a ->
    step s (Mine.mkSystem (Mine.SetMiningAddress a (Mine.miner s)) (Mine.worker_ s) (Mine.worker_rx s) (Mine.chainstate_ s))
| step_start s : step s (snd (Mine.Start_exchange s))
| step_launch s target s' : Mine.Start_launch target s = Some s' -> step s s'
| step_stop s : step s (Mine.Stop_store s)
| step_join s s' : Mine.Stop_join s = Some s' -> step s s'.

Lemma system_step_ok s s' : system_ok s -> step s s' -> system_ok s'.
Proof.
  intros Hs Hstep. destruct Hstep as [now adj s s' Ht E|s c' Hc' Hg|s|s a Ha|s|s target s' E|s|s s' E].
  - pose proof (worker_step_ok now adj s Hs Ht) as Hw. rewrite E in Hw. by apply Hw.
  - destruct Hs as [Hc ? ? ? Hw]. split; try done. cbn. destruct (Mine.worker_ s) as [w|]; [|done]. cbn in *.
    by apply (worker_grows (index (Mine.chainstate_ s))); [apply chain_tree..| |].
  - destruct Hs, s as [[] ? ? ?]. by split.
  - destruct Hs, s as [[] ? ? ?]. by split.
  - unfold Mine.Start_exchange. case_match; [done|]. destruct Hs, s as [[] ? ? ?]. by split.
  - unfold Mine.Start_launch in E. destruct Hs, s as [[] ? ? ?]. case_match; [|done]. injection E as <-. by split.
  - destruct Hs, s as [[] ? ? ?]. by split.
  - unfold Mine.Stop_join in E. case_match; [|done]. injection E as <-. by destruct Hs.
Qed.

Lemma steps_ok s s' : system_ok s -> rtc step s s' -> system_ok s'.
Proof. intros Hs Hr. induction Hr; [done|]. eauto using system_step_ok. Qed.

(** The worker alone, while the number of headers stays bounded. *)
Fixpoint bounded_run (clocks : list (Z * Z)) (s : Mine.system) : bool :=
  (total (Mine.chainstate_ s) <? 2 ^ 31) &&
  match clocks with
  | [] => true
  | (now, adjusted_time) :: clocks =>
      match Mine.worker_step host params now adjusted_time s with Some s => bounded_run clocks s | None => true end
  end.

Lemma run_steps clocks s s' : bounded_run clocks s = true -> Mine.worker_run host params clocks s = Some s' -> rtc step s s'.
Proof.
  revert s. induction clocks as [|[now adj] clocks IH]; intros s Hb Hr; cbn [bounded_run Mine.worker_run] in *.
  { injection Hr as <-. done. }
  apply andb_true_iff in Hb as [Ht%Z.ltb_lt Hb]. destruct Mine.worker_step as [s1|] eqn:E; [|done].
  eapply rtc_l; [by eapply step_worker|by apply IH].
Qed.

(** What is left to check of a block that the miner found. *)
Lemma found_admissible s found n t p adjusted_time : system_ok s -> Mine.worker_ s = Some (Running (Submit found) n t p) ->
  let c := Mine.chainstate_ s in let mtp := GetMedianTimePast (index c) (hashPrevBlock found) in
  (mtp < 2 ^ 32 - 1 -> mtp < nTime found) /\
  (admissible c found adjusted_time <->
   known_valid c found \/
   (index c !! Header.GetHash found = None /\ Blob.IsNull (hashPrevBlock found) = false /\
    (exists bp, index c !! hashPrevBlock found = Some bp /\ failed bp = false) /\
    Blob.IsNull (hashRandomX found) = false /\ mtp < nTime found <= adjusted_time + 7200 /\
    (nNetworkExpirationInterval (consensus params) <= 0 \/ tm_nHeight t < nNetworkExpirationInterval (consensus params)))).
Proof.
  intros [_ _ _ _ Hw] Ew. rewrite Ew in Hw. destruct Hw as ([Hh Hv Ep Eb (bp & Hbp & Eh) Hwork Htime] & _ & _ & _ & x & -> & Hx & Hcm).
  cbn [Rx.set_hashRandomX hashPrevBlock hashRandomX nTime]. rewrite Ep. cbv zeta. split; [done|]. unfold admissible.
  cbn [Rx.set_hashRandomX hashPrevBlock]. rewrite Ep. set (found := Rx.set_hashRandomX x (tm_header t)) in *.
  assert (Ed : deref nHeight 0 (index (Mine.chainstate_ s)) (tm_hashPrevBlock t) + 1 = tm_nHeight t) by by rewrite (deref_eq nHeight 0 _ _ bp Hbp).
  split; (intros [?|(Hn & Hnull & Hpar & Hr)]; [by left|right]).
  - destruct Hr as [(_ & Hz & _) _ Ht _ He]. unfold found in Hz, Ht, He.
    cbn [Rx.set_hashRandomX nTime hashPrevBlock hashRandomX] in Hz, Ht, He. rewrite Ep in Ht, He. rewrite Ed in He. split_and!; try done; apply Ht.
  - split_and!; try done. destruct Hr as (Hz & Ht & He).
    split; unfold found; cbn [Rx.set_hashRandomX nTime nVersion hashPrevBlock nBits hashRandomX];
      rewrite ?Ep, ?Eb, ?Ed; try done. lia.
Qed.
(** One round of the loop after a rejection: the same block is found and rejected again. *)
Lemma spin_round s found n t p a1 b1 a2 b2 a3 b3 : system_ok s -> total (Mine.chainstate_ s) < 2 ^ 31 ->
  Mine.worker_ s = Some (Running (Submit found) n t p) -> mining_ (Mine.miner s) = true ->
  template_invalidated_ (Mine.miner s) = false -> tip (Mine.chainstate_ s) = Some p ->
  ~ admissible (Mine.chainstate_ s) found b1 ->
  exists s', Mine.worker_run host params [(a1, b1); (a2, b2); (a3, b3)] s = Some s' /\ system_ok s' /\
    Mine.worker_ s' = Mine.worker_ s /\ Mine.chainstate_ s' = Mine.chainstate_ s /\
    Mine.miner s' = Mine.count_block (Mine.count_hash (Mine.miner s)).
Proof.
  intros Hs Ht Ew Hm Hv Htip Hrej. cbn [Mine.worker_run].
  pose proof (submit_ok a1 b1 s found n t p Hs Ht Ew) as H1. destruct Mine.worker_step as [s1|]; [|by destruct H1 as (? & ? & ? & ? & ? & ? & _); simplify_eq; congruence].
  destruct H1 as (ok & c' & -> & Hs1 & Hc' & Hiff). destruct ok; [by destruct Hrej; apply Hiff|]. rewrite (Hc' eq_refl) in *. clear Hc' Hiff. rewrite told_same in *.
  unfold Mine.worker_step at 1. cbn [Mine.worker_ Mine.miner Mine.chainstate_ Mine.worker_rx]. rewrite Hm.
  unfold Mine.ShouldRegenerateTemplate. rewrite Hv, Htip, bool_decide_true by done. cbn [negb].
  pose proof (so_worker _ Hs) as Hw. rewrite Ew in Hw. destruct Hw as (Htm & Hp & Hn & Hnn & x & -> & Hx & Hcm).
  assert (Et : Mine.set_nonce n t = t) by (destruct t as [[] ? ? ?]; cbn in *; by subst).
  edestruct (try_ok a3 b3) as (s3 & -> & Hs3 & _ & Ec & Hfound); [| |reflexivity|]; [|exact Ht|].
  { destruct Hs1 as [? ? ? ? Hw1]. split; try done. }
  rewrite Et in Hfound. destruct (Hfound x Hx Hcm) as [Em Ew3]. exists s3. rewrite Ew, Ew3, Ec, Em. done.
Qed.
(** C23: what the node says to a block its miner found, whatever the other threads did since the
    miner was created: the proof of work with the hash stored in the header, the required difficulty and the version hold
    already, and so does the median time past unless it is 2^32 - 1, the last time a header can have. So the block is accepted exactly when it
    is known and valid, or new with a parent that has not failed, a non-null RandomX hash, a time after the median time past and at
    most two hours ahead and a height before the expiry.  A rejection leaves the chainstate unchanged, the miner's template is
    invalidated exactly when the tip moved, and an assertion fails only when the work of the chain has wrapped around to zero. *)
Theorem mined_block_verdict (s0 s : Mine.system) (now adjusted_time : Z) (found : CBlockHeader) (n : Z) (t : BlockTemplate) (p : uint256) :
  system_ok s0 -> Mine.worker_ s0 = None -> rtc step s0 s ->
  Mine.worker_ s = Some (Running (Submit found) n t p) -> total (Mine.chainstate_ s) < 2 ^ 31 ->
  let c := Mine.chainstate_ s in let mtp := GetMedianTimePast (index c) (hashPrevBlock found) in
  (mtp < 2 ^ 32 - 1 -> mtp < nTime found) /\
  match Mine.worker_step host params now adjusted_time s with
  | Some s' => exists ok c' m', s' = Mine.mkSystem m' (Some (Running (if ok : bool then CheckTarget else Loop) n t p)) (Mine.worker_rx s) c' /\
      system_ok s' /\ (ok = false -> c' = c) /\
      m' = (if decide (tip c' = tip c) then Mine.miner s else Mine.InvalidateTemplate (Mine.miner s)) /\
      (ok = true <-> known_valid c found \/
        (index c !! Header.GetHash found = None /\ Blob.IsNull (hashPrevBlock found) = false /\
         (exists bp, index c !! hashPrevBlock found = Some bp /\ failed bp = false) /\
         Blob.IsNull (hashRandomX found) = false /\ mtp < nTime found <= adjusted_time + 7200 /\
         (nNetworkExpirationInterval (consensus params) <= 0 \/ tm_nHeight t < nNetworkExpirationInterval (consensus params))))
  | None => submit_fails now adjusted_time s
  end.
Proof.
  intros Hs0 _ Hr Ew Ht c mtp. pose proof (steps_ok s0 s Hs0 Hr) as Hs.
  destruct (found_admissible s found n t p adjusted_time Hs Ew) as [Hm Had]. split; [exact Hm|].
  pose proof (submit_ok now adjusted_time s found n t p Hs Ht Ew) as Hsub. destruct Mine.worker_step as [s'|]; [|done].
  destruct Hsub as (ok & c' & -> & Hs' & Hno & Hiff). eexists ok, c', _. split_and!; [done..|]. by rewrite Hiff.
Qed.

(** C24: once [mining_] is cleared the worker ends: each of its steps succeeds (or fails the assertion on wrapped
    work) and brings it nearer to its end, which it reaches after at most six of them; the flag is not set again by the worker, and the joins of [Stop] and [Start] return exactly
    at the end. *)
Theorem stop_ends_worker (s : Mine.system) (now adjusted_time : Z) :
  system_ok s -> total (Mine.chainstate_ s) < 2 ^ 31 -> mining_ (Mine.miner s) = false ->
  (rank (Mine.worker_ s) <= 6)%nat /\ (rank (Mine.worker_ s) = 0%nat <-> is_Some (Mine.Stop_join s)) /\
  match Mine.worker_step host params now adjusted_time s with
  | Some s' => system_ok s' /\ mining_ (Mine.miner s') = false /\
      (rank (Mine.worker_ s') <= Nat.pred (rank (Mine.worker_ s)))%nat
  | None => submit_fails now adjusted_time s
  end.
Proof.
  intros Hs Ht Hm. split; [|split].
  - destruct (Mine.worker_ s) as [[|[] ? ? ?|]|]; cbn; lia.
  - unfold Mine.Stop_join, Mine.joined. destruct (Mine.worker_ s) as [[|[] ? ? ?|]|]; cbn; split; try done; by intros [? ?].
  - pose proof (worker_step_ok now adjusted_time s Hs Ht) as Hw. destruct Mine.worker_step as [s'|]; [|done].
    destruct Hw as [? Hw]. split; [done|by apply Hw].
Qed.

(** A miner that has found one more block. *)
Definition counted (m : CPUMiner) : CPUMiner := Mine.count_block (Mine.count_hash m).

Lemma counted_flags m : mining_ (counted m) = mining_ m /\ template_invalidated_ (counted m) = template_invalidated_ m.
Proof. by destruct m. Qed.

Lemma worker_run_app l l' s : Mine.worker_run host params (l ++ l') s = s' ← Mine.worker_run host params l s; Mine.worker_run host params l' s'.
Proof.
  revert s. induction l as [|[a b] l IH]; intros s; [done|]. cbn [app Mine.worker_run].
  destruct Mine.worker_step; [apply IH|done].
Qed.

(** C25: a miner at the expiry of its network never moves on: as long as no other thread acts and its template is that of the current tip, three steps after a
    block was rejected the worker has found the same block again, with the same nonce and template, over the same chainstate,
    and this goes on for ever. All that changes in the miner are its two counters: each round adds one to the hashes and one to the
    blocks found (which wrap around at 64 and 32 bits). *)
Theorem expired_miner_spins (s : Mine.system) (found : CBlockHeader) (n : Z) (t : BlockTemplate) (p : uint256)
  (rounds : list (Z * Z * (Z * Z) * (Z * Z))) :
  system_ok s -> total (Mine.chainstate_ s) < 2 ^ 31 -> Mine.worker_ s = Some (Running (Submit found) n t p) ->
  mining_ (Mine.miner s) = true -> template_invalidated_ (Mine.miner s) = false -> tip (Mine.chainstate_ s) = Some p ->
  index (Mine.chainstate_ s) !! Header.GetHash found = None ->
  0 < nNetworkExpirationInterval (consensus params) <= tm_nHeight t ->
  exists s', Mine.worker_run host params (flat_map (fun r => [r.1.1; r.1.2; r.2]) rounds) s = Some s' /\
    Mine.worker_ s' = Some (Running (Submit found) n t p) /\ Mine.chainstate_ s' = Mine.chainstate_ s /\
    Mine.miner s' = Nat.iter (length rounds) counted (Mine.miner s).
Proof.
  intros Hs Ht Ew Hm Hv Htip Hnew Hexp. revert s Hs Ht Ew Hm Hv Htip Hnew.
  induction rounds as [|[[[a1 b1] [a2 b2]] [a3 b3]] rounds IH]; intros s Hs Ht Ew Hm Hv Htip Hnew.
  { by exists s. }
  destruct (spin_round s found n t p a1 b1 a2 b2 a3 b3) as (s1 & E1 & Hs1 & Ew1 & Ec1 & Em1); try done.
  { rewrite (proj2 (found_admissible s found n t p b1 Hs Ew)). intros [(b & Hb & _)|(_ & _ & _ & _ & _ & ?)]; [congruence|lia]. }
  fold (counted (Mine.miner s)) in Em1. destruct (counted_flags (Mine.miner s)) as (Emm & Eiv). rewrite <- Em1 in Emm, Eiv.
  destruct (IH s1) as (s' & E & Ew' & Ec' & Hm'); rewrite ?Ec1, ?Ew1, ?Emm, ?Eiv; try done.
  exists s'. cbn [flat_map fst snd length]. rewrite worker_run_app, E1. cbn [mbind option_bind]. split_and!; try done; [by rewrite Ec'|].
  rewrite Hm', Em1, Nat.iter_succ_r. done.
Qed.
(** *** Starting while the miner stops *)

(** The worker runs, its flag is set and it has no target. *)
Definition unbounded (s : Mine.system) : Prop :=
  mining_ (Mine.miner s) = true /\ target_height_ (Mine.miner s) = -1 /\ Mine.joined s = false.

Lemma unbounded_worker now adjusted_time s s' : unbounded s -> Mine.worker_step host params now adjusted_time s = Some s' -> unbounded s'.
Proof.
  intros (Hm & Htg & Hj) E. unfold Mine.worker_step in E. destruct s as [[a mg h f i tg] w rx c]. cbn in Hm, Htg. subst mg tg.
  destruct w as [[|pt n t p|]|]; try done; cbn -[Rx.CheckProofOfWork Mine.CreateBlockTemplate Act.ProcessNewBlockHeader] in E.
  - unfold Mine.with_template in E. by case_match; simplify_eq.
  - unfold Mine.next_nonce, Mine.with_template, Mine.ShouldRegenerateTemplate in E.
    destruct pt; repeat case_match; simplify_eq; try done. all: unfold Mine.on_events; by destruct (existsb _ _).
Qed.

Lemma unbounded_step s s' : unbounded s -> step s s' -> mining_ (Mine.miner s') = true -> unbounded s'.
Proof.
  intros Hu Hstep. pose proof Hu as (Hm & Htg & Hj).
  destruct Hstep as [now adj s s' _ E|s c' _ _|s|s a _|s|s target s' E|s|s s' E]; intros Hm'.
  - by eapply unbounded_worker.
  - done.
  - by destruct s as [[] ? ? ?].
  - by destruct s as [[] ? ? ?].
  - unfold Mine.Start_exchange. by rewrite Hm.
  - unfold Mine.Start_launch in E. by rewrite Hj in E.
  - by destruct s as [[] ? ? ?].
  - unfold Mine.Stop_join in E. by rewrite Hj in E.
Qed.

(** a [Start] between the store of a [Stop] and the moment the worker reads the flag is accepted, and
    then neither call returns: without a height limit the old worker goes on, so as long as the flag stays set both joins keep
    waiting for it, whatever the other threads do. *)
Theorem start_during_stop_hangs (s s' : Mine.system) :
  Mine.joined s = false -> target_height_ (Mine.miner s) = -1 ->
  fst (Mine.Start_exchange (Mine.Stop_store s)) = true /\
  (rtc (fun a b => step a b /\ mining_ (Mine.miner b) = true) (snd (Mine.Start_exchange (Mine.Stop_store s))) s' ->
   Mine.Stop_join s' = None /\ forall target, Mine.Start_launch target s' = None).
Proof.
  intros Hj Htg. destruct s as [[a mg h f i tg] w rx c]. split; [done|]. intros Hr.
  assert (unbounded s') as (_ & _ & Hj').
  { revert Hr. apply (rtc_ind_r (fun z => unbounded z)); [done|]. intros y z _ [Hyz Hm] Hu. by apply (unbounded_step y). }
  unfold Mine.Stop_join, Mine.Start_launch. by rewrite Hj'.
Qed.
End Invariant.

(** ** Witnesses: a regtest miner that finds the first block *)

(** A RandomX whose hashes are constant and always meet the target. *)
#[local] Instance easy_lib : RandomXLib := {|
  randomx_cache := bytes; randomx_vm := bytes;
  randomx_init_cache k := Some k; randomx_create_vm c := Some c;
  randomx_calculate_hash vm x := replicate 32 1;
  randomx_calculate_commitment x r := Blob.SetNull 32 |}.

(** A network that expires at the first block. *)
Definition expiring (p : ChainParams) : ChainParams :=
  let c := consensus p in
  {| consensus := {| powLimit := powLimit c; nPowTargetSpacing := nPowTargetSpacing c; nRandomXEpochDuration := nRandomXEpochDuration c;
       nASERTHalfLife := nASERTHalfLife c; nASERTAnchorHeight := nASERTAnchorHeight c; hashGenesisBlock := hashGenesisBlock c;
       nMinimumChainWork := nMinimumChainWork c; nNetworkExpirationInterval := 1;
       nNetworkExpirationGracePeriod := nNetworkExpirationGracePeriod c; nOrphanHeaderExpireTime := nOrphanHeaderExpireTime c;
       nSuspiciousReorgDepth := nSuspiciousReorgDepth c; nAntiDosWorkBufferBlocks := nAntiDosWorkBufferBlocks c |};
     nDefaultPort := nDefaultPort p; chainType := chainType p; genesis := genesis p; vFixedSeeds := vFixedSeeds p |}.

Definition idle (p : ChainParams) : Mine.system :=
  Mine.mkSystem Mine.new None (Rx.InitRandomX (Rx.mkState false ∅ ∅)) (regtest_state p).

(** The miner is started and its worker makes three steps. *)
Definition started (p : ChainParams) : Mine.system := snd (Mine.Start_exchange (idle p)).
Definition first_clocks : list (Z * Z) := [(1296688700, 1296688700); (1296688700, 1296688700); (1296688701, 1296688700)].
Definition first_find (p : ChainParams) : option Mine.system :=
  s ← Mine.Start_launch (-1) (started p);
  if bounded_run Endian.Little p first_clocks s then Mine.worker_run Endian.Little p first_clocks s else None.

(** It then holds a new block on the genesis. *)
Definition first_found (s : Mine.system) : bool :=
  match Mine.worker_ s with
  | Some (Running (Submit found) n t prev) =>
      let c := Mine.chainstate_ s in
      bool_decide (index c !! Header.GetHash found = None) && bool_decide (tip c = Some prev) &&
      mining_ (Mine.miner s) && negb (template_invalidated_ (Mine.miner s)) && (blocks_found_ (Mine.miner s) =? 1) &&
      (tm_nHeight t =? 1) && (total c =? 1)
  | _ => false
  end.

Lemma first_find_ok : exists p, Params.Select 0 0 REGTEST = Some p /\ params_wf (expiring p) /\
  exists s, first_find (expiring p) = Some s /\ first_found s = true.
Proof.
  destruct (select_ok 0 0 REGTEST) as (p & E & Ec & Hp & _). exists p. split; [done|]. split.
  { destruct Hp. by split. }
  assert (Hc : match (p ← Params.Select 0 0 REGTEST; s ← first_find (expiring p); Some (first_found s)) with
    Some r => r | None => false end = true) by (vm_compute; reflexivity).
  rewrite E in Hc. cbn [mbind option_bind] in Hc. destruct (first_find (expiring p)) as [s|]; [|discriminate Hc]. exists s. exact (conj eq_refl Hc).
Qed.

Lemma easy_alloc params header : is_Some (rx_hash_of Endian.Little params header).
Proof. by eexists. Qed.
Lemma easy_width params header x : header_wf header -> rx_hash_of Endian.Little params header = Some x -> blob_wf 32 x.
Proof. intros _ [= <-]. split; [done|]. by repeat constructor. Qed.

Lemma idle_ok params : system_ok Endian.Little params regtest_hash (idle params).
Proof.
  destruct (regtest_inv params) as (Hwf & Hst & _). split.
  - exact (conj Hwf (conj Hst (genesis_anchors params params regtest_genesis))).
  - split; intros ? ? Hl; vm_compute in Hl; discriminate Hl.
  - reflexivity.
  - exact (setnull_wf 20).
  - exact I.
Qed.


Lemma first_find_steps params s : first_find params = Some s -> rtc (step Endian.Little params regtest_hash) (idle params) s.
Proof.
  unfold first_find. destruct (Mine.Start_launch (-1) (started params)) as [s1|] eqn:E; [|discriminate]. cbn [mbind option_bind].
  destruct (bounded_run Endian.Little params first_clocks s1) eqn:Eb; [|discriminate]. intros Hr.
  apply (rtc_l _ _ _ _ (step_start Endian.Little params regtest_hash (idle params))).
  apply (rtc_l _ _ _ _ (step_launch Endian.Little params regtest_hash _ (-1) s1 E)).
  by apply (run_steps Endian.Little params regtest_hash first_clocks).
Qed.

(** The facts that the check computes. *)
Lemma first_found_facts s : first_found s = true -> exists found n t prev,
  Mine.worker_ s = Some (Running (Submit found) n t prev) /\
  index (Mine.chainstate_ s) !! Header.GetHash found = None /\ tip (Mine.chainstate_ s) = Some prev /\
  mining_ (Mine.miner s) = true /\ template_invalidated_ (Mine.miner s) = false /\ blocks_found_ (Mine.miner s) = 1 /\
  tm_nHeight t = 1 /\ total (Mine.chainstate_ s) = 1.
Proof.
  unfold first_found. destruct (Mine.worker_ s) as [[|[| | |found| |] n t prev|]|]; try discriminate. cbv zeta.
  rewrite !andb_true_iff, !bool_decide_eq_true, negb_true_iff, !Z.eqb_eq. intros ((((((? & ?) & ?) & ?) & ?) & ?) & ?).
  by exists found, n, t, prev.
Qed.

Lemma mined_block_verdict_witness : exists p s found n t prev,
  first_find p = Some s /\ Mine.worker_ s = Some (Running (Submit found) n t prev) /\
  match Mine.worker_step Endian.Little p 1296688702 1296688702 s with
  | Some s' => exists ok c' m', s' = Mine.mkSystem m' (Some (Running (if ok : bool then CheckTarget else Loop) n t prev)) (Mine.worker_rx s) c' /\
      (ok = false -> c' = Mine.chainstate_ s)
  | None => submit_fails Endian.Little p 1296688702 1296688702 s
  end.
Proof.
  destruct first_find_ok as (p & _ & Hp & s & E & Hf). destruct (first_found_facts s Hf) as (found & n & t & prev & Ew & _ & _ & _ & _ & _ & _ & Ht).
  exists (expiring p), s, found, n, t, prev. split; [exact E|]. split; [exact Ew|].
  pose proof (mined_block_verdict Endian.Little (expiring p) regtest_hash Hp (easy_alloc _) (easy_width _) (idle (expiring p)) s
    1296688702 1296688702 found n t prev (idle_ok _) eq_refl (first_find_steps _ _ E) Ew ltac:(lia)) as [_ Hv].
  destruct (Mine.worker_step Endian.Little (expiring p) 1296688702 1296688702 s) as [s'|]; [|exact Hv].
  destruct Hv as (ok & c' & m' & Es & _ & Hno & _). exists ok, c', m'. exact (conj Es Hno).
Defined.

Lemma stop_ends_worker_witness : exists p s, first_find p = Some s /\
  (rank (Mine.worker_ (Mine.Stop_store s)) <= 6)%nat.
Proof.
  destruct first_find_ok as (p & _ & Hp & s & E & Hf). destruct (first_found_facts s Hf) as (found & n & t & prev & Ew & _ & _ & _ & _ & _ & _ & Ht).
  exists (expiring p), s. split; [exact E|].
  apply (stop_ends_worker Endian.Little (expiring p) regtest_hash Hp (easy_alloc _) (easy_width _) (Mine.Stop_store s) 1296688702 1296688702).
  - apply (system_step_ok Endian.Little (expiring p) regtest_hash Hp (easy_alloc _) (easy_width _) s); [|apply step_stop].
    exact (steps_ok Endian.Little (expiring p) regtest_hash Hp (easy_alloc _) (easy_width _) _ _ (idle_ok _) (first_find_steps _ _ E)).
  - unfold Mine.Stop_store. cbn [Mine.chainstate_]. lia.
  - destruct s as [[] ? ? ?]. reflexivity.
Defined.

Lemma expired_miner_spins_witness : exists p s s' found n t prev, first_find p = Some s /\
  Mine.worker_run Endian.Little p [(1, 2); (3, 4); (5, 6); (7, 8); (9, 10); (11, 12)] s = Some s' /\
  Mine.worker_ s' = Some (Running (Submit found) n t prev) /\ Mine.worker_ s = Mine.worker_ s' /\ blocks_found_ (Mine.miner s') = 3.
Proof.
  destruct first_find_ok as (p & _ & Hp & s & E & Hf).
  destruct (first_found_facts s Hf) as (found & n & t & prev & Ew & Hnew & Htip & Hmi & Hin & Hb & Hh & Ht).
  destruct (expired_miner_spins Endian.Little (expiring p) regtest_hash Hp (easy_alloc _) (easy_width _) s found n t prev
    [((1, 2), (3, 4), (5, 6)); ((7, 8), (9, 10), (11, 12))]) as (s' & Er & Ew' & _ & Hm').
  - exact (steps_ok Endian.Little (expiring p) regtest_hash Hp (easy_alloc _) (easy_width _) _ _ (idle_ok _) (first_find_steps _ _ E)).
  - lia.
  - exact Ew.
  - exact Hmi.
  - exact Hin.
  - exact Htip.
  - exact Hnew.
  - cbn [expiring consensus nNetworkExpirationInterval]. lia.
  - exists (expiring p), s, s', found, n, t, prev. split; [exact E|]. split; [exact Er|]. split; [exact Ew'|].
    split; [rewrite Ew, Ew'; reflexivity|]. rewrite Hm'. destruct (Mine.miner s). cbn in Hb |- *. rewrite Hb. reflexivity.
Defined.

Lemma start_during_stop_hangs_witness : exists p s, Params.Select 0 0 REGTEST = Some p /\
  Mine.Start_launch (-1) (started p) = Some s /\ fst (Mine.Start_exchange (Mine.Stop_store s)) = true /\
  Mine.Stop_join (snd (Mine.Start_exchange (Mine.Stop_store s))) = None.
Proof.
  destruct (select_ok 0 0 REGTEST) as (p & E & _). exists p. eexists. split; [exact E|]. split; [reflexivity|].
  match goal with |- fst (Mine.Start_exchange (Mine.Stop_store ?s)) = true /\ _ => pose (st := s); change s with st end.
  destruct (start_during_stop_hangs Endian.Little p regtest_hash st (snd (Mine.Start_exchange (Mine.Stop_store st))) eq_refl eq_refl) as [Hf Hh].
  split; [exact Hf|]. apply Hh. apply rtc_refl.
Defined.
