(* ===== verification/Protocol.v ===== *)
(** * Protocol: the wire structures of [network/protocol.hpp/.cpp]

    Constants, message header, network addresses and inventory vectors.  A C string or
    [std::string] is the list of its character codes, a [std::array] of bytes a list of that
    length.  Parsing and printing of IP addresses belongs to Boost.Asio and is the interface
    [BoostAsio]. *)
From stdpp Require Import strings.
From S2P Require Import Prelude Arith Bytes.
#[local] Open Scope Z_scope.

Module Proto.

Definition PROTOCOL_VERSION : Z := 1.
Definition MIN_PROTOCOL_VERSION : Z := 1.

(** [namespace magic] and [namespace ports]. *)
Definition magic_MAINNET : Z := 0x554E4943.
Definition magic_TESTNET : Z := 0xA3F8D412.
Definition magic_REGTEST : Z := 0x4B7C2E91.
Definition port_MAINNET : Z := 9590.
Definition port_TESTNET : Z := 19590.
Definition port_REGTEST : Z := 29590.

Definition NODE_NONE : Z := 0.
Definition NODE_NETWORK : Z := Z.shiftl 1 0.

(** [namespace commands]. *)
Definition VERSION : list Z := Eval vm_compute in str "version".
Definition VERACK : list Z := Eval vm_compute in str "verack".
Definition ADDR : list Z := Eval vm_compute in str "addr".
Definition GETADDR : list Z := Eval vm_compute in str "getaddr".
Definition INV : list Z := Eval vm_compute in str "inv".
Definition GETHEADERS : list Z := Eval vm_compute in str "getheaders".
Definition HEADERS : list Z := Eval vm_compute in str "headers".
Definition PING : list Z := Eval vm_compute in str "ping".
Definition PONG : list Z := Eval vm_compute in str "pong".

Definition MESSAGE_HEADER_SIZE : nat := 24.
Definition COMMAND_SIZE : nat := 12.
Definition CHECKSUM_SIZE : nat := 4.
Definition MAX_SIZE : Z := 0x02000000.
Definition MAX_PROTOCOL_MESSAGE_LENGTH : Z := 4 * 1000 * 1000.
Definition MAX_LOCATOR_SZ : Z := 101.
Definition MAX_INV_SIZE : Z := 50000.
Definition MAX_HEADERS_SIZE : Z := 2000.
Definition MAX_ADDR_SIZE : Z := 1000.
Definition MAX_SUBVERSION_LENGTH : Z := 256.

(** [GetUserAgent] of [version.hpp]. *)
Definition GetVersionString : list Z := Eval vm_compute in str "1" ++ str "." ++ str "0" ++ str "." ++ str "0".
Definition GetUserAgent : list Z := Eval vm_compute in str "/CoinbaseChain:" ++ GetVersionString ++ str "/".

(** [enum class InventoryType : uint32_t]: any 32-bit value can be cast to it. *)
Definition MSG_ERROR : Z := 0.
Definition MSG_BLOCK : Z := 2.

(** ** Message header *)

Record MessageHeader := mkMH { magic : Z; command : list Z; mlength : Z; checksum : bytes }.

Definition MessageHeader_new : MessageHeader := mkMH 0 (replicate COMMAND_SIZE 0) 0 (replicate CHECKSUM_SIZE 0).

(** [get_command]: up to the first null. *)
Fixpoint until_nul (s : list Z) : list Z :=
  match s with
  | [] => []
  | c :: s => if c =? 0 then [] else c :: until_nul s
  end.
Definition get_command (h : MessageHeader) : list Z := until_nul (command h).

(** [set_command]: null-padded, truncated to the field. *)
Definition command_field (cmd : list Z) : list Z :=
  let copy_len := Nat.min (length cmd) COMMAND_SIZE in
  write_at 0 (take copy_len cmd) (replicate COMMAND_SIZE 0).
Definition set_command (cmd : list Z) (h : MessageHeader) : MessageHeader :=
  mkMH (magic h) (command_field cmd) (mlength h) (checksum h).
Definition MessageHeader_of (m : Z) (cmd : list Z) (len : Z) : MessageHeader :=
  mkMH m (command_field cmd) len (replicate CHECKSUM_SIZE 0).

(** ** Network addresses *)

Record NetworkAddress := mkNA { services : Z; ip : bytes; port : Z }.
#[global] Instance NetworkAddress_eq_dec : EqDecision NetworkAddress.
Proof. solve_decision. Defined.

Definition NetworkAddress_new : NetworkAddress := mkNA 0 (replicate 16 0) 0.

Definition from_ipv4 (svcs ipv4 p : Z) : NetworkAddress :=
  let ip := replicate 16 0 in
  let ip := <[10%nat := 0xff]> ip in
  let ip := <[11%nat := 0xff]> ip in
  let ip := <[12%nat := Z.land (Z.shiftr ipv4 24) 0xff]> ip in
  let ip := <[13%nat := Z.land (Z.shiftr ipv4 16) 0xff]> ip in
  let ip := <[14%nat := Z.land (Z.shiftr ipv4 8) 0xff]> ip in
  let ip := <[15%nat := Z.land ipv4 0xff]> ip in
  mkNA svcs ip p.

Definition byte_of (a : NetworkAddress) (i : nat) : Z := nth i (ip a) 0.

Definition is_ipv4 (a : NetworkAddress) : bool :=
  (byte_of a 0 =? 0) && (byte_of a 1 =? 0) && (byte_of a 2 =? 0) && (byte_of a 3 =? 0) && (byte_of a 4 =? 0) &&
  (byte_of a 5 =? 0) && (byte_of a 6 =? 0) && (byte_of a 7 =? 0) && (byte_of a 8 =? 0) && (byte_of a 9 =? 0) &&
  (byte_of a 10 =? 0xff) && (byte_of a 11 =? 0xff).

Definition get_ipv4 (a : NetworkAddress) : Z :=
  if negb (is_ipv4 a) then 0
  else Z.lor (Z.lor (Z.lor (u32 (Z.shiftl (byte_of a 12) 24)) (u32 (Z.shiftl (byte_of a 13) 16)))
                    (u32 (Z.shiftl (byte_of a 14) 8))) (byte_of a 15).

(** [std::array]'s lexicographic order, then port, then services. *)
Fixpoint array_lt (a b : bytes) : bool :=
  match a, b with
  | x :: a, y :: b => if x <? y then true else if y <? x then false else array_lt a b
  | [], _ :: _ => true
  | _, [] => false
  end.
Definition addr_lt (a b : NetworkAddress) : bool :=
  if negb (bool_decide (ip a = ip b)) then array_lt (ip a) (ip b)
  else if negb (port a =? port b) then port a <? port b
  else services a <? services b.
Definition addr_eqb (a b : NetworkAddress) : bool :=
  bool_decide (ip a = ip b) && (port a =? port b) && (services a =? services b).

(** *** Conversion from and to text *)

(** The parts of Boost.Asio that are used: parsing an address ([inl] the four bytes of a v4 address,
    [inr] the sixteen of a v6 address), the mapping of v4 into v6, and printing. *)
Class BoostAsio := {
  make_address : list Z -> option (bytes + bytes);
  v4_mapped : bytes -> bytes;
  is_v4_mapped : bytes -> bool;
  v4_unmapped : bytes -> bytes;
  to_string_v4 : bytes -> list Z;
  to_string_v6 : bytes -> list Z
}.

Definition from_string `{BoostAsio} (ip_str : list Z) (p svcs : Z) : NetworkAddress :=
  match make_address ip_str with
  | None => mkNA svcs (replicate 16 0) p
  | Some (inl v4) => mkNA svcs (v4_mapped v4) p
  | Some (inr v6) => mkNA svcs v6 p
  end.

(** The [catch] branch is for exceptions of the v4 conversion, which the test before it excludes. *)
Definition NetworkAddressToString `{BoostAsio} (addr : NetworkAddress) : option (list Z) :=
  if is_v4_mapped (ip addr) then Some (to_string_v4 (v4_unmapped (ip addr)))
  else Some (to_string_v6 (ip addr)).

(** ** Timestamped addresses and inventory vectors *)

Record TimestampedAddress := mkTA { timestamp : Z; address : NetworkAddress }.
Definition TimestampedAddress_new : TimestampedAddress := mkTA 0 NetworkAddress_new.

Record InventoryVector := mkInv { inv_type : Z; inv_hash : bytes }.
Definition InventoryVector_new : InventoryVector := mkInv MSG_ERROR (replicate 32 0).

End Proto.

(** Values in the range of their C++ types. *)
Definition addr_wf (a : Proto.NetworkAddress) : Prop :=
  in_u 64 (Proto.services a) /\ blob_wf 16 (Proto.ip a) /\ in_u 16 (Proto.port a).
Definition taddr_wf (t : Proto.TimestampedAddress) : Prop := in_u 32 (Proto.timestamp t) /\ addr_wf (Proto.address t).
Definition inv_wf (v : Proto.InventoryVector) : Prop := in_u 32 (Proto.inv_type v) /\ blob_wf 32 (Proto.inv_hash v).

(** A command that a header can carry: printable and shorter than the field. *)
Definition printable (c : Z) : Prop := 0x20 <= c <= 0x7e.
Definition command_ok (cmd : list Z) : Prop := (length cmd < Proto.COMMAND_SIZE)%nat /\ Forall printable cmd.

(** ** Commands *)

Lemma command_field_short cmd : (length cmd <= Proto.COMMAND_SIZE)%nat ->
  Proto.command_field cmd = cmd ++ replicate (Proto.COMMAND_SIZE - length cmd) 0.
Proof.
  intros Hl. unfold Proto.command_field, write_at. rewrite Nat.min_l by done. rewrite firstn_all, Nat.add_0_l, drop_replicate.
  done.
Qed.

Lemma until_nul_app cmd s : Forall (fun c => c <> 0) cmd -> Proto.until_nul (cmd ++ 0 :: s) = cmd.
Proof.
  induction 1 as [|c cmd Hc _ IH]; [done|]. cbn [app Proto.until_nul].
  rewrite (proj2 (Z.eqb_neq _ _) Hc). by rewrite IH.
Qed.

Lemma until_nul_all cmd : Forall (fun c => c <> 0) cmd -> Proto.until_nul cmd = cmd.
Proof.
  induction 1 as [|c cmd Hc _ IH]; [done|]. cbn [Proto.until_nul]. rewrite (proj2 (Z.eqb_neq _ _) Hc). by rewrite IH.
Qed.

Lemma get_command_field cmd m n k : Forall (fun c => c <> 0) cmd -> (length cmd <= Proto.COMMAND_SIZE)%nat ->
  Proto.get_command (Proto.mkMH m (Proto.command_field cmd) n k) = cmd.
Proof.
  intros Hc Hl. unfold Proto.get_command. cbn [Proto.command]. rewrite command_field_short by done.
  destruct (Proto.COMMAND_SIZE - length cmd)%nat; cbn [replicate]; [|by apply until_nul_app].
  rewrite app_nil_r. by apply until_nul_all.
Qed.

Lemma printable_nonzero cmd : Forall printable cmd -> Forall (fun c => c <> 0) cmd.
Proof. intros H. eapply Forall_impl; [exact H|]. unfold printable. lia. Qed.

(** ** IPv4-mapped addresses *)

Lemma byte_mask x : Z.land x 0xff = x mod 2 ^ 8.
Proof. change 0xff with (Z.ones 8). by rewrite Z.land_ones. Qed.

Lemma from_ipv4_bytes s v p : in_u 32 v ->
  Proto.from_ipv4 s v p = Proto.mkNA s (replicate 10 0 ++ [0xff; 0xff] ++ rev (le_split 4 v)) p.
Proof.
  intros Hv. unfold Proto.from_ipv4. cbv zeta. rewrite !byte_mask, !Z.shiftr_div_pow2 by lia.
  cbn [le_split rev app]. cbn -[Z.modulo Z.div Z.pow]. do 2 f_equal.
  rewrite !Z.div_div by lia. reflexivity.
Qed.

Lemma combine_lor b12 b13 b14 b15 : Forall byte_ok [b12; b13; b14; b15] ->
  Z.lor (Z.lor (Z.lor (u32 (Z.shiftl b12 24)) (u32 (Z.shiftl b13 16))) (u32 (Z.shiftl b14 8))) b15 =
  le_combine [b15; b14; b13; b12].
Proof.
  rewrite !Forall_cons. unfold byte_ok. intros (H2 & H3 & H4 & H5 & _).
  rewrite !Z.shiftl_mul_pow2 by lia. rewrite !u32_id by (unfold in_u; lia).
  rewrite (Z.lor_comm (b12 * _)). rewrite (lor_shifted (b13 * 2 ^ 16) b12 24) by lia.
  rewrite (Z.lor_comm _ (b14 * _)). replace (b13 * 2 ^ 16 + b12 * 2 ^ 24) with ((b13 + b12 * 2 ^ 8) * 2 ^ 16) by lia.
  rewrite (lor_shifted (b14 * 2 ^ 8)) by lia. rewrite Z.lor_comm.
  replace (b14 * 2 ^ 8 + (b13 + b12 * 2 ^ 8) * 2 ^ 16) with ((b14 + b13 * 2 ^ 8 + b12 * 2 ^ 16) * 2 ^ 8) by lia.
  rewrite lor_shifted by lia. cbn [le_combine]. lia.
Qed.

Lemma is_ipv4_bytes a : addr_wf a -> Proto.is_ipv4 a = true ->
  exists q, blob_wf 4 q /\ Proto.ip a = replicate 10 0 ++ [0xff; 0xff] ++ q.
Proof.
  destruct a as [s i p]. intros (_ & [Hl Hb] & _) H. cbn [Proto.ip] in *.
  do 16 (destruct i as [|? i]; [discriminate Hl|]). destruct i; [|discriminate Hl].
  unfold Proto.is_ipv4, Proto.byte_of in H. cbn [Proto.ip nth] in H.
  repeat (apply andb_true_iff in H as [H ?]). rewrite ?Z.eqb_eq in *. subst.
  eexists [_; _; _; _]. split; [|reflexivity]. split; [reflexivity|]. exact (Forall_drop _ 12 _ Hb).
Qed.

Lemma mapped_ip q s p : Proto.is_ipv4 (Proto.mkNA s (replicate 10 0 ++ [0xff; 0xff] ++ q) p) = true.
Proof. reflexivity. Qed.

Lemma mapped_get q s p : blob_wf 4 q ->
  Proto.get_ipv4 (Proto.mkNA s (replicate 10 0 ++ [0xff; 0xff] ++ q) p) = le_combine (rev q).
Proof.
  intros [Hl Hq]. unfold Proto.get_ipv4. rewrite mapped_ip. cbn [negb].
  do 4 (destruct q as [|? q]; [discriminate Hl|]). destruct q; [|discriminate Hl].
  exact (combine_lor _ _ _ _ Hq).
Qed.

(** an IPv4 address (any 32-bit value) is stored as its IPv4-mapped IPv6 address and read back
    unchanged; conversely every address with the mapped prefix is the one built from its IPv4 value, and an
    address without the prefix reads as 0. *)
Theorem ipv4_mapping_exact :
  (forall s v p, in_u 64 s -> in_u 32 v -> in_u 16 p ->
     addr_wf (Proto.from_ipv4 s v p) /\ Proto.is_ipv4 (Proto.from_ipv4 s v p) = true /\
     Proto.get_ipv4 (Proto.from_ipv4 s v p) = v) /\
  (forall a, addr_wf a -> Proto.is_ipv4 a = true ->
     in_u 32 (Proto.get_ipv4 a) /\ Proto.from_ipv4 (Proto.services a) (Proto.get_ipv4 a) (Proto.port a) = a) /\
  (forall a, Proto.is_ipv4 a = false -> Proto.get_ipv4 a = 0).
Proof.
  split_and!.
  - intros s v p Hs Hv Hp. rewrite from_ipv4_bytes by done. pose proof (blob_wf_rev _ _ (le_split_wf 4 v)) as Hw.
    split_and!.
    + split_and!; [done| |done]. cbn [Proto.ip]. split; [by rewrite !length_app, (proj1 Hw)|].
      rewrite !Forall_app. split_and!; [by apply Forall_replicate| |apply Hw]. by repeat constructor.
    + apply mapped_ip.
    + rewrite mapped_get, rev_involutive, le_combine_split by done. by apply Z.mod_small.
  - intros a Ha H4. destruct (is_ipv4_bytes a Ha H4) as (q & Hq & E). destruct a as [s i p].
    cbn [Proto.ip] in E. subst i. rewrite mapped_get by done. cbn [Proto.services Proto.port].
    assert (Hr : in_u 32 (le_combine (rev q))) by exact (le_combine_range _ _ (blob_wf_rev _ _ Hq)).
    split; [done|]. rewrite from_ipv4_bytes by done.
    pose proof (le_split_combine _ (proj2 (blob_wf_rev _ _ Hq))) as E. rewrite length_rev, (proj1 Hq) in E.
    by rewrite E, rev_involutive.
  - intros a H. unfold Proto.get_ipv4. by rewrite H.
Qed.

(** ** The order of addresses, as [std::set] needs it *)

Lemma array_lt_irrefl a : Proto.array_lt a a = false.
Proof. induction a as [|x a IH]; [done|]. cbn [Proto.array_lt]. by rewrite !Z.ltb_irrefl. Qed.

Lemma array_lt_trans a b c : Proto.array_lt a b = true -> Proto.array_lt b c = true -> Proto.array_lt a c = true.
Proof.
  revert b c. induction a as [|x a IH]; intros [|y b] [|z c]; cbn [Proto.array_lt]; try done.
  destruct (Z.ltb_spec x y), (Z.ltb_spec y x), (Z.ltb_spec y z), (Z.ltb_spec z y), (Z.ltb_spec x z), (Z.ltb_spec z x);
    try done; try lia. apply IH.
Qed.

Lemma array_lt_total a b : a = b \/ Proto.array_lt a b = true \/ Proto.array_lt b a = true.
Proof.
  revert b. induction a as [|x a IH]; intros [|y b]; cbn [Proto.array_lt]; auto.
  destruct (Z.ltb_spec x y), (Z.ltb_spec y x); auto. assert (x = y) as -> by lia.
  destruct (IH b) as [->|[]]; auto.
Qed.

Lemma addr_lt_cases a b : Proto.addr_lt a b = true <->
  Proto.array_lt (Proto.ip a) (Proto.ip b) = true \/
  Proto.ip a = Proto.ip b /\ (Proto.port a < Proto.port b \/
    Proto.port a = Proto.port b /\ Proto.services a < Proto.services b).
Proof.
  unfold Proto.addr_lt. case_bool_decide as E; cbn [negb].
  - rewrite E, array_lt_irrefl. destruct (Z.eqb_spec (Proto.port a) (Proto.port b)); cbn [negb]; rewrite Z.ltb_lt.
    + intuition lia.
    + intuition lia.
  - intuition done.
Qed.

(** the order that keeps time sources in a set is a strict total order whose equivalence is the equality of
    addresses, so that two addresses are the same set element exactly when they are equal. *)
Theorem address_order_strict_total :
  (forall a b, Proto.addr_eqb a b = true <-> a = b) /\
  (forall a, Proto.addr_lt a a = false) /\
  (forall a b c, Proto.addr_lt a b = true -> Proto.addr_lt b c = true -> Proto.addr_lt a c = true) /\
  (forall a b, Proto.addr_lt a b = false /\ Proto.addr_lt b a = false <-> a = b).
Proof.
  assert (Irr : forall a, Proto.addr_lt a a = false).
  { intros a. apply not_true_is_false. rewrite addr_lt_cases, array_lt_irrefl. intuition (done || lia). }
  split_and!; [| done | |].
  - intros [s i p] [s' i' p']. unfold Proto.addr_eqb. cbn [Proto.ip Proto.port Proto.services].
    rewrite !andb_true_iff, !Z.eqb_eq, bool_decide_eq_true. naive_solver.
  - intros a b c. rewrite !addr_lt_cases.
    intros [H1|(E1 & H1)] [H2|(E2 & H2)].
    + left. by eapply array_lt_trans.
    + left. by rewrite <- E2.
    + left. by rewrite E1.
    + right. split; [congruence|lia].
  - intros a b. split; [|intros ->; auto]. intros [H1 H2]. apply not_true_iff_false in H1, H2.
    rewrite addr_lt_cases in H1, H2. destruct (array_lt_total (Proto.ip a) (Proto.ip b)) as [E|[]]; [|tauto..].
    destruct a as [s i p], b as [s' i' p']. cbn [Proto.ip Proto.port Proto.services] in *. subst.
    assert (Hp : ~ (p' < p \/ p' = p /\ s' < s)) by tauto. assert (~ (p < p' \/ p = p' /\ s < s')) by tauto.
    f_equal; lia.
Qed.

Lemma ipv4_mapping_exact_witness : Proto.get_ipv4 (Proto.from_ipv4 1 0x7f000001 9590) = 0x7f000001.
Proof. apply (proj1 ipv4_mapping_exact); unfold in_u; lia. Defined.

Lemma address_order_strict_total_witness :
  Proto.addr_lt (Proto.from_ipv4 1 1 9590) (Proto.from_ipv4 1 3 9590) = true.
Proof.
  apply (proj1 (proj2 (proj2 address_order_strict_total)) _ (Proto.from_ipv4 1 2 9590)); vm_compute; reflexivity.
Defined.
