(* ===== verification/Message.v ===== *)
(** * Message: the wire format of [network/message.hpp/.cpp]

    [VarInt], the serializer, the deserializer with its sticky error flag, every message payload
    and the message header.  The deserializer is a small state monad; its reads are specified by
    [reads], a relation between a value and the byte strings that encode it. *)
From stdpp Require Import strings.
From S2P Require Import Prelude Arith Bytes Sha256 Block Protocol.
#[local] Open Scope Z_scope.
Import Proto.

(** ** [VarInt] *)

Module VarInt.

Definition encoded_size (value : Z) : nat :=
  if value <? 0xfd then 1 else if value <=? 0xffff then 3 else if value <=? 0xffffffff then 5 else 9.

Definition encode (h : Endian.host) (value : Z) : bytes :=
  if value <? 0xfd then [u8 value]
  else if value <=? 0xffff then 0xfd :: Endian.WriteLE16 h (u16 value)
  else if value <=? 0xffffffff then 0xfe :: Endian.WriteLE32 h (u32 value)
  else 0xff :: Endian.WriteLE64 h value.

(** The value and the number of bytes consumed; [None] is the return value 0. *)
Definition decode (h : Endian.host) (buffer : bytes) : option (Z * nat) :=
  match buffer with
  | [] => None
  | first :: rest =>
      if first <? 0xfd then Some (first, 1%nat)
      else if first =? 0xfd then
        if (length buffer <? 3)%nat then None else Some (Endian.ReadLE16 h rest, 3%nat)
      else if first =? 0xfe then
        if (length buffer <? 5)%nat then None else Some (Endian.ReadLE32 h rest, 5%nat)
      else if (length buffer <? 9)%nat then None else Some (Endian.ReadLE64 h rest, 9%nat)
  end.

End VarInt.

(** ** [MessageSerializer]: each write appends to the buffer *)

Module Ser.
Section Ser.
Context (h : Endian.host).

Definition write_uint8 (value : Z) (buffer_ : bytes) : bytes := buffer_ ++ [value].
Definition write_uint16 (value : Z) (buffer_ : bytes) : bytes := buffer_ ++ Endian.WriteLE16 h value.
Definition write_uint32 (value : Z) (buffer_ : bytes) : bytes := buffer_ ++ Endian.WriteLE32 h value.
Definition write_uint64 (value : Z) (buffer_ : bytes) : bytes := buffer_ ++ Endian.WriteLE64 h value.
Definition write_int32 (value : Z) : bytes -> bytes := write_uint32 (u32 value).
Definition write_int64 (value : Z) : bytes -> bytes := write_uint64 (u64 value).
Definition write_bool (value : bool) : bytes -> bytes := write_uint8 (if value then 1 else 0).
Definition write_varint (value : Z) (buffer_ : bytes) : bytes := buffer_ ++ VarInt.encode h value.
Definition write_bytes (data : bytes) (buffer_ : bytes) : bytes := buffer_ ++ data.
Definition write_string (s : list Z) (buffer_ : bytes) : bytes :=
  write_bytes s (write_varint (Z.of_nat (length s)) buffer_).
Definition write_network_address (addr : NetworkAddress) (buffer_ : bytes) : bytes :=
  write_bytes (ip addr) (write_uint64 (services addr) buffer_) ++ Endian.WriteBE16 h (port addr).
Definition write_inventory_vector (inv : InventoryVector) (buffer_ : bytes) : bytes :=
  write_bytes (inv_hash inv) (write_uint32 (inv_type inv) buffer_).
End Ser.
End Ser.

(** ** [MessageDeserializer] *)

Record MessageDeserializer := mkD { data_ : bytes; position_ : nat; error_ : bool }.

Definition reader (A : Type) : Type := MessageDeserializer -> A * MessageDeserializer.
Definition ret {A} (a : A) : reader A := fun d => (a, d).
Definition bind {A B} (m : reader A) (k : A -> reader B) : reader B := fun d => let '(a, d) := m d in k a d.
Declare Scope reader_scope.
Delimit Scope reader_scope with reader.
Notation "'let*' x := m 'in' k" := (bind m (fun x => k)) (at level 10, x name, k at level 200) : reader_scope.
#[local] Open Scope reader_scope.

Module De.

Definition open (data : bytes) : MessageDeserializer := mkD data 0 false.
Definition bytes_remaining (d : MessageDeserializer) : nat := length (data_ d) - position_ d.
Definition set_error (d : MessageDeserializer) : MessageDeserializer := mkD (data_ d) (position_ d) true.
Definition advance (n : nat) (d : MessageDeserializer) : MessageDeserializer := mkD (data_ d) (position_ d + n) (error_ d).
Definition here (d : MessageDeserializer) : bytes := drop (position_ d) (data_ d).

Definition check_available (n : nat) (d : MessageDeserializer) : MessageDeserializer :=
  if (bytes_remaining d <? n)%nat then set_error d else d.

(** [check_available(n)], the early return of [dflt], then the value at the position and the advance. *)
Definition take_checked {A} (n : nat) (dflt : A) (f : bytes -> A) : reader A := fun d =>
  let d := check_available n d in
  if error_ d then (dflt, d) else (f (here d), advance n d).

Section De.
Context (h : Endian.host).

Definition read_uint8 : reader Z := take_checked 1 0 (fun p => hd 0 p).
Definition read_uint16 : reader Z := take_checked 2 0 (Endian.ReadLE16 h).
Definition read_uint32 : reader Z := take_checked 4 0 (Endian.ReadLE32 h).
Definition read_uint64 : reader Z := take_checked 8 0 (Endian.ReadLE64 h).
Definition read_int32 : reader Z := let* v := read_uint32 in ret (i32 v).
Definition read_int64 : reader Z := let* v := read_uint64 in ret (i64 v).
Definition read_bool : reader bool := let* v := read_uint8 in ret (negb (v =? 0)).
Definition read_bytes (count : nat) : reader bytes := take_checked count [] (fun p => take count p).

Definition read_varint : reader Z := fun d =>
  let d := check_available 1 d in
  if error_ d then (0, d)
  else match VarInt.decode h (here d) with
  | None => (0, set_error d)
  | Some (value, consumed) => if MAX_SIZE <? value then (0, set_error d) else (value, advance consumed d)
  end.

Definition read_string (max_length : Z) : reader (list Z) := fun d =>
  let '(len, d) := read_varint d in
  if error_ d || (max_length <? len) || (Z.of_nat (bytes_remaining d) <? len) then ([], set_error d)
  else (take (Z.to_nat len) (here d), advance (Z.to_nat len) d).

(** The result on an early return keeps the fields read so far. *)
Definition read_network_address (has_timestamp : bool) : reader NetworkAddress := fun d =>
  let d := if has_timestamp then snd (read_uint32 d) else d in
  let addr := NetworkAddress_new in
  let '(svcs, d) := read_uint64 d in
  let addr := mkNA svcs (ip addr) (port addr) in
  let d := check_available 16 d in
  if error_ d then (addr, d)
  else
    let addr := mkNA svcs (take 16 (here d)) (port addr) in
    let d := check_available 2 (advance 16 d) in
    if error_ d then (addr, d)
    else (mkNA svcs (ip addr) (Endian.ReadBE16 h (here d)), advance 2 d).

Definition read_timestamped_address : reader TimestampedAddress :=
  let* ts := read_uint32 in let* a := read_network_address false in ret (mkTA ts a).

Definition read_inventory_vector : reader InventoryVector := fun d =>
  let '(t, d) := read_uint32 d in
  let d := check_available 32 d in
  if error_ d then (mkInv t (inv_hash InventoryVector_new), d)
  else (mkInv t (take 32 (here d)), advance 32 d).

(** The element loops: stop at the first error, keeping the element that failed. *)
Fixpoint read_items {A} (get : reader A) (n : nat) (acc : list A) (d : MessageDeserializer)
  : bool * list A * MessageDeserializer :=
  match n with
  | O => (true, acc, d)
  | S n =>
      let '(a, d) := get d in
      if error_ d then (false, acc ++ [a], d) else read_items get n (acc ++ [a]) d
  end.

(** The loops over fixed-size blocks: an empty result of [read_bytes] or an element that does not
    decode returns before it is stored. *)
Fixpoint read_blocks {A} (size : nat) (f : bytes -> option A) (n : nat) (acc : list A) (d : MessageDeserializer)
  : bool * list A * MessageDeserializer :=
  match n with
  | O => (true, acc, d)
  | S n =>
      let '(b, d) := read_bytes size d in
      if negb (length b =? size)%nat then (false, acc, d)
      else match f b with
      | None => (false, acc, d)
      | Some a => read_blocks size f n (acc ++ [a]) d
      end
  end.
End De.
End De.

(** ** Message payloads *)

Record VersionMessage := mkVersion {
  version : Z; vservices : Z; vtimestamp : Z; addr_recv : NetworkAddress; addr_from : NetworkAddress;
  nonce : Z; user_agent : list Z; start_height : Z
}.
Record GetHeadersMessage := mkGetHeaders {
  gversion : Z; block_locator_hashes : list bytes; hash_stop : bytes
}.

(** [class Message] with its nine subclasses. *)
Inductive Message :=
| MVersion (m : VersionMessage)
| MVerack
| MPing (nonce : Z)
| MPong (nonce : Z)
| MAddr (addresses : list TimestampedAddress)
| MGetAddr
| MInv (inventory : list InventoryVector)
| MGetHeaders (m : GetHeadersMessage)
| MHeaders (headers : list CBlockHeader).

Module Msg.
Section Msg.
Context (h : Endian.host).
Import Ser De.

Definition VersionMessage_new : VersionMessage :=
  mkVersion PROTOCOL_VERSION NODE_NETWORK 0 NetworkAddress_new NetworkAddress_new 0 GetUserAgent 0.

Definition Version_serialize (m : VersionMessage) : bytes :=
  let s := write_int32 h (version m) [] in
  let s := write_uint64 h (vservices m) s in
  let s := write_int64 h (vtimestamp m) s in
  let s := write_network_address h (addr_recv m) s in
  let s := write_network_address h (addr_from m) s in
  let s := write_uint64 h (nonce m) s in
  let s := write_string h (user_agent m) s in
  write_int32 h (start_height m) s.

Definition read_version : reader VersionMessage :=
  let* version := read_int32 h in
  let* services := read_uint64 h in
  let* timestamp := read_int64 h in
  let* addr_recv := read_network_address h false in
  let* addr_from := read_network_address h false in
  let* nonce := read_uint64 h in
  let* user_agent := read_string h MAX_SUBVERSION_LENGTH in
  let* start_height := read_int32 h in
  ret (mkVersion version services timestamp addr_recv addr_from nonce user_agent start_height).

(** The returned flag and the object afterwards. *)
Definition Version_deserialize (data : bytes) : bool * VersionMessage :=
  let '(m, d) := read_version (open data) in (negb (error_ d), m).

Definition Nonce_serialize (nonce : Z) : bytes := write_uint64 h nonce [].
Definition Nonce_deserialize (data : bytes) : bool * Z :=
  let '(n, d) := read_uint64 h (open data) in (negb (error_ d), n).

Definition Empty_deserialize (data : bytes) : bool := (length data =? 0)%nat.

Definition Addr_serialize (addresses : list TimestampedAddress) : bytes :=
  foldl (fun s a => write_network_address h (address a) (write_uint32 h (timestamp a) s))
    (write_varint h (Z.of_nat (length addresses)) []) addresses.
Definition Addr_deserialize (this : list TimestampedAddress) (data : bytes) : bool * list TimestampedAddress :=
  let '(count, d) := read_varint h (open data) in
  if MAX_ADDR_SIZE <? count then (false, this)
  else let '(ok, l, d) := read_items (read_timestamped_address h) (Z.to_nat count) [] d in
       (ok && negb (error_ d), l).

Definition Inv_serialize (inventory : list InventoryVector) : bytes :=
  foldl (fun s v => write_inventory_vector h v s) (write_varint h (Z.of_nat (length inventory)) []) inventory.
Definition Inv_deserialize (this : list InventoryVector) (data : bytes) : bool * list InventoryVector :=
  let '(count, d) := read_varint h (open data) in
  if MAX_INV_SIZE <? count then (false, this)
  else let '(ok, l, d) := read_items (read_inventory_vector h) (Z.to_nat count) [] d in
       (ok && negb (error_ d), l).

Definition GetHeadersMessage_new : GetHeadersMessage := mkGetHeaders PROTOCOL_VERSION [] (replicate 32 0).
Definition GetHeaders_serialize (m : GetHeadersMessage) : bytes :=
  let s := write_uint32 h (gversion m) [] in
  let s := write_varint h (Z.of_nat (length (block_locator_hashes m))) s in
  let s := foldl (fun s hash => write_bytes hash s) s (block_locator_hashes m) in
  write_bytes (hash_stop m) s.
Definition GetHeaders_deserialize (this : GetHeadersMessage) (data : bytes) : bool * GetHeadersMessage :=
  let '(v, d) := read_uint32 h (open data) in
  let '(count, d) := read_varint h d in
  if MAX_LOCATOR_SZ <? count then (false, mkGetHeaders v (block_locator_hashes this) (hash_stop this))
  else
    let '(ok, l, d) := read_blocks 32 (fun b => Some b) (Z.to_nat count) [] d in
    if negb ok then (false, mkGetHeaders v l (hash_stop this))
    else
      let '(stop_hash, d) := read_bytes 32 d in
      if negb (length stop_hash =? 32)%nat then (false, mkGetHeaders v l (hash_stop this))
      else (negb (error_ d), mkGetHeaders v l stop_hash).

(** One header of the loop: [Deserialize] on a fresh object. *)
Definition read_header (b : bytes) : option CBlockHeader :=
  match Header.Deserialize Header.SetNull b with (true, hd) => Some hd | (false, _) => None end.
Definition Headers_serialize (headers : list CBlockHeader) : bytes :=
  foldl (fun s hd => write_bytes (Header.Serialize hd) s) (write_varint h (Z.of_nat (length headers)) []) headers.
Definition Headers_deserialize (this : list CBlockHeader) (data : bytes) : bool * list CBlockHeader :=
  let '(count, d) := read_varint h (open data) in
  if MAX_HEADERS_SIZE <? count then (false, this)
  else let '(ok, l, d) := read_blocks Header.HEADER_SIZE read_header (Z.to_nat count) [] d in
       (ok && negb (error_ d), l).

(** The virtual functions. *)
Definition command (m : Message) : list Z :=
  match m with
  | MVersion _ => VERSION | MVerack => VERACK | MPing _ => PING | MPong _ => PONG | MAddr _ => ADDR
  | MGetAddr => GETADDR | MInv _ => INV | MGetHeaders _ => GETHEADERS | MHeaders _ => HEADERS
  end.

Definition serialize (m : Message) : bytes :=
  match m with
  | MVersion m => Version_serialize m
  | MVerack => [] | MGetAddr => []
  | MPing n => Nonce_serialize n | MPong n => Nonce_serialize n
  | MAddr l => Addr_serialize l
  | MInv l => Inv_serialize l
  | MGetHeaders m => GetHeaders_serialize m
  | MHeaders l => Headers_serialize l
  end.

Definition deserialize (this : Message) (data : bytes) : bool * Message :=
  match this with
  | MVersion _ => let '(ok, m) := Version_deserialize data in (ok, MVersion m)
  | MVerack => (Empty_deserialize data, MVerack)
  | MGetAddr => (Empty_deserialize data, MGetAddr)
  | MPing _ => let '(ok, n) := Nonce_deserialize data in (ok, MPing n)
  | MPong _ => let '(ok, n) := Nonce_deserialize data in (ok, MPong n)
  | MAddr l => let '(ok, l) := Addr_deserialize l data in (ok, MAddr l)
  | MInv l => let '(ok, l) := Inv_deserialize l data in (ok, MInv l)
  | MGetHeaders m => let '(ok, m) := GetHeaders_deserialize m data in (ok, MGetHeaders m)
  | MHeaders l => let '(ok, l) := Headers_deserialize l data in (ok, MHeaders l)
  end.

(** [create_message]. *)
Definition create_message (cmd : list Z) : option Message :=
  if bool_decide (cmd = VERSION) then Some (MVersion VersionMessage_new)
  else if bool_decide (cmd = VERACK) then Some MVerack
  else if bool_decide (cmd = PING) then Some (MPing 0)
  else if bool_decide (cmd = PONG) then Some (MPong 0)
  else if bool_decide (cmd = ADDR) then Some (MAddr [])
  else if bool_decide (cmd = GETADDR) then Some MGetAddr
  else if bool_decide (cmd = INV) then Some (MInv [])
  else if bool_decide (cmd = GETHEADERS) then Some (MGetHeaders GetHeadersMessage_new)
  else if bool_decide (cmd = HEADERS) then Some (MHeaders [])
  else None.

(** ** Checksums and the message header *)

Definition sha256 (data : bytes) : bytes := Sha256.Finalize (Sha256.Write Sha256.CSHA256_new data).
Definition double_sha256 (data : bytes) : bytes := sha256 (sha256 data).
Definition compute_checksum (payload : bytes) : bytes := take 4 (double_sha256 payload).

Definition create_header (magic : Z) (cmd : list Z) (payload : bytes) : MessageHeader :=
  let header := MessageHeader_of magic cmd (u32 (Z.of_nat (length payload))) in
  mkMH (Proto.magic header) (Proto.command header) (mlength header) (compute_checksum payload).

Definition serialize_header (header : MessageHeader) : bytes :=
  let buffer := replicate MESSAGE_HEADER_SIZE 0 in
  let buffer := write_at 0 (Endian.WriteLE32 h (magic header)) buffer in
  let buffer := write_at 4 (Proto.command header) buffer in
  let buffer := write_at (4 + COMMAND_SIZE) (Endian.WriteLE32 h (mlength header)) buffer in
  write_at (8 + COMMAND_SIZE) (checksum header) buffer.

(** The validation loop of the command field; [true] when it reaches the end with a terminator. *)
Fixpoint check_command (found_nul : bool) (cmd : list Z) : bool :=
  match cmd with
  | [] => found_nul
  | c :: cmd =>
      if negb found_nul then
        if c =? 0 then check_command true cmd
        else if (c <? 0x20) || (0x7e <? c) then false
        else check_command false cmd
      else if negb (c =? 0) then false
      else check_command true cmd
  end.

Definition deserialize_header (data : bytes) (this : MessageHeader) : bool * MessageHeader :=
  if (length data <? MESSAGE_HEADER_SIZE)%nat then (false, this)
  else
    let m := Endian.ReadLE32 h (drop 0 data) in
    let cmd := take COMMAND_SIZE (drop 4 data) in
    if negb (check_command false cmd) then (false, mkMH m cmd (mlength this) (checksum this))
    else
      let len := Endian.ReadLE32 h (drop (4 + COMMAND_SIZE) data) in
      if MAX_PROTOCOL_MESSAGE_LENGTH <? len then (false, mkMH m cmd len (checksum this))
      else (true, mkMH m cmd len (take CHECKSUM_SIZE (drop (8 + COMMAND_SIZE) data))).
End Msg.
End Msg.
