(* ===== verification/MessageProps.v ===== *)
(** * MessageProps: what the deserializer accepts and what the serializer produces

    [reads g enc]: the reader [g] accepts exactly the byte strings that [enc] relates to a value,
    consumes exactly them, never leaves the buffer and never clears the error flag. *)
From S2P Require Import Prelude Arith Bytes Sha256 Block Protocol Message.
#[local] Open Scope Z_scope.
#[local] Open Scope reader_scope.
Import Proto.

Definition enc (A : Type) : Type := A -> bytes -> Prop.
Definition in_buffer (d : MessageDeserializer) : Prop := (position_ d <= length (data_ d))%nat.

Record reads {A} (g : reader A) (R : enc A) : Prop := {
  rd_complete d a e rest : error_ d = false -> De.here d = e ++ rest -> Forall byte_ok (De.here d) -> R a e ->
    g d = (a, De.advance (length e) d);
  rd_sound d : error_ (snd (g d)) = false -> Forall byte_ok (De.here d) ->
    exists e rest, De.here d = e ++ rest /\ R (fst (g d)) e /\ snd (g d) = De.advance (length e) d;
  rd_safe d : data_ (snd (g d)) = data_ d /\ (in_buffer d -> in_buffer (snd (g d))) /\
    (error_ d = true -> error_ (snd (g d)) = true)
}.

(** ** The combinators *)

Lemma here_advance e rest d : De.here d = e ++ rest -> De.here (De.advance (length e) d) = rest.
Proof.
  unfold De.here, De.advance. cbn [position_ data_]. intros E. rewrite <- drop_drop, E. apply drop_app_length.
Qed.

Lemma advance_add n k d : De.advance k (De.advance n d) = De.advance (n + k) d.
Proof. unfold De.advance. cbn. by rewrite Nat.add_assoc. Qed.

Lemma advance_0 d : De.advance 0 d = d.
Proof. destruct d. unfold De.advance. cbn. by rewrite Nat.add_0_r. Qed.

Lemma error_back {A} (g : reader A) R d : reads g R -> error_ (snd (g d)) = false -> error_ d = false.
Proof.
  intros Hg He. destruct (error_ d) eqn:E; [|done]. by rewrite (proj2 (proj2 (rd_safe _ _ Hg d)) E) in He.
Qed.

Lemma reads_ret {A} (a : A) : reads (ret a) (fun b e => b = a /\ e = []).
Proof.
  split; [|intros d He _; exists [], (De.here d); by rewrite advance_0|done].
  intros d b e rest _ _ _ [-> ->]. cbn. by rewrite advance_0.
Qed.

Lemma reads_bind {A B} (g : reader A) (k : A -> reader B) R S : reads g R -> (forall a, reads (k a) (S a)) ->
  reads (bind g k) (fun b e => exists a x y, e = x ++ y /\ R a x /\ S a b y).
Proof.
  intros Hg Hk. split.
  - intros d b e rest Hd Hh Hb (a & x & y & -> & Hx & Hy). rewrite <- app_assoc in Hh. unfold bind.
    rewrite (rd_complete _ _ Hg d a x (y ++ rest) Hd Hh Hb Hx).
    rewrite (rd_complete _ _ (Hk a) (De.advance (length x) d) b y rest); [|done|by apply here_advance| |done].
    + by rewrite advance_add, length_app.
    + rewrite (here_advance x (y ++ rest)) by done. rewrite Hh, Forall_app in Hb. apply Hb.
  - intros d He Hb. unfold bind in *. destruct (g d) as [a d1] eqn:Eg.
    pose proof (error_back _ _ _ (Hk a) He) as He1.
    destruct (rd_sound _ _ Hg d) as (x & r1 & Hx & HR & Ed1); [by rewrite Eg|done|]. rewrite Eg in HR, Ed1.
    cbn [fst snd] in *. subst d1. pose proof (here_advance x r1 d Hx) as Hr1.
    destruct (rd_sound _ _ (Hk a) _ He) as (y & r2 & Hy & HS & Ed2).
    { rewrite Hr1. rewrite Hx, Forall_app in Hb. apply Hb. }
    rewrite Hr1 in Hy. exists (x ++ y), r2. rewrite Ed2, advance_add, length_app, <- app_assoc, <- Hy.
    split; [done|]. split; [|done]. by exists a, x, y.
  - intros d. unfold bind. pose proof (rd_safe _ _ Hg d) as (E1 & P1 & F1). destruct (g d) as [a d1]. cbn [snd] in *.
    destruct (rd_safe _ _ (Hk a) d1) as (E2 & P2 & F2). split_and!; [congruence|auto|auto].
Qed.

Lemma reads_iff {A} (g : reader A) R S : (forall a e, Forall byte_ok e -> R a e <-> S a e) -> reads g R -> reads g S.
Proof.
  intros HRS Hg. split; [| |apply Hg].
  - intros d a e rest Hd Hh Hb HS. eapply (rd_complete _ _ Hg); try done. apply HRS; [|done].
    rewrite Hh, Forall_app in Hb. apply Hb.
  - intros d He Hb. destruct (rd_sound _ _ Hg d He Hb) as (e & rest & Hh & HR & Ed). exists e, rest.
    split_and!; try done. apply HRS; [|done]. rewrite Hh, Forall_app in Hb. apply Hb.
Qed.

(** Readers that agree but for the value returned with an error. *)
Lemma reads_agree {A} (g g' : reader A) R : reads g R ->
  (forall d, snd (g' d) = snd (g d) /\ (error_ (snd (g d)) = false -> fst (g' d) = fst (g d))) -> reads g' R.
Proof.
  intros Hg Ha. split.
  - intros d a e rest Hd Hh Hb HR. pose proof (rd_complete _ _ Hg d a e rest Hd Hh Hb HR) as E.
    destruct (Ha d) as [H1 H2]. rewrite E in H1, H2. cbn [fst snd] in *. destruct (g' d). cbn [fst snd] in *.
    rewrite H1, H2; done.
  - intros d He Hb. destruct (Ha d) as [H1 H2]. rewrite H1 in *. rewrite H2 by done. by apply (rd_sound _ _ Hg).
  - intros d. rewrite (proj1 (Ha d)). apply (rd_safe _ _ Hg).
Qed.

(** ** Fixed-size reads *)

Lemma remaining_here d : De.bytes_remaining d = length (De.here d).
Proof. unfold De.bytes_remaining, De.here. by rewrite length_drop. Qed.

Lemma check_available_cases n d :
  (length (De.here d) < n)%nat /\ De.check_available n d = De.set_error d \/
  (n <= length (De.here d))%nat /\ De.check_available n d = d.
Proof.
  unfold De.check_available. rewrite remaining_here. destruct (Nat.ltb_spec (length (De.here d)) n); auto.
Qed.

Lemma take_length_app (e rest : bytes) : take (length e) (e ++ rest) = e.
Proof. apply take_app_length. Qed.

Lemma in_buffer_advance n d : (n <= length (De.here d))%nat -> in_buffer d -> in_buffer (De.advance n d).
Proof. unfold in_buffer, De.advance, De.here. rewrite length_drop. cbn. lia. Qed.

Lemma reads_take {A} n (dflt : A) f :
  (forall p, (n <= length p)%nat -> Forall byte_ok p -> f p = f (take n p)) ->
  reads (De.take_checked n dflt f) (fun a e => length e = n /\ a = f e).
Proof.
  intros Hf. split.
  - intros d a e rest Hd Hh Hb [Hl ->]. unfold De.take_checked.
    destruct (check_available_cases n d) as [[H _]|[H ->]]; [rewrite Hh, length_app in H; lia|].
    rewrite Hd. f_equal; [|by rewrite Hl]. rewrite Hf by done. by rewrite Hh, <- Hl, take_length_app.
  - intros d He Hb. unfold De.take_checked in *.
    destruct (check_available_cases n d) as [[H E]|[H E]]; rewrite E in *; [by cbn in He|].
    destruct (error_ d) eqn:Ed; cbn [fst snd] in *; [congruence|].
    exists (take n (De.here d)), (drop n (De.here d)). rewrite take_drop, length_take, Nat.min_l by done.
    split_and!; auto.
  - intros d. unfold De.take_checked. destruct (check_available_cases n d) as [[H ->]|[H ->]]; [done|].
    destruct (error_ d) eqn:Ed; cbn [snd]; [by rewrite Ed|]. split_and!; [done|by apply in_buffer_advance|done].
Qed.

Definition enc_uint (n : nat) : enc Z := fun v e => 0 <= v < bytes_mod n /\ e = le_split n v.

Lemma combine_enc n v e : Forall byte_ok e -> length e = n /\ v = le_combine e <-> enc_uint n v e.
Proof.
  intros He. split.
  - intros [<- ->]. split; [by apply le_combine_range|by rewrite le_split_combine].
  - intros [Hv ->]. rewrite length_le_split, le_combine_split, Z.mod_small; done.
Qed.

Lemma reads_uint n f : (forall p, (n <= length p)%nat -> Forall byte_ok p -> f p = le_combine (take n p)) ->
  reads (De.take_checked n 0 f) (enc_uint n).
Proof.
  intros Hf. eapply reads_iff; [|apply reads_take].
  - intros v e He. rewrite <- combine_enc by done. split; intros [Hl ->]; (split; [done|]).
    + rewrite Hf, <- Hl, firstn_all by (lia || done). done.
    + rewrite Hf, <- Hl, firstn_all by (lia || done). done.
  - intros p Hp Hb. rewrite !Hf; [|rewrite length_take; lia|by apply Forall_take|done..]. by rewrite take_take, Nat.min_id.
Qed.

(** ** Two's complement *)

Section Signed.
Context (w : Z) (Hw : 0 < w).

Lemma signed_half : 2 ^ w = 2 * 2 ^ (w - 1) /\ 0 < 2 ^ (w - 1).
Proof. split; [rewrite <- Z.pow_succ_r by lia; f_equal; lia|apply Z.pow_pos_nonneg; lia]. Qed.

Lemma signed_unsigned v : in_s w v -> to_signed w (v mod 2 ^ w) = v.
Proof.
  destruct signed_half as [E P]. unfold in_s, to_signed. intros Hv. cbv zeta. rewrite Z.mod_mod by lia.
  destruct (Z_lt_le_dec v 0).
  - replace (v mod 2 ^ w) with (v + 2 ^ w); [|apply (Z.mod_unique v _ (-1)); lia].
    destruct (Z.ltb_spec (v + 2 ^ w) (2 ^ (w - 1))); lia.
  - rewrite Z.mod_small by lia. destruct (Z.ltb_spec v (2 ^ (w - 1))); lia.
Qed.

Lemma unsigned_signed v : in_u w v -> in_s w (to_signed w v) /\ to_signed w v mod 2 ^ w = v.
Proof.
  destruct signed_half as [E P]. unfold in_u, in_s, to_signed. intros Hv. cbv zeta. rewrite (Z.mod_small v) by lia.
  destruct (Z.ltb_spec v (2 ^ (w - 1))).
  - rewrite Z.mod_small by lia. lia.
  - split; [lia|]. symmetry. apply (Z.mod_unique _ _ (-1)); lia.
Qed.
End Signed.

Definition enc_int (n : nat) (w : Z) : enc Z := fun v e => in_s w v /\ e = le_split n (v mod 2 ^ w).

Lemma reads_int n w g : 0 < w -> bytes_mod n = 2 ^ w -> reads g (enc_uint n) ->
  reads (let* v := g in ret (to_signed w v)) (enc_int n w).
Proof.
  intros Hw Hn Hg. eapply reads_iff; [|eapply reads_bind; [exact Hg|intros a; apply reads_ret]].
  intros v e _. cbn beta. unfold enc_uint, enc_int. rewrite Hn. split.
  - intros (a & x & y & -> & [Ha ->] & -> & ->). destruct (unsigned_signed w Hw a Ha) as [H1 H2].
    rewrite app_nil_r, H2. done.
  - intros [Hv ->]. exists (v mod 2 ^ w), (le_split n (v mod 2 ^ w)), []. rewrite app_nil_r, signed_unsigned by done.
    split_and!; try done; apply Z.mod_pos_bound; destruct (signed_half w Hw); lia.
Qed.

(** ** The primitive reads *)

Section Primitives.
Context (h : Endian.host).

Lemma reads_uint8 : reads De.read_uint8 (enc_uint 1).
Proof.
  apply reads_uint. intros [|x p] Hl _; cbn [length] in Hl; [lia|]. cbn [take le_combine hd]. rewrite take_0. cbn [le_combine]. lia.
Qed.
Lemma reads_uint16 : reads (De.read_uint16 h) (enc_uint 2).
Proof. apply reads_uint, ReadLE16_eq. Qed.
Lemma reads_uint32 : reads (De.read_uint32 h) (enc_uint 4).
Proof. apply reads_uint, ReadLE32_eq. Qed.
Lemma reads_uint64 : reads (De.read_uint64 h) (enc_uint 8).
Proof. apply reads_uint, ReadLE64_eq. Qed.
Lemma reads_int32 : reads (De.read_int32 h) (enc_int 4 32).
Proof. by apply reads_int, reads_uint32. Qed.
Lemma reads_int64 : reads (De.read_int64 h) (enc_int 8 64).
Proof. by apply reads_int, reads_uint64. Qed.

Definition enc_fixed (n : nat) : enc bytes := fun b e => blob_wf n b /\ e = b.

Lemma reads_bytes n : reads (De.read_bytes n) (enc_fixed n).
Proof.
  eapply reads_iff; [|apply reads_take].
  - intros b e He. unfold enc_fixed, blob_wf. split.
    + intros [<- ->]. by rewrite firstn_all.
    + intros [[Hl _] ->]. by rewrite <- Hl, firstn_all.
  - intros p _ _. by rewrite take_take, Nat.min_id.
Qed.

(** *** Variable-length integers: every width is accepted, whatever the value *)

Inductive enc_varint : enc Z :=
| EncVar1 v : 0 <= v < 0xfd -> enc_varint v [v]
| EncVar3 v : in_u 16 v -> enc_varint v (0xfd :: le_split 2 v)
| EncVar5 v : in_u 32 v -> v <= MAX_SIZE -> enc_varint v (0xfe :: le_split 4 v)
| EncVar9 v : 0 <= v <= MAX_SIZE -> enc_varint v (0xff :: le_split 8 v).

Lemma enc_varint_max v e : enc_varint v e -> 0 <= v <= MAX_SIZE.
Proof. destruct 1; unfold in_u, MAX_SIZE in *; lia. Qed.

(** A prefix of fixed width as a number. *)
Lemma wide_read n f v (rest : bytes) :
  (forall p, (n <= length p)%nat -> Forall byte_ok p -> f p = le_combine (take n p)) ->
  0 <= v < bytes_mod n -> Forall byte_ok rest -> f (le_split n v ++ rest) = v.
Proof.
  intros Hf Hv Hr. rewrite Hf.
  - rewrite <- (length_le_split n v) at 1. rewrite take_app_length, le_combine_split. by apply Z.mod_small.
  - rewrite length_app, length_le_split. lia.
  - apply Forall_app. split; [apply le_split_ok|done].
Qed.

Lemma decode_complete v e rest : enc_varint v e -> Forall byte_ok rest ->
  VarInt.decode h (e ++ rest) = Some (v, length e).
Proof.
  intros He Hr. pose proof (enc_varint_max _ _ He) as Hm. unfold MAX_SIZE in Hm.
  destruct He as [v Hv|v Hv|v Hv _|v Hv]; cbn [app VarInt.decode]; cbn [length];
    rewrite ?length_app, ?length_le_split; cbn [Nat.add Nat.ltb Nat.leb].
  - by rewrite (proj2 (Z.ltb_lt _ _)) by lia.
  - change (0xfd <? 0xfd) with false. change (0xfd =? 0xfd) with true. cbv iota.
    by rewrite (wide_read 2 (Endian.ReadLE16 h)) by (try apply ReadLE16_eq; done).
  - change (0xfe <? 0xfd) with false. change (0xfe =? 0xfd) with false. change (0xfe =? 0xfe) with true. cbv iota.
    by rewrite (wide_read 4 (Endian.ReadLE32 h)) by (try apply ReadLE32_eq; done).
  - change (0xff <? 0xfd) with false. change (0xff =? 0xfd) with false. change (0xff =? 0xfe) with false. cbv iota.
    rewrite (wide_read 8 (Endian.ReadLE64 h)) by (try apply ReadLE64_eq; try done; change (bytes_mod 8) with (2 ^ 64); lia).
    done.
Qed.

Lemma wide_enc n f p : (forall p, (n <= length p)%nat -> Forall byte_ok p -> f p = le_combine (take n p)) ->
  (n <= length p)%nat -> Forall byte_ok p -> 0 <= f p < bytes_mod n /\ p = le_split n (f p) ++ drop n p.
Proof.
  intros Hf Hl Hp. rewrite Hf by done. pose proof (blob_take n p Hl Hp) as Hw.
  split; [by apply le_combine_range|]. pose proof (le_split_combine _ (proj2 Hw)) as E. rewrite (proj1 Hw) in E.
  by rewrite E, take_drop.
Qed.

Lemma decode_sound buf v n : Forall byte_ok buf -> VarInt.decode h buf = Some (v, n) -> v <= MAX_SIZE ->
  exists e rest, buf = e ++ rest /\ length e = n /\ enc_varint v e.
Proof.
  intros Hb E Hv. destruct buf as [|x p]; [done|]. cbn [VarInt.decode] in E. apply Forall_cons in Hb as [Hx Hp].
  unfold byte_ok in Hx. destruct (Z.ltb_spec x 0xfd).
  { injection E as <- <-. exists [x], p. split_and!; try done. constructor. lia. }
  cbn [length] in E. destruct (Z.eqb_spec x 0xfd) as [->|].
  { destruct (Nat.ltb_spec (S (length p)) 3); [done|]. injection E as <- <-.
    destruct (wide_enc 2 (Endian.ReadLE16 h) p (ReadLE16_eq h) ltac:(lia) Hp) as [Hr Ep].
    exists (0xfd :: le_split 2 (Endian.ReadLE16 h p)), (drop 2 p). rewrite <- app_comm_cons, <- Ep.
    split_and!; [done..|]. by constructor. }
  destruct (Z.eqb_spec x 0xfe) as [->|].
  { destruct (Nat.ltb_spec (S (length p)) 5); [done|]. injection E as <- <-.
    destruct (wide_enc 4 (Endian.ReadLE32 h) p (ReadLE32_eq h) ltac:(lia) Hp) as [Hr Ep].
    exists (0xfe :: le_split 4 (Endian.ReadLE32 h p)), (drop 4 p). rewrite <- app_comm_cons, <- Ep.
    split_and!; [done..|]. by constructor. }
  assert (x = 0xff) as -> by lia. destruct (Nat.ltb_spec (S (length p)) 9); [done|]. injection E as <- <-.
  destruct (wide_enc 8 (Endian.ReadLE64 h) p (ReadLE64_eq h) ltac:(lia) Hp) as [Hr Ep].
  exists (0xff :: le_split 8 (Endian.ReadLE64 h p)), (drop 8 p). rewrite <- app_comm_cons, <- Ep.
  split_and!; [done..|]. constructor. lia.
Qed.

Lemma decode_size buf v n : VarInt.decode h buf = Some (v, n) -> (n <= length buf)%nat.
Proof.
  destruct buf as [|x p]; [done|]. cbn [VarInt.decode length].
  repeat case_match; intros [= <- <-]; repeat match goal with H : (_ <? _)%nat = false |- _ => apply Nat.ltb_ge in H end; lia.
Qed.

Lemma enc_varint_nonempty v e : enc_varint v e -> (1 <= length e)%nat.
Proof. destruct 1; cbn [length]; lia. Qed.

Lemma reads_varint : reads (De.read_varint h) enc_varint.
Proof.
  split.
  - intros d v e rest Hd Hh Hb HR. unfold De.read_varint. pose proof (enc_varint_nonempty _ _ HR).
    destruct (check_available_cases 1 d) as [[H1 _]|[_ ->]]; [rewrite Hh, length_app in H1; lia|].
    rewrite Hd. rewrite Hh in *. apply Forall_app in Hb as [_ Hb]. rewrite (decode_complete v e rest) by done.
    pose proof (enc_varint_max _ _ HR). by rewrite (proj2 (Z.ltb_ge _ _)) by lia.
  - intros d He Hb. unfold De.read_varint in *.
    destruct (check_available_cases 1 d) as [[H1 E]|[_ E]]; rewrite E in *; [by cbn in He|].
    destruct (error_ d) eqn:Ed; cbn [fst snd] in *; [congruence|].
    destruct (VarInt.decode h (De.here d)) as [[v n]|] eqn:Ev; [|done].
    destruct (Z.ltb_spec MAX_SIZE v); [done|]. cbn [fst snd] in *.
    destruct (decode_sound _ _ _ Hb Ev) as (e & rest & Eh & <- & HR); [lia|]. by exists e, rest.
  - intros d. unfold De.read_varint. destruct (check_available_cases 1 d) as [[_ ->]|[_ ->]]; [done|].
    destruct (error_ d) eqn:Ed; [by cbn; rewrite Ed|].
    destruct (VarInt.decode h (De.here d)) as [[v n]|] eqn:Ev; [|done].
    destruct (MAX_SIZE <? v); [done|]. cbn [snd]. split_and!; [done| |done].
    apply in_buffer_advance. by eapply decode_size.
Qed.

(** *** Strings, addresses, inventory *)

Definition enc_string (max : Z) : enc (list Z) := fun s e =>
  exists n, enc_varint (Z.of_nat (length s)) n /\ Z.of_nat (length s) <= max /\ Forall byte_ok s /\ e = n ++ s.

Definition fail {A} (a : A) : reader A := fun d => (a, De.set_error d).

Lemma reads_fail {A} (a : A) : reads (fail a) (fun _ _ => False).
Proof. split; [done|intros d; by cbn|done]. Qed.

Lemma set_error_id d : error_ d = true -> De.set_error d = d.
Proof. destruct d. cbn. by intros ->. Qed.
Lemma check_available_error n d : error_ d = true -> De.check_available n d = d.
Proof. intros E. unfold De.check_available. destruct (_ <? _)%nat; by rewrite ?set_error_id. Qed.

(** The same read with the length checked first and the bytes then. *)
Definition string_of (max len : Z) : reader (list Z) :=
  if max <? len then fail [] else De.read_bytes (Z.to_nat len).

Lemma read_string_agree max d : 0 <= max ->
  let g := let* len := De.read_varint h in string_of max len in
  snd (De.read_string h max d) = snd (g d) /\ (error_ (snd (g d)) = false -> fst (De.read_string h max d) = fst (g d)).
Proof.
  intros Hmax. cbn zeta. unfold De.read_string, bind. destruct (De.read_varint h d) as [len d1]. unfold string_of.
  destruct (Z.ltb_spec max len) as [Hlt|Hge]; [by rewrite orb_true_r, orb_true_l|]. rewrite orb_false_r.
  unfold De.read_bytes, De.take_checked. destruct (error_ d1) eqn:E1; cbn [orb].
  - rewrite check_available_error, E1 by done. cbn [fst snd]. rewrite set_error_id by done. split; [done|congruence].
  - unfold De.check_available.
    destruct (Z.ltb_spec (Z.of_nat (De.bytes_remaining d1)) len), (Nat.ltb_spec (De.bytes_remaining d1) (Z.to_nat len)); try lia.
    + done.
    + by rewrite E1.
Qed.

Lemma reads_string max : 0 <= max -> reads (De.read_string h max) (enc_string max).
Proof.
  intros Hmax. eapply reads_agree; [|intros d; by apply read_string_agree].
  eapply reads_iff; [|eapply (reads_bind _ _ _ (fun len s e => len <= max /\ enc_fixed (Z.to_nat len) s e));
    [exact reads_varint|]].
  - intros s e He. split.
    + intros (len & x & y & -> & Hx & Hle & [Hl Hb] & ->). pose proof (enc_varint_max _ _ Hx).
      exists x. replace len with (Z.of_nat (length s)) in * by lia. done.
    + intros (n & Hn & Hle & Hb & ->). exists (Z.of_nat (length s)), n, s. rewrite Nat2Z.id. done.
  - intros len. unfold string_of. destruct (Z.ltb_spec max len).
    + eapply reads_iff; [|apply reads_fail]. split; [done|intros []; lia].
    + eapply reads_iff; [|apply reads_bytes]. tauto.
Qed.

Definition enc_addr : enc NetworkAddress := fun a e =>
  addr_wf a /\ e = le_split 8 (services a) ++ ip a ++ rev (le_split 2 (port a)).

Lemma reads_be16 : reads (De.take_checked 2 0 (Endian.ReadBE16 h)) (fun v e => in_u 16 v /\ e = rev (le_split 2 v)).
Proof.
  eapply reads_iff; [|apply reads_take].
  - intros v e He. split.
    + intros [Hl ->]. rewrite ReadBE16_eq by (lia || done). rewrite <- Hl, firstn_all.
      assert (Hw : blob_wf 2 (rev e)) by by apply blob_wf_rev.
      pose proof (le_combine_range _ _ Hw). pose proof (le_split_combine _ (proj2 Hw)) as E. rewrite (proj1 Hw) in E.
      by rewrite Hl, E, rev_involutive.
    + intros [Hv ->]. rewrite length_rev, length_le_split. split; [done|].
      rewrite ReadBE16_eq by (rewrite ?length_rev, ?length_le_split; done || lia).
      rewrite firstn_all2 by (rewrite length_rev, length_le_split; lia). rewrite rev_involutive, le_combine_split.
      symmetry. by apply Z.mod_small.
  - intros p Hp Hb. rewrite !ReadBE16_eq; [|rewrite length_take; lia|by apply Forall_take|done..].
    by rewrite take_take, Nat.min_id.
Qed.

Lemma reads_network_address : reads (De.read_network_address h false) enc_addr.
Proof.
  apply reads_agree with (g := let* s := De.read_uint64 h in let* i := De.read_bytes 16 in
    let* p := De.take_checked 2 0 (Endian.ReadBE16 h) in ret (mkNA s i p)).
  - eapply reads_iff; [|eapply reads_bind; [apply reads_uint64|intros s; eapply reads_bind;
      [apply reads_bytes|intros i; eapply reads_bind; [apply reads_be16|intros p; apply reads_ret]]]].
    intros [s i p] e _. unfold enc_addr, addr_wf. cbn [services ip port]. split.
    + intros (s' & x & ? & -> & [Hs ->] & i' & y & ? & -> & [Hi ->] & p' & z & ? & -> & [Hp ->] & [= -> -> ->] & ->).
      by rewrite app_nil_r.
    + intros [(Hs & Hi & Hp) ->]. exists s, (le_split 8 s), (i ++ rev (le_split 2 p)). split_and!; [done..|].
      exists i, i, (rev (le_split 2 p)). split_and!; [done|done|]. exists p, (rev (le_split 2 p)), [].
      by rewrite app_nil_r.
  - intros d. unfold De.read_network_address, bind, De.read_bytes. destruct (De.read_uint64 h d) as [s d1].
    unfold De.take_checked, ret. destruct (error_ (De.check_available 16 d1)) eqn:E1.
    + cbn [fst snd]. rewrite (check_available_error 2), E1 by done. cbn [snd]. by rewrite E1.
    + destruct (error_ (De.check_available 2 _)) eqn:E2; cbn [fst snd]; [by rewrite E2|done].
Qed.

Definition enc_taddr : enc TimestampedAddress := fun t e =>
  taddr_wf t /\ exists x, enc_addr (address t) x /\ e = le_split 4 (timestamp t) ++ x.

Lemma reads_timestamped_address : reads (De.read_timestamped_address h) enc_taddr.
Proof.
  eapply reads_iff; [|eapply reads_bind; [apply reads_uint32|intros s; eapply reads_bind;
    [apply reads_network_address|intros a; apply reads_ret]]].
  intros [ts a] e _. unfold enc_taddr, taddr_wf. cbn [timestamp address]. split.
  - intros (t' & x & ? & -> & [Ht ->] & a' & y & ? & -> & Hy & [= -> ->] & ->). rewrite app_nil_r.
    split; [split; [done|apply Hy]|]. by exists y.
  - intros [[Ht Ha] (x & Hx & ->)]. exists ts, (le_split 4 ts), x. split_and!; [done..|].
    exists a, x, []. by rewrite app_nil_r.
Qed.

Definition enc_inv : enc InventoryVector := fun v e => inv_wf v /\ e = le_split 4 (inv_type v) ++ inv_hash v.

Lemma reads_inventory_vector : reads (De.read_inventory_vector h) enc_inv.
Proof.
  apply reads_agree with (g := let* t := De.read_uint32 h in let* b := De.read_bytes 32 in ret (mkInv t b)).
  - eapply reads_iff; [|eapply reads_bind; [apply reads_uint32|intros s; eapply reads_bind;
      [apply reads_bytes|intros i; apply reads_ret]]].
    intros [t b] e _. unfold enc_inv, inv_wf. cbn [inv_type inv_hash]. split.
    + intros (t' & x & ? & -> & [Ht ->] & b' & y & ? & -> & [Hb ->] & [= -> ->] & ->). by rewrite app_nil_r.
    + intros [[Ht Hb] ->]. exists t, (le_split 4 t), b. split_and!; [done..|]. exists b, b, []. by rewrite app_nil_r.
  - intros d. unfold De.read_inventory_vector, bind, De.read_bytes. destruct (De.read_uint32 h d) as [t d1].
    unfold De.take_checked, ret. destruct (error_ (De.check_available 32 d1)) eqn:E1; cbn [fst snd]; [by rewrite E1|done].
Qed.

(** *** Version payload *)

Definition enc_version : enc VersionMessage := fun m e =>
  exists a b s, enc_addr (addr_recv m) a /\ enc_addr (addr_from m) b /\ enc_string MAX_SUBVERSION_LENGTH (user_agent m) s /\
    in_s 32 (version m) /\ in_u 64 (vservices m) /\ in_s 64 (vtimestamp m) /\ in_u 64 (nonce m) /\
    in_s 32 (start_height m) /\
    e = le_split 4 (u32 (version m)) ++ le_split 8 (vservices m) ++ le_split 8 (u64 (vtimestamp m)) ++ a ++ b ++
        le_split 8 (nonce m) ++ s ++ le_split 4 (u32 (start_height m)).

Lemma reads_version : reads (Msg.read_version h) enc_version.
Proof.
  eapply reads_iff; [|
    eapply reads_bind; [apply reads_int32|intros v; eapply reads_bind; [apply reads_uint64|intros sv;
    eapply reads_bind; [apply reads_int64|intros ts; eapply reads_bind; [apply reads_network_address|intros ar;
    eapply reads_bind; [apply reads_network_address|intros af; eapply reads_bind; [apply reads_uint64|intros nn;
    eapply reads_bind; [apply reads_string; unfold MAX_SUBVERSION_LENGTH; lia|intros ua;
    eapply reads_bind; [apply reads_int32|intros sh; apply reads_ret]]]]]]]]].
  intros m e _. split.
  - intros (v & x1 & ? & -> & [H1 ->] & sv & x2 & ? & -> & [H2 ->] & ts & x3 & ? & -> & [H3 ->] &
      ar & x4 & ? & -> & H4 & af & x5 & ? & -> & H5 & nn & x6 & ? & -> & [H6 ->] & ua & x7 & ? & -> & H7 &
      sh & x8 & ? & -> & [H8 ->] & -> & ->). exists x4, x5, x7. rewrite app_nil_r. split_and!; done.
  - destruct m as [v sv ts ar af nn ua sh]. intros (a & b & s & Ha & Hb & Hs & H1 & H2 & H3 & H6 & H8 & ->).
    cbn [version vservices vtimestamp addr_recv addr_from nonce user_agent start_height] in *.
    exists v, (le_split 4 (u32 v)). eexists. split_and!; [done..|].
    exists sv, (le_split 8 sv). eexists. split_and!; [done..|].
    exists ts, (le_split 8 (u64 ts)). eexists. split_and!; [done..|].
    exists ar, a. eexists. split_and!; [done..|].
    exists af, b. eexists. split_and!; [done..|].
    exists nn, (le_split 8 nn). eexists. split_and!; [done..|].
    exists ua, s. eexists. split_and!; [done..|].
    exists sh, (le_split 4 (u32 sh)), []. by rewrite app_nil_r.
Qed.
End Primitives.

(** ** The element loops *)

Inductive enc_list {A} (R : enc A) : enc (list A) :=
| EncNil : enc_list R [] []
| EncCons a e l es : R a e -> enc_list R l es -> enc_list R (a :: l) (e ++ es).

(** What a loop of [n] reads into an accumulator promises. *)
Record loops {A} (loop : nat -> list A -> MessageDeserializer -> bool * list A * MessageDeserializer) (R : enc A) : Prop := {
  lp_zero acc d : loop 0%nat acc d = (true, acc, d);
  lp_complete l e rest acc d : error_ d = false -> De.here d = e ++ rest -> Forall byte_ok (De.here d) -> enc_list R l e ->
    loop (length l) acc d = (true, acc ++ l, De.advance (length e) d);
  lp_sound n acc d acc' d' : error_ d = false -> Forall byte_ok (De.here d) -> loop n acc d = (true, acc', d') ->
    exists l e rest, length l = n /\ acc' = acc ++ l /\ De.here d = e ++ rest /\ enc_list R l e /\ d' = De.advance (length e) d
}.

Section Loop.
Context {A : Type} (R : enc A) (loop : nat -> list A -> MessageDeserializer -> bool * list A * MessageDeserializer).
Hypothesis loop_0 : forall acc d, loop 0 acc d = (true, acc, d).
Hypothesis loop_S : forall n acc d a e rest, error_ d = false -> De.here d = e ++ rest -> Forall byte_ok (De.here d) -> R a e ->
  loop (S n) acc d = loop n (acc ++ [a]) (De.advance (length e) d).
Hypothesis loop_S_sound : forall n acc d r, error_ d = false -> Forall byte_ok (De.here d) -> loop (S n) acc d = (true, fst r, snd r) ->
  exists a e rest, De.here d = e ++ rest /\ R a e.

Lemma here_rest e rest d : De.here d = e ++ rest -> Forall byte_ok (De.here d) ->
  Forall byte_ok (De.here (De.advance (length e) d)).
Proof. intros Hh Hb. rewrite (here_advance _ _ _ Hh). rewrite Hh, Forall_app in Hb. apply Hb. Qed.

Lemma loops_intro : loops loop R.
Proof.
  split; [done| |].
  - intros l e rest acc d Hd Hh Hb Hl. revert acc d Hd Hh Hb.
    induction Hl as [|a e l es Ha _ IH]; intros acc d Hd Hh Hb; cbn [length].
    + rewrite loop_0, app_nil_r, advance_0. done.
    + rewrite <- app_assoc in Hh. rewrite (loop_S _ acc d a e (es ++ rest)) by done.
      rewrite IH; [|done|by apply here_advance|by eapply here_rest].
      by rewrite <- app_assoc, advance_add, length_app.
  - intros n. induction n as [|n IH]; intros acc d acc' d' Hd Hb E.
    + rewrite loop_0 in E. injection E as <- <-. exists [], [], (De.here d). rewrite app_nil_r, advance_0.
      split_and!; try done. constructor.
    + destruct (loop_S_sound n acc d (acc', d') Hd Hb E) as (a & e & rest & Hh & Ha).
      rewrite (loop_S _ acc d a e rest) in E by done.
      destruct (IH _ (De.advance (length e) d) _ _ Hd (here_rest _ _ _ Hh Hb) E) as (l & es & r & Hl & -> & Hr & Hls & ->).
      exists (a :: l), (e ++ es), r. rewrite (here_advance _ _ _ Hh) in Hr. subst rest.
      rewrite <- !app_assoc, advance_add, length_app. split_and!; [cbn; lia|done..|by constructor|done].
Qed.
End Loop.

Lemma items_ok {A} (g : reader A) R : reads g R -> loops (De.read_items g) R.
Proof.
  intros Hg. apply loops_intro; [done| |].
  - intros n acc d a e rest Hd Hh Hb Ha. cbn [De.read_items]. rewrite (rd_complete _ _ Hg d a e rest) by done.
    change (error_ (De.advance _ d)) with (error_ d). by rewrite Hd.
  - intros n acc d r Hd Hb E. cbn [De.read_items] in E. destruct (g d) as [a d1] eqn:Eg.
    destruct (error_ d1) eqn:E1; [done|].
    destruct (rd_sound _ _ Hg d) as (e & rest & Hh & HR & _); [by rewrite Eg|done|]. by exists (fst (g d)), e, rest.
Qed.

Lemma blocks_ok {A} n (f : bytes -> option A) : loops (De.read_blocks n f) (fun a e => blob_wf n e /\ f e = Some a).
Proof.
  apply loops_intro; [done| |].
  - intros k acc d a e rest Hd Hh Hb [Hw Hf]. cbn [De.read_blocks].
    rewrite (rd_complete _ _ (reads_bytes n) d e e rest) by done. by rewrite (proj1 Hw), Nat.eqb_refl, Hf.
  - intros k acc d r Hd Hb E. cbn [De.read_blocks] in E. destruct (De.read_bytes n d) as [b d1] eqn:Er.
    destruct (Nat.eqb_spec (length b) n) as [Hl|]; [|done]. cbn [negb] in E. destruct (f b) as [a|] eqn:Hf; [|done].
    unfold De.read_bytes, De.take_checked in Er.
    destruct (check_available_cases n d) as [[H1 Ec]|[H1 Ec]]; rewrite Ec in Er; cbn [De.set_error error_] in Er.
    + injection Er as <- <-. cbn in Hl. subst n. cbn in H1. lia.
    + rewrite Hd in Er. injection Er as <- <-. exists a, (take n (De.here d)), (drop n (De.here d)).
      rewrite take_drop. split_and!; [done|by apply blob_take|done].
Qed.

(** A count, bounded before anything is read, then that many elements. *)
Definition enc_counted {A} (max : Z) (R : enc A) : enc (list A) := fun l e =>
  exists n es, enc_varint (Z.of_nat (length l)) n /\ Z.of_nat (length l) <= max /\ enc_list R l es /\ e = n ++ es.

Definition counted {A} (h : Endian.host) (max : Z)
  (loop : nat -> list A -> MessageDeserializer -> bool * list A * MessageDeserializer) (this : list A) (d : MessageDeserializer)
  : bool * list A * MessageDeserializer :=
  let '(count, d) := De.read_varint h d in
  if max <? count then (false, this, d)
  else let '(ok, l, d) := loop (Z.to_nat count) [] d in (ok && negb (error_ d), l, d).

Section Counted.
Context (h : Endian.host) {A : Type} (max : Z) (R : enc A)
  (loop : nat -> list A -> MessageDeserializer -> bool * list A * MessageDeserializer).
Hypothesis Hloop : loops loop R.

Lemma counted_complete this l e rest d : error_ d = false -> De.here d = e ++ rest -> Forall byte_ok (De.here d) ->
  enc_counted max R l e -> counted h max loop this d = (true, l, De.advance (length e) d).
Proof.
  intros Hd Hh Hb (n & es & Hn & Hm & Hl & ->). rewrite <- app_assoc in Hh. unfold counted.
  rewrite (rd_complete _ _ (reads_varint h) d _ n (es ++ rest)) by done.
  rewrite (proj2 (Z.ltb_ge _ _)) by lia. rewrite Nat2Z.id.
  rewrite (lp_complete _ _ Hloop l es rest); [|done|by apply here_advance|by eapply here_rest|done].
  change (error_ (De.advance _ _)) with (error_ d). by rewrite Hd, advance_add, length_app.
Qed.

Lemma counted_sound this l d d' : Forall byte_ok (De.here d) -> counted h max loop this d = (true, l, d') ->
  error_ d = false /\ exists e rest, De.here d = e ++ rest /\ enc_counted max R l e /\ d' = De.advance (length e) d.
Proof.
  intros Hb. unfold counted. destruct (De.read_varint h d) as [count d1] eqn:Ev.
  destruct (Z.ltb_spec max count) as [|Hmax]; [done|]. destruct (loop _ [] d1) as [[ok l'] d2] eqn:El.
  intros E. injection E as E <- <-. apply andb_true_iff in E as [-> E2]. apply negb_true_iff in E2.
  assert (E1 : error_ d1 = false).
  { destruct (error_ d1) eqn:E1; [|done]. exfalso.
    assert (count = 0) as ->.
    { unfold De.read_varint in Ev. destruct (error_ (De.check_available 1 d)) eqn:Ec; [by injection Ev|].
      destruct (VarInt.decode _ _) as [[v k]|]; [|by injection Ev].
      destruct (MAX_SIZE <? v); injection Ev as <- <-; [done|]. cbn [De.advance error_] in E1. congruence. }
    change (Z.to_nat 0) with 0%nat in El. rewrite (lp_zero _ _ Hloop) in El. congruence. }
  destruct (rd_sound _ _ (reads_varint h) d) as (n & r1 & Hh & HR & Ed); [by rewrite Ev|done|].
  rewrite Ev in HR, Ed. cbn [fst snd] in *. subst d1.
  destruct (lp_sound _ _ Hloop _ _ _ _ _ E1 (here_rest _ _ _ Hh Hb) El) as (l0 & es & rest & Hl & -> & Hr & Hls & ->).
  rewrite (here_advance _ _ _ Hh) in Hr. subst r1. split; [done|]. exists (n ++ es), rest.
  rewrite <- app_assoc, advance_add, length_app. split_and!; [done| |done].
  pose proof (enc_varint_max _ _ HR). exists n, es.
  replace (Z.of_nat (length ([] ++ l0))) with count by (cbn [app]; lia). done.
Qed.
End Counted.

(** ** Messages *)

Definition enc_header : enc CBlockHeader := fun hd e => header_wf hd /\ e = wire hd.

Lemma read_header_ok hd e : blob_wf 100 e /\ Msg.read_header e = Some hd <-> enc_header hd e.
Proof.
  unfold Msg.read_header, enc_header. split.
  - intros [[Hl Hb] E]. destruct (deserialize_inv Header.SetNull e Hl Hb) as (hd' & Ed & Hw & <-).
    rewrite Ed in E. by injection E as ->.
  - intros [Hw ->]. rewrite deserialize_wire by done. split; [split; [by apply length_wire|by apply wire_ok]|done].
Qed.

Lemma enc_list_iff {A} (R S : enc A) l e : (forall a x, R a x <-> S a x) -> enc_list R l e <-> enc_list S l e.
Proof. intros H. split; induction 1; constructor; try done; by apply H. Qed.

Lemma loops_iff {A} loop (R S : enc A) : (forall a x, R a x <-> S a x) -> loops loop R -> loops loop S.
Proof.
  intros H [H0 H1 H2]. split; [done| |].
  - intros l e rest acc d Hd Hh Hb Hl. eapply H1; try done. by apply (enc_list_iff R S).
  - intros n acc d acc' d' Hd Hb E. destruct (H2 n acc d acc' d' Hd Hb E) as (l & e & rest & ? & ? & ? & Hl & ?).
    exists l, e, rest. split_and!; try done. by apply (enc_list_iff R S).
Qed.

Lemma hash_blocks : loops (De.read_blocks 32 (fun b => Some b)) (enc_fixed 32).
Proof. eapply loops_iff; [|apply blocks_ok]. unfold enc_fixed. naive_solver. Qed.

Lemma header_blocks : loops (De.read_blocks Header.HEADER_SIZE Msg.read_header) enc_header.
Proof. eapply loops_iff; [|apply blocks_ok]. intros. apply read_header_ok. Qed.

Definition enc_getheaders : enc GetHeadersMessage := fun m e =>
  in_u 32 (gversion m) /\ blob_wf 32 (hash_stop m) /\
  exists c, enc_counted MAX_LOCATOR_SZ (enc_fixed 32) (block_locator_hashes m) c /\ e = le_split 4 (gversion m) ++ c ++ hash_stop m.

(** The payload encodings of every message. *)
Inductive encodes : enc Message :=
| EVersion m e : enc_version m e -> encodes (MVersion m) e
| EVerack : encodes MVerack []
| EGetAddr : encodes MGetAddr []
| EPing n : in_u 64 n -> encodes (MPing n) (le_split 8 n)
| EPong n : in_u 64 n -> encodes (MPong n) (le_split 8 n)
| EAddr l e : enc_counted MAX_ADDR_SIZE enc_taddr l e -> encodes (MAddr l) e
| EInv l e : enc_counted MAX_INV_SIZE enc_inv l e -> encodes (MInv l) e
| EGetHeaders m e : enc_getheaders m e -> encodes (MGetHeaders m) e
| EHeaders l e : enc_counted MAX_HEADERS_SIZE enc_header l e -> encodes (MHeaders l) e.

Definition payload_free (m : Message) : Prop := m = MVerack \/ m = MGetAddr.

Section Decode.
Context (h : Endian.host).

Lemma here_open data : De.here (De.open data) = data.
Proof. done. Qed.

Lemma decode_whole {A} (g : reader A) R data : reads g R -> Forall byte_ok data ->
  forall a, (negb (error_ (snd (g (De.open data)))), fst (g (De.open data))) = (true, a) <->
    exists e rest, data = e ++ rest /\ R a e.
Proof.
  intros Hg Hb a. split.
  - intros [= E <-]. apply negb_true_iff in E. destruct (rd_sound _ _ Hg _ E Hb) as (e & rest & Hh & HR & _).
    by exists e, rest.
  - intros (e & rest & E & HR). by rewrite (rd_complete _ _ Hg (De.open data) a e rest) by done.
Qed.

Lemma decode_counted {A} max R loop (this : list A) data : loops loop R -> Forall byte_ok data ->
  forall l, fst (counted h max loop this (De.open data)) = (true, l) <-> exists e rest, data = e ++ rest /\ enc_counted max R l e.
Proof.
  intros Hl Hb l. split.
  - destruct (counted _ _ _ _ _) as [[ok l'] d'] eqn:E. cbn [fst]. intros [= -> ->].
    destruct (counted_sound h max R loop Hl this l (De.open data) d' Hb E) as (_ & e & rest & Hh & HR & _). by exists e, rest.
  - intros (e & rest & E & HR). by rewrite (counted_complete h max R loop Hl this l e rest (De.open data)) by done.
Qed.

Lemma counted_result {A} max loop (this : list A) data :
  fst (counted h max loop this (De.open data)) =
  let '(count, d) := De.read_varint h (De.open data) in
  if max <? count then (false, this)
  else let '(ok, l, d) := loop (Z.to_nat count) [] d in (ok && negb (error_ d), l).
Proof.
  unfold counted. destruct (De.read_varint h _) as [count d]. destruct (max <? count); [done|].
  by destruct (loop _ [] d) as [[ok l] d'].
Qed.

Lemma decode_getheaders this data : Forall byte_ok data ->
  forall m, Msg.GetHeaders_deserialize h this data = (true, m) <-> exists e rest, data = e ++ rest /\ enc_getheaders m e.
Proof.
  intros Hb m. unfold Msg.GetHeaders_deserialize. split.
  - destruct (De.read_uint32 h (De.open data)) as [v d0] eqn:E0.
    destruct (De.read_varint h d0) as [count d1] eqn:E1. destruct (Z.ltb_spec MAX_LOCATOR_SZ count) as [|Hm]; [done|].
    destruct (De.read_blocks 32 _ _ [] d1) as [[ok l] d2] eqn:E2. destruct ok; [|done]. cbn [negb].
    destruct (De.read_bytes 32 d2) as [stop d3] eqn:E3. destruct (Nat.eqb_spec (length stop) 32) as [Hl|]; [|done].
    cbn [negb]. intros [= E <-]. apply negb_true_iff in E.
    assert (He2 : error_ d2 = false) by (eapply error_back; [apply reads_bytes|by rewrite E3]).
    assert (Ec : counted h MAX_LOCATOR_SZ (De.read_blocks 32 (fun b => Some b)) [] d0 = (true, l, d2)).
    { unfold counted. rewrite E1, (proj2 (Z.ltb_ge _ _) Hm), E2, He2. done. }
    assert (Hb0 : Forall byte_ok (De.here d0)).
    { pose proof (rd_safe _ _ (reads_uint32 h) (De.open data)) as (Hd & _). rewrite E0 in Hd. cbn in Hd.
      unfold De.here. rewrite Hd. by apply Forall_drop. }
    destruct (counted_sound h _ _ _ hash_blocks _ _ _ _ Hb0 Ec) as (He0 & c & r & Hc & HR & ->).
    destruct (rd_sound _ _ (reads_uint32 h) (De.open data)) as (x & r0 & Hx & [Hv ->] & Ed0); [by rewrite E0|done|].
    rewrite E0 in Hv, Hx, Ed0. cbn [fst snd] in *. rewrite here_open in Hx. subst d0.
    rewrite (here_advance _ r0 (De.open data)) in Hc by done. subst r0.
    destruct (rd_sound _ _ (reads_bytes 32) (De.advance (length c) (De.advance (length (le_split 4 v)) (De.open data))))
      as (y & rest & Hy & [Hw ->] & _); [by rewrite E3| |].
    { unfold De.here. by apply Forall_drop. }
    rewrite E3 in Hw, Hy. cbn [fst] in *.
    rewrite (here_advance _ r) in Hy by by apply (here_advance _ _ (De.open data)). subst r.
    exists (le_split 4 v ++ c ++ stop), rest. rewrite <- !app_assoc. split; [done|]. split_and!; [done..|]. by exists c.
  - intros (e & rest & -> & Hv & Hs & c & Hc & ->).
    set (data := (le_split 4 (gversion m) ++ c ++ hash_stop m) ++ rest) in *.
    assert (H0 : De.here (De.open data) = le_split 4 (gversion m) ++ (c ++ hash_stop m ++ rest)).
    { rewrite here_open. unfold data. by rewrite <- !app_assoc. }
    rewrite (rd_complete _ _ (reads_uint32 h) (De.open data) (gversion m) _ _ eq_refl H0 Hb) by done.
    set (d0 := De.advance _ (De.open data)). assert (Hh0 : De.here d0 = c ++ hash_stop m ++ rest) by by apply here_advance.
    assert (Hb0 : Forall byte_ok (De.here d0)) by (unfold De.here; by apply Forall_drop).
    pose proof (counted_complete h _ _ _ hash_blocks [] _ c (hash_stop m ++ rest) d0 eq_refl Hh0 Hb0 Hc) as Ec.
    unfold counted in Ec. destruct (De.read_varint h d0) as [count d1]. destruct (MAX_LOCATOR_SZ <? count); [done|].
    destruct (De.read_blocks 32 _ _ [] d1) as [[ok l] d2]. injection Ec as E -> ->. apply andb_true_iff in E as [-> _].
    cbn [negb]. rewrite (rd_complete _ _ (reads_bytes 32) _ (hash_stop m) (hash_stop m) rest).
    + rewrite (proj1 Hs). cbn. by destruct m.
    + done.
    + by apply here_advance.
    + unfold De.here. by apply Forall_drop.
    + done.
Qed.

(** A payload wrapped as a message. *)
Definition wrap {A} (K : A -> Message) (r : bool * A) : bool * Message := let '(ok, x) := r in (ok, K x).

Lemma wrap_ok {A} (K : A -> Message) (r : bool * A) (R : enc A) (data : bytes) m :
  (forall x, r = (true, x) <-> exists e rest, data = e ++ rest /\ R x e) ->
  (forall x e, R x e -> encodes (K x) e) -> (forall x, ~ payload_free (K x)) ->
  (forall e, encodes m e -> Msg.command m = Msg.command (K (snd r)) -> exists x, m = K x /\ R x e) ->
  (forall x, Msg.command (K x) = Msg.command (K (snd r))) ->
  wrap K r = (true, m) <->
  Msg.command (K (snd r)) = Msg.command m /\ exists e rest, data = e ++ rest /\ encodes m e /\ (payload_free m -> rest = []).
Proof.
  intros Hr HK Hfree Hinv Hc. destruct r as [ok x0] eqn:Er. cbn [snd wrap] in *. split.
  - intros [= -> <-]. destruct (proj1 (Hr x0) eq_refl) as (e & rest & -> & HR). split; [done|].
    exists e, rest. split_and!; [done|by apply HK|]. intros Hf. by apply Hfree in Hf.
  - intros (E & e & rest & -> & He & _). destruct (Hinv e He (eq_sym E)) as (x & -> & HR).
    assert (H : (ok, x0) = (true, x)) by (apply Hr; by exists e, rest). by injection H as -> ->.
Qed.

Ltac by_kind :=
  first
  [ by intros; constructor
  | by intros ? [?|?]
  | let e := fresh in let He := fresh in let Hc := fresh in intros e He Hc; destruct He; try discriminate Hc; eexists; split; [reflexivity|done]
  | done ].

(** [deserialize] succeeds exactly on the payloads that encode a message of the same kind. *)
Lemma deserialize_ok this data m : Forall byte_ok data ->
  Msg.deserialize h this data = (true, m) <->
  Msg.command this = Msg.command m /\ exists e rest, data = e ++ rest /\ encodes m e /\ (payload_free m -> rest = []).
Proof.
  intros Hb.
  assert (Hempty : forall k, k = MVerack \/ k = MGetAddr -> (Msg.Empty_deserialize data, k) = (true, m) <->
    Msg.command k = Msg.command m /\ exists e rest, data = e ++ rest /\ encodes m e /\ (payload_free m -> rest = [])).
  { intros k Hk. unfold Msg.Empty_deserialize. split.
    - intros [= E <-]. split; [done|]. exists [], []. destruct data; [|done].
      split_and!; [done| |done]. destruct Hk as [-> | ->]; constructor.
    - intros (E & e & rest & -> & He & Hf). destruct Hk as [-> | ->], He; try discriminate E;
        (rewrite Hf by (unfold payload_free; auto); done). }
  destruct this; [| by apply Hempty; auto | | | | by apply Hempty; auto | | |].
  - apply (wrap_ok MVersion (Msg.Version_deserialize h data) enc_version); try by_kind.
    intros x. unfold Msg.Version_deserialize. rewrite <- (decode_whole _ _ data (reads_version h) Hb).
    by destruct (Msg.read_version h _).
  - apply (wrap_ok MPing (Msg.Nonce_deserialize h data) (enc_uint 8)); try by_kind.
    + intros x. unfold Msg.Nonce_deserialize. rewrite <- (decode_whole _ _ data (reads_uint64 h) Hb).
      by destruct (De.read_uint64 h _).
    + intros x e [Hx ->]. by constructor.
  - apply (wrap_ok MPong (Msg.Nonce_deserialize h data) (enc_uint 8)); try by_kind.
    + intros x. unfold Msg.Nonce_deserialize. rewrite <- (decode_whole _ _ data (reads_uint64 h) Hb).
      by destruct (De.read_uint64 h _).
    + intros x e [Hx ->]. by constructor.
  - apply (wrap_ok MAddr (Msg.Addr_deserialize h addresses data) (enc_counted MAX_ADDR_SIZE enc_taddr)); try by_kind.
    intros x. rewrite <- (decode_counted MAX_ADDR_SIZE _ _ addresses data (items_ok _ _ (reads_timestamped_address h)) Hb).
    by rewrite counted_result.
  - apply (wrap_ok MInv (Msg.Inv_deserialize h inventory data) (enc_counted MAX_INV_SIZE enc_inv)); try by_kind.
    intros x. rewrite <- (decode_counted MAX_INV_SIZE _ _ inventory data (items_ok _ _ (reads_inventory_vector h)) Hb).
    by rewrite counted_result.
  - apply (wrap_ok MGetHeaders (Msg.GetHeaders_deserialize h m0 data) enc_getheaders); try by_kind.
    intros x. by apply decode_getheaders.
  - apply (wrap_ok MHeaders (Msg.Headers_deserialize h headers data) (enc_counted MAX_HEADERS_SIZE enc_header)); try by_kind.
    intros x. rewrite <- (decode_counted MAX_HEADERS_SIZE _ _ headers data header_blocks Hb).
    by rewrite counted_result.
Qed.
End Decode.

(** ** Serialization *)

Definition version_wf (m : VersionMessage) : Prop :=
  in_s 32 (version m) /\ in_u 64 (vservices m) /\ in_s 64 (vtimestamp m) /\ addr_wf (addr_recv m) /\ addr_wf (addr_from m) /\
  in_u 64 (nonce m) /\ in_s 32 (start_height m) /\ Forall byte_ok (user_agent m) /\
  Z.of_nat (length (user_agent m)) <= MAX_SUBVERSION_LENGTH.

(** The values of the C++ types within the limits of the protocol. *)
Definition msg_wf (m : Message) : Prop :=
  match m with
  | MVersion m => version_wf m
  | MVerack | MGetAddr => True
  | MPing n | MPong n => in_u 64 n
  | MAddr l => Z.of_nat (length l) <= MAX_ADDR_SIZE /\ Forall taddr_wf l
  | MInv l => Z.of_nat (length l) <= MAX_INV_SIZE /\ Forall inv_wf l
  | MGetHeaders m => in_u 32 (gversion m) /\ blob_wf 32 (hash_stop m) /\
      Z.of_nat (length (block_locator_hashes m)) <= MAX_LOCATOR_SZ /\ Forall (blob_wf 32) (block_locator_hashes m)
  | MHeaders l => Z.of_nat (length l) <= MAX_HEADERS_SIZE /\ Forall header_wf l
  end.

Section Serialize.
Context (h : Endian.host).

Lemma encode_form v : in_u 64 v -> VarInt.encode h v =
  if v <? 0xfd then [v] else if v <=? 0xffff then 0xfd :: le_split 2 v
  else if v <=? 0xffffffff then 0xfe :: le_split 4 v else 0xff :: le_split 8 v.
Proof.
  intros Hv. unfold in_u in Hv. unfold VarInt.encode.
  destruct (Z.ltb_spec v 0xfd); [unfold u8; by rewrite Z.mod_small by lia|].
  destruct (Z.leb_spec v 0xffff); [unfold u16; rewrite Z.mod_small, WriteLE16_eq by (unfold in_u; lia); done|].
  destruct (Z.leb_spec v 0xffffffff); [rewrite u32_id, WriteLE32_eq by (unfold in_u; lia); done|].
  by rewrite WriteLE64_eq.
Qed.

Lemma encode_size v : in_u 64 v -> length (VarInt.encode h v) = VarInt.encoded_size v.
Proof.
  intros Hv. rewrite encode_form by done. unfold VarInt.encoded_size.
  destruct (v <? 0xfd), (v <=? 0xffff), (v <=? 0xffffffff); cbn [length]; by rewrite ?length_le_split.
Qed.

Lemma encode_enc v : 0 <= v <= MAX_SIZE -> enc_varint v (VarInt.encode h v).
Proof.
  unfold MAX_SIZE. intros Hv. rewrite encode_form by (unfold in_u; lia).
  destruct (Z.ltb_spec v 0xfd); [constructor; lia|].
  destruct (Z.leb_spec v 0xffff); [constructor; unfold in_u; lia|].
  destruct (Z.leb_spec v 0xffffffff); constructor; unfold in_u, MAX_SIZE; lia.
Qed.

Lemma encode_shortest v e : enc_varint v e -> (length (VarInt.encode h v) <= length e)%nat.
Proof.
  intros He. pose proof (enc_varint_max _ _ He) as Hm. unfold MAX_SIZE in Hm.
  rewrite encode_size by (unfold in_u; lia). unfold VarInt.encoded_size.
  destruct (Z.ltb_spec v 0xfd); [pose proof (enc_varint_nonempty _ _ He); lia|].
  destruct He; cbn [length]; rewrite ?length_le_split; unfold in_u in *;
    destruct (Z.leb_spec v 0xffff), (Z.leb_spec v 0xffffffff); lia.
Qed.

Lemma foldl_writes {A} (w : A -> bytes -> bytes) (f : A -> bytes) l s : Forall (fun a => forall s, w a s = s ++ f a) l ->
  foldl (fun s a => w a s) s l = s ++ concat (f <$> l).
Proof.
  intros Hl. revert s. induction Hl as [|a l Ha _ IH]; intros s; cbn [foldl fmap list_fmap concat]; [by rewrite app_nil_r|].
  by rewrite IH, Ha, <- app_assoc.
Qed.

Lemma enc_list_map {A} (R : enc A) (f : A -> bytes) l : Forall (fun a => R a (f a)) l -> enc_list R l (concat (f <$> l)).
Proof. induction 1; cbn [fmap list_fmap concat]; by constructor. Qed.

Lemma counted_writes {A} (R : enc A) (w : A -> bytes -> bytes) (f : A -> bytes) max l :
  Forall (fun a => (forall s, w a s = s ++ f a) /\ R a (f a)) l -> Z.of_nat (length l) <= max -> max <= MAX_SIZE ->
  forall s, exists e, enc_counted max R l e /\
    foldl (fun s a => w a s) (Ser.write_varint h (Z.of_nat (length l)) s) l = s ++ e.
Proof.
  intros Hl Hm Hx s. exists (VarInt.encode h (Z.of_nat (length l)) ++ concat (f <$> l)). split.
  - exists (VarInt.encode h (Z.of_nat (length l))), (concat (f <$> l)). split_and!; [apply encode_enc; lia|done| |done].
    apply enc_list_map. eapply Forall_impl; [exact Hl|]. by intros a [].
  - rewrite (foldl_writes _ f); [unfold Ser.write_varint; by rewrite <- app_assoc|].
    eapply Forall_impl; [exact Hl|]. by intros a [].
Qed.

Definition addr_bytes (a : NetworkAddress) : bytes := le_split 8 (services a) ++ ip a ++ rev (le_split 2 (port a)).

Lemma write_addr_eq a s : addr_wf a -> Ser.write_network_address h a s = s ++ addr_bytes a.
Proof.
  intros (Hs & Hi & Hp). unfold Ser.write_network_address, Ser.write_bytes, Ser.write_uint64, addr_bytes.
  by rewrite WriteLE64_eq, WriteBE16_eq, <- !app_assoc.
Qed.

Lemma version_ser m : version_wf m -> enc_version m (Msg.Version_serialize h m).
Proof.
  intros (H1 & H2 & H3 & H4 & H5 & H6 & H7 & H8 & H9). unfold Msg.Version_serialize, Ser.write_int32, Ser.write_int64.
  rewrite !write_addr_eq by done. unfold Ser.write_string, Ser.write_bytes, Ser.write_varint, Ser.write_uint32, Ser.write_uint64.
  rewrite !WriteLE32_eq, !WriteLE64_eq by (done || apply u32_range || apply u64_range). cbn [app].
  exists (addr_bytes (addr_recv m)), (addr_bytes (addr_from m)),
    (VarInt.encode h (Z.of_nat (length (user_agent m))) ++ user_agent m).
  split_and!; try done.
  - exists (VarInt.encode h (Z.of_nat (length (user_agent m)))). split_and!; try done.
    apply encode_enc. unfold MAX_SIZE, MAX_SUBVERSION_LENGTH in *. lia.
  - by rewrite <- !app_assoc.
Qed.

(** Every well-formed message is serialized to an encoding of it. *)
Lemma serialize_encodes m : msg_wf m -> encodes m (Msg.serialize h m).
Proof.
  destruct m as [m| |n|n|l| |l|m|l]; cbn [msg_wf Msg.serialize].
  - intros Hw. constructor. by apply version_ser.
  - constructor.
  - intros Hn. unfold Msg.Nonce_serialize, Ser.write_uint64. rewrite WriteLE64_eq by done. by constructor.
  - intros Hn. unfold Msg.Nonce_serialize, Ser.write_uint64. rewrite WriteLE64_eq by done. by constructor.
  - intros [Hl Hw].
    destruct (counted_writes enc_taddr (fun a s => Ser.write_network_address h (address a) (Ser.write_uint32 h (timestamp a) s))
      (fun a => le_split 4 (timestamp a) ++ addr_bytes (address a)) MAX_ADDR_SIZE l) with (s := @nil Z) as (e & He & E);
      [|done|by vm_compute|].
    + eapply Forall_impl; [exact Hw|]. intros a [Ht Ha]. split.
      * intros s. rewrite write_addr_eq by done. unfold Ser.write_uint32. by rewrite WriteLE32_eq, <- app_assoc.
      * split; [done|]. by exists (addr_bytes (address a)).
    + unfold Msg.Addr_serialize. rewrite E. by constructor.
  - constructor.
  - intros [Hl Hw].
    destruct (counted_writes enc_inv (fun v s => Ser.write_inventory_vector h v s)
      (fun v => le_split 4 (inv_type v) ++ inv_hash v) MAX_INV_SIZE l) with (s := @nil Z) as (e & He & E);
      [|done|by vm_compute|].
    + eapply Forall_impl; [exact Hw|]. intros v [Ht Hv]. split; [|done].
      intros s. unfold Ser.write_inventory_vector, Ser.write_bytes, Ser.write_uint32. by rewrite WriteLE32_eq, <- app_assoc.
    + unfold Msg.Inv_serialize. rewrite E. by constructor.
  - intros (Hv & Hs & Hl & Hw).
    destruct (counted_writes (enc_fixed 32) (fun b s => Ser.write_bytes b s) (fun b => b) MAX_LOCATOR_SZ
      (block_locator_hashes m)) with (s := Ser.write_uint32 h (gversion m) []) as (e & He & E); [|done|by vm_compute|].
    + eapply Forall_impl; [exact Hw|]. intros b Hb. done.
    + unfold Msg.GetHeaders_serialize. rewrite E. unfold Ser.write_bytes, Ser.write_uint32. rewrite WriteLE32_eq by done.
      constructor. split_and!; [done..|]. exists e. by rewrite <- app_assoc.
  - intros [Hl Hw].
    destruct (counted_writes enc_header (fun hd s => Ser.write_bytes (Header.Serialize hd) s) wire MAX_HEADERS_SIZE l)
      with (s := @nil Z) as (e & He & E); [|done|by vm_compute|].
    + eapply Forall_impl; [exact Hw|]. intros hd Hh. split; [|done]. intros s. unfold Ser.write_bytes, Header.Serialize.
      by rewrite serialize_wire.
    + unfold Msg.Headers_serialize. rewrite E. by constructor.
Qed.
End Serialize.
