(* ===== verification/Frame.v ===== *)
(** * Frame: whole messages on the wire

    The message header, its checks, and the round trip of a framed message from [serialize] and
    [create_header] to [deserialize_header], [create_message] and [deserialize]. *)
From S2P Require Import Prelude Arith Bytes Sha256 Block Protocol Message MessageProps.
#[local] Open Scope Z_scope.
Import Proto.

(** ** What an accepted payload contains *)

Lemma enc_list_size {A} (R : enc A) (P : A -> Prop) k l e :
  (forall a x, R a x -> P a /\ Forall byte_ok x /\ length x = k) -> enc_list R l e ->
  Forall P l /\ Forall byte_ok e /\ length e = (k * length l)%nat.
Proof.
  intros H. induction 1 as [|a x l es Ha _ (IH1 & IH2 & IH3)]; [split_and!; [constructor..|cbn; lia]|].
  destruct (H a x Ha) as (H1 & H2 & H3). split_and!; [by constructor|by apply Forall_app|].
  rewrite length_app. cbn [length]. lia.
Qed.

Lemma enc_varint_size v e : enc_varint v e -> Forall byte_ok e /\ (length e <= 9)%nat.
Proof.
  destruct 1; cbn [length]; rewrite ?length_le_split; (split; [|lia]); (apply Forall_cons; split;
    [unfold byte_ok; lia|first [apply le_split_ok|by apply Forall_nil]]).
Qed.

Lemma enc_counted_size {A} (R : enc A) (P : A -> Prop) k max l e :
  (forall a x, R a x -> P a /\ Forall byte_ok x /\ length x = k) -> enc_counted max R l e ->
  Z.of_nat (length l) <= max /\ Forall P l /\ Forall byte_ok e /\ (length e <= 9 + k * length l)%nat.
Proof.
  intros H (n & es & Hn & Hm & Hl & ->). destruct (enc_list_size R P k l es H Hl) as (H1 & H2 & H3).
  destruct (enc_varint_size _ _ Hn). rewrite length_app. split_and!; [done..|by apply Forall_app|lia].
Qed.

Lemma enc_addr_size a x : enc_addr a x -> addr_wf a /\ Forall byte_ok x /\ length x = 26%nat.
Proof.
  intros [(Hs & [Hl Hi] & Hp) ->]. rewrite !length_app, length_rev, !length_le_split, Hl. split_and!; [done| |done].
  rewrite !Forall_app. split_and!; [apply le_split_ok|done|apply Forall_rev, le_split_ok].
Qed.

Lemma enc_taddr_size t x : enc_taddr t x -> taddr_wf t /\ Forall byte_ok x /\ length x = 30%nat.
Proof.
  intros [Hw (y & Hy & ->)]. destruct (enc_addr_size _ _ Hy) as (_ & H1 & H2). rewrite length_app, length_le_split, H2.
  split_and!; [done| |done]. apply Forall_app. split; [apply le_split_ok|done].
Qed.

Lemma enc_inv_size v x : enc_inv v x -> inv_wf v /\ Forall byte_ok x /\ length x = 36%nat.
Proof.
  intros [[Ht [Hl Hb]] ->]. rewrite length_app, length_le_split, Hl. split_and!; [done| |done].
  apply Forall_app. split; [apply le_split_ok|done].
Qed.

Lemma enc_header_size hd x : enc_header hd x -> header_wf hd /\ Forall byte_ok x /\ length x = 100%nat.
Proof. intros [Hw ->]. split_and!; [done|by apply wire_ok|by apply length_wire]. Qed.

Lemma enc_version_size m e : enc_version m e -> version_wf m /\ Forall byte_ok e /\ (length e <= 400)%nat.
Proof.
  intros (a & b & s & Ha & Hb & (n & Hn & Hu & Hs & ->) & H1 & H2 & H3 & H6 & H8 & ->).
  destruct (enc_addr_size _ _ Ha) as (Wa & Ba & La). destruct (enc_addr_size _ _ Hb) as (Wb & Bb & Lb).
  destruct (enc_varint_size _ _ Hn) as [Bn Ln]. split; [done|]. split.
  - rewrite !Forall_app. split_and!; (done || apply le_split_ok).
  - rewrite !length_app, !length_le_split, La, Lb. unfold MAX_SUBVERSION_LENGTH in Hu. lia.
Qed.

Lemma encodes_wf m e : encodes m e ->
  msg_wf m /\ Forall byte_ok e /\ Z.of_nat (length e) <= MAX_PROTOCOL_MESSAGE_LENGTH.
Proof.
  unfold MAX_PROTOCOL_MESSAGE_LENGTH. destruct 1 as [m e H| | |n H|n H|l e H|l e H|m e H|l e H]; cbn [msg_wf].
  - destruct (enc_version_size _ _ H) as (? & ? & ?). split_and!; [done..|lia].
  - done.
  - done.
  - rewrite length_le_split. split_and!; [done|apply le_split_ok|lia].
  - rewrite length_le_split. split_and!; [done|apply le_split_ok|lia].
  - destruct (enc_counted_size _ _ _ _ _ _ enc_taddr_size H) as (? & ? & ? & ?). unfold MAX_ADDR_SIZE in *.
    split_and!; [done..|lia].
  - destruct (enc_counted_size _ _ _ _ _ _ enc_inv_size H) as (? & ? & ? & ?). unfold MAX_INV_SIZE in *.
    split_and!; [done..|lia].
  - destruct H as (Hv & Hs & c & Hc & ->).
    destruct (enc_counted_size (enc_fixed 32) (blob_wf 32) 32 _ _ _ ltac:(intros a x [Ha ->]; split_and!; [done|apply Ha|apply Ha]) Hc)
      as (? & ? & ? & ?). rewrite !length_app, length_le_split, (proj1 Hs). unfold MAX_LOCATOR_SZ in *.
    split_and!; [done..| |lia]. rewrite !Forall_app. split_and!; [apply le_split_ok|done|apply Hs].
  - destruct (enc_counted_size _ _ _ _ _ _ enc_header_size H) as (? & ? & ? & ?). unfold MAX_HEADERS_SIZE in *.
    split_and!; [done..|lia].
Qed.

(** ** The message header *)

Definition header_bytes (hd : MessageHeader) : bytes :=
  le_split 4 (magic hd) ++ command hd ++ le_split 4 (mlength hd) ++ checksum hd.

(** A header whose fields have their sizes. *)
Definition mh_wf (hd : MessageHeader) : Prop :=
  in_u 32 (magic hd) /\ blob_wf COMMAND_SIZE (command hd) /\ in_u 32 (mlength hd) /\ blob_wf CHECKSUM_SIZE (checksum hd).

Section Header.
Context (h : Endian.host).

Lemma serialize_header_eq hd : mh_wf hd -> Msg.serialize_header h hd = header_bytes hd.
Proof.
  intros (Hm & [Hc _] & Hl & [Hk _]). unfold Msg.serialize_header. rewrite !WriteLE32_eq by done.
  unfold MESSAGE_HEADER_SIZE, COMMAND_SIZE, CHECKSUM_SIZE in *.
  rewrite (write_next_at 0 [] _ 4 20) by (rewrite ?length_le_split; done).
  rewrite (write_next_at 4 ([] ++ le_split 4 (magic hd)) _ 12 8) by (rewrite ?length_app, ?length_le_split; done).
  rewrite (write_next_at (4 + 12) _ _ 4 4) by (rewrite ?length_app, ?length_le_split, ?Hc; done).
  rewrite (write_next_at (8 + 12) _ _ 4 0) by (rewrite ?length_app, ?length_le_split, ?Hc; done).
  unfold header_bytes. cbn [replicate]. by rewrite app_nil_r, <- !app_assoc.
Qed.

Lemma check_nul cmd : Msg.check_command true cmd = true <-> cmd = replicate (length cmd) 0.
Proof.
  induction cmd as [|c cmd IH]; [done|]. cbn [Msg.check_command negb length replicate].
  destruct (Z.eqb_spec c 0) as [->|Hc]; cbn [negb]; [rewrite IH; split; [intros E; by rewrite <- E|intros [= E]; done]|].
  split; [done|intros [=]; done].
Qed.

(** The validation loop accepts the printable strings that are null-terminated within the field. *)
Lemma check_command_ok cmd : Msg.check_command false cmd = true <->
  exists s k, cmd = s ++ replicate (S k) 0 /\ Forall printable s.
Proof.
  induction cmd as [|c cmd IH]; cbn [Msg.check_command negb].
  { split; [done|]. intros ([|] & k & E & _); discriminate E. }
  destruct (Z.eqb_spec c 0) as [->|Hc].
  - rewrite check_nul. split.
    + intros E. exists [], (length cmd). split; [by rewrite E at 1|constructor].
    + intros ([|x s] & k & E & Hs).
      * injection E as ->. by rewrite length_replicate.
      * injection E as <- _. apply Forall_cons in Hs as [Hx _]. unfold printable in Hx. lia.
  - destruct ((c <? 0x20) || (0x7e <? c)) eqn:Ep.
    + split; [done|]. intros ([|x s] & k & E & Hs); [injection E as -> _; done|]. injection E as <- _.
      apply Forall_cons in Hs as [Hx _]. unfold printable in Hx. apply orb_true_iff in Ep. rewrite !Z.ltb_lt in Ep. lia.
    + rewrite IH. split.
      * intros (s & k & -> & Hs). exists (c :: s), k. split; [done|]. constructor; [|done]. unfold printable.
        apply orb_false_iff in Ep. rewrite !Z.ltb_ge in Ep. lia.
      * intros ([|x s] & k & E & Hs); [injection E as -> _; done|]. injection E as <- ->.
        apply Forall_cons in Hs as [_ Hs]. by exists s, k.
Qed.

Lemma command_field_ok cmd : blob_wf COMMAND_SIZE cmd ->
  Msg.check_command false cmd = true <-> exists s, command_ok s /\ cmd = command_field s.
Proof.
  intros [Hl Hb]. rewrite check_command_ok. split.
  - intros (s & k & -> & Hs). rewrite length_app, length_replicate in Hl. exists s.
    split; [split; [lia|done]|]. rewrite command_field_short by lia. do 2 f_equal. lia.
  - intros (s & [Hs Hp] & ->). exists s, (COMMAND_SIZE - length s - 1)%nat. split; [|done].
    rewrite command_field_short by lia. do 2 f_equal. lia.
Qed.

Lemma command_field_wf s : command_ok s -> blob_wf COMMAND_SIZE (command_field s).
Proof.
  intros [Hl Hp]. rewrite command_field_short by lia. split; [rewrite length_app, length_replicate; lia|].
  apply Forall_app. split; [|by apply Forall_replicate].
  eapply Forall_impl; [exact Hp|]. unfold printable, byte_ok. lia.
Qed.

(** What [deserialize_header] accepts. *)
Definition acceptable_header (hd : MessageHeader) : Prop :=
  mh_wf hd /\ mlength hd <= MAX_PROTOCOL_MESSAGE_LENGTH /\ exists s, command_ok s /\ command hd = command_field s.

Lemma length_header_bytes hd : mh_wf hd -> length (header_bytes hd) = MESSAGE_HEADER_SIZE.
Proof.
  intros (_ & [Hc _] & _ & [Hk _]). unfold header_bytes. by rewrite !length_app, !length_le_split, Hc, Hk.
Qed.

Lemma read_split v n pre (rest : bytes) : in_u 32 v -> Forall byte_ok rest -> length pre = n ->
  Endian.ReadLE32 h (drop n (pre ++ le_split 4 v ++ rest)) = v.
Proof.
  intros Hv Hr <-. rewrite drop_app_length. apply (wide_read 4); [apply ReadLE32_eq|done..].
Qed.

Lemma header_complete hd this rest : acceptable_header hd -> Forall byte_ok rest ->
  Msg.deserialize_header h (header_bytes hd ++ rest) this = (true, hd).
Proof.
  intros [Hw [Hm Hc]] Hr. pose proof (length_header_bytes hd Hw) as Hlen. pose proof Hw as (H1 & H2 & H3 & H4).
  unfold Msg.deserialize_header. rewrite length_app, Hlen.
  rewrite (proj2 (Nat.ltb_ge _ _)) by lia.
  assert (Hcmd : take COMMAND_SIZE (drop 4 (header_bytes hd ++ rest)) = command hd).
  { unfold header_bytes. rewrite <- !app_assoc. apply take_drop_field; [apply length_le_split|apply H2]. }
  assert (Hlen' : Endian.ReadLE32 h (drop (4 + COMMAND_SIZE) (header_bytes hd ++ rest)) = mlength hd).
  { unfold header_bytes. replace ((le_split 4 (magic hd) ++ _) ++ rest) with
      ((le_split 4 (magic hd) ++ command hd) ++ le_split 4 (mlength hd) ++ (checksum hd ++ rest)) by by rewrite <- !app_assoc.
    apply read_split; [done|apply Forall_app; split; [apply H4|done]|]. by rewrite length_app, length_le_split, (proj1 H2). }
  assert (Hmag : Endian.ReadLE32 h (drop 0 (header_bytes hd ++ rest)) = magic hd).
  { unfold header_bytes. rewrite <- app_assoc. apply (read_split _ 0 []); [done| |done].
    rewrite !Forall_app. split_and!; [apply H2|apply le_split_ok|apply H4|done]. }
  assert (Hchk : take CHECKSUM_SIZE (drop (8 + COMMAND_SIZE) (header_bytes hd ++ rest)) = checksum hd).
  { unfold header_bytes. replace ((le_split 4 (magic hd) ++ _) ++ rest) with
      ((le_split 4 (magic hd) ++ command hd ++ le_split 4 (mlength hd)) ++ checksum hd ++ rest) by by rewrite <- !app_assoc.
    apply take_drop_field; [by rewrite !length_app, !length_le_split, (proj1 H2)|apply H4]. }
  rewrite Hcmd, Hlen', Hmag, Hchk. rewrite (proj2 (command_field_ok _ H2) Hc). cbn [negb].
  rewrite (proj2 (Z.ltb_ge _ _)) by done. by destruct hd.
Qed.

Lemma reread_word data n : (n + 4 <= length data)%nat -> Forall byte_ok data ->
  in_u 32 (Endian.ReadLE32 h (drop n data)) /\ le_split 4 (Endian.ReadLE32 h (drop n data)) = take 4 (drop n data).
Proof.
  intros Hl Hb. assert (Hb' : Forall byte_ok (drop n data)) by by apply Forall_drop.
  assert (Hl' : (4 <= length (drop n data))%nat) by (rewrite length_drop; lia).
  rewrite ReadLE32_eq by done. pose proof (blob_take 4 _ Hl' Hb') as Hw. split; [exact (le_combine_range _ _ Hw)|].
  pose proof (le_split_combine _ (proj2 Hw)) as E. by rewrite (proj1 Hw) in E.
Qed.

Lemma header_sound data this hd : Forall byte_ok data -> Msg.deserialize_header h data this = (true, hd) ->
  acceptable_header hd /\ exists rest, data = header_bytes hd ++ rest.
Proof.
  intros Hb. unfold Msg.deserialize_header. destruct (Nat.ltb_spec (length data) MESSAGE_HEADER_SIZE) as [|Hl]; [done|].
  unfold MESSAGE_HEADER_SIZE in Hl. rewrite drop_0.
  destruct (reread_word data 0 ltac:(lia) Hb) as [R0 S0]. rewrite drop_0 in R0, S0.
  destruct (reread_word data (4 + COMMAND_SIZE) ltac:(unfold COMMAND_SIZE; lia) Hb) as [R1 S1].
  set (m := Endian.ReadLE32 h data) in *. set (len := Endian.ReadLE32 h (drop (4 + COMMAND_SIZE) data)) in *.
  set (cmd := take COMMAND_SIZE (drop 4 data)). set (chk := take CHECKSUM_SIZE (drop (8 + COMMAND_SIZE) data)).
  assert (Hcmd : blob_wf COMMAND_SIZE cmd) by (apply blob_take; [rewrite length_drop; unfold COMMAND_SIZE; lia|by apply Forall_drop]).
  assert (Hchk : blob_wf CHECKSUM_SIZE chk)
    by (apply blob_take; [rewrite length_drop; unfold COMMAND_SIZE, CHECKSUM_SIZE; lia|by apply Forall_drop]).
  destruct (Msg.check_command false cmd) eqn:Ec; [|done]. cbn [negb].
  destruct (Z.ltb_spec MAX_PROTOCOL_MESSAGE_LENGTH len) as [|Hm]; [done|]. intros [= <-].
  apply command_field_ok in Ec; [|done]. split; [done|]. exists (drop MESSAGE_HEADER_SIZE data). unfold header_bytes.
  cbn [magic command mlength checksum]. rewrite S0, S1. unfold cmd, chk, COMMAND_SIZE, CHECKSUM_SIZE, MESSAGE_HEADER_SIZE.
  rewrite <- !app_assoc. rewrite <- (take_drop 4 data) at 1. f_equal.
  rewrite <- (take_drop 12 (drop 4 data)) at 1. f_equal. rewrite drop_drop.
  rewrite <- (take_drop 4 (drop _ data)) at 1. f_equal. rewrite drop_drop.
  rewrite <- (take_drop 4 (drop _ data)) at 1. f_equal. by rewrite drop_drop.
Qed.
End Header.

(** ** Claims *)

(** The checksum is the first four bytes of the double hash. *)
Lemma checksum_ok payload : Forall byte_ok payload -> Z.of_nat (length payload) < 2 ^ 61 ->
  Msg.compute_checksum payload = take 4 (Fips.sha256 (Fips.sha256 payload)) /\ blob_wf CHECKSUM_SIZE (Msg.compute_checksum payload).
Proof.
  intros Hb Hl. unfold Msg.compute_checksum, Msg.double_sha256, Msg.sha256. destruct (sha256_blob payload) as [Hl1 Hb1].
  rewrite (sha256_once payload), (sha256_once (Fips.sha256 payload)) by (done || (rewrite Hl1; lia)). split; [done|].
  destruct (sha256_blob (Fips.sha256 payload)) as [Hl2 Hb2]. apply blob_take; [rewrite Hl2; unfold CHECKSUM_SIZE; lia|done].
Qed.

Lemma created_header magic cmd payload : in_u 32 magic -> command_ok cmd -> Forall byte_ok payload ->
  Z.of_nat (length payload) <= MAX_PROTOCOL_MESSAGE_LENGTH ->
  acceptable_header (Msg.create_header magic cmd payload) /\
  mlength (Msg.create_header magic cmd payload) = Z.of_nat (length payload) /\
  get_command (Msg.create_header magic cmd payload) = cmd.
Proof.
  intros Hm Hc Hb Hl. assert (Hr : u32 (Z.of_nat (length payload)) = Z.of_nat (length payload)).
  { apply u32_id. unfold in_u, MAX_PROTOCOL_MESSAGE_LENGTH in *. lia. }
  destruct (checksum_ok payload Hb) as [_ Hk]; [unfold MAX_PROTOCOL_MESSAGE_LENGTH in Hl; lia|].
  unfold Msg.create_header, MessageHeader_of, acceptable_header, mh_wf. cbn [Proto.magic command mlength checksum].
  rewrite Hr. pose proof (command_field_wf cmd Hc).
  split_and!; try done; try (unfold in_u, MAX_PROTOCOL_MESSAGE_LENGTH in *; lia).
  - by exists cmd.
  - apply get_command_field; [apply printable_nonzero, Hc|]. destruct Hc. lia.
Qed.

Lemma command_msg_ok m : command_ok (Msg.command m).
Proof.
  destruct m; (split; [cbn; unfold COMMAND_SIZE; lia|]); cbn; repeat apply Forall_cons_2; try apply Forall_nil_2;
    unfold printable; lia.
Qed.

Lemma created_kind m : exists m0, Msg.create_message (Msg.command m) = Some m0 /\ Msg.command m0 = Msg.command m.
Proof. destruct m; eexists; by split; [reflexivity|]. Qed.

Lemma decode_encode h v rest : in_u 64 v -> Forall byte_ok rest ->
  VarInt.decode h (VarInt.encode h v ++ rest) = Some (v, length (VarInt.encode h v)).
Proof.
  intros Hv Hr. rewrite encode_form by done. unfold in_u in Hv. destruct (Z.ltb_spec v 0xfd).
  { cbn [app VarInt.decode]. by rewrite (proj2 (Z.ltb_lt _ _)) by lia. }
  assert (Hw : forall c n f, (forall p, (n <= length p)%nat -> Forall byte_ok p -> f p = le_combine (take n p)) ->
    0 <= v < bytes_mod n -> (length (c :: le_split n v ++ rest) <? S n)%nat = false /\ f (le_split n v ++ rest) = v).
  { intros c n f Hf Hn. cbn [length]. rewrite length_app, length_le_split. split; [apply Nat.ltb_ge; lia|by apply wide_read]. }
  destruct (Z.leb_spec v 0xffff).
  { destruct (Hw 0xfd 2%nat _ (ReadLE16_eq h)) as [E1 E2]; [change (bytes_mod 2) with (2 ^ 16); lia|].
    rewrite <- app_comm_cons. cbn [VarInt.decode]. rewrite E1, E2. done. }
  destruct (Z.leb_spec v 0xffffffff).
  { destruct (Hw 0xfe 4%nat _ (ReadLE32_eq h)) as [E1 E2]; [change (bytes_mod 4) with (2 ^ 32); lia|].
    rewrite <- app_comm_cons. cbn [VarInt.decode]. rewrite E1, E2. done. }
  destruct (Hw 0xff 8%nat _ (ReadLE64_eq h)) as [E1 E2]; [change (bytes_mod 8) with (2 ^ 64); lia|].
  rewrite <- app_comm_cons. cbn [VarInt.decode]. rewrite E1, E2. done.
Qed.

Lemma varint_refused h buf v n : VarInt.decode h buf = Some (v, n) -> MAX_SIZE < v ->
  De.read_varint h (De.open buf) = (0, mkD buf 0 true).
Proof.
  intros E Hv. destruct buf as [|x p]; [done|]. unfold De.read_varint.
  change (De.check_available 1 (De.open (x :: p))) with (De.open (x :: p)). change (De.here (De.open (x :: p))) with (x :: p).
  rewrite E. cbn [De.open error_]. by rewrite (proj2 (Z.ltb_lt _ _)) by lia.
Qed.

(** C40: for every message kind and every byte string, [deserialize] succeeds with the message [m] exactly when the
    payload starts with an encoding of [m] for that kind (nothing may follow it for the messages without payload);
    the message is then within the limits of the protocol: at most 1000 addresses, 50000 inventory entries,
    2000 headers, 101 locator hashes and 256 user-agent bytes, every field in the range of its type. *)
Theorem message_decode_exact (h : Endian.host) (this m : Message) (data : bytes) : Forall byte_ok data ->
  (Msg.deserialize h this data = (true, m) <->
   Msg.command this = Msg.command m /\
   exists e rest, data = e ++ rest /\ encodes m e /\ (payload_free m -> rest = [])) /\
  (Msg.deserialize h this data = (true, m) -> msg_wf m).
Proof.
  intros Hb. pose proof (deserialize_ok h this data m Hb) as H. split; [done|].
  intros E. apply H in E as (_ & e & rest & _ & He & _). by apply (encodes_wf _ _ He).
Qed.

(** C39: a framed message survives the wire: for every well-formed message and every network, the header built
    for its payload is accepted by [deserialize_header] whatever follows it, carries the payload's length, checksum and
    command, and the message object created for that command decodes the payload to the same message. *)
Theorem message_frame_roundtrip (h h' : Endian.host) (magic : Z) (m : Message) (this : MessageHeader) (rest : bytes) :
  in_u 32 magic -> msg_wf m -> Forall byte_ok rest ->
  let payload := Msg.serialize h m in
  let hd := Msg.create_header magic (Msg.command m) payload in
  Msg.deserialize_header h' (Msg.serialize_header h hd ++ rest) this = (true, hd) /\
  Proto.magic hd = magic /\ mlength hd = Z.of_nat (length payload) /\
  checksum hd = take 4 (Fips.sha256 (Fips.sha256 payload)) /\
  exists m0, Msg.create_message (get_command hd) = Some m0 /\ Msg.deserialize h' m0 payload = (true, m).
Proof.
  intros Hm Hw Hr payload hd. pose proof (serialize_encodes h m Hw) as He. fold payload in He.
  destruct (encodes_wf _ _ He) as (_ & Hb & Hl).
  destruct (created_header magic _ payload Hm (command_msg_ok m) Hb Hl) as (Ha & Hlen & Hcmd). fold hd in Ha, Hlen, Hcmd.
  split_and!; [|done|done| |].
  - rewrite serialize_header_eq by apply Ha. by apply header_complete.
  - apply checksum_ok; [done|]. unfold MAX_PROTOCOL_MESSAGE_LENGTH in Hl. lia.
  - rewrite Hcmd. destruct (created_kind m) as (m0 & E & Ek). exists m0. split; [done|].
    apply (proj2 (deserialize_ok h' m0 payload m Hb)). split; [done|]. exists payload, []. by rewrite app_nil_r.
Qed.

(** [deserialize_header] accepts a buffer exactly when it starts with the 24 bytes of a header whose
    length is at most 4,000,000 and whose command is printable ASCII of at most eleven characters, padded with
    nulls; the header returned is that one. *)
Theorem header_decode_exact (h : Endian.host) (data : bytes) (this hd : MessageHeader) : Forall byte_ok data ->
  Msg.deserialize_header h data this = (true, hd) <->
  exists rest, data = header_bytes hd ++ rest /\ mh_wf hd /\ mlength hd <= MAX_PROTOCOL_MESSAGE_LENGTH /\
    exists s, command_ok s /\ get_command hd = s /\ command hd = command_field s.
Proof.
  intros Hb. split.
  - intros E. destruct (header_sound h data this hd Hb E) as ((Hw & Hm & s & Hs & Ec) & rest & ->). exists rest.
    split_and!; [done..|]. exists s. split_and!; [done| |done]. unfold get_command. rewrite Ec.
    apply (get_command_field s 0 0 []); [apply printable_nonzero, Hs|]. destruct Hs. lia.
  - intros (rest & -> & Hw & Hm & s & Hs & _ & Ec). apply Forall_app in Hb as [_ Hb].
    apply header_complete; [|done]. split_and!; [done..|]. by exists s.
Qed.

(** the variable-length integer is written in its shortest form, of the size [encoded_size] announces, and
    every form of a value up to the size limit decodes to it, the non-minimal ones included; a value above the
    limit is refused by [read_varint] with the error flag set and the position unchanged. *)
Theorem varint_exact (h : Endian.host) (v : Z) : in_u 64 v ->
  length (VarInt.encode h v) = VarInt.encoded_size v /\
  (v <= MAX_SIZE -> enc_varint v (VarInt.encode h v) /\
    forall e rest, enc_varint v e -> Forall byte_ok rest ->
      (length (VarInt.encode h v) <= length e)%nat /\
      De.read_varint h (De.open (e ++ rest)) = (v, mkD (e ++ rest) (length e) false)) /\
  (MAX_SIZE < v -> forall rest, Forall byte_ok rest ->
    De.read_varint h (De.open (VarInt.encode h v ++ rest)) = (0, mkD (VarInt.encode h v ++ rest) 0 true)).
Proof.
  intros Hv. split_and!.
  - by apply encode_size.
  - intros Hm. split; [apply encode_enc; unfold in_u in Hv; lia|]. intros e rest He Hr.
    split; [by apply encode_shortest|]. destruct (enc_varint_size _ _ He) as [Hb _].
    rewrite (rd_complete _ _ (reads_varint h) _ v e rest); [done|done|done| |done]. by apply Forall_app.
  - intros Hm rest Hr. apply (varint_refused h _ v (length (VarInt.encode h v))); [by apply decode_encode|done].
Qed.

Definition enc_bool : enc bool := fun b e => exists v, enc_uint 1 v e /\ b = negb (v =? 0).

Lemma reads_bool : reads De.read_bool enc_bool.
Proof.
  eapply reads_iff; [|eapply reads_bind; [apply reads_uint8|intros v; apply reads_ret]].
  intros b e _. split.
  - intros (v & x & y & -> & Hv & -> & ->). rewrite app_nil_r. by exists v.
  - intros (v & Hv & ->). exists v, e, []. by rewrite app_nil_r.
Qed.

(** every read of the deserializer accepts exactly the encodings of its type at the current position, returns the
    value encoded and advances by the length of the encoding; on any other input it sets the error flag; from every
    state it stays inside the buffer and never clears the flag.  This covers the fixed-width integers, booleans,
    variable-length integers, bounded strings, raw bytes, network addresses with and without timestamp and inventory vectors. *)
Theorem deserializer_reads_exact (h : Endian.host) :
  reads De.read_uint8 (enc_uint 1) /\ reads (De.read_uint16 h) (enc_uint 2) /\ reads (De.read_uint32 h) (enc_uint 4) /\
  reads (De.read_uint64 h) (enc_uint 8) /\ reads (De.read_int32 h) (enc_int 4 32) /\ reads (De.read_int64 h) (enc_int 8 64) /\
  reads De.read_bool enc_bool /\ reads (De.read_varint h) enc_varint /\
  (forall max, 0 <= max -> reads (De.read_string h max) (enc_string max)) /\
  (forall n, reads (De.read_bytes n) (enc_fixed n)) /\
  reads (De.read_network_address h false) enc_addr /\ reads (De.read_timestamped_address h) enc_taddr /\
  reads (De.read_inventory_vector h) enc_inv.
Proof.
  split_and!; [apply reads_uint8|apply reads_uint16|apply reads_uint32|apply reads_uint64|apply reads_int32|apply reads_int64|
    apply reads_bool|apply reads_varint|apply reads_string|apply reads_bytes|apply reads_network_address|
    apply reads_timestamped_address|apply reads_inventory_vector].
Qed.

(** ** Witnesses *)

Lemma deserializer_reads_exact_witness :
  De.read_string Endian.Little 4 (De.open [2; 65; 66; 9]) = ([65; 66], mkD [2; 65; 66; 9] 3 false).
Proof.
  destruct (deserializer_reads_exact Endian.Little) as (_ & _ & _ & _ & _ & _ & _ & _ & Hs & _).
  apply (rd_complete _ _ (Hs 4 ltac:(lia)) (De.open [2; 65; 66; 9]) [65; 66] [2; 65; 66] [9]); [done|done| |].
  - repeat apply Forall_cons_2; try apply Forall_nil_2; unfold byte_ok; lia.
  - exists [2]. split_and!; [apply EncVar1; cbn; lia|cbn; lia| |done].
    repeat apply Forall_cons_2; try apply Forall_nil_2; unfold byte_ok; lia.
Defined.

Lemma message_decode_exact_witness :
  Msg.deserialize Endian.Little (MPing 0) [7; 0; 0; 0; 0; 0; 0; 0; 1] = (true, MPing 7) /\ msg_wf (MPing 7).
Proof.
  assert (Hb : Forall byte_ok [7; 0; 0; 0; 0; 0; 0; 0; 1])
    by (repeat apply Forall_cons_2; try apply Forall_nil_2; unfold byte_ok; lia).
  destruct (message_decode_exact Endian.Little (MPing 0) (MPing 7) _ Hb) as [_ H].
  split; [reflexivity|apply H; reflexivity].
Defined.

Lemma message_frame_roundtrip_witness :
  exists m0, Msg.create_message (get_command (Msg.create_header magic_MAINNET PING (Msg.serialize Endian.Little (MPing 5)))) = Some m0 /\
    Msg.deserialize Endian.Big m0 (Msg.serialize Endian.Little (MPing 5)) = (true, MPing 5).
Proof.
  apply (message_frame_roundtrip Endian.Little Endian.Big magic_MAINNET (MPing 5) MessageHeader_new []).
  - unfold in_u, magic_MAINNET. lia.
  - cbn. unfold in_u. lia.
  - apply Forall_nil_2.
Defined.

Definition ping_header : MessageHeader := mkMH magic_MAINNET (command_field PING) 8 [1; 2; 3; 4].

Lemma header_decode_exact_witness :
  exists rest, header_bytes ping_header ++ [9] = header_bytes ping_header ++ rest /\ mh_wf ping_header /\
    mlength ping_header <= MAX_PROTOCOL_MESSAGE_LENGTH /\
    exists s, command_ok s /\ get_command ping_header = s /\ command ping_header = command_field s.
Proof.
  apply (header_decode_exact Endian.Little (header_bytes ping_header ++ [9]) MessageHeader_new ping_header).
  - vm_compute header_bytes. repeat apply Forall_cons_2; try apply Forall_nil_2; unfold byte_ok; lia.
  - vm_compute. reflexivity.
Defined.

Lemma varint_exact_witness :
  De.read_varint Endian.Little (De.open [0xfd; 5; 0]) = (5, mkD [0xfd; 5; 0] 3 false).
Proof.
  destruct (varint_exact Endian.Little 5) as (_ & H & _); [unfold in_u; lia|].
  destruct (H ltac:(unfold MAX_SIZE; lia)) as [_ H1].
  apply (H1 [0xfd; 5; 0] []); [|apply Forall_nil_2]. apply (EncVar3 5). unfold in_u. lia.
Defined.
