(* ===== verification/TimeData.v ===== *)
(** * TimeData: network-adjusted time ([chain/timedata.hpp/.cpp])

    The median filter over the clock offsets of the peers and the offset derived from it.  The
    global state is a record; the mutex makes [AddTimeData] one step. *)
From S2P Require Import Prelude Arith Bytes BlockIndex Protocol.
#[local] Open Scope Z_scope.

(** [std::set<NetworkAddress>]: the equivalence of the order is equality ([address_order_strict_total]). *)
#[export] Instance NetworkAddress_countable : Countable Proto.NetworkAddress :=
  inj_countable' (fun a => (Proto.services a, Proto.ip a, Proto.port a)) (fun '(s, i, p) => Proto.mkNA s i p)
    ltac:(by intros []).

Module Time.

Definition DEFAULT_MAX_TIME_ADJUSTMENT : Z := 70 * 60.
Definition MAX_SAMPLES : nat := 200.

(** [CMedianFilter<int64_t>]. *)
Record CMedianFilter := mkFilter { vValues : list Z; vSorted : list Z; nSize : nat }.

Definition filter_new (size : nat) (initial_value : Z) : CMedianFilter := mkFilter [initial_value] [initial_value] size.

Definition input (value : Z) (f : CMedianFilter) : CMedianFilter :=
  let values := if (length (vValues f) =? nSize f)%nat then tail (vValues f) else vValues f in
  let values := values ++ [value] in
  mkFilter values (merge_sort Z.le values) (nSize f).

(** [None] is the failed assertion; the sum of the even case is in [int64_t]. *)
Definition median (f : CMedianFilter) : option Z :=
  let n := length (vSorted f) in
  if (n =? 0)%nat then None
  else if Nat.odd n then Some (nth (n / 2) (vSorted f) 0)
  else Some (Z.quot (i64 (nth (n / 2 - 1) (vSorted f) 0 + nth (n / 2) (vSorted f) 0)) 2).

Definition fsize (f : CMedianFilter) : nat := length (vValues f).

(** The file's static variables. *)
Record state := mkTime {
  nTimeOffset : Z;
  g_sources : gset Proto.NetworkAddress;
  g_time_offsets : CMedianFilter;
  g_warning_emitted : bool
}.

(** Their initial values, also after [TestOnlyResetTimeData]. *)
Definition init : state := mkTime 0 ∅ (filter_new MAX_SAMPLES 0) false.

Definition GetTimeOffset (s : state) : Z := nTimeOffset s.

(** Whether some peer's clock differs from ours by less than five minutes. *)
Definition fMatch (sorted : list Z) : bool :=
  existsb (fun nOffset => negb (nOffset =? 0) && (-5 * 60 <? nOffset) && (nOffset <? 5 * 60)) sorted.

(** [AddTimeData]; [None] is a failed assertion. *)
Definition AddTimeData (ip : Proto.NetworkAddress) (nOffsetSample : Z) (s : state) : option state :=
  if (size (g_sources s) =? MAX_SAMPLES)%nat then Some s
  else if bool_decide (ip ∈ g_sources s) then Some s
  else
    let sources := {[ip]} ∪ g_sources s in
    let f := input nOffsetSample (g_time_offsets s) in
    if (5 <=? fsize f)%nat && (fsize f mod 2 =? 1)%nat then
      match median f with
      | None => None
      | Some nMedian =>
          let max_adjustment := DEFAULT_MAX_TIME_ADJUSTMENT in
          if (- max_adjustment <=? nMedian) && (nMedian <=? max_adjustment) then
            Some (mkTime nMedian sources f (g_warning_emitted s))
          else
            let warned := if g_warning_emitted s then true else negb (fMatch (vSorted f)) in
            Some (mkTime 0 sources f warned)
      end
    else Some (mkTime (nTimeOffset s) sources f (g_warning_emitted s)).

(** A sequence of calls. *)
Fixpoint run (calls : list (Proto.NetworkAddress * Z)) (s : state) : option state :=
  match calls with
  | [] => Some s
  | (ip, sample) :: calls => match AddTimeData ip sample s with Some s => run calls s | None => None end
  end.
End Time.

(** ** The specification *)

(** The samples that count: the first of every source, of the first 200 sources. *)
Fixpoint accepted (seen : gset Proto.NetworkAddress) (calls : list (Proto.NetworkAddress * Z)) : list Z :=
  match calls with
  | [] => []
  | (ip, sample) :: calls =>
      if (size seen =? Time.MAX_SAMPLES)%nat then []
      else if bool_decide (ip ∈ seen) then accepted seen calls
      else sample :: accepted ({[ip]} ∪ seen) calls
  end.

Definition clamp_offset (x : Z) : Z :=
  if (- Time.DEFAULT_MAX_TIME_ADJUSTMENT <=? x) && (x <=? Time.DEFAULT_MAX_TIME_ADJUSTMENT) then x else 0.

(** The samples the offset depends on: an even number of them, at least 4 and at most 198, after the
    filter's initial zero. *)
Definition used (n : nat) : nat := let k := Nat.min n 198 in if (k <? 4)%nat then 0 else 2 * (k / 2).
Definition offset_spec (samples : list Z) : Z :=
  if (length samples <? 4)%nat then 0 else clamp_offset (median (0 :: take (used (length samples)) samples)).

(** ** The filter *)

(** What the state holds after the samples [ss]. *)
Record holds (ss : list Z) (s : Time.state) : Prop := {
  h_max : (length ss <= 200)%nat;
  h_sources : size (Time.g_sources s) = length ss;
  h_size : Time.nSize (Time.g_time_offsets s) = Time.MAX_SAMPLES;
  h_values : Time.vValues (Time.g_time_offsets s) = drop (length ss - 199) (0 :: ss);
  h_sorted : Time.vSorted (Time.g_time_offsets s) = merge_sort Z.le (Time.vValues (Time.g_time_offsets s));
  h_offset : Time.nTimeOffset s = offset_spec ss
}.

Lemma holds_init : holds [] Time.init.
Proof. split; [cbn; lia|reflexivity..]. Qed.

Lemma input_ok f ss x : Time.nSize f = Time.MAX_SAMPLES -> (length ss < 200)%nat ->
  Time.vValues f = drop (length ss - 199) (0 :: ss) ->
  Time.vValues (Time.input x f) = drop (length (ss ++ [x]) - 199) (0 :: ss ++ [x]) /\
  Time.fsize (Time.input x f) = Nat.min 200 (S (S (length ss))).
Proof.
  intros Hn Hl Hv. unfold Time.fsize, Time.input. cbn [Time.vValues]. rewrite Hn, Hv. unfold Time.MAX_SAMPLES.
  rewrite !length_app, length_drop. cbn [length]. destruct (Nat.eqb_spec (S (length ss) - (length ss - 199)) 200) as [E|E].
  - assert (E' : length ss = 199%nat) by lia. rewrite E'. cbn [Nat.add Nat.sub drop tail]. split; [done|]. by rewrite E'.
  - replace (length ss - 199)%nat with 0%nat by lia. replace (length ss + 1 - 199)%nat with 0%nat by lia.
    rewrite !drop_0. split; [done|cbn [length]; lia].
Qed.

(** ** One call *)

Lemma used_odd n : (4 <= n < 199)%nat -> used n = (if Nat.even n then n else n - 1)%nat.
Proof.
  intros Hn. unfold used. cbv zeta. rewrite Nat.min_l by lia. destruct (Nat.ltb_spec n 4); [lia|].
  destruct (Nat.even n) eqn:E.
  - apply Nat.even_spec in E as [k ->]. rewrite (Nat.mul_comm 2 k), Nat.div_mul by lia. lia.
  - assert (Ho : Nat.odd n = true) by by rewrite <- Nat.negb_even, E. apply Nat.odd_spec in Ho as [k ->].
    replace (2 * k + 1)%nat with (1 + k * 2)%nat by lia. rewrite Nat.div_add by lia. cbn [Nat.div Nat.divmod fst]. lia.
Qed.

(** A sample that does not complete an odd number of values leaves the offset alone. *)
Lemma offset_skip ss x : (length ss < 200)%nat ->
  (5 <=? Nat.min 200 (S (S (length ss))))%nat && (Nat.min 200 (S (S (length ss))) mod 2 =? 1)%nat = false ->
  offset_spec (ss ++ [x]) = offset_spec ss.
Proof.
  intros Hl Hc. unfold offset_spec. rewrite length_app. cbn [length].
  destruct (Nat.ltb_spec (length ss + 1) 4), (Nat.ltb_spec (length ss) 4); try lia.
  - assert (length ss = 3%nat) as E by lia. rewrite E in Hc. discriminate Hc.
  - do 3 f_equal. destruct (le_lt_dec 198 (length ss)) as [H198|H198].
    + unfold used. cbv zeta. rewrite !Nat.min_r by lia. rewrite take_app_le by (cbn; lia). done.
    + rewrite Nat.min_r in Hc by lia. rewrite (used_odd (length ss)) by lia.
      assert (Hle : (5 <=? S (S (length ss)))%nat = true) by (apply Nat.leb_le; lia). rewrite Hle in Hc. cbn [andb] in Hc.
      destruct (Nat.even (length ss)) eqn:Ev.
      * assert (Hu : used (length ss + 1) = length ss).
        { rewrite used_odd by lia. rewrite Nat.add_comm. cbn [Nat.add].
          rewrite Nat.even_succ, <- Nat.negb_even, Ev. cbn [negb]. lia. }
        rewrite Hu. by rewrite take_app_le, firstn_all by lia.
      * exfalso. apply Nat.eqb_neq in Hc. apply Hc. assert (Ho : Nat.odd (length ss) = true) by by rewrite <- Nat.negb_even, Ev.
        apply Nat.odd_spec in Ho as [k ->]. replace (S (S (2 * k + 1))) with (1 + (k + 1) * 2)%nat by lia.
        by rewrite Nat.Div0.mod_add.
Qed.

(** The fifth, seventh, ... value sets it to the clamped median. *)
Lemma offset_take ss x : (length ss < 200)%nat ->
  (5 <=? Nat.min 200 (S (S (length ss))))%nat && (Nat.min 200 (S (S (length ss))) mod 2 =? 1)%nat = true ->
  offset_spec (ss ++ [x]) = clamp_offset (median (0 :: ss ++ [x])) /\ (length ss < 198)%nat.
Proof.
  intros Hl Hc. apply andb_true_iff in Hc as [H5 H1]. apply Nat.leb_le in H5. apply Nat.eqb_eq in H1.
  assert (H198 : (length ss < 198)%nat).
  { destruct (Nat.eq_dec (length ss) 198%nat) as [E|]; [rewrite E in H1; done|].
    destruct (Nat.eq_dec (length ss) 199%nat) as [E|]; [rewrite E in H1; done|lia]. }
  split; [|done]. rewrite Nat.min_r in H1, H5 by lia. unfold offset_spec. rewrite length_app. cbn [length].
  destruct (Nat.ltb_spec (length ss + 1) 4); [lia|].
  assert (Hev : Nat.even (length ss + 1) = true).
  { rewrite Nat.add_comm. cbn [Nat.add]. rewrite Nat.even_succ. rewrite Nat.odd_spec. exists (length ss / 2)%nat.
    pose proof (Nat.div_mod_eq (length ss) 2). replace (S (S (length ss))) with (length ss + 1 * 2)%nat in H1 by lia.
    rewrite Nat.Div0.mod_add in H1. lia. }
  rewrite used_odd, Hev by lia. rewrite firstn_all2 by (rewrite length_app; cbn; lia). done.
Qed.

Lemma median_sorted f ss : Time.vSorted f = merge_sort Z.le ss -> Nat.odd (length ss) = true ->
  Time.median f = Some (median ss).
Proof.
  intros E Ho. unfold Time.median, median. rewrite E. rewrite (Permutation_length (merge_sort_Permutation Z.le ss)), Ho.
  destruct (length ss); [discriminate Ho|]. done.
Qed.

Lemma add_time_data_ok ip x s ss : holds ss s ->
  if decide (length ss = 200%nat \/ ip ∈ Time.g_sources s) then Time.AddTimeData ip x s = Some s
  else exists s', Time.AddTimeData ip x s = Some s' /\ holds (ss ++ [x]) s' /\
    Time.g_sources s' = {[ip]} ∪ Time.g_sources s.
Proof.
  intros [Hmax Hsrc Hn Hv Hs Ho]. unfold Time.AddTimeData. rewrite Hsrc.
  destruct (Nat.eqb_spec (length ss) Time.MAX_SAMPLES) as [E|E]; unfold Time.MAX_SAMPLES in E; [by rewrite decide_True by auto|].
  case_bool_decide as Hip; [by rewrite decide_True by auto|]. rewrite decide_False by tauto.
  assert (Hl : (length ss < 200)%nat) by lia. destruct (input_ok _ _ x Hn Hl Hv) as [Hv' Hf]. rewrite Hf.
  assert (Hsz : size ({[ip]} ∪ Time.g_sources s) = length (ss ++ [x])).
  { rewrite size_union, size_singleton, Hsrc, length_app; [cbn; lia|]. by apply disjoint_singleton_l. }
  assert (Hk : forall o w, o = offset_spec (ss ++ [x]) ->
    holds (ss ++ [x]) (Time.mkTime o ({[ip]} ∪ Time.g_sources s) (Time.input x (Time.g_time_offsets s)) w)).
  { intros o w ->. split; [rewrite length_app; cbn; lia|done..]. }
  destruct ((5 <=? _)%nat && _) eqn:Hc.
  - destruct (offset_take ss x Hl Hc) as [Ho' H198].
    replace (length (ss ++ [x]) - 199)%nat with 0%nat in Hv' by (rewrite length_app; cbn; lia). rewrite drop_0 in Hv'.
    rewrite (median_sorted _ (0 :: ss ++ [x])); [|by rewrite <- Hv'|].
    + unfold clamp_offset in Ho'. destruct ((- _ <=? _) && _); eexists; (split; [reflexivity|]); (split; [by apply Hk|done]).
    + rewrite app_comm_cons, length_app. cbn [length]. rewrite Nat.add_1_r. apply andb_true_iff in Hc as [_ Hc].
      rewrite Nat.min_r in Hc by lia. apply Nat.eqb_eq in Hc. apply Nat.odd_spec. exists (S (S (length ss)) / 2)%nat.
      pose proof (Nat.div_mod_eq (S (S (length ss))) 2). lia.
  - eexists. split; [reflexivity|]. split; [|done]. apply Hk. by rewrite offset_skip.
Qed.

(** ** Sequences of calls *)

Lemma accepted_full seen calls : size seen = 200%nat -> accepted seen calls = [].
Proof.
  intros E. induction calls as [|[ip x] calls IH]; [done|]. cbn [accepted]. by rewrite E.
Qed.

Lemma run_ok calls s ss : holds ss s ->
  exists s', Time.run calls s = Some s' /\ holds (ss ++ accepted (Time.g_sources s) calls) s'.
Proof.
  revert s ss. induction calls as [|[ip x] calls IH]; intros s ss Hs; cbn [Time.run accepted].
  { exists s. by rewrite app_nil_r. }
  pose proof (add_time_data_ok ip x s ss Hs) as H. pose proof (h_sources _ _ Hs) as Hsz. rewrite Hsz.
  unfold Time.MAX_SAMPLES. destruct (Nat.eqb_spec (length ss) 200) as [E|E].
  { rewrite decide_True in H by auto. rewrite H. destruct (IH s ss Hs) as (s' & E' & Hs').
    rewrite accepted_full in Hs' by lia. by exists s'. }
  case_bool_decide as Hip.
  - rewrite decide_True in H by auto. rewrite H. by apply IH.
  - rewrite decide_False in H by tauto. destruct H as (s1 & -> & H1 & E1).
    destruct (IH s1 _ H1) as (s' & E' & Hs'). exists s'. split; [done|]. rewrite E1, <- app_assoc in Hs'. done.
Qed.

(** ** Claims *)

(** after any sequence of [AddTimeData] calls, the median assertion holding throughout, the network time offset is
    that of the specification: only the first sample of each of the first 200 sources counts; it stays zero until
    four samples; then it is the median of the initial zero and the largest even number of samples (at most 198), or zero
    when that median is more than 70 minutes away, so it never leaves the range of plus or minus 70 minutes. *)
Theorem time_offset_exact (calls : list (Proto.NetworkAddress * Z)) :
  exists s, Time.run calls Time.init = Some s /\
    Time.GetTimeOffset s = offset_spec (accepted ∅ calls) /\
    - Time.DEFAULT_MAX_TIME_ADJUSTMENT <= Time.GetTimeOffset s <= Time.DEFAULT_MAX_TIME_ADJUSTMENT /\
    size (Time.g_sources s) = length (accepted ∅ calls) /\ (length (accepted ∅ calls) <= 200)%nat /\
    (length (Time.vValues (Time.g_time_offsets s)) <= 200)%nat.
Proof.
  destruct (run_ok calls Time.init [] holds_init) as (s & E & Hs). exists s. split; [done|]. destruct Hs as [Hm H1 H2 H3 _ H5].
  cbn [app] in *. change (Time.g_sources Time.init) with (∅ : gset Proto.NetworkAddress) in *.
  split_and!; try done.
  - unfold Time.GetTimeOffset. rewrite H5. unfold offset_spec, clamp_offset, Time.DEFAULT_MAX_TIME_ADJUSTMENT.
    destruct (_ <? _)%nat; [lia|]. destruct (_ && _) eqn:Ec; [|lia]. apply andb_true_iff in Ec. rewrite !Z.leb_le in Ec. lia.
  - unfold Time.GetTimeOffset. rewrite H5. unfold offset_spec, clamp_offset, Time.DEFAULT_MAX_TIME_ADJUSTMENT.
    destruct (_ <? _)%nat; [lia|]. destruct (_ && _) eqn:Ec; [|lia]. apply andb_true_iff in Ec. rewrite !Z.leb_le in Ec. lia.
  - rewrite H3, length_drop. cbn [length]. lia.
Qed.

(** The elements of a list outside an interval. *)
Definition outside (lo hi : Z) (l : list Z) : nat := length (filter (fun x => x < lo \/ hi < x) l).

Lemma outside_cons lo hi x l : outside lo hi (x :: l) =
  ((if decide (x < lo \/ hi < x)%Z then 1 else 0) + outside lo hi l)%nat.
Proof. unfold outside. rewrite filter_cons. by destruct (decide (x < lo \/ hi < x)). Qed.

Lemma outside_counts lo hi l :
  (length l <= count_ge lo l + outside lo hi l)%nat /\ (count_ge (hi + 1) l <= outside lo hi l)%nat.
Proof.
  induction l as [|x l [IH1 IH2]]; [done|]. rewrite !count_ge_cons, outside_cons. cbn [length].
  destruct (decide (lo <= x)), (decide (hi + 1 <= x)), (decide (x < lo \/ hi < x)); lia.
Qed.

Lemma median_between lo hi l : (2 * outside lo hi l < length l)%nat -> lo <= median l <= hi.
Proof.
  intros H. assert (Hl : l <> []) by (intros ->; cbn in H; lia). destruct (outside_counts lo hi l) as [H1 H2].
  pose proof (Nat.div_mod_eq (length l) 2). pose proof (Nat.mod_upper_bound (length l) 2 ltac:(lia)).
  split.
  - apply median_ge; [done|]. lia.
  - destruct (Z_lt_le_dec hi (median l)) as [Hlt|]; [exfalso|done].
    apply (Z.le_succ_l hi (median l)) in Hlt. unfold Z.succ in Hlt. apply median_ge in Hlt; [|done]. lia.
Qed.

(** peers that are in the minority cannot move the clock: when less than half of the samples in use (the initial
    zero included) lie outside an interval within the adjustment limit, the offset lies in that interval. *)
Theorem time_offset_robust (calls : list (Proto.NetworkAddress * Z)) (lo hi : Z) (s : Time.state) :
  Time.run calls Time.init = Some s ->
  - Time.DEFAULT_MAX_TIME_ADJUSTMENT <= lo <= 0 -> 0 <= hi <= Time.DEFAULT_MAX_TIME_ADJUSTMENT ->
  let samples := take (used (length (accepted ∅ calls))) (accepted ∅ calls) in
  (2 * outside lo hi samples <= length samples)%nat ->
  lo <= Time.GetTimeOffset s <= hi.
Proof.
  intros E Hlo Hhi samples Hmin. destruct (run_ok calls Time.init [] holds_init) as (s' & E' & Hs).
  rewrite E in E'. injection E' as <-. unfold Time.GetTimeOffset. rewrite (h_offset _ _ Hs). cbn [app].
  change (Time.g_sources Time.init) with (∅ : gset Proto.NetworkAddress). unfold offset_spec.
  destruct (_ <? _)%nat; [lia|]. fold samples. assert (Hb : lo <= median (0 :: samples) <= hi).
  { apply median_between. rewrite outside_cons, decide_False by lia. cbn [length]. lia. }
  unfold clamp_offset. destruct (_ && _); lia.
Qed.

Definition peer (n : Z) : Proto.NetworkAddress := Proto.from_ipv4 1 n 9590.

Lemma time_offset_robust_witness :
  exists s, Time.run [(peer 1, 10); (peer 2, 4000); (peer 3, 20); (peer 3, 9); (peer 4, 4100)] Time.init = Some s /\
    0 <= Time.GetTimeOffset s <= 60.
Proof.
  eexists. split; [vm_compute; reflexivity|].
  apply (time_offset_robust [(peer 1, 10); (peer 2, 4000); (peer 3, 20); (peer 3, 9); (peer 4, 4100)] 0 60);
    [vm_compute; reflexivity|unfold Time.DEFAULT_MAX_TIME_ADJUSTMENT; lia..|vm_compute; lia].
Defined.
