(* ===== verification/Misbehavior.v ===== *)
(** * Misbehavior: peer penalties ([network/misbehavior_manager.hpp/.cpp], [network/peer_misbehavior.hpp])

    The part of the per-peer state that header synchronisation uses, the misbehaviour scores
    and the decisions taken from them. *)
From stdpp Require Import strings.
From S2P Require Import Prelude Arith Bytes Sha256 Block BlockIndex.
#[local] Open Scope Z_scope.

Module Mis.

(** [enum class NetPermissionFlags : uint32_t]. *)
Definition PermNone : Z := 0.
Definition NoBan : Z := Z.shiftl 1 0.
Definition Manual : Z := Z.shiftl 1 1.
Definition HasPermission (flags check : Z) : bool := (Z.land flags check =? check) && negb (check =? 0).

(** [struct PeerMisbehaviorData]; the invalid headers are kept by their hexadecimal text. *)
Record PeerMisbehaviorData := mkMis {
  misbehavior_score : Z;
  should_discourage : bool;
  num_unconnecting_headers_msgs : Z;
  unconnecting_penalized : bool;
  permissions : Z;
  address : list Z;
  invalid_header_hashes : gset (list Z)
}.

Definition DISCOURAGEMENT_THRESHOLD : Z := 100.
Definition INVALID_POW : Z := 100.
Definition OVERSIZED_MESSAGE : Z := 20.
Definition NON_CONTINUOUS_HEADERS : Z := 20.
Definition LOW_WORK_HEADERS : Z := 10.
Definition INVALID_HEADER : Z := 100.
Definition TOO_MANY_UNCONNECTING : Z := 100.
Definition TOO_MANY_ORPHANS : Z := 100.
Definition PRE_VERACK_MESSAGE : Z := 100.
Definition MAX_UNCONNECTING_HEADERS : Z := 10.

(** [struct PerPeerState]: the connection facts of the peer object and the misbehaviour data. *)
Record PerPeerState := mkPeer {
  is_inbound : bool;
  is_feeler : bool;
  successfully_connected : bool;
  sync_started : bool;
  misbehavior : PeerMisbehaviorData
}.
Abbreviation peer_map := (gmap Z PerPeerState).

Definition new_data (perms : Z) (addr : list Z) : PeerMisbehaviorData := mkMis 0 false 0 false perms addr ∅.

(** [ThreadSafeMap::Modify] on the misbehaviour data. *)
Definition on_data (f : PeerMisbehaviorData -> PeerMisbehaviorData) (s : PerPeerState) : PerPeerState :=
  mkPeer (is_inbound s) (is_feeler s) (successfully_connected s) (sync_started s) (f (misbehavior s)).
Definition modify (peer_id : Z) (f : PeerMisbehaviorData -> PeerMisbehaviorData) (peers : peer_map) : peer_map :=
  alter (on_data f) peer_id peers.

(** The lambda of [Misbehaving]; the score is an [int]. *)
Definition penalize (penalty : Z) (d : PeerMisbehaviorData) : PeerMisbehaviorData :=
  let old_score := misbehavior_score d in
  let score := i32 (old_score + penalty) in
  let discourage :=
    if (DISCOURAGEMENT_THRESHOLD <=? score) && (old_score <? DISCOURAGEMENT_THRESHOLD) then
      if HasPermission (permissions d) NoBan then should_discourage d else true
    else should_discourage d in
  mkMis score discourage (num_unconnecting_headers_msgs d) (unconnecting_penalized d) (permissions d) (address d)
    (invalid_header_hashes d).

Definition Misbehaving (peer_id penalty : Z) (peers : peer_map) : peer_map := modify peer_id (penalize penalty) peers.

Definition ReportInvalidPoW (peer_id : Z) : peer_map -> peer_map := Misbehaving peer_id INVALID_POW.
Definition ReportOversizedMessage (peer_id : Z) : peer_map -> peer_map := Misbehaving peer_id OVERSIZED_MESSAGE.
Definition ReportNonContinuousHeaders (peer_id : Z) : peer_map -> peer_map := Misbehaving peer_id NON_CONTINUOUS_HEADERS.
Definition ReportLowWorkHeaders (peer_id : Z) : peer_map -> peer_map := Misbehaving peer_id LOW_WORK_HEADERS.
Definition ReportInvalidHeader (peer_id : Z) : peer_map -> peer_map := Misbehaving peer_id INVALID_HEADER.
Definition ReportTooManyOrphans (peer_id : Z) : peer_map -> peer_map := Misbehaving peer_id TOO_MANY_ORPHANS.

Definition ShouldDisconnect (peer_id : Z) (peers : peer_map) : bool :=
  match peers !! peer_id with
  | None => false
  | Some s =>
      if HasPermission (permissions (misbehavior s)) NoBan then false else should_discourage (misbehavior s)
  end.

Definition GetMisbehaviorScore (peer_id : Z) (peers : peer_map) : Z :=
  match peers !! peer_id with None => 0 | Some s => misbehavior_score (misbehavior s) end.

Definition note_hash (hash : uint256) (d : PeerMisbehaviorData) : PeerMisbehaviorData :=
  mkMis (misbehavior_score d) (should_discourage d) (num_unconnecting_headers_msgs d) (unconnecting_penalized d)
    (permissions d) (address d) ({[Blob.GetHex hash]} ∪ invalid_header_hashes d).
Definition NoteInvalidHeaderHash (peer_id : Z) (hash : uint256) (peers : peer_map) : peer_map :=
  modify peer_id (note_hash hash) peers.

Definition HasInvalidHeaderHash (peer_id : Z) (hash : uint256) (peers : peer_map) : bool :=
  match peers !! peer_id with
  | None => false
  | Some s => bool_decide (Blob.GetHex hash ∈ invalid_header_hashes (misbehavior s))
  end.

(** The lambda of [IncrementUnconnectingHeaders] and whether it reports the threshold. *)
Definition count_unconnecting (d : PeerMisbehaviorData) : PeerMisbehaviorData * bool :=
  if unconnecting_penalized d then (d, false)
  else
    let n := i32 (num_unconnecting_headers_msgs d + 1) in
    let hit := MAX_UNCONNECTING_HEADERS <=? n in
    (mkMis (misbehavior_score d) (should_discourage d) n hit (permissions d) (address d) (invalid_header_hashes d), hit).

Definition IncrementUnconnectingHeaders (peer_id : Z) (peers : peer_map) : peer_map :=
  let threshold_exceeded :=
    match peers !! peer_id with Some s => snd (count_unconnecting (misbehavior s)) | None => false end in
  let peers := modify peer_id (fun d => fst (count_unconnecting d)) peers in
  if threshold_exceeded then Misbehaving peer_id TOO_MANY_UNCONNECTING peers else peers.

Definition reset_unconnecting (d : PeerMisbehaviorData) : PeerMisbehaviorData :=
  mkMis (misbehavior_score d) (should_discourage d) 0 (unconnecting_penalized d) (permissions d) (address d)
    (invalid_header_hashes d).
Definition ResetUnconnectingHeaders (peer_id : Z) (peers : peer_map) : peer_map := modify peer_id reset_unconnecting peers.

End Mis.

(** ** What a manager's operation may do to a peer *)

Inductive report := InvalidPoW | Oversized | NonContinuous | LowWork | InvalidHeader | TooManyOrphans.
Definition penalty_of (r : report) : Z :=
  match r with
  | InvalidPoW => Mis.INVALID_POW | Oversized => Mis.OVERSIZED_MESSAGE | NonContinuous => Mis.NON_CONTINUOUS_HEADERS
  | LowWork => Mis.LOW_WORK_HEADERS | InvalidHeader => Mis.INVALID_HEADER | TooManyOrphans => Mis.TOO_MANY_ORPHANS
  end.
Definition report_op (r : report) : Z -> Mis.peer_map -> Mis.peer_map :=
  match r with
  | InvalidPoW => Mis.ReportInvalidPoW | Oversized => Mis.ReportOversizedMessage
  | NonContinuous => Mis.ReportNonContinuousHeaders | LowWork => Mis.ReportLowWorkHeaders
  | InvalidHeader => Mis.ReportInvalidHeader | TooManyOrphans => Mis.ReportTooManyOrphans
  end.

(** The public operations as a step relation. *)
Inductive mis_step : Mis.peer_map -> Mis.peer_map -> Prop :=
| StepReport r p peers : mis_step peers (report_op r p peers)
| StepUnconnecting p peers : mis_step peers (Mis.IncrementUnconnectingHeaders p peers)
| StepReset p peers : mis_step peers (Mis.ResetUnconnectingHeaders p peers)
| StepNote p h peers : mis_step peers (Mis.NoteInvalidHeaderHash p h peers)
| StepJoin p s peers : peers !! p = None ->
    Mis.misbehavior s = Mis.new_data (Mis.permissions (Mis.misbehavior s)) (Mis.address (Mis.misbehavior s)) ->
    mis_step peers (<[p := s]> peers)
| StepLeave p peers : mis_step peers (delete p peers).

(** A run of at most [n] operations from no peers. *)
Inductive mis_reach : nat -> Mis.peer_map -> Prop :=
| ReachEmpty : mis_reach 0 ∅
| ReachStep n peers peers' : mis_reach n peers -> mis_step peers peers' -> mis_reach (S n) peers'.

Definition noban (d : Mis.PeerMisbehaviorData) : bool := Mis.HasPermission (Mis.permissions d) Mis.NoBan.

(** The invariant of a peer's data after [n] operations. *)
Record mis_ok (n : nat) (d : Mis.PeerMisbehaviorData) : Prop := {
  mo_score : 0 <= Mis.misbehavior_score d <= 100 * Z.of_nat n;
  mo_discourage : Mis.should_discourage d = negb (noban d) && (Mis.DISCOURAGEMENT_THRESHOLD <=? Mis.misbehavior_score d);
  mo_count : 0 <= Mis.num_unconnecting_headers_msgs d <= Z.of_nat n;
  mo_open : Mis.unconnecting_penalized d = false -> Mis.num_unconnecting_headers_msgs d < Mis.MAX_UNCONNECTING_HEADERS;
  mo_latched : Mis.unconnecting_penalized d = true -> Mis.DISCOURAGEMENT_THRESHOLD <= Mis.misbehavior_score d
}.

Lemma mis_ok_mono n k d : (n <= k)%nat -> mis_ok n d -> mis_ok k d.
Proof. intros Hn [Hs Hd Hc Ho Hl]. split; [lia|exact Hd|lia|exact Ho|exact Hl]. Qed.

Lemma penalize_ok n d penalty : 0 < penalty <= 100 -> 100 * Z.of_nat (S n) < 2 ^ 31 -> mis_ok n d ->
  mis_ok (S n) (Mis.penalize penalty d) /\ Mis.misbehavior_score (Mis.penalize penalty d) = Mis.misbehavior_score d + penalty.
Proof.
  intros Hp Hn [Hs Hd Hc Ho Hl]. unfold Mis.penalize. cbv zeta. rewrite i32_id by (unfold in_s; lia).
  split; [|done]. unfold Mis.DISCOURAGEMENT_THRESHOLD in *. split; unfold noban, Mis.DISCOURAGEMENT_THRESHOLD in *;
    cbn [Mis.misbehavior_score Mis.should_discourage Mis.num_unconnecting_headers_msgs Mis.unconnecting_penalized Mis.permissions];
    [lia| |lia|done|intros E; specialize (Hl E); lia].
  rewrite Hd. destruct (Mis.HasPermission _ _), (Z.leb_spec 100 (Mis.misbehavior_score d)),
    (Z.leb_spec 100 (Mis.misbehavior_score d + penalty)), (Z.ltb_spec (Mis.misbehavior_score d) 100); cbn; done || lia.
Qed.

Lemma unconnecting_ok n d : 100 * Z.of_nat (S n) < 2 ^ 31 -> mis_ok n d ->
  mis_ok (S n) (if snd (Mis.count_unconnecting d) then Mis.penalize Mis.TOO_MANY_UNCONNECTING (fst (Mis.count_unconnecting d))
                else fst (Mis.count_unconnecting d)).
Proof.
  intros Hn Hd. unfold Mis.count_unconnecting. destruct (Mis.unconnecting_penalized d) eqn:Ep.
  { cbn [fst snd]. apply (mis_ok_mono n); [lia|done]. }
  pose proof (mo_count _ _ Hd) as Hc. pose proof (mo_score _ _ Hd) as Hs. pose proof (mo_discourage _ _ Hd) as Hdd.
  rewrite i32_id by (unfold in_s; lia). cbn [fst snd]. unfold Mis.MAX_UNCONNECTING_HEADERS.
  destruct (Z.leb_spec 10 (Mis.num_unconnecting_headers_msgs d + 1)) as [H|H].
  - unfold Mis.penalize, Mis.TOO_MANY_UNCONNECTING, Mis.DISCOURAGEMENT_THRESHOLD in *. cbv zeta.
    cbn [Mis.misbehavior_score Mis.should_discourage Mis.num_unconnecting_headers_msgs Mis.unconnecting_penalized
         Mis.permissions Mis.address Mis.invalid_header_hashes].
    rewrite i32_id by (unfold in_s; lia). unfold noban in *. split; unfold Mis.DISCOURAGEMENT_THRESHOLD, noban in *;
    cbn [Mis.misbehavior_score Mis.should_discourage Mis.num_unconnecting_headers_msgs Mis.unconnecting_penalized Mis.permissions];
      [lia| |lia|done|intros _; lia]. rewrite Hdd. destruct (Mis.HasPermission _ _), (Z.leb_spec 100 (Mis.misbehavior_score d)),
    (Z.leb_spec 100 (Mis.misbehavior_score d + 100)), (Z.ltb_spec (Mis.misbehavior_score d) 100); cbn; done || lia.
  - split; cbn [Mis.misbehavior_score Mis.should_discourage Mis.num_unconnecting_headers_msgs Mis.unconnecting_penalized Mis.permissions];
      unfold noban, Mis.MAX_UNCONNECTING_HEADERS in *; cbn [Mis.permissions]; [lia|done|lia|lia|done].
Qed.

(** A data-only update keeps the invariant of all peers when it keeps it for one. *)
Lemma modify_ok (n : nat) p f peers :
  (forall d, mis_ok n d -> mis_ok (S n) (f d)) ->
  (forall q s, peers !! q = Some s -> mis_ok n (Mis.misbehavior s)) ->
  forall q s, Mis.modify p f peers !! q = Some s -> mis_ok (S n) (Mis.misbehavior s).
Proof.
  intros Hf Hp q s Hq. unfold Mis.modify in Hq. destruct (decide (q = p)) as [->|Hne].
  - rewrite lookup_alter_eq in Hq. destruct (peers !! p) as [s0|] eqn:E; [|done]. injection Hq as <-. by apply Hf, (Hp p).
  - rewrite lookup_alter_ne in Hq by done. apply (mis_ok_mono n); [lia|]. by apply (Hp q).
Qed.

Lemma mis_step_ok n peers peers' : 100 * Z.of_nat (S n) < 2 ^ 31 -> mis_step peers peers' ->
  (forall q s, peers !! q = Some s -> mis_ok n (Mis.misbehavior s)) ->
  forall q s, peers' !! q = Some s -> mis_ok (S n) (Mis.misbehavior s).
Proof.
  intros Hn Hst Hp. destruct Hst as [r p peers|p peers|p peers|p h peers|p s0 peers Hnew Hs0|p peers].
  - assert (E : report_op r p peers = Mis.modify p (Mis.penalize (penalty_of r)) peers) by by destruct r.
    rewrite E. apply modify_ok; [|done]. intros d Hd. eapply proj1, penalize_ok; [|done|done]. destruct r; (split; [reflexivity|discriminate]).
  - unfold Mis.IncrementUnconnectingHeaders. destruct (peers !! p) as [s0|] eqn:E0.
    2:{ assert (Em : Mis.modify p (fun d => fst (Mis.count_unconnecting d)) peers = peers) by (apply alter_id; intros x Hx; congruence).
        rewrite Em. intros q s Hq. apply (mis_ok_mono n); [lia|]. by apply (Hp q). }
    intros q s Hq. destruct (decide (q = p)) as [->|Hne].
    + pose proof (unconnecting_ok n _ Hn (Hp p s0 E0)) as Hu. unfold Mis.Misbehaving, Mis.modify in Hq.
      destruct (snd (Mis.count_unconnecting (Mis.misbehavior s0)));
        rewrite ?lookup_alter_eq, E0 in Hq; cbn in Hq; by injection Hq as <-.
    + apply (mis_ok_mono n); [lia|]. apply (Hp q). unfold Mis.Misbehaving, Mis.modify in Hq.
      destruct (snd _); by rewrite ?lookup_alter_ne in Hq by done.
  - apply modify_ok; [|done]. intros d [Hs Hd Hc Ho Hl]. split; cbn; [lia|exact Hd|lia|unfold Mis.MAX_UNCONNECTING_HEADERS; lia|exact Hl].
  - apply modify_ok; [|done]. intros d [Hs Hd Hc Ho Hl]. split; cbn; [lia|exact Hd|lia|exact Ho|exact Hl].
  - intros q s Hq. apply lookup_insert_Some in Hq as [[<- <-]|[_ Hq]].
    + rewrite Hs0. split; cbn; [lia|by rewrite andb_false_r|lia|unfold Mis.MAX_UNCONNECTING_HEADERS; lia|done].
    + apply (mis_ok_mono n); [lia|]. by apply (Hp q).
  - intros q s Hq. apply lookup_delete_Some in Hq as [_ Hq]. apply (mis_ok_mono n); [lia|]. by apply (Hp q).
Qed.

Lemma reach_ok n peers : mis_reach n peers -> 100 * Z.of_nat n < 2 ^ 31 ->
  forall q s, peers !! q = Some s -> mis_ok n (Mis.misbehavior s).
Proof.
  induction 1 as [|n peers peers' _ IH Hst]; intros Hn; [intros q s Hq; by rewrite lookup_empty in Hq|].
  apply (mis_step_ok n peers peers'); [done|done|]. apply IH. lia.
Qed.

(** in every state reachable by fewer than 21,474,836 operations (no score can overflow), a peer is marked
    for disconnection exactly when its score has reached 100 and it has no NoBan permission, a peer without the
    unconnecting-headers penalty has sent fewer than ten unconnecting messages in a row, and that penalty is
    applied once, with a score of at least 100 from then on. *)
Theorem misbehavior_invariant (n : nat) (peers : Mis.peer_map) (p : Z) (s : Mis.PerPeerState) :
  mis_reach n peers -> 100 * Z.of_nat n < 2 ^ 31 -> peers !! p = Some s ->
  let d := Mis.misbehavior s in
  Mis.ShouldDisconnect p peers = negb (noban d) && (Mis.DISCOURAGEMENT_THRESHOLD <=? Mis.GetMisbehaviorScore p peers) /\
  0 <= Mis.GetMisbehaviorScore p peers <= 100 * Z.of_nat n /\
  (Mis.unconnecting_penalized d = false -> 0 <= Mis.num_unconnecting_headers_msgs d < Mis.MAX_UNCONNECTING_HEADERS) /\
  (Mis.unconnecting_penalized d = true -> Mis.DISCOURAGEMENT_THRESHOLD <= Mis.GetMisbehaviorScore p peers).
Proof.
  intros Hr Hn Hp d. destruct (reach_ok n peers Hr Hn p s Hp) as [Hs Hd Hc Ho Hl]. fold d in Hs, Hd, Hc, Ho, Hl.
  unfold Mis.ShouldDisconnect, Mis.GetMisbehaviorScore. rewrite Hp. fold d. fold (noban d). split_and!; try done.
  - rewrite Hd. by destruct (noban d).
  - lia.
  - lia.
  - intros E. specialize (Ho E). lia.
Qed.

(** A peer that sends ten unconnecting messages. *)
Fixpoint unconnecting_times (k : nat) (p : Z) (peers : Mis.peer_map) : Mis.peer_map :=
  match k with O => peers | S k => Mis.IncrementUnconnectingHeaders p (unconnecting_times k p peers) end.
Definition fresh_peer (perms : Z) : Mis.PerPeerState := Mis.mkPeer false false true false (Mis.new_data perms []).

Lemma unconnecting_reach k p peers n : mis_reach n peers -> mis_reach (k + n) (unconnecting_times k p peers).
Proof. intros Hr. induction k; [done|]. cbn. econstructor; [done|constructor]. Qed.

Lemma misbehavior_invariant_witness :
  Mis.ShouldDisconnect 7 (unconnecting_times 10 7 {[7 := fresh_peer 0]}) = true.
Proof.
  assert (Hr : mis_reach (10 + 1) (unconnecting_times 10 7 {[7 := fresh_peer 0]})).
  { apply unconnecting_reach. apply (ReachStep 0 ∅); [constructor|]. by apply StepJoin. }
  destruct (unconnecting_times 10 7 {[7 := fresh_peer 0]} !! 7) as [s|] eqn:E; [|by vm_compute in E].
  destruct (misbehavior_invariant _ _ 7 s Hr ltac:(cbn; lia) E) as [-> _].
  vm_compute in E. injection E as <-. reflexivity.
Defined.
