(* ===== verification/HeaderSync.v ===== *)
(** * HeaderSync: header synchronisation ([network/header_sync_manager.hpp/.cpp])

    The synchronisation manager with the chain state it drives and the peers it talks to.
    All its functions run on one thread, so each is one step on the state.  Messages sent,
    peers removed and chain notifications are the list of outputs.  A peer that is no longer in
    the map is disconnected: nothing is sent to it.  The handler reads the clock as [now]; the
    acceptance of the i-th header of a batch reads [clock i] (the clock and the adjusted time). *)
From stdpp Require Import strings.
From S2P Require Import Prelude Arith Bytes Compact Sha256 Block BlockIndex Chain ChainParams Pow RandomX Validation.
From S2P Require Import ChainSelector BlockManager Persist Chainstate Activation Protocol Message Misbehavior.
#[local] Open Scope Z_scope.
Import Idx (CBlockIndex, mkIndex, nHeight, pprev, pskip, nChainWork, nStatus, nTimeMax, nTimeReceived).

Inductive output :=
| Send (peer_id : Z) (msg : Message)
| Removed (peer_id : Z) (discouraged : option (list Z))
| Notify (e : event).

Record SyncState := mkSS { sync_peer_id : Z; sync_start_time_us : Z; last_headers_received_us : Z }.

(** [class HeaderSyncManager] with its two components. *)
Record SyncManager := mkSync {
  chainstate_manager_ : Chainstate;
  peer_states_ : Mis.peer_map;
  sync_state_ : SyncState;
  last_batch_size_ : nat;
  peers_shutting_down_ : bool     (** [shutting_down_] of the peer manager *)
}.

Module Sync.

Definition kMicrosPerSecond : Z := 1000000.
Definition kHeadersSyncTimeoutUs : Z := 120 * kMicrosPerSecond.
Definition kMaxUnsolicitedAnnouncement : nat := 2.
Definition NO_SYNC_PEER : Z := 2 ^ 64 - 1.

(** Single-field updates. *)
Definition with_chain (c : Chainstate) (n : SyncManager) : SyncManager :=
  mkSync c (peer_states_ n) (sync_state_ n) (last_batch_size_ n) (peers_shutting_down_ n).
Definition with_peers (f : Mis.peer_map -> Mis.peer_map) (n : SyncManager) : SyncManager :=
  mkSync (chainstate_manager_ n) (f (peer_states_ n)) (sync_state_ n) (last_batch_size_ n) (peers_shutting_down_ n).
Definition with_sync (f : SyncState -> SyncState) (n : SyncManager) : SyncManager :=
  mkSync (chainstate_manager_ n) (peer_states_ n) (f (sync_state_ n)) (last_batch_size_ n) (peers_shutting_down_ n).
Definition with_batch (k : nat) (n : SyncManager) : SyncManager :=
  mkSync (chainstate_manager_ n) (peer_states_ n) (sync_state_ n) k (peers_shutting_down_ n).

(** ** The synchronisation peer *)

Definition GetSyncPeerId (n : SyncManager) : Z := sync_peer_id (sync_state_ n).
Definition HasSyncPeer (n : SyncManager) : bool := negb (GetSyncPeerId n =? NO_SYNC_PEER).
Definition SetSyncPeer (now peer_id : Z) : SyncManager -> SyncManager :=
  let now_us := i64 (now * kMicrosPerSecond) in with_sync (fun _ => mkSS peer_id now_us now_us).
Definition ClearSyncPeer : SyncManager -> SyncManager :=
  with_sync (fun s => mkSS NO_SYNC_PEER 0 (last_headers_received_us s)).

Definition set_sync_started (b : bool) (s : Mis.PerPeerState) : Mis.PerPeerState :=
  Mis.mkPeer (Mis.is_inbound s) (Mis.is_feeler s) (Mis.successfully_connected s) b (Mis.misbehavior s).

(** [PeerLifecycleManager::get_outbound_peers]: sorted by id. *)
Definition get_outbound_peers (peers : Mis.peer_map) : list Z :=
  List.filter (fun p => match peers !! p with Some s => negb (Mis.is_inbound s) | None => false end)
    (merge_sort Z.le ((map_to_list peers).*1)).

(** [OnPeerDisconnected]: the sync state and the flags of the outbound peers are reset. *)
Definition OnPeerDisconnected (peer_id : Z) (n : SyncManager) : SyncManager :=
  if GetSyncPeerId n =? peer_id then
    with_peers (fun peers => foldl (fun peers p => alter (set_sync_started false) p peers) peers (get_outbound_peers peers))
      (ClearSyncPeer n)
  else n.

(** [PeerLifecycleManager::remove_peer], with the discouraged address before its normalisation; the address manager's update is
    left out.  Once the peer manager is shutting down the removal is not published. *)
Definition remove_peer (peer_id : Z) (n : SyncManager) : SyncManager * list output :=
  match peer_states_ n !! peer_id with
  | None => (n, [])
  | Some s =>
      let discouraged := if Mis.should_discourage (Mis.misbehavior s) then Some (Mis.address (Mis.misbehavior s)) else None in
      let n := with_peers (delete peer_id) n in
      (if peers_shutting_down_ n then n else OnPeerDisconnected (u64 peer_id) n, [Removed peer_id discouraged])
  end.

(** The check that follows every report. *)
Definition drop_if_bad (peer_id : Z) (n : SyncManager) : SyncManager * list output :=
  if Mis.ShouldDisconnect peer_id (peer_states_ n) then remove_peer peer_id n else (n, []).

(** [ProcessTimers]. *)
Definition ProcessTimers (now : Z) (n : SyncManager) : SyncManager * list output :=
  let sync_id := GetSyncPeerId n in
  let last_us := last_headers_received_us (sync_state_ n) in
  if sync_id =? NO_SYNC_PEER then (n, [])
  else
    let now_us := i64 (now * kMicrosPerSecond) in
    if (0 <? last_us) && (kHeadersSyncTimeoutUs <? i64 (now_us - last_us)) then remove_peer (i32 sync_id) n
    else (n, []).

(** ** Requesting headers *)

(** Sending to a peer that is gone does nothing. *)
Definition send (peer_id : Z) (msg : Message) (n : SyncManager) : list output :=
  if bool_decide (is_Some (peer_states_ n !! peer_id)) then [Send peer_id msg] else [].

Definition GetLocatorFromPrev (c : Chainstate) : option CBlockLocator :=
  match CS.tip c with
  | None => Act.GetLocator c None
  | Some t =>
      match deref pprev None (CS.index c) t with
      | Some q => Act.GetLocator c (Some q)
      | None => Act.GetLocator c None
      end
  end.

(** [RequestHeadersFromPeer]: outer [None] is a failure inside the locator. *)
Definition RequestHeadersFromPeer (peer_id : Z) (n : SyncManager) : option (list output) :=
  match GetLocatorFromPrev (chainstate_manager_ n) with
  | None => None
  | Some locator =>
      Some (send peer_id (MGetHeaders (mkGetHeaders Proto.PROTOCOL_VERSION (vHave locator) (replicate 32 0))) n)
  end.

(** [CheckInitialSync]: the first eligible outbound peer. *)
Definition eligible (peers : Mis.peer_map) (p : Z) : bool :=
  match peers !! p with
  | Some s => negb (Mis.sync_started s) && negb (Mis.is_feeler s) && Mis.successfully_connected s
  | None => false
  end.

Definition CheckInitialSync (now : Z) (n : SyncManager) : option (SyncManager * list output) :=
  if HasSyncPeer n then Some (n, [])
  else match head (List.filter (eligible (peer_states_ n)) (get_outbound_peers (peer_states_ n))) with
  | None => Some (n, [])
  | Some p =>
      let n := SetSyncPeer now (u64 p) n in
      let n := with_peers (alter (set_sync_started true) p) n in
      match RequestHeadersFromPeer p n with
      | Some out => Some (n, out)
      | None => None
      end
  end.

Definition ShouldRequestMore (n : SyncManager) : bool := Z.of_nat (last_batch_size_ n) =? Proto.MAX_HEADERS_SIZE.

Definition IsSynced (now max_age_seconds : Z) (n : SyncManager) : bool :=
  let c := chainstate_manager_ n in
  match CS.tip c with
  | None => false
  | Some t => i64 (now - deref Idx.nTime 0 (CS.index c) t) <? max_age_seconds
  end.

(** ** [HandleHeadersMessage] *)

(** The reject reasons that are penalised. *)
Definition invalid_reasons : list string :=
  ["high-hash"; "bad-diffbits"; "time-too-old"; "time-too-new"; "bad-version"; "bad-prevblk"; "bad-genesis";
   "genesis-via-accept"]%string.

(** A report that ends the handler: penalty, possible removal, no sync peer, [return false]. *)
Definition punish (report : Mis.peer_map -> Mis.peer_map) (peer_id : Z) (n : SyncManager) (out : list output)
  : bool * SyncManager * list output :=
  let n := with_peers report n in
  let '(n, o) := drop_if_bad peer_id n in
  (false, ClearSyncPeer n, out ++ o).

(** How the loop goes on after a rejected header. *)
Inductive verdict :=
| Continue (n : SyncManager)
| Stop (r : bool * SyncManager * list output).

Section Handle.
Context `{HeaderChecks} (params : ChainParams) (now : Z) (clock : nat -> Z * Z).

(** One rejected header. *)
Definition handle_reject (t : Z) (peer_id : Z) (skip_dos_checks : bool) (header : CBlockHeader) (state : ValidationState)
  (n : SyncManager) (out : list output) : verdict :=
  let reason := reject_reason_ state in
  let h := Header.GetHash header in
  let c := chainstate_manager_ n in
  if bool_decide (reason = "prev-blk-not-found"%string) then
    let '(ok, c) := CS.AddOrphanHeader params t header peer_id c in
    let n := with_chain c n in
    if ok then Continue n else Stop (punish (Mis.ReportTooManyOrphans peer_id) peer_id n out)
  else if bool_decide (reason = "duplicate"%string) then
    if skip_dos_checks then Continue n
    else if match CS.index c !! h with Some b => Idx.IsValid b BLOCK_VALID_TREE | None => false end then Continue n
    else if Mis.HasInvalidHeaderHash peer_id h (peer_states_ n) then Continue n
    else Stop (punish (fun peers => Mis.NoteInvalidHeaderHash peer_id h (Mis.ReportInvalidHeader peer_id peers)) peer_id n out)
  else if bool_decide (reason ∈ invalid_reasons) then
    if Mis.HasInvalidHeaderHash peer_id h (peer_states_ n) then Continue n
    else Stop (punish (fun peers => Mis.NoteInvalidHeaderHash peer_id h (Mis.ReportInvalidHeader peer_id peers)) peer_id n out)
  else Stop (false, ClearSyncPeer n, out).

(** The acceptance loop; [inl] is an early return. *)
Fixpoint accept_headers (i : nat) (headers : list CBlockHeader) (peer_id : Z) (skip_dos_checks : bool) (n : SyncManager)
  (out : list output) : option ((bool * SyncManager * list output) + SyncManager) :=
  match headers with
  | [] => Some (inr n)
  | header :: rest =>
      match CS.AcceptBlockHeader params (fst (clock i)) (snd (clock i)) (chainstate_manager_ n) header Val.fresh true with
      | None => None
      | Some (Some p, _, c) =>
          match Act.TryAddBlockIndexCandidate c (Some p) with
          | None => None
          | Some c => accept_headers (S i) rest peer_id skip_dos_checks (with_chain c n) out
          end
      | Some (None, state, c) =>
          match handle_reject (fst (clock i)) peer_id skip_dos_checks header state (with_chain c n) out with
          | Continue n => accept_headers (S i) rest peer_id skip_dos_checks n out
          | Stop r => Some (inl r)
          end
      end
  end.

(** After the loop: one activation for the batch, then possibly the next request. *)
Definition finish_batch (peer_id : Z) (n : SyncManager) (out : list output) : option (bool * SyncManager * list output) :=
  match Act.ActivateBestChain (chainstate_manager_ n) None with
  | None => None
  | Some (ok, c, events) =>
      let n := with_chain c n in
      let out := out ++ (Notify <$> events) in
      if negb ok then Some (false, ClearSyncPeer n, out)
      else
        let '(_, c) := Act.IsInitialBlockDownload params now (chainstate_manager_ n) in
        let n := with_chain c n in
        if ShouldRequestMore n then
          match RequestHeadersFromPeer peer_id n with
          | Some o => Some (true, n, out ++ o)
          | None => None
          end
        else Some (true, n, out)
  end.

(** The checks on a connecting, continuous batch: [Some true] to go on, [Some false] when it is low on
    work and must be ignored or followed by a request. *)
Definition enough_work (headers : list CBlockHeader) (skip_dos_checks : bool) (n : SyncManager) : bool * SyncManager :=
  let c := chainstate_manager_ n in
  match head headers with
  | None => (true, n)
  | Some first =>
      if skip_dos_checks then (true, n)
      else match CS.index c !! hashPrevBlock first with
      | None => (true, n)
      | Some chain_start =>
          let total_work := au_add (BITS := 256) (nChainWork chain_start) (Val.CalculateHeadersWork headers) in
          let tip := match CS.tip c with Some t => CS.index c !! t | None => None end in
          let '(ibd, c) := Act.IsInitialBlockDownload params now c in
          let minimum_work := Val.GetAntiDoSWorkThreshold tip params ibd in
          (negb (total_work <? minimum_work), with_chain c n)
      end
  end.

(** From the first check of the contents on. *)
Definition process_batch (peer_id : Z) (headers : list CBlockHeader) (first : CBlockHeader) (skip_dos_checks : bool)
  (n : SyncManager) : option (bool * SyncManager * list output) :=
  let prev_exists := bool_decide (is_Some (CS.index (chainstate_manager_ n) !! hashPrevBlock first)) in
  let '(n, out) :=
    if prev_exists then (with_peers (Mis.ResetUnconnectingHeaders peer_id) n, [])
    else drop_if_bad peer_id (with_peers (Mis.IncrementUnconnectingHeaders peer_id) n) in
  match Act.CheckHeadersPoW headers with
  | None => None
  | Some false => Some (punish (Mis.ReportInvalidPoW peer_id) peer_id n out)
  | Some true =>
      if negb (Val.CheckHeadersAreContinuous headers) then
        Some (punish (Mis.ReportNonContinuousHeaders peer_id) peer_id n out)
      else
        let '(enough, n) := enough_work headers skip_dos_checks n in
        if negb enough then
          if negb (Z.of_nat (length headers) =? Proto.MAX_HEADERS_SIZE) then Some (true, n, out)
          else match RequestHeadersFromPeer peer_id n with
          | Some o => Some (true, n, out ++ o)
          | None => None
          end
        else
          match accept_headers 0 headers peer_id skip_dos_checks (with_batch (length headers) n) out with
          | None => None
          | Some (inl r) => Some r
          | Some (inr n) => finish_batch peer_id n out
          end
  end.

Definition HandleHeadersMessage (peer_id : Z) (headers : list CBlockHeader) (n : SyncManager)
  : option (bool * SyncManager * list output) :=
  let '(ibd, c) := Act.IsInitialBlockDownload params now (chainstate_manager_ n) in
  let n := with_chain c n in
  let sync_id := GetSyncPeerId n in
  if ibd && (kMaxUnsolicitedAnnouncement <? length headers)%nat &&
     ((sync_id =? NO_SYNC_PEER) || negb (u64 peer_id =? sync_id)) then Some (true, n, [])
  else
    let skip_dos_checks :=
      match last headers with
      | None => false
      | Some l => Act.IsOnActiveChain c (BM.LookupBlockIndex (CS.index c) (Header.GetHash l))
      end in
    let n := with_sync (fun s => mkSS (sync_peer_id s) (sync_start_time_us s) (i64 (now * kMicrosPerSecond))) n in
    match headers with
    | [] => Some (true, n, [])
    | first :: _ =>
        if Proto.MAX_HEADERS_SIZE <? Z.of_nat (length headers) then
          Some (punish (Mis.ReportOversizedMessage peer_id) peer_id n [])
        else process_batch peer_id headers first skip_dos_checks n
    end.
End Handle.

(** ** [HandleGetHeadersMessage] *)

(** The first locator hash on the active chain. *)
Fixpoint find_fork (c : Chainstate) (locator : list uint256) : option block_ptr :=
  match locator with
  | [] => None
  | hash :: rest =>
      let pindex := BM.LookupBlockIndex (CS.index c) hash in
      if Act.IsOnActiveChain c pindex then pindex else find_fork c rest
  end.

(** From the tip back to the block without parent. *)
Fixpoint walk_to_root (fuel : nat) (m : block_map) (p : block_ptr) : option block_ptr :=
  match deref pprev None m p with
  | None => Some p
  | Some q => match fuel with O => None | S fuel => walk_to_root fuel m q end
  end.

(** The response loop, with the number of headers that still fit. *)
Fixpoint collect_headers (room : nat) (c : Chainstate) (stop_hash : uint256) (pindex : option block_ptr) : list CBlockHeader :=
  match room, pindex with
  | S room, Some p =>
      match CS.index c !! p with
      | None => []
      | Some b =>
          Idx.GetBlockHeader b ::
          (if negb (Blob.IsNull stop_hash) && Blob.eqb p stop_hash then []
           else if bool_decide (CS.tip c = Some p) then []
           else collect_headers room c stop_hash (Act.GetBlockAtHeight c (nHeight b + 1)))
      end
  | _, _ => []
  end.

Definition HandleGetHeadersMessage (peer_id : Z) (msg : GetHeadersMessage) (n : SyncManager) : option (bool * list output) :=
  let c := chainstate_manager_ n in
  let fork :=
    match find_fork c (block_locator_hashes msg) with
    | Some f => Some (Some f)
    | None =>
        match CS.tip c with
        | None => Some None
        | Some t =>
            match walk_to_root (Z.to_nat (deref nHeight 0 (CS.index c) t)) (CS.index c) t with
            | Some r => Some (Some r)
            | None => None
            end
        end
    end in
  match fork with
  | None => None
  | Some None => Some (false, [])
  | Some (Some f) =>
      let headers := collect_headers (Z.to_nat Proto.MAX_HEADERS_SIZE) c (hash_stop msg)
                       (Act.GetBlockAtHeight c (deref nHeight 0 (CS.index c) f + 1)) in
      Some (true, send peer_id (MHeaders headers) n)
  end.

End Sync.
