(* ===== verification/HeaderSyncProps.v ===== *)
(** * HeaderSyncProps: serving and receiving headers

    What a [GETHEADERS] request is answered with, how a request and its answer fit together, and
    what [HandleHeadersMessage] does to the chain state and to the peer. *)
From stdpp Require Import strings.
From S2P Require Import Prelude Arith Bytes Compact Sha256 Block BlockIndex Chain ChainParams Pow RandomX Validation.
From S2P Require Import ChainSelector BlockManager SameTree Persist Chainstate OrphanPool Accept Activation Reorg.
From S2P Require Import Protocol Message MessageProps Misbehavior HeaderSync ChainstateProps.
#[local] Open Scope Z_scope.
Import Idx (CBlockIndex, mkIndex, nHeight, pprev, pskip, nChainWork, nStatus, nTimeMax, nTimeReceived).
Import CS.

(** ** The active chain above a block *)

(** Consecutive blocks above [f]. *)
Fixpoint chained (m : block_map) (f : block_ptr) (seg : list block_ptr) : Prop :=
  match seg with
  | [] => True
  | p :: seg => (exists b, m !! p = Some b /\ pprev b = Some f) /\ chained m p seg
  end.

Definition headers_of (m : block_map) (seg : list block_ptr) : list CBlockHeader :=
  (fun p => default Header.SetNull (Idx.GetBlockHeader <$> m !! p)) <$> seg.

Section Serve.
Context (g : uint256) (c : Chainstate) (t : block_ptr) (bt : CBlockIndex).
Context (Hwf : cs_wf g c) (Ht : index c !! t = Some bt) (Ha : active c = path (index c) t).

Local Abbreviation m := (index c).

Lemma serve_tree : tree_wf m.
Proof. apply (index_tree g), Hwf. Qed.

Lemma serve_tip : tip c = Some t.
Proof. apply (tip_of g); [apply Hwf|by eexists|done]. Qed.

(** The next block of the active chain. *)
Lemma next_block f bf : m !! f = Some bf -> ancestor m f t ->
  match Act.GetBlockAtHeight c (nHeight bf + 1) with
  | None => f = t
  | Some p => f <> t /\ ancestor m p t /\ exists b, m !! p = Some b /\ pprev b = Some f /\ nHeight b = nHeight bf + 1
  end.
Proof.
  intros Hf Haf. pose proof serve_tree as Htree.
  destruct (ancestor_height m Htree f t bt Ht Haf) as (bf' & Hf' & Hr & Eat). rewrite Hf in Hf'. injection Hf' as <-.
  unfold Act.GetBlockAtHeight, CChain.Height, CChain.at_height. rewrite Ha, (path_length m t bt Ht).
  destruct (Z.ltb_spec (nHeight bf + 1) 0); [lia|]. cbn [orb].
  destruct (Z.ltb_spec (Z.of_nat (S (Z.to_nat (nHeight bt))) - 1) (nHeight bf + 1)) as [Hlt|Hge].
  - assert (E : nHeight bf = nHeight bt) by lia. rewrite E, (ancestor_at_self m Htree t bt Ht) in Eat. congruence.
  - destruct (Z.leb_spec (Z.of_nat (S (Z.to_nat (nHeight bt)))) (nHeight bf + 1)) as [|_]; [lia|].
    destruct (path_block m Htree t bt (Z.to_nat (nHeight bf + 1)) Ht) as (p & b & -> & Hb & Hh & Ep).
    { rewrite (path_length m t bt Ht). lia. }
    rewrite Z2Nat.id in Hh, Ep by lia. split; [intros ->; rewrite Hf in Ht; injection Ht as ->; lia|].
    split; [by eapply ancestor_at_ancestor|]. exists b. split_and!; [done| |done].
    assert (Ef : ancestor_at m p (nHeight bf) = Some f).
    { rewrite <- (ancestor_at_step m Htree t bt p (nHeight bf + 1) Ht Ep (nHeight bf)) by lia. done. }
    destruct (pprev b) as [q|] eqn:Eq.
    + rewrite (ancestor_at_parent m Htree p b q (nHeight bf) Hb Eq) in Ef by lia.
      destruct (Htree p b Hb) as [_ _ Hpar _]. destruct (Hpar q Eq) as (bq & Hq & Hhq).
      assert (Eh : nHeight bf = nHeight bq) by lia. rewrite Eh, (ancestor_at_self m Htree q bq Hq) in Ef. congruence.
    + destruct (bw_root _ _ _ _ (cw_index _ _ Hwf p b Hb) Eq) as (_ & Hz & _). lia.
Qed.

(** How a response ends. *)
Definition response_ends (stop : uint256) (f : block_ptr) (room : nat) (seg : list block_ptr) : Prop :=
  default f (last seg) = t \/ length seg = room \/ (Blob.IsNull stop = false /\ last seg = Some stop).

Lemma collect_ok room stop f bf : blob_wf 32 stop -> m !! f = Some bf -> ancestor m f t ->
  exists seg, Sync.collect_headers room c stop (Act.GetBlockAtHeight c (nHeight bf + 1)) = headers_of m seg /\
    chained m f seg /\ Forall (fun p => ancestor m p t) seg /\ (length seg <= room)%nat /\
    response_ends stop f room seg.
Proof.
  intros Hst. revert f bf. induction room as [|room IH]; intros f bf Hf Haf.
  { exists []. split_and!; try done. by right; left. }
  pose proof (next_block f bf Hf Haf) as Hn. destruct (Act.GetBlockAtHeight c (nHeight bf + 1)) as [p|].
  2:{ exists []. split_and!; try done; [cbn; lia|]. by left. }
  destruct Hn as (Hne & Hap & b & Hb & Hpf & Hh). cbn [Sync.collect_headers]. rewrite Hb, serve_tip.
  destruct (negb (Blob.IsNull stop) && Blob.eqb p stop) eqn:Es.
  { apply andb_true_iff in Es as [Es1 Es2]. apply negb_true_iff in Es1.
    apply blob_eqb_eq in Es2 as ->; [|rewrite (proj1 Hst); by apply (index_key g m p b (cw_index _ _ Hwf) Hb)].
    exists [stop]. cbn [headers_of fmap list_fmap]. rewrite Hb. split_and!; try done; [cbn; eauto|by repeat constructor|cbn; lia|].
    by right; right. }
  case_bool_decide as Etip.
  { injection Etip as <-. exists [t]. cbn [headers_of fmap list_fmap]. rewrite Hb.
    split_and!; try done; [cbn; eauto|by repeat constructor|cbn; lia|by left]. }
  destruct (IH p b Hb Hap) as (seg & E & Hc & Hall & Hl & He). exists (p :: seg). rewrite E.
  split_and!; [|cbn [chained]; eauto|by constructor|cbn [length]; lia|].
  - unfold headers_of. cbn [fmap list_fmap]. by rewrite Hb.
  - destruct He as [He|[He|[He1 He2]]]; [left|right; left|right; right].
    + rewrite last_cons. by destruct (last seg).
    + cbn [length]. lia.
    + split; [done|]. by rewrite last_cons, He2.
Qed.

(** The answer passes the receiver's checks of form. *)
Lemma chained_continuous f seg : chained m f seg -> Val.CheckHeadersAreContinuous (headers_of m seg) = true /\
  match headers_of m seg with [] => True | h :: _ => hashPrevBlock h = f end /\ Forall header_wf (headers_of m seg).
Proof.
  revert f. induction seg as [|p seg IH]; intros f; [done|]. intros [(b & Hb & Hp) Hc].
  destruct (IH p Hc) as (H1 & H2 & H3). pose proof (cw_index _ _ Hwf p b Hb) as Hbw.
  assert (Ehd : headers_of m (p :: seg) = Idx.GetBlockHeader b :: headers_of m seg).
  { unfold headers_of. cbn [fmap list_fmap]. by rewrite Hb. }
  rewrite Ehd. split_and!.
  - cbn [Val.CheckHeadersAreContinuous]. destruct (headers_of m seg) as [|h2 l] eqn:E2; [done|].
    rewrite H2, <- (bw_key _ _ _ _ Hbw). unfold Blob.eqb. by rewrite blob_compare_refl.
  - unfold Idx.GetBlockHeader. cbn [hashPrevBlock]. by rewrite Hp.
  - constructor; [apply Hbw|done].
Qed.

Lemma on_active h : Act.IsOnActiveChain c (BM.LookupBlockIndex m h) = true <-> ancestor m h t /\ is_Some (m !! h).
Proof.
  unfold BM.LookupBlockIndex. destruct (m !! h) as [b|] eqn:Eb.
  - unfold Act.IsOnActiveChain. rewrite bool_decide_true by by eexists. cbn [andb]. rewrite Ha.
    rewrite (contains_path m serve_tree t bt h b Ht Eb). naive_solver.
  - split; [done|]. intros [_ [? ?]]. done.
Qed.

(** The fork point: the first locator hash on the active chain. *)
Lemma find_fork_ok locator :
  match Sync.find_fork c locator with
  | Some f => ancestor m f t /\ is_Some (m !! f) /\ exists pre post, locator = pre ++ f :: post /\ Forall (fun h => ~ ancestor m h t) pre
  | None => Forall (fun h => ~ ancestor m h t) locator
  end.
Proof.
  induction locator as [|h locator IH]; [constructor|]. cbn [Sync.find_fork].
  destruct (Act.IsOnActiveChain c (BM.LookupBlockIndex m h)) eqn:E.
  - apply on_active in E as [E1 E2]. unfold BM.LookupBlockIndex. destruct (m !! h) as [b|] eqn:Eb; [|by destruct E2].
    split_and!; [done|by rewrite Eb|]. by exists [], locator.
  - assert (Hno : ~ ancestor m h t).
    { intros Han. destruct (ancestor_height m serve_tree h t bt Ht Han) as (b & Hb & _).
      assert (Act.IsOnActiveChain c (BM.LookupBlockIndex m h) = true) by (apply on_active; split; [done|by eexists]). congruence. }
    destruct (Sync.find_fork c locator) as [f|]; [|by constructor].
    destruct IH as (H1 & H2 & pre & post & -> & H3). split_and!; [done..|]. exists (h :: pre), post. by split; [|constructor].
Qed.

Lemma walk_to_root_ok fuel p b : m !! p = Some b -> (Z.to_nat (nHeight b) <= fuel)%nat ->
  Sync.walk_to_root fuel m p = Some g.
Proof.
  revert p b. induction fuel as [|fuel IH]; intros p b Hp Hf; pose proof (cw_index _ _ Hwf p b Hp) as Hbw;
    pose proof (bw_height _ _ _ _ Hbw); cbn [Sync.walk_to_root]; rewrite (deref_eq pprev None m p b Hp);
    destruct (pprev b) as [q|] eqn:Eq; try (by destruct (bw_root _ _ _ _ Hbw Eq) as (-> & _));
    destruct (bw_parent _ _ _ _ Hbw q Eq) as (pb & Hq & Hh & _); pose proof (bw_height _ _ _ _ (cw_index _ _ Hwf q pb Hq)).
  - lia.
  - apply (IH q pb Hq). lia.
Qed.

Lemma genesis_known : is_Some (m !! g) /\ ancestor m g t.
Proof.
  pose proof (bw_height _ _ _ _ (cw_index _ _ Hwf t bt Ht)) as Hh.
  destruct (ancestor_at_some m serve_tree t bt 0 Ht ltac:(lia)) as (q & b & Eq & Hq & Hz).
  assert (q = g) as ->.
  { destruct (pprev b) as [r|] eqn:Er; [|by apply (bw_root _ _ _ _ (cw_index _ _ Hwf q b Hq) Er)].
    destruct (bw_parent _ _ _ _ (cw_index _ _ Hwf q b Hq) r Er) as (pb & Hr & Hh' & _).
    pose proof (bw_height _ _ _ _ (cw_index _ _ Hwf r pb Hr)). lia. }
  split; [by eexists|by eapply ancestor_at_ancestor].
Qed.

Definition fork_of (locator : list uint256) : block_ptr := default g (Sync.find_fork c locator).

Lemma fork_of_ok locator : ancestor m (fork_of locator) t /\ is_Some (m !! fork_of locator).
Proof.
  unfold fork_of. pose proof (find_fork_ok locator) as H. destruct (Sync.find_fork c locator) as [f|]; cbn [default].
  - by destruct H as (? & ? & _).
  - destruct genesis_known. done.
Qed.

Lemma get_headers_ok p msg n : chainstate_manager_ n = c -> is_Some (peer_states_ n !! p) -> blob_wf 32 (hash_stop msg) ->
  exists seg, Sync.HandleGetHeadersMessage p msg n = Some (true, [Send p (MHeaders (headers_of m seg))]) /\
    chained m (fork_of (block_locator_hashes msg)) seg /\ Forall (fun q => ancestor m q t) seg /\
    (length seg <= 2000)%nat /\ response_ends (hash_stop msg) (fork_of (block_locator_hashes msg)) 2000 seg.
Proof.
  intros En Hp Hs. destruct (fork_of_ok (block_locator_hashes msg)) as [Hf1 [bf Hf2]].
  destruct (collect_ok 2000 (hash_stop msg) _ bf Hs Hf2 Hf1) as (seg & E & H1 & H2 & H3 & H4). exists seg.
  split; [|done]. unfold Sync.HandleGetHeadersMessage. rewrite En.
  assert (Ew : match Sync.find_fork c (block_locator_hashes msg) with
    | Some f => Some (Some f)
    | None => match tip c with
      | None => Some None
      | Some t0 => match Sync.walk_to_root (Z.to_nat (deref nHeight 0 m t0)) m t0 with Some r => Some (Some r) | None => None end
      end end = Some (Some (fork_of (block_locator_hashes msg)))).
  { unfold fork_of. destruct (Sync.find_fork c _); [done|]. rewrite serve_tip, (deref_eq nHeight 0 m t bt Ht).
    by rewrite (walk_to_root_ok _ t bt Ht). }
  rewrite Ew, (deref_eq nHeight 0 m _ bf Hf2). change (Z.to_nat Proto.MAX_HEADERS_SIZE) with 2000%nat. rewrite E.
  unfold Sync.send. by rewrite bool_decide_true.
Qed.
End Serve.

(** ** Claims on serving *)

(** a GETHEADERS message is answered with one HEADERS message: the headers of the blocks of the active chain that
    follow, in order and without gap, the first block of the locator that is on the active chain (the genesis
    block when there is none), at most 2000, ending at the tip, at the stop hash or at the limit.  The message is
    within the protocol's limits and passes the continuity check of its receiver. *)
Theorem get_headers_exact (g : uint256) (c : Chainstate) (t : block_ptr) (p : Z) (msg : GetHeadersMessage) (n : SyncManager) :
  cs_wf g c -> tip c = Some t -> chainstate_manager_ n = c -> is_Some (peer_states_ n !! p) -> blob_wf 32 (hash_stop msg) ->
  let f := fork_of g c (block_locator_hashes msg) in
  exists seg, Sync.HandleGetHeadersMessage p msg n = Some (true, [Send p (MHeaders (headers_of (index c) seg))]) /\
    chained (index c) f seg /\ Forall (fun q => ancestor (index c) q t) seg /\ response_ends t (hash_stop msg) f 2000 seg /\
    msg_wf (MHeaders (headers_of (index c) seg)) /\ Val.CheckHeadersAreContinuous (headers_of (index c) seg) = true.
Proof.
  intros Hwf Ht En Hp Hs f. destruct (tip_at g c t Hwf Ht) as (_ & [bt Hbt] & Ha).
  destruct (get_headers_ok g c t bt Hwf Hbt Ha p msg n En Hp Hs) as (seg & E & H1 & H2 & H3 & H4). exists seg.
  destruct (chained_continuous g c Hwf _ seg H1) as (C1 & _ & C3).
  split_and!; try done. cbn [msg_wf]. split; [|done]. unfold headers_of. rewrite length_fmap. unfold Proto.MAX_HEADERS_SIZE. lia.
Qed.

(** ** Requests *)

Lemma descent_known m p l : tree_wf m -> descent m p l ->
  Forall (fun q => is_Some (m !! q) /\ ancestor m q p) l.
Proof.
  intros Hwf. induction 1 as [p b Hp _|p b q b' l Hp Hq _ Ha _ IH].
  - constructor; [|constructor]. split; [by eexists|apply ancestor_refl].
  - constructor; [split; [by eexists|apply ancestor_refl]|]. eapply Forall_impl; [exact IH|].
    intros x [H1 H2]. split; [done|]. by eapply ancestor_trans.
Qed.

Lemma locator_ok m p b : tree_wf m -> m !! p = Some b -> nHeight b < 2 ^ 31 ->
  exists l, CChain.GetLocator_of m (Some p) = Some (mkLocator l) /\ Forall (fun q => is_Some (m !! q) /\ ancestor m q p) l /\
    (length l <= 43)%nat.
Proof.
  intros Hwf Hp Hh. unfold CChain.GetLocator_of, CChain.LocatorEntries. rewrite (deref_eq nHeight 0 m p b Hp).
  destruct (Hwf p b Hp) as [Hn _ _ _].
  destruct (Locator_loop_ok m Hwf (S (Z.to_nat (nHeight b))) p b 1 [] Hp ltac:(lia) ltac:(lia)) as (l & E & Hd).
  destruct (Locator_loop_first m Hwf (S (Z.to_nat (nHeight b))) p b [] Hp ltac:(cbn; lia) ltac:(lia) Hh) as (l' & E' & Hl).
  rewrite E in E'. injection E' as <-. exists l. cbn [app] in *. rewrite E. split_and!; [done|by eapply descent_known|done].
Qed.

Section Request.
Context (g : uint256) (c : Chainstate) (t : block_ptr) (bt : CBlockIndex).
Context (Hwf : cs_wf g c) (Ht : index c !! t = Some bt) (Ha : active c = path (index c) t) (Hh : nHeight bt < 2 ^ 31).

Lemma locator_from_prev : exists l, Sync.GetLocatorFromPrev c = Some (mkLocator l) /\
  Forall (fun q => is_Some (index c !! q) /\ ancestor (index c) q t) l /\ (length l <= 43)%nat.
Proof.
  pose proof (serve_tree g c Hwf) as Htree. unfold Sync.GetLocatorFromPrev. rewrite (serve_tip g c t bt Hwf Ht Ha).
  rewrite (deref_eq pprev None _ t bt Ht). destruct (pprev bt) as [q|] eqn:Eq.
  - destruct (Htree t bt Ht) as [_ _ Hpar _]. destruct (Hpar q Eq) as (bq & Hq & Hhq).
    destruct (locator_ok (index c) q bq Htree Hq ltac:(lia)) as (l & E & Hl & Hlen). exists l. split_and!; [exact E| |done].
    eapply Forall_impl; [exact Hl|]. intros x [H1 H2]. split; [done|]. eapply ancestor_trans; [exact H2|by eapply ancestor_parent].
  - destruct (locator_ok (index c) t bt Htree Ht Hh) as (l & E & Hl & Hlen). exists l. split_and!; [|done|done].
    unfold Act.GetLocator, CChain.GetLocator. change (CChain.Tip (active c)) with (tip c). by rewrite (serve_tip g c t bt Hwf Ht Ha).
Qed.

Definition request_of (l : list uint256) : GetHeadersMessage := mkGetHeaders Proto.PROTOCOL_VERSION l (replicate 32 0).

Lemma request_ok p n : chainstate_manager_ n = c ->
  exists l, Sync.RequestHeadersFromPeer p n = Some (Sync.send p (MGetHeaders (request_of l)) n) /\
    Forall (fun q => is_Some (index c !! q) /\ ancestor (index c) q t) l /\ msg_wf (MGetHeaders (request_of l)).
Proof.
  intros En. destruct locator_from_prev as (l & E & Hl & Hlen). exists l. unfold Sync.RequestHeadersFromPeer. rewrite En, E.
  split_and!; [done|done|]. cbn [msg_wf gversion hash_stop block_locator_hashes request_of].
  split; [unfold in_u, Proto.PROTOCOL_VERSION; lia|]. split; [apply (setnull_wf 32)|].
  split; [unfold Proto.MAX_LOCATOR_SZ; lia|].
  eapply Forall_impl; [exact Hl|]. intros q [[b Hb] _]. by apply (index_key g (index c) q b), Hb; apply Hwf.
Qed.
End Request.

Lemma headers_of_last m f seg : chained m f seg -> (forall p b, m !! p = Some b -> p = Header.GetHash (Idx.GetBlockHeader b)) ->
  Header.GetHash <$> last (headers_of m seg) = last seg.
Proof.
  intros Hc Hk. unfold headers_of. rewrite fmap_last. destruct (last seg) as [p|] eqn:E; [|done]. cbn.
  assert (Hp : exists b, m !! p = Some b).
  { clear Hk. revert f Hc p E. induction seg as [|x seg IH]; intros f Hc p E; [done|]. destruct Hc as [(b & Hb & _) Hc].
    rewrite last_cons in E. destruct (last seg) as [y|] eqn:E2; [|injection E as <-; by exists b].
    injection E as <-. by apply (IH x Hc). }
  destruct Hp as [b Hb]. rewrite Hb. cbn. f_equal. symmetry. by apply Hk.
Qed.

(** The headers of known blocks are those of the blocks. *)
Lemma headers_of_active g c t seg f : cs_wf g c -> chained (index c) f seg -> Forall (fun q => ancestor (index c) q t) seg ->
  Forall (fun h => exists b, index c !! Header.GetHash h = Some b /\ Idx.GetBlockHeader b = h /\ ancestor (index c) (Header.GetHash h) t) (headers_of (index c) seg).
Proof.
  intros Hc. revert f. induction seg as [|x seg IH]; intros f Hch Ha; [constructor|]. destruct Hch as [(b & Hb & _) Hch]. apply Forall_cons in Ha as [Hx Ha].
  cbn [headers_of fmap list_fmap]. constructor; [|by apply (IH x)]. rewrite Hb.
  pose proof (bw_key _ _ _ _ (cw_index _ _ Hc x b Hb)) as Hk. change (default Header.SetNull (Idx.GetBlockHeader <$> Some b)) with (Idx.GetBlockHeader b).
  exists b. by rewrite <- Hk.
Qed.

(** C8: one round of synchronisation between two nodes on the same network: the client's request is a valid message; the
    server's answer is a valid message of consecutive headers of its active chain; when it is empty, the
    client already knows the server's tip, and otherwise its first header connects to a block the client
    knows, and it ends with the server's tip or is full (2000 headers). *)
Theorem sync_round_connects (g : uint256) (server client : SyncManager) (ts tc : block_ptr) (p q : Z) :
  cs_wf g (chainstate_manager_ server) -> cs_wf g (chainstate_manager_ client) ->
  tip (chainstate_manager_ server) = Some ts -> tip (chainstate_manager_ client) = Some tc ->
  deref nHeight 0 (index (chainstate_manager_ client)) tc < 2 ^ 31 ->
  is_Some (peer_states_ server !! p) -> is_Some (peer_states_ client !! q) ->
  let known h := is_Some (index (chainstate_manager_ client) !! h) in
  exists request headers,
    Sync.RequestHeadersFromPeer q client = Some [Send q (MGetHeaders request)] /\ msg_wf (MGetHeaders request) /\
    Sync.HandleGetHeadersMessage p request server = Some (true, [Send p (MHeaders headers)]) /\ msg_wf (MHeaders headers) /\
    Val.CheckHeadersAreContinuous headers = true /\
    match headers with
    | [] => known ts
    | first :: _ => known (hashPrevBlock first)
    end /\
    (headers <> [] -> length headers = 2000%nat \/ Header.GetHash <$> last headers = Some ts) /\
    Forall (fun h => exists b, index (chainstate_manager_ server) !! Header.GetHash h = Some b /\ Idx.GetBlockHeader b = h /\
      ancestor (index (chainstate_manager_ server)) (Header.GetHash h) ts) headers.
Proof.
  intros Hs Hc Hts Htc Hh Hp Hq known. set (cs := chainstate_manager_ server) in *. set (cc := chainstate_manager_ client) in *.
  destruct (tip_at g cs ts Hs Hts) as (_ & [bs Hbs] & Has). destruct (tip_at g cc tc Hc Htc) as (_ & [bc Hbc] & Hac).
  rewrite (deref_eq nHeight 0 _ tc bc Hbc) in Hh.
  destruct (request_ok g cc tc bc Hc Hbc Hac Hh q client eq_refl) as (l & E & Hl & Hw). exists (request_of l).
  destruct (get_headers_ok g cs ts bs Hs Hbs Has p (request_of l) server eq_refl Hp (setnull_wf 32)) as (seg & E' & Hch & Hanc & Hlen & Hend).
  exists (headers_of (index cs) seg). destruct (chained_continuous g cs Hs _ seg Hch) as (C1 & C2 & C3).
  assert (Hf : known (fork_of g cs l)).
  { unfold known, fork_of. pose proof (find_fork_ok g cs ts bs Hs Hbs Has l) as H. destruct (Sync.find_fork cs l) as [f|]; cbn [default].
    - destruct H as (_ & _ & pre & post & -> & _). apply Forall_app in Hl as [_ Hl]. apply Forall_cons in Hl as [[Hk _] _]. done.
    - by destruct (genesis_known g cc tc bc Hc Hbc). }
  assert (Hlh : length (headers_of (index cs) seg) = length seg) by (unfold headers_of; apply length_fmap).
  split; [rewrite E; unfold Sync.send; by rewrite bool_decide_true|]. split; [done|]. split; [done|].
  split; [cbn [msg_wf]; split; [rewrite Hlh; unfold Proto.MAX_HEADERS_SIZE; lia|done]|]. split; [done|].
  split.
  - destruct (headers_of (index cs) seg) as [|h0 hs] eqn:Eh; [|by rewrite C2].
    destruct seg; [|done]. cbn in Hend. destruct Hend as [<-|[Hend|[_ Hend]]]; done.
  - split; [|by eapply headers_of_active]. intros Hne. rewrite Hlh, (headers_of_last _ _ seg Hch); [|intros x b Hb; apply (bw_key _ _ _ _ (cw_index _ _ Hs x b Hb))].
    destruct Hend as [He|[He|[He _]]]; [right|by left|discriminate He]. destruct (last seg) as [x|] eqn:El; cbn in He; [by subst|].
    apply last_None in El as ->. done.
Qed.

(** ** Receiving headers *)

(** Operations on the peers leave the chain state alone. *)
Lemma chain_on_disconnect p n : chainstate_manager_ (Sync.OnPeerDisconnected p n) = chainstate_manager_ n.
Proof. unfold Sync.OnPeerDisconnected. by destruct (_ =? _). Qed.

Lemma chain_drop p n : chainstate_manager_ (fst (Sync.drop_if_bad p n)) = chainstate_manager_ n.
Proof.
  unfold Sync.drop_if_bad, Sync.remove_peer. destruct (Mis.ShouldDisconnect _ _); [|done].
  destruct (peer_states_ n !! p); [|done]. cbn [fst]. destruct (peers_shutting_down_ _); [done|]. by rewrite chain_on_disconnect.
Qed.

Lemma chain_punish f p n out : chainstate_manager_ (snd (fst (Sync.punish f p n out))) = chainstate_manager_ n.
Proof.
  unfold Sync.punish. pose proof (chain_drop p (Sync.with_peers f n)) as H.
  destruct (Sync.drop_if_bad p (Sync.with_peers f n)) as [n' o]. cbn [fst snd] in *. exact H.
Qed.

(** What the headers [hs] may change before the best chain is activated. *)
Record progressed `{HeaderChecks} (g : uint256) `{!LawfulChecks g} (hs : list CBlockHeader) (c c' : Chainstate) : Prop := {
  pg_inv : cs_inv g c';
  pg_active : active c' = active c;
  pg_same p b : index c !! p = Some b -> index c' !! p = Some b;
  pg_from q : is_Some (index c' !! q) -> is_Some (index c !! q) \/ q ∈ Header.GetHash <$> hs \/ is_Some (m_orphan_headers c !! q);
  pg_orphans q : is_Some (m_orphan_headers c' !! q) -> is_Some (m_orphan_headers c !! q) \/ q ∈ Header.GetHash <$> hs;
  pg_total : total c' <= total c + Z.of_nat (length hs);
  pg_depth : suspicious_reorg_depth_ c' = suspicious_reorg_depth_ c
}.

Section Receive.
Context `{HeaderChecks} (g : uint256) `{!LawfulChecks g} (params : ChainParams) (now : Z) (clock : nat -> Z * Z).

Lemma progressed_refl c : cs_inv g c -> progressed g [] c c.
Proof. intros Hc. split; try done; [by left|by left|cbn; lia]. Qed.

Lemma progressed_trans hs hs' c1 c2 c3 : progressed g hs c1 c2 -> progressed g hs' c2 c3 -> progressed g (hs ++ hs') c1 c3.
Proof.
  intros [A1 A2 A3 A4 A5 A6 A7] [B1 B2 B3 B4 B5 B6 B7]. split; [exact B1|congruence|auto| | |rewrite length_app; lia|congruence].
  - intros q Hq. rewrite fmap_app, elem_of_app. destruct (B4 q Hq) as [Hq1|[Hq1|Hq1]]; [|auto|].
    + destruct (A4 q Hq1) as [?|[?|?]]; auto.
    + destruct (A5 q Hq1); auto.
  - intros q Hq. rewrite fmap_app, elem_of_app. destruct (B5 q Hq) as [Hq1|Hq1]; [|auto]. destruct (A5 q Hq1); auto.
Qed.

(** Only the latch of the initial download changes. *)
Lemma ibd_progressed c t : cs_inv g c -> progressed g [] c (snd (Act.IsInitialBlockDownload params t c)).
Proof.
  intros Hc. assert (Hl : progressed g [] c (with_ibd true c)).
  { destruct c as [b s o p f i d]. destruct Hc as ([W1 W2 W3 W4 W5 [P1 P2 P3 P4] W7] & Hs & Hi).
    split; [|done|done|by left|by left|cbn [length]; rewrite Z.add_0_r; apply Z.le_refl|done]. split_and!; [|done|done]. split; [done..| |done]. by split. }
  pose proof (progressed_refl c Hc). unfold Act.IsInitialBlockDownload. destruct (m_cached_finished_ibd c); [done|].
  destruct (tip c); [|done]. destruct (_ =? 0); [done|]. destruct (_ <? _); [done|]. by destruct (_ <? _).
Qed.

(** Caching an orphan. *)
Lemma orphan_progressed t hd p c : cs_inv g c -> header_wf hd ->
  progressed g [hd] c (snd (AddOrphanHeader params t hd p c)).
Proof.
  intros Hc Hh. unfold AddOrphanHeader. pose proof (add_orphan_inv g params t hd p c Hc Hh) as Hc'.
  pose proof (try_add_orphan_ok params t hd p c (cw_pool g c (proj1 Hc))) as Ho.
  destruct (TryAddOrphanHeader params t hd p c) as [r c']. cbn [snd] in *. destruct Ho as (_ & _ & _ & O4 & O5 & O6).
  destruct (with_orphans_fields (m_orphan_headers c') (m_peer_orphan_count c') c) as (E1 & E2 & E3 & E4 & E5).
  rewrite <- O4 in E1, E2, E3, E4, E5. split; rewrite ?E1, ?E2; try done.
  - by left.
  - intros q [x Hq]. destruct (O5 q x Hq) as [Hq'|[-> _]]; [left; by eexists|right; apply list_elem_of_here].
  - unfold total. rewrite E1. cbn [length]. lia.
  - apply E5.
Qed.

Local Abbreviation chain n := (chainstate_manager_ n).

(** A header whose chain of accumulated work has wrapped around. *)
Definition wrapped (c : Chainstate) (headers : list CBlockHeader) : Prop :=
  exists hs header c1 b, progressed g hs c c1 /\ header ∈ headers /\ index c1 !! Header.GetHash header = Some b /\ nChainWork b <= 0.

(** A rejected header. *)
Lemma reject_progressed t p skip header st n out : cs_inv g (chain n) -> header_wf header ->
  match Sync.handle_reject params t p skip header st n out with
  | Sync.Continue n' => progressed g [header] (chain n) (chain n')
  | Sync.Stop (_, n', _) => progressed g [header] (chain n) (chain n')
  end.
Proof.
  intros Hc Hh. assert (Hself : progressed g [header] (chain n) (chain n)).
  { destruct (progressed_refl (chain n) Hc) as [A1 A2 A3 A4 A5 A6 A7]. split; [done..|by left|by left|cbn [length] in *; lia|done]. }
  assert (Hpun : forall f n1, progressed g [header] (chain n) (chain n1) ->
    let '(_, n', _) := Sync.punish f p n1 out in progressed g [header] (chain n) (chain n')).
  { intros f n1 H1. pose proof (chain_punish f p n1 out) as E. destruct (Sync.punish f p n1 out) as [[r n'] o]. cbn in E.
    by rewrite E. }
  unfold Sync.handle_reject. cbv zeta. case_bool_decide.
  { pose proof (orphan_progressed t header p (chain n) Hc Hh) as Ho. destruct (AddOrphanHeader _ _ _ _ _) as [ok c']. cbn [snd] in Ho.
    destruct ok; [done|]. by apply Hpun. }
  case_bool_decide.
  { destruct skip; [done|]. destruct (match index _ !! _ with Some _ => _ | None => _ end); [done|].
    destruct (Mis.HasInvalidHeaderHash _ _ _); [done|]. by apply Hpun. }
  case_bool_decide; [|done]. destruct (Mis.HasInvalidHeaderHash _ _ _); [done|]. by apply Hpun.
Qed.

(** An accepted header. *)
Lemma accept_progressed i header c : cs_inv g c -> header_wf header -> total c < 2 ^ 31 ->
  match AcceptBlockHeader params (fst (clock i)) (snd (clock i)) c header Val.fresh true with
  | None => False
  | Some (None, _, c1) => c1 = c
  | Some (Some p, _, c1) =>
      match Act.TryAddBlockIndexCandidate c1 (Some p) with
      | Some c2 => progressed g [header] c c2
      | None => wrapped c [header]
      end
  end.
Proof.
  intros Hc Hh Ht. unfold AcceptBlockHeader.
  destruct (accept_ok g params (fst (clock i)) (snd (clock i)) (S (size (m_orphan_headers c))) c header Val.fresh true Hc Hh Ht ltac:(lia))
    as (r & st1 & c1 & -> & [Hc1 Hac Htot Hfrom Hsame] & Ho). destruct r as [p|]; [|by destruct Ho as (-> & _)].
  pose proof (outcome_block g _ c header _ true p st1 c1 Hc1 Ho) as (-> & b & Hb & Hv).
  assert (Hp : progressed g [header] c c1).
  { split; [exact Hc1|apply Hac|exact Hsame| | | |apply Hac].
    - intros q Hq. destruct (Hfrom q Hq) as [?|[->|?]]; auto. right; left. apply list_elem_of_here.
    - intros q [x Hq]. left. exists x. by apply (lookup_weaken _ _ _ _ Hq), Hac.
    - cbn [length]. lia. }
  destruct (Z.ltb_spec 0 (nChainWork b)) as [Hw|Hw].
  - destruct (try_add_ok g c1 _ b (proj1 Hc1) Hb Hw) as (s & -> & Hwf2 & _).
    destruct (with_sel_fields s c1) as (E1 & E2 & E3 & E4). destruct Hp as [P1 P2 P3 P4 P5 P6 P7].
    destruct Hc1 as (_ & Hst & Hlc).
    assert (Eo : m_orphan_headers (with_sel s c1) = m_orphan_headers c1) by by destruct c1.
    split; rewrite ?E1, ?E2, ?Eo; [|exact P2|exact P3|exact P4|exact P5|unfold total in *; by rewrite E1, Eo|congruence].
    split_and!; [done|by rewrite E1|by rewrite E1].
  - unfold Act.TryAddBlockIndexCandidate, Selector.TryAddBlockIndexCandidate. rewrite Hb.
    pose proof (bw_height _ _ _ _ (cw_index g c1 (proj1 Hc1) _ b Hb)) as Hbh.
    rewrite (proj2 (Z.leb_le _ _) Hbh), (proj2 (Z.ltb_ge _ _) Hw). cbn [negb].
    exists [header], header, c1, b. split_and!; [done|apply list_elem_of_here|done|done].
Qed.

Lemma wrapped_after hs c c1 headers rest : progressed g hs c c1 -> wrapped c1 rest -> (forall h, h ∈ rest -> h ∈ headers) -> wrapped c headers.
Proof.
  intros Hp (hs' & header & c2 & b & Hp2 & Hin & Hb & Hw) Hsub. exists (hs ++ hs'), header, c2, b.
  split_and!; [by eapply progressed_trans|by apply Hsub|done|done].
Qed.

(** The acceptance loop. *)
Lemma accept_headers_ok headers i p skip n out : cs_inv g (chain n) -> Forall header_wf headers ->
  total (chain n) + Z.of_nat (length headers) <= 2 ^ 31 ->
  match Sync.accept_headers params clock i headers p skip n out with
  | None => wrapped (chain n) headers
  | Some (inl (_, n', _)) => exists hs, progressed g hs (chain n) (chain n') /\ hs `prefix_of` headers
  | Some (inr n') => progressed g headers (chain n) (chain n')
  end.
Proof.
  revert i n. induction headers as [|header rest IH]; intros i n Hc Hh Ht; cbn [Sync.accept_headers]; [by apply progressed_refl|].
  apply Forall_cons in Hh as [Hh Hrest]. cbn [length] in Ht.
  pose proof (accept_progressed i header (chain n) Hc Hh ltac:(lia)) as Ha.
  assert (Hgo : forall n1, progressed g [header] (chain n) (chain n1) ->
    match Sync.accept_headers params clock (S i) rest p skip n1 out with
    | None => wrapped (chain n) (header :: rest)
    | Some (inl (_, n', _)) => exists hs, progressed g hs (chain n) (chain n') /\ hs `prefix_of` (header :: rest)
    | Some (inr n') => progressed g (header :: rest) (chain n) (chain n')
    end).
  { intros n1 H1. pose proof (pg_total _ _ _ _ H1) as Ht1. cbn [length] in Ht1.
    specialize (IH (S i) n1 (pg_inv _ _ _ _ H1) Hrest ltac:(lia)).
    destruct (Sync.accept_headers params clock (S i) rest p skip n1 out) as [[[[r n'] o]|n']|].
    - destruct IH as (hs & Hp & Hpre). exists (header :: hs). split; [exact (progressed_trans [header] hs _ _ _ H1 Hp)|by apply prefix_cons].
    - exact (progressed_trans [header] rest _ _ _ H1 IH).
    - eapply wrapped_after; [exact H1|exact IH|]. intros h Hin. by apply list_elem_of_further. }
  destruct (AcceptBlockHeader _ _ _ _ _ _ _) as [[[[q|] st] c1]|]; [| |done].
  - destruct (Act.TryAddBlockIndexCandidate c1 (Some q)) as [c2|]; [by apply Hgo|].
    eapply (wrapped_after []); [by apply progressed_refl|exact Ha|]. intros h Hin. apply list_elem_of_singleton in Hin as ->. apply list_elem_of_here.
  - subst c1. pose proof (reject_progressed (fst (clock i)) p skip header st (Sync.with_chain (chain n) n) out Hc Hh) as Hr.
    destruct (Sync.handle_reject _ _ _ _ _ _ _ _) as [n1|[[r n1] o]]; [by apply Hgo|].
    exists [header]. split; [done|]. apply prefix_cons, prefix_nil.
Qed.

(** What a whole message may change. *)
Record handled (headers : list CBlockHeader) (c : Chainstate) (t : block_ptr) (c' : Chainstate) : Prop := {
  hd_inv : cs_inv g c';
  hd_tip : exists t', tip c' = Some t' /\ deref nChainWork 0 (index c') t <= deref nChainWork 0 (index c') t';
  hd_same p b : index c !! p = Some b -> index c' !! p = Some b;
  hd_from q : is_Some (index c' !! q) -> is_Some (index c !! q) \/ q ∈ Header.GetHash <$> headers \/ is_Some (m_orphan_headers c !! q)
}.

Lemma progressed_handled hs headers c t c' : tip c = Some t -> progressed g hs c c' -> hs `prefix_of` headers -> handled headers c t c'.
Proof.
  intros Ht [P1 P2 P3 P4 _ _ _] [rest ->]. split; [done| |done|].
  - exists t. split; [|lia]. unfold tip in *. by rewrite P2.
  - intros q Hq. rewrite fmap_app, elem_of_app. destruct (P4 q Hq) as [?|[?|?]]; auto.
Qed.

Lemma ibd_fields c s : index (snd (Act.IsInitialBlockDownload params s c)) = index c /\
  active (snd (Act.IsInitialBlockDownload params s c)) = active c /\
  m_orphan_headers (snd (Act.IsInitialBlockDownload params s c)) = m_orphan_headers c.
Proof.
  unfold Act.IsInitialBlockDownload. destruct (m_cached_finished_ibd c); [done|]. destruct (tip c); [|done].
  destruct (_ =? 0); [done|]. destruct (_ <? _); [done|]. destruct (_ <? _); [done|]. by destruct c.
Qed.

Lemma handled_ibd headers c t c1 s : handled headers c t c1 -> handled headers c t (snd (Act.IsInitialBlockDownload params s c1)).
Proof.
  intros [H1 (t' & H2 & H2') H3 H4]. destruct (ibd_fields c1 s) as (I1 & I2 & I3).
  split; [apply (pg_inv _ _ _ _ (ibd_progressed c1 s H1))| | |]; rewrite ?I1; try done.
  exists t'. split; [|done]. unfold tip in *. by rewrite I2.
Qed.

(** The height of a block is below the number of blocks. *)
Lemma height_total c t bt : cs_inv g c -> index c !! t = Some bt -> total c <= 2 ^ 31 -> nHeight bt < 2 ^ 31.
Proof.
  intros (Hwf & _) Hb Ht. pose proof (height_size g (index c) (cw_index g c Hwf) t bt Hb) as Hs.
  pose proof (bw_height _ _ _ _ (cw_index g c Hwf t bt Hb)). unfold total in Ht. lia.
Qed.

Lemma request_total p n t : cs_inv g (chain n) -> tip (chain n) = Some t -> total (chain n) <= 2 ^ 31 ->
  is_Some (Sync.RequestHeadersFromPeer p n).
Proof.
  intros Hc Ht Htot. destruct (tip_at g (chain n) t (proj1 Hc) Ht) as (_ & [bt Hb] & Ha).
  pose proof (height_total _ _ _ Hc Hb Htot) as Hh.
  destruct (request_ok g (chain n) t bt (proj1 Hc) Hb Ha Hh p n eq_refl) as (l & -> & _). by eexists.
Qed.

Lemma finish_ok hs headers c p n out t : tip c = Some t -> progressed g hs c (chain n) -> hs `prefix_of` headers ->
  total (chain n) <= 2 ^ 31 ->
  exists n' out', Sync.finish_batch params now p n out = Some (true, n', out') /\ handled headers c t (chain n').
Proof.
  intros Ht Hp Hpre Htot. pose proof (pg_inv _ _ _ _ Hp) as Hc. assert (Ht' : tip (chain n) = Some t).
  { unfold tip in *. by rewrite (pg_active _ _ _ _ Hp). }
  pose proof (tip_at g (chain n) t (proj1 Hc) Ht') as Hat. unfold Sync.finish_batch, Act.ActivateBestChain.
  destruct (activate_loop_ok g (S (S (length (candidates (chain n))))) (chain n) t [] Hat) as (c1 & t1 & evs & -> & Hav); [lia|].
  destruct (activated_wf g (chain n) t _ c1 t1 evs Hat Hav) as [(Hwf1 & Hk1 & Ha1) Ei].
  assert (Hc1 : cs_inv g c1) by (destruct Hc as (_ & ? & ?); unfold cs_inv; rewrite Ei; by split_and!).
  assert (Hw1 : deref nChainWork 0 (index c1) t <= deref nChainWork 0 (index c1) t1).
  { rewrite Ei. destruct (av_move _ _ _ _ _ _ Hav) as [[-> _]|(f & _ & _ & Hmw & _)]; [lia|]. apply Z.ltb_lt in Hmw. lia. }
  assert (Et1 : tip c1 = Some t1) by (apply (tip_of g); [apply Hwf1|done|done]).
  assert (Hh1 : handled headers c t c1).
  { destruct (progressed_handled hs headers c t (chain n) Ht Hp Hpre) as [H1 _ H3 H4]. split; [done|by exists t1| |]; rewrite Ei; done. }
  assert (Htot1 : total c1 <= 2 ^ 31).
  { destruct (av_state _ _ _ _ _ _ Hav) as (s & _ & ->). unfold total in *. by destruct (chain n). }
  cbn [negb chainstate_manager_ Sync.with_chain].
  pose proof (handled_ibd headers c t c1 now Hh1) as Hh2. destruct (ibd_fields c1 now) as (I1 & I2 & I3).
  destruct (Act.IsInitialBlockDownload params now c1) as [ibd c2]. cbn [snd] in *.
  assert (Et2 : tip c2 = Some t1) by (unfold tip in *; by rewrite I2).
  destruct (Sync.ShouldRequestMore _); [|by eexists _, _].
  destruct (request_total p (Sync.with_chain c2 (Sync.with_chain c1 n)) t1) as [o ->]; [apply Hh2|done| |by eexists _, _].
  unfold total in *. cbn [chainstate_manager_ Sync.with_chain]. by rewrite I1, I3.
Qed.

Lemma pow_total headers : Forall header_wf headers -> is_Some (Act.CheckHeadersPoW headers).
Proof.
  induction 1 as [|hd headers Hh _ IH]; [by eexists|]. cbn [Act.CheckHeadersPoW].
  destruct (lc_pow hd Hh) as [[] ->]; [done|by eexists].
Qed.

Lemma progressed_ibd hs c c1 s : progressed g hs c c1 -> progressed g hs c (snd (Act.IsInitialBlockDownload params s c1)).
Proof.
  intros Hp. pose proof (progressed_trans hs [] _ _ _ Hp (ibd_progressed c1 s (pg_inv _ _ _ _ Hp))) as H1. by rewrite app_nil_r in H1.
Qed.

Lemma enough_progressed hs c headers skip n : progressed g hs c (chain n) ->
  progressed g hs c (chain (snd (Sync.enough_work params now headers skip n))).
Proof.
  intros Hp. unfold Sync.enough_work. destruct (head headers); [|done]. destruct skip; [done|].
  destruct (index (chain n) !! _); [|done]. pose proof (progressed_ibd hs c (chain n) now Hp) as Hi.
  by destruct (Act.IsInitialBlockDownload params now (chain n)) as [ibd c'].
Qed.

Lemma batch_ok headers first skip p c t n : tip c = Some t -> progressed g [] c (chain n) -> Forall header_wf headers ->
  total c + Z.of_nat (length headers) <= 2 ^ 31 ->
  match Sync.process_batch params now clock p headers first skip n with
  | None => wrapped c headers
  | Some (_, n', _) => handled headers c t (chain n')
  end.
Proof.
  intros Ht Hp Hh Htot. unfold Sync.process_batch.
  set (pre := if bool_decide _ then _ else Sync.drop_if_bad _ _).
  assert (Epre : chain (fst pre) = chain n) by (unfold pre; destruct (bool_decide _); [done|by rewrite chain_drop]).
  destruct pre as [n1 out1]. cbn [fst] in Epre. rewrite <- Epre in Hp.
  assert (Hpun : forall f m o, progressed g [] c (chain m) -> let '(_, n', _) := Sync.punish f p m o in handled headers c t (chain n')).
  { intros f m o Hm. pose proof (chain_punish f p m o) as E. destruct (Sync.punish f p m o) as [[r n'] o']. cbn in E. rewrite E.
    by apply (progressed_handled [] headers c t _ Ht Hm), prefix_nil. }
  destruct (pow_total headers Hh) as [[] ->]; [|by apply Hpun].
  destruct (Val.CheckHeadersAreContinuous headers); cbn [negb]; [|by apply Hpun].
  pose proof (enough_progressed [] c headers skip n1 Hp) as He. destruct (Sync.enough_work params now headers skip n1) as [enough n2].
  cbn [snd] in He. pose proof (pg_total _ _ _ _ He) as Ht2. cbn [length] in Ht2.
  assert (Hh2 : handled headers c t (chain n2)) by by apply (progressed_handled [] headers c t _ Ht He), prefix_nil.
  destruct enough; cbn [negb].
  - set (n3 := Sync.with_batch (length headers) n2). assert (E3 : chain n3 = chain n2) by done.
    pose proof (accept_headers_ok headers 0 p skip n3 out1 (pg_inv _ _ _ _ He) Hh ltac:(rewrite E3; lia)) as Ha.
    destruct (Sync.accept_headers params clock 0 headers p skip n3 out1) as [[[[r n'] o]|n']|].
    + destruct Ha as (hs & Hhs & Hpre). rewrite E3 in Hhs. pose proof (progressed_trans [] hs _ _ _ He Hhs) as H4.
      by apply (progressed_handled hs headers c t _ Ht H4).
    + rewrite E3 in Ha. pose proof (progressed_trans [] headers _ _ _ He Ha) as H4. cbn [app] in H4.
      pose proof (pg_total _ _ _ _ H4) as Ht4.
      destruct (finish_ok headers headers c p n' out1 t Ht H4 ltac:(done) ltac:(lia)) as (n5 & o5 & -> & H5). done.
    + rewrite E3 in Ha. by eapply (wrapped_after []); [exact He|exact Ha|].
  - destruct (negb _); [done|].
    assert (Et2 : tip (chain n2) = Some t) by (unfold tip in *; by rewrite (pg_active _ _ _ _ He)).
    destruct (request_total p n2 t (pg_inv _ _ _ _ He) Et2) as [o ->]; [lia|done].
Qed.

Lemma handle_headers_ok p headers n t : cs_inv g (chain n) -> tip (chain n) = Some t -> Forall header_wf headers ->
  total (chain n) + Z.of_nat (length headers) <= 2 ^ 31 ->
  match Sync.HandleHeadersMessage params now clock p headers n with
  | None => wrapped (chain n) headers
  | Some (_, n', _) => handled headers (chain n) t (chain n')
  end.
Proof.
  intros Hc Ht Hh Htot. unfold Sync.HandleHeadersMessage. pose proof (ibd_progressed (chain n) now Hc) as Hi.
  destruct (Act.IsInitialBlockDownload params now (chain n)) as [ibd c1]. cbn [snd] in Hi.
  assert (Hd : forall m, chain m = c1 -> handled headers (chain n) t (chain m)).
  { intros m ->. by apply (progressed_handled [] headers _ t _ Ht Hi), prefix_nil. }
  destruct (ibd && _ && _); [by apply Hd|]. destruct headers as [|first rest]; [by apply Hd|].
  destruct (Proto.MAX_HEADERS_SIZE <? _).
  - match goal with |- context [Sync.punish ?f ?q ?m ?o] => pose proof (chain_punish f q m o) as E; destruct (Sync.punish f q m o) as [[r n'] o'] end.
    cbn in E. by apply Hd.
  - apply batch_ok; [done|done|done|]. cbn [length] in *. lia.
Qed.
End Receive.

(** C7: whatever a peer sends in a HEADERS message, the node keeps the invariant of its chain state, its tip never loses
    work, no known block changes, and every new block is one of the message or a cached orphan.  The handler always
    returns, unless the accumulated work of an accepted header has wrapped around 2^256. *)
Theorem handle_headers_exact `{HeaderChecks} (g : uint256) `{!LawfulChecks g} (params : ChainParams) (now : Z) (clock : nat -> Z * Z)
  (p : Z) (headers : list CBlockHeader) (n : SyncManager) (t : block_ptr) :
  let c := chainstate_manager_ n in
  cs_inv g c -> tip c = Some t -> Forall header_wf headers -> total c + Z.of_nat (length headers) <= 2 ^ 31 ->
  match Sync.HandleHeadersMessage params now clock p headers n with
  | None => exists hs header c1 b, progressed g hs c c1 /\ header ∈ headers /\
      index c1 !! Header.GetHash header = Some b /\ nChainWork b <= 0
  | Some (r, n', out) =>
      let c' := chainstate_manager_ n' in
      cs_inv g c' /\
      (exists t', tip c' = Some t' /\ deref nChainWork 0 (index c') t <= deref nChainWork 0 (index c') t') /\
      (forall q b, index c !! q = Some b -> index c' !! q = Some b) /\
      (forall q, is_Some (index c' !! q) -> is_Some (index c !! q) \/ q ∈ Header.GetHash <$> headers \/ is_Some (m_orphan_headers c !! q))
  end.
Proof.
  intros c Hc Ht Hh Htot. pose proof (handle_headers_ok g params now clock p headers n t Hc Ht Hh Htot) as H1.
  destruct (Sync.HandleHeadersMessage params now clock p headers n) as [[[r n'] out]|]; [|exact H1].
  destruct H1 as [H1 H2 H3 H4]. exact (conj H1 (conj H2 (conj H3 H4))).
Qed.

(** ** Witnesses *)

(** A node at the genesis block of the regression-test network with one outbound peer. *)
Definition lone_node (params : ChainParams) : SyncManager :=
  mkSync (regtest_state params) {[7 := fresh_peer 0]} (mkSS Sync.NO_SYNC_PEER 0 0) 0 false.

Lemma regtest_tip params : tip (regtest_state params) = Some regtest_hash.
Proof. unfold regtest_state, genesis_state, tip. cbn [active block_manager_ BM.m_active_chain]. rewrite regtest_hash_eq. reflexivity. Qed.

Lemma regtest_height params : deref nHeight 0 (index (regtest_state params)) regtest_hash = 0.
Proof.
  change (index (regtest_state params)) with ({[Header.GetHash regtest_genesis := genesis_entry regtest_genesis]} : block_map).
  rewrite regtest_hash_eq. apply (deref_eq nHeight 0 _ regtest_hash (genesis_entry regtest_genesis)). apply lookup_singleton_eq.
Qed.

Lemma lone_peer params : is_Some (peer_states_ (lone_node params) !! 7).
Proof. cbn [lone_node peer_states_]. rewrite lookup_singleton_eq. by eexists. Qed.

Lemma get_headers_exact_witness :
  exists params, Params.Select 0 0 REGTEST = Some params /\
  let n := lone_node params in let c := regtest_state params in let t := regtest_hash in
  let f := fork_of regtest_hash c [] in
  exists seg, Sync.HandleGetHeadersMessage 7 (mkGetHeaders 1 [] (replicate 32 0)) n = Some (true, [Send 7 (MHeaders (headers_of (index c) seg))]) /\
    chained (index c) f seg /\ Forall (fun q => ancestor (index c) q t) seg /\ response_ends t (replicate 32 0) f 2000 seg /\
    msg_wf (MHeaders (headers_of (index c) seg)) /\ Val.CheckHeadersAreContinuous (headers_of (index c) seg) = true.
Proof.
  destruct (select_ok 0 0 REGTEST) as (params & E & _). exists params. split; [exact E|]. intros n c t f.
  exact (get_headers_exact regtest_hash c t 7 (mkGetHeaders 1 [] (replicate 32 0)) n
    (proj1 (regtest_inv params)) (regtest_tip params) eq_refl (lone_peer params) (setnull_wf 32)).
Defined.

Lemma sync_round_connects_witness :
  exists params, Params.Select 0 0 REGTEST = Some params /\
  let n := lone_node params in let known h := is_Some (index (chainstate_manager_ n) !! h) in
  exists request headers,
    Sync.RequestHeadersFromPeer 7 n = Some [Send 7 (MGetHeaders request)] /\ msg_wf (MGetHeaders request) /\
    Sync.HandleGetHeadersMessage 7 request n = Some (true, [Send 7 (MHeaders headers)]) /\ msg_wf (MHeaders headers) /\
    Val.CheckHeadersAreContinuous headers = true /\
    match headers with
    | [] => known regtest_hash
    | first :: _ => known (hashPrevBlock first)
    end /\
    (headers <> [] -> length headers = 2000%nat \/ Header.GetHash <$> last headers = Some regtest_hash) /\
    Forall (fun h => exists b, index (chainstate_manager_ n) !! Header.GetHash h = Some b /\ Idx.GetBlockHeader b = h /\
      ancestor (index (chainstate_manager_ n)) (Header.GetHash h) regtest_hash) headers.
Proof.
  destruct (select_ok 0 0 REGTEST) as (params & E & _). exists params. split; [exact E|]. intros n known.
  apply (sync_round_connects regtest_hash n n regtest_hash regtest_hash 7 7 (proj1 (regtest_inv params)) (proj1 (regtest_inv params))
    (regtest_tip params) (regtest_tip params)); [|exact (lone_peer params)|exact (lone_peer params)].
  unfold n. cbn [lone_node chainstate_manager_]. rewrite regtest_height. lia.
Defined.

#[local] Existing Instance accept_all.
#[local] Existing Instance accept_all_lawful.

Lemma handle_headers_exact_witness :
  exists params, Params.Select 0 0 REGTEST = Some params /\
  let n := lone_node params in let c := chainstate_manager_ n in let headers := [next_header] in
  match Sync.HandleHeadersMessage params 1296689000 (fun _ => (1000, 2000)) 7 headers n with
  | None => exists hs header c1 b, progressed regtest_hash hs c c1 /\ header ∈ headers /\
      index c1 !! Header.GetHash header = Some b /\ nChainWork b <= 0
  | Some (r, n', out) =>
      let c' := chainstate_manager_ n' in
      cs_inv regtest_hash c' /\
      (exists t', tip c' = Some t' /\ deref nChainWork 0 (index c') regtest_hash <= deref nChainWork 0 (index c') t') /\
      (forall q b, index c !! q = Some b -> index c' !! q = Some b) /\
      (forall q, is_Some (index c' !! q) -> is_Some (index c !! q) \/ q ∈ Header.GetHash <$> headers \/ is_Some (m_orphan_headers c !! q))
  end.
Proof.
  destruct (select_ok 0 0 REGTEST) as (params & E & _). exists params. split; [exact E|]. intros n c headers.
  apply (handle_headers_exact regtest_hash params 1296689000 (fun _ => (1000, 2000)) 7 headers n regtest_hash
    (regtest_inv params) (regtest_tip params)).
  - apply Forall_singleton. exact next_header_wf.
  - change (chainstate_manager_ n) with (regtest_state params). rewrite regtest_total. cbn [length headers]. lia.
Defined.
