(* ===== verification/SyncPeers.v ===== *)
(** * SyncPeers: the synchronisation peer and misbehaving peers

    Selection, loss and replacement of the sync peer, the punishment of peers that send bad
    batches, and the request that follows a full batch with little work. *)
From stdpp Require Import strings.
From S2P Require Import Prelude Arith Bytes Compact Sha256 Block BlockIndex Chain ChainParams Pow RandomX Validation.
From S2P Require Import ChainSelector BlockManager SameTree Persist Chainstate OrphanPool Accept Activation Reorg.
From S2P Require Import Protocol Message MessageProps Misbehavior HeaderSync ChainstateProps HeaderSyncProps.
#[local] Open Scope Z_scope.
Import Idx (CBlockIndex, mkIndex, nHeight, pprev, pskip, nChainWork, nStatus, nTimeMax, nTimeReceived).
Import CS.

(** ** Outbound peers *)

Lemma outbound_elem peers p : p ∈ Sync.get_outbound_peers peers <-> exists s, peers !! p = Some s /\ Mis.is_inbound s = false.
Proof.
  unfold Sync.get_outbound_peers. rewrite list_elem_of_In, filter_In, <- list_elem_of_In.
  rewrite (merge_sort_Permutation Z.le), list_elem_of_fmap. split.
  - intros [_ H]. destruct (peers !! p) as [s|]; [|done]. exists s. split; [done|by apply negb_true_iff].
  - intros (s & Hs & Hi). rewrite Hs, Hi. split; [|done]. exists (p, s). split; [done|by apply elem_of_map_to_list].
Qed.

Lemma filter_sorted {A} (R : A -> A -> Prop) (f : A -> bool) l : StronglySorted R l -> StronglySorted R (List.filter f l).
Proof.
  induction 1 as [|x l _ IH Hx]; cbn [List.filter]; [constructor|]. destruct (f x); [|done].
  constructor; [done|]. apply Forall_forall. intros y Hy. apply list_elem_of_In, filter_In in Hy as [Hy _].
  apply (proj1 (Forall_forall _ _) Hx). by apply list_elem_of_In.
Qed.

Lemma outbound_sorted peers : StronglySorted Z.le (Sync.get_outbound_peers peers).
Proof. apply filter_sorted, (StronglySorted_merge_sort Z.le). Qed.

Lemma reset_lookup f l peers q : (forall s, f (f s) = f s) ->
  foldl (fun (peers : Mis.peer_map) p => alter f p peers) peers l !! q =
  if decide (q ∈ l) then f <$> peers !! q else peers !! q.
Proof.
  intros Hf. revert peers. induction l as [|x l IH]; intros peers; cbn [foldl].
  { rewrite decide_False; [done|]. apply not_elem_of_nil. }
  rewrite IH. destruct (decide (q = x)) as [->|Hne].
  - rewrite lookup_alter_eq, (decide_True (P := x ∈ x :: l)) by apply list_elem_of_here.
    destruct (decide (x ∈ l)); [|done]. destruct (peers !! x); cbn; [by rewrite Hf|done].
  - rewrite lookup_alter_ne by done. destruct (decide (q ∈ l)) as [Hq|Hq].
    + rewrite decide_True; [done|]. by apply list_elem_of_further.
    + rewrite decide_False; [done|]. rewrite elem_of_cons. tauto.
Qed.

(** ** Losing a peer *)

Lemma remove_peer_ok p n s : peer_states_ n !! p = Some s ->
  let '(n', out) := Sync.remove_peer p n in
  chainstate_manager_ n' = chainstate_manager_ n /\ peer_states_ n' !! p = None /\
  (exists a, out = [Removed p a]) /\
  if negb (peers_shutting_down_ n) && (u64 p =? Sync.GetSyncPeerId n) then
    Sync.GetSyncPeerId n' = Sync.NO_SYNC_PEER /\
    (forall q, peer_states_ n' !! q = if decide (q = p) then None
       else (fun x => if Mis.is_inbound x then x else Sync.set_sync_started false x) <$> peer_states_ n !! q)
  else Sync.GetSyncPeerId n' = Sync.GetSyncPeerId n /\ peer_states_ n' = delete p (peer_states_ n).
Proof.
  intros Hs. unfold Sync.remove_peer. rewrite Hs. cbv zeta. cbn [peers_shutting_down_ Sync.with_peers].
  destruct (peers_shutting_down_ n); cbn [negb andb]; [split_and!; [done|apply lookup_delete_eq|by eexists|done|done]|].
  unfold Sync.OnPeerDisconnected.
  change (Sync.GetSyncPeerId (Sync.with_peers (delete p) n)) with (Sync.GetSyncPeerId n). rewrite (Z.eqb_sym (u64 p)).
  destruct (Sync.GetSyncPeerId n =? u64 p).
  - cbn [peer_states_ Sync.with_peers Sync.ClearSyncPeer Sync.with_sync].
    assert (Hall : forall q, foldl (fun (peers : Mis.peer_map) r => alter (Sync.set_sync_started false) r peers) (delete p (peer_states_ n))
        (Sync.get_outbound_peers (delete p (peer_states_ n))) !! q = if decide (q = p) then None
        else (fun x => if Mis.is_inbound x then x else Sync.set_sync_started false x) <$> peer_states_ n !! q).
    { intros q. rewrite reset_lookup by done. destruct (decide (q = p)) as [->|Hne].
      - rewrite lookup_delete_eq. by destruct (decide _).
      - rewrite lookup_delete_ne by done. destruct (peer_states_ n !! q) as [x|] eqn:Hq; [|by destruct (decide _)].
        cbn [fmap option_fmap option_map]. destruct (Mis.is_inbound x) eqn:Ei.
        + rewrite decide_False; [done|]. rewrite outbound_elem. intros (y & Hy & Hi). rewrite lookup_delete_ne, Hq in Hy by done.
          injection Hy as <-. congruence.
        + rewrite decide_True; [done|]. rewrite outbound_elem. exists x. by rewrite lookup_delete_ne. }
    split; [done|]. split; [rewrite Hall; by rewrite decide_True|]. split; [by eexists|]. split; [done|exact Hall].
  - split_and!; [done|apply lookup_delete_eq|by eexists|done|done].
Qed.

(** ** Choosing the next one *)

Definition candidate (s : Mis.PerPeerState) : bool :=
  negb (Mis.is_inbound s) && negb (Mis.is_feeler s) && Mis.successfully_connected s.

Lemma head_filter_sorted (f : Z -> bool) l : StronglySorted Z.le l ->
  match head (List.filter f l) with
  | None => Forall (fun x => f x = false) l
  | Some p => p ∈ l /\ f p = true /\ Forall (fun x => f x = true -> p <= x) l
  end.
Proof.
  induction 1 as [|x l _ IH Hx]; cbn [List.filter head]; [constructor|]. destruct (f x) eqn:E; cbn [head].
  - split_and!; [apply list_elem_of_here|done|]. constructor; [lia|]. eapply Forall_impl; [exact Hx|]. intros y ? _. done.
  - destruct (head (List.filter f l)) as [p|]; [|by constructor]. destruct IH as (H1 & H2 & H3).
    split_and!; [by apply list_elem_of_further|done|]. constructor; [congruence|done].
Qed.

Section Choose.
Context (g : uint256) (now : Z) (n : SyncManager) (t : block_ptr).
Context (Hwf : cs_wf g (chainstate_manager_ n)) (Ht : tip (chainstate_manager_ n) = Some t)
  (Hh : deref nHeight 0 (index (chainstate_manager_ n)) t < 2 ^ 31).

Lemma check_initial_ok : Sync.HasSyncPeer n = false ->
  exists n' out, Sync.CheckInitialSync now n = Some (n', out) /\ chainstate_manager_ n' = chainstate_manager_ n /\
  match head (List.filter (Sync.eligible (peer_states_ n)) (Sync.get_outbound_peers (peer_states_ n))) with
  | None => n' = n /\ out = []
  | Some p => Sync.GetSyncPeerId n' = u64 p /\ exists l, out = [Send p (MGetHeaders (request_of l))] /\
      msg_wf (MGetHeaders (request_of l)) /\ peer_states_ n' = alter (Sync.set_sync_started true) p (peer_states_ n)
  end.
Proof.
  intros Hs. unfold Sync.CheckInitialSync. rewrite Hs.
  pose proof (head_filter_sorted (Sync.eligible (peer_states_ n)) _ (outbound_sorted (peer_states_ n))) as Hf.
  destruct (head _) as [p|]; [|by eexists _, _]. destruct Hf as (Hp & _ & _). apply outbound_elem in Hp as (s & Hps & _).
  destruct (tip_at g _ t Hwf Ht) as (_ & [bt Hb] & Ha). rewrite (deref_eq nHeight 0 _ t bt Hb) in Hh.
  set (n2 := Sync.with_peers _ _). destruct (request_ok g _ t bt Hwf Hb Ha Hh p n2 eq_refl) as (l & -> & _ & Hw).
  eexists _, _. split; [reflexivity|]. split; [done|]. split; [done|]. exists l. split; [|done].
  unfold Sync.send. rewrite bool_decide_true; [done|]. unfold n2. cbn. rewrite lookup_alter_eq, Hps. by eexists.
Qed.
End Choose.

(** Peer identifiers are non-negative [int]s. *)
Definition ids_ok (peers : Mis.peer_map) : Prop := forall p, is_Some (peers !! p) -> 0 <= p < 2 ^ 31.

Lemma id_u64 p : 0 <= p < 2 ^ 31 -> u64 p = p /\ i32 p = p /\ p <> Sync.NO_SYNC_PEER.
Proof. intros Hp. rewrite u64_id, i32_id by (unfold in_u, in_s; lia). unfold Sync.NO_SYNC_PEER. lia. Qed.

(** ** Claims *)

(** without a sync peer, [CheckInitialSync] takes the outbound peer with the smallest identifier that has completed its
    handshake, is no feeler and was not tried before, marks it as tried and sends it one valid GETHEADERS message; when there
    is none, or a sync peer is set already, nothing changes. *)
Theorem check_initial_sync_exact (g : uint256) (now : Z) (n : SyncManager) (t : block_ptr) :
  cs_wf g (chainstate_manager_ n) -> tip (chainstate_manager_ n) = Some t ->
  deref nHeight 0 (index (chainstate_manager_ n)) t < 2 ^ 31 -> ids_ok (peer_states_ n) ->
  let ready p s := peer_states_ n !! p = Some s /\ candidate s = true /\ Mis.sync_started s = false in
  exists n' out, Sync.CheckInitialSync now n = Some (n', out) /\ chainstate_manager_ n' = chainstate_manager_ n /\
  ((n' = n /\ out = [] /\ (Sync.HasSyncPeer n = true \/ forall p s, ~ ready p s)) \/
   exists p s l, Sync.HasSyncPeer n = false /\ ready p s /\ (forall q x, ready q x -> p <= q) /\
     Sync.GetSyncPeerId n' = p /\ peer_states_ n' = <[p := Sync.set_sync_started true s]> (peer_states_ n) /\
     out = [Send p (MGetHeaders (request_of l))] /\ msg_wf (MGetHeaders (request_of l))).
Proof.
  intros Hwf Ht Hh Hids ready. destruct (Sync.HasSyncPeer n) eqn:Es.
  { exists n, []. unfold Sync.CheckInitialSync. rewrite Es. split; [done|]. split; [done|]. left. auto. }
  assert (Hready : forall q x, ready q x <-> peer_states_ n !! q = Some x /\ q ∈ Sync.get_outbound_peers (peer_states_ n) /\
    Sync.eligible (peer_states_ n) q = true).
  { intros q x. unfold ready. rewrite outbound_elem. unfold Sync.eligible, candidate. split.
    - intros (Hq & Hc & Hs). rewrite Hq, Hs. repeat (apply andb_true_iff in Hc as [Hc ?]). apply negb_true_iff in Hc.
      split_and!; [done|by exists x|]. cbn [negb andb]. by apply andb_true_iff.
    - intros (Hq & (y & Hy & Hi) & He). rewrite Hq in Hy, He. injection Hy as <-. repeat (apply andb_true_iff in He as [He ?]).
      apply negb_true_iff in He. rewrite Hi. cbn [negb andb]. split_and!; [done|by apply andb_true_iff|done]. }
  destruct (check_initial_ok g now n t Hwf Ht Hh Es) as (n' & out & E & Ec & Hm). exists n', out. split; [done|]. split; [done|].
  pose proof (head_filter_sorted (Sync.eligible (peer_states_ n)) _ (outbound_sorted (peer_states_ n))) as Hf.
  destruct (head _) as [p|].
  - right. destruct Hf as (Hp & He & Hmin). destruct Hm as (Hid & l & Ho & Hw & Hps).
    pose proof Hp as (s & Hs & Hi)%outbound_elem. exists p, s, l. split; [done|]. split; [by apply Hready|].
    split; [|split; [|split; [|done]]].
    + intros q x Hq%Hready. destruct Hq as (_ & Hq & Hqe). by apply (proj1 (Forall_forall _ _) Hmin).
    + rewrite Hid. apply id_u64, Hids. by eexists.
    + rewrite Hps. apply map_eq. intros q. destruct (decide (q = p)) as [->|Hne].
      * rewrite lookup_alter_eq, lookup_insert_eq, Hs. done.
      * by rewrite lookup_alter_ne, lookup_insert_ne by done.
  - left. destruct Hm as [-> ->]. split_and!; [done|done|]. right. intros q x Hq%Hready. destruct Hq as (_ & Hq & Hqe).
    pose proof (proj1 (Forall_forall _ _) Hf q Hq). congruence.
Qed.

(** C11: a stalled synchronisation recovers: when the sync peer has delivered no headers for more than 120 seconds, the
    timer disconnects it, and if another outbound peer that completed its handshake and is no feeler is connected, tried
    before or not, the next maintenance run makes one of them the sync peer and asks it for headers.  This holds until the network
    manager is stopped: from then on removals are not published any more. *)
Theorem stalled_sync_recovers (g : uint256) (now p q : Z) (n : SyncManager) (t : block_ptr) (x : Mis.PerPeerState) :
  cs_wf g (chainstate_manager_ n) -> tip (chainstate_manager_ n) = Some t ->
  deref nHeight 0 (index (chainstate_manager_ n)) t < 2 ^ 31 -> ids_ok (peer_states_ n) ->
  peers_shutting_down_ n = false -> Sync.GetSyncPeerId n = p -> is_Some (peer_states_ n !! p) ->
  let last := last_headers_received_us (sync_state_ n) in
  0 < last -> last + 120 * 1000000 < now * 1000000 < 2 ^ 63 ->
  q <> p -> peer_states_ n !! q = Some x -> candidate x = true ->
  exists n1 a n2 q' s l,
    Sync.ProcessTimers now n = (n1, [Removed p a]) /\ peer_states_ n1 !! p = None /\
    Sync.CheckInitialSync now n1 = Some (n2, [Send q' (MGetHeaders (request_of l))]) /\
    Sync.GetSyncPeerId n2 = q' /\ q' <> p /\ peer_states_ n !! q' = Some s /\ candidate s = true.
Proof.
  intros Hwf Ht Hh Hids Hsd Hid [sp Hp] last Hl Hnow Hqp Hq Hx.
  destruct (id_u64 p (Hids p ltac:(by eexists))) as (Eu & Ei & Eno).
  assert (Epr : Sync.ProcessTimers now n = Sync.remove_peer p n).
  { unfold Sync.ProcessTimers, Sync.kMicrosPerSecond, Sync.kHeadersSyncTimeoutUs. rewrite Hid, (proj2 (Z.eqb_neq _ _) Eno). fold last.
    rewrite (i64_id (now * 1000000)) by (unfold in_s; lia). rewrite i64_id by (unfold in_s; lia). unfold Sync.kMicrosPerSecond.
    rewrite (proj2 (Z.ltb_lt 0 last)), (proj2 (Z.ltb_lt (120 * 1000000) _)) by lia. cbn [andb]. by rewrite Ei. }
  pose proof (remove_peer_ok p n sp Hp) as Hr. destruct (Sync.remove_peer p n) as [n1 out1].
  rewrite Hsd, Eu, Hid, Z.eqb_refl in Hr. cbn [negb andb] in Hr. destruct Hr as (Ec & Hgone & (a & ->) & Hsync & Hothers). rewrite Epr.
  assert (Hns : Sync.HasSyncPeer n1 = false) by (unfold Sync.HasSyncPeer; by rewrite Hsync).
  destruct (check_initial_ok g now n1 t) as (n2 & out2 & E2 & _ & Hm); try (rewrite Ec; done); [done|].
  pose proof (head_filter_sorted (Sync.eligible (peer_states_ n1)) _ (outbound_sorted (peer_states_ n1))) as Hf.
  destruct (head _) as [q'|].
  - destruct Hm as (Hid2 & l & -> & _ & _). destruct Hf as (Hq' & He' & _). apply outbound_elem in Hq' as (s1 & Hs1 & Hi1).
    unfold Sync.eligible in He'. rewrite Hs1 in He'. rewrite Hothers in Hs1. destruct (decide (q' = p)) as [|Hne]; [done|].
    destruct (peer_states_ n !! q') as [s|] eqn:Es; [|done]. injection Hs1 as Hs1.
    exists n1, a, n2, q', s, l. split_and!; try done.
    + rewrite Hid2. apply id_u64, Hids. by rewrite Es.
    + unfold candidate. destruct (Mis.is_inbound s) eqn:Ein; subst s1; [congruence|].
      repeat (apply andb_true_iff in He' as [He' ?]). cbn in *. by apply andb_true_iff.
  - exfalso. rewrite Forall_forall in Hf. specialize (Hf q). unfold candidate in Hx.
    destruct (Mis.is_inbound x) eqn:Ein; [done|]. cbn [negb andb] in Hx.
    assert (Hq1 : peer_states_ n1 !! q = Some (Sync.set_sync_started false x)).
    { rewrite Hothers, decide_False, Hq by done. cbn. by rewrite Ein. }
    unfold Sync.eligible in Hf. rewrite Hq1 in Hf. cbn in Hf. rewrite Hx in Hf. discriminate Hf.
    apply outbound_elem. by exists (Sync.set_sync_started false x).
Qed.

(** ** Punishment *)

(** A peer whose data is consistent and that may be disconnected. *)
Definition punishable (k : nat) (s : Mis.PerPeerState) : Prop :=
  mis_ok k (Mis.misbehavior s) /\ noban (Mis.misbehavior s) = false /\ 100 * Z.of_nat (S k) < 2 ^ 31.

Lemma full_penalty_drops k p n s : peer_states_ n !! p = Some s -> punishable k s ->
  Mis.ShouldDisconnect p (Mis.Misbehaving p 100 (peer_states_ n)) = true /\
  exists s', Mis.Misbehaving p 100 (peer_states_ n) !! p = Some s' /\ Mis.should_discourage (Mis.misbehavior s') = true /\
    Mis.address (Mis.misbehavior s') = Mis.address (Mis.misbehavior s).
Proof.
  intros Hs (Hok & Hnb & Hk). destruct (penalize_ok k (Mis.misbehavior s) 100 ltac:(lia) Hk Hok) as [Hok' Hsc].
  assert (Hp : Mis.Misbehaving p 100 (peer_states_ n) !! p = Some (Mis.on_data (Mis.penalize 100) s)).
  { unfold Mis.Misbehaving, Mis.modify. by rewrite lookup_alter_eq, Hs. }
  assert (Hd : Mis.should_discourage (Mis.penalize 100 (Mis.misbehavior s)) = true).
  { rewrite (mo_discourage _ _ Hok'). change (noban (Mis.penalize 100 (Mis.misbehavior s))) with (noban (Mis.misbehavior s)).
    rewrite Hnb, Hsc. pose proof (mo_score _ _ Hok). unfold Mis.DISCOURAGEMENT_THRESHOLD. cbn [negb andb]. apply Z.leb_le. lia. }
  split.
  - unfold Mis.ShouldDisconnect. rewrite Hp. cbn [Mis.on_data Mis.misbehavior].
    change (Mis.HasPermission (Mis.permissions (Mis.penalize 100 (Mis.misbehavior s))) Mis.NoBan) with (noban (Mis.misbehavior s)).
    by rewrite Hnb.
  - eexists. split; [exact Hp|]. by split.
Qed.

Lemma punish_drops k p n s out : peer_states_ n !! p = Some s -> punishable k s ->
  exists n', Sync.punish (Mis.Misbehaving p 100) p n out = (false, n', out ++ [Removed p (Some (Mis.address (Mis.misbehavior s)))]) /\
    peer_states_ n' !! p = None /\ Sync.GetSyncPeerId n' = Sync.NO_SYNC_PEER /\ chainstate_manager_ n' = chainstate_manager_ n.
Proof.
  intros Hs Hp. destruct (full_penalty_drops k p n s Hs Hp) as (Hd & s' & Hs' & Hdis & Haddr).
  unfold Sync.punish, Sync.drop_if_bad. cbn [peer_states_ Sync.with_peers]. rewrite Hd.
  set (n1 := Sync.with_peers (Mis.Misbehaving p 100) n). assert (Hn1 : peer_states_ n1 !! p = Some s') by done.
  pose proof (remove_peer_ok p n1 s' Hn1) as Hr. unfold Sync.remove_peer in *. rewrite Hn1, Hdis, Haddr in *.
  destruct Hr as (Hc & Hgone & _). eexists. split; [reflexivity|]. split_and!; [exact Hgone|done|exact Hc].
Qed.

(** Punishing a peer that is already gone. *)
Lemma punish_absent p n out : peer_states_ n !! p = None -> let n' := Sync.ClearSyncPeer (Sync.with_peers (Mis.ReportInvalidPoW p) n) in
  Sync.punish (Mis.ReportInvalidPoW p) p n out = (false, n', out ++ []) /\ peer_states_ n' !! p = None.
Proof.
  intros Hn. set (n1 := Sync.with_peers (Mis.ReportInvalidPoW p) n). assert (Hn1 : peer_states_ n1 !! p = None).
  { cbn. unfold Mis.ReportInvalidPoW, Mis.Misbehaving, Mis.modify. by rewrite lookup_alter_eq, Hn. }
  split; [|exact Hn1]. unfold Sync.punish, Sync.drop_if_bad, Mis.ShouldDisconnect. fold n1. by rewrite Hn1.
Qed.

(** The gate of the initial download lets a batch through. *)
Definition let_through (params : ChainParams) (now p : Z) (headers : list CBlockHeader) (n : SyncManager) : Prop :=
  fst (Act.IsInitialBlockDownload params now (chainstate_manager_ n)) = false \/ (length headers <= 2)%nat \/ Sync.GetSyncPeerId n = u64 p.

Lemma pass_gate `{HeaderChecks} params now clock p first rest n : let_through params now p (first :: rest) n ->
  u64 p <> Sync.NO_SYNC_PEER -> (length (first :: rest) <= 2000)%nat ->
  exists n1 skip, Sync.HandleHeadersMessage params now clock p (first :: rest) n = Sync.process_batch params now clock p (first :: rest) first skip n1 /\
    chainstate_manager_ n1 = snd (Act.IsInitialBlockDownload params now (chainstate_manager_ n)) /\ peer_states_ n1 = peer_states_ n /\
    skip = match last (first :: rest) with
           | Some l => Act.IsOnActiveChain (chainstate_manager_ n1) (BM.LookupBlockIndex (index (chainstate_manager_ n1)) (Header.GetHash l))
           | None => false end.
Proof.
  intros Hg Hno Hl. unfold Sync.HandleHeadersMessage, let_through in *.
  destruct (Act.IsInitialBlockDownload params now (chainstate_manager_ n)) as [ibd c1]. cbn [fst snd] in *.
  assert (Eg : ibd && (Sync.kMaxUnsolicitedAnnouncement <? length (first :: rest))%nat &&
    ((Sync.GetSyncPeerId (Sync.with_chain c1 n) =? Sync.NO_SYNC_PEER) || negb (u64 p =? Sync.GetSyncPeerId (Sync.with_chain c1 n))) = false).
  { change (Sync.GetSyncPeerId (Sync.with_chain c1 n)) with (Sync.GetSyncPeerId n). destruct Hg as [->|[Hg|Hg]]; [done| |].
    - unfold Sync.kMaxUnsolicitedAnnouncement. rewrite (proj2 (Nat.ltb_ge _ _)) by done. by rewrite andb_false_r.
    - rewrite Hg, Z.eqb_refl, (proj2 (Z.eqb_neq _ _) Hno). by rewrite andb_false_r. }
  rewrite Eg. destruct (Z.ltb_spec Proto.MAX_HEADERS_SIZE (Z.of_nat (length (first :: rest)))) as [Hlt|_].
  { unfold Proto.MAX_HEADERS_SIZE in Hlt. lia. }
  eexists _, _. split; [reflexivity|]. by split_and!.
Qed.

(** a peer without the NoBan permission that sends a batch whose proof-of-work commitment fails is disconnected and its
    address discouraged, whatever its score was; the handler reports failure, there is no sync peer afterwards
    and the block index and the active chain are unchanged. *)
Theorem invalid_pow_punished `{HeaderChecks} (params : ChainParams) (now p : Z) (clock : nat -> Z * Z) (headers : list CBlockHeader)
  (n : SyncManager) (s : Mis.PerPeerState) (k : nat) :
  peer_states_ n !! p = Some s -> punishable (S k) s -> mis_ok k (Mis.misbehavior s) -> 0 <= p < 2 ^ 31 ->
  headers <> [] -> (length headers <= 2000)%nat -> let_through params now p headers n -> Act.CheckHeadersPoW headers = Some false ->
  exists n' out a, Sync.HandleHeadersMessage params now clock p headers n = Some (false, n', out) /\
    Removed p (Some a) ∈ out /\ peer_states_ n' !! p = None /\ Sync.GetSyncPeerId n' = Sync.NO_SYNC_PEER /\
    index (chainstate_manager_ n') = index (chainstate_manager_ n) /\ active (chainstate_manager_ n') = active (chainstate_manager_ n).
Proof.
  intros Hs Hp Hok Hid Hne Hl Hg Hpow. destruct headers as [|first rest]; [done|].
  destruct (id_u64 p Hid) as (Eu & _ & Eno). destruct (pass_gate params now clock p first rest n Hg ltac:(by rewrite Eu) Hl) as (n1 & skip & -> & Ec & Eps & _).
  destruct (ibd_fields params (chainstate_manager_ n) now) as (I1 & I2 & _). rewrite <- Ec in I1, I2.
  unfold Sync.process_batch. rewrite Hpow.
  assert (Hreset : forall n2 s2 out, peer_states_ n2 !! p = Some s2 -> punishable (S k) s2 -> chainstate_manager_ n2 = chainstate_manager_ n1 ->
    exists n' out' a, Some (Sync.punish (Mis.ReportInvalidPoW p) p n2 out) = Some (false, n', out') /\ Removed p (Some a) ∈ out' /\
      peer_states_ n' !! p = None /\ Sync.GetSyncPeerId n' = Sync.NO_SYNC_PEER /\
      index (chainstate_manager_ n') = index (chainstate_manager_ n) /\ active (chainstate_manager_ n') = active (chainstate_manager_ n)).
  { intros n2 s2 out Hs2 Hp2 Hc2. destruct (punish_drops (S k) p n2 s2 out Hs2 Hp2) as (n' & E & H1 & H2 & H3).
    exists n', (out ++ [Removed p (Some (Mis.address (Mis.misbehavior s2)))]), (Mis.address (Mis.misbehavior s2)).
    split; [by rewrite <- E|]. split; [apply elem_of_app; right; apply list_elem_of_here|]. split; [done|]. split; [done|].
    by rewrite H3, Hc2, I1, I2. }
  destruct Hp as (Hok2 & Hnb & Hk). case_bool_decide as Hprev.
  - apply (Hreset _ (Mis.on_data Mis.reset_unconnecting s)); [|split_and!; [|done|done]|done].
    + cbn. unfold Mis.ResetUnconnectingHeaders, Mis.modify. by rewrite Eps, lookup_alter_eq, Hs.
    + destruct Hok2 as [A1 A2 A3 A4 A5]. split; cbn; [done|exact A2|lia|unfold Mis.MAX_UNCONNECTING_HEADERS; lia|exact A5].
  - set (peers2 := Mis.IncrementUnconnectingHeaders p (peer_states_ n1)).
    assert (Hinc : exists s2, peers2 !! p = Some s2 /\ mis_ok (S k) (Mis.misbehavior s2) /\ noban (Mis.misbehavior s2) = false).
    { pose proof (unconnecting_ok k (Mis.misbehavior s) ltac:(lia) Hok) as Hu. unfold peers2, Mis.IncrementUnconnectingHeaders.
      rewrite Eps, Hs. unfold Mis.Misbehaving, Mis.modify.
      assert (Hperm : noban (fst (Mis.count_unconnecting (Mis.misbehavior s))) = false).
      { unfold Mis.count_unconnecting. by destruct (Mis.unconnecting_penalized _). }
      destruct (snd (Mis.count_unconnecting (Mis.misbehavior s))); rewrite ?lookup_alter_eq, Hs; eexists; (split; [reflexivity|]); by split. }
    destruct Hinc as (s2 & Hs2 & Hok3 & Hnb3). unfold Sync.drop_if_bad. cbn [peer_states_ Sync.with_peers]. fold peers2.
    destruct (Mis.ShouldDisconnect p peers2) eqn:Esd.
    + set (n2 := Sync.with_peers _ n1). assert (Hn2 : peer_states_ n2 !! p = Some s2) by done.
      pose proof (remove_peer_ok p n2 s2 Hn2) as Hr. unfold Sync.remove_peer in *. rewrite Hn2 in *.
      unfold Mis.ShouldDisconnect in Esd. rewrite Hs2 in Esd. fold (noban (Mis.misbehavior s2)) in Esd. rewrite Hnb3 in Esd. rewrite Esd in *.
      destruct Hr as (Hc & Hgone & _). match type of Hgone with peer_states_ ?x !! _ = _ => set (n3 := x) in * end.
      destruct (punish_absent p n3 [Removed p (Some (Mis.address (Mis.misbehavior s2)))] Hgone) as [-> Hn4].
      eexists _, _, _. split; [reflexivity|]. split; [apply elem_of_app; left; apply list_elem_of_here|].
      split; [exact Hn4|]. split; [done|]. cbn [chainstate_manager_ Sync.ClearSyncPeer Sync.with_sync Sync.with_peers].
      rewrite Hc. by rewrite <- I1, <- I2.
    + apply (Hreset _ s2); [done|by split_and!|done].
Qed.

(** ** Full batches with little work *)

Lemma ibd_latched params now c : Act.IsInitialBlockDownload params now (snd (Act.IsInitialBlockDownload params now c)) =
  Act.IsInitialBlockDownload params now c.
Proof.
  unfold Act.IsInitialBlockDownload. destruct (m_cached_finished_ibd c) eqn:E1; cbn [snd]; [by rewrite E1|].
  destruct (tip c) as [t|] eqn:E2; cbn [snd]; [|by rewrite E1, E2].
  destruct (_ =? 0) eqn:E3; cbn [snd]; [by rewrite E1, E2, E3|].
  destruct (_ <? now - _) eqn:E4; cbn [snd]; [by rewrite E1, E2, E3, E4|].
  destruct (_ <? Pow.arith_of _) eqn:E5; cbn [snd]; [by rewrite E1, E2, E3, E4, E5|]. by destruct c.
Qed.

Lemma request_same p n n' : index (chainstate_manager_ n') = index (chainstate_manager_ n) ->
  active (chainstate_manager_ n') = active (chainstate_manager_ n) ->
  (is_Some (peer_states_ n' !! p) <-> is_Some (peer_states_ n !! p)) -> Sync.RequestHeadersFromPeer p n' = Sync.RequestHeadersFromPeer p n.
Proof.
  intros Ei Ea Hp. unfold Sync.RequestHeadersFromPeer, Sync.send.
  assert (El : Sync.GetLocatorFromPrev (chainstate_manager_ n') = Sync.GetLocatorFromPrev (chainstate_manager_ n)).
  { unfold Sync.GetLocatorFromPrev, Act.GetLocator, tip. by rewrite Ei, Ea. }
  by rewrite El, (bool_decide_ext _ _ Hp).
Qed.

(** A full batch of 2000 valid, connecting headers whose work stays below the threshold is thrown away, and the request
    that follows it is the request the node would have sent without the batch: the peer is asked for the same headers again. *)
Theorem low_work_batch_stalls `{HeaderChecks} (params : ChainParams) (now p : Z) (clock : nat -> Z * Z) (first : CBlockHeader)
  (rest : list CBlockHeader) (n : SyncManager) (b : CBlockIndex) :
  let c := chainstate_manager_ n in let headers := first :: rest in
  0 <= p < 2 ^ 31 -> length headers = 2000%nat -> let_through params now p headers n ->
  index c !! hashPrevBlock first = Some b -> Act.CheckHeadersPoW headers = Some true -> Val.CheckHeadersAreContinuous headers = true ->
  (forall l, last headers = Some l -> Act.IsOnActiveChain c (BM.LookupBlockIndex (index c) (Header.GetHash l)) = false) ->
  au_add (BITS := 256) (nChainWork b) (Val.CalculateHeadersWork headers) <
    Val.GetAntiDoSWorkThreshold (match tip c with Some t => index c !! t | None => None end) params
      (fst (Act.IsInitialBlockDownload params now c)) ->
  match Sync.RequestHeadersFromPeer p n with
  | None => Sync.HandleHeadersMessage params now clock p headers n = None
  | Some out => exists n', Sync.HandleHeadersMessage params now clock p headers n = Some (true, n', out) /\
      index (chainstate_manager_ n') = index c /\ active (chainstate_manager_ n') = active c /\
      Sync.RequestHeadersFromPeer p n' = Some out
  end.
Proof.
  intros c headers Hid Hl Hg Hb Hpow Hcont Hlast Hwork. destruct (id_u64 p Hid) as (Eu & _ & Eno).
  destruct (pass_gate params now clock p first rest n Hg ltac:(by rewrite Eu) ltac:(fold headers; lia)) as (n1 & skip & Ep & Ec & Eps & Esk).
  destruct (ibd_fields params c now) as (I1 & I2 & _). fold c in Ec. rewrite <- Ec in I1, I2. change (first :: rest) with headers in Ep, Esk. rewrite Ep.
  assert (skip = false) as ->.
  { rewrite Esk. destruct (last headers) as [l|] eqn:El; [|done]. specialize (Hlast l eq_refl).
    unfold Act.IsOnActiveChain in *. by rewrite I1, I2. }
  unfold Sync.process_batch. rewrite bool_decide_true by (rewrite I1, Hb; by eexists). rewrite Hpow, Hcont. cbn [negb].
  set (n2 := Sync.with_peers (Mis.ResetUnconnectingHeaders p) n1). unfold Sync.enough_work. assert (Eh : head headers = Some first) by done. rewrite Eh.
  assert (E2 : chainstate_manager_ n2 = chainstate_manager_ n1) by done. rewrite E2, I1, Hb. unfold tip. rewrite I2. fold (tip c).
  rewrite Ec, ibd_latched. destruct (Act.IsInitialBlockDownload params now c) as [ibd c2] eqn:Eibd. cbn [fst snd] in *.
  rewrite (proj2 (Z.ltb_lt _ _) Hwork), Hl. cbn [negb]. change (Z.of_nat 2000 =? Proto.MAX_HEADERS_SIZE) with true. cbn [negb].
  set (n3 := Sync.with_chain c2 n2). assert (E3 : chainstate_manager_ n3 = c2) by done. rewrite <- Ec in E3.
  assert (Er : Sync.RequestHeadersFromPeer p n3 = Sync.RequestHeadersFromPeer p n).
  { apply request_same; rewrite ?E3; [exact I1|exact I2|]. cbn. unfold Mis.ResetUnconnectingHeaders, Mis.modify.
    rewrite lookup_alter_eq, fmap_is_Some, Eps. done. }
  rewrite Er. destruct (Sync.RequestHeadersFromPeer p n) as [out|]; [|done]. exists n3. cbn [app]. by rewrite E3.
Qed.

(** ** Witnesses *)

Lemma lone_ids params : ids_ok (peer_states_ (lone_node params)).
Proof. intros p [s Hs]. cbn [lone_node peer_states_] in Hs. apply lookup_singleton_Some in Hs as [<- _]. lia. Qed.

Lemma check_initial_sync_exact_witness :
  exists params, Params.Select 0 0 REGTEST = Some params /\
  let n := lone_node params in
  let ready p s := peer_states_ n !! p = Some s /\ candidate s = true /\ Mis.sync_started s = false in
  exists n' out, Sync.CheckInitialSync 1000 n = Some (n', out) /\ chainstate_manager_ n' = chainstate_manager_ n /\
  ((n' = n /\ out = [] /\ (Sync.HasSyncPeer n = true \/ forall p s, ~ ready p s)) \/
   exists p s l, Sync.HasSyncPeer n = false /\ ready p s /\ (forall q x, ready q x -> p <= q) /\
     Sync.GetSyncPeerId n' = p /\ peer_states_ n' = <[p := Sync.set_sync_started true s]> (peer_states_ n) /\
     out = [Send p (MGetHeaders (request_of l))] /\ msg_wf (MGetHeaders (request_of l))).
Proof.
  destruct (select_ok 0 0 REGTEST) as (params & E & _). exists params. split; [exact E|]. intros n ready.
  apply (check_initial_sync_exact regtest_hash 1000 n regtest_hash (proj1 (regtest_inv params)) (regtest_tip params)); [|exact (lone_ids params)].
  unfold n. cbn [lone_node chainstate_manager_]. rewrite regtest_height. lia.
Defined.

(** The same node synchronising with peer 7, with peer 8 tried before. *)
Definition stalled_node (params : ChainParams) : SyncManager :=
  mkSync (regtest_state params) (<[8 := Sync.set_sync_started true (fresh_peer 0)]> {[7 := fresh_peer 0]}) (mkSS 7 1000000 1000000) 0 false.

Lemma stalled_ids params : ids_ok (peer_states_ (stalled_node params)).
Proof.
  intros p [s Hs]. cbn [stalled_node peer_states_] in Hs. apply lookup_insert_Some in Hs as [[<- _]|[_ Hs]]; [lia|].
  apply lookup_singleton_Some in Hs as [<- _]. lia.
Qed.

Lemma stalled_sync_recovers_witness :
  exists params, Params.Select 0 0 REGTEST = Some params /\
  let n := stalled_node params in
  exists n1 a n2 q' s l,
    Sync.ProcessTimers 122 n = (n1, [Removed 7 a]) /\ peer_states_ n1 !! 7 = None /\
    Sync.CheckInitialSync 122 n1 = Some (n2, [Send q' (MGetHeaders (request_of l))]) /\
    Sync.GetSyncPeerId n2 = q' /\ q' <> 7 /\ peer_states_ n !! q' = Some s /\ candidate s = true.
Proof.
  destruct (select_ok 0 0 REGTEST) as (params & E & _). exists params. split; [exact E|]. intros n.
  assert (Hh : deref nHeight 0 (index (regtest_state params)) regtest_hash < 2 ^ 31) by (rewrite regtest_height; lia).
  assert (H7 : is_Some (peer_states_ n !! 7)) by (by eexists).
  apply (stalled_sync_recovers regtest_hash 122 7 8 n regtest_hash (Sync.set_sync_started true (fresh_peer 0))
    (proj1 (regtest_inv params)) (regtest_tip params) Hh (stalled_ids params) eq_refl eq_refl H7); [cbn; lia|cbn; lia|lia|reflexivity|reflexivity].
Defined.

(** Checks under which no commitment is good. *)
#[local] Instance no_commitment : HeaderChecks := {|
  hc_pow _ _ := Some false; hc_header _ st := Some (true, st); hc_context _ _ _ _ st := Some (true, st) |}.

Lemma fresh_ok k : mis_ok k (Mis.new_data 0 []).
Proof. split; cbn; try done; lia. Qed.

Lemma invalid_pow_punished_witness :
  exists params, Params.Select 0 0 REGTEST = Some params /\
  let n := lone_node params in
  exists n' out a, Sync.HandleHeadersMessage params 1000 (fun _ => (1000, 2000)) 7 [next_header] n = Some (false, n', out) /\
    Removed 7 (Some a) ∈ out /\ peer_states_ n' !! 7 = None /\ Sync.GetSyncPeerId n' = Sync.NO_SYNC_PEER /\
    index (chainstate_manager_ n') = index (chainstate_manager_ n) /\ active (chainstate_manager_ n') = active (chainstate_manager_ n).
Proof.
  destruct (select_ok 0 0 REGTEST) as (params & E & _). exists params. split; [exact E|]. intros n.
  apply (invalid_pow_punished params 1000 7 (fun _ => (1000, 2000)) [next_header] n (fresh_peer 0) 0).
  - reflexivity.
  - split_and!; [apply fresh_ok|reflexivity|lia].
  - apply fresh_ok.
  - lia.
  - discriminate.
  - cbn [length]. lia.
  - right. left. cbn [length]. lia.
  - reflexivity.
Defined.
