(* ===== verification/Peer.v ===== *)
(** * Peer: one connection ([network/peer.hpp/.cpp])

    The state machine of a peer: handshake, framing of received data, dispatch of messages,
    pings and timeouts.  Every callback runs on the single network thread and is one step: it
    takes the peer, and returns it with the list of its effects in order.  A disconnect that the code posts to
    the event loop is an effect ([PostDisconnect]); when the loop runs it, [do_disconnect] is the next
    step.  [Env] is what a callback reads from outside: the clocks, a random number, and whether the transport accepts data. *)
From stdpp Require Import strings.
From S2P Require Import Prelude Arith Bytes Sha256 Block Protocol Message.
#[local] Open Scope Z_scope.

(** ** Data *)

Inductive PeerState := DISCONNECTED | CONNECTING | CONNECTED | VERSION_SENT | READY | DISCONNECTING.
#[export] Instance PeerState_eq_dec : EqDecision PeerState.
Proof. solve_decision. Defined.

Inductive ConnectionType := INBOUND | OUTBOUND | MANUAL | FEELER.
#[export] Instance ConnectionType_eq_dec : EqDecision ConnectionType.
Proof. solve_decision. Defined.

Definition ConnectionTypeAsString (conn_type : ConnectionType) : list Z :=
  match conn_type with
  | INBOUND => str "inbound" | OUTBOUND => str "outbound" | MANUAL => str "manual" | FEELER => str "feeler"
  end.

(** What the peer reads of its [TransportConnection]. *)
Record Connection := mkConn { is_open : bool; remote_address : list Z; remote_port : Z }.

(** Set at construction. *)
Record PeerConfig := mkCfg {
  network_magic_ : Z; is_inbound_ : bool; connection_type_ : ConnectionType; local_nonce_ : Z; local_start_height_ : Z;
  target_address_ : list Z; target_port_ : Z
}.

(** [struct PeerStats], times in seconds of the steady clock, the ping in milliseconds. *)
Record PeerStats := mkStats {
  bytes_sent : Z; bytes_received : Z; messages_sent : Z; messages_received : Z;
  connected_time : Z; last_send : Z; last_recv : Z; ping_time_ms : Z
}.

(** From the remote VERSION message. *)
Record RemoteInfo := mkRemote {
  peer_version_ : Z; peer_services_ : Z; peer_start_height_ : Z; peer_user_agent_ : list Z; peer_nonce_ : Z
}.

(** Which timers are running. *)
Record Timers := mkTimers { handshake_timer_ : bool; ping_timer_ : bool; inactivity_timer_ : bool }.

Record Peer := mkPeerObj {
  cfg : PeerConfig;
  connection_ : option Connection;
  state_ : PeerState;
  stats_ : PeerStats;
  successfully_connected_ : bool;
  getaddr_sent_ : bool;
  started_ : bool;
  remote_ : RemoteInfo;
  recv_buffer_ : bytes;
  recv_buffer_offset_ : nat;
  last_ping_nonce_ : Z;
  ping_sent_time_ : Z;          (** milliseconds *)
  unknown_command_count_ : Z;
  last_unknown_reset_ : Z;      (** milliseconds *)
  timers_ : Timers
}.

Record Env := mkEnv { steady_ms : Z; wall_time : Z; random_nonce : Z; accepts : bytes -> bool }.

Inductive effect :=
| Transmit (data : bytes)
| PostDisconnect
| StartReceiving
| CloseConnection
| TimeSample (source : Proto.NetworkAddress) (offset : Z)
| Deliver (msg : Message).

(** What the message handler does to the peer that calls it. *)
Inductive reaction := SendBack (msg : Message) | Disconnect | MarkGetaddrSent.

Module PeerM.

Definition DEFAULT_RECV_FLOOD_SIZE : Z := 5 * 1000 * 1000.
Definition VERSION_HANDSHAKE_TIMEOUT_SEC : Z := 60.
Definition PING_INTERVAL_SEC : Z := 120.
Definition PING_TIMEOUT_SEC : Z := 20 * 60.
Definition INACTIVITY_TIMEOUT_SEC : Z := 20 * 60.

(** ** State passing with effects *)

Definition M : Type := Peer -> Peer * list effect.
Definition skip : M := fun p => (p, []).
Definition emit (e : effect) : M := fun p => (p, [e]).
Definition modify (f : Peer -> Peer) : M := fun p => (f p, []).
Definition seq (a b : M) : M := fun p => let '(p, o) := a p in let '(p, o') := b p in (p, o ++ o').
Definition get {A} (f : Peer -> A) (k : A -> M) : M := fun p => k (f p) p.
#[local] Infix ";>" := seq (at level 60, right associativity).

(** Single-field updates. *)
Definition with_connection x (p : Peer) : Peer :=
  let '(mkPeerObj c _ s st sc g sd r b o ln pt uc ur t) := p in mkPeerObj c x s st sc g sd r b o ln pt uc ur t.
Definition with_state x (p : Peer) : Peer :=
  let '(mkPeerObj c cn _ st sc g sd r b o ln pt uc ur t) := p in mkPeerObj c cn x st sc g sd r b o ln pt uc ur t.
Definition with_stats f (p : Peer) : Peer :=
  let '(mkPeerObj c cn s st sc g sd r b o ln pt uc ur t) := p in mkPeerObj c cn s (f st) sc g sd r b o ln pt uc ur t.
Definition with_connected x (p : Peer) : Peer :=
  let '(mkPeerObj c cn s st _ g sd r b o ln pt uc ur t) := p in mkPeerObj c cn s st x g sd r b o ln pt uc ur t.
Definition with_getaddr x (p : Peer) : Peer :=
  let '(mkPeerObj c cn s st sc _ sd r b o ln pt uc ur t) := p in mkPeerObj c cn s st sc x sd r b o ln pt uc ur t.
Definition with_started x (p : Peer) : Peer :=
  let '(mkPeerObj c cn s st sc g _ r b o ln pt uc ur t) := p in mkPeerObj c cn s st sc g x r b o ln pt uc ur t.
Definition with_remote x (p : Peer) : Peer :=
  let '(mkPeerObj c cn s st sc g sd _ b o ln pt uc ur t) := p in mkPeerObj c cn s st sc g sd x b o ln pt uc ur t.
Definition with_buffer b o (p : Peer) : Peer :=
  let '(mkPeerObj c cn s st sc g sd r _ _ ln pt uc ur t) := p in mkPeerObj c cn s st sc g sd r b o ln pt uc ur t.
Definition with_ping n x (p : Peer) : Peer :=
  let '(mkPeerObj c cn s st sc g sd r b o _ _ uc ur t) := p in mkPeerObj c cn s st sc g sd r b o n x uc ur t.
Definition with_unknown n x (p : Peer) : Peer :=
  let '(mkPeerObj c cn s st sc g sd r b o ln pt _ _ t) := p in mkPeerObj c cn s st sc g sd r b o ln pt n x t.
Definition with_timers f (p : Peer) : Peer :=
  let '(mkPeerObj c cn s st sc g sd r b o ln pt uc ur t) := p in mkPeerObj c cn s st sc g sd r b o ln pt uc ur (f t).

(** ** Construction *)

Definition stats_new : PeerStats := mkStats 0 0 0 0 0 0 0 (-1).
Definition remote_new : RemoteInfo := mkRemote 0 0 0 [] 0.

Definition Peer_new (env : Env) (process_nonce : Z) (connection : option Connection) (network_magic : Z) (is_inbound : bool)
  (start_height : Z) (target_address : list Z) (target_port : Z) (conn_type : ConnectionType) : Peer :=
  mkPeerObj
    (mkCfg network_magic is_inbound conn_type (if negb (process_nonce =? 0) then process_nonce else random_nonce env)
       start_height target_address target_port)
    connection
    (match connection with Some c => if is_open c then CONNECTED else CONNECTING | None => DISCONNECTED end)
    stats_new false false false remote_new [] 0 0 0 0 (steady_ms env) (mkTimers false false false).

Definition create_outbound (env : Env) (process_nonce : Z) (connection : option Connection) (network_magic start_height : Z)
  (target_address : list Z) (target_port : Z) (conn_type : ConnectionType) : Peer :=
  Peer_new env process_nonce connection network_magic false start_height target_address target_port conn_type.

Definition create_inbound (env : Env) (process_nonce : Z) (connection : option Connection) (network_magic start_height : Z) : Peer :=
  let addr := match connection with Some c => remote_address c | None => [] end in
  let port := match connection with Some c => remote_port c | None => 0 end in
  Peer_new env process_nonce connection network_magic true start_height addr port INBOUND.

Definition set_local_nonce (nonce : Z) (p : Peer) : Peer :=
  let '(mkPeerObj (mkCfg m i k _ sh ta tp) cn s st sc g sd r b o ln pt uc ur t) := p in
  mkPeerObj (mkCfg m i k nonce sh ta tp) cn s st sc g sd r b o ln pt uc ur t.

(** ** Getters *)

Definition gone (p : Peer) : bool := match state_ p with DISCONNECTED | DISCONNECTING => true | _ => false end.
Definition is_connected (p : Peer) : bool := negb (gone p).
Definition is_feeler (p : Peer) : bool := bool_decide (connection_type_ (cfg p) = FEELER).
Definition is_manual (p : Peer) : bool := bool_decide (connection_type_ (cfg p) = MANUAL).

Definition address (p : Peer) : list Z :=
  match connection_ p with
  | Some c => remote_address c
  | None => match target_address_ (cfg p) with [] => str "unknown" | a => a end
  end.
Definition port (p : Peer) : Z := match connection_ p with Some c => remote_port c | None => target_port_ (cfg p) end.

Section Peer.
Context `{Proto.BoostAsio} (h : Endian.host) (env : Env).
(** The handler sees the peer through its getters: the receive buffer is private, and no handler of the node
    reads the statistics. *)
Context (message_handler_ : option (Peer -> Message -> list reaction)).

Definition steady_s : Z := Z.quot (steady_ms env) 1000.

(** ** Sending and disconnecting *)

(** The bytes of a message on the wire. *)
Definition frame (magic : Z) (msg : Message) : bytes :=
  let payload := Msg.serialize h msg in
  Msg.serialize_header h (Msg.create_header magic (Msg.command msg) payload) ++ payload.

Definition send_message (msg : Message) : M := fun p =>
  if gone p then (p, [])
  else
    let full_message := frame (network_magic_ (cfg p)) msg in
    let send_result := match connection_ p with Some _ => accepts env full_message | None => false end in
    if send_result then
      (with_stats (fun s => mkStats (u64 (bytes_sent s + Z.of_nat (length full_message))) (bytes_received s)
         (u64 (messages_sent s + 1)) (messages_received s) (connected_time s) steady_s (last_recv s) (ping_time_ms s)) p,
       [Transmit full_message])
    else (p, [PostDisconnect]).

Definition on_connected : M := modify (with_state CONNECTED).
Definition on_disconnect : M := modify (with_state DISCONNECTED).
Definition cancel_all_timers : M := modify (with_timers (fun _ => mkTimers false false false)).

Definition do_disconnect : M := fun p =>
  if gone p then (p, [])
  else
    (modify (with_state DISCONNECTING) ;> cancel_all_timers ;>
     get connection_ (fun c => match c with
       | Some _ => emit CloseConnection ;> modify (with_connection None)
       | None => skip
       end) ;>
     on_disconnect) p.

Definition on_transport_disconnect : M := fun p =>
  if bool_decide (state_ p = DISCONNECTED) then (p, [])
  else (cancel_all_timers ;> modify (with_connection None) ;> on_disconnect) p.

(** ** Timers *)

Definition start_handshake_timeout : M := modify (with_timers (fun t => mkTimers true (ping_timer_ t) (inactivity_timer_ t))).
Definition cancel_handshake : M := modify (with_timers (fun t => mkTimers false (ping_timer_ t) (inactivity_timer_ t))).
Definition schedule_ping : M := modify (with_timers (fun t => mkTimers (handshake_timer_ t) true (inactivity_timer_ t))).
Definition start_inactivity_timeout : M := modify (with_timers (fun t => mkTimers (handshake_timer_ t) (ping_timer_ t) true)).

(** ** Handshake *)

Definition send_version : M :=
  get connection_ (fun c => get cfg (fun cf =>
    let addr_recv := match c with
                     | Some c => Proto.from_string (remote_address c) (remote_port c) Proto.NODE_NETWORK
                     | None => Proto.NetworkAddress_new
                     end in
    send_message (MVersion (mkVersion Proto.PROTOCOL_VERSION Proto.NODE_NETWORK (wall_time env) addr_recv Proto.NetworkAddress_new
      (local_nonce_ cf) Proto.GetUserAgent (local_start_height_ cf))) ;>
    modify (with_state VERSION_SENT))).

(** [start]: only the first call acts. *)
Definition start : M := fun p =>
  if started_ p then (p, [])
  else
    let p := with_started true p in
    let open := match connection_ p with Some c => is_open c | None => false end in
    let go :=
      modify (with_stats (fun s => mkStats (bytes_sent s) (bytes_received s) (messages_sent s) (messages_received s)
        steady_s steady_s steady_s (ping_time_ms s))) ;>
      emit StartReceiving ;>
      get cfg (fun c => if is_inbound_ c then start_handshake_timeout else send_version ;> start_handshake_timeout) in
    match state_ p with
    | CONNECTED => go p
    | CONNECTING => if open then (modify (with_state CONNECTED) ;> go) p else (p, [])
    | _ => (p, [])
    end.

(** [handle_version]; the sanitised user agent is only logged. *)
Definition handle_version (msg : VersionMessage) : M := fun p =>
  if negb (peer_version_ (remote_ p) =? 0) then (p, [])
  else if version msg <? Proto.MIN_PROTOCOL_VERSION then (p, [PostDisconnect])
  else
    let p := with_remote (mkRemote (version msg) (vservices msg) (start_height msg) (user_agent msg) (nonce msg)) p in
    if is_inbound_ (cfg p) && (nonce msg =? local_nonce_ (cfg p)) then (p, [PostDisconnect])
    else
      let nTime := if vtimestamp msg <? 0 then 0 else vtimestamp msg in
      let time_offset := i64 (nTime - wall_time env) in
      ((if negb (is_inbound_ (cfg p))
        then emit (TimeSample (Proto.from_string (address p) (port p) Proto.NODE_NETWORK) time_offset) else skip) ;>
       (if is_inbound_ (cfg p) && bool_decide (state_ p = CONNECTED) then send_version else skip) ;>
       send_message MVerack) p.

Definition handle_verack : M := fun p =>
  if successfully_connected_ p then (p, [])
  else if is_feeler p then (p, [PostDisconnect])
  else (modify (with_state READY) ;> modify (with_connected true) ;> cancel_handshake ;> schedule_ping ;> start_inactivity_timeout) p.

(** ** Pings and timeouts *)

Definition send_ping : M :=
  modify (with_ping (random_nonce env) (steady_ms env)) ;> send_message (MPing (random_nonce env)).

Definition handle_pong (n : Z) : M := fun p =>
  if n =? last_ping_nonce_ p then
    (with_ping 0 (ping_sent_time_ p)
       (with_stats (fun s => mkStats (bytes_sent s) (bytes_received s) (messages_sent s) (messages_received s) (connected_time s)
          (last_send s) (last_recv s) (steady_ms env - ping_sent_time_ p)) p), [])
  else (p, []).

(** The callbacks of the timers; each runs with its own timer expired. *)
Definition on_ping_timer : M := fun p =>
  if negb (ping_timer_ (timers_ p)) then (p, [])
  else
    let p := with_timers (fun t => mkTimers (handshake_timer_ t) false (inactivity_timer_ t)) p in
    if gone p then (p, [])
    else if negb (last_ping_nonce_ p =? 0) then
      if PING_TIMEOUT_SEC <? Z.quot (steady_ms env - ping_sent_time_ p) 1000 then do_disconnect p
      else schedule_ping p
    else (send_ping ;> schedule_ping) p.

Definition on_handshake_timer : M := fun p =>
  if negb (handshake_timer_ (timers_ p)) then (p, [])
  else
    let p := with_timers (fun t => mkTimers false (ping_timer_ t) (inactivity_timer_ t)) p in
    if gone p then (p, []) else if bool_decide (state_ p = READY) then (p, []) else do_disconnect p.

Definition on_inactivity_timer : M := fun p =>
  if negb (inactivity_timer_ (timers_ p)) then (p, [])
  else
    let p := with_timers (fun t => mkTimers (handshake_timer_ t) (ping_timer_ t) false) p in
    if gone p then (p, [])
    else if INACTIVITY_TIMEOUT_SEC <? steady_s - Z.max (last_send (stats_ p)) (last_recv (stats_ p)) then do_disconnect p
    else start_inactivity_timeout p.

(** ** Messages *)

Definition react (r : reaction) : M :=
  match r with
  | SendBack msg => send_message msg
  | Disconnect => do_disconnect
  | MarkGetaddrSent => modify (with_getaddr true)
  end.
Fixpoint react_all (l : list reaction) : M := match l with [] => skip | r :: l => react r ;> react_all l end.

(** A call of the handler. *)
Definition view (p : Peer) : Peer := with_buffer [] 0 (with_stats (fun _ => stats_new) p).
Definition deliver (msg : Message) : M :=
  match message_handler_ with
  | None => skip
  | Some f => emit (Deliver msg) ;> get view (fun v => react_all (f v msg))
  end.

Definition unknown_command : M := fun p =>
  let elapsed := Z.quot (steady_ms env - last_unknown_reset_ p) 1000 in
  let p := if 60 <? elapsed then with_unknown 0 (steady_ms env) p else p in
  let count := i32 (unknown_command_count_ p + 1) in
  let p := with_unknown count (last_unknown_reset_ p) p in
  if 20 <? count then (p, [PostDisconnect]) else (p, []).

Definition handle (msg : Message) : M :=
  match msg with
  | MVersion v => handle_version v ;> deliver msg
  | MVerack => handle_verack ;> deliver msg
  | MPing n => send_message (MPong n)
  | MPong n => handle_pong n
  | _ => deliver msg
  end.

Definition process_message (header : Proto.MessageHeader) (payload : bytes) : M :=
  modify (with_stats (fun s => mkStats (bytes_sent s) (bytes_received s) (messages_sent s) (u64 (messages_received s + 1))
    (connected_time s) (last_send s) (last_recv s) (ping_time_ms s))) ;>
  get remote_ (fun r =>
    let command := Proto.get_command header in
    if (peer_version_ r =? 0) && negb (bool_decide (command = Proto.VERSION)) then emit PostDisconnect
    else match Msg.create_message command with
    | None => unknown_command
    | Some msg =>
        match Msg.deserialize h msg payload with
        | (false, _) => emit PostDisconnect
        | (true, msg) => handle msg
        end
    end).

(** ** Received data *)

Definition pending (p : Peer) : bytes := drop (recv_buffer_offset_ p) (recv_buffer_ p).

(** One round of the loop of [process_received_data]: what is at the read position. *)
Inductive scan := Incomplete | Invalid | Complete (header : Proto.MessageHeader) (payload : bytes).

Definition scan_frame (magic : Z) (data : bytes) : scan :=
  if (length data <? Proto.MESSAGE_HEADER_SIZE)%nat then Incomplete
  else match Msg.deserialize_header h (take Proto.MESSAGE_HEADER_SIZE data) Proto.MessageHeader_new with
  | (false, _) => Invalid
  | (true, header) =>
      if negb (Proto.magic header =? magic) then Invalid
      else if Proto.MAX_PROTOCOL_MESSAGE_LENGTH <? Proto.mlength header then Invalid
      else
        let total_message_size := (Proto.MESSAGE_HEADER_SIZE + Z.to_nat (Proto.mlength header))%nat in
        if (length data <? total_message_size)%nat then Incomplete
        else
          let payload := take (Z.to_nat (Proto.mlength header)) (drop Proto.MESSAGE_HEADER_SIZE data) in
          if negb (bool_decide (Msg.compute_checksum payload = Proto.checksum header)) then Invalid
          else if (Proto.mlength header =? 0) && negb (bool_decide (Proto.get_command header = Proto.VERACK)) &&
                  negb (bool_decide (Proto.get_command header = Proto.GETADDR)) then Invalid
          else Complete header payload
  end.

Definition advance (n : nat) (p : Peer) : Peer := with_buffer (recv_buffer_ p) (recv_buffer_offset_ p + n) p.

(** The loop; every complete message consumes at least a header, so the number of pending bytes is enough fuel. *)
Fixpoint process_loop (fuel : nat) : M := fun p =>
  match scan_frame (network_magic_ (cfg p)) (pending p) with
  | Incomplete => (p, [])
  | Invalid => (p, [PostDisconnect])
  | Complete header payload =>
      match fuel with
      | O => (p, [])
      | S fuel =>
          (process_message header payload ;> modify (advance (Proto.MESSAGE_HEADER_SIZE + length payload)) ;> process_loop fuel) p
      end
  end.
Definition process_received_data : M := fun p => process_loop (length (pending p)) p.

(** [on_transport_receive]; the capacity of the buffer is not observable. *)
Definition compact (p : Peer) : Peer :=
  let off := recv_buffer_offset_ p in
  if (0 <? off)%nat && (length (recv_buffer_ p) / 2 <=? off)%nat then with_buffer (drop off (recv_buffer_ p)) 0 p else p.

Definition on_transport_receive (data : bytes) : M := fun p =>
  if DEFAULT_RECV_FLOOD_SIZE <? Z.of_nat (length data) then (p, [PostDisconnect])
  else if DEFAULT_RECV_FLOOD_SIZE <? Z.of_nat (length (recv_buffer_ p) - recv_buffer_offset_ p + length data) then (p, [PostDisconnect])
  else
    let p := compact p in
    let p := with_buffer (recv_buffer_ p ++ data) (recv_buffer_offset_ p) p in
    let p := with_stats (fun s => mkStats (bytes_sent s) (u64 (bytes_received s + Z.of_nat (length data))) (messages_sent s)
      (messages_received s) (connected_time s) (last_send s) steady_s (ping_time_ms s)) p in
    process_received_data p.
End Peer.
End PeerM.
