(* ===== verification/PeerStream.v ===== *)
(** * PeerStream: received data of a peer

    [process_received_data] as the cut of the byte stream into messages and the handling of each; independence
    from the segmentation of the stream; delivery of the messages another node sends. *)
From stdpp Require Import strings.
From S2P Require Import Prelude Arith Bytes Sha256 Block Protocol Message MessageProps Frame Peer.
#[local] Open Scope Z_scope.
Import PeerM.
#[local] Infix ";>" := seq (at level 60, right associativity).

(** ** What the handling of messages neither reads nor changes *)

(** A change of the receive buffer and of the received-data statistics. *)
Definition dress (fb : bytes * nat -> bytes * nat) (fr : Z * Z -> Z * Z) (p : Peer) : Peer :=
  let x := fb (recv_buffer_ p, recv_buffer_offset_ p) in
  with_buffer (fst x) (snd x) (with_stats (fun s =>
    let y := fr (bytes_received s, last_recv s) in
    mkStats (bytes_sent s) (fst y) (messages_sent s) (messages_received s) (connected_time s) (last_send s) (snd y) (ping_time_ms s)) p).

Definition commutes (u : Peer -> Peer) (a : M) : Prop := forall p, a (u p) = (u (fst (a p)), snd (a p)).

Lemma create_command cmd m : Msg.create_message cmd = Some m -> Msg.command m = cmd.
Proof. unfold Msg.create_message. repeat (case_bool_decide; [intros [= <-]; by subst|]). done. Qed.

Lemma deserialize_command h m data ok m' : Msg.deserialize h m data = (ok, m') -> Msg.command m' = Msg.command m.
Proof.
  destruct m; cbn [Msg.deserialize]; try (intros [= _ <-]; done);
    match goal with |- (let '(_, _) := ?x in _) = _ -> _ => destruct x; intros [= _ <-]; done end.
Qed.

#[local] Opaque PeerM.frame Msg.create_message Msg.deserialize Proto.from_string Proto.get_command.

Ltac commute := intros [? ? ? [] ? ? ? ? ? ? ? ? ? ? ?]; cbn.

Section Commute.
Context `{Proto.BoostAsio} (h : Endian.host) (env : Env) (handler : option (Peer -> Message -> list reaction)).
Context (fb : bytes * nat -> bytes * nat) (fr : Z * Z -> Z * Z).
Local Abbreviation u := (dress fb fr).

Lemma commutes_skip : commutes u skip.
Proof. done. Qed.
Lemma commutes_emit e : commutes u (emit e).
Proof. done. Qed.
Lemma commutes_modify f : (forall p, f (u p) = u (f p)) -> commutes u (modify f).
Proof. intros Hf p. unfold modify. by rewrite Hf. Qed.
Lemma commutes_seq a b : commutes u a -> commutes u b -> commutes u (a ;> b).
Proof.
  intros Ha Hb p. unfold seq. rewrite (Ha p). destruct (a p) as [q o]. cbn [fst snd]. rewrite (Hb q). by destruct (b q).
Qed.
Lemma commutes_get {A} (f : Peer -> A) k : (forall p, f (u p) = f p) -> (forall x, commutes u (k x)) -> commutes u (get f k).
Proof. intros Hf Hk p. unfold get. rewrite Hf. apply Hk. Qed.
Lemma commutes_if (b : Peer -> bool) x y : (forall p, b (u p) = b p) -> commutes u x -> commutes u y ->
  commutes u (fun p => if b p then x p else y p).
Proof. intros Hb Hx Hy p. rewrite Hb. destruct (b p); auto. Qed.

Lemma commutes_send msg : commutes u (send_message h env msg).
Proof.
  commute. unfold send_message, gone. cbn. destruct state_; try done; cbn; destruct connection_; cbn; try done;
    match goal with |- context [accepts env ?x] => by destruct (accepts env x) end.
Qed.

Lemma commutes_disconnect : commutes u do_disconnect.
Proof. commute. unfold do_disconnect, gone. cbn. destruct state_; try done; by destruct connection_. Qed.

Lemma commutes_send_version : commutes u (send_version h env).
Proof.
  apply commutes_get; [by commute|]. intros c. apply commutes_get; [by commute|]. intros cf.
  apply commutes_seq; [apply commutes_send|]. apply commutes_modify. by commute.
Qed.

Lemma commutes_version m : commutes u (handle_version h env m).
Proof.
  intros p. unfold handle_version. assert (E1 : remote_ (u p) = remote_ p) by (revert p; by commute). rewrite E1.
  destruct (negb _); [done|]. destruct (version m <? _); [done|].
  assert (E2 : forall r, with_remote r (u p) = u (with_remote r p)) by (intros r; revert p E1; by commute). rewrite E2.
  set (q := with_remote _ p). assert (E3 : cfg (u q) = cfg q) by (generalize q; by commute). rewrite E3.
  destruct (is_inbound_ (cfg q) && (nonce m =? _)); [done|].
  assert (E4 : address (u q) = address q /\ port (u q) = port q /\ state_ (u q) = state_ q) by (generalize q; by commute).
  destruct E4 as (-> & -> & ->). apply commutes_seq.
  { destruct (negb _); [apply commutes_emit|apply commutes_skip]. }
  apply commutes_seq; [|apply commutes_send]. destruct (_ && _); [apply commutes_send_version|apply commutes_skip].
Qed.

Lemma commutes_verack : commutes u handle_verack.
Proof.
  commute. unfold handle_verack, is_feeler. cbn. destruct successfully_connected_; [done|]. by destruct (bool_decide _).
Qed.

Lemma commutes_pong n : commutes u (handle_pong env n).
Proof. commute. unfold handle_pong. cbn. destruct (n =? _); [|done]. cbn. by destruct fr. Qed.

Lemma commutes_unknown : commutes u (unknown_command env).
Proof. commute. unfold unknown_command. cbn. destruct (60 <? _); cbn; by destruct (20 <? _). Qed.

Lemma commutes_react_all l : commutes u (react_all h env l).
Proof.
  induction l as [|r l IH]; [apply commutes_skip|]. cbn [react_all]. apply commutes_seq; [|done].
  destruct r; cbn [react]; [apply commutes_send|apply commutes_disconnect|apply commutes_modify; by commute].
Qed.

Lemma commutes_deliver msg : commutes u (deliver h env handler msg).
Proof.
  unfold deliver. destruct handler as [f|]; [|apply commutes_skip]. apply commutes_seq; [apply commutes_emit|].
  apply commutes_get; [by commute|]. intros v. apply commutes_react_all.
Qed.

Lemma commutes_handle msg : commutes u (handle h env handler msg).
Proof.
  destruct msg; cbn [handle]; try apply commutes_deliver.
  - apply commutes_seq; [apply commutes_version|apply commutes_deliver].
  - apply commutes_seq; [apply commutes_verack|apply commutes_deliver].
  - apply commutes_send.
  - apply commutes_pong.
Qed.

Lemma commutes_process hd payload : commutes u (process_message h env handler hd payload).
Proof.
  apply commutes_seq; [apply commutes_modify; by commute|]. apply commutes_get; [by commute|]. intros r. cbv zeta.
  destruct (_ && _); [apply commutes_emit|]. destruct (Msg.create_message _) as [m|]; [|apply commutes_unknown].
  destruct (Msg.deserialize h m payload) as [[] m']; [apply commutes_handle|apply commutes_emit].
Qed.
End Commute.

(** ** Cutting the byte stream into messages *)

Section Frames.
Context (h : Endian.host) (magic : Z).

Lemma scan_size data hd payload : scan_frame h magic data = Complete hd payload ->
  length payload = Z.to_nat (Proto.mlength hd) /\ (Proto.MESSAGE_HEADER_SIZE + length payload <= length data)%nat.
Proof.
  unfold scan_frame. destruct (Nat.ltb_spec (length data) Proto.MESSAGE_HEADER_SIZE) as [|H1]; [done|].
  destruct (Msg.deserialize_header _ _ _) as [[] hd']; [|done]. destruct (negb _); [done|]. destruct (_ <? Proto.mlength hd'); [done|].
  cbv zeta. set (n := Z.to_nat (Proto.mlength hd')). destruct (Nat.ltb_spec (length data) (Proto.MESSAGE_HEADER_SIZE + n)) as [|H2]; [done|].
  destruct (negb _); [done|]. destruct (_ && _ && _); [done|]. intros [= <- <-]. rewrite length_take, length_drop. lia.
Qed.

(** What has been recognised does not depend on what follows. *)
Lemma scan_app a b : scan_frame h magic a <> Incomplete -> scan_frame h magic (a ++ b) = scan_frame h magic a.
Proof.
  unfold scan_frame. rewrite length_app. destruct (Nat.ltb_spec (length a) Proto.MESSAGE_HEADER_SIZE) as [|H1]; [done|].
  rewrite (proj2 (Nat.ltb_ge _ _)) by lia. rewrite take_app_le by lia.
  destruct (Msg.deserialize_header _ _ _) as [[] hd']; [|done]. destruct (negb _); [done|]. destruct (_ <? Proto.mlength hd'); [done|].
  cbv zeta. set (n := Z.to_nat (Proto.mlength hd')). destruct (Nat.ltb_spec (length a) (Proto.MESSAGE_HEADER_SIZE + n)) as [|H2]; [done|].
  intros _. rewrite (proj2 (Nat.ltb_ge _ _)) by lia. rewrite drop_app_le by lia. rewrite take_app_le; [done|]. rewrite length_drop. lia.
Qed.

(** All complete messages at the front, whether an invalid one follows, and the rest. *)
Fixpoint frames (fuel : nat) (data : bytes) : list (Proto.MessageHeader * bytes) * bool * bytes :=
  match scan_frame h magic data with
  | Incomplete => ([], false, data)
  | Invalid => ([], true, data)
  | Complete hd payload =>
      match fuel with
      | O => ([], false, data)
      | S fuel => let '(fs, bad, rest) := frames fuel (drop (Proto.MESSAGE_HEADER_SIZE + length payload) data) in
                  ((hd, payload) :: fs, bad, rest)
      end
  end.
Definition cut (data : bytes) := frames (length data) data.

Lemma frames_fuel k k' data : (length data <= k)%nat -> (length data <= k')%nat -> frames k data = frames k' data.
Proof.
  revert k' data. induction k as [|k IH]; intros k' data Hk Hk'.
  { destruct data; [by destruct k'|cbn in Hk; lia]. }
  destruct k' as [|k']; [destruct data; [done|cbn in Hk'; lia]|].
  cbn [frames]. destruct (scan_frame h magic data) as [| |hd payload] eqn:E; try done.
  destruct (scan_size _ _ _ E) as [_ Hl]. unfold Proto.MESSAGE_HEADER_SIZE in *.
  rewrite (IH k'); [done|rewrite length_drop; lia..].
Qed.

Lemma cut_eq data : cut data =
  match scan_frame h magic data with
  | Incomplete => ([], false, data)
  | Invalid => ([], true, data)
  | Complete hd payload => let '(fs, bad, rest) := cut (drop (Proto.MESSAGE_HEADER_SIZE + length payload) data) in ((hd, payload) :: fs, bad, rest)
  end.
Proof.
  unfold cut at 1. destruct data as [|x data]; [done|]. cbn [length frames].
  destruct (scan_frame h magic (x :: data)) as [| |hd payload] eqn:E; try done.
  destruct (scan_size _ _ _ E) as [_ Hl]. unfold cut.
  unfold Proto.MESSAGE_HEADER_SIZE in *. cbn [length] in Hl. erewrite frames_fuel; [reflexivity| |done]. rewrite length_drop. cbn [length]. lia.
Qed.

(** Induction on the messages of a stream. *)
Lemma cut_ind (P : bytes -> Prop) :
  (forall data, (forall hd payload, scan_frame h magic data = Complete hd payload ->
     P (drop (Proto.MESSAGE_HEADER_SIZE + length payload) data)) -> P data) -> forall data, P data.
Proof.
  intros HP data. assert (Hn : forall n data, (length data < n)%nat -> P data); [|by apply (Hn (S (length data))); lia].
  intros n. induction n as [|n IH]; intros d Hd; [lia|]. apply HP. intros hd payload E.
  destruct (scan_size _ _ _ E) as [_ Hl]. apply IH. unfold Proto.MESSAGE_HEADER_SIZE in *. rewrite length_drop. lia.
Qed.

Lemma cut_app a b : cut (a ++ b) =
  let '(fs, bad, rest) := cut a in
  if bad : bool then (fs, true, rest ++ b)
  else let '(fs', bad', rest') := cut (rest ++ b) in (fs ++ fs', bad', rest').
Proof.
  induction a as [a IH] using cut_ind. rewrite (cut_eq a). destruct (scan_frame h magic a) as [| |hd payload] eqn:E.
  - by destruct (cut (a ++ b)) as [[fs bad] rest].
  - rewrite cut_eq, scan_app, E by by rewrite E. done.
  - destruct (scan_size _ _ _ E) as [_ Hl]. rewrite cut_eq, scan_app, E by by rewrite E. rewrite drop_app_le by lia.
    rewrite (IH hd payload eq_refl). destruct (cut (drop _ a)) as [[fs bad] rest]. destruct bad; [done|].
    by destruct (cut (rest ++ b)) as [[fs' bad'] rest'].
Qed.

Lemma cut_rest data : exists pre, data = pre ++ snd (cut data).
Proof.
  induction data as [data IH] using cut_ind. rewrite cut_eq. destruct (scan_frame h magic data) as [| |hd payload] eqn:E.
  - by exists [].
  - by exists [].
  - destruct (IH hd payload eq_refl) as [pre Hpre]. destruct (cut (drop _ data)) as [[fs bad] rest]. cbn [snd] in *.
    exists (take (Proto.MESSAGE_HEADER_SIZE + length payload) data ++ pre). rewrite <- app_assoc, <- Hpre. by rewrite take_drop.
Qed.
End Frames.

(** ** What the handling of messages may change *)

Definition heard (p : Peer) : Z := peer_version_ (remote_ p).

Record evolves (p p' : Peer) : Prop := {
  ev_cfg : cfg p' = cfg p;
  ev_buffer : recv_buffer_ p' = recv_buffer_ p;
  ev_offset : recv_buffer_offset_ p' = recv_buffer_offset_ p;
  ev_version : heard p' = heard p \/ heard p = 0 /\ Proto.MIN_PROTOCOL_VERSION <= heard p';
  ev_mono : successfully_connected_ p = true -> successfully_connected_ p' = true;
  ev_connected : successfully_connected_ p' = true -> successfully_connected_ p = true \/ heard p' <> 0 /\ is_feeler p = false;
  ev_ready : state_ p' = READY -> state_ p = READY \/ successfully_connected_ p' = true
}.

#[export] Instance evolves_preorder : PreOrder evolves.
Proof.
  split; [intros p; split; auto|]. intros p1 p2 p3 [A1 A2 A3 A4 A5 A6 A7] [B1 B2 B3 B4 B5 B6 B7]. split; try congruence; auto.
  - destruct A4 as [A4|[A4 A4']], B4 as [B4|[B4 B4']]; unfold Proto.MIN_PROTOCOL_VERSION in *; [left; congruence|right|right|right];
      split; try congruence; lia.
  - intros H3. destruct (B6 H3) as [H2|[H2 H2']]; [|right; split; [done|]; unfold is_feeler in *; by rewrite <- A1].
    destruct (A6 H2) as [H1|[H1 H1']]; [by left|right]. split; [|done]. destruct B4 as [->|[? _]]; [done|congruence].
  - intros H3. destruct (B7 H3) as [H2|H2]; [|by right]. destruct (A7 H2) as [H1|H1]; [by left|right; auto].
Qed.

Definition evolving (a : M) : Prop := forall p, evolves p (fst (a p)).

Lemma evolving_seq a b : evolving a -> evolving b -> evolving (a ;> b).
Proof.
  intros Ha Hb p. unfold seq. specialize (Ha p). destruct (a p) as [q o]. cbn in Ha. specialize (Hb q). destruct (b q) as [r o'].
  cbn [fst]. cbn in Hb. by etrans.
Qed.
Lemma evolving_modify f : (forall p, evolves p (f p)) -> evolving (modify f).
Proof. intros Hf p. apply Hf. Qed.
Lemma evolving_emit e : evolving (emit e).
Proof. intros p. by cbn. Qed.
Lemma evolving_skip : evolving skip.
Proof. intros p. by cbn. Qed.
Lemma evolving_get {A} (f : Peer -> A) k : (forall x, evolving (k x)) -> evolving (get f k).
Proof. intros Hk p. apply Hk. Qed.
Create HintDb peer.
#[local] Hint Resolve evolving_seq evolving_emit evolving_skip : peer.

(** Updates of single fields other than the version and the connected flag, to a state other than READY. *)
Ltac evolve := intros []; split; cbn; unfold heard; cbn; auto; try discriminate.

Section Evolve.
Context `{Proto.BoostAsio} (h : Endian.host) (env : Env) (handler : option (Peer -> Message -> list reaction)).

Lemma evolving_send msg : evolving (send_message h env msg).
Proof.
  intros p. unfold send_message. destruct (gone p); [done|]. cbv zeta.
  match goal with |- context [if ?b then _ else _] => destruct b end; [|done]. revert p. evolve.
Qed.
Lemma evolving_state s : s <> READY -> evolving (modify (with_state s)).
Proof. intros Hs. apply evolving_modify. evolve. Qed.
Lemma evolving_timers f : evolving (modify (with_timers f)).
Proof. apply evolving_modify. evolve. Qed.
#[local] Hint Resolve evolving_send evolving_timers : peer.

Lemma evolving_disconnect : evolving do_disconnect.
Proof.
  intros p. unfold do_disconnect. destruct (gone p); [done|]. apply evolving_seq; [by apply evolving_state|].
  apply evolving_seq; [apply evolving_timers|]. apply evolving_seq; [|by apply evolving_state].
  apply evolving_get. intros [c|]; [|apply evolving_skip]. apply evolving_seq; [apply evolving_emit|]. apply evolving_modify. evolve.
Qed.

Lemma evolving_send_version : evolving (send_version h env).
Proof. apply evolving_get. intros c. apply evolving_get. intros cf. apply evolving_seq; [apply evolving_send|by apply evolving_state]. Qed.

Lemma evolving_version m : evolving (handle_version h env m).
Proof.
  intros p. unfold handle_version. destruct (Z.eqb_spec (peer_version_ (remote_ p)) 0) as [E|]; [|done]. cbn [negb].
  destruct (Z.ltb_spec (version m) Proto.MIN_PROTOCOL_VERSION) as [|Hv]; [done|]. set (q := with_remote _ p).
  assert (Hq : evolves p q).
  { unfold q. revert p E q. intros [] E _. split; cbn; auto; unfold heard; cbn; auto. }
  destruct (is_inbound_ (cfg q) && _); [done|]. etrans; [exact Hq|]. apply evolving_seq.
  { destruct (negb _); auto with peer. }
  apply evolving_seq; [|apply evolving_send]. destruct (_ && _); [apply evolving_send_version|apply evolving_skip].
Qed.

Lemma evolves_verack p : heard p <> 0 -> evolves p (fst (handle_verack p)).
Proof.
  intros Hh. unfold handle_verack. destruct (successfully_connected_ p) eqn:Es; [done|]. destruct (is_feeler p) eqn:Ef; [done|].
  destruct p. cbn in *. split; cbn; auto.
Qed.

Lemma evolving_pong n : evolving (handle_pong env n).
Proof. intros p. unfold handle_pong. destruct (n =? _); [|done]. revert p. evolve. Qed.

Lemma evolving_unknown : evolving (unknown_command env).
Proof.
  intros p. unfold unknown_command. destruct (60 <? _); cbv zeta; match goal with |- context [if ?b then _ else _] => destruct b end;
    revert p; evolve.
Qed.

Lemma evolving_react_all l : evolving (react_all h env l).
Proof.
  induction l as [|[] l IH]; cbn [react_all react]; [apply evolving_skip|apply evolving_seq; [|done]..].
  - apply evolving_send.
  - apply evolving_disconnect.
  - apply evolving_modify. evolve.
Qed.

Lemma evolving_deliver msg : evolving (deliver h env handler msg).
Proof.
  unfold deliver. destruct handler as [f|]; [|apply evolving_skip]. apply evolving_seq; [apply evolving_emit|].
  apply evolving_get. intros v. apply evolving_react_all.
Qed.

Lemma evolves_handle msg p : heard p <> 0 \/ Msg.command msg = Proto.VERSION -> evolves p (fst (handle h env handler msg p)).
Proof.
  intros Hh. destruct msg; cbn [handle]; try apply evolving_deliver.
  - apply evolving_seq; [apply evolving_version|apply evolving_deliver].
  - destruct Hh as [Hh|Hh]; [|discriminate Hh]. pose proof (evolves_verack p Hh) as Hv. unfold seq. destruct (handle_verack p) as [q o].
    cbn in Hv. pose proof (evolving_deliver MVerack q) as Hd. destruct (deliver h env handler MVerack q) as [r o']. cbn in *. by etrans.
  - apply evolving_send.
  - apply evolving_pong.
Qed.

Lemma evolving_process hd payload : evolving (process_message h env handler hd payload).
Proof.
  apply evolving_seq; [apply evolving_modify; evolve|]. intros p. unfold get. cbv zeta.
  destruct (_ && _) eqn:Eb; [done|]. destruct (Msg.create_message _) as [m|] eqn:Em; [|apply evolving_unknown].
  destruct (Msg.deserialize h m payload) as [[] m'] eqn:Ed; [|done]. apply evolves_handle.
  rewrite (deserialize_command _ _ _ _ _ Ed), (create_command _ _ Em). unfold heard.
  destruct (Z.eqb_spec (peer_version_ (remote_ p)) 0); [|by left]. right. cbn [andb] in Eb. apply negb_false_iff in Eb.
  by apply bool_decide_eq_true in Eb.
Qed.
End Evolve.

(** ** Receiving *)

Section Receive.
Context `{Proto.BoostAsio} (h : Endian.host) (env : Env) (handler : option (Peer -> Message -> list reaction)).

Fixpoint run_frames (fs : list (Proto.MessageHeader * bytes)) : M :=
  match fs with
  | [] => skip
  | (hd, payload) :: fs => process_message h env handler hd payload ;> run_frames fs
  end.

Lemma run_frames_app fs fs' p : run_frames (fs ++ fs') p = (run_frames fs ;> run_frames fs') p.
Proof.
  revert p. induction fs as [|[hd payload] fs IH]; intros p; cbn [app run_frames]; unfold seq.
  - cbn. by destruct (run_frames fs' p).
  - destruct (process_message h env handler hd payload p) as [q o]. rewrite IH. unfold seq.
    destruct (run_frames fs q) as [q1 o1]. destruct (run_frames fs' q1) as [q2 o2]. by rewrite app_assoc.
Qed.

Lemma run_frames_evolving fs : evolving (run_frames fs).
Proof. induction fs as [|[hd payload] fs IH]; cbn [run_frames]; [apply evolving_skip|]. apply evolving_seq; [apply evolving_process|done]. Qed.

Lemma run_frames_commutes fb fr fs : commutes (dress fb fr) (run_frames fs).
Proof. induction fs as [|[hd payload] fs IH]; cbn [run_frames]; [apply commutes_skip|]. apply commutes_seq; [apply commutes_process|done]. Qed.

Definition rebuffer (b : bytes) (o : nat) : Peer -> Peer := dress (fun _ => (b, o)) (fun x => x).
Lemma rebuffer_eq b o p : rebuffer b o p = with_buffer b o p.
Proof. by destruct p as [? ? ? [] ? ? ? ? ? ? ? ? ? ? ?]. Qed.
Lemma with_buffer_self p : with_buffer (recv_buffer_ p) (recv_buffer_offset_ p) p = p.
Proof. by destruct p. Qed.
Lemma with_buffer_twice b o b' o' p : with_buffer b o (with_buffer b' o' p) = with_buffer b o p.
Proof. by destruct p. Qed.

Lemma run_frames_buffer b o fs p : run_frames fs (with_buffer b o p) = (with_buffer b o (fst (run_frames fs p)), snd (run_frames fs p)).
Proof. rewrite <- !rebuffer_eq. apply run_frames_commutes. Qed.

Definition ending (bad : bool) : list effect := if bad then [PostDisconnect] else [].

(** The loop is the cut of the pending bytes followed by the handling of each message. *)
Lemma process_loop_ok fuel p fs bad rest : (recv_buffer_offset_ p <= length (recv_buffer_ p))%nat -> (length (pending p) <= fuel)%nat ->
  cut h (network_magic_ (cfg p)) (pending p) = (fs, bad, rest) ->
  process_loop h env handler fuel p =
    (with_buffer (recv_buffer_ p) (length (recv_buffer_ p) - length rest) (fst (run_frames fs p)), snd (run_frames fs p) ++ ending bad).
Proof.
  revert p fs. induction fuel as [|fuel IH]; intros p fs Ho Hf Hc; rewrite cut_eq in Hc; cbn [process_loop].
  all: assert (Hl : length (pending p) = (length (recv_buffer_ p) - recv_buffer_offset_ p)%nat) by apply length_drop.
  all: assert (Hself : with_buffer (recv_buffer_ p) (length (recv_buffer_ p) - length (pending p)) p = p)
    by (rewrite Hl; replace (_ - _)%nat with (recv_buffer_offset_ p) by lia; apply with_buffer_self).
  all: destruct (scan_frame h (network_magic_ (cfg p)) (pending p)) as [| |hd payload] eqn:E;
    try (injection Hc as <- <- <-; cbn; by rewrite Hself).
  all: destruct (scan_size _ _ _ _ _ E) as [_ Hs].
  - unfold Proto.MESSAGE_HEADER_SIZE in Hs. lia.
  - set (n := (Proto.MESSAGE_HEADER_SIZE + length payload)%nat) in *. assert (Hn : (24 <= n)%nat) by (unfold n, Proto.MESSAGE_HEADER_SIZE; lia).
    destruct (cut h _ (drop n (pending p))) as [[fs' bad'] rest'] eqn:Ec. injection Hc as <- <- <-. cbn [run_frames].
    unfold seq. pose proof (evolving_process h env handler hd payload p) as Hev.
    destruct (process_message h env handler hd payload p) as [q o] eqn:Ep. cbn [fst] in Hev. cbn [modify].
    assert (Ecfg : cfg (advance n q) = cfg p) by (rewrite <- (ev_cfg _ _ Hev); by destruct q).
    assert (Eb : recv_buffer_ (advance n q) = recv_buffer_ p) by (rewrite <- (ev_buffer _ _ Hev); by destruct q).
    assert (Eo : recv_buffer_offset_ (advance n q) = (recv_buffer_offset_ p + n)%nat) by (rewrite <- (ev_offset _ _ Hev); by destruct q).
    assert (Epend : pending (advance n q) = drop n (pending p)) by (unfold pending; by rewrite Eb, Eo, drop_drop).
    rewrite (IH (advance n q) fs'); [|rewrite Eb, Eo; lia|rewrite Epend, length_drop; lia|by rewrite Ecfg, Epend].
    rewrite Eb. unfold advance. rewrite run_frames_buffer. cbn [fst snd app].
    destruct (run_frames fs' q) as [r o']. cbn [fst snd]. by rewrite with_buffer_twice, app_assoc.
Qed.

(** The bytes received and the time of reception. *)
Definition with_recv (n t : Z) : Peer -> Peer := dress (fun x => x) (fun x => (u64 (fst x + n), t)).

(** What [on_transport_receive] does within the flood limit. *)
Lemma receive_ok data p fs bad rest : (recv_buffer_offset_ p <= length (recv_buffer_ p))%nat ->
  Z.of_nat (length (pending p) + length data) <= DEFAULT_RECV_FLOOD_SIZE ->
  cut h (network_magic_ (cfg p)) (pending p ++ data) = (fs, bad, rest) ->
  exists b o, let r := run_frames fs (with_recv (Z.of_nat (length data)) (steady_s env) p) in
    on_transport_receive h env handler data p = (with_buffer b o (fst r), snd r ++ ending bad) /\ (o <= length b)%nat /\ drop o b = rest.
Proof.
  intros Ho Hl Hc. assert (Hpl : length (pending p) = (length (recv_buffer_ p) - recv_buffer_offset_ p)%nat) by apply length_drop.
  unfold on_transport_receive. rewrite !(proj2 (Z.ltb_ge _ _)) by lia. cbv zeta.
  set (p1 := compact p). assert (H1 : (recv_buffer_offset_ p1 <= length (recv_buffer_ p1))%nat /\ pending p1 = pending p /\ cfg p1 = cfg p /\
    exists b o, p1 = with_buffer b o p).
  { unfold p1, compact. destruct (_ && _); [|split_and!; [done..|]; eexists _, _; symmetry; apply with_buffer_self].
    destruct p. cbn in *. split_and!; [lia|unfold pending; cbn; by rewrite drop_0|done|by eexists _, _]. }
  clearbody p1. destruct H1 as (H1 & H2 & H3 & b0 & o0 & H4).
  match goal with |- context [process_received_data _ _ _ ?x] => set (p2 := x) end.
  assert (Hb2 : recv_buffer_ p2 = recv_buffer_ p1 ++ data) by by destruct p1.
  assert (Ho2 : recv_buffer_offset_ p2 = recv_buffer_offset_ p1) by by destruct p1.
  assert (Hc2 : cfg p2 = cfg p) by (rewrite <- H3; by destruct p1).
  assert (Hp2 : pending p2 = pending p ++ data) by (unfold pending in *; rewrite Hb2, Ho2, drop_app_le by done; by rewrite H2).
  unfold process_received_data. rewrite (process_loop_ok _ p2 fs bad rest); [|rewrite Hb2, Ho2, length_app; lia|done|by rewrite Hc2, Hp2].
  assert (E2 : p2 = with_buffer (recv_buffer_ p2) (recv_buffer_offset_ p2) (with_recv (Z.of_nat (length data)) (steady_s env) p)).
  { unfold p2. rewrite H4. by destruct p as [? ? ? [] ? ? ? ? ? ? ? ? ? ? ?]. }
  pose proof (run_frames_buffer (recv_buffer_ p2) (recv_buffer_offset_ p2) fs (with_recv (Z.of_nat (length data)) (steady_s env) p)) as Er.
  rewrite <- E2 in Er. rewrite Er. cbn [fst snd]. rewrite with_buffer_twice. eexists _, _. split; [reflexivity|].
  destruct (cut_rest h (network_magic_ (cfg p)) (pending p ++ data)) as [pre Hpre]. rewrite Hc in Hpre. cbn [snd] in Hpre.
  assert (Hall : recv_buffer_ p2 = take (recv_buffer_offset_ p1) (recv_buffer_ p1) ++ pre ++ rest).
  { rewrite <- Hpre, <- H2, Hb2. unfold pending. by rewrite app_assoc, take_drop. }
  rewrite Hall, !length_app. split; [lia|]. rewrite app_assoc. rewrite drop_app_length'; [done|]. rewrite length_app. lia.
Qed.
End Receive.

(** ** Segmentation of the stream *)

(** The effects other than the request to disconnect, which may be repeated. *)
Definition processed (o : list effect) : list effect := List.filter (fun e => match e with PostDisconnect => false | _ => true end) o.
Definition in_buffer (p : Peer) : Prop := (recv_buffer_offset_ p <= length (recv_buffer_ p))%nat.
Definition unbuffered (p : Peer) : Peer := with_buffer [] 0 p.

(** The same peer with the same pending bytes and the same effects. *)
Definition agree (x y : Peer * list effect) : Prop :=
  unbuffered (fst x) = unbuffered (fst y) /\ pending (fst x) = pending (fst y) /\ processed (snd x) = processed (snd y).

#[export] Instance agree_equivalence : Equivalence agree.
Proof.
  split; [done|intros x y (H1 & H2 & H3); done|]. intros x y z (H1 & H2 & H3) (E1 & E2 & E3). unfold agree. by rewrite H1, H2, H3.
Qed.

Section Segments.
Context `{Proto.BoostAsio} (h : Endian.host) (env : Env) (handler : option (Peer -> Message -> list reaction)).

Fixpoint receive_all (chunks : list bytes) : M :=
  match chunks with [] => skip | c :: chunks => on_transport_receive h env handler c ;> receive_all chunks end.

Lemma cut_bad magic a fs rest : cut h magic a = (fs, true, rest) -> scan_frame h magic rest = Invalid.
Proof.
  revert fs. induction a as [a IH] using (cut_ind h magic). intros fs. rewrite cut_eq.
  destruct (scan_frame h magic a) as [| |hd payload] eqn:E; [done|by intros [= _ <-]|].
  specialize (IH hd payload eq_refl). destruct (cut h magic (drop _ a)) as [[fs' bad] rest']. intros [= _ -> ->]. by eapply IH.
Qed.

Lemma with_recv_twice n n' t p : with_recv n t (with_recv n' t p) = with_recv (n' + n) t p.
Proof.
  destruct p as [? ? ? [] ? ? ? ? ? ? ? ? ? ? ?]. unfold with_recv, dress. cbn. unfold u64. do 2 f_equal.
  rewrite Zplus_mod_idemp_l. f_equal. lia.
Qed.
Lemma with_recv_buffer n t b o p : with_recv n t (with_buffer b o p) = with_buffer b o (with_recv n t p).
Proof. by destruct p. Qed.
Lemma pending_buffer b o p : pending (with_buffer b o p) = drop o b.
Proof. by destruct p. Qed.

Lemma filter_app_processed o o' : processed (o ++ o') = processed o ++ processed o'.
Proof. apply List.filter_app. Qed.
Lemma processed_ending bad : processed (ending bad) = [].
Proof. by destruct bad. Qed.

(** [receive_ok] with the statistics pulled out. *)
Lemma receive_shape data p : in_buffer p -> Z.of_nat (length (pending p) + length data) <= DEFAULT_RECV_FLOOD_SIZE ->
  let '(fs, bad, rest) := cut h (network_magic_ (cfg p)) (pending p ++ data) in
  let r := run_frames h env handler fs p in
  exists b o, on_transport_receive h env handler data p =
      (with_buffer b o (with_recv (Z.of_nat (length data)) (steady_s env) (fst r)), snd r ++ ending bad) /\ (o <= length b)%nat /\ drop o b = rest.
Proof.
  intros Hb Hl. destruct (cut h _ (pending p ++ data)) as [[fs bad] rest] eqn:Ec. cbv zeta.
  destruct (receive_ok h env handler data p fs bad rest Hb Hl Ec) as (b & o & E & H1 & H2). exists b, o. split; [|done].
  rewrite E. unfold with_recv. by rewrite (run_frames_commutes h env handler _ _ fs p).
Qed.

Lemma two_chunks a b p : in_buffer p -> Z.of_nat (length (pending p) + (length a + length b)) <= DEFAULT_RECV_FLOOD_SIZE ->
  let p1 := fst (on_transport_receive h env handler a p) in
  in_buffer p1 /\ (length (pending p1) <= length (pending p) + length a)%nat /\
  agree ((on_transport_receive h env handler a ;> on_transport_receive h env handler b) p) (on_transport_receive h env handler (a ++ b) p).
Proof.
  intros Hb Hl. pose proof (receive_shape a p Hb ltac:(lia)) as Ha.
  pose proof (receive_shape (a ++ b) p Hb ltac:(rewrite length_app; lia)) as Hab.
  rewrite app_assoc, cut_app in Hab. destruct (cut_rest h (network_magic_ (cfg p)) (pending p ++ a)) as [pre Hpre].
  destruct (cut h _ (pending p ++ a)) as [[fs1 bad1] rest1] eqn:E1. cbn [snd] in Hpre.
  destruct Ha as (b1 & o1 & Ea & Ho1 & Hr1). unfold seq. rewrite Ea. cbn [fst].
  set (r1 := run_frames h env handler fs1 p) in *. set (p1 := with_buffer _ _ _).
  assert (Hp1 : pending p1 = rest1) by (unfold p1; by rewrite pending_buffer).
  assert (Hc1 : cfg p1 = cfg p).
  { unfold p1. rewrite <- (ev_cfg _ _ (run_frames_evolving h env handler fs1 p)). fold r1. by destruct (fst r1). }
  assert (Hin1 : in_buffer p1) by (unfold p1, in_buffer; by destruct (fst r1)).
  assert (Hlen1 : (length rest1 <= length (pending p) + length a)%nat).
  { apply (f_equal length) in Hpre. rewrite !length_app in Hpre. lia. }
  split; [done|]. split; [by rewrite Hp1|].
  pose proof (receive_shape b p1 Hin1 ltac:(rewrite Hp1; lia)) as Hb2. rewrite Hp1, Hc1 in Hb2.
  assert (Er : forall fs, run_frames h env handler fs p1 =
    (with_buffer b1 o1 (with_recv (Z.of_nat (length a)) (steady_s env) (fst (run_frames h env handler fs (fst r1)))), snd (run_frames h env handler fs (fst r1)))).
  { intros fs. unfold p1. rewrite run_frames_buffer. unfold with_recv. by rewrite (run_frames_commutes h env handler _ _ fs (fst r1)). }
  assert (Estat : forall x, with_recv (Z.of_nat (length b)) (steady_s env) (with_recv (Z.of_nat (length a)) (steady_s env) x) =
    with_recv (Z.of_nat (length (a ++ b))) (steady_s env) x) by (intros x; rewrite with_recv_twice, length_app; f_equal; lia).
  destruct bad1.
  - rewrite (cut_eq h _ (rest1 ++ b)), scan_app, (cut_bad _ _ _ _ E1) in Hb2 by (by rewrite (cut_bad _ _ _ _ E1)).
    destruct Hb2 as (b2 & o2 & -> & Ho2 & Hr2). destruct Hab as (b3 & o3 & -> & Ho3 & Hr3). rewrite Er. cbn [run_frames skip fst snd].
    unfold agree, unbuffered. cbn [fst snd]. rewrite !pending_buffer, !with_recv_buffer, !with_buffer_twice, Hr2, Hr3, Estat.
    rewrite !filter_app_processed, !processed_ending. by rewrite !app_nil_r.
  - destruct (cut h _ (rest1 ++ b)) as [[fs2 bad2] rest2] eqn:E2.
    destruct Hb2 as (b2 & o2 & -> & Ho2 & Hr2). destruct Hab as (b3 & o3 & -> & Ho3 & Hr3). rewrite Er. cbn [fst snd].
    unfold agree, unbuffered. cbn [fst snd]. rewrite !pending_buffer, !with_recv_buffer, !with_buffer_twice, Hr2, Hr3, Estat.
    rewrite run_frames_app. unfold seq. fold r1. destruct r1 as [q1 e1]. cbn [fst snd]. destruct (run_frames h env handler fs2 q1) as [q2 e2].
    cbn [fst snd]. rewrite !filter_app_processed, !processed_ending. by rewrite !app_nil_r.
Qed.

Lemma segments_agree chunks p : chunks <> [] -> in_buffer p ->
  Z.of_nat (length (pending p) + length (concat chunks)) <= DEFAULT_RECV_FLOOD_SIZE ->
  agree (receive_all chunks p) (on_transport_receive h env handler (concat chunks) p).
Proof.
  destruct chunks as [|c cs]; [done|]. intros _. revert c p. induction cs as [|c2 cs IH]; intros c p Hb Hl.
  - cbn [receive_all concat]. rewrite app_nil_r. unfold seq. cbn. destruct (on_transport_receive h env handler c p) as [q o].
    rewrite app_nil_r. done.
  - change (concat (c :: c2 :: cs)) with (c ++ concat (c2 :: cs)) in Hl. rewrite length_app in Hl.
    destruct (two_chunks c (concat (c2 :: cs)) p Hb Hl) as (H1 & H2 & H3). cbn [receive_all]. unfold seq in H3 |- *.
    destruct (on_transport_receive h env handler c p) as [p1 o1]. cbn [fst] in *.
    specialize (IH c2 p1 H1 ltac:(lia)). cbn [receive_all] in IH. unfold seq in IH.
    destruct (on_transport_receive h env handler c2 p1) as [p2 o2]. destruct (receive_all cs p2) as [p3 o3].
    change (concat (c :: c2 :: cs)) with (c ++ concat (c2 :: cs)).
    destruct (on_transport_receive h env handler (concat (c2 :: cs)) p1) as [p4 o4]. destruct H3 as (A1 & A2 & A3), IH as (B1 & B2 & B3).
    cbn [fst snd] in *. unfold agree. cbn [fst snd]. rewrite B1, B2. split_and!; [done..|]. rewrite <- A3, !filter_app_processed. by rewrite <- B3, filter_app_processed.
Qed.
End Segments.

(** ** A stream of messages *)

#[local] Transparent PeerM.frame.

Section Stream.
Context `{Proto.BoostAsio} (h h' : Endian.host) (env : Env) (handler : option (Peer -> Message -> list reaction)) (magic : Z).

(** The handling of a received message. *)
Definition accept_message (m : Message) : M :=
  modify (with_stats (fun s => mkStats (bytes_sent s) (bytes_received s) (messages_sent s) (u64 (messages_received s + 1))
    (connected_time s) (last_send s) (last_recv s) (ping_time_ms s))) ;>
  get remote_ (fun r =>
    if (peer_version_ r =? 0) && negb (bool_decide (Msg.command m = Proto.VERSION)) then emit PostDisconnect
    else handle h' env handler m).
Fixpoint accept_all (ms : list Message) : M := match ms with [] => skip | m :: ms => accept_message m ;> accept_all ms end.

Definition sent (m : Message) : Proto.MessageHeader * bytes :=
  let payload := Msg.serialize h m in (Msg.create_header magic (Msg.command m) payload, payload).

Lemma empty_payload m : encodes m [] -> payload_free m.
Proof.
  assert (Hc : forall A max (R : enc A) l, ~ enc_counted max R l []).
  { intros A max R l (n & es & Hn & _ & _ & E). apply enc_varint_nonempty in Hn. by destruct n; [cbn in Hn; lia|]. }
  assert (Hs : forall n v, le_split (S n) v = [] -> False) by (intros n v E; by apply (f_equal length) in E; rewrite length_le_split in E).
  inversion 1 as [? ? Hv| | |? ? E|? ? E|? ? Hv|? ? Hv|? ? Hv|? ? Hv]; subst; unfold payload_free; auto; exfalso;
    try (by eapply Hc); try (by eapply Hs).
  - destruct Hv as (a & b & s & _ & _ & _ & _ & _ & _ & _ & _ & E). symmetry in E. apply app_eq_nil in E as [E _]. by apply Hs in E.
  - destruct Hv as (_ & _ & c & Hn & E). symmetry in E. apply app_eq_nil in E as [E _]. by apply Hs in E.
Qed.

Lemma scan_sent m rest : in_u 32 magic -> msg_wf m ->
  scan_frame h' magic (frame h magic m ++ rest) = Complete (fst (sent m)) (snd (sent m)) /\
  length (frame h magic m) = (Proto.MESSAGE_HEADER_SIZE + length (snd (sent m)))%nat /\
  forall p, process_message h' env handler (fst (sent m)) (snd (sent m)) p = accept_message m p.
Proof.
  intros Hm Hw. cbn [sent fst snd]. set (payload := Msg.serialize h m). pose proof (serialize_encodes h m Hw) as He. fold payload in He.
  destruct (encodes_wf _ _ He) as (_ & Hb & Hl).
  destruct (created_header magic _ payload Hm (command_msg_ok m) Hb Hl) as (Ha & Hlen & Hcmd).
  set (hd := Msg.create_header magic _ payload) in *.
  assert (Hk : Msg.compute_checksum payload = Proto.checksum hd)
    by (unfold hd, Msg.create_header, Proto.MessageHeader_of; cbn [Proto.checksum]; reflexivity).
  assert (Hmg : Proto.magic hd = magic) by (unfold hd, Msg.create_header, Proto.MessageHeader_of; by cbn [Proto.magic]).
  assert (Efr : frame h magic m = header_bytes hd ++ payload) by (unfold frame; fold payload; fold hd; rewrite serialize_header_eq; [done|apply Ha]).
  clearbody hd.
  pose proof (length_header_bytes hd ltac:(apply Ha)) as Hhl. rewrite Efr, length_app, Hhl. split_and!; [|done|].
  - unfold scan_frame. rewrite !length_app, Hhl. rewrite (proj2 (Nat.ltb_ge _ _)) by lia. rewrite <- app_assoc, take_app_length' by done.
    rewrite <- (app_nil_r (header_bytes hd)). rewrite header_complete by done. cbv iota zeta. rewrite Hmg.
    rewrite Z.eqb_refl. cbn [negb]. rewrite Hlen, Nat2Z.id. rewrite (proj2 (Z.ltb_ge _ _)) by done.
    rewrite (proj2 (Nat.ltb_ge _ _)) by lia. rewrite app_nil_r, drop_app_length' by done. rewrite take_app_length.
    rewrite bool_decide_eq_true_2 by exact Hk. cbn [negb]. rewrite Hcmd. destruct (Z.eqb_spec (Z.of_nat (length payload)) 0) as [E0|]; [|done].
    clearbody payload. destruct payload; [|discriminate E0]. destruct (empty_payload m He) as [-> | ->]; done.
  - intros p. unfold process_message, accept_message, seq, modify, get. rewrite Hcmd. destruct (_ && _); [done|].
    destruct (created_kind m) as (m0 & E & Ek). rewrite E.
    by rewrite (proj2 (deserialize_ok h' m0 payload m Hb)) by (split; [done|]; exists payload, []; by rewrite app_nil_r).
Qed.

Lemma cut_stream ms : in_u 32 magic -> Forall msg_wf ms ->
  cut h' magic (concat (frame h magic <$> ms)) = (sent <$> ms, false, []) /\
  forall p, run_frames h' env handler (sent <$> ms) p = accept_all ms p.
Proof.
  intros Hm. induction 1 as [|m ms Hw _ [IH1 IH2]]; [done|]. rewrite !fmap_cons. cbn [concat].
  destruct (scan_sent m (concat (frame h magic <$> ms)) Hm Hw) as (E1 & E2 & E3). split.
  - rewrite cut_eq, E1. rewrite drop_app_length' by done. rewrite IH1. by destruct (sent m).
  - intros p. destruct (sent m) as [hd payload] eqn:E. cbn [run_frames accept_all fst snd] in *. unfold seq. rewrite E3.
    destruct (accept_message m p). by rewrite IH2.
Qed.

Lemma stream_exact ms p : in_u 32 magic -> Forall msg_wf ms -> network_magic_ (cfg p) = magic -> in_buffer p -> pending p = [] ->
  let data := concat (frame h magic <$> ms) in
  Z.of_nat (length data) <= DEFAULT_RECV_FLOOD_SIZE ->
  exists b o, on_transport_receive h' env handler data p =
    (with_buffer b o (with_recv (Z.of_nat (length data)) (steady_s env) (fst (accept_all ms p))), snd (accept_all ms p)) /\
    (o <= length b)%nat /\ drop o b = [].
Proof.
  intros Hm Hw Hcfg Hb Hp data Hl. destruct (cut_stream ms Hm Hw) as [Hc Hr]. fold data in Hc.
  pose proof (receive_shape h' env handler data p Hb ltac:(by rewrite Hp)) as Hs. rewrite Hp, Hcfg in Hs. cbn [app] in Hs. rewrite Hc, Hr in Hs.
  destruct Hs as (b & o & E & Ho & Hd). exists b, o. by rewrite app_nil_r in E.
Qed.

Lemma stream_ok ms p : in_u 32 magic -> Forall msg_wf ms -> network_magic_ (cfg p) = magic -> in_buffer p -> pending p = [] ->
  let data := concat (frame h magic <$> ms) in
  Z.of_nat (length data) <= DEFAULT_RECV_FLOOD_SIZE ->
  agree (on_transport_receive h' env handler data p)
    (with_buffer [] 0 (with_recv (Z.of_nat (length data)) (steady_s env) (fst (accept_all ms p))), snd (accept_all ms p)).
Proof.
  intros Hm Hw Hcfg Hb Hp data Hl. destruct (stream_exact ms p Hm Hw Hcfg Hb Hp Hl) as (b & o & E & Ho & Hd). fold data in E.
  rewrite E. unfold agree, unbuffered. cbn [fst snd]. by rewrite !pending_buffer, !with_buffer_twice, Hd.
Qed.
End Stream.

(** ** Claims *)

(** C13: the processing of received data does not depend on how the transport splits the byte stream: for
    every sequence of chunks that stays within the receive limit, whatever the bytes (complete, truncated or invalid
    messages), handling the chunks one by one leaves the same peer with the same unprocessed bytes
    and has the same effects in the same order as one call with all the bytes; only the request to
    disconnect after an invalid message may be repeated. *)
Theorem segmentation_independent `{Proto.BoostAsio} (h : Endian.host) (env : Env)
    (handler : option (Peer -> Message -> list reaction)) (chunks : list bytes) (p : Peer) :
  chunks <> [] -> (recv_buffer_offset_ p <= length (recv_buffer_ p))%nat ->
  Z.of_nat (length (pending p) + length (concat chunks)) <= DEFAULT_RECV_FLOOD_SIZE ->
  agree (receive_all h env handler chunks p) (on_transport_receive h env handler (concat chunks) p).
Proof. apply segments_agree. Qed.

(** C14: messages survive the connection: when a peer with an empty buffer receives, in any chunks,
    the frames that [send_message] of another node (of either byte order) writes for a sequence of well-formed
    messages, together at most 5,000,000 bytes (the flood limit, above which one chunk would be refused), it handles exactly
    these messages, each once and in order, and nothing is left in its buffer. *)
Theorem messages_delivered `{Proto.BoostAsio} (h h' : Endian.host) (env : Env)
    (handler : option (Peer -> Message -> list reaction)) (ms : list Message) (chunks : list bytes) (p : Peer) :
  let data := concat (frame h (network_magic_ (cfg p)) <$> ms) in
  in_u 32 (network_magic_ (cfg p)) -> Forall msg_wf ms -> recv_buffer_offset_ p = length (recv_buffer_ p) ->
  chunks <> [] -> concat chunks = data -> Z.of_nat (length data) <= DEFAULT_RECV_FLOOD_SIZE ->
  let r := accept_all h' env handler ms p in
  agree (receive_all h' env handler chunks p)
    (with_buffer [] 0 (with_recv (Z.of_nat (length data)) (steady_s env) (fst r)), snd r).
Proof.
  intros data Hm Hw Hb Hn Hc Hl r. assert (Hp : pending p = []) by (apply drop_ge; lia).
  assert (Hin : in_buffer p) by (unfold in_buffer; lia).
  etrans; [apply segments_agree; [done..|rewrite Hp, Hc; done]|]. rewrite Hc. by apply stream_ok.
Qed.

(** ** Witnesses *)

(** No text is an address; IPv4 addresses are mapped into IPv6. *)
Definition asio_example : Proto.BoostAsio := {|
  Proto.make_address := fun _ => None;
  Proto.v4_mapped := fun b => replicate 10 0 ++ [255; 255] ++ b;
  Proto.is_v4_mapped := fun b => bool_decide (take 12 b = replicate 10 0 ++ [255; 255]);
  Proto.v4_unmapped := fun b => drop 12 b;
  Proto.to_string_v4 := fun b => b;
  Proto.to_string_v6 := fun b => b
|}.
Definition env_example : Env := mkEnv 5000 1700000000 99 (fun _ => true).
Definition conn_example : option Connection := Some (mkConn true (str "10.0.0.1") 9590).
Definition outbound_example : Peer := create_outbound env_example 11 conn_example 0xC0C0C0C0 0 (str "10.0.0.1") 9590 OUTBOUND.

Lemma segmentation_independent_witness :
  let ping := @frame Endian.Little 0xC0C0C0C0 (MPing 7) in
  let p := with_remote (mkRemote 70016 1 0 [] 5) outbound_example in
  agree (@receive_all asio_example Endian.Little env_example None [take 9 ping; drop 9 ping; [1; 2]] p)
    (@on_transport_receive asio_example Endian.Little env_example None (concat [take 9 ping; drop 9 ping; [1; 2]]) p).
Proof. apply segmentation_independent; [done|vm_compute; lia|vm_compute; congruence]. Defined.

Lemma messages_delivered_witness :
  let ms := [MPing 7; MGetAddr] in
  let data := concat (frame Endian.Big 0xC0C0C0C0 <$> ms) in
  let p := with_remote (mkRemote 70016 1 0 [] 5) outbound_example in
  let handler := Some (fun _ _ => []) in
  agree (@receive_all asio_example Endian.Little env_example handler [take 30 data; drop 30 data] p)
    (with_buffer [] 0 (with_recv 56 5 (fst (@accept_all asio_example Endian.Little env_example handler ms p))),
     [Transmit (frame Endian.Little 0xC0C0C0C0 (MPong 7)); Deliver MGetAddr]).
Proof.
  apply (@messages_delivered asio_example Endian.Big Endian.Little env_example (Some (fun _ _ => [])) [MPing 7; MGetAddr]).
  - vm_compute. intuition congruence.
  - repeat constructor; vm_compute; congruence.
  - done.
  - done.
  - by vm_compute.
  - vm_compute. congruence.
Defined.
