(* ===== verification/PeerProps.v ===== *)
(** * PeerProps: the life of a peer

    The reachable states of a peer under any sequence of events, with their invariants by rule induction: buffer
    bounds, handshake order, ranges of the fields, a running timeout for every open connection.  The handshake
    of two peers, and what happens to messages after a disconnect. *)
From stdpp Require Import strings.
From S2P Require Import Prelude Arith Bytes Sha256 Block Protocol Message MessageProps Frame Peer PeerStream.
#[local] Open Scope Z_scope.
Import PeerM.
#[local] Infix ";>" := seq (at level 60, right associativity).

(** ** Events *)

(** The callbacks of a peer on the network thread; [PostedDisconnect] is the disconnect that was posted, or that
    another thread requests. *)
Inductive peer_event :=
| Start | Receive (data : bytes) | PostedDisconnect | TransportClosed
| HandshakeTimer | PingTimer | InactivityTimer | SendMessage (msg : Message) | GetaddrSent.

Definition run `{Proto.BoostAsio} (h : Endian.host) (env : Env) (handler : option (Peer -> Message -> list reaction)) (e : peer_event) : M :=
  match e with
  | Start => start h env
  | Receive data => on_transport_receive h env handler data
  | PostedDisconnect => do_disconnect
  | TransportClosed => on_transport_disconnect
  | HandshakeTimer => on_handshake_timer
  | PingTimer => on_ping_timer h env
  | InactivityTimer => on_inactivity_timer env
  | SendMessage msg => send_message h env msg
  | GetaddrSent => modify (with_getaddr true)
  end.

(** Data arrives after [start] has registered the callbacks. *)
Definition enabled (p : Peer) (e : peer_event) : Prop :=
  match e with Receive data => started_ p = true /\ Forall byte_ok data | _ => True end.

(** The states a peer can be in: the clock, random numbers, transport and handler may differ at every step. *)
Inductive reachable `{Proto.BoostAsio} (h : Endian.host) : Peer -> Prop :=
| reach_new env nonce conn magic inbound height addr port kind :
    reachable h (Peer_new env nonce conn magic inbound height addr port kind)
| reach_nonce p nonce : reachable h p -> reachable h (set_local_nonce nonce p)
| reach_step p env handler e :
    reachable h p -> in_u 64 (random_nonce env) -> enabled p e -> reachable h (fst (run h env handler e p)).

(** ** Evolution under the other events *)

Section Evolution.
Context `{Proto.BoostAsio} (h : Endian.host) (env : Env) (handler : option (Peer -> Message -> list reaction)).

Lemma evolving_if (b : Peer -> bool) x y : evolving x -> evolving y -> evolving (fun p => if b p then x p else y p).
Proof. intros Hx Hy p. destruct (b p); auto. Qed.

Lemma evolving_ping : evolving (send_ping h env).
Proof. apply evolving_seq; [apply evolving_modify; evolve|apply evolving_send]. Qed.

Lemma evolving_start : evolving (start h env).
Proof.
  intros p. unfold start. destruct (started_ p); [done|]. cbv zeta. set (q := with_started true p).
  assert (Hq : evolves p q) by (unfold q; revert p q; intros [] q; split; auto). clearbody q.
  match goal with |- context [(_ ;> ?x) q] => set (go := x) end.
  assert (Hgo : evolving go).
  { unfold go. apply evolving_seq; [apply evolving_modify; evolve|]. apply evolving_seq; [apply evolving_emit|]. apply evolving_get.
    intros c. destruct (is_inbound_ c); [|apply evolving_seq; [apply evolving_send_version|]]; apply evolving_timers. }
  destruct (state_ q); try done; [|by etrans; [|apply Hgo]].
  match goal with |- context [if ?b then _ else _] => destruct b end; [|done]. etrans; [exact Hq|].
  apply evolving_seq; [by apply evolving_state|done].
Qed.

Lemma evolving_transport : evolving on_transport_disconnect.
Proof.
  intros p. unfold on_transport_disconnect. case_bool_decide; [done|]. apply evolving_seq; [apply evolving_timers|].
  apply evolving_seq; [apply evolving_modify; evolve|by apply evolving_state].
Qed.

Lemma evolves_timers f p p' : evolves (with_timers f p) p' -> evolves p p'.
Proof. intros Hp. etrans; [apply (evolving_timers f)|exact Hp]. Qed.

Lemma evolving_handshake_timer : evolving on_handshake_timer.
Proof.
  intros p. unfold on_handshake_timer. destruct (negb _); [done|]. match goal with |- context [with_timers ?f p] => apply (evolves_timers f) end.
  destruct (gone _); [done|]. case_bool_decide; [done|]. apply evolving_disconnect.
Qed.
Lemma evolving_ping_timer : evolving (on_ping_timer h env).
Proof.
  intros p. unfold on_ping_timer. destruct (negb _); [done|]. match goal with |- context [with_timers ?f p] => apply (evolves_timers f) end.
  destruct (gone _); [done|]. destruct (negb _).
  - destruct (_ <? _); [apply evolving_disconnect|apply evolving_timers].
  - apply evolving_seq; [apply evolving_ping|apply evolving_timers].
Qed.
Lemma evolving_inactivity_timer : evolving (on_inactivity_timer env).
Proof.
  intros p. unfold on_inactivity_timer. destruct (negb _); [done|]. match goal with |- context [with_timers ?f p] => apply (evolves_timers f) end.
  destruct (gone _); [done|]. destruct (_ <? _); [apply evolving_disconnect|apply evolving_timers].
Qed.

Lemma evolving_run e : (forall data, e <> Receive data) -> evolving (run h env handler e).
Proof.
  intros He. destruct e; cbn [run].
  - apply evolving_start.
  - by destruct (He data).
  - apply evolving_disconnect.
  - apply evolving_transport.
  - apply evolving_handshake_timer.
  - apply evolving_ping_timer.
  - apply evolving_inactivity_timer.
  - apply evolving_send.
  - apply evolving_modify. evolve.
Qed.
End Evolution.

(** ** Buffer and handshake *)

(** The receive buffer is bounded, VERSION comes first, and only a completed handshake makes a peer ready. *)
Record peer_inv (p : Peer) : Prop := {
  inv_offset : (recv_buffer_offset_ p <= length (recv_buffer_ p))%nat;
  inv_pending : Z.of_nat (length (pending p)) <= DEFAULT_RECV_FLOOD_SIZE;
  inv_memory : Z.of_nat (length (recv_buffer_ p)) <= 2 * DEFAULT_RECV_FLOOD_SIZE;
  inv_bytes : Forall byte_ok (recv_buffer_ p);
  inv_version : heard p = 0 \/ Proto.MIN_PROTOCOL_VERSION <= heard p;
  inv_connected : successfully_connected_ p = true -> heard p <> 0 /\ is_feeler p = false;
  inv_ready : state_ p = READY -> successfully_connected_ p = true
}.

Definition handshake_inv (p : Peer) : Prop :=
  (heard p = 0 \/ Proto.MIN_PROTOCOL_VERSION <= heard p) /\
  (successfully_connected_ p = true -> heard p <> 0 /\ is_feeler p = false) /\
  (state_ p = READY -> successfully_connected_ p = true).

Lemma evolves_handshake p p' : evolves p p' -> handshake_inv p -> handshake_inv p'.
Proof.
  intros [A1 A2 A3 A4 A5 A6 A7] (I1 & I2 & I3). split_and!.
  - destruct A4 as [->|[_ ?]]; auto.
  - intros Hs. destruct (A6 Hs) as [Hs'|[? ?]]; unfold is_feeler in *; rewrite A1; [|done]. destruct (I2 Hs') as [Hh Hf].
    split; [|done]. destruct A4 as [->|[? _]]; done.
  - intros Hr. destruct (A7 Hr) as [Hr'|]; auto.
Qed.

Lemma handshake_buffer b o p : handshake_inv (with_buffer b o p) <-> handshake_inv p.
Proof. by destruct p. Qed.
Lemma handshake_recv n t p : handshake_inv (with_recv n t p) <-> handshake_inv p.
Proof. by destruct p as [? ? ? [] ? ? ? ? ? ? ? ? ? ? ?]. Qed.

Lemma peer_inv_split p : peer_inv p <->
  in_buffer p /\ Z.of_nat (length (pending p)) <= DEFAULT_RECV_FLOOD_SIZE /\
  Z.of_nat (length (recv_buffer_ p)) <= 2 * DEFAULT_RECV_FLOOD_SIZE /\ Forall byte_ok (recv_buffer_ p) /\ handshake_inv p.
Proof.
  split; [intros []; split_and!; try done; split_and!; done|]. intros (? & ? & ? & ? & ? & ? & ?). by split.
Qed.

Section Inv.
Context `{Proto.BoostAsio} (h : Endian.host) (env : Env) (handler : option (Peer -> Message -> list reaction)).

Lemma evolves_inv p p' : evolves p p' -> peer_inv p -> peer_inv p'.
Proof.
  rewrite !peer_inv_split. intros Hv (I1 & I2 & I3 & I4 & I5). pose proof (evolves_handshake _ _ Hv I5).
  unfold in_buffer, pending in *. by rewrite (ev_buffer _ _ Hv), (ev_offset _ _ Hv).
Qed.

(** Compaction keeps the processed part below the unprocessed part. *)
Lemma compact_size p : in_buffer p -> (length (recv_buffer_ (compact p)) <= 2 * length (pending p))%nat.
Proof.
  unfold in_buffer, compact, pending. intros Hb. rewrite length_drop.
  destruct (Nat.ltb_spec 0 (recv_buffer_offset_ p)); cbn [andb]; [|lia].
  destruct (Nat.leb_spec (length (recv_buffer_ p) / 2) (recv_buffer_offset_ p)) as [|Hc].
  - destruct p. cbn in *. rewrite length_drop. lia.
  - pose proof (Nat.div_mod_eq (length (recv_buffer_ p)) 2). lia.
Qed.

Lemma compact_bytes p : Forall byte_ok (recv_buffer_ p) -> Forall byte_ok (recv_buffer_ (compact p)).
Proof. unfold compact. destruct (_ && _); [|done]. destruct p. cbn. apply Forall_drop. Qed.

Lemma loop_buffer fuel p : recv_buffer_ (fst (process_loop h env handler fuel p)) = recv_buffer_ p.
Proof.
  revert p. induction fuel as [|fuel IH]; intros p; cbn [process_loop]; destruct (scan_frame _ _ _) as [| |hd payload]; try done.
  unfold seq. pose proof (evolving_process h env handler hd payload p) as Hv. destruct (process_message _ _ _ hd payload p) as [q o].
  cbn [modify]. set (q' := advance _ q). specialize (IH q'). destruct (process_loop h env handler fuel q') as [r o'].
  cbn [fst] in *. rewrite IH, <- (ev_buffer _ _ Hv). by destruct q.
Qed.

(** Outside the limits nothing changes but a request to disconnect. *)
Lemma receive_flood data p : in_buffer p -> DEFAULT_RECV_FLOOD_SIZE < Z.of_nat (length (pending p) + length data) ->
  on_transport_receive h env handler data p = (p, [PostDisconnect]).
Proof.
  unfold in_buffer, pending. rewrite length_drop. intros Hb Hl. unfold on_transport_receive. destruct (_ <? _); [done|].
  by rewrite (proj2 (Z.ltb_lt _ _)) by lia.
Qed.

Lemma receive_buffer data p : in_buffer p -> Z.of_nat (length (pending p) + length data) <= DEFAULT_RECV_FLOOD_SIZE ->
  recv_buffer_ (fst (on_transport_receive h env handler data p)) = recv_buffer_ (compact p) ++ data.
Proof.
  unfold in_buffer, pending. rewrite length_drop. intros Hb Hl. unfold on_transport_receive. rewrite !(proj2 (Z.ltb_ge _ _)) by lia.
  cbv zeta. unfold process_received_data. rewrite loop_buffer. by destruct (compact p).
Qed.

Lemma receive_inv data p : Forall byte_ok data -> peer_inv p -> peer_inv (fst (on_transport_receive h env handler data p)).
Proof.
  intros Hd Hi. pose proof Hi as (I1 & I2 & I3 & I4 & I5)%peer_inv_split.
  destruct (Z.le_gt_cases (Z.of_nat (length (pending p) + length data)) DEFAULT_RECV_FLOOD_SIZE) as [Hl|Hl].
  2: { by rewrite receive_flood by (done || lia). }
  pose proof (receive_buffer data p I1 Hl) as Eb. pose proof (receive_shape h env handler data p I1 Hl) as Hs.
  destruct (cut_rest h (network_magic_ (cfg p)) (pending p ++ data)) as [pre Hpre].
  destruct (cut h _ (pending p ++ data)) as [[fs bad] rest]. cbn [snd] in Hpre. destruct Hs as (b & o & E & Ho & Hr). rewrite E in Eb |- *.
  cbn [fst] in *. set (q := with_recv _ _ _) in *. assert (Eb' : b = recv_buffer_ (compact p) ++ data) by (rewrite <- Eb; by destruct q).
  apply peer_inv_split. split_and!.
  - unfold in_buffer. by destruct q.
  - rewrite pending_buffer, Hr. apply (f_equal length) in Hpre. rewrite !length_app in Hpre. lia.
  - rewrite Eb, length_app. pose proof (compact_size p I1). lia.
  - rewrite Eb. apply Forall_app. split; [by apply compact_bytes|done].
  - apply handshake_buffer, handshake_recv. eapply evolves_handshake; [apply run_frames_evolving|done].
Qed.

Lemma run_inv e p : enabled p e -> peer_inv p -> peer_inv (fst (run h env handler e p)).
Proof.
  destruct e; try (intros _; apply evolves_inv; by apply evolving_run). intros [_ Hd]. by apply receive_inv.
Qed.
End Inv.

Lemma new_inv env nonce conn magic inbound height addr port kind :
  peer_inv (Peer_new env nonce conn magic inbound height addr port kind).
Proof.
  split; cbn; try done; try lia; try by left. destruct conn as [c|]; [|done]. by destruct (is_open c).
Qed.

Lemma reachable_inv `{Proto.BoostAsio} h p : reachable h p -> peer_inv p.
Proof.
  induction 1 as [|p nonce _ IH|]; [apply new_inv|destruct p as [[] ? ? ? ? ? ? ? ? ? ? ? ? ? ?], IH; by split|by apply run_inv].
Qed.

(** ** Ranges and timeouts *)

(** The fields are in the range of their types. *)
Definition stats_typed (s : PeerStats) : Prop :=
  in_u 64 (bytes_sent s) /\ in_u 64 (bytes_received s) /\ in_u 64 (messages_sent s) /\ in_u 64 (messages_received s).
Definition remote_typed (r : RemoteInfo) : Prop :=
  in_s 32 (peer_version_ r) /\ in_u 64 (peer_services_ r) /\ in_s 32 (peer_start_height_ r) /\ in_u 64 (peer_nonce_ r) /\
  Forall byte_ok (peer_user_agent_ r) /\ Z.of_nat (length (peer_user_agent_ r)) <= Proto.MAX_SUBVERSION_LENGTH.

(** A connection past [start] has a timeout: of the handshake before it completes, of inactivity after it. *)
Record peer_live (p : Peer) : Prop := {
  live_stats : stats_typed (stats_ p);
  live_remote : remote_typed (remote_ p);
  live_ping : in_u 64 (last_ping_nonce_ p);
  live_unknown : in_s 32 (unknown_command_count_ p);
  live_handshake : (state_ p = CONNECTED /\ started_ p = true) \/ state_ p = VERSION_SENT -> handshake_timer_ (timers_ p) = true;
  live_inactivity : state_ p = READY -> inactivity_timer_ (timers_ p) = true
}.

(** The peer is live, and has been started or not. *)
Definition alive (b : bool) (p : Peer) : Prop := peer_live p /\ started_ p = b.
Definition keeps (b : bool) (a : M) : Prop := forall p, alive b p -> alive b (fst (a p)).

Lemma keeps_seq b x y : keeps b x -> keeps b y -> keeps b (x ;> y).
Proof.
  intros Ha Hb p Hp. unfold seq. specialize (Ha p Hp). destruct (x p) as [q o]. specialize (Hb q Ha). by destruct (y q).
Qed.
Lemma keeps_emit b e : keeps b (emit e).
Proof. by intros p. Qed.
Lemma keeps_skip b : keeps b skip.
Proof. by intros p. Qed.
Lemma keeps_get {A} b (f : Peer -> A) k : (forall x, keeps b (k x)) -> keeps b (get f k).
Proof. intros Hk p. apply Hk. Qed.
Lemma alive_stats b f p : (forall s, stats_typed s -> stats_typed (f s)) -> alive b p -> alive b (with_stats f p).
Proof. intros Hf. destruct p. intros [[L1 L2 L3 L4 L5 L6] Hs]. split; [split; cbn in *; auto|done]. Qed.

(** The fields other than state and timers. *)
Definition typed (p : Peer) : Prop :=
  stats_typed (stats_ p) /\ remote_typed (remote_ p) /\ in_u 64 (last_ping_nonce_ p) /\ in_s 32 (unknown_command_count_ p).
Lemma live_typed p : peer_live p -> typed p.
Proof. by intros []. Qed.
Lemma typed_gone p : gone p = true -> typed p -> peer_live p.
Proof. unfold gone. intros Hg (? & ? & ? & ?). split; try done; destruct (state_ p); try done; by intros [[]|]. Qed.

#[local] Hint Resolve u64_range : peer.
#[local] Hint Resolve keeps_seq keeps_emit keeps_skip : peer.

Section Keeps.
Context `{Proto.BoostAsio} (h : Endian.host) (env : Env) (handler : option (Peer -> Message -> list reaction)).
Hypothesis nonce_range : in_u 64 (random_nonce env).

(** Sending touches the statistics only. *)
Lemma send_stats msg p : exists f, fst (send_message h env msg p) = with_stats f p /\ forall s, stats_typed s -> stats_typed (f s).
Proof.
  assert (Hid : exists f, p = with_stats f p /\ forall s, stats_typed s -> stats_typed (f s)) by (exists (fun s => s); by destruct p).
  unfold send_message. destruct (gone p); [done|]. cbv zeta. match goal with |- context [if ?b then _ else _] => destruct b end; [|done].
  eexists. split; [reflexivity|]. intros s (S1 & S2 & S3 & S4). split_and!; cbn; auto with peer.
Qed.

Lemma keeps_send b msg : keeps b (send_message h env msg).
Proof. intros p Hp. destruct (send_stats msg p) as (f & -> & Hf). by apply alive_stats. Qed.

Lemma keeps_disconnect b : keeps b do_disconnect.
Proof.
  intros p [Hl Hs]. unfold do_disconnect. destruct (gone p) eqn:Eg; [done|]. apply live_typed in Hl.
  destruct p as [? [c|] ? ? ? ? ? ? ? ? ? ? ? ? ?]; (split; [by apply typed_gone|done]).
Qed.

Lemma keeps_transport b : keeps b on_transport_disconnect.
Proof.
  intros p [Hl Hs]. unfold on_transport_disconnect. case_bool_decide; [done|]. apply live_typed in Hl.
  destruct p. split; [by apply typed_gone|done].
Qed.

Lemma alive_send_version p : state_ p = CONNECTED -> alive true p -> alive true (fst (send_version h env p)).
Proof.
  intros Hc Hp. unfold send_version, get, seq. match goal with |- context [send_message h env ?m] => set (msg := m) end.
  destruct (send_stats msg p) as (f & E & Hf). destruct (send_message h env msg p) as [q o]. cbn [fst] in E. subst q. cbn [modify fst].
  destruct p. cbn in *. subst. destruct Hp as [[L1 L2 L3 L4 L5 L6] Hs]. cbn in *.
  split; [split; cbn; auto; try done; intros _; apply L5; by left|done].
Qed.

Lemma keeps_version m : version_wf m -> keeps true (handle_version h env m).
Proof.
  intros (W1 & W2 & W3 & W4 & W5 & W6 & W7 & W8 & W9) p Hp. unfold handle_version. destruct (negb _); [done|].
  destruct (version m <? _); [done|]. set (q := with_remote _ p).
  assert (Hq : alive true q) 
    by (destruct p, Hp as [[L1 L2 L3 L4 L5 L6] Hs]; split; [split; cbn in *; auto; by split_and!|done]).
  destruct (_ && (nonce m =? _)); [done|]. cbv zeta. destruct (is_inbound_ (cfg q)); cbn [negb andb].
  - set (x := if bool_decide (state_ q = CONNECTED) then _ else _).
    assert (Hx : alive true (fst (x q))) by (unfold x; case_bool_decide; [by apply alive_send_version|done]). clearbody x.
    unfold seq. cbn [skip]. destruct (x q) as [q1 o]. pose proof (keeps_send true MVerack q1 Hx). by destruct (send_message h env MVerack q1).
  - apply keeps_seq; [apply keeps_emit| |done]. apply keeps_seq; [apply keeps_skip|apply keeps_send].
Qed.

Lemma keeps_verack b : keeps b handle_verack.
Proof.
  intros p Hp. unfold handle_verack. destruct (successfully_connected_ p); [done|]. destruct (is_feeler p); [done|].
  destruct p, Hp as [[L1 L2 L3 L4 L5 L6] Hs]. split; [split; cbn in *; auto; by intros [[]|]|done].
Qed.

Lemma keeps_pong b n : keeps b (handle_pong env n).
Proof.
  intros p Hp. unfold handle_pong. destruct (n =? _); [|done].
  assert (Hp' : alive b (with_ping 0 (ping_sent_time_ p) p)) by (destruct p, Hp as [[L1 L2 L3 L4 L5 L6] Hs]; split; [split; by cbn in *|done]).
  apply (alive_stats _ (fun s => mkStats (bytes_sent s) (bytes_received s) (messages_sent s) (messages_received s) (connected_time s)
    (last_send s) (last_recv s) (steady_ms env - ping_sent_time_ p))) in Hp'; [|by intros s]. by destruct p.
Qed.

Lemma alive_unknown b n t p : in_s 32 n -> alive b p -> alive b (with_unknown n t p).
Proof. intros Hn. destruct p. intros [[L1 L2 L3 L4 L5 L6] Hs]. split; [by split|done]. Qed.
Lemma keeps_unknown b : keeps b (unknown_command env).
Proof.
  intros p Hp. unfold unknown_command. cbv zeta. set (q := if 60 <? _ then _ else p).
  assert (Hq : alive b q) by (unfold q; destruct (60 <? _); [apply alive_unknown; [by vm_compute|done]|done]). clearbody q.
  match goal with |- context [if ?b then _ else _] => destruct b end; (apply alive_unknown; [apply i32_range|done]).
Qed.

Lemma keeps_getaddr b x : keeps b (modify (with_getaddr x)).
Proof. intros p. destruct p. intros [[L1 L2 L3 L4 L5 L6] Hs]. split; [by split|done]. Qed.

Lemma keeps_react_all b l : keeps b (react_all h env l).
Proof.
  induction l as [|[] l IH]; cbn [react_all react]; [apply keeps_skip|apply keeps_seq; [|done]..].
  - apply keeps_send.
  - apply keeps_disconnect.
  - apply keeps_getaddr.
Qed.

Lemma keeps_deliver b msg : keeps b (deliver h env handler msg).
Proof.
  unfold deliver. destruct handler as [f|]; [|apply keeps_skip]. apply keeps_seq; [apply keeps_emit|].
  apply keeps_get. intros v. apply keeps_react_all.
Qed.

Lemma keeps_handle msg : msg_wf msg -> keeps true (handle h env handler msg).
Proof.
  intros Hw. destruct msg; cbn [handle]; try apply keeps_deliver.
  - apply keeps_seq; [by apply keeps_version|apply keeps_deliver].
  - apply keeps_seq; [apply keeps_verack|apply keeps_deliver].
  - apply keeps_send.
  - apply keeps_pong.
Qed.

Lemma keeps_process hd payload : Forall byte_ok payload -> keeps true (process_message h env handler hd payload).
Proof.
  intros Hb. apply keeps_seq.
  { intros p. apply alive_stats. intros s (? & ? & ? & ?). split_and!; cbn; auto with peer. }
  apply keeps_get. intros r. cbv zeta. destruct (_ && _); [apply keeps_emit|].
  destruct (Msg.create_message _) as [m|]; [|apply keeps_unknown].
  destruct (Msg.deserialize h m payload) as [[] m'] eqn:Ed; [|apply keeps_emit]. apply keeps_handle.
  apply (deserialize_ok h m payload m' Hb) in Ed as (_ & e & rest & _ & He & _). by apply (encodes_wf _ _ He).
Qed.

Lemma keeps_frames fs : Forall (fun f => Forall byte_ok (snd f)) fs -> keeps true (run_frames h env handler fs).
Proof.
  induction 1 as [|[hd payload] fs Hf _ IH]; cbn [run_frames]; [apply keeps_skip|]. apply keeps_seq; [by apply keeps_process|done].
Qed.
End Keeps.

Section Live.
Context `{Proto.BoostAsio} (h : Endian.host) (env : Env) (handler : option (Peer -> Message -> list reaction)).
Hypothesis nonce_range : in_u 64 (random_nonce env).

Lemma scan_payload magic data hd payload : scan_frame h magic data = Complete hd payload -> exists k n, payload = take k (drop n data).
Proof.
  unfold scan_frame. destruct (_ <? _)%nat; [done|]. destruct (Msg.deserialize_header _ _ _) as [[] hd']; [|done].
  destruct (negb _); [done|]. destruct (_ <? _); [done|]. cbv zeta. destruct (_ <? _)%nat; [done|]. destruct (negb _); [done|].
  destruct (_ && _ && _); [done|]. intros [= _ <-]. by eexists _, _.
Qed.

Lemma cut_bytes magic data : Forall byte_ok data -> Forall (fun f => Forall byte_ok (snd f)) (fst (fst (cut h magic data))).
Proof.
  induction data as [data IH] using (cut_ind h magic). intros Hb. rewrite cut_eq.
  destruct (scan_frame h magic data) as [| |hd payload] eqn:E; [constructor..|].
  specialize (IH hd payload eq_refl ltac:(by apply Forall_drop)). destruct (cut h magic (drop _ data)) as [[fs bad] rest]. cbn [fst] in *.
  constructor; [|done]. destruct (scan_payload _ _ _ _ E) as (k & n & ->). cbn. by apply Forall_take, Forall_drop.
Qed.

Lemma alive_buffer c b o p : alive c p -> alive c (with_buffer b o p).
Proof. destruct p. intros [[L1 L2 L3 L4 L5 L6] Hs]. split; [by split|done]. Qed.

Lemma receive_alive data p : Forall byte_ok data -> peer_inv p -> alive true p ->
  alive true (fst (on_transport_receive h env handler data p)).
Proof.
  intros Hd Hi Ha. pose proof Hi as (I1 & _ & _ & I4 & _)%peer_inv_split.
  destruct (Z.le_gt_cases (Z.of_nat (length (pending p) + length data)) DEFAULT_RECV_FLOOD_SIZE) as [Hl|Hl].
  2: { by rewrite receive_flood by (done || lia). }
  pose proof (receive_shape h env handler data p I1 Hl) as Hs.
  pose proof (cut_bytes (network_magic_ (cfg p)) (pending p ++ data)) as Hc.
  destruct (cut h _ (pending p ++ data)) as [[fs bad] rest]. destruct Hs as (b & o & -> & _ & _). cbn [fst] in *.
  apply alive_buffer. unfold with_recv, dress. apply alive_buffer, alive_stats.
  - intros s (? & ? & ? & ?). split_and!; cbn; auto using u64_range.
  - apply keeps_frames; [|done]. apply Hc, Forall_app. split; [by apply Forall_drop|done].
Qed.

Lemma seq_modify f a p : fst ((modify f ;> a) p) = fst (a (f p)).
Proof. unfold seq, modify. by destruct (a (f p)). Qed.

(** A started connection has its handshake timer set. *)
Lemma go_alive p : typed p -> started_ p = true -> state_ p = CONNECTED ->
  alive true (fst ((modify (with_stats (fun s => mkStats (bytes_sent s) (bytes_received s) (messages_sent s) (messages_received s)
      (steady_s env) (steady_s env) (steady_s env) (ping_time_ms s))) ;>
    emit StartReceiving ;>
    get cfg (fun c => if is_inbound_ c then start_handshake_timeout else send_version h env ;> start_handshake_timeout)) p)).
Proof.
  intros (T1 & T2 & T3 & T4) Hs Hc. unfold seq at 1 2. unfold modify at 1. unfold emit, get. cbv beta iota.
  set (q := with_stats _ p). assert (Hq : typed q /\ started_ q = true /\ state_ q = CONNECTED) by by destruct p.
  clearbody q. clear p T1 T2 T3 T4 Hs Hc. destruct Hq as ((T1 & T2 & T3 & T4) & Hs & Hc). destruct (is_inbound_ (cfg q)).
  { destruct q. cbn in *. subst. split; [by split|done]. }
  unfold send_version, get, seq. match goal with |- context [send_message h env ?m] => set (msg := m) end.
  destruct (send_stats h env msg q) as (f & E & Hf). destruct (send_message h env msg q) as [q1 o]. cbn [fst] in E. subst q1.
  destruct q. cbn in *. subst. split; [split; cbn; auto; done|done].
Qed.

Lemma start_alive b p : alive b p -> alive true (fst (start h env p)).
Proof.
  intros Hp. unfold start. destruct (started_ p) eqn:Es; [by split; [apply Hp|]|]. destruct Hp as [Hl _].
  pose proof (live_typed p Hl) as (T1 & T2 & T3 & T4). cbv zeta. destruct p as [c cn s st sc g sd r bf o ln pt uc ur t].
  cbn in Es. subst sd. cbn [with_started started_ connection_ state_].
  assert (Hrest : s <> CONNECTED -> alive true (mkPeerObj c cn s st sc g true r bf o ln pt uc ur t)).
  { intros Hn. destruct Hl as [L1 L2 L3 L4 L5 L6]. cbn in *. split; [split; cbn; auto|done]. intros [[]|]; auto; done. }
  destruct s; try by apply Hrest.
  - match goal with |- context [if ?b then _ else _] => destruct b end; [|by apply Hrest].
    rewrite seq_modify. by apply go_alive.
  - by apply go_alive.
Qed.

Lemma alive_timers b f p : alive b p -> (forall t, handshake_timer_ t = true -> handshake_timer_ (f t) = true) ->
  (forall t, inactivity_timer_ t = true -> inactivity_timer_ (f t) = true) -> alive b (with_timers f p).
Proof. intros [[L1 L2 L3 L4 L5 L6] Hs] Hh Hi. destruct p. cbn in *. split; [split; cbn; auto|done]. Qed.

Lemma keeps_timers b e : e = HandshakeTimer \/ e = PingTimer \/ e = InactivityTimer -> keeps b (run h env handler e).
Proof.
  intros He p Hp. pose proof (keeps_disconnect b) as Hd. destruct He as [-> | [-> | ->]]; cbn [run].
  - unfold on_handshake_timer. destruct (negb _); [done|]. cbv zeta. destruct p, Hp as [[L1 L2 L3 L4 L5 L6] Hs]. unfold gone. cbn in *.
    destruct state_; cbn; try (split; [by apply typed_gone|done]).
    all: try (rewrite bool_decide_eq_false_2 by done); try (rewrite bool_decide_eq_true_2 by done).
    all: try (destruct connection_; (split; [by apply typed_gone|done])).
    split; [split; cbn; auto; by intros [[]|]|done].
  - unfold on_ping_timer. destruct (negb _); [done|]. cbv zeta. set (q := with_timers _ p).
    assert (Hq : alive b q) by by apply alive_timers. clearbody q. destruct (gone q); [done|].
    assert (Hsched : keeps b schedule_ping) by (intros r Hr; by apply alive_timers). destruct (negb _).
    + destruct (_ <? _); [by apply Hd|by apply Hsched].
    + apply keeps_seq; [apply keeps_seq|done|done]; [|apply keeps_send].
      intros r Hr. destruct r, Hr as [[L1 L2 L3 L4 L5 L6] Hs]. split; [split; cbn in *; auto|done].
  - unfold on_inactivity_timer. destruct (negb _); [done|]. cbv zeta. destruct p, Hp as [[L1 L2 L3 L4 L5 L6] Hs]. unfold gone. cbn in *.
    destruct state_; cbn; try (split; [by apply typed_gone|done]).
    all: match goal with |- context [if ?b then _ else _] => destruct b end.
    all: try (destruct connection_; (split; [by apply typed_gone|done])).
    all: split; [split; cbn in *; auto|done].
Qed.

Lemma run_live e p : enabled p e -> peer_inv p -> peer_live p -> peer_live (fst (run h env handler e p)).
Proof.
  intros He Hi Hl. assert (Ha : alive (started_ p) p) by done. destruct e; cbn [run].
  - by apply (start_alive _ p Ha).
  - destruct He as [Hs Hd]. rewrite Hs in Ha. by apply receive_alive.
  - by apply (keeps_disconnect _ p Ha).
  - by apply (keeps_transport _ p Ha).
  - by apply (keeps_timers _ HandshakeTimer ltac:(auto) p Ha).
  - by apply (keeps_timers _ PingTimer ltac:(auto) p Ha).
  - by apply (keeps_timers _ InactivityTimer ltac:(auto) p Ha).
  - by apply (keeps_send _ _ _ _ p Ha).
  - by apply (keeps_getaddr _ _ p Ha).
Qed.
End Live.

Lemma new_live env nonce conn magic inbound height addr port kind :
  peer_live (Peer_new env nonce conn magic inbound height addr port kind).
Proof.
  split; cbn; try by vm_compute.
  - intros [[_ ?]|Hs]; [done|]. destruct conn as [c|]; [|done]. by destruct (is_open c).
  - destruct conn as [c|]; [|done]. by destruct (is_open c).
Qed.

Lemma reachable_live `{Proto.BoostAsio} h p : reachable h p -> peer_live p.
Proof.
  induction 1 as [|p nonce _ IH|]; [apply new_live|destruct p as [[] ? ? ? ? ? ? ? ? ? ? ? ? ? ?], IH; by split|].
  apply run_live; try done. by eapply reachable_inv.
Qed.

(** ** The handshake of two peers *)

(** The bytes handed to the transport. *)
Definition transmitted (o : list effect) : bytes := concat (omap (fun e => match e with Transmit data => Some data | _ => None end) o).

(** A handler that only observes. *)
Definition observer (handler : option (Peer -> Message -> list reaction)) : Prop :=
  match handler with Some f => forall v m, f v m = [] | None => True end.

#[local] Opaque PeerM.frame Proto.from_string Proto.GetUserAgent.

Section Handshake.
Context `{Proto.BoostAsio} (h h' : Endian.host) (env : Env) (handler : option (Peer -> Message -> list reaction)).
Hypothesis accepting : forall data, accepts env data = true.
Hypothesis observing : observer handler.

(** What a connected peer announces. *)
Definition announcement (p : Peer) (c : Connection) : VersionMessage :=
  mkVersion Proto.PROTOCOL_VERSION Proto.NODE_NETWORK (wall_time env)
    (Proto.from_string (remote_address c) (remote_port c) Proto.NODE_NETWORK) Proto.NetworkAddress_new
    (local_nonce_ (cfg p)) Proto.GetUserAgent (local_start_height_ (cfg p)).
Definition announces (p : Peer) (c : Connection) : Message := MVersion (announcement p c).

Definition noted (m : Message) : list effect := match handler with Some _ => [Deliver m] | None => [] end.

Lemma deliver_observed m p : deliver h env handler m p = (p, noted m).
Proof. unfold deliver, noted, observer in *. destruct handler as [f|]; [|done]. unfold seq, emit, get. by rewrite observing. Qed.

(** The parts of a peer that the handshake moves. *)
Record phase := mkPhase { ph_state : PeerState; ph_done : bool; ph_remote : RemoteInfo; ph_timers : Timers }.
Definition at_phase (f : phase) (p : Peer) : Prop :=
  state_ p = ph_state f /\ successfully_connected_ p = ph_done f /\ remote_ p = ph_remote f /\ timers_ p = ph_timers f.
Definition same_link (p p' : Peer) : Prop := cfg p' = cfg p /\ connection_ p' = connection_ p.

(** A step that reaches a phase, transmits and does not ask to disconnect. *)
Definition outcome (f : phase) (out : bytes) (p : Peer) (r : Peer * list effect) : Prop :=
  same_link p (fst r) /\ at_phase f (fst r) /\ ~ In PostDisconnect (snd r) /\ transmitted (snd r) = out.

Lemma transmitted_app o o' : transmitted (o ++ o') = transmitted o ++ transmitted o'.
Proof. unfold transmitted. by rewrite omap_app, concat_app. Qed.

Lemma outcome_seq f out f' out' a b p : outcome f out p (a p) ->
  (forall q, same_link p q -> at_phase f q -> outcome f' out' q (b q)) -> outcome f' (out ++ out') p ((a ;> b) p).
Proof.
  unfold outcome, seq. destruct (a p) as [q o]. cbn [fst snd]. intros ([L1 L2] & H2 & H3 & H4) Hb.
  destruct (Hb q (conj L1 L2) H2) as ([L1' L2'] & H2' & H3' & H4'). destruct (b q) as [r o']. cbn [fst snd] in *.
  split_and!; [split; congruence|done|rewrite in_app_iff; tauto|by rewrite transmitted_app, H4, H4'].
Qed.
Lemma outcome_skip f p : at_phase f p -> outcome f [] p (skip p).
Proof. intros Hp. split_and!; [done|done|by intros []|done]. Qed.

Definition remote_of (v : VersionMessage) : RemoteInfo := mkRemote (version v) (vservices v) (start_height v) (user_agent v) (nonce v).

Lemma accept_version v c f p : version v = Proto.PROTOCOL_VERSION -> connection_ p = Some c -> at_phase f p ->
  ph_remote f = remote_new -> ph_done f = false -> nonce v <> local_nonce_ (cfg p) ->
  (is_inbound_ (cfg p), ph_state f) = (true, CONNECTED) \/ (is_inbound_ (cfg p), ph_state f) = (false, VERSION_SENT) ->
  outcome (mkPhase VERSION_SENT false (remote_of v) (ph_timers f))
    ((if is_inbound_ (cfg p) then frame h (network_magic_ (cfg p)) (announces p c) else []) ++ frame h (network_magic_ (cfg p)) MVerack)
    p (accept_message h env handler (MVersion v) p).
Proof.
  intros Hv Hc (P1 & P2 & P3 & P4) Hr Hd Hn Hk.
  destruct p as [[mg ib ct nn lh ta tp] cn s st sc g sd r bf o ln pt uc ur t], f as [s' sc' r' t']. cbn in *. subst.
  apply Z.eqb_neq in Hn. destruct Hk as [[= -> ->]|[= -> ->]].
  all: unfold accept_message, seq, modify, get, handle, seq; cbn -[handle_version].
  all: rewrite (bool_decide_eq_true_2 (Proto.VERSION = Proto.VERSION)) by done; cbn -[handle_version].
  all: unfold handle_version; cbn; rewrite Hv; cbn; rewrite ?Hn; cbn.
  all: rewrite ?(bool_decide_eq_true_2 (CONNECTED = CONNECTED)) by done.
  all: unfold seq, skip, emit, send_version, get, send_message, seq, modify; cbn; rewrite !accepting; cbn; rewrite ?accepting; cbn.
  all: rewrite deliver_observed.
  all: unfold outcome, same_link, at_phase, remote_of, transmitted, announces, announcement, noted; cbn; rewrite Hv.
  all: destruct handler; cbn; rewrite ?app_nil_r; split_and!; try done; naive_solver.
Qed.

Lemma accept_verack f p : at_phase f p -> peer_version_ (ph_remote f) <> 0 -> ph_done f = false -> is_feeler p = false ->
  outcome (mkPhase READY true (ph_remote f) (mkTimers false true true)) [] p (accept_message h env handler MVerack p).
Proof.
  intros (P1 & P2 & P3 & P4) Hr Hd Hf.
  destruct p as [cf cn s st sc g sd r bf o ln pt uc ur t], f as [s' sc' r' t']. cbn in *. subst.
  unfold accept_message, seq, modify, get. cbn -[handle]. rewrite (proj2 (Z.eqb_neq _ _) Hr). cbn -[handle_verack].
  unfold seq, handle_verack, is_feeler in *. cbn in *. rewrite Hf. cbn. rewrite deliver_observed.
  unfold outcome, noted. cbn. split_and!; [done..|destruct handler; cbn; naive_solver|by destruct handler].
Qed.

Lemma start_phase p c : started_ p = false -> connection_ p = Some c -> is_open c = true -> state_ p = CONNECTED -> remote_ p = remote_new ->
  successfully_connected_ p = false -> timers_ p = mkTimers false false false ->
  outcome (mkPhase (if is_inbound_ (cfg p) then CONNECTED else VERSION_SENT) false remote_new (mkTimers true false false))
    (if is_inbound_ (cfg p) then [] else frame h (network_magic_ (cfg p)) (announces p c)) p (start h env p).
Proof.
  intros Hs Hc Ho Hst Hr Hd Ht. destruct p as [[mg ib ct nn lh ta tp] cn s st sc g sd r bf o ln pt uc ur t]. cbn in *. subst.
  unfold start. cbn. unfold seq, modify, emit, get. cbn. destruct ib; cbn.
  - unfold outcome. cbn. split_and!; try done. naive_solver.
  - unfold seq, send_version, get, seq, send_message. cbn. rewrite accepting. cbn.
    unfold outcome, transmitted, announces, announcement. cbn. rewrite app_nil_r.
    split_and!; try done. naive_solver.
Qed.

Lemma announces_wf p c : in_s 64 (wall_time env) -> in_u 64 (local_nonce_ (cfg p)) -> in_s 32 (local_start_height_ (cfg p)) ->
  addr_wf (Proto.from_string (remote_address c) (remote_port c) Proto.NODE_NETWORK) -> msg_wf (announces p c).
Proof.
  intros Hw Hn Hh Ha. cbn. unfold version_wf. cbn. split_and!; try done; try by vm_compute.
  - split_and!; [by vm_compute| |by vm_compute]. split; [done|]. repeat constructor; by vm_compute.
  - apply Forall_forall. intros x Hx. with_strategy transparent [Proto.GetUserAgent] (unfold Proto.GetUserAgent in Hx).
    revert x Hx. apply Forall_forall. repeat constructor; by vm_compute.
Qed.
End Handshake.

Lemma at_phase_recv f b o n t p : at_phase f (with_buffer b o (with_recv n t p)) <-> at_phase f p.
Proof. by destruct p as [? ? ? [] ? ? ? ? ? ? ? ? ? ? ?]. Qed.
Lemma same_link_recv b o n t p q : same_link q (with_buffer b o (with_recv n t p)) <-> same_link q p.
Proof. by destruct p as [? ? ? [] ? ? ? ? ? ? ? ? ? ? ?]. Qed.

Lemma in_buffer_with b o p : (o <= length b)%nat -> in_buffer (with_buffer b o p).
Proof. by destruct p. Qed.

(** A received handshake message, or VERSION followed by VERACK, is accepted whole. *)
Lemma handshake_receive `{Proto.BoostAsio} h h' env handler ms p : (length ms <= 2)%nat ->
  Forall (fun m => msg_wf m /\ match m with MVersion _ | MVerack => True | _ => False end) ms ->
  in_u 32 (network_magic_ (cfg p)) -> in_buffer p -> pending p = [] ->
  let r := on_transport_receive h' env handler (concat (frame h (network_magic_ (cfg p)) <$> ms)) p in
  (forall f out, outcome f out p (accept_all h' env handler ms p) -> outcome f out p r) /\ in_buffer (fst r) /\ pending (fst r) = [].
Proof.
  intros Hl Hw Hm Hb Hp r. assert (Hwf : Forall msg_wf ms) by (eapply Forall_impl; [exact Hw|]; by intros m []).
  assert (Hs : Forall (fun m => (length (frame h (network_magic_ (cfg p)) m) <= 424)%nat) ms).
  { eapply Forall_impl; [exact Hw|]. intros m [Hm1 Hm2]. destruct (scan_sent h h' env None (network_magic_ (cfg p)) m [] Hm Hm1) as (_ & -> & _).
    pose proof (serialize_encodes h m Hm1) as He. unfold Proto.MESSAGE_HEADER_SIZE. cbn [sent snd].
    destruct m; try done; [|cbn; lia]. inversion He as [? ? Hv| | | | | | | |]; subst. apply enc_version_size in Hv. lia. }
  assert (Hlen : Z.of_nat (length (concat (frame h (network_magic_ (cfg p)) <$> ms))) <= DEFAULT_RECV_FLOOD_SIZE).
  { unfold DEFAULT_RECV_FLOOD_SIZE. destruct ms as [|m1 [|m2 [|m3 ms]]]; cbn -[Z.of_nat] in *; [lia|..|lia].
    - rewrite app_nil_r. apply Forall_cons in Hs as [? _]. lia.
    - rewrite app_nil_r, length_app. apply Forall_cons in Hs as [? [? _]%Forall_cons]. lia. }
  destruct (stream_exact h h' env handler _ ms p Hm Hwf eq_refl Hb Hp Hlen) as (b & o & E & Ho & Hd). unfold r. rewrite E. cbn [fst].
  split_and!; [|by apply in_buffer_with|by rewrite pending_buffer].
  intros f out (O1 & O2 & O3 & O4). split_and!; [by apply same_link_recv|by apply at_phase_recv|done..].
Qed.

(** The three receptions of the handshake. *)
Section Receptions.
Context `{Proto.BoostAsio} (h h' : Endian.host) (env : Env) (handler : option (Peer -> Message -> list reaction)) (p : Peer).
Hypothesis accepting : forall data, accepts env data = true.
Hypothesis observing : observer handler.
Hypothesis magic_range : in_u 32 (network_magic_ (cfg p)).
Hypothesis buffer_ok : in_buffer p.
Hypothesis nothing_pending : pending p = [].

Local Abbreviation receives data f out :=
  (let r := on_transport_receive h' env handler data p in outcome f out p r /\ in_buffer (fst r) /\ pending (fst r) = []).

Lemma receives_messages ms f out : (length ms <= 2)%nat ->
  Forall (fun m => msg_wf m /\ match m with MVersion _ | MVerack => True | _ => False end) ms ->
  outcome f out p (accept_all h' env handler ms p) -> receives (concat (frame h (network_magic_ (cfg p)) <$> ms)) f out.
Proof.
  intros Hl Hw Ho. destruct (handshake_receive h h' env handler ms p Hl Hw magic_range buffer_ok nothing_pending) as (H1 & H2 & H3).
  split_and!; auto.
Qed.

Lemma receives_verack f : at_phase f p -> peer_version_ (ph_remote f) <> 0 -> ph_done f = false -> is_feeler p = false ->
  receives (frame h (network_magic_ (cfg p)) MVerack) (mkPhase READY true (ph_remote f) (mkTimers false true true)) [].
Proof.
  intros Hp Hr Hd Hf. pose proof (receives_messages [MVerack] (mkPhase READY true (ph_remote f) (mkTimers false true true)) []) as Hm.
  cbn [fmap list_fmap concat] in Hm. rewrite app_nil_r in Hm. apply Hm; [cbn; lia|by repeat constructor|]. cbn [accept_all].
  apply (outcome_seq (mkPhase READY true (ph_remote f) (mkTimers false true true)) []); [by apply accept_verack|]. intros q _ Hq. by apply outcome_skip.
Qed.

Section Version.
Context (v : VersionMessage) (c : Connection) (f : phase).
Hypothesis version_ok : version_wf v /\ version v = Proto.PROTOCOL_VERSION.
Hypothesis link_ok : connection_ p = Some c /\ nonce v <> local_nonce_ (cfg p).
Hypothesis phase_ok : at_phase f p /\ ph_remote f = remote_new /\ ph_done f = false.

Lemma receives_version : is_inbound_ (cfg p) = true -> ph_state f = CONNECTED ->
  receives (frame h (network_magic_ (cfg p)) (MVersion v)) (mkPhase VERSION_SENT false (remote_of v) (ph_timers f))
    (frame h' (network_magic_ (cfg p)) (announces env p c) ++ frame h' (network_magic_ (cfg p)) MVerack).
Proof.
  intros Hi Hs. destruct version_ok as [Hw Hv], link_ok as [Hc Hn], phase_ok as (Hp & Hr & Hd).
  pose proof (receives_messages [MVersion v]) as Hm. cbn [fmap list_fmap concat] in Hm. rewrite app_nil_r in Hm.
  apply Hm; [cbn; lia|repeat (apply Forall_cons; split; [done|]); by apply Forall_nil|]. cbn [accept_all].
  pose proof (accept_version h' env handler accepting observing v c f p Hv Hc Hp Hr Hd Hn) as Ha. rewrite Hi, Hs in Ha.
  rewrite <- (app_nil_r (_ ++ _)). apply (outcome_seq _ _ _ _ _ _ _ (Ha ltac:(by left))). intros q _ Hq. by apply outcome_skip.
Qed.

Lemma receives_version_verack : is_inbound_ (cfg p) = false -> ph_state f = VERSION_SENT -> is_feeler p = false ->
  receives (frame h (network_magic_ (cfg p)) (MVersion v) ++ frame h (network_magic_ (cfg p)) MVerack)
    (mkPhase READY true (remote_of v) (mkTimers false true true)) (frame h' (network_magic_ (cfg p)) MVerack).
Proof.
  intros Hi Hs Hf. destruct version_ok as [Hw Hv], link_ok as [Hc Hn], phase_ok as (Hp & Hr & Hd).
  pose proof (receives_messages [MVersion v; MVerack]) as Hm. cbn [fmap list_fmap concat] in Hm. rewrite app_nil_r in Hm.
  apply Hm; [cbn; lia|repeat (apply Forall_cons; split; [done|]); by apply Forall_nil|]. cbn [accept_all].
  pose proof (accept_version h' env handler accepting observing v c f p Hv Hc Hp Hr Hd Hn) as Ha. rewrite Hi, Hs in Ha.
  rewrite <- (app_nil_r (frame h' _ _)). apply (outcome_seq _ _ _ _ _ _ _ (Ha ltac:(by right))). intros q [Hl _] Hq.
  apply (outcome_seq (mkPhase READY true (remote_of v) (mkTimers false true true)) []); [|intros q' _ Hq'; by apply outcome_skip].
  apply (accept_verack h' env handler observing _ q Hq); [cbn; by rewrite Hv|done|]. unfold is_feeler in *. by rewrite Hl.
Qed.
End Version.
End Receptions.

(** ** Claims *)

(** C12: the version handshake completes: an outbound (or manual) and an inbound peer of the same network, connected
    to each other, with different nonces and observing handlers, exchange VERSION and VERACK and both become READY;
    each then knows the version, the height and the nonce of the other, its handshake timer is cancelled and its ping and
    inactivity timers run; no step asks to disconnect, and no byte is left over.  Byte orders, clocks, heights and
    addresses are arbitrary. *)
Theorem handshake_completes `{Proto.BoostAsio} (ho hi : Endian.host) (env env' : Env)
    (handler handler' : option (Peer -> Message -> list reaction)) (magic no ni heo hei : Z) (co ci : Connection)
    (target : list Z) (tport : Z) (kind : ConnectionType) :
  (forall data, accepts env data = true) -> (forall data, accepts env' data = true) -> observer handler -> observer handler' ->
  in_s 64 (wall_time env) -> in_s 64 (wall_time env') -> in_u 32 magic ->
  in_u 64 no -> in_u 64 ni -> no <> 0 -> ni <> 0 -> no <> ni -> in_s 32 heo -> in_s 32 hei -> kind <> FEELER ->
  is_open co = true -> is_open ci = true ->
  addr_wf (Proto.from_string (remote_address co) (remote_port co) Proto.NODE_NETWORK) ->
  addr_wf (Proto.from_string (remote_address ci) (remote_port ci) Proto.NODE_NETWORK) ->
  let '(o1, e1) := start ho env (create_outbound env no (Some co) magic heo target tport kind) in
  let '(i1, f1) := start hi env' (create_inbound env' ni (Some ci) magic hei) in
  let '(i2, f2) := on_transport_receive hi env' handler' (transmitted e1) i1 in
  let '(o2, e2) := on_transport_receive ho env handler (transmitted f2) o1 in
  let '(i3, f3) := on_transport_receive hi env' handler' (transmitted e2) i2 in
  let done p n height := at_phase (mkPhase READY true
    (mkRemote Proto.PROTOCOL_VERSION Proto.NODE_NETWORK height Proto.GetUserAgent n) (mkTimers false true true)) p /\ pending p = [] in
  done o2 ni hei /\ done i3 no heo /\ ~ In PostDisconnect (e1 ++ f1 ++ f2 ++ e2 ++ f3).
Proof.
  intros Ac Ac' Ob Ob' Wt Wt' Hm Hno Hni Zo Zi Hd Hh Hh' Hk Hco Hci Wa Wa'.
  set (o0 := create_outbound env no (Some co) magic heo target tport kind). set (i0 := create_inbound env' ni (Some ci) magic hei).
  assert (Eno : local_nonce_ (cfg o0) = no) by (cbn; by rewrite (proj2 (Z.eqb_neq _ _) Zo)).
  assert (Eni : local_nonce_ (cfg i0) = ni) by (cbn; by rewrite (proj2 (Z.eqb_neq _ _) Zi)).
  pose proof (start_phase ho env Ac o0 co eq_refl eq_refl Hco ltac:(by cbn; rewrite Hco) eq_refl eq_refl eq_refl) as S1.
  pose proof (start_phase hi env' Ac' i0 ci eq_refl eq_refl Hci ltac:(by cbn; rewrite Hci) eq_refl eq_refl eq_refl) as S2.
  pose proof (evolving_start ho env o0) as V1. pose proof (evolving_start hi env' i0) as V2.
  destruct (start ho env o0) as [o1 e1], (start hi env' i0) as [i1 f1].
  destruct S1 as ([Co1 Lo1] & Po1 & De1 & Te1), S2 as ([Ci1 Li1] & Pi1 & Df1 & Tf1). cbn [fst snd] in *.
  assert (Bo : in_buffer o1 /\ pending o1 = []) by (unfold in_buffer, pending; by rewrite (ev_buffer _ _ V1), (ev_offset _ _ V1)).
  assert (Bi : in_buffer i1 /\ pending i1 = []) by (unfold in_buffer, pending; by rewrite (ev_buffer _ _ V2), (ev_offset _ _ V2)).
  assert (Mo : network_magic_ (cfg o1) = magic) by by rewrite Co1. assert (Mi : network_magic_ (cfg i1) = magic) by by rewrite Ci1.
  pose proof (announces_wf env o0 co Wt ltac:(by rewrite Eno) Hh Wa) as Wo.
  pose proof (announces_wf env' i0 ci Wt' ltac:(by rewrite Eni) Hh' Wa') as Wi.
  assert (Ni : nonce (announcement env o0 co) <> local_nonce_ (cfg i1)) by (rewrite Ci1, Eni; unfold announcement; cbn [nonce]; by rewrite Eno).
  assert (No : nonce (announcement env' i0 ci) <> local_nonce_ (cfg o1))
    by (rewrite Co1, Eno; unfold announcement; cbn [nonce]; rewrite Eni; by apply not_eq_sym).
  rewrite Te1. change (network_magic_ (cfg o0)) with magic. cbn [is_inbound_ cfg o0 create_outbound Peer_new].
  pose proof (receives_version ho hi env' handler' i1 Ac' Ob' ltac:(by rewrite Mi) (proj1 Bi) (proj2 Bi) (announcement env o0 co) ci _
    (conj Wo eq_refl) (conj Li1 Ni)
    (conj Pi1 (conj eq_refl eq_refl)) ltac:(by rewrite Ci1) eq_refl) as R2.
  rewrite Mi in R2. unfold announces in *. destruct (on_transport_receive hi env' handler' _ i1) as [i2 f2].
  destruct R2 as (([Ci2 Li2] & Pi2 & Df2 & Tf2) & Bi2 & Ei2). cbn [fst snd] in *. rewrite Tf2.
  assert (Hf : is_feeler o1 = false) by (unfold is_feeler; rewrite Co1; by apply bool_decide_eq_false_2).
  assert (Ea : announcement env' i1 ci = announcement env' i0 ci) by (unfold announcement; by rewrite Ci1).
  pose proof (receives_version_verack hi ho env handler o1 Ac Ob ltac:(by rewrite Mo) (proj1 Bo) (proj2 Bo) (announcement env' i0 ci) co _
    (conj Wi eq_refl) (conj Lo1 No)
    (conj Po1 (conj eq_refl eq_refl)) ltac:(by rewrite Co1) eq_refl Hf) as R3.
  rewrite Mo in R3. rewrite Ea. destruct (on_transport_receive ho env handler _ o1) as [o2 e2].
  destruct R3 as (([Co2 Lo2] & Po2 & De2 & Te2) & Bo2 & Eo2). cbn [fst snd] in *. rewrite Te2.
  pose proof (receives_verack ho hi env' handler' i2 Ob' ltac:(by rewrite Ci2, Mi) Bi2 Ei2 _ Pi2 ltac:(done) eq_refl
    ltac:(unfold is_feeler; rewrite Ci2, Ci1; by apply bool_decide_eq_false_2)) as R4.
  rewrite Ci2, Mi in R4. destruct (on_transport_receive hi env' handler' _ i2) as [i3 f3].
  destruct R4 as ((_ & Pi3 & Df3 & _) & _ & Ei3). cbn [fst snd] in *.
  unfold remote_of in *. cbn [announcement version vservices start_height user_agent nonce ph_remote] in *. rewrite Eno, Eni in *.
  split_and!; try done. rewrite !in_app_iff. tauto.
Qed.

(** C15: whatever happens to a peer (start, data in any chunks, sends, timers, disconnects by either side, any
    handler), its receive buffer stays within twice the flood limit of 5,000,000 bytes, at most the limit is
    unprocessed, and the read position stays inside; the version it heard is none or supported; the handshake completes only
    after a supported VERSION and never on a feeler, and only a completed handshake makes the peer READY. *)
Theorem peer_invariant `{Proto.BoostAsio} (h : Endian.host) (p : Peer) : reachable h p ->
  (recv_buffer_offset_ p <= length (recv_buffer_ p))%nat /\
  Z.of_nat (length (pending p)) <= DEFAULT_RECV_FLOOD_SIZE /\
  Z.of_nat (length (recv_buffer_ p)) <= 2 * DEFAULT_RECV_FLOOD_SIZE /\
  (peer_version_ (remote_ p) = 0 \/ Proto.MIN_PROTOCOL_VERSION <= peer_version_ (remote_ p)) /\
  (successfully_connected_ p = true -> Proto.MIN_PROTOCOL_VERSION <= peer_version_ (remote_ p) /\ connection_type_ (cfg p) <> FEELER) /\
  (state_ p = READY -> successfully_connected_ p = true).
Proof.
  intros [I1 I2 I3 I4 I5 I6 I7]%reachable_inv. split_and!; try done. intros Hs. destruct (I6 Hs) as [Hh Hf].
  split; [by destruct I5 as [|]|]. by apply bool_decide_eq_false in Hf.
Qed.

(** every field of a reachable peer is in the range of its C++ type: the counters are 64-bit, the version,
    the height and the count of unknown commands 32-bit signed, the nonces and services 64-bit, the user agent at most
    256 bytes, and every buffered value is a byte. *)
Theorem peer_typed `{Proto.BoostAsio} (h : Endian.host) (p : Peer) : reachable h p -> typed p /\ Forall byte_ok (recv_buffer_ p).
Proof. intros Hr. split; [by eapply live_typed, reachable_live|]. by apply reachable_inv in Hr as []. Qed.

(** The peer after a disconnect. *)
Definition ended (p : Peer) (r : Peer * list effect) : Prop :=
  state_ (fst r) = DISCONNECTED /\ connection_ (fst r) = None /\ timers_ (fst r) = mkTimers false false false /\
  (connection_ p <> None -> snd r = [CloseConnection]).

Lemma with_timers_ends f p : gone p = false -> ended p (do_disconnect (with_timers f p)).
Proof.
  intros Hg. unfold do_disconnect. replace (gone (with_timers f p)) with false by by destruct p.
  unfold ended. by destruct p as [? [c|] ? ? ? ? ? ? ? ? ? ? ? ? ?].
Qed.

Lemma with_timers_fields f p : let q := with_timers f p in
  gone q = gone p /\ state_ q = state_ p /\ stats_ q = stats_ p /\ last_ping_nonce_ q = last_ping_nonce_ p /\ ping_sent_time_ q = ping_sent_time_ p.
Proof. by destruct p. Qed.
Ltac timer_fields := match goal with |- context [with_timers ?f ?p] =>
  destruct (with_timers_fields f p) as (E1 & E2 & E3 & E4 & E5); rewrite ?E1, ?E2, ?E3, ?E4, ?E5 end.

(** C16: no connection can hang: every reachable peer that was started and is open has a timeout running.
    Before the handshake completes it is the handshake timer, whose expiry closes the connection; afterwards it is the inactivity
    timer, whose expiry closes the connection when nothing was sent or received for more than twenty minutes and restarts the timer
    otherwise; an expired ping timer closes it when the last ping has been unanswered for more than twenty minutes. *)
Theorem connection_times_out `{Proto.BoostAsio} (h : Endian.host) (p : Peer) :
  reachable h p -> started_ p = true -> is_connected p = true -> state_ p <> CONNECTING ->
  (state_ p <> READY /\ handshake_timer_ (timers_ p) = true /\ ended p (on_handshake_timer p)) \/
  (state_ p = READY /\ inactivity_timer_ (timers_ p) = true /\
   (forall env,
     let idle := steady_s env - Z.max (last_send (stats_ p)) (last_recv (stats_ p)) in
     if INACTIVITY_TIMEOUT_SEC <? idle then ended p (on_inactivity_timer env p) else on_inactivity_timer env p = (p, [])) /\
   (forall env, ping_timer_ (timers_ p) = true -> last_ping_nonce_ p <> 0 ->
     PING_TIMEOUT_SEC * 1000 + 1000 <= steady_ms env - ping_sent_time_ p -> ended p (on_ping_timer h env p))).
Proof.
  intros [L1 L2 L3 L4 L5 L6]%reachable_live Hs Hc Hn. apply negb_true_iff in Hc.
  assert (Hh : state_ p <> READY -> handshake_timer_ (timers_ p) = true)
    by (intros Hr; apply L5; unfold gone in Hc; destruct (state_ p); auto; done).
  destruct (decide (state_ p = READY)) as [Hr|Hr]; [right|left].
  - split_and!; [done|by apply L6| |].
    + intros env idle. unfold on_inactivity_timer. rewrite (L6 Hr). cbn [negb]. cbv zeta.
      timer_fields. rewrite Hc. fold idle. destruct (_ <? idle); [by apply with_timers_ends|].
      specialize (L6 Hr). destruct p as [? ? ? ? ? ? ? ? ? ? ? ? ? ? []]. cbn in *. by subst.
    + intros env Hp Hl Ht. unfold on_ping_timer. rewrite Hp. cbn [negb]. cbv zeta.
      timer_fields. rewrite Hc, (proj2 (Z.eqb_neq _ _) Hl). cbn [negb]. rewrite (proj2 (Z.ltb_lt _ _)); [by apply with_timers_ends|].
      unfold PING_TIMEOUT_SEC in *. pose proof (Z.quot_le_mono 1201000 (steady_ms env - ping_sent_time_ p) 1000 ltac:(lia) ltac:(lia)) as Hq.
      change (Z.quot 1201000 1000) with 1201 in Hq. lia.
  - split_and!; [done|by apply Hh|]. unfold on_handshake_timer. rewrite Hh by done. cbn [negb]. cbv zeta.
    timer_fields. rewrite Hc, bool_decide_eq_false_2 by done. by apply with_timers_ends.
Qed.

(** ** After a synchronous disconnect *)

(** [handle_verack] does not look at the state: when the handler disconnects the peer while a VERSION is processed
    (as for a nonce that collides) and a VERACK follows in the same chunk, the closed peer becomes READY again,
    without a connection. *)
Theorem verack_revives `{Proto.BoostAsio} (h : Endian.host) (env : Env) (p : Peer) : gone p = true -> peer_version_ (remote_ p) <> 0 ->
  successfully_connected_ p = false -> is_feeler p = false -> let q := fst (accept_message h env None MVerack p) in
  state_ q = READY /\ connection_ q = connection_ p /\ ping_timer_ (timers_ q) = true.
Proof.
  intros Hg Hv Hs Hf q. destruct (accept_verack h env None I (mkPhase (state_ p) false (remote_ p) (timers_ p)) p) as (L & (P1 & _ & _ & P4) & _).
  - by split_and!.
  - done.
  - done.
  - done.
  - fold q in L, P1, P4. split_and!; [done|apply L|by rewrite P4].
Qed.

(** [handle_pong] has no check for an outstanding ping: a PONG with nonce 0 sets the ping time of a peer that was
    sent no ping. *)
Theorem unsolicited_pong (env : Env) (p : Peer) : last_ping_nonce_ p = 0 ->
  ping_time_ms (stats_ (fst (handle_pong env 0 p))) = steady_ms env - ping_sent_time_ p.
Proof. intros Hn. unfold handle_pong. rewrite Hn. by destruct p as [? ? ? [] ? ? ? ? ? ? ? ? ? ? ?]. Qed.

(** ** Witnesses *)

Definition started_example : Peer := fst (@run asio_example Endian.Little env_example None Start outbound_example).
Lemma started_reachable : @reachable asio_example Endian.Little started_example.
Proof. apply reach_step; [apply reach_new|vm_compute; intuition congruence|done]. Defined.

Lemma peer_invariant_witness : (recv_buffer_offset_ started_example <= length (recv_buffer_ started_example))%nat /\
  state_ started_example = VERSION_SENT.
Proof. split; [apply (@peer_invariant asio_example Endian.Little started_example started_reachable)|by vm_compute]. Defined.

Lemma peer_typed_witness : typed started_example.
Proof. apply (@peer_typed asio_example Endian.Little started_example started_reachable). Defined.

Lemma connection_times_out_witness : handshake_timer_ (timers_ started_example) = true /\
  ended started_example (on_handshake_timer started_example).
Proof.
  destruct (@connection_times_out asio_example Endian.Little started_example started_reachable) as [(_ & H1 & H2)|(H1 & _)].
  - by vm_compute.
  - by vm_compute.
  - by vm_compute.
  - done.
  - exfalso. revert H1. by vm_compute.
Defined.

Lemma handshake_completes_witness :
  let '(o1, e1) := @start asio_example Endian.Little env_example outbound_example in
  let '(i1, f1) := @start asio_example Endian.Big env_example (create_inbound env_example 12 conn_example 0xC0C0C0C0 7) in
  let '(i2, f2) := @on_transport_receive asio_example Endian.Big env_example None (transmitted e1) i1 in
  let '(o2, e2) := @on_transport_receive asio_example Endian.Little env_example None (transmitted f2) o1 in
  let '(i3, f3) := @on_transport_receive asio_example Endian.Big env_example None (transmitted e2) i2 in
  state_ o2 = READY /\ state_ i3 = READY.
Proof.
  assert (Ha : addr_wf (@Proto.from_string asio_example (str "10.0.0.1") 9590 Proto.NODE_NETWORK)).
  { set (a := Proto.from_string _ _ _). let b := eval vm_compute in a in assert (E : a = b) by (vm_compute; reflexivity).
    rewrite E. clear. split_and!; [by vm_compute|split; [reflexivity|]; repeat constructor; by vm_compute|by vm_compute]. }
  assert (Hr : forall x, x = 0 \/ x = 7 -> in_s 32 x) by (intros x [-> | ->]; by vm_compute).
  assert (Hw : in_s 64 (wall_time env_example)) by by vm_compute. assert (Hm : in_u 32 0xC0C0C0C0) by by vm_compute.
  assert (Hn : in_u 64 11 /\ in_u 64 12) by (split; by vm_compute).
  pose proof (@handshake_completes asio_example Endian.Little Endian.Big env_example env_example None None 0xC0C0C0C0 11 12 0 7
    (mkConn true (str "10.0.0.1") 9590) (mkConn true (str "10.0.0.1") 9590) (str "10.0.0.1") 9590 OUTBOUND
    (fun _ => eq_refl) (fun _ => eq_refl) I I Hw Hw Hm (proj1 Hn) (proj2 Hn) ltac:(lia) ltac:(lia) ltac:(lia)
    (Hr 0 ltac:(auto)) (Hr 7 ltac:(auto)) ltac:(discriminate) eq_refl eq_refl Ha Ha) as Hc.
  unfold outbound_example, conn_example.
  destruct (start _ _ _) as [o1 e1]. destruct (start _ _ (create_inbound _ _ _ _ _)) as [i1 f1].
  destruct (on_transport_receive _ _ _ _ i1) as [i2 f2]. destruct (on_transport_receive _ _ _ _ o1) as [o2 e2].
  destruct (on_transport_receive _ _ _ _ i2) as [i3 f3]. destruct Hc as (((S1 & _) & _) & ((S2 & _) & _) & _). by split.
Defined.
