(* ===== verification/AddrMan.v ===== *)
(** * AddrMan: the address manager ([network/addr_manager.hpp/.cpp])

    Two tables of peer addresses: [new_] (heard of) and [tried_] (connected to before).  A [std::map] is a [gmap] whose
    iteration order is the order of the keys.  Every public function holds the mutex and is one step; the clock is an
    argument.  The random numbers of a request are the interface [Random]. *)
From Stdlib Require Import String.
From stdpp Require Import gmap sorting.
From S2P Require Import Prelude Arith Bytes Block Protocol Persist.
#[local] Open Scope Z_scope.
#[local] Set Warnings "-register-all".
Import Proto.

(** ** Data *)

Record AddrInfo := mkInfo {
  address : NetworkAddress; timestamp : Z; last_try : Z; last_success : Z; attempts : Z; tried : bool
}.

Abbreviation addr_table := (gmap (list Z) AddrInfo).
Record AddressManager := mkAM { tried_ : addr_table; new_ : addr_table }.

(** The generator of one request: the [i]-th number drawn below [n], and [std::shuffle]. *)
Class Random := { draw : nat -> nat -> nat; shuffle : list TimestampedAddress -> list TimestampedAddress }.
Class LawfulRandom `(Random) : Prop := {
  draw_lt : forall i n, (0 < n)%nat -> (draw i n < n)%nat;
  shuffle_perm : forall l, shuffle l ≡ₚ l
}.

(** How reading a JSON value ends: with a result, with an exception, or by undefined behaviour (a missing member of a
    constant object). *)
Inductive jres (A : Type) := JOk (a : A) | JThrow | JCrash.
Arguments JOk {A}. Arguments JThrow {A}. Arguments JCrash {A}.
Definition jbind {A B} (x : jres A) (k : A -> jres B) : jres B :=
  match x with JOk a => k a | JThrow => JThrow | JCrash => JCrash end.
#[local] Notation "x <- e ;; k" := (jbind e (fun x => k)) (at level 100, e at next level, right associativity).

Inductive file := NotFound | Unparsable | Parsed (root : json).

Module AddrMan.

Definition STALE_AFTER_DAYS : Z := 30.
Definition MAX_FAILURES : Z := 10.
Definition SECONDS_PER_DAY : Z := 86400.
Definition SELECT_MAX_CHECKS : nat := 64.
Definition SELECT_TRIED_BIAS_PERCENT : nat := 80.
Definition SELECT_COOLDOWN_SEC : Z := 600.
Definition SELECT_ATTEMPT_BYPASS : Z := 30.

(** [AddrKey]: the address and the port, big-endian. *)
Definition AddrKey (addr : NetworkAddress) : list Z :=
  ip addr ++ [Z.land (Z.shiftr (port addr) 8) 0xFF; Z.land (port addr) 0xFF].
Definition key_le (a b : list Z) : Prop := array_lt b a = false.
#[export] Instance key_le_dec a b : Decision (key_le a b).
Proof. unfold key_le. apply _. Defined.
Definition entry_le (a b : list Z * AddrInfo) : Prop := key_le a.1 b.1.
#[export] Instance entry_le_dec a b : Decision (entry_le a b).
Proof. unfold entry_le. apply _. Defined.

(** The elements of a table in the order of iteration. *)
Definition entries (m : addr_table) : list (list Z * AddrInfo) := merge_sort entry_le (map_to_list m).

Definition AddrInfo_of (addr : NetworkAddress) (ts : Z) : AddrInfo := mkInfo addr ts 0 0 0 false.
Definition set_timestamp ts i := mkInfo (address i) ts (last_try i) (last_success i) (attempts i) (tried i).
Definition set_try t n i := mkInfo (address i) (timestamp i) t (last_success i) n (tried i).
Definition set_success t i := mkInfo (address i) (timestamp i) (last_try i) t 0 true.
Definition set_attempts n i := mkInfo (address i) (timestamp i) (last_try i) (last_success i) n (tried i).
Definition set_tried b i := mkInfo (address i) (timestamp i) (last_try i) (last_success i) (attempts i) b.

Definition is_stale (now : Z) (i : AddrInfo) : bool :=
  if (timestamp i =? 0) || (now <? timestamp i) then false
  else STALE_AFTER_DAYS * SECONDS_PER_DAY <? u32 (now - timestamp i).

(** The comparison with [MAX_FAILURES] is unsigned. *)
Definition is_terrible (now : Z) (i : AddrInfo) : bool :=
  if MAX_FAILURES <=? u32 (attempts i) then true else negb (tried i) && is_stale now i.

Definition empty : AddressManager := mkAM ∅ ∅.
Definition now (time : Z) : Z := u32 time.

(** ** Learning addresses *)

Definition all_zero (l : bytes) : bool := forallb (fun b => b =? 0) l.
Definition TEN_YEARS : Z := 10 * 365 * 24 * 60 * 60.
Definition effective (now_s ts : Z) : Z :=
  let eff_ts := if ts =? 0 then now_s else ts in
  if (now_s <? eff_ts) || (TEN_YEARS <? u32 (now_s - eff_ts)) then now_s else eff_ts.
Definition refresh (eff_ts : Z) (i : AddrInfo) : AddrInfo :=
  if timestamp i <? eff_ts then set_timestamp eff_ts i else i.

Definition add_internal (time : Z) (addr : NetworkAddress) (ts : Z) (am : AddressManager) : bool * AddressManager :=
  if port addr =? 0 then (false, am)
  else if all_zero (ip addr) then (false, am)
  else
    let now_s := now time in
    let eff_ts := effective now_s ts in
    let info := AddrInfo_of addr eff_ts in
    let key := AddrKey addr in
    match tried_ am !! key with
    | Some i => (false, mkAM (<[key := refresh eff_ts i]> (tried_ am)) (new_ am))
    | None =>
        match new_ am !! key with
        | Some i => (false, mkAM (tried_ am) (<[key := refresh eff_ts i]> (new_ am)))
        | None =>
            if is_terrible now_s info then (false, am)
            else (true, mkAM (tried_ am) (<[key := info]> (new_ am)))
        end
    end.
Definition add := add_internal.

Fixpoint add_multiple (time : Z) (addresses : list TimestampedAddress) (added : Z) (am : AddressManager) : Z * AddressManager :=
  match addresses with
  | [] => (added, am)
  | ta :: l =>
      let '(ok, am) := add_internal time (Proto.address ta) (Proto.timestamp ta) am in
      add_multiple time l (if ok then added + 1 else added) am
  end.

(** ** Connection results *)

Definition attempt (time : Z) (addr : NetworkAddress) (am : AddressManager) : AddressManager :=
  let key := AddrKey addr in
  let t := now time in
  match new_ am !! key with
  | Some i => mkAM (tried_ am) (<[key := set_try t (i32 (attempts i + 1)) i]> (new_ am))
  | None =>
      match tried_ am !! key with
      | Some i => mkAM (<[key := set_try t (attempts i) i]> (tried_ am)) (new_ am)
      | None => am
      end
  end.

Definition good (time : Z) (addr : NetworkAddress) (am : AddressManager) : AddressManager :=
  let key := AddrKey addr in
  let current_time := now time in
  match new_ am !! key with
  | Some i => mkAM (<[key := set_success current_time i]> (tried_ am)) (delete key (new_ am))
  | None =>
      match tried_ am !! key with
      | Some i => mkAM (<[key := set_tried (tried i) (set_success current_time i)]> (tried_ am)) (new_ am)
      | None => am
      end
  end.

Definition failed (time : Z) (addr : NetworkAddress) (am : AddressManager) : AddressManager :=
  let key := AddrKey addr in
  match new_ am !! key with
  | Some i =>
      let i := set_attempts (i32 (attempts i + 1)) i in
      mkAM (tried_ am) (if is_terrible (now time) i then delete key (new_ am) else <[key := i]> (new_ am))
  | None =>
      match tried_ am !! key with
      | Some i =>
          let i := set_attempts (i32 (attempts i + 1)) i in
          if MAX_FAILURES <=? u32 (attempts i)
          then mkAM (delete key (tried_ am)) (<[key := set_tried false i]> (new_ am))
          else mkAM (<[key := i]> (tried_ am)) (new_ am)
      | None => am
      end
  end.

Definition cleanup_stale (time : Z) (am : AddressManager) : AddressManager :=
  let t := now time in
  mkAM (tried_ am) (filter (fun '(_, i) => is_stale t i || is_terrible t i = false) (new_ am)).

Definition size (am : AddressManager) : nat := base.size (tried_ am) + base.size (new_ am).

(** ** Selection *)

Section Select.
Context `{Random} (time : Z) (am : AddressManager).

Definition ok (info : AddrInfo) : bool :=
  (last_try info =? 0) || (SELECT_COOLDOWN_SEC <=? u32 (now time - last_try info)) || (SELECT_ATTEMPT_BYPASS <=? attempts info).

(** Up to [k] random probes of a table from the [c]-th number on: an eligible address, or how many numbers were drawn.
    (A position outside the table would be undefined behaviour; [draw_lt] excludes it.) *)
Fixpoint probe (l : list (list Z * AddrInfo)) (c k : nat) : NetworkAddress + nat :=
  match k with
  | O => inr c
  | S k =>
      match l !! draw c (length l) with
      | Some (_, i) => if ok i then inl (address i) else probe l (S c) k
      | None => inr c
      end
  end.
Definition checks (l : list (list Z * AddrInfo)) : nat := Nat.min (length l) SELECT_MAX_CHECKS.
Definition pick (l : list (list Z * AddrInfo)) (c : nat) : option NetworkAddress := (fun e => address e.2) <$> l !! draw c (length l).

(** The first table by probes, then the second one, then any entry of the second (of the first, when the second is empty). *)
Definition search (l l' : list (list Z * AddrInfo)) (c : nat) : option NetworkAddress :=
  match probe l c (checks l) with
  | inl a => Some a
  | inr c =>
      match l' with
      | [] => pick l c
      | _ => match probe l' c (checks l') with inl a => Some a | inr c => pick l' c end
      end
  end.

Definition select : option NetworkAddress :=
  let t := entries (tried_ am) in
  let n := entries (new_ am) in
  match t, n with
  | [], [] => None
  | [], _ => search n t 0
  | _, [] => search t n 1
  | _, _ => if (draw 0 100 <? SELECT_TRIED_BIAS_PERCENT)%nat then search t n 1 else search n t 1
  end.

Definition select_new_for_feeler : option NetworkAddress :=
  match entries (new_ am) with [] => None | n => pick n 0 end.

(** ** Answers to GETADDR *)

Fixpoint collect (now_s : Z) (max_count : nat) (l : list (list Z * AddrInfo)) (result : list TimestampedAddress) : list TimestampedAddress :=
  match l with
  | [] => result
  | (_, i) :: l =>
      if (max_count <=? length result)%nat then result
      else if port (address i) =? 0 then collect now_s max_count l result
      else if all_zero (ip (address i)) then collect now_s max_count l result
      else if is_terrible now_s i then collect now_s max_count l result
      else collect now_s max_count l (result ++ [mkTA (timestamp i) (address i)])
  end.
Definition get_addresses (max_count : nat) : list TimestampedAddress :=
  shuffle (collect (now time) max_count (entries (new_ am)) (collect (now time) max_count (entries (tried_ am)) [])).
End Select.

(** ** Persistence *)

Definition save_info (i : AddrInfo) : json :=
  JObj [("ip", JArr (JInt <$> ip (address i)));
        ("port", JInt (port (address i)));
        ("services", JInt (services (address i)));
        ("timestamp", JInt (timestamp i));
        ("last_try", JInt (last_try i));
        ("last_success", JInt (last_success i));
        ("attempts", JInt (attempts i))]%string.
Definition save_table (m : addr_table) : json := JArr ((fun e => save_info e.2) <$> entries m).
Definition Save (am : AddressManager) : json :=
  JObj [("version", JInt 1);
        ("tried_count", JInt (Z.of_nat (base.size (tried_ am))));
        ("new_count", JInt (Z.of_nat (base.size (new_ am))));
        ("tried", save_table (tried_ am));
        ("new", save_table (new_ am))]%string.

(** [addr_json[key]] on a constant value, [size()], conversions, and iteration. *)
Definition at_key (k : string) (j : json) : jres json :=
  match j with JObj l => match Persist.assoc k l with Some v => JOk v | None => JCrash end | _ => JThrow end.
Definition jsize (j : json) : nat :=
  match j with JArr l => length l | JObj l => length l | JOther => 0 | _ => 1 end.
Definition at_index (n : nat) (j : json) : jres json :=
  match j with JArr l => match l !! n with Some v => JOk v | None => JCrash end | _ => JThrow end.
Definition to_int (w : Z -> Z) (j : json) : jres Z := match j with JInt z => JOk (w z) | _ => JThrow end.
Definition items (j : json) : list json :=
  match j with JArr l => l | JObj l => snd <$> l | JOther => [] | j => [j] end.

Fixpoint load_ip (n : nat) (j : json) : jres bytes :=
  match n with
  | O => JOk []
  | S n => bs <- load_ip n j;; v <- at_index n j;; b <- to_int u8 v;; JOk (bs ++ [b])
  end.
Definition get_field (w : Z -> Z) (k : string) (j : json) : jres Z := v <- at_key k j;; to_int w v.

(** One entry; [None] when its address has not sixteen bytes. *)
Definition load_info (is_tried : bool) (j : json) : jres (option AddrInfo) :=
  jip <- at_key "ip" j;;
  if negb (jsize jip =? 16)%nat then JOk None
  else
    bs <- load_ip 16 jip;;
    p <- get_field u16 "port" j;;
    svc <- get_field u64 "services" j;;
    ts <- get_field u32 "timestamp" j;;
    lt <- get_field u32 "last_try" j;;
    ls <- get_field u32 "last_success" j;;
    at_ <- get_field i32 "attempts" j;;
    JOk (Some (mkInfo (mkNA svc bs p) ts lt ls at_ is_tried)).

Fixpoint load_table (is_tried : bool) (l : list json) (m : addr_table) : jres addr_table :=
  match l with
  | [] => JOk m
  | j :: l =>
      i <- load_info is_tried j;;
      load_table is_tried l (match i with Some i => <[AddrKey (address i) := i]> m | None => m end)
  end.

Definition load_member (is_tried : bool) (k : string) (root : json) : jres addr_table :=
  match Persist.member k root with Some j => load_table is_tried (items j) ∅ | None => JOk ∅ end.

Definition load_root (root : json) (am : AddressManager) : jres (bool * AddressManager) :=
  match Persist.value_int "version" 0 root with
  | None => JThrow
  | Some version =>
      if negb (version =? 1) then JOk (false, am)
      else t <- load_member true "tried" root;; n <- load_member false "new" root;; JOk (true, mkAM t n)
  end.

(** [Load]; an exception clears both tables, and the outer [option] is undefined behaviour. *)
Definition Load (f : file) (am : AddressManager) : option (bool * AddressManager) :=
  match f with
  | NotFound => Some (false, am)
  | Unparsable => Some (false, empty)
  | Parsed root => match load_root root am with JOk r => Some r | JThrow => Some (false, empty) | JCrash => None end
  end.
End AddrMan.
