(* ===== verification/AddrManProps.v ===== *)
(** * AddrManProps: theorems about the address manager

    The invariant of the two tables under every operation, what GETADDR answers contain, selection, the
    life of an address, and the round trip through the peers file. *)
From Stdlib Require Import String.
From stdpp Require Import gmap sorting.
From S2P Require Import Prelude Arith Bytes Block Protocol Persist.
#[local] Open Scope Z_scope.
#[local] Set Warnings "-register-all".
Import Proto.
From S2P Require Import AddrMan.
Import AddrMan.

(** ** Tables *)

Lemma entries_perm m : entries m ≡ₚ map_to_list m.
Proof. apply merge_sort_Permutation. Qed.
Lemma entries_lookup m k i : (k, i) ∈ entries m <-> m !! k = Some i.
Proof. rewrite entries_perm. apply elem_of_map_to_list. Qed.
Lemma entries_keys m : NoDup (entries m).*1.
Proof. rewrite entries_perm. apply NoDup_fst_map_to_list. Qed.
Lemma entries_nil m : entries m = [] <-> m = ∅.
Proof.
  split; [|intros ->; unfold entries; by rewrite map_to_list_empty]. intros E. apply map_to_list_empty_iff.
  apply Permutation_nil_r. by rewrite <- (entries_perm m), E.
Qed.

Lemma port_bytes p : in_u 16 p -> p = 256 * Z.land (Z.shiftr p 8) 0xFF + Z.land p 0xFF.
Proof.
  intros Hp. unfold in_u in Hp. change 0xFF with (Z.ones 8). rewrite !Z.land_ones, Z.shiftr_div_pow2 by lia.
  change (2 ^ 8) with 256. change (2 ^ 16) with 65536 in Hp. zlia.
Qed.

Lemma AddrKey_inj a b : addr_wf a -> addr_wf b -> AddrKey a = AddrKey b -> ip a = ip b /\ port a = port b.
Proof.
  intros (_ & [La _] & Pa) (_ & [Lb _] & Pb) E. unfold AddrKey in E. apply app_inj_1 in E as [E1 E2]; [|by rewrite La, Lb].
  split; [done|]. injection E2 as E2 E3. rewrite (port_bytes _ Pa), (port_bytes _ Pb). lia.
Qed.

(** ** The invariant *)

(** An address worth keeping. *)
Definition valid_addr (a : NetworkAddress) : Prop := addr_wf a /\ port a <> 0 /\ all_zero (ip a) = false.
Definition info_wf (i : AddrInfo) : Prop :=
  in_u 32 (timestamp i) /\ in_u 32 (last_try i) /\ in_u 32 (last_success i) /\ in_s 32 (attempts i).
Definition entry_ok (b : bool) (k : list Z) (i : AddrInfo) : Prop :=
  k = AddrKey (address i) /\ valid_addr (address i) /\ info_wf i /\ tried i = b /\ (b = true -> 0 <= attempts i < MAX_FAILURES).
Definition table_ok (b : bool) (m : addr_table) : Prop := map_Forall (entry_ok b) m.
Definition am_ok (am : AddressManager) : Prop := table_ok true (tried_ am) /\ table_ok false (new_ am) /\ tried_ am ##ₘ new_ am.

Lemma now_range t : in_u 32 (now t).
Proof. apply u32_range. Qed.
Create HintDb addr.
Lemma in_s_0 : in_s 32 0.
Proof. by vm_compute. Qed.
#[local] Hint Resolve now_range i32_range in_s_0 : addr.

Lemma effective_range n ts : in_u 32 n -> in_u 32 ts -> in_u 32 (effective n ts) /\ effective n ts <= n /\ n - effective n ts <= TEN_YEARS.
Proof.
  intros Hn Ht. unfold effective. cbv zeta. set (e := if ts =? 0 then n else ts). assert (He : in_u 32 e) by (unfold e; by destruct (ts =? 0)).
  destruct (Z.ltb_spec n e); cbn [orb]; [unfold TEN_YEARS; split_and!; [done|lia..]|].
  rewrite u32_id by (unfold in_u in *; lia). destruct (Z.ltb_spec TEN_YEARS (n - e)); [unfold TEN_YEARS; split_and!; [done|lia..]|].
  split_and!; [done|lia..].
Qed.

Lemma entry_update b k i i' : entry_ok b k i -> address i' = address i -> tried i' = tried i -> info_wf i' ->
  (b = true -> 0 <= attempts i' < MAX_FAILURES) -> entry_ok b k i'.
Proof. intros (E1 & E2 & E3 & E4 & E5) Ha Ht Hw Hn. unfold entry_ok. by rewrite Ha, Ht. Qed.

Lemma disjoint_insert_same (t n : addr_table) k i i' : t !! k = Some i -> t ##ₘ n -> <[k := i']> t ##ₘ n.
Proof. intros Hk Hd. apply map_disjoint_insert_l_2; [|done]. by eapply map_disjoint_Some_l. Qed.

Lemma update_tried am k i i' : am_ok am -> tried_ am !! k = Some i -> entry_ok true k i' -> am_ok (mkAM (<[k := i']> (tried_ am)) (new_ am)).
Proof.
  intros (O1 & O2 & O3) Hk Hi. split_and!; cbn; [by apply map_Forall_insert_2|done|by eapply disjoint_insert_same].
Qed.
Lemma update_new am k i' : am_ok am -> tried_ am !! k = None -> entry_ok false k i' -> am_ok (mkAM (tried_ am) (<[k := i']> (new_ am))).
Proof.
  intros (O1 & O2 & O3) Hk Hi. split_and!; cbn; [done|by apply map_Forall_insert_2|by apply map_disjoint_insert_r_2].
Qed.

Lemma refresh_ok b k i e : in_u 32 e -> entry_ok b k i -> entry_ok b k (refresh e i).
Proof.
  intros He Hi. unfold refresh. destruct (_ <? _); [|done]. destruct Hi as (E1 & E2 & (W1 & W2 & W3 & W4) & E4 & E5). by split_and!.
Qed.

Lemma add_ok time a ts am : am_ok am -> addr_wf a -> in_u 32 ts -> am_ok (add time a ts am).2.
Proof.
  intros Ho Ha Hts. unfold add, add_internal. destruct (Z.eqb_spec (port a) 0) as [|Hp]; [done|].
  destruct (all_zero (ip a)) eqn:Ez; [done|]. cbv zeta.
  destruct (effective_range (now time) ts (now_range time) Hts) as (He & _). set (e := effective (now time) ts) in *.
  destruct (tried_ am !! AddrKey a) as [i|] eqn:Et; cbn [snd].
  { eapply update_tried; [done..|]. apply refresh_ok; [done|]. by apply (proj1 Ho). }
  destruct (new_ am !! AddrKey a) as [i|] eqn:En; cbn [snd].
  { apply update_new; [done..|]. apply refresh_ok; [done|]. by apply (proj1 (proj2 Ho)). }
  destruct (is_terrible _ _); [done|]. apply update_new; [done..|]. split_and!; done.
Qed.

Lemma add_multiple_ok time l n am : am_ok am -> Forall taddr_wf l -> am_ok (add_multiple time l n am).2.
Proof.
  intros Ho Hl. revert n am Ho. induction Hl as [|ta l [Ht Ha] _ IH]; intros n am Ho; [done|]. cbn [add_multiple].
  pose proof (add_ok time (Proto.address ta) (Proto.timestamp ta) am Ho Ha Ht) as Ho'. unfold add in Ho'.
  destruct (add_internal _ _ _ _) as [ok am']. by apply IH.
Qed.

Lemma attempt_ok time a am : am_ok am -> am_ok (attempt time a am).
Proof.
  intros Ho. unfold attempt. cbv zeta. destruct (new_ am !! AddrKey a) as [i|] eqn:En.
  - pose proof (proj1 (proj2 Ho) _ _ En) as Hi. apply update_new; [done|by eapply map_disjoint_Some_r, En; apply Ho|].
    pose proof Hi as (_ & _ & (W1 & W2 & W3 & W4) & _). eapply entry_update; [exact Hi|done..| |done]. split_and!; cbn; auto with addr.
  - destruct (tried_ am !! AddrKey a) as [i|] eqn:Et; [|done]. pose proof (proj1 Ho _ _ Et) as Hi.
    eapply update_tried; [done..|]. pose proof Hi as (_ & _ & (W1 & W2 & W3 & W4) & _ & E5).
    eapply entry_update; [exact Hi|done..| |done]. split_and!; cbn; auto with addr.
Qed.

Lemma good_ok time a am : am_ok am -> am_ok (good time a am).
Proof.
  intros Ho. unfold good. cbv zeta. destruct (new_ am !! AddrKey a) as [i|] eqn:En.
  - pose proof (proj1 (proj2 Ho) _ _ En) as (E1 & E2 & (W1 & W2 & W3 & W4) & _). destruct Ho as (O1 & O2 & O3). split_and!; cbn.
    + apply map_Forall_insert_2; [|done]. unfold MAX_FAILURES. split_and!; try done; split_and!; cbn; auto with addr.
    + by apply map_Forall_delete.
    + apply map_disjoint_insert_l_2; [by rewrite lookup_delete_eq|]. by apply map_disjoint_delete_r.
  - destruct (tried_ am !! AddrKey a) as [i|] eqn:Et; [|done]. pose proof (proj1 Ho _ _ Et) as Hi.
    eapply update_tried; [done..|]. pose proof Hi as (_ & _ & (W1 & W2 & W3 & W4) & _ & E5).
    eapply entry_update; [exact Hi|done..| |cbn; unfold MAX_FAILURES; lia]. split_and!; cbn; auto with addr.
Qed.

Lemma failed_ok time a am : am_ok am -> am_ok (failed time a am).
Proof.
  intros Ho. unfold failed. cbv zeta. destruct (new_ am !! AddrKey a) as [i|] eqn:En.
  - pose proof (proj1 (proj2 Ho) _ _ En) as Hi. destruct (is_terrible _ _).
    + destruct Ho as (O1 & O2 & O3). split_and!; cbn; [done|by apply map_Forall_delete|by apply map_disjoint_delete_r].
    + apply update_new; [done|by eapply map_disjoint_Some_r, En; apply Ho|].
      pose proof Hi as (_ & _ & (W1 & W2 & W3 & W4) & _). eapply entry_update; [exact Hi|done..| |done]. split_and!; cbn; auto with addr.
  - destruct (tried_ am !! AddrKey a) as [i|] eqn:Et; [|done].
    pose proof (proj1 Ho _ _ Et) as Hi. pose proof Hi as (E1 & E2 & (W1 & W2 & W3 & W4) & _ & E5). specialize (E5 eq_refl).
    assert (Hr : i32 (attempts i + 1) = attempts i + 1) by (apply i32_id; unfold in_s, MAX_FAILURES in *; lia).
    cbn [attempts set_attempts]. rewrite Hr. rewrite u32_id by (unfold in_u, MAX_FAILURES in *; lia).
    assert (Hs : in_s 32 (attempts i + 1)) by (rewrite <- Hr; apply i32_range).
    destruct (Z.leb_spec MAX_FAILURES (attempts i + 1)).
    + destruct Ho as (O1 & O2 & O3). split_and!; cbn; [by apply map_Forall_delete|apply map_Forall_insert_2; [|done]; by split_and!|].
      apply map_disjoint_insert_r_2; [by rewrite lookup_delete_eq|by apply map_disjoint_delete_l].
    + eapply update_tried; [done..|]. eapply entry_update; [exact Hi|done..|by split_and!|cbn; unfold MAX_FAILURES in *; lia].
Qed.

Lemma cleanup_ok time am : am_ok am -> am_ok (cleanup_stale time am).
Proof.
  intros (O1 & O2 & O3). unfold cleanup_stale. split_and!; cbn; [done|intros k i [Hk _]%map_lookup_filter_Some; by apply O2|].
  apply map_disjoint_spec. intros k x y Hx [Hy _]%map_lookup_filter_Some. by eapply map_disjoint_spec.
Qed.

Lemma empty_ok : am_ok empty.
Proof. split_and!; [apply map_Forall_empty..|apply map_disjoint_empty_l]. Qed.

(** ** Persistence *)

Lemma load_ip_ok l n : Forall byte_ok l -> (n <= length l)%nat -> load_ip n (JArr (JInt <$> l)) = JOk (take n l).
Proof.
  intros Hb. induction n as [|n IH]; intros Hn; [done|]. cbn [load_ip]. rewrite IH by lia. cbn [jbind at_index].
  destruct (lookup_lt_is_Some_2 l n) as [b Hl]; [lia|]. rewrite list_lookup_fmap, Hl. cbn [fmap option_fmap option_map jbind to_int].
  rewrite (take_S_r _ _ _ Hl). rewrite Forall_lookup in Hb. specialize (Hb _ _ Hl). unfold u8. by rewrite Z.mod_small by exact Hb.
Qed.

Lemma load_info_ok b i : addr_wf (address i) -> info_wf i -> load_info b (save_info i) = JOk (Some (set_tried b i)).
Proof.
  intros (Ws & [Wl Wb] & Wp) (T1 & T2 & T3 & T4). unfold load_info, save_info. cbn -[load_ip].
  rewrite length_fmap, Wl. cbn -[load_ip]. rewrite load_ip_ok by (done || lia). cbn. rewrite take_ge by lia.
  unfold u16. rewrite Z.mod_small by exact Wp. rewrite u64_id, !u32_id, i32_id by done. by destruct i as [[] ? ? ? ? ?].
Qed.

Lemma load_table_ok b l m : Forall (fun e => entry_ok b e.1 e.2) l ->
  load_table b ((fun e => save_info e.2) <$> l) m = JOk (foldr (fun e => <[e.1 := e.2]>) m (rev l)).
Proof.
  intros Hl. revert m. induction Hl as [|[k i] l (E1 & (E2 & _) & E3 & E4 & _) _ IH]; intros m; [done|]. cbn in E1, E2, E3, E4.
  cbn [fmap list_fmap snd load_table]. rewrite load_info_ok by done. cbn [jbind]. rewrite IH. cbn [rev]. rewrite foldr_app. cbn [foldr fst snd].
  replace (set_tried b i) with i by (destruct i; cbn in *; by subst). by rewrite E1.
Qed.

Lemma load_save_table b m : table_ok b m -> load_table b (items (save_table m)) ∅ = JOk m.
Proof.
  intros Ht. unfold save_table, items. rewrite load_table_ok.
  - f_equal. rewrite <- (list_to_map_to_list m) at 2. apply list_to_map_proper; [|by rewrite <- Permutation_rev, entries_perm].
    rewrite <- Permutation_rev. apply entries_keys.
  - apply Forall_forall. intros [k i] Hi. apply entries_lookup in Hi. by apply Ht.
Qed.

Lemma load_save am am0 : am_ok am -> Load (Parsed (Save am)) am0 = Some (true, am).
Proof.
  intros (O1 & O2 & _). unfold Load, load_root, Save. cbn -[load_table items save_table].
  unfold load_member. cbn -[load_table items save_table]. rewrite load_save_table by done. cbn -[load_table items save_table].
  rewrite load_save_table by done. cbn. by destruct am.
Qed.

(** A load that fails leaves the tables as they are or empties them. *)
Lemma load_false f am am' : Load f am = Some (false, am') -> am' = am \/ am' = empty.
Proof.
  destruct f as [| |root]; cbn [Load]; [intros [= <-]; by left|intros [= <-]; by right|].
  unfold load_root. destruct (Persist.value_int _ _ _) as [v|]; [|intros [= <-]; by right].
  destruct (negb _); [intros [= <-]; by left|]. destruct (load_member true _ _); cbn [jbind]; [|intros [= <-]; by right|done].
  destruct (load_member false _ _); cbn [jbind]; [done|intros [= <-]; by right|done].
Qed.

(** Whatever file is loaded, an entry is filed under its own key with the flag of its table. *)
Definition filed (b : bool) (m : addr_table) : Prop := forall k i, m !! k = Some i -> k = AddrKey (address i) /\ tried i = b.

Lemma load_table_filed b l m m' : filed b m -> load_table b l m = JOk m' -> filed b m'.
Proof.
  revert m. induction l as [|j l IH]; intros m Hm; cbn [load_table]; [by intros [= <-]|].
  destruct (load_info b j) as [[i|]| |] eqn:E; cbn [jbind]; [|by apply IH|done|done]. apply IH. intros k x.
  assert (Hi : tried i = b).
  { revert E. unfold load_info. destruct (at_key _ _); [|done..]. cbn [jbind]. destruct (negb _); [done|].
    repeat (match goal with |- context [jbind ?x _] => destruct x; [|done..] end; cbn [jbind]). by intros [= <-]. }
  intros [[<- <-]|[_ Hx]]%lookup_insert_Some; [done|by apply Hm].
Qed.

Lemma load_filed f am am' : Load f am = Some (true, am') -> filed true (tried_ am') /\ filed false (new_ am').
Proof.
  destruct f as [| |root]; cbn [Load]; [done..|]. unfold load_root. destruct (Persist.value_int _ _ _) as [v|]; [|done].
  destruct (negb _); [done|]. assert (Hm : forall b k m, load_member b k root = JOk m -> filed b m).
  { intros b k m. unfold load_member. destruct (Persist.member k root); [by apply load_table_filed|]. by intros [= <-]. }
  destruct (load_member true _ _) eqn:E1; cbn [jbind]; [|done..]. destruct (load_member false _ _) eqn:E2; cbn [jbind]; [|done..].
  intros [= <-]. split; [by apply (Hm _ _ _ E1)|by apply (Hm _ _ _ E2)].
Qed.

(** ** Operations *)

Inductive addr_op :=
| OpAdd (a : NetworkAddress) (ts : Z) | OpAddMultiple (l : list TimestampedAddress) | OpAttempt (a : NetworkAddress)
| OpGood (a : NetworkAddress) | OpFailed (a : NetworkAddress) | OpCleanup.
Definition op_wf (o : addr_op) : Prop :=
  match o with
  | OpAdd a ts => addr_wf a /\ in_u 32 ts
  | OpAddMultiple l => Forall taddr_wf l
  | OpAttempt a | OpGood a | OpFailed a => addr_wf a
  | OpCleanup => True
  end.
Definition apply_op (time : Z) (o : addr_op) (am : AddressManager) : AddressManager :=
  match o with
  | OpAdd a ts => (add time a ts am).2
  | OpAddMultiple l => (add_multiple time l 0 am).2
  | OpAttempt a => attempt time a am
  | OpGood a => good time a am
  | OpFailed a => failed time a am
  | OpCleanup => cleanup_stale time am
  end.

(** The states of an address manager that starts empty; the clock may change arbitrarily between operations.  It may load files
    that such a manager saved, and try to load any other file, as long as that fails. *)
Inductive am_reachable : AddressManager -> Prop :=
| am_empty : am_reachable empty
| am_step time o am : am_reachable am -> op_wf o -> am_reachable (apply_op time o am)
| am_load_saved am am0 ok am' : am_reachable am -> am_reachable am0 -> Load (Parsed (Save am0)) am = Some (ok, am') -> am_reachable am'
| am_load_failed f am am' : am_reachable am -> Load f am = Some (false, am') -> am_reachable am'.

Lemma am_reachable_ok am : am_reachable am -> am_ok am.
Proof.
  induction 1 as [|time o am _ IH Hw|am am0 ok am' _ _ _ IH0 E|f am am' _ IH E]; [apply empty_ok| | |].
  2:{ rewrite load_save in E by done. by injection E as _ <-. }
  2:{ destruct (load_false f am am' E) as [->| ->]; [done|apply empty_ok]. }
  destruct o; cbn in *.
  - destruct Hw. by apply add_ok.
  - by apply add_multiple_ok.
  - by apply attempt_ok.
  - by apply good_ok.
  - by apply failed_ok.
  - by apply cleanup_ok.
Qed.

(** ** Answers to GETADDR *)

(** The entries that may be handed out. *)
Definition offered (now_s : Z) (e : list Z * AddrInfo) : bool :=
  negb (port (address e.2) =? 0) && negb (all_zero (ip (address e.2))) && negb (is_terrible now_s e.2).
Definition as_timestamped (e : list Z * AddrInfo) : TimestampedAddress := mkTA (timestamp e.2) (address e.2).

Lemma collect_eq now_s n l result : (length result <= n)%nat ->
  collect now_s n l result = take n (result ++ (as_timestamped <$> List.filter (offered now_s) l)).
Proof.
  revert result. induction l as [|[k i] l IH]; intros result Hr; cbn [collect List.filter].
  - by rewrite app_nil_r, take_ge.
  - destruct (Nat.leb_spec n (length result)) as [Hn|Hn].
    { rewrite take_app_le by lia. by rewrite take_ge by lia. }
    unfold offered at 1. cbn [snd]. destruct (port (address i) =? 0); [by apply IH|].
    destruct (all_zero (ip (address i))); [by apply IH|]. destruct (is_terrible now_s i); [by apply IH|]. cbn [negb andb].
    rewrite IH by (rewrite length_app; cbn; lia). by rewrite <- app_assoc.
Qed.

Lemma get_addresses_eq `{LawfulRandom} time am n :
  get_addresses time am n ≡ₚ take n (as_timestamped <$> List.filter (offered (now time)) (entries (tried_ am) ++ entries (new_ am))).
Proof.
  unfold get_addresses. rewrite shuffle_perm. rewrite collect_eq, collect_eq; [|cbn; lia|]; cbn [app].
  - rewrite List.filter_app, fmap_app. set (x := as_timestamped <$> _). set (y := as_timestamped <$> _).
    rewrite (take_app x y), (take_app (take n x) y), take_take, Nat.min_id.
    by replace (n - length (take n x))%nat with (n - length x)%nat by (rewrite length_take; lia).
  - rewrite collect_eq by (cbn; lia). rewrite length_take. lia.
Qed.

Lemma offered_keys (f : list Z * AddrInfo -> bool) l n : NoDup (l.*1) -> NoDup ((take n (List.filter f l)).*1).
Proof.
  intros Hl. assert (Hf : NoDup ((List.filter f l).*1)).
  { induction l as [|e l IH]; [constructor|]. apply NoDup_cons in Hl as [H1 H2]. cbn [List.filter]. destruct (f e); [|by apply IH].
    rewrite fmap_cons. apply NoDup_cons. split; [|by apply IH]. intros Hin. apply H1. apply list_elem_of_fmap in Hin as (x & -> & Hx).
    apply list_elem_of_fmap. exists x. split; [done|]. apply list_elem_of_In in Hx. apply filter_In in Hx as [Hx _]. by apply list_elem_of_In. }
  rewrite fmap_take. rewrite <- (take_drop n ((List.filter f l).*1)) in Hf. by apply NoDup_app in Hf as (? & _).
Qed.

(** No address appears twice in the two tables. *)
Lemma both_keys am : am_ok am -> NoDup ((entries (tried_ am) ++ entries (new_ am)).*1).
Proof.
  intros (_ & _ & Hd). rewrite fmap_app. apply NoDup_app. split_and!; [apply entries_keys| |apply entries_keys].
  intros k Hk Hk'. apply list_elem_of_fmap in Hk as ([k1 i] & -> & Hi). apply list_elem_of_fmap in Hk' as ([k2 j] & E & Hj). cbn in E. subst.
  apply entries_lookup in Hi, Hj. by eapply map_disjoint_spec.
Qed.

Lemma both_lookup am k i : (k, i) ∈ entries (tried_ am) ++ entries (new_ am) <-> tried_ am !! k = Some i \/ new_ am !! k = Some i.
Proof. by rewrite elem_of_app, !entries_lookup. Qed.

Lemma both_entry am k i : am_ok am -> tried_ am !! k = Some i \/ new_ am !! k = Some i -> k = AddrKey (address i) /\ valid_addr (address i).
Proof. intros (O1 & O2 & _) [Hi|Hi]; [apply O1 in Hi as (? & ? & _)|apply O2 in Hi as (? & ? & _)]; done. Qed.

(** ** Selection *)

Section Select.
Context `{LawfulRandom} (time : Z).

Lemma probe_member l c k a : probe time l c k = inl a -> exists e, e ∈ l /\ address e.2 = a /\ ok time e.2 = true.
Proof.
  revert c. induction k as [|k IH]; intros c; [done|]. cbn [probe]. destruct (l !! draw c (length l)) as [[key i]|] eqn:E; [|done].
  destruct (ok time i) eqn:Eo; [|apply IH]. intros [= <-]. exists (key, i). by split; [eapply list_elem_of_lookup_2|].
Qed.

Lemma pick_member l c : l <> [] -> exists e, e ∈ l /\ pick l c = Some (address e.2).
Proof.
  intros Hl. destruct (lookup_lt_is_Some_2 l (draw c (length l))) as [e He]; [apply draw_lt; destruct l; [done|cbn; lia]|].
  exists e. split; [by eapply list_elem_of_lookup_2|]. unfold pick. by rewrite He.
Qed.

Lemma search_member l l' c : l <> [] -> exists e, e ∈ l ++ l' /\ search time l l' c = Some (address e.2).
Proof.
  intros Hl. unfold search. destruct (probe time l c (checks l)) as [a|c1] eqn:E1.
  { apply probe_member in E1 as (e & He & <- & _). exists e. by rewrite elem_of_app; auto. }
  destruct l' as [|x l'']; [destruct (pick_member l c1 Hl) as (e & He & ->); exists e; by rewrite elem_of_app; auto|].
  set (l' := x :: l''). destruct (probe time l' c1 (checks l')) as [a|c2] eqn:E2.
  { apply probe_member in E2 as (e & He & <- & _). exists e. by rewrite elem_of_app; auto. }
  destruct (pick_member l' c2) as (e & He & ->); [done|]. exists e. by rewrite elem_of_app; auto.
Qed.

Lemma select_member am : select time am = None /\ tried_ am = ∅ /\ new_ am = ∅ \/
  exists e, e ∈ entries (tried_ am) ++ entries (new_ am) /\ select time am = Some (address e.2).
Proof.
  rewrite <- !entries_nil. unfold select. set (t := entries (tried_ am)). set (n := entries (new_ am)).
  assert (Hsw : forall c, n <> [] -> exists e, e ∈ t ++ n /\ search time n t c = Some (address e.2)).
  { intros c Hn. destruct (search_member n t c Hn) as (e & He & E). exists e. split; [|done]. rewrite elem_of_app in He |- *. tauto. }
  destruct t as [|x t], n as [|y n]; [by left|right..]; [by apply Hsw|by apply search_member|].
  destruct (_ <? _)%nat; [by apply search_member|by apply Hsw].
Qed.
End Select.

(** ** Claims *)

(** C31: the tables of the address manager stay consistent under every sequence of additions, attempts, successes, failures and
    clean-ups with any clock, of loads of files that an address manager saved, and of loads that fail: an
    address is filed under its own key, in at most one table, with a flag that says which; only addresses with a port and a
    non-zero host enter; an address in the tried table has failed fewer than ten times since its last success; every
    field is in the range of its type.  [Load] checks none of this: of a file that loads but was not saved by an address manager, only
    the keys and flags are known to be right. *)
Theorem addrman_invariant (am : AddressManager) : am_reachable am ->
  (forall k i, tried_ am !! k = Some i -> k = AddrKey (address i) /\ valid_addr (address i) /\ info_wf i /\ tried i = true /\
     0 <= attempts i < MAX_FAILURES) /\
  (forall k i, new_ am !! k = Some i -> k = AddrKey (address i) /\ valid_addr (address i) /\ info_wf i /\ tried i = false) /\
  (forall k, tried_ am !! k = None \/ new_ am !! k = None) /\
  (forall k k' i i', tried_ am !! k = Some i \/ new_ am !! k = Some i -> tried_ am !! k' = Some i' \/ new_ am !! k' = Some i' ->
     ip (address i) = ip (address i') -> port (address i) = port (address i') -> k = k' /\ i = i') /\
  (forall f am', Load f am = Some (true, am') ->
     (forall k i, tried_ am' !! k = Some i -> k = AddrKey (address i) /\ tried i = true) /\
     (forall k i, new_ am' !! k = Some i -> k = AddrKey (address i) /\ tried i = false)).
Proof.
  intros Hr. pose proof (am_reachable_ok am Hr) as Ho. pose proof Ho as (O1 & O2 & O3). split_and!.
  - intros k i Hi. destruct (O1 k i Hi) as (E1 & E2 & E3 & E4 & E5). by split_and!; auto; apply E5.
  - intros k i Hi. by destruct (O2 k i Hi) as (E1 & E2 & E3 & E4 & _).
  - intros k. destruct (tried_ am !! k) eqn:E; [right|by left]. by eapply map_disjoint_Some_l.
  - intros k k' i i' Hi Hi' E1 E2. assert (Hk : k = k').
    { destruct (both_entry am k i Ho Hi) as [-> _], (both_entry am k' i' Ho Hi') as [-> _]. unfold AddrKey. by rewrite E1, E2. }
    subst k'. split; [done|]. destruct Hi as [Hi|Hi], Hi' as [Hi'|Hi']; try congruence; exfalso; by eapply map_disjoint_spec.
  - intros f am'. apply load_filed.
Qed.

(** what [get_addresses] hands out: never more than asked for, no address twice, only addresses of the
    tables that are not terrible, with the time they were last heard of; all of these, when they fit. *)
Theorem get_addresses_exact `{LawfulRandom} (time : Z) (am : AddressManager) (max_count : nat) : am_reachable am ->
  let l := get_addresses time am max_count in
  let offer ta := exists i, (tried_ am !! AddrKey (address i) = Some i \/ new_ am !! AddrKey (address i) = Some i) /\
    is_terrible (now time) i = false /\ ta = mkTA (timestamp i) (address i) in
  (length l <= max_count)%nat /\ NoDup (AddrKey <$> (Proto.address <$> l)) /\ (forall ta, ta ∈ l -> offer ta) /\
  ((size am <= max_count)%nat -> forall ta, offer ta -> ta ∈ l).
Proof.
  intros Hr%am_reachable_ok l offer. pose proof (get_addresses_eq time am max_count) as E. fold l in E.
  set (all := entries (tried_ am) ++ entries (new_ am)) in *. rewrite <- fmap_take in E.
  assert (Hoff : forall e, e ∈ List.filter (offered (now time)) all -> offer (as_timestamped e) /\ e.1 = AddrKey (address e.2)).
  { intros [k i] He. apply list_elem_of_In, filter_In in He as [He Ho]. apply list_elem_of_In, both_lookup in He.
    destruct (both_entry am k i Hr He) as [-> _]. split; [|done]. exists i. unfold offered in Ho. cbn [snd] in Ho.
    apply andb_true_iff in Ho as [_ Ho]. apply negb_true_iff in Ho. done. }
  assert (Hsub : forall e, e ∈ take max_count (List.filter (offered (now time)) all) -> e ∈ List.filter (offered (now time)) all)
    by (intros e; apply subseteq_take).
  split_and!.
  - rewrite E, length_fmap, length_take. lia.
  - rewrite E. pose proof (offered_keys (offered (now time)) all max_count (both_keys am Hr)) as Hn.
    set (x := take max_count _) in *. assert (Hx : AddrKey <$> (Proto.address <$> (as_timestamped <$> x)) = x.*1); [|by rewrite Hx].
    rewrite <- !list_fmap_compose. apply list_fmap_ext. intros n e He. by apply list_elem_of_lookup_2, Hsub, Hoff in He as [_ ->].
  - intros ta Hta. rewrite E in Hta. apply list_elem_of_fmap in Hta as (e & -> & He). by apply Hoff, Hsub.
  - intros Hs ta (i & Hi & Ht & ->). rewrite E. rewrite take_ge.
    + apply list_elem_of_fmap. exists (AddrKey (address i), i). split; [done|]. apply list_elem_of_In, filter_In. split.
      * by apply list_elem_of_In, both_lookup.
      * destruct (both_entry am _ _ Hr Hi) as [_ (_ & Hp & Hz)]. unfold offered. cbn [snd]. by rewrite (proj2 (Z.eqb_neq _ _) Hp), Hz, Ht.
    + etrans; [apply filter_length_le|]. unfold all. rewrite length_app, !entries_perm, !length_map_to_list. exact Hs.
Qed.

(** the peers file keeps everything: loading the value that [Save] writes replaces the tables by exactly those
    saved, whatever the tables were before. *)
Theorem addrman_save_load (am am0 : AddressManager) : am_reachable am -> Load (Parsed (Save am)) am0 = Some (true, am).
Proof. intros Hr. by apply load_save, am_reachable_ok. Qed.

(** A selection exists exactly when there is an address, and is one of the tables. *)
Theorem select_exact `{LawfulRandom} (time : Z) (am : AddressManager) :
  (select time am = None <-> tried_ am = ∅ /\ new_ am = ∅) /\
  (forall a, select time am = Some a -> exists k i, (tried_ am !! k = Some i \/ new_ am !! k = Some i) /\ address i = a).
Proof.
  destruct (select_member time am) as [(E & Et & En)|([k i] & He & E)]; rewrite E.
  - by split.
  - split; [|intros a [= <-]; exists k, i; split; [by apply both_lookup|done]]. split; [done|]. intros [Et En].
    apply both_lookup in He. rewrite Et, En in He. by destruct He as [He|He]; rewrite lookup_empty in He.
Qed.

Lemma failed_tried time a am i : tried_ am !! AddrKey a = Some i -> new_ am !! AddrKey a = None -> 0 <= attempts i < MAX_FAILURES - 1 ->
  failed time a am = mkAM (<[AddrKey a := set_attempts (attempts i + 1) i]> (tried_ am)) (new_ am).
Proof.
  intros Ht Hn Hi. unfold failed. rewrite Hn, Ht. cbn [attempts set_attempts]. unfold MAX_FAILURES in *.
  rewrite i32_id by (unfold in_s; lia). rewrite u32_id by (unfold in_u; lia). by rewrite (proj2 (Z.leb_gt _ _)) by lia.
Qed.

Lemma fails_tried time a am i n : tried_ am !! AddrKey a = Some i -> new_ am !! AddrKey a = None ->
  0 <= attempts i -> attempts i + Z.of_nat n < MAX_FAILURES ->
  Nat.iter n (failed time a) am = mkAM (<[AddrKey a := set_attempts (attempts i + Z.of_nat n) i]> (tried_ am)) (new_ am).
Proof.
  intros Ht Hn H0 Hi. induction n as [|n IH].
  - cbn. rewrite insert_id; [by destruct am|]. rewrite Ht, Z.add_0_r. by destruct i.
  - rewrite Nat.iter_succ, IH by lia. rewrite (failed_tried time a _ (set_attempts (attempts i + Z.of_nat n) i)); cbn [tried_ new_];
      [|by rewrite lookup_insert_eq|done|cbn; lia].
    rewrite insert_insert_eq. cbn [attempts set_attempts]. by replace (attempts i + Z.of_nat (S n)) with (attempts i + Z.of_nat n + 1) by lia.
Qed.

(** an address in the tried table stays there until it has failed ten times since its last success; the tenth failure moves
    it back to the new table, where it counts as terrible at every time: it is not handed out, and the next failure or cleanup forgets it. *)
Theorem failures_demote `{LawfulRandom} (time : Z) (a : NetworkAddress) (am : AddressManager) (i : AddrInfo) :
  am_reachable am -> tried_ am !! AddrKey a = Some i ->
  let key := AddrKey a in
  let left := Z.to_nat (MAX_FAILURES - attempts i) in
  let fails n := Nat.iter n (failed time a) am in
  (forall n, (n < left)%nat -> tried_ (fails n) !! key = Some (set_attempts (attempts i + Z.of_nat n) i)) /\
  tried_ (fails left) !! key = None /\ new_ (fails left) !! key = Some (set_tried false (set_attempts MAX_FAILURES i)) /\
  (forall t n ta, ta ∈ get_addresses t (fails left) n -> AddrKey (Proto.address ta) <> key) /\
  new_ (failed time a (fails left)) !! key = None /\ (forall t, new_ (cleanup_stale t (fails left)) !! key = None).
Proof.
  intros Hr Hi key left fails. pose proof (am_reachable_ok am Hr) as Ho. pose proof Ho as (O1 & O2 & O3).
  destruct (O1 _ _ Hi) as (Ek & _ & _ & Et & Ha). specialize (Ha eq_refl). unfold MAX_FAILURES in *.
  assert (Hn : new_ am !! key = None) by by eapply map_disjoint_Some_l.
  assert (Hlt : forall n, (n < left)%nat -> fails n = mkAM (<[key := set_attempts (attempts i + Z.of_nat n) i]> (tried_ am)) (new_ am)).
  { intros n Hl. apply fails_tried; [done..|lia|unfold left, MAX_FAILURES in *; lia]. }
  assert (Hend : fails left = mkAM (delete key (tried_ am)) (<[key := set_tried false (set_attempts 10 i)]> (new_ am))).
  { destruct left as [|n] eqn:El; [lia|]. unfold fails. rewrite Nat.iter_succ. fold (fails n). rewrite Hlt by lia. unfold failed. cbn [tried_ new_].
    fold key. rewrite Hn, lookup_insert_eq. cbn [attempts set_attempts]. replace (attempts i + Z.of_nat n + 1) with 10 by lia.
    change (MAX_FAILURES <=? u32 (i32 10)) with true. cbv iota. by rewrite delete_insert_eq. }
  assert (Hreach : am_ok (fails left)).
  { unfold fails. clear -Ho. induction left as [|n IH]; [done|]. rewrite Nat.iter_succ. by apply failed_ok. }
  set (j := set_tried false (set_attempts 10 i)) in *. assert (Hj : forall t, is_terrible t j = true) by done.
  assert (Hnew : new_ (fails left) !! key = Some j) by (rewrite Hend; cbn; by rewrite lookup_insert_eq).
  split_and!.
  - intros n Hl. rewrite Hlt by done. cbn. by rewrite lookup_insert_eq.
  - rewrite Hend. cbn. by rewrite lookup_delete_eq.
  - done.
  - intros t n ta Hta Eq. rewrite get_addresses_eq, <- fmap_take in Hta. apply list_elem_of_fmap in Hta as ([k x] & -> & Hx).
    apply subseteq_take, list_elem_of_In, filter_In in Hx as [Hx Hoff]. apply list_elem_of_In, both_lookup in Hx. cbn in Eq.
    destruct (both_entry _ _ _ Hreach Hx) as [Ekx _]. rewrite Eq in Ekx. subst k.
    assert (Hxj : x = j). { destruct Hx as [Hx|Hx]; [|congruence]. rewrite Hend in Hx. cbn in Hx. by rewrite lookup_delete_eq in Hx. }
    subst x. unfold offered in Hoff. cbn [snd] in Hoff. rewrite Hj in Hoff. by rewrite andb_false_r in Hoff.
  - unfold failed. fold key. rewrite Hnew. cbn [new_].
    change (is_terrible (now time) (set_attempts (i32 (attempts j + 1)) j)) with true. cbv iota. by rewrite lookup_delete_eq.
  - intros t. cbn. apply map_lookup_filter_None. right. intros x Hx. rewrite Hnew in Hx. injection Hx as <-. rewrite Hj, orb_true_r. done.
Qed.

(** ** Witnesses *)

Definition random_example : Random := {| draw := fun i n => (i mod n)%nat; shuffle := fun l => l |}.
#[local] Instance random_lawful : LawfulRandom random_example.
Proof. split; [intros i n Hn; cbn; apply Nat.mod_upper_bound; lia|done]. Qed.

Definition addr_example : NetworkAddress := from_ipv4 1 0x0A000001 9590.
Definition am_example : AddressManager := good 2000 addr_example (add 1000 addr_example 0 empty).2.
Lemma addr_example_wf : addr_wf addr_example.
Proof. split_and!; [by vm_compute|split; [done|]; vm_compute; repeat constructor; congruence|by vm_compute]. Qed.
Lemma am_example_reachable : am_reachable am_example.
Proof.
  apply (am_step 2000 (OpGood addr_example)); [|apply addr_example_wf].
  apply (am_step 1000 (OpAdd addr_example 0)); [apply am_empty|split; [apply addr_example_wf|by vm_compute]].
Qed.

Lemma addrman_invariant_witness : base.size (tried_ am_example) = 1%nat /\
  (forall k, tried_ am_example !! k = None \/ new_ am_example !! k = None).
Proof. split; [by vm_compute|apply (addrman_invariant am_example am_example_reachable)]. Defined.

Lemma get_addresses_exact_witness : (length (@get_addresses random_example 3000 am_example 5) <= 5)%nat.
Proof. apply (@get_addresses_exact random_example random_lawful 3000 am_example 5 am_example_reachable). Defined.

Lemma addrman_save_load_witness : Load (Parsed (Save am_example)) empty = Some (true, am_example).
Proof. apply addrman_save_load, am_example_reachable. Defined.

Lemma failures_demote_witness : tried_ (Nat.iter 10 (failed 3000 addr_example) am_example) !! AddrKey addr_example = None.
Proof.
  destruct (tried_ am_example !! AddrKey addr_example) as [i|] eqn:E; [|discriminate E].
  pose proof (@failures_demote random_example random_lawful 3000 addr_example am_example i am_example_reachable E) as (_ & H & _).
  vm_compute in E. injection E as <-. exact H.
Defined.
