(* ===== verification/Discovery.v ===== *)
(** * Discovery: address gossip ([network/peer_discovery_manager.hpp/.cpp])

    The handlers of ADDR and GETADDR on the address manager, the recent addresses and the part of the per-peer
    state they use.  They run on the network thread, each one step; what they send is the list of outputs.  The iteration
    order of an unordered map is the interface [HashOrder]. *)
From stdpp Require Import gmap sorting strings.
From S2P Require Import Prelude Arith Bytes Sha256 Block BlockIndex Protocol Persist Misbehavior AddrMan.
#[local] Open Scope Z_scope.
Import Proto.

(** ** Data *)

(** [AddressKey] and [LearnedEntry] of [peer_state.hpp]. *)
Abbreviation AddressKey := (bytes * Z)%type.
Record LearnedEntry := mkLearned { ts_addr : TimestampedAddress; last_seen_s : Z }.
Abbreviation LearnedMap := (gmap (bytes * Z) LearnedEntry).

(** The fields of [PerPeerState] for address discovery. *)
Record Gossip := mkGossip { getaddr_replied : bool; learned_addresses : LearnedMap }.

(** What the handlers read of the peer object. *)
Record PeerRef := mkRef {
  id : Z; successfully_connected : bool; is_inbound : bool; is_connected : bool; peer_address : list Z; peer_port : Z
}.

Record GetAddrStats := mkGS { total : Z; served : Z; ignored_outbound : Z; ignored_repeat : Z;
  last_from_addrman : Z; last_from_recent : Z; last_from_learned : Z; last_suppressed : Z }.

Record DiscoveryManager := mkDisc {
  addr_manager_ : AddressManager;
  peer_states_ : gmap Z Gossip;
  misbehavior_ : Mis.peer_map;
  recent_addrs_ : list TimestampedAddress;
  stats_ : GetAddrStats
}.

Inductive gossip_output := SendAddr (peer_id : Z) (addresses : list TimestampedAddress) | RemovePeer (peer_id : Z).

Class HashOrder := { learned_items : LearnedMap -> list (AddressKey * LearnedEntry) }.
Class LawfulHashOrder `(HashOrder) : Prop := { learned_items_perm : forall m, learned_items m ≡ₚ map_to_list m }.

Module Disc.

Definition ECHO_SUPPRESS_TTL_SEC : Z := 600.
Definition MAX_LEARNED_PER_PEER : nat := 2000.
Definition RECENT_ADDRS_MAX : nat := 5000.

Definition MakeKey (a : NetworkAddress) : AddressKey := (ip a, port a).

Definition with_addrman x d := mkDisc x (peer_states_ d) (misbehavior_ d) (recent_addrs_ d) (stats_ d).
Definition with_peers f d := mkDisc (addr_manager_ d) (f (peer_states_ d)) (misbehavior_ d) (recent_addrs_ d) (stats_ d).
Definition with_scores f d := mkDisc (addr_manager_ d) (peer_states_ d) (f (misbehavior_ d)) (recent_addrs_ d) (stats_ d).
Definition with_recent x d := mkDisc (addr_manager_ d) (peer_states_ d) (misbehavior_ d) x (stats_ d).
Definition with_stats f d := mkDisc (addr_manager_ d) (peer_states_ d) (misbehavior_ d) (recent_addrs_ d) (f (stats_ d)).

(** ** The peer events *)

(** The callbacks of the constructor for connected and disconnected peers of this node. *)
Definition on_peer_connected `{BoostAsio} (time peer_id : Z) (address : list Z) (port : Z) (connection_type : list Z)
  (d : DiscoveryManager) : DiscoveryManager :=
  if bool_decide (peer_states_ d !! peer_id = None) then d
  else if bool_decide (connection_type = str "outbound") then
    let net_addr := from_string address port NODE_NETWORK in
    with_addrman (AddrMan.good time net_addr (AddrMan.add time net_addr 0 (addr_manager_ d)).2) d
  else d.

Definition on_peer_disconnected `{BoostAsio} (time peer_id : Z) (address : list Z) (port : Z) (mark_addr_good : bool)
  (d : DiscoveryManager) : DiscoveryManager :=
  if bool_decide (peer_states_ d !! peer_id = None) then d
  else if mark_addr_good && negb (port =? 0) && negb (bool_decide (address = [])) then
    with_addrman (AddrMan.good time (from_string address port NODE_NETWORK) (addr_manager_ d)) d
  else d.

(** ** ADDR *)

Definition fresh (now_s : Z) (e : LearnedEntry) : bool := negb (ECHO_SUPPRESS_TTL_SEC <? i64 (now_s - last_seen_s e)).
Definition prune (now_s : Z) (learned : LearnedMap) : LearnedMap := filter (fun '(_, e) => fresh now_s e = true) learned.

Definition learn (now_s : Z) (ta : TimestampedAddress) (learned : LearnedMap) : LearnedMap :=
  let k := MakeKey (address ta) in
  let e := default (mkLearned TimestampedAddress_new 0) (learned !! k) in
  let ts := if (last_seen_s e =? 0) || (timestamp (ts_addr e) <=? timestamp ta) then ta else ts_addr e in
  <[k := mkLearned ts now_s]> learned.

(** Eviction of the entry seen longest ago, while there are too many. *)
Fixpoint oldest (l : list (AddressKey * LearnedEntry)) (victim : AddressKey * LearnedEntry) : AddressKey * LearnedEntry :=
  match l with
  | [] => victim
  | x :: l => oldest l (if last_seen_s x.2 <? last_seen_s victim.2 then x else victim)
  end.
Fixpoint evict `{HashOrder} (fuel : nat) (learned : LearnedMap) : LearnedMap :=
  match fuel with
  | O => learned
  | S fuel =>
      if (base.size learned <=? MAX_LEARNED_PER_PEER)%nat then learned
      else match learned_items learned with
      | [] => learned
      | x :: l => evict fuel (delete (oldest (x :: l) x).1 learned)
      end
  end.

Definition note_learned `{HashOrder} (now_s : Z) (addresses : list TimestampedAddress) (g : Gossip) : Gossip :=
  let learned := foldl (fun m ta => learn now_s ta m) (prune now_s (learned_addresses g)) addresses in
  mkGossip (getaddr_replied g) (evict (base.size learned) learned).

Definition push_recent (recent : list TimestampedAddress) (ta : TimestampedAddress) : list TimestampedAddress :=
  let recent := recent ++ [ta] in
  if (RECENT_ADDRS_MAX <? length recent)%nat then drop 1 recent else recent.

(** [HandleAddr]: whether it handled the message, the new state and the outputs. *)
Definition HandleAddr `{HashOrder} (time : Z) (peer : PeerRef) (addresses : list TimestampedAddress) (d : DiscoveryManager)
  : bool * DiscoveryManager * list gossip_output :=
  if negb (successfully_connected peer) then (true, d, [])
  else
    let oversized := MAX_ADDR_SIZE <? Z.of_nat (length addresses) in
    let d := if oversized then with_scores (Mis.ReportOversizedMessage (id peer)) d else d in
    if oversized && Mis.ShouldDisconnect (id peer) (misbehavior_ d) then
      (false, with_scores (delete (id peer)) (with_peers (delete (id peer)) d), [RemovePeer (id peer)])
    else
      let addresses := take (Z.to_nat MAX_ADDR_SIZE) addresses in
      let d := with_addrman (AddrMan.add_multiple time addresses 0 (addr_manager_ d)).2 d in
      let d := with_peers (alter (note_learned time addresses) (id peer)) d in
      (true, with_recent (foldl push_recent (recent_addrs_ d) addresses) d, []).

(** ** GETADDR *)

(** A response under construction: the addresses, the keys included, how many were added and suppressed. *)
Record response := mkResp { addresses : list TimestampedAddress; included : gset (bytes * Z); added : Z; suppressed : Z }.

Section GetAddr.
Context `{BoostAsio} `{HashOrder} (rng addr_rng : Random) (time : Z).

Definition is_suppressed (peer : PeerRef) (suppression : LearnedMap) (key : AddressKey) : bool :=
  (match suppression !! key with
   | Some e => let age := i64 (time - last_seen_s e) in (0 <=? age) && (age <=? ECHO_SUPPRESS_TTL_SEC)
   | None => false
   end) || bool_decide (key = MakeKey (from_string (peer_address peer) (peer_port peer) NODE_NETWORK)).

(** One pass of the loops that fill the response. *)
Fixpoint fill (supp : AddressKey -> bool) (l : list (AddressKey * TimestampedAddress)) (r : response) : response :=
  match l with
  | [] => r
  | (k, ta) :: l =>
      if MAX_ADDR_SIZE <=? Z.of_nat (length (addresses r)) then r
      else if supp k then fill supp l (mkResp (addresses r) (included r) (added r) (suppressed r + 1))
      else if bool_decide (k ∈ included r) then fill supp l r
      else fill supp l (mkResp (addresses r ++ [ta]) ({[k]} ∪ included r) (added r + 1) (suppressed r))
  end.
Definition with_key (ta : TimestampedAddress) : AddressKey * TimestampedAddress := (MakeKey (address ta), ta).
Definition restart (r : response) : response := mkResp (addresses r) (included r) 0 (suppressed r).

(** [GetAllLearnedAddresses], sorted by peer, without the requester. *)
Definition others_learned (peer_id : Z) (peers : gmap Z Gossip) : list (AddressKey * TimestampedAddress) :=
  concat ((fun p => match peers !! p with
                    | Some g => (fun '(k, e) => (k, ts_addr e)) <$> learned_items (learned_addresses g)
                    | None => []
                    end) <$> List.filter (fun p => negb (p =? peer_id)) (merge_sort Z.le ((map_to_list peers).*1))).

Definition HandleGetAddr (peer : PeerRef) (d : DiscoveryManager) : bool * DiscoveryManager * list gossip_output :=
  if negb (successfully_connected peer) then (true, d, [])
  else
    let d := with_stats (fun s => mkGS (u64 (total s + 1)) (served s) (ignored_outbound s) (ignored_repeat s) (last_from_addrman s)
      (last_from_recent s) (last_from_learned s) (last_suppressed s)) d in
    if negb (is_inbound peer) then
      (true, with_stats (fun s => mkGS (total s) (served s) (u64 (ignored_outbound s + 1)) (ignored_repeat s) (last_from_addrman s)
        (last_from_recent s) (last_from_learned s) (last_suppressed s)) d, [])
    else
      let peer_id := id peer in
      let state := peer_states_ d !! peer_id in
      if from_option getaddr_replied false state then
        (true, with_stats (fun s => mkGS (total s) (served s) (ignored_outbound s) (u64 (ignored_repeat s + 1)) (last_from_addrman s)
          (last_from_recent s) (last_from_learned s) (last_suppressed s)) d, [])
      else
        let d := with_peers (alter (fun g => mkGossip true (learned_addresses g)) peer_id) d in
        let suppression := from_option (fun g => prune time (learned_addresses g)) ∅ state in
        let supp := is_suppressed peer suppression in
        let r1 := fill supp (with_key <$> rev (recent_addrs_ d)) (mkResp [] ∅ 0 0) in
        let r2 := if Z.of_nat (length (addresses r1)) <? MAX_ADDR_SIZE
                  then fill supp (with_key <$> @AddrMan.get_addresses addr_rng time (addr_manager_ d) (Z.to_nat MAX_ADDR_SIZE)) (restart r1)
                  else restart r1 in
        let r3 := match addresses r2 with [] => fill supp (others_learned peer_id (peer_states_ d)) (restart r2) | _ => restart r2 end in
        let d := with_stats (fun s => mkGS (total s) (served s) (ignored_outbound s) (ignored_repeat s) (added r2) (added r1) (added r3)
          (suppressed r3)) d in
        if negb (is_connected peer) then (true, d, [])
        else
          (true, with_stats (fun s => mkGS (total s) (u64 (served s + 1)) (ignored_outbound s) (ignored_repeat s) (last_from_addrman s)
             (last_from_recent s) (last_from_learned s) (last_suppressed s)) d,
           [SendAddr peer_id (@shuffle rng (addresses r3))]).
End GetAddr.

(** ** Fixed seeds *)

(** [std::stoi] on the text after the colon: leading white space and a sign, then digits. *)
Fixpoint digits (acc : option Z) (s : list Z) : option Z :=
  match s with
  | c :: s => if (0x30 <=? c) && (c <=? 0x39) then digits (Some (10 * default 0 acc + (c - 0x30))) s else acc
  | [] => acc
  end.
Definition is_space (c : Z) : bool := (c =? 0x20) || ((9 <=? c) && (c <=? 13)).
Fixpoint skip_space (s : list Z) : list Z := match s with c :: s' => if is_space c then skip_space s' else s | [] => [] end.
Definition stoi (s : list Z) : option Z :=
  let v := match skip_space s with
           | 0x2D :: s => Z.opp <$> digits None s
           | 0x2B :: s => digits None s
           | s => digits None s
           end in
  match v with Some z => if bool_decide (- 2 ^ 31 <= z < 2 ^ 31) then Some z else None | None => None end.

Fixpoint split_colon (s : list Z) : option (list Z * list Z) :=
  match s with
  | [] => None
  | c :: s => if c =? 0x3A then Some ([], s) else match split_colon s with Some (a, b) => Some (c :: a, b) | None => None end
  end.

(** One seed of the form "address:port". *)
Definition seed_address `{BoostAsio} (seed_str : list Z) : option NetworkAddress :=
  match split_colon seed_str with
  | None => None
  | Some (ip_str, port_str) =>
      match stoi port_str with
      | None => None
      | Some port_int =>
          if (port_int <=? 0) || (65535 <? port_int) then None
          else match make_address ip_str with
          | None => None
          | Some (inl v4) => Some (mkNA NODE_NETWORK (v4_mapped v4) (u16 port_int))
          | Some (inr v6) => Some (mkNA NODE_NETWORK v6 (u16 port_int))
          end
      end
  end.
Definition BootstrapFromFixedSeeds `{BoostAsio} (time : Z) (fixed_seeds : list (list Z)) (d : DiscoveryManager) : DiscoveryManager :=
  foldl (fun d s => match seed_address s with
                    | Some a => with_addrman (AddrMan.add time a (u32 time) (addr_manager_ d)).2 d
                    | None => d
                    end) d fixed_seeds.

(** [Start] without the anchors, which the caller connects to. *)
Definition Start `{BoostAsio} (time : Z) (fixed_seeds : list (list Z)) (d : DiscoveryManager) : DiscoveryManager :=
  if (AddrMan.size (addr_manager_ d) =? 0)%nat then BootstrapFromFixedSeeds time fixed_seeds d else d.
End Disc.
