(* ===== verification/DiscoveryProps.v ===== *)
(** * DiscoveryProps: theorems about address gossip

    What a GETADDR answer may contain, when it is sent, the bounds of the caches, and echo suppression over an ADDR
    followed by a GETADDR. *)
From stdpp Require Import gmap sorting strings.
From S2P Require Import Prelude Arith Bytes Sha256 Block BlockIndex Protocol Persist Misbehavior AddrMan AddrManProps Discovery.
#[local] Open Scope Z_scope.
Import Proto Disc.

Definition keys (l : list TimestampedAddress) : list AddressKey := (fun ta => MakeKey (address ta)) <$> l.

(** ** Filling a response *)

Section Fill.
Context (supp : AddressKey -> bool).

(** The response holds distinct, unsuppressed keys, all recorded, at most the limit. *)
Record resp_ok (r : response) : Prop := {
  resp_len : Z.of_nat (length (addresses r)) <= MAX_ADDR_SIZE;
  resp_nodup : NoDup (keys (addresses r));
  resp_included : forall k, k ∈ keys (addresses r) -> k ∈ included r;
  resp_unsuppressed : forall k, k ∈ keys (addresses r) -> supp k = false
}.

Lemma fill_ok l r : Forall (fun x => x.1 = MakeKey (address x.2)) l -> resp_ok r -> resp_ok (fill supp l r).
Proof.
  intros Hl. revert r. induction Hl as [|[k ta] l Hk _ IH]; intros r Hr; [done|]. cbn in Hk. cbn [fill].
  destruct (Z.leb_spec MAX_ADDR_SIZE (Z.of_nat (length (addresses r)))); [done|].
  destruct (supp k) eqn:Es; [apply IH; by destruct Hr|]. case_bool_decide as Hi; [by apply IH|]. apply IH. destruct Hr as [R1 R2 R3 R4].
  split; cbn; unfold keys; rewrite ?fmap_app; cbn.
  - rewrite length_app. cbn. lia.
  - apply NoDup_app. split_and!; [done| |by apply NoDup_singleton]. intros x Hx ->%list_elem_of_singleton. apply Hi. rewrite Hk. by apply R3.
  - intros x. rewrite elem_of_app, list_elem_of_singleton. intros [Hx| ->]; [|set_solver]. apply R3 in Hx. set_solver.
  - intros x. rewrite elem_of_app, list_elem_of_singleton. intros [Hx| ->]; [by apply R4|by rewrite <- Hk].
Qed.

(** Everything in the response was there before or comes from the list. *)
Lemma fill_from l r ta : ta ∈ addresses (fill supp l r) -> ta ∈ addresses r \/ ta ∈ l.*2.
Proof.
  revert r. induction l as [|[k x] l IH]; intros r; [by left|]. cbn [fill]. rewrite fmap_cons. destruct (_ <=? _); [by left|].
  destruct (supp k); [intros Hx%IH; cbn in Hx; set_solver|]. case_bool_decide; [intros Hx%IH; set_solver|].
  intros Hx%IH. cbn in Hx. set_solver.
Qed.

Lemma restart_ok r : resp_ok r -> resp_ok (restart r).
Proof. by intros []. Qed.
End Fill.

Lemma with_key_ok l : Forall (fun x => x.1 = MakeKey (address x.2)) (with_key <$> l).
Proof. apply Forall_fmap, Forall_forall. done. Qed.
Lemma with_key_snd l : (with_key <$> l).*2 = l.
Proof. rewrite <- list_fmap_compose. by apply list_fmap_id. Qed.

(** ** Learned addresses *)

(** Entries filed under their own keys. *)
Definition learned_ok (m : LearnedMap) : Prop := map_Forall (fun k e => k = MakeKey (address (ts_addr e))) m.

Lemma learn_ok t ta m : learned_ok m -> learned_ok (learn t ta m).
Proof.
  intros Hm. unfold learn. cbv zeta. apply map_Forall_insert_2; [|done]. cbn. destruct (m !! MakeKey (address ta)) as [e|] eqn:E; cbn.
  - specialize (Hm _ _ E). by destruct (_ || _).
  - done.
Qed.

Lemma learn_all t l m : (forall k, k ∈ keys l -> exists e, foldl (fun m ta => learn t ta m) m l !! k = Some e /\ last_seen_s e = t) /\
  (forall k, k ∉ keys l -> foldl (fun m ta => learn t ta m) m l !! k = m !! k).
Proof.
  revert m. induction l as [|ta l IH]; intros m; [split; [by intros k ?%not_elem_of_nil|done]|]. cbn [foldl].
  destruct (IH (learn t ta m)) as [IH1 IH2]. unfold keys in *. rewrite fmap_cons. split.
  - intros k Hk. destruct (decide (k ∈ (fun ta => MakeKey (address ta)) <$> l)) as [Hin|Hin]; [by apply IH1|].
    rewrite IH2 by done. apply elem_of_cons in Hk as [->|]; [|done]. unfold learn. rewrite lookup_insert_eq. by eexists.
  - intros k Hk. apply not_elem_of_cons in Hk as [H1 H2]. rewrite IH2 by done. unfold learn. by rewrite lookup_insert_ne by done.
Qed.

Section Evict.
Context `{LawfulHashOrder}.

Lemma oldest_min l v : (forall x, x ∈ l -> last_seen_s (oldest l v).2 <= last_seen_s x.2) /\
  last_seen_s (oldest l v).2 <= last_seen_s v.2 /\ (oldest l v = v \/ oldest l v ∈ l).
Proof.
  revert v. induction l as [|x l IH]; intros v; cbn [oldest]; [split_and!; [by intros x ?%not_elem_of_nil|lia|by left]|].
  destruct (IH (if last_seen_s x.2 <? last_seen_s v.2 then x else v)) as (H1 & H2 & H3).
  destruct (Z.ltb_spec (last_seen_s x.2) (last_seen_s v.2)); split_and!.
  all: try (intros y [->|Hy]%elem_of_cons; [lia|by apply H1]).
  all: try lia.
  - right. destruct H3 as [->|]; set_solver.
  - destruct H3 as [->|]; [by left|right; set_solver].
Qed.

(** One round of the eviction removes an entry with the least time. *)
Lemma evict_victim (m : LearnedMap) x l : learned_items m = x :: l ->
  exists e, m !! (oldest (x :: l) x).1 = Some e /\ forall k e', m !! k = Some e' -> last_seen_s e <= last_seen_s e'.
Proof.
  intros E. destruct (oldest_min (x :: l) x) as (H1 & H2 & H3).
  assert (Hin : oldest (x :: l) x ∈ x :: l) by (destruct H3 as [->|]; [constructor|done]).
  set (o := oldest (x :: l) x) in *. clearbody o. rewrite <- E, learned_items_perm in Hin. destruct o as [k e]. apply elem_of_map_to_list in Hin. exists e. split; [done|].
  intros k' e' He'. apply (H1 (k', e')). rewrite <- E, learned_items_perm. by apply elem_of_map_to_list.
Qed.

Lemma evict_spec (fuel : nat) (m : LearnedMap) : (base.size m <= fuel)%nat ->
  (base.size (evict fuel m) <= MAX_LEARNED_PER_PEER)%nat /\ evict fuel m ⊆ m /\
  (forall t, (base.size (filter (fun '(_, e) => (t <= last_seen_s e)%Z) m) <= MAX_LEARNED_PER_PEER)%nat ->
     forall k e, m !! k = Some e -> t <= last_seen_s e -> evict fuel m !! k = Some e).
Proof.
  revert m. induction fuel as [|fuel IH]; intros m Hf; cbn [evict].
  { split_and!; [unfold MAX_LEARNED_PER_PEER; lia|done|done]. }
  destruct (Nat.leb_spec (base.size m) MAX_LEARNED_PER_PEER) as [Hs|Hs]; [done|].
  destruct (learned_items m) as [|x l] eqn:E.
  { assert (Em : m = ∅) by (apply map_to_list_empty_iff, Permutation_nil_r; by rewrite <- (learned_items_perm m), E).
    subst m. rewrite map_size_empty in Hs. lia. }
  destruct (evict_victim m x l E) as (v & Hv & Hmin). set (kv := (oldest (x :: l) x).1) in *. clearbody kv.
  assert (Hsz : base.size (delete kv m) = pred (base.size m)) by (apply map_size_delete_Some; by eexists).
  destruct (IH (delete kv m) ltac:(lia)) as (I1 & I2 & I3). split_and!; [done|by etrans; [|apply delete_subseteq]|].
  intros t Ht k e He Hte. assert (Hne : k <> kv).
  { intros Ek. rewrite Ek, Hv in He. injection He as <-.
    rewrite map_filter_id in Ht; [lia|]. intros k' e' He'. specialize (Hmin _ _ He'). lia. }
  apply (I3 t); [|by rewrite lookup_delete_ne|done]. etrans; [|exact Ht]. apply map_subseteq_size. by apply map_filter_subseteq_mono, delete_subseteq.
Qed.
End Evict.

(** ** Answers to GETADDR *)

Definition gossip_ok (g : Gossip) : Prop :=
  learned_ok (learned_addresses g) /\ (base.size (learned_addresses g) <= MAX_LEARNED_PER_PEER)%nat.
Definition peers_ok (d : DiscoveryManager) : Prop := forall p g, peer_states_ d !! p = Some g -> gossip_ok g.

Section GetAddr.
Context `{BoostAsio} `{LawfulHashOrder} (rng addr_rng : Random).
Context (Hrng : LawfulRandom rng).

Lemma others_ok p (peers : gmap Z Gossip) : (forall q g, peers !! q = Some g -> gossip_ok g) ->
  Forall (fun x => x.1 = MakeKey (address x.2)) (others_learned p peers).
Proof.
  intros Hp. apply Forall_concat, Forall_fmap, Forall_forall. intros q _. cbn. destruct (peers !! q) as [g|] eqn:E; [|constructor].
  apply Forall_fmap, Forall_forall. intros [k e] He. cbn. rewrite learned_items_perm in He. apply elem_of_map_to_list in He.
  by apply (Hp q g E) in He.
Qed.

Definition own_key (peer : PeerRef) : AddressKey := MakeKey (from_string (peer_address peer) (peer_port peer) NODE_NETWORK).

(** The answer of a request that is served. *)
Lemma getaddr_cases time peer d : peers_ok d ->
  let '(_, d', out) := HandleGetAddr rng addr_rng time peer d in
  let known := from_option learned_addresses ∅ (peer_states_ d !! id peer) in
  (out = [] \/ exists l, out = [SendAddr (id peer) l] /\ successfully_connected peer = true /\ is_inbound peer = true /\
     is_connected peer = true /\ from_option getaddr_replied false (peer_states_ d !! id peer) = false /\
     resp_ok (is_suppressed time peer (prune time known)) (mkResp l (list_to_set (keys l)) 0 0)) /\
  addr_manager_ d' = addr_manager_ d /\ recent_addrs_ d' = recent_addrs_ d /\
  (peer_states_ d' = peer_states_ d \/
   peer_states_ d' = alter (fun g => mkGossip true (learned_addresses g)) (id peer) (peer_states_ d)) /\
  (successfully_connected peer = true -> is_inbound peer = true ->
   forall g, peer_states_ d' !! id peer = Some g -> getaddr_replied g = true).
Proof.
  intros Hd. unfold HandleGetAddr. destruct (successfully_connected peer); cbn [negb]; [|split_and!; auto; done].
  destruct (is_inbound peer); cbn [negb]; [|split_and!; auto; done].
  cbn [with_stats peer_states_ recent_addrs_ addr_manager_ with_peers]. set (st := peer_states_ d !! id peer).
  destruct (from_option getaddr_replied false st) eqn:Er.
  { split_and!; auto. intros _ _ g Hg. cbn in Hg. fold st in Hg. rewrite Hg in Er. done. }
  set (known := from_option learned_addresses ∅ st).
  assert (Ek : from_option (fun g => prune time (learned_addresses g)) ∅ st = prune time known)
    by (unfold known; destruct st; [done|]; cbn; unfold prune; by rewrite map_filter_empty).
  rewrite Ek. set (supp := is_suppressed time peer (prune time known)).
  match goal with |- context [alter ?f ?i ?m] => set (peers' := alter f i m) end.
  assert (Hp' : forall q g, peers' !! q = Some g -> gossip_ok g).
  { intros q g Hq. unfold peers' in Hq. apply lookup_alter_Some in Hq as [(_ & g0 & Hg & ->)|[_ Hq]]; [by apply (Hd _ _ Hg)|by apply (Hd q)]. }
  set (r1 := fill supp (with_key <$> rev (recent_addrs_ d)) _). set (r2 := if _ <? MAX_ADDR_SIZE then _ else restart r1).
  set (r3 := match addresses r2 with [] => _ | _ => _ end).
  assert (O1 : resp_ok supp r1) by (apply fill_ok; [apply with_key_ok|]; split; cbn; [unfold MAX_ADDR_SIZE; lia|constructor|set_solver..]).
  assert (O2 : resp_ok supp r2) by (unfold r2; destruct (_ <? _); [apply fill_ok; [apply with_key_ok|]|]; by apply restart_ok).
  assert (O3 : resp_ok supp r3)
    by (unfold r3; destruct (addresses r2); [apply fill_ok; [by apply others_ok|]|]; by apply restart_ok).
  assert (Hrep : forall g, peers' !! id peer = Some g -> getaddr_replied g = true).
  { intros g Hg. unfold peers' in Hg. rewrite lookup_alter_eq in Hg. destruct (peer_states_ d !! id peer); [|done]. by injection Hg as <-. }
  clearbody r3. destruct (is_connected peer) eqn:Ec; cbn [negb]; (split_and!; [|done|done|by right|by intros _ _]); [|by left].
  right. exists (@shuffle rng (addresses r3)). split_and!; try done. pose proof (@shuffle_perm rng Hrng (addresses r3)) as Hsh. destruct O3 as [R1 R2 R3 R4].
  assert (Hk : keys (@shuffle rng (addresses r3)) ≡ₚ keys (addresses r3)) by (unfold keys; by rewrite Hsh).
  split; cbn [addresses included]; [by rewrite Hsh|by rewrite Hk|by intros k ?; apply elem_of_list_to_set|].
  intros k. rewrite Hk. apply R4.
Qed.
End GetAddr.

(** ** Reachable states *)

(** The addresses that Boost.Asio parses have sixteen bytes. *)
Class LawfulAsio `(BoostAsio) : Prop := {
  v4_wf : forall s b, make_address s = Some (inl b) -> blob_wf 16 (v4_mapped b);
  v6_wf : forall s b, make_address s = Some (inr b) -> blob_wf 16 b
}.

Section Reach.
Context `{LawfulAsio} `{LawfulHashOrder}.

Lemma from_string_wf s p svc : in_u 16 p -> in_u 64 svc -> addr_wf (from_string s p svc).
Proof.
  intros Hp Hs. unfold from_string. destruct (make_address s) as [[b|b]|] eqn:E; split_and!; cbn; try done.
  - by eapply v4_wf.
  - by eapply v6_wf.
  - split; [done|]. by apply (Forall_replicate byte_ok 16 0).
Qed.
Lemma seed_wf s a : seed_address s = Some a -> addr_wf a.
Proof.
  unfold seed_address. destruct (split_colon s) as [[ip_str port_str]|]; [|done]. destruct (stoi port_str) as [z|]; [|done].
  destruct (_ || _); [done|]. assert (Hp : in_u 16 (u16 z)) by (apply Z.mod_pos_bound; lia).
  destruct (make_address ip_str) as [[b|b]|] eqn:E; intros [= <-]; (split_and!; [by vm_compute| |done]); [by eapply v4_wf|by eapply v6_wf].
Qed.

(** The events of address discovery: the handlers, the notifications about peers, start-up, and the operations that the
    connection code performs on the address manager. *)
Inductive disc_event :=
| EvNewPeer (p : Z) | EvPeerGone (p : Z)
| EvConnected (time p : Z) (a : list Z) (pn : Z) (kind : list Z)
| EvDisconnected (time p : Z) (a : list Z) (pn : Z) (mark_good : bool)
| EvAddr (time : Z) (peer : PeerRef) (l : list TimestampedAddress)
| EvGetAddr (rng addr_rng : Random) (time : Z) (peer : PeerRef)
| EvStart (time : Z) (seeds : list (list Z)) | EvAddrOp (time : Z) (o : addr_op).

Definition event_wf (e : disc_event) : Prop :=
  match e with
  | EvConnected _ _ _ pn _ => in_u 16 pn
  | EvDisconnected _ _ _ pn _ => in_u 16 pn
  | EvAddr _ _ l => Forall taddr_wf l
  | EvGetAddr rng _ _ _ => LawfulRandom rng
  | EvAddrOp _ o => op_wf o
  | _ => True
  end.

Definition on_event (e : disc_event) (d : DiscoveryManager) : DiscoveryManager :=
  match e with
  | EvNewPeer p => with_peers (insert p (mkGossip false ∅)) d
  | EvPeerGone p => with_peers (delete p) d
  | EvConnected time p a pn kind => on_peer_connected time p a pn kind d
  | EvDisconnected time p a pn mark => on_peer_disconnected time p a pn mark d
  | EvAddr time peer l => (HandleAddr time peer l d).1.2
  | EvGetAddr rng addr_rng time peer => (HandleGetAddr rng addr_rng time peer d).1.2
  | EvStart time seeds => Start time seeds d
  | EvAddrOp time o => with_addrman (apply_op time o (addr_manager_ d)) d
  end.

Definition disc_new : DiscoveryManager := mkDisc AddrMan.empty ∅ ∅ [] (mkGS 0 0 0 0 0 0 0 0).
(** Besides the events, a saved file may be loaded into the address manager. *)
Inductive disc_reachable : DiscoveryManager -> Prop :=
| disc_init : disc_reachable disc_new
| disc_next e d : disc_reachable d -> event_wf e -> disc_reachable (on_event e d)
| disc_load am0 ok am' d : disc_reachable d -> am_reachable am0 ->
    AddrMan.Load (AddrMan.Parsed (AddrMan.Save am0)) (addr_manager_ d) = Some (ok, am') -> disc_reachable (with_addrman am' d).

Record disc_ok (d : DiscoveryManager) : Prop := {
  disc_am : am_reachable (addr_manager_ d);
  disc_peers : peers_ok d;
  disc_recent : (length (recent_addrs_ d) <= RECENT_ADDRS_MAX)%nat
}.

Lemma note_learned_ok t l g : gossip_ok g -> gossip_ok (note_learned t l g).
Proof.
  intros [Hl _]. unfold note_learned. set (m := foldl _ _ _). destruct (evict_spec (base.size m) m ltac:(done)) as (E1 & E2 & _).
  split; [|done]. assert (Hm : learned_ok m); [|intros k e Hk; apply Hm; by eapply lookup_weaken]. unfold m. clear -Hl.
  assert (Hp : learned_ok (prune t (learned_addresses g))) by (intros k e [He _]%map_lookup_filter_Some; by apply Hl).
  revert Hp. generalize (prune t (learned_addresses g)). induction l as [|ta l IH]; intros m Hm; [done|]. cbn [foldl]. by apply IH, learn_ok.
Qed.

Lemma push_recent_len l r : (length r <= RECENT_ADDRS_MAX)%nat -> (length (foldl push_recent r l) <= RECENT_ADDRS_MAX)%nat.
Proof.
  revert r. induction l as [|ta l IH]; intros r Hr; [done|]. cbn [foldl]. apply IH. unfold push_recent. cbv zeta.
  destruct (Nat.ltb_spec RECENT_ADDRS_MAX (length (r ++ [ta]))); [|done]. rewrite length_drop, length_app in *. cbn [length] in *. lia.
Qed.

Lemma handle_addr_ok t peer l d : Forall taddr_wf l -> disc_ok d -> disc_ok (HandleAddr t peer l d).1.2.
Proof.
  intros Hl [D1 D2 D3]. unfold HandleAddr. destruct (negb _); [done|]. cbv zeta.
  set (d1 := if MAX_ADDR_SIZE <? _ then _ else d).
  assert (E1 : addr_manager_ d1 = addr_manager_ d /\ peer_states_ d1 = peer_states_ d /\ recent_addrs_ d1 = recent_addrs_ d)
    by (unfold d1; by destruct (_ <? _)). clearbody d1. destruct E1 as (Ea & Ep & Er).
  destruct (_ && _); cbn [fst snd].
  - split; cbn; rewrite ?Ea, ?Er; try done. intros p g Hg. cbn in Hg. rewrite Ep in Hg.
    apply lookup_delete_Some in Hg as [_ Hg]. by eapply D2.
  - assert (Ht : Forall taddr_wf (take (Z.to_nat MAX_ADDR_SIZE) l)) by by apply Forall_take. split; cbn; rewrite ?Ea, ?Er.
    + by apply (am_step t (OpAddMultiple _)).
    + intros p g Hg. cbn in Hg. rewrite Ep in Hg. apply lookup_alter_Some in Hg as [(_ & g0 & Hg & ->)|[_ Hg]]; [|by eapply D2].
      apply note_learned_ok. by eapply D2.
    + by apply push_recent_len.
Qed.

Lemma on_event_ok e d : event_wf e -> disc_ok d -> disc_ok (on_event e d).
Proof.
  intros He Hd. pose proof Hd as [D1 D2 D3]. destruct e; cbn [on_event event_wf] in *.
  - split; [done| |done]. intros q g Hg. cbn in Hg. apply lookup_insert_Some in Hg as [[_ <-]|[_ Hg]]; [|by eapply D2].
    split; [apply map_Forall_empty|]. cbn. rewrite map_size_empty. lia.
  - split; [done| |done]. intros q g Hg. cbn in Hg. apply lookup_delete_Some in Hg as [_ Hg]. by eapply D2.
  - unfold on_peer_connected. case_bool_decide; [done|]. case_bool_decide; [|done]. split; [|done..]. cbn.
    assert (Hw : addr_wf (from_string a pn NODE_NETWORK)) by (apply from_string_wf; [done|by vm_compute]).
    apply (am_step time (OpGood _)); [|done]. by apply (am_step time (OpAdd _ 0)); [|split; [|by vm_compute]].
  - unfold on_peer_disconnected. case_bool_decide; [done|]. destruct (_ && _ && _); [|done]. split; [|done..]. cbn.
    apply (am_step time (OpGood _)); [done|]. apply from_string_wf; [done|by vm_compute].
  - by apply handle_addr_ok.
  - pose proof (getaddr_cases rng addr_rng He time peer d D2) as Hc.
    destruct (HandleGetAddr rng addr_rng time peer d) as [[ok d'] out]. cbn [fst snd]. destruct Hc as (_ & Ea & Er & Ep & _).
    split; rewrite ?Ea, ?Er; try done. intros q g Hg. destruct Ep as [Ep|Ep]; rewrite Ep in Hg; [by eapply D2|].
    apply lookup_alter_Some in Hg as [(_ & g0 & Hg & ->)|[_ Hg]]; [|by eapply D2]. by apply (D2 _ _ Hg).
  - unfold Start. destruct (_ =? _)%nat; [|done]. unfold BootstrapFromFixedSeeds. clear D1 D2 D3. revert d Hd.
    induction seeds as [|s l IH]; intros d Hd; [done|]. cbn [foldl]. apply IH. destruct (seed_address s) as [a|] eqn:Es; [|done].
    destruct Hd as [D1 D2 D3]. split; [|done..]. cbn. apply (am_step time (OpAdd a _)); [done|]. split; [by eapply seed_wf|apply u32_range].
  - split; [|done..]. cbn. by apply am_step.
Qed.

Lemma disc_reachable_ok d : disc_reachable d -> disc_ok d.
Proof.
  induction 1 as [|e d _ IH He|am0 ok am' d _ [D1 D2 D3] Ha E]; [|by apply on_event_ok|].
  2:{ split; [|done..]. by eapply am_load_saved. }
  split; [apply am_empty|intros p g Hg; cbn in Hg; by rewrite lookup_empty in Hg|cbn; lia].
Qed.
End Reach.

(** ** Claims *)

(** What [HandleGetAddr] answers. *)
Lemma getaddr_ok `{LawfulAsio} `{LawfulHashOrder} (rng addr_rng : Random) (time : Z) (peer : PeerRef) (d : DiscoveryManager) :
  LawfulRandom rng -> disc_reachable d ->
  let '(_, d', out) := HandleGetAddr rng addr_rng time peer d in
  (out = [] \/ exists l, out = [SendAddr (id peer) l] /\
    successfully_connected peer = true /\ is_inbound peer = true /\ is_connected peer = true /\
    (forall g, peer_states_ d !! id peer = Some g -> getaddr_replied g = false) /\
    Z.of_nat (length l) <= MAX_ADDR_SIZE /\ NoDup (keys l) /\ ~ (own_key peer ∈ keys l) /\
    (forall g k e, peer_states_ d !! id peer = Some g -> learned_addresses g !! k = Some e ->
       0 <= time - last_seen_s e <= ECHO_SUPPRESS_TTL_SEC -> ~ (k ∈ keys l))) /\
  (successfully_connected peer = true -> is_inbound peer = true -> is_Some (peer_states_ d !! id peer) ->
   forall rng' addr_rng' time' peer', id peer' = id peer -> (HandleGetAddr rng' addr_rng' time' peer' d').2 = []).
Proof.
  intros Hrng Hd%disc_reachable_ok. pose proof (getaddr_cases rng addr_rng Hrng time peer d (disc_peers _ Hd)) as Hc.
  destruct (HandleGetAddr rng addr_rng time peer d) as [[ok d'] out]. destruct Hc as (Ho & _ & _ & Ep & Hrep). split.
  - destruct Ho as [->|(l & -> & S1 & S2 & S3 & S4 & [R1 R2 _ R4])]; [by left|right]. exists l. cbn [addresses] in *. split_and!; try done.
    + intros g Hg. by rewrite Hg in S4.
    + intros Hin%R4. unfold is_suppressed in Hin. apply orb_false_iff in Hin as [_ Hin]. by rewrite bool_decide_eq_true_2 in Hin.
    + intros g k e Hg He Ha Hin%R4. unfold is_suppressed in Hin. apply orb_false_iff in Hin as [Hin _]. rewrite Hg in Hin. cbn [from_option] in Hin.
      unfold ECHO_SUPPRESS_TTL_SEC in *. assert (Ei : i64 (time - last_seen_s e) = time - last_seen_s e) by (apply i64_id; unfold in_s; lia).
      assert (Hp : prune time (learned_addresses g) !! k = Some e).
      { apply map_lookup_filter_Some_2; [done|]. unfold fresh. rewrite Ei. apply negb_true_iff, Z.ltb_ge. unfold ECHO_SUPPRESS_TTL_SEC. lia. }
      rewrite Hp, Ei in Hin. apply andb_false_iff in Hin as [Hin|Hin]; apply Z.leb_gt in Hin; lia.
  - intros S1 S2 [g Hg] rng' addr_rng' time' peer' Eid. unfold HandleGetAddr. destruct (negb _); [done|]. destruct (negb _); [done|].
    cbn [with_stats peer_states_]. rewrite Eid. assert (Hg' : exists g', peer_states_ d' !! id peer = Some g').
    { destruct Ep as [-> | ->]; [by eexists|]. rewrite lookup_alter_eq, Hg. by eexists. }
    destruct Hg' as [g' Hg']. rewrite Hg'. cbn. by rewrite (Hrep S1 S2 g' Hg').
Qed.

(** the memory of address gossip is bounded whatever peers send: in every reachable state the recent addresses are at most 5000,
    every peer has at most 2000 learned addresses, each filed under its own key, and the address manager
    is in a state that its own operations reach. *)
Theorem discovery_invariant `{LawfulAsio} `{LawfulHashOrder} (d : DiscoveryManager) : disc_reachable d ->
  am_reachable (addr_manager_ d) /\ (length (recent_addrs_ d) <= RECENT_ADDRS_MAX)%nat /\
  (forall p g, peer_states_ d !! p = Some g -> (base.size (learned_addresses g) <= MAX_LEARNED_PER_PEER)%nat /\
     forall k e, learned_addresses g !! k = Some e -> k = MakeKey (address (ts_addr e))).
Proof. intros [D1 D2 D3]%disc_reachable_ok. split_and!; [done..|]. intros p g Hg. destruct (D2 p g Hg) as [H1' H2']. by split. Qed.

Lemma few_new (m : LearnedMap) (l : list TimestampedAddress) t : (forall k e, m !! k = Some e -> t <= last_seen_s e -> k ∈ keys l) ->
  (base.size (filter (fun '(_, e) => (t <= last_seen_s e)%Z) m) <= length l)%nat.
Proof.
  intros Hm. set (f := filter _ m). rewrite <- length_map_to_list, <- (length_fmap fst). replace (length l) with (length (keys l)) by apply length_fmap.
  apply submseteq_length, NoDup_submseteq; [apply NoDup_fst_map_to_list|]. intros k Hk. apply list_elem_of_fmap in Hk as ([k' e] & -> & He).
  apply elem_of_map_to_list, map_lookup_filter_Some in He as [He Ht]. by apply (Hm k' e).
Qed.

(** What an ADDR message of a peer leaves in that peer's memory: each of its addresses, seen at this time. *)
Lemma addr_remembered `{LawfulHashOrder} (time : Z) (peer : PeerRef) (l : list TimestampedAddress) (d : DiscoveryManager) (g : Gossip) :
  successfully_connected peer = true -> peer_states_ d !! id peer = Some g -> Z.of_nat (length l) <= MAX_ADDR_SIZE ->
  (forall k e, learned_addresses g !! k = Some e -> last_seen_s e < time) ->
  exists g', peer_states_ (HandleAddr time peer l d).1.2 !! id peer = Some g' /\
    forall ta, ta ∈ l -> exists e, learned_addresses g' !! MakeKey (address ta) = Some e /\ last_seen_s e = time.
Proof.
  intros Hs Hg Hlen Hold. set (m := foldl (fun m ta => learn time ta m) (prune time (learned_addresses g)) l).
  exists (mkGossip (getaddr_replied g) (evict (base.size m) m)). split.
  { unfold HandleAddr. rewrite Hs. cbn [negb]. rewrite (proj2 (Z.ltb_ge _ _)) by done. cbn [andb fst snd].
    unfold MAX_ADDR_SIZE in Hlen. rewrite take_ge by (unfold MAX_ADDR_SIZE; lia). cbn [with_recent with_peers with_addrman peer_states_].
    by rewrite lookup_alter_eq, Hg. }
  intros ta Hta. destruct (learn_all time l (prune time (learned_addresses g))) as [Hin Hout]. fold m in Hin, Hout.
  assert (Hkey : MakeKey (address ta) ∈ keys l) by (apply list_elem_of_fmap; by exists ta).
  destruct (Hin _ Hkey) as (e & He & Hse). destruct (evict_spec (base.size m) m ltac:(done)) as (_ & _ & Hkeep).
  exists e. split; [|done]. apply (Hkeep time); [|done|lia].
  etrans; [apply (few_new m l)|unfold MAX_ADDR_SIZE, MAX_LEARNED_PER_PEER in *; lia].
  intros k e' He' Hte. destruct (decide (k ∈ keys l)) as [|Hn]; [done|]. rewrite Hout in He' by done.
  apply map_lookup_filter_Some in He' as [He' _]. apply Hold in He'. lia.
Qed.

(** C32: what a node reveals in answer to GETADDR: it answers only an inbound peer past the handshake that is still connected, and only
    once per connection; the answer has at most 1000 addresses, no two of them the same, never the requester's own address
    and none that the node remembers to have heard from the requester in the last ten minutes.  It does remember them: none of the
    addresses of the requester's last ADDR message is in the answer, when that message had at most 1000 of them, arrived in the last ten
    minutes and in a later second than its earlier ones, whatever other peers did since.  (At most 2000 addresses are
    remembered per peer, those seen last; the older ones it may hear back.) *)
Theorem getaddr_private `{LawfulAsio} `{LawfulHashOrder} (rng addr_rng : Random) (time : Z) (peer : PeerRef) (d : DiscoveryManager) :
  LawfulRandom rng -> disc_reachable d ->
  let '(_, d', out) := HandleGetAddr rng addr_rng time peer d in
  (out = [] \/ exists l, out = [SendAddr (id peer) l] /\
    successfully_connected peer = true /\ is_inbound peer = true /\ is_connected peer = true /\
    (forall g, peer_states_ d !! id peer = Some g -> getaddr_replied g = false) /\
    Z.of_nat (length l) <= MAX_ADDR_SIZE /\ NoDup (keys l) /\ ~ (own_key peer ∈ keys l) /\
    (forall g k e, peer_states_ d !! id peer = Some g -> learned_addresses g !! k = Some e ->
       0 <= time - last_seen_s e <= ECHO_SUPPRESS_TTL_SEC -> ~ (k ∈ keys l)) /\
    (forall time0 told d0 g0, peer_states_ d0 !! id peer = Some g0 -> Z.of_nat (length told) <= MAX_ADDR_SIZE ->
       (forall k e, learned_addresses g0 !! k = Some e -> last_seen_s e < time0) -> 0 <= time - time0 <= ECHO_SUPPRESS_TTL_SEC ->
       peer_states_ d !! id peer = peer_states_ (HandleAddr time0 peer told d0).1.2 !! id peer ->
       forall ta, ta ∈ told -> ~ (MakeKey (address ta) ∈ keys l))) /\
  (successfully_connected peer = true -> is_inbound peer = true -> is_Some (peer_states_ d !! id peer) ->
   forall rng' addr_rng' time' peer', id peer' = id peer -> (HandleGetAddr rng' addr_rng' time' peer' d').2 = []).
Proof.
  intros Hrng Hd. pose proof (getaddr_ok rng addr_rng time peer d Hrng Hd) as Hp.
  destruct (HandleGetAddr rng addr_rng time peer d) as [[ok d'] out]. destruct Hp as [Hp Hagain]. split; [|exact Hagain].
  destruct Hp as [->|(l & -> & S1 & S2 & S3 & S4 & S5 & S6 & S7 & Hecho)]; [by left|right]. exists l. split_and!; try done.
  intros time0 told d0 g0 Hg0 Hlen Hold Ht Hsame ta Hta. destruct (addr_remembered time0 peer told d0 g0 S1 Hg0 Hlen Hold) as (g' & Hg' & Hrem).
  destruct (Hrem ta Hta) as (e & He & Hse). apply (Hecho g' _ e); [by rewrite Hsame|done|by rewrite Hse].
Qed.

(** ** Witnesses *)

Definition order_example : HashOrder := {| learned_items := map_to_list |}.
#[local] Instance order_lawful : LawfulHashOrder order_example.
Proof. by split. Qed.
Definition gossip_asio : BoostAsio := {|
  make_address := fun s => if bool_decide (s = str "10.0.0.2") then Some (inl [10; 0; 0; 2]) else None;
  v4_mapped := fun b => replicate 10 0 ++ [255; 255] ++ b;
  is_v4_mapped := fun b => bool_decide (take 12 b = replicate 10 0 ++ [255; 255]);
  v4_unmapped := fun b => drop 12 b; to_string_v4 := fun b => b; to_string_v6 := fun b => b
|}.
#[local] Instance asio_lawful : LawfulAsio gossip_asio.
Proof.
  split; intros s b; cbn; case_bool_decide; try done; intros [= <-]. split; [done|]. repeat constructor; by vm_compute.
Qed.

#[local] Existing Instance gossip_asio.
#[local] Existing Instance order_example.

Definition requester : PeerRef := mkRef 7 true true true (str "10.0.0.2") 9590.
Definition disc_example : DiscoveryManager :=
  on_event (EvNewPeer 7) (on_event (EvAddrOp 1000 (OpAdd addr_example 0)) disc_new).
Lemma disc_example_reachable : @disc_reachable gossip_asio order_example disc_example.
Proof.
  apply disc_next; [|done]. apply disc_next; [apply disc_init|]. split; [apply addr_example_wf|by vm_compute].
Qed.

(** The requester announces the address the node knows and asks a hundred seconds later. *)
Definition announced : DiscoveryManager := (@HandleAddr order_example 1500 requester [mkTA 1400 addr_example] disc_example).1.2.

Lemma getaddr_private_witness : exists l,
  (@HandleGetAddr gossip_asio order_example random_example random_example 1600 requester announced).2 = [SendAddr 7 l] /\
  Z.of_nat (length l) <= MAX_ADDR_SIZE /\ ~ (MakeKey addr_example ∈ keys l).
Proof.
  assert (Hr : @disc_reachable gossip_asio order_example announced).
  { apply (disc_next (EvAddr 1500 requester [mkTA 1400 addr_example])); [apply disc_example_reachable|].
    repeat constructor; [by vm_compute..|apply addr_example_wf]. }
  pose proof (@getaddr_private gossip_asio asio_lawful order_example order_lawful random_example random_example 1600 requester announced
    random_lawful Hr) as Hp.
  destruct (HandleGetAddr _ _ _ _ _) as [[ok d'] out] eqn:E. destruct Hp as [[Hn|(l & Hl & _ & _ & _ & _ & Hlen & _ & _ & _ & Htold)] _].
  - exfalso. apply (f_equal snd) in E. cbn [snd] in E. rewrite Hn in E. vm_compute in E. discriminate E.
  - exists l. split; [exact Hl|]. split; [exact Hlen|].
    apply (Htold 1500 [mkTA 1400 addr_example] disc_example (mkGossip false ∅)) with (ta := mkTA 1400 addr_example).
    + reflexivity.
    + by vm_compute.
    + intros k e He. cbn in He. by rewrite lookup_empty in He.
    + unfold ECHO_SUPPRESS_TTL_SEC. lia.
    + reflexivity.
    + by constructor.
Defined.

Lemma discovery_invariant_witness : (length (recent_addrs_ disc_example) <= RECENT_ADDRS_MAX)%nat.
Proof. apply (@discovery_invariant gossip_asio asio_lawful order_example order_lawful disc_example disc_example_reachable). Defined.
