(* ===== verification/Relay.v ===== *)
(** * Relay: block announcements ([network/block_relay_manager.hpp/.cpp])

    The announcement queues of the peers, their periodic flush, the immediate relay of a block, and the handler of INV on
    the synchronisation manager. *)
From stdpp Require Import gmap sorting strings.
From S2P Require Import Prelude Arith Bytes Compact Sha256 Block BlockIndex Chain ChainParams Pow RandomX Validation.
From S2P Require Import ChainSelector BlockManager Persist Chainstate Activation Protocol Message Misbehavior HeaderSync.
#[local] Open Scope Z_scope.
Import Idx (nHeight).

(** What the peer object and its [PerPeerState] hold for block relay; [ready] is [is_connected() && state() == READY]. *)
Record Announce := mkAnn { ready : bool; inv_queue : list uint256; last_announced_block : uint256; last_announce_time_s : Z }.

Record BlockRelayManager := mkRelay { header_sync_manager_ : SyncManager; relay_peers_ : gmap Z Announce }.

Module Relay.

Definition REANNOUNCE_INTERVAL_SEC : Z := 10 * 60.

Definition new_peer : Announce := mkAnn false [] (replicate 32 0) 0.
Definition with_relay (f : gmap Z Announce -> gmap Z Announce) (r : BlockRelayManager) : BlockRelayManager :=
  mkRelay (header_sync_manager_ r) (f (relay_peers_ r)).

(** [get_all_peers]: sorted by id. *)
Definition get_all_peers (peers : gmap Z Announce) : list Z := merge_sort Z.le ((map_to_list peers).*1).

(** ** Queues *)

Definition enqueue (now_s : Z) (tip : uint256) (a : Announce) : Announce :=
  if bool_decide (tip ∈ inv_queue a) then a
  else mkAnn (ready a) (inv_queue a ++ [tip]) tip now_s.

Definition announce (now_s : Z) (tip : uint256) (a : Announce) : Announce :=
  if negb (ready a) then a
  else
    let same_tip := bool_decide (last_announced_block a = tip) in
    let last_time := last_announce_time_s a in
    let within_ttl := same_tip && (0 <? last_time) && (i64 (now_s - last_time) <? REANNOUNCE_INTERVAL_SEC) in
    if same_tip && within_ttl then a else enqueue now_s tip a.

(** The tip, when there is one above genesis. *)
Definition announced_tip (r : BlockRelayManager) : option uint256 :=
  let c := chainstate_manager_ (header_sync_manager_ r) in
  match CS.tip c with
  | None => None
  | Some t => if deref nHeight 0 (CS.index c) t =? 0 then None else Some t
  end.

Definition AnnounceTipToAllPeers (now_s : Z) (r : BlockRelayManager) : BlockRelayManager :=
  match announced_tip r with None => r | Some tip => with_relay (fmap (announce now_s tip)) r end.

Definition AnnounceTipToPeer (now_s peer_id : Z) (r : BlockRelayManager) : BlockRelayManager :=
  match relay_peers_ r !! peer_id with
  | Some a =>
      if negb (ready a) then r
      else match announced_tip r with None => r | Some tip => with_relay (alter (enqueue now_s tip) peer_id) r end
  | None => r
  end.

(** ** Sending *)

Definition block_inv (hash : uint256) : Proto.InventoryVector := Proto.mkInv Proto.MSG_BLOCK hash.

(** The messages for a queue, in chunks; one round per message, so the length of the queue is enough fuel. *)
Fixpoint inv_chunks (fuel : nat) (blocks : list uint256) : list Message :=
  match blocks, fuel with
  | [], _ => []
  | _, O => []
  | _, S fuel =>
      let chunk := Z.to_nat Proto.MAX_INV_SIZE in
      MInv (block_inv <$> take chunk blocks) :: inv_chunks fuel (drop chunk blocks)
  end.

Definition flush_peer (peers : gmap Z Announce) (p : Z) : list output :=
  match peers !! p with
  | Some a => if ready a then Send p <$> inv_chunks (length (inv_queue a)) (inv_queue a) else []
  | None => []
  end.
Definition flushed (a : Announce) : Announce :=
  if ready a then mkAnn (ready a) [] (last_announced_block a) (last_announce_time_s a) else a.

Definition FlushBlockAnnouncements (r : BlockRelayManager) : BlockRelayManager * list output :=
  (with_relay (fmap flushed) r, concat (flush_peer (relay_peers_ r) <$> get_all_peers (relay_peers_ r))).

Definition relayed (now_s : Z) (hash : uint256) (a : Announce) : Announce :=
  if ready a then mkAnn (ready a) (List.filter (fun h => negb (bool_decide (h = hash))) (inv_queue a)) hash now_s else a.

Definition RelayBlock (now_s : Z) (block_hash : uint256) (r : BlockRelayManager) : BlockRelayManager * list output :=
  (with_relay (fmap (relayed now_s block_hash)) r,
   (fun p => Send p (MInv [block_inv block_hash])) <$>
     List.filter (fun p => from_option ready false (relay_peers_ r !! p)) (get_all_peers (relay_peers_ r))).

(** ** INV *)

Section Inv.
Context (params : ChainParams) (now peer_id : Z) (is_inbound : bool).

(** The decision for an unknown block: whether to request headers. *)
Definition decide_request (n : SyncManager) : bool * SyncManager :=
  let '(in_ibd, c) := Act.IsInitialBlockDownload params now (chainstate_manager_ n) in
  let n := Sync.with_chain c n in
  if in_ibd then
    if Sync.HasSyncPeer n then (Sync.GetSyncPeerId n =? u64 peer_id, n)
    else if negb is_inbound then
      (true, Sync.with_peers (alter (Sync.set_sync_started true) peer_id) (Sync.SetSyncPeer now (u64 peer_id) n))
    else (false, n)
  else (true, n).

(** The loop over the inventory: whether to request headers, whether an unknown block was found. *)
Fixpoint scan_inv (inventory : list Proto.InventoryVector) (found : bool) (n : SyncManager) : bool * bool * SyncManager :=
  match inventory with
  | [] => (false, found, n)
  | inv :: rest =>
      if negb (Proto.inv_type inv =? Proto.MSG_BLOCK) then scan_inv rest found n
      else match BM.LookupBlockIndex (CS.index (chainstate_manager_ n)) (Proto.inv_hash inv) with
      | Some _ => scan_inv rest found n
      | None =>
          let '(should_request_headers, n) := decide_request n in
          if should_request_headers then (true, true, n) else scan_inv rest true n
      end
  end.

Definition HandleInvMessage (inventory : list Proto.InventoryVector) (n : SyncManager) : option (bool * SyncManager * list output) :=
  let '(should_request_headers, found_new_block, n) := scan_inv inventory false n in
  if should_request_headers && found_new_block then
    let '(_, c) := Act.IsInitialBlockDownload params now (chainstate_manager_ n) in
    let n := Sync.with_chain c n in
    match Sync.RequestHeadersFromPeer peer_id n with Some out => Some (true, n, out) | None => None end
  else Some (true, n, []).
End Inv.
End Relay.
