(* ===== verification/RelayProps.v ===== *)
(** * RelayProps: theorems about block announcements

    Which peers a tip or a block is announced to, what the flush sends, and when an INV makes the node ask for headers. *)
From stdpp Require Import gmap sorting strings.
From S2P Require Import Prelude Arith Bytes Compact Sha256 Block BlockIndex Chain ChainParams Pow RandomX Validation.
From S2P Require Import ChainSelector BlockManager SameTree Persist Chainstate OrphanPool Accept Activation NodeChecks Reorg ChainstateProps.
From S2P Require Import Protocol Message MessageProps Misbehavior HeaderSync HeaderSyncProps SyncPeers Relay.
#[local] Open Scope Z_scope.
Import Idx (nHeight) CS Relay.

(** ** Queues *)

Definition queues_ok (r : BlockRelayManager) : Prop := map_Forall (fun _ a => NoDup (inv_queue a)) (relay_peers_ r).

Lemma enqueue_ok t tip a : NoDup (inv_queue a) -> NoDup (inv_queue (enqueue t tip a)) /\ tip ∈ inv_queue (enqueue t tip a).
Proof.
  intros Hq. unfold enqueue. case_bool_decide as Hin; [done|]. cbn. split; [|set_solver]. apply NoDup_app.
  split_and!; [done|set_solver|apply NoDup_singleton].
Qed.

(** Whether the periodic announcement skips a peer. *)
Definition recently_announced (now_s : Z) (tip : uint256) (a : Announce) : Prop :=
  last_announced_block a = tip /\ 0 < last_announce_time_s a /\ i64 (now_s - last_announce_time_s a) < REANNOUNCE_INTERVAL_SEC.

Lemma announce_cases t tip a : ready a = true ->
  recently_announced t tip a /\ announce t tip a = a \/ ~ recently_announced t tip a /\ announce t tip a = enqueue t tip a.
Proof.
  intros Hr. unfold announce, recently_announced. rewrite Hr. cbn [negb]. cbv zeta. case_bool_decide as Ht; cbn [andb]; [|right; naive_solver].
  destruct (Z.ltb_spec 0 (last_announce_time_s a)); cbn [andb]; [|right; split; [lia|done]].
  destruct (Z.ltb_spec (i64 (t - last_announce_time_s a)) REANNOUNCE_INTERVAL_SEC); [left|right; split; [lia|]]; done.
Qed.

(** ** Chunks *)

Definition inv_of (m : Message) : list Proto.InventoryVector := match m with MInv l => l | _ => [] end.

Lemma inv_chunks_ok k blocks : (length blocks <= k)%nat ->
  concat (inv_of <$> inv_chunks k blocks) = block_inv <$> blocks /\
  Forall (fun m => exists l, m = MInv l /\ (0 < length l)%nat /\ Z.of_nat (length l) <= Proto.MAX_INV_SIZE) (inv_chunks k blocks).
Proof.
  revert blocks. induction k as [|k IH]; intros [|b l] Hk; cbn [inv_chunks]; try done; [cbn in Hk; lia|].
  set (chunk := Z.to_nat Proto.MAX_INV_SIZE). assert (Hc : (0 < chunk)%nat) by (unfold chunk, Proto.MAX_INV_SIZE; lia).
  destruct (IH (drop chunk (b :: l))) as [E F]; [rewrite length_drop; cbn [length] in *; lia|]. split.
  - rewrite fmap_cons. cbn [concat inv_of]. rewrite E, <- fmap_app, take_drop. done.
  - constructor; [|done]. eexists. split; [reflexivity|]. rewrite length_fmap, length_take. unfold Proto.MAX_INV_SIZE in *.
    cbn [length]. split; [lia|]. unfold chunk in *. lia.
Qed.

Lemma all_peers_perm peers : get_all_peers peers ≡ₚ (map_to_list peers).*1.
Proof. apply merge_sort_Permutation. Qed.
Lemma all_peers_elem peers p : p ∈ get_all_peers peers <-> is_Some (peers !! p).
Proof.
  rewrite all_peers_perm, list_elem_of_fmap. split.
  - intros ([k a] & -> & Ha%elem_of_map_to_list). by eexists.
  - intros [a Ha]. exists (p, a). by rewrite elem_of_map_to_list.
Qed.
Lemma all_peers_nodup peers : NoDup (get_all_peers peers).
Proof. rewrite all_peers_perm. apply NoDup_fst_map_to_list. Qed.

(** What a list of outputs sends to one peer. *)
Definition sent_to (p : Z) (out : list output) : list Message :=
  omap (fun o => match o with Send q m => if bool_decide (q = p) then Some m else None | _ => None end) out.

Lemma sent_to_app p o o' : sent_to p (o ++ o') = sent_to p o ++ sent_to p o'.
Proof. apply omap_app. Qed.
Lemma sent_to_same p l : sent_to p (Send p <$> l) = l.
Proof. induction l as [|m l IH]; [done|]. cbn. rewrite bool_decide_eq_true_2 by done. by f_equal. Qed.
Lemma sent_to_other p q l : p <> q -> sent_to p (Send q <$> l) = [].
Proof. intros Hn. induction l as [|m l IH]; [done|]. cbn. by rewrite bool_decide_eq_false_2 by done. Qed.

Lemma sent_to_concat (f : Z -> list output) l p : NoDup l -> (forall q, q <> p -> sent_to p (f q) = []) ->
  sent_to p (concat (f <$> l)) = if bool_decide (p ∈ l) then sent_to p (f p) else [].
Proof.
  intros Hl Hf. induction Hl as [|q l Hq _ IH]; [done|]. rewrite fmap_cons. cbn [concat]. rewrite sent_to_app, IH.
  destruct (decide (q = p)) as [->|Hn].
  - rewrite bool_decide_eq_false_2 by done. rewrite bool_decide_eq_true_2 by set_solver. by rewrite app_nil_r.
  - rewrite Hf by done. cbn [app]. by rewrite (bool_decide_ext (p ∈ q :: l) (p ∈ l)) by set_solver.
Qed.

Lemma flush_sent r p : sent_to p (FlushBlockAnnouncements r).2 =
  match relay_peers_ r !! p with Some a => if ready a then inv_chunks (length (inv_queue a)) (inv_queue a) else [] | None => [] end.
Proof.
  unfold FlushBlockAnnouncements. cbn [snd]. rewrite sent_to_concat; [|apply all_peers_nodup|].
  - unfold flush_peer. destruct (relay_peers_ r !! p) as [a|] eqn:E.
    + rewrite bool_decide_eq_true_2 by (apply all_peers_elem; by eexists). destruct (ready a); [apply sent_to_same|done].
    + by case_bool_decide.
  - intros q Hq. unfold flush_peer. destruct (relay_peers_ r !! q) as [a|]; [|done]. destruct (ready a); [by apply sent_to_other|done].
Qed.

(** ** Reachable queues *)

Inductive relay_step : BlockRelayManager -> BlockRelayManager -> Prop :=
| StepAnnounceAll t r : relay_step r (AnnounceTipToAllPeers t r)
| StepAnnounce t p r : relay_step r (AnnounceTipToPeer t p r)
| StepFlush r : relay_step r (FlushBlockAnnouncements r).1
| StepRelay t h r : relay_step r (RelayBlock t h r).1
| StepPeer p r : relay_step r (with_relay (insert p new_peer) r)
| StepGone p r : relay_step r (with_relay (delete p) r)
| StepReady p b r : relay_step r (with_relay (alter (fun a => mkAnn b (inv_queue a) (last_announced_block a) (last_announce_time_s a)) p) r)
| StepSync n r : relay_step r (mkRelay n (relay_peers_ r)).

Lemma queues_fmap (f : Announce -> Announce) r : (forall a, NoDup (inv_queue a) -> NoDup (inv_queue (f a))) ->
  queues_ok r -> queues_ok (with_relay (fmap f) r).
Proof.
  intros Hf Hr p a Ha. cbn in Ha. rewrite lookup_fmap in Ha. destruct (relay_peers_ r !! p) as [b|] eqn:E; [|done].
  injection Ha as <-. apply Hf. by apply (Hr p).
Qed.
Lemma queues_alter (f : Announce -> Announce) q r : (forall a, NoDup (inv_queue a) -> NoDup (inv_queue (f a))) ->
  queues_ok r -> queues_ok (with_relay (alter f q) r).
Proof. intros Hf Hr p a Ha. cbn in Ha. apply lookup_alter_Some in Ha as [(_ & b & Hb & ->)|[_ Ha]]; [apply Hf|]; by eapply Hr. Qed.

Lemma relay_step_ok r r' : relay_step r r' -> queues_ok r -> queues_ok r'.
Proof.
  destruct 1; intros Hr.
  - unfold AnnounceTipToAllPeers. destruct (announced_tip r) as [tip|]; [|done]. apply queues_fmap; [|done]. intros a Ha.
    unfold announce. destruct (negb _); [done|]. destruct (_ && _); [done|]. by apply enqueue_ok.
  - unfold AnnounceTipToPeer. destruct (relay_peers_ r !! p) as [a|]; [|done]. destruct (negb _); [done|].
    destruct (announced_tip r) as [tip|]; [|done]. apply queues_alter; [|done]. intros b Hb. by apply enqueue_ok.
  - apply queues_fmap; [|done]. intros a Ha. unfold flushed. destruct (ready a); [constructor|done].
  - apply queues_fmap; [|done]. intros a Ha. unfold relayed. destruct (ready a); [|done]. cbn. by apply NoDup_ListNoDup, List.NoDup_filter, NoDup_ListNoDup.
  - intros q a Ha. cbn in Ha. apply lookup_insert_Some in Ha as [[_ <-]|[_ Ha]]; [constructor|by eapply Hr].
  - intros q a Ha. cbn in Ha. apply lookup_delete_Some in Ha as [_ Ha]. by eapply Hr.
  - by apply queues_alter.
  - done.
Qed.

Definition relay_reachable (r : BlockRelayManager) : Prop := exists n, rtc relay_step (mkRelay n ∅) r.
Lemma relay_reachable_ok r : relay_reachable r -> queues_ok r.
Proof.
  intros [n Hr]. assert (H0 : queues_ok (mkRelay n ∅)) by apply map_Forall_empty. revert H0.
  induction Hr as [|r1 r2 r3 Hs _ IH]; [done|]. intros H0. by eapply IH, relay_step_ok.
Qed.

(** ** Announcing the tip *)

(** What the INVs sent to a peer announce, in order. *)
Definition announced_to (p : Z) (out : list output) : list Proto.InventoryVector := concat (inv_of <$> sent_to p out).

#[export] Instance recently_announced_dec t tip a : Decision (recently_announced t tip a).
Proof. unfold recently_announced. apply _. Defined.

Lemma announce_queue t tip a : ready a = true ->
  ready (announce t tip a) = true /\
  inv_queue (announce t tip a) =
    inv_queue a ++ (if decide (recently_announced t tip a \/ tip ∈ inv_queue a) then [] else [tip]).
Proof.
  intros Hr. destruct (announce_cases t tip a Hr) as [[Hrec ->]|[Hrec ->]].
  - rewrite decide_True by by left. by rewrite app_nil_r.
  - unfold enqueue. case_bool_decide as Hin; [rewrite decide_True by (by right); by rewrite app_nil_r|].
    rewrite decide_False by naive_solver. done.
Qed.

Lemma announce_lookup t tip r p a : announced_tip r = Some tip -> relay_peers_ r !! p = Some a ->
  relay_peers_ (AnnounceTipToAllPeers t r) !! p = Some (announce t tip a).
Proof. intros Ht Hp. unfold AnnounceTipToAllPeers. rewrite Ht. cbn [with_relay relay_peers_]. by rewrite lookup_fmap, Hp. Qed.

Lemma block_inv_inj : Inj (=) (=) block_inv.
Proof. intros x y. unfold block_inv. congruence. Qed.

Lemma announce_nodup t tip a : NoDup (inv_queue a) -> NoDup (inv_queue (announce t tip a)).
Proof. intros Ha. unfold announce. destruct (negb _); [done|]. destruct (_ && _); [done|]. by apply enqueue_ok. Qed.

(** In every reachable state of the relay manager whose chain has a tip above genesis, announcing the tip to all peers and
    flushing sends each ready peer exactly what its queue held followed by the tip, unless the queue already holds it or the
    peer was told of this tip within the last ten minutes; nothing is announced twice, every INV carries between one and
    [MAX_INV_SIZE] items, and the queue is empty afterwards. *)
Theorem tip_announced r p a tip t : relay_reachable r -> announced_tip r = Some tip -> relay_peers_ r !! p = Some a -> ready a = true ->
  let '(r', out) := FlushBlockAnnouncements (AnnounceTipToAllPeers t r) in
  announced_to p out =
    block_inv <$> inv_queue a ++ (if decide (recently_announced t tip a \/ tip ∈ inv_queue a) then [] else [tip]) /\
  NoDup (announced_to p out) /\
  Forall (fun m => exists l, m = MInv l /\ (0 < length l)%nat /\ Z.of_nat (length l) <= Proto.MAX_INV_SIZE) (sent_to p out) /\
  inv_queue <$> relay_peers_ r' !! p = Some [].
Proof.
  intros Hr%relay_reachable_ok Ht Hp Ha. pose proof (announce_lookup t tip r p a Ht Hp) as Hp'.
  destruct (FlushBlockAnnouncements _) as [r' out] eqn:Ef. pose proof (flush_sent (AnnounceTipToAllPeers t r) p) as Hs.
  rewrite Ef, Hp' in Hs. cbn [snd] in Hs. destruct (announce_queue t tip a Ha) as [Hra Hq]. rewrite Hra in Hs.
  destruct (inv_chunks_ok _ (inv_queue (announce t tip a)) (le_n _)) as [Hc Hb]. unfold announced_to. rewrite Hs, Hc. split_and!.
  - by rewrite Hq.
  - apply NoDup_fmap_2; [apply block_inv_inj|]. apply announce_nodup. by eapply Hr.
  - done.
  - injection Ef as <- _. cbn [with_relay relay_peers_]. rewrite lookup_fmap, Hp'. cbn [fmap option_fmap option_map]. unfold flushed. by rewrite Hra.
Qed.

(** ** Relaying a block *)

Lemma relay_sent t h r p : sent_to p (RelayBlock t h r).2 =
  match relay_peers_ r !! p with Some a => if ready a then [MInv [block_inv h]] else [] | None => [] end.
Proof.
  unfold RelayBlock. cbn [snd].
  assert (G : forall l, NoDup l -> sent_to p ((fun q => Send q (MInv [block_inv h])) <$> List.filter (fun q => from_option ready false (relay_peers_ r !! q)) l) =
    if decide (p ∈ l) then match relay_peers_ r !! p with Some a => if ready a then [MInv [block_inv h]] else [] | None => [] end else []).
  { induction 1 as [|q l Hq _ IH]; [done|]. cbn [List.filter]. destruct (decide (q = p)) as [->|Hn].
    - rewrite decide_False in IH by done. rewrite decide_True by set_solver. destruct (relay_peers_ r !! p) as [a|]; [|done].
      cbn [from_option]. destruct (ready a); [|done]. cbn. rewrite bool_decide_eq_true_2 by done. f_equal. exact IH.
    - assert (E : p ∈ q :: l <-> p ∈ l) by set_solver. destruct (decide (p ∈ q :: l)) as [Hi|Hi]; [rewrite decide_True in IH by by apply E|rewrite decide_False in IH by tauto].
      all: destruct (from_option ready false (relay_peers_ r !! q)); [|exact IH]; cbn; rewrite bool_decide_eq_false_2 by done; exact IH. }
  rewrite G by apply all_peers_nodup. destruct (decide _) as [_|Hn]; [done|]. destruct (relay_peers_ r !! p) eqn:E; [|done].
  destruct Hn. apply all_peers_elem. by eexists.
Qed.

(** C33: Relaying a block sends it at once, in an INV of its own, to every ready peer and to no other; and the periodic
    announcement and the flush do not repeat it: while the block stays the tip they announce, within ten minutes, only the
    other blocks the peer's queue held. *)
Theorem block_relayed_once r p a h t t' : relay_reachable r -> relay_peers_ r !! p = Some a -> announced_tip r = Some h ->
  0 < t -> i64 (t' - t) < REANNOUNCE_INTERVAL_SEC ->
  let '(r1, out1) := RelayBlock t h r in
  let '(r2, out2) := FlushBlockAnnouncements (AnnounceTipToAllPeers t' r1) in
  sent_to p out1 = (if ready a then [MInv [block_inv h]] else []) /\
  announced_to p out2 = (if ready a then block_inv <$> List.filter (fun x => negb (bool_decide (x = h))) (inv_queue a) else []) /\
  ~ block_inv h ∈ announced_to p out2.
Proof.
  intros Hr Hp Htip Ht Ht'. destruct (RelayBlock t h r) as [r1 out1] eqn:E1. pose proof (relay_sent t h r p) as Hs1. rewrite E1, Hp in Hs1.
  assert (Hp1 : relay_peers_ r1 !! p = Some (relayed t h a)) by (injection E1 as <- _; cbn; by rewrite lookup_fmap, Hp).
  assert (Htip1 : announced_tip r1 = Some h) by (injection E1 as <- _; exact Htip).
  pose proof (announce_lookup t' h r1 p _ Htip1 Hp1) as Hp2. destruct (FlushBlockAnnouncements _) as [r2 out2] eqn:E2.
  pose proof (flush_sent (AnnounceTipToAllPeers t' r1) p) as Hs2. rewrite E2, Hp2 in Hs2. cbn [snd] in Hs1, Hs2. split; [done|].
  unfold announced_to. rewrite Hs2. clear Hs2 Hp2 Hp1 E1 E2. unfold announce, relayed. destruct (ready a) eqn:Ea.
  - cbn [negb ready last_announced_block last_announce_time_s]. rewrite (bool_decide_eq_true_2 (h = h)) by done.
    destruct (Z.ltb_spec 0 t); [|lia]. destruct (Z.ltb_spec (i64 (t' - t)) REANNOUNCE_INTERVAL_SEC); [|lia]. cbn [andb ready inv_queue].
    destruct (inv_chunks_ok _ (List.filter (fun x => negb (bool_decide (x = h))) (inv_queue a)) (le_n _)) as [-> _]. split; [done|].
    rewrite list_elem_of_fmap. intros (x & Ex & Hx%list_elem_of_In). apply block_inv_inj in Ex as <-. apply List.filter_In in Hx as [_ Hx].
    by rewrite bool_decide_eq_true_2 in Hx.
  - rewrite Ea. cbn [negb]. rewrite Ea. split; [done|]. set_solver.
Qed.

(** ** INV *)

Section HandleInv.
Context (params : ChainParams) (now p : Z) (inbound : bool).
Let chain (n : SyncManager) : Chainstate := chainstate_manager_ n.
Let in_ibd (n : SyncManager) : bool := fst (Act.IsInitialBlockDownload params now (chain n)).

(** An inventory that names a block the node does not have. *)
Definition unknown_block (m : block_map) (inv : Proto.InventoryVector) : bool :=
  (Proto.inv_type inv =? Proto.MSG_BLOCK) && negb (bool_decide (is_Some (m !! Proto.inv_hash inv))).

(** Whether headers are wanted from the peer: always after the initial download; during it from the sync peer, which an
    outbound announcer becomes when there is none. *)
Definition wants_headers (n : SyncManager) : bool :=
  if in_ibd n then (if Sync.HasSyncPeer n then Sync.GetSyncPeerId n =? u64 p else negb inbound) else true.
Definition adopts (n : SyncManager) : bool := in_ibd n && negb (Sync.HasSyncPeer n) && negb inbound.

Lemma decide_request_ok n : exists n', decide_request params now p inbound n = (wants_headers n, n') /\
  chain n' = snd (Act.IsInitialBlockDownload params now (chain n)) /\
  (if adopts n then Sync.GetSyncPeerId n' = u64 p /\ peer_states_ n' = alter (Sync.set_sync_started true) p (peer_states_ n)
   else n' = Sync.with_chain (snd (Act.IsInitialBlockDownload params now (chain n))) n).
Proof.
  unfold decide_request, wants_headers, adopts, in_ibd. destruct (Act.IsInitialBlockDownload params now (chain n)) as [ibd c1] eqn:E.
  change (chainstate_manager_ n) with (chain n). rewrite E. cbn [fst snd]. change (Sync.HasSyncPeer (Sync.with_chain c1 n)) with (Sync.HasSyncPeer n).
  destruct ibd; [|by eexists]. destruct (Sync.HasSyncPeer n); [by eexists|]. destruct inbound; by eexists.
Qed.

Lemma decide_stable n : fst (decide_request params now p inbound n) = false ->
  decide_request params now p inbound (snd (decide_request params now p inbound n)) = decide_request params now p inbound n.
Proof.
  unfold decide_request. pose proof (ibd_latched params now (chain n)) as El. change (chainstate_manager_ n) with (chain n).
  destruct (Act.IsInitialBlockDownload params now (chain n)) as [ibd c1] eqn:E. cbn [snd] in El.
  change (Sync.HasSyncPeer (Sync.with_chain c1 n)) with (Sync.HasSyncPeer n).
  destruct ibd; [|done]. destruct (Sync.HasSyncPeer n) eqn:Eh; cbn [fst snd].
  - intros Hs. cbn [Sync.with_chain chainstate_manager_]. rewrite El. change (Sync.HasSyncPeer _) with (Sync.HasSyncPeer n). by rewrite Eh.
  - destruct inbound; cbn [negb fst snd]; [|done]. intros _. cbn [Sync.with_chain chainstate_manager_]. rewrite El.
    change (Sync.HasSyncPeer _) with (Sync.HasSyncPeer n). by rewrite Eh.
Qed.

(** The loop in closed form. *)
Lemma scan_inv_eq inventory found n : scan_inv params now p inbound inventory found n =
  if existsb (unknown_block (index (chain n))) inventory
  then (fst (decide_request params now p inbound n), true, snd (decide_request params now p inbound n)) else (false, found, n).
Proof.
  revert found n. induction inventory as [|inv l IH]; intros found n; [done|]. cbn [scan_inv existsb]. unfold unknown_block at 1.
  destruct (Proto.inv_type inv =? Proto.MSG_BLOCK); cbn [negb andb orb]; [|by rewrite IH]. unfold BM.LookupBlockIndex.
  change (chainstate_manager_ n) with (chain n). destruct (index (chain n) !! Proto.inv_hash inv) as [b|].
  - rewrite bool_decide_eq_true_2 by by eexists. cbn [negb orb]. by rewrite IH.
  - rewrite bool_decide_eq_false_2 by by intros []. cbn [negb orb]. destruct (decide_request params now p inbound n) as [should n1] eqn:E.
    cbn [fst snd]. destruct should; [done|]. rewrite IH. pose proof (decide_stable n) as Hs. rewrite E in Hs. cbn [fst snd] in Hs.
    rewrite Hs by done. by destruct (existsb _ l).
Qed.

Lemma handle_inv_ok `{HeaderChecks} (g : uint256) `{!LawfulChecks g} t inventory n : cs_inv g (chain n) -> tip (chain n) = Some t -> total (chain n) <= 2 ^ 31 -> is_Some (peer_states_ n !! p) ->
  let asks := existsb (unknown_block (index (chain n))) inventory && wants_headers n in
  exists n' out, HandleInvMessage params now p inbound inventory n = Some (true, n', out) /\
    index (chain n') = index (chain n) /\ active (chain n') = active (chain n) /\
    Sync.GetSyncPeerId n' = (if existsb (unknown_block (index (chain n))) inventory && adopts n then u64 p else Sync.GetSyncPeerId n) /\
    (if asks then exists l, out = [Send p (MGetHeaders (request_of l))] /\ msg_wf (MGetHeaders (request_of l)) /\
        Forall (fun q => is_Some (index (chain n) !! q) /\ ancestor (index (chain n)) q t) l
     else out = []).
Proof.
  intros Hc Ht Htot Hp asks. unfold HandleInvMessage. rewrite scan_inv_eq. subst asks. destruct (existsb _ inventory) eqn:Ex; cbn [andb]; [|by exists n, []].
  destruct (decide_request_ok n) as (n1 & -> & Hc1 & Hn1). cbn [fst snd]. destruct (ibd_fields params (chain n) now) as (I1 & I2 & _).
  rewrite <- Hc1 in I1, I2. assert (Hs : Sync.GetSyncPeerId n1 = if adopts n then u64 p else Sync.GetSyncPeerId n)
    by (destruct (adopts n); [apply Hn1|by rewrite Hn1]).
  destruct (wants_headers n); cbn [andb]; [|by exists n1, []].
  pose proof (ibd_latched params now (chain n)) as El. rewrite <- Hc1 in El. change (chainstate_manager_ n1) with (chain n1). rewrite El.
  destruct (Act.IsInitialBlockDownload params now (chain n)) as [ibd c1] eqn:E. cbn [snd] in Hc1.
  destruct (tip_at g (chain n) t (proj1 Hc) Ht) as (_ & [bt Hb] & Ha). pose proof (height_total _ _ _ _ Hc Hb Htot) as Hh.
  assert (Hi1 : cs_inv g (chain n1)) by (pose proof (pg_inv _ _ _ _ (ibd_progressed g params (chain n) now Hc)) as Hx; rewrite E in Hx; cbn [snd] in Hx; by rewrite Hc1).
  set (n2 := Sync.with_chain c1 n1). assert (En2 : chain n2 = chain n1) by by rewrite Hc1.
  destruct (request_ok g (chain n1) t bt (proj1 Hi1)) with (p := p) (n := n2) as (l & Er & Hl & Hw); [by rewrite I1|by rewrite I1, I2|done|done|].
  rewrite Er. eexists n2, _. split; [done|]. rewrite En2. split_and!; [done|done|done|]. exists l. split_and!; [|done|by rewrite <- I1].
  unfold Sync.send. rewrite bool_decide_eq_true_2; [done|]. cbn [n2 Sync.with_chain peer_states_]. destruct (adopts n).
  - destruct Hn1 as [_ ->]. by rewrite lookup_alter_eq, fmap_is_Some.
  - by rewrite Hn1.
Qed.
End HandleInv.

(** Handling an INV is exact: nothing but the latch of the initial download changes in the chain; one GETHEADERS, with a
    locator of known ancestors of the tip that is well-formed on the wire, goes to the announcing peer exactly if the inventory
    names a block the node does not have and headers are wanted from this peer - after the initial download always, during
    it only from the sync peer, or from an outbound peer when there is no sync peer, which is then adopted; otherwise
    nothing is sent. *)
Theorem handle_inv_exact `{HeaderChecks} (g : uint256) `{!LawfulChecks g} (params : ChainParams) (now p : Z) (inbound : bool)
    (t : block_ptr) (inventory : list Proto.InventoryVector) (n : SyncManager) :
  let c := chainstate_manager_ n in let unknown := existsb (unknown_block (index c)) inventory in
  cs_inv g c -> tip c = Some t -> total c <= 2 ^ 31 -> is_Some (peer_states_ n !! p) ->
  exists n' out, HandleInvMessage params now p inbound inventory n = Some (true, n', out) /\
    index (chainstate_manager_ n') = index c /\ active (chainstate_manager_ n') = active c /\
    Sync.GetSyncPeerId n' = (if unknown && adopts params now inbound n then u64 p else Sync.GetSyncPeerId n) /\
    (if unknown && wants_headers params now p inbound n
     then exists l, out = [Send p (MGetHeaders (request_of l))] /\ msg_wf (MGetHeaders (request_of l)) /\
        Forall (fun q => is_Some (index c !! q) /\ ancestor (index c) q t) l
     else out = []).
Proof. intros c unknown. exact (handle_inv_ok params now p inbound g t inventory n). Qed.

(** ** Witnesses *)

#[local] Existing Instance accept_all.
#[local] Existing Instance accept_all_lawful.

Lemma handle_inv_exact_witness :
  exists params, Params.Select 0 0 REGTEST = Some params /\
  let n := lone_node params in let c := chainstate_manager_ n in
  let inventory := [block_inv (replicate 32 5)] in let unknown := existsb (unknown_block (index c)) inventory in
  exists n' out, HandleInvMessage params 1000 7 false inventory n = Some (true, n', out) /\
    index (chainstate_manager_ n') = index c /\ active (chainstate_manager_ n') = active c /\
    Sync.GetSyncPeerId n' = (if unknown && adopts params 1000 false n then u64 7 else Sync.GetSyncPeerId n) /\
    (if unknown && wants_headers params 1000 7 false n
     then exists l, out = [Send 7 (MGetHeaders (request_of l))] /\ msg_wf (MGetHeaders (request_of l)) /\
        Forall (fun q => is_Some (index c !! q) /\ ancestor (index c) q regtest_hash) l
     else out = []).
Proof.
  destruct (select_ok 0 0 REGTEST) as (params & E & _). exists params. split; [exact E|]. intros n c inventory unknown.
  apply (handle_inv_exact regtest_hash params 1000 7 false regtest_hash inventory n (regtest_inv params) (regtest_tip params)); [|exact (lone_peer params)].
  change (chainstate_manager_ n) with (regtest_state params). rewrite regtest_total. lia.
Defined.

(** A relay manager whose node has a block above genesis, with peer 7 ready and another block in its queue. *)
Definition tip_hash : uint256 := replicate 32 9.
Definition above_genesis : Chainstate :=
  mkCS (BM.mkBM {[tip_hash := Idx.set_tree 1 4 0 (Idx.of_header next_header)]} [None; Some tip_hash] tip_hash true)
    (Selector.mkSelector [] None) ∅ ∅ ∅ false 100.
Definition relay_node : SyncManager := mkSync above_genesis {[7 := fresh_peer 0]} (mkSS Sync.NO_SYNC_PEER 0 0) 0 false.
Definition queued_peer : Announce := mkAnn true [tip_hash] tip_hash 1000.
Definition relay_example : BlockRelayManager := mkRelay relay_node {[7 := queued_peer]}.

Lemma relay_example_reachable : relay_reachable relay_example.
Proof.
  exists relay_node. eapply rtc_l; [apply (StepPeer 7)|]. eapply rtc_l; [apply (StepReady 7 true)|]. eapply rtc_l; [apply (StepAnnounce 1000 7)|].
  match goal with |- rtc _ ?x ?y => assert (E : x = y) by (vm_compute; reflexivity); rewrite E end. apply rtc_refl.
Qed.

Lemma tip_announced_witness :
  let '(r', out) := FlushBlockAnnouncements (AnnounceTipToAllPeers 1700 relay_example) in
  announced_to 7 out =
    block_inv <$> inv_queue queued_peer ++ (if decide (recently_announced 1700 tip_hash queued_peer \/ tip_hash ∈ inv_queue queued_peer) then [] else [tip_hash]) /\
  NoDup (announced_to 7 out) /\
  Forall (fun m => exists l, m = MInv l /\ (0 < length l)%nat /\ Z.of_nat (length l) <= Proto.MAX_INV_SIZE) (sent_to 7 out) /\
  inv_queue <$> relay_peers_ r' !! 7 = Some [].
Proof. apply (tip_announced relay_example 7 queued_peer tip_hash 1700 relay_example_reachable); reflexivity. Defined.

Lemma block_relayed_once_witness :
  let '(r1, out1) := RelayBlock 1000 tip_hash relay_example in
  let '(r2, out2) := FlushBlockAnnouncements (AnnounceTipToAllPeers 1030 r1) in
  sent_to 7 out1 = (if ready queued_peer then [MInv [block_inv tip_hash]] else []) /\
  announced_to 7 out2 = (if ready queued_peer then block_inv <$> List.filter (fun x => negb (bool_decide (x = tip_hash))) (inv_queue queued_peer) else []) /\
  ~ block_inv tip_hash ∈ announced_to 7 out2.
Proof. apply (block_relayed_once relay_example 7 queued_peer tip_hash 1000 1030 relay_example_reachable); [reflexivity|reflexivity|lia|vm_compute; reflexivity]. Defined.
