(* ===== verification/Ban.v ===== *)
(** * Ban: banned, discouraged and whitelisted addresses ([network/ban_manager.hpp/.cpp])

    Bans are kept in a file and survive a restart; discouragements expire after a day and are bounded.  Every public
    function holds a mutex and is one step; the clock is an argument, and so is whether a write of the file succeeds. *)
From Stdlib Require Import String.
From stdpp Require Import gmap sorting pretty.
From S2P Require Import Prelude Arith Bytes Block Protocol Persist AddrMan.
#[local] Open Scope Z_scope.
#[local] Set Warnings "-register-all".

(** ** Data *)

Record CBanEntry := mkBanEntry { nVersion : Z; nCreateTime : Z; nBanUntil : Z }.

(** [ban_file_] is [None] while [ban_file_path_] is empty, otherwise what the file at that path holds.
    ([ban_auto_save_] is constantly true.) *)
Record BanManager := mkBans {
  banned_ : gmap (list Z) CBanEntry;
  discouraged_ : gmap (list Z) Z;
  whitelist_ : gset (list Z);
  ban_file_ : option file
}.

Module Bans.

Definition CURRENT_VERSION : Z := 1.
Definition MAX_DISCOURAGED : Z := 10000.
Definition DISCOURAGE_DURATION_SEC : Z := 24 * 60 * 60.

Definition IsExpired (now : Z) (e : CBanEntry) : bool := negb (nBanUntil e =? 0) && (nBanUntil e <? now).

Definition new : BanManager := mkBans ∅ ∅ ∅ None.
Definition with_banned f b := mkBans (f (banned_ b)) (discouraged_ b) (whitelist_ b) (ban_file_ b).
Definition with_discouraged f b := mkBans (banned_ b) (f (discouraged_ b)) (whitelist_ b) (ban_file_ b).
Definition with_whitelist f b := mkBans (banned_ b) (discouraged_ b) (f (whitelist_ b)) (ban_file_ b).
Definition with_file x b := mkBans (banned_ b) (discouraged_ b) (whitelist_ b) (Some x).

(** Iteration over a [std::map] with strings as keys. *)
Definition item_le {A} (a b : list Z * A) : Prop := Proto.array_lt b.1 a.1 = false.
#[export] Instance item_le_dec {A} (a b : list Z * A) : Decision (item_le a b).
Proof. unfold item_le. apply _. Defined.
Definition sorted_items {A} (m : gmap (list Z) A) : list (list Z * A) := merge_sort item_le (map_to_list m).

(** ** Persistence *)

(** The characters of a key of the JSON object. *)
Definition unstr (s : list Z) : string := String.string_of_list_ascii ((fun c => Ascii.ascii_of_N (Z.to_N c)) <$> s).

Definition save_entry (e : CBanEntry) : json :=
  JObj [("version", JInt (nVersion e)); ("create_time", JInt (nCreateTime e)); ("ban_until", JInt (nBanUntil e))]%string.
(** An empty list is saved as null. *)
Definition save_list (m : gmap (list Z) CBanEntry) : json :=
  match sorted_items m with [] => JOther | l => JObj ((fun '(a, e) => (unstr a, save_entry e)) <$> l) end.

Definition sweep (now : Z) (m : gmap (list Z) CBanEntry) : gmap (list Z) CBanEntry := filter (fun '(_, e) => IsExpired now e = false) m.

Definition SaveBansInternal (now : Z) (write_ok : bool) (b : BanManager) : bool * BanManager :=
  match ban_file_ b with
  | None => (true, b)
  | Some _ =>
      let b := with_banned (sweep now) b in
      if write_ok then (true, with_file (Parsed (save_list (banned_ b))) b) else (false, b)
  end.
Definition SaveBans := SaveBansInternal.
Definition auto_save (now : Z) (write_ok : bool) (b : BanManager) : BanManager :=
  match ban_file_ b with None => b | Some _ => (SaveBansInternal now write_ok b).2 end.

(** [ban_data.value(key, default)]: throws on a value that is not an object, and on a member that is not a number. *)
Definition value (w : Z -> Z) (k : string) (d : Z) (j : json) : option Z :=
  match j with
  | JObj l => match Persist.assoc k l with None => Some d | Some (JInt z) => Some (w z) | Some _ => None end
  | _ => None
  end.
Definition load_entry (j : json) : option CBanEntry :=
  match value i32 "version" CURRENT_VERSION j with
  | None => None
  | Some v =>
      match value i64 "create_time" 0 j with
      | None => None
      | Some c => match value i64 "ban_until" 0 j with None => None | Some u => Some (mkBanEntry v c u) end
      end
  end.

(** The entries of a value; an array is indexed by numbers, a number or a string is one entry with an empty key. *)
Definition json_items (j : json) : list (list Z * json) :=
  match j with
  | JObj l => (fun '(k, v) => (str k, v)) <$> l
  | JArr l => imap (fun i v => (str (pretty i), v)) l
  | JOther => []
  | j => [([], j)]
  end.

(** The loop: whether it ran to the end (an exception leaves the entries read so far), and how many were expired. *)
Fixpoint load_items (now : Z) (l : list (list Z * json)) (expired : nat) (m : gmap (list Z) CBanEntry)
  : bool * nat * gmap (list Z) CBanEntry :=
  match l with
  | [] => (true, expired, m)
  | (address, ban_data) :: l =>
      match load_entry ban_data with
      | None => (false, expired, m)
      | Some entry => if IsExpired now entry then load_items now l (S expired) m else load_items now l expired (<[address := entry]> m)
      end
  end.

(** [LoadBans], with what the data directory holds ([None] for no directory). *)
Definition LoadBans (now : Z) (write_ok : bool) (datadir : option file) (b : BanManager) : bool * BanManager :=
  match datadir with
  | None => (true, b)
  | Some f =>
      let b := with_file f b in
      match f with
      | NotFound => (true, b)
      | Unparsable => (false, b)
      | Parsed j =>
          let '(ok, expired, m) := load_items now (json_items j) 0 (banned_ b) in
          let b := with_banned (fun _ => m) b in
          if negb ok then (false, b)
          else if (0 <? expired)%nat then (true, (SaveBansInternal now write_ok b).2) else (true, b)
      end
  end.

(** ** Bans *)

(** [Ban].  The sum is of type [int64_t]: in C++ its overflow is undefined behaviour; here it wraps around, as compiled
    code commonly does. *)
Definition Ban (now : Z) (write_ok : bool) (address : list Z) (ban_time_offset : Z) (b : BanManager) : BanManager :=
  let ban_until := if 0 <? ban_time_offset then i64 (now + ban_time_offset) else 0 in
  auto_save now write_ok (with_banned (insert address (mkBanEntry CURRENT_VERSION now ban_until)) b).

Definition Unban (now : Z) (write_ok : bool) (address : list Z) (b : BanManager) : BanManager :=
  match banned_ b !! address with
  | Some _ => auto_save now write_ok (with_banned (delete address) b)
  | None => b
  end.

Definition IsBanned (now : Z) (address : list Z) (b : BanManager) : bool :=
  match banned_ b !! address with None => false | Some e => negb (IsExpired now e) end.

Definition ClearBanned (now : Z) (write_ok : bool) (b : BanManager) : BanManager := auto_save now write_ok (with_banned (fun _ => ∅) b).

Definition SweepBanned (now : Z) (write_ok : bool) (b : BanManager) : BanManager :=
  let b' := with_banned (sweep now) b in
  if (0 <? size (banned_ b) - size (banned_ b'))%nat then auto_save now write_ok b' else b'.

(** ** Discouragement *)

Definition sweep_expiry (now : Z) (m : gmap (list Z) Z) : gmap (list Z) Z := filter (fun '(_, expiry) => now < expiry) m.

(** The first entry with the smallest expiry below the largest value of an [int64_t]. *)
Fixpoint earliest (l : list (list Z * Z)) (victim : option (list Z)) (min_expiry : Z) : option (list Z) :=
  match l with
  | [] => victim
  | (a, expiry) :: l => if expiry <? min_expiry then earliest l (Some a) expiry else earliest l victim min_expiry
  end.

Definition Discourage (now : Z) (address : list Z) (b : BanManager) : BanManager :=
  with_discouraged (fun m =>
    let m := <[address := i64 (now + DISCOURAGE_DURATION_SEC)]> m in
    if MAX_DISCOURAGED <? Z.of_nat (size m) then
      let m := sweep_expiry now m in
      if MAX_DISCOURAGED <? Z.of_nat (size m) then
        match earliest (sorted_items m) None (2 ^ 63 - 1) with Some victim => delete victim m | None => m end
      else m
    else m) b.

Definition IsDiscouraged (now : Z) (address : list Z) (b : BanManager) : bool :=
  match discouraged_ b !! address with None => false | Some expiry => negb (expiry <=? now) end.

Definition ClearDiscouraged : BanManager -> BanManager := with_discouraged (fun _ => ∅).
Definition SweepDiscouraged (now : Z) : BanManager -> BanManager := with_discouraged (sweep_expiry now).

(** ** Whitelist *)

Definition AddToWhitelist (address : list Z) : BanManager -> BanManager := with_whitelist (fun w => {[address]} ∪ w).
Definition RemoveFromWhitelist (address : list Z) : BanManager -> BanManager := with_whitelist (fun w => w ∖ {[address]}).
Definition IsWhitelisted (address : list Z) (b : BanManager) : bool := bool_decide (address ∈ whitelist_ b).
End Bans.
