(* ===== verification/BanProps.v ===== *)
(** * BanProps: theorems about bans

    The ban list survives a restart and the list of discouraged addresses is bounded. *)
From Stdlib Require Import String.
From stdpp Require Import gmap sorting pretty.
From S2P Require Import Prelude Arith Bytes Block Protocol Persist AddrMan Ban.
#[local] Open Scope Z_scope.
#[local] Set Warnings "-register-all".
Import Bans.

(** ** Strings *)

Lemma str_unstr a : Forall byte_ok a -> str (unstr a) = a.
Proof.
  intros Ha. unfold str, unstr. rewrite String.list_ascii_of_string_of_list_ascii, <- list_fmap_compose.
  induction Ha as [|c a Hc _ IH]; [done|]. cbn. rewrite IH. f_equal. unfold byte_ok in Hc.
  rewrite Ascii.N_ascii_embedding by lia. lia.
Qed.

(** ** Entries *)

Definition entry_wf (e : CBanEntry) : Prop := nVersion e = CURRENT_VERSION /\ in_s 64 (nCreateTime e) /\ in_s 64 (nBanUntil e).

Lemma load_save_entry e : entry_wf e -> load_entry (save_entry e) = Some e.
Proof.
  intros (H1 & H2 & H3). unfold load_entry, save_entry, value. cbn. destruct e as [v c u]. cbn in *. subst v.
  rewrite !i64_id by done. by rewrite i32_id by done.
Qed.

Lemma expired_mono t t' e : t <= t' -> IsExpired t e = true -> IsExpired t' e = true.
Proof. unfold IsExpired. rewrite !andb_true_iff, !Z.ltb_lt. intuition lia. Qed.

Lemma sweep_lookup t m a : sweep t m !! a = match m !! a with Some e => if IsExpired t e then None else Some e | None => None end.
Proof.
  unfold sweep. destruct (m !! a) as [e|] eqn:E.
  - destruct (IsExpired t e) eqn:Ee.
    + apply map_lookup_filter_None. right. intros x Hx. rewrite E in Hx. injection Hx as <-. by rewrite Ee.
    + by apply map_lookup_filter_Some.
  - apply map_lookup_filter_None. by left.
Qed.
Lemma sweep_sweep t t' m : t <= t' -> sweep t' (sweep t m) = sweep t' m.
Proof.
  intros Ht. apply map_eq. intros a. rewrite !sweep_lookup. destruct (m !! a) as [e|]; [|done].
  destruct (IsExpired t e) eqn:E; [|done]. by rewrite (expired_mono t t' e Ht E).
Qed.
Lemma banned_sweep t a b : IsBanned t a b = bool_decide (is_Some (sweep t (banned_ b) !! a)).
Proof.
  unfold IsBanned. rewrite sweep_lookup. destruct (banned_ b !! a) as [e|]; [|done]. by destruct (IsExpired t e).
Qed.

(** ** Loading what was saved *)

Definition list_wf (m : gmap (list Z) CBanEntry) : Prop := map_Forall (fun a e => Forall byte_ok a /\ entry_wf e) m.

Lemma sorted_items_perm {A} (m : gmap (list Z) A) : sorted_items m ≡ₚ map_to_list m.
Proof. apply merge_sort_Permutation. Qed.
Lemma sorted_items_elem {A} (m : gmap (list Z) A) a e : (a, e) ∈ sorted_items m <-> m !! a = Some e.
Proof. rewrite sorted_items_perm. apply elem_of_map_to_list. Qed.
Lemma sorted_items_nodup {A} (m : gmap (list Z) A) : NoDup (sorted_items m).*1.
Proof. rewrite sorted_items_perm. apply NoDup_fst_map_to_list. Qed.

Lemma save_items m : list_wf m -> json_items (save_list m) = (fun '(a, e) => (a, save_entry e)) <$> sorted_items m.
Proof.
  intros Hm. unfold save_list. destruct (sorted_items m) as [|x l] eqn:E; [done|]. cbn [json_items]. rewrite <- E, <- list_fmap_compose.
  apply list_fmap_ext. intros i [a e] Hi%list_elem_of_lookup_2. apply sorted_items_elem in Hi. cbn.
  by rewrite str_unstr by apply (Hm a e Hi).
Qed.

Lemma load_items_ok t l n m0 : Forall (fun x => entry_wf x.2) l -> NoDup l.*1 ->
  exists k m, load_items t ((fun '(a, e) => (a, save_entry e)) <$> l) n m0 = (true, k, m) /\ (n <= k)%nat /\
    (forall a e, (a, e) ∈ l -> m !! a = if IsExpired t e then m0 !! a else Some e) /\
    (forall a, a ∉ l.*1 -> m !! a = m0 !! a) /\
    (k = n -> Forall (fun x => IsExpired t x.2 = false) l).
Proof.
  revert n m0. induction l as [|[a e] l IH]; intros n m0 Hl Hd.
  { exists n, m0. split_and!; [done|lia|set_solver|done|constructor]. }
  inversion Hl as [|? ? He Hl']; subst. apply NoDup_cons in Hd as [Ha Hd]. rewrite fmap_cons. cbn [load_items].
  rewrite (load_save_entry e He). destruct (IsExpired t e) eqn:E.
  - destruct (IH (S n) m0 Hl' Hd) as (k & m & E1 & H1 & H2 & H3 & H4). exists k, m. split_and!; [done|lia| | |lia].
    + intros a' e' [[= -> ->]|Hin]%elem_of_cons; [rewrite E; by apply H3|by apply H2].
    + intros a' Ha'. apply H3. set_solver.
  - destruct (IH n (<[a := e]> m0) Hl' Hd) as (k & m & E1 & H1 & H2 & H3 & H4). exists k, m. split_and!; [done|lia| | |].
    + intros a' e' [[= -> ->]|Hin]%elem_of_cons; [rewrite E, (H3 a Ha); apply lookup_insert_eq|]. rewrite (H2 a' e' Hin).
      destruct (IsExpired t e'); [|done]. apply lookup_insert_ne. intros ->. apply Ha. apply list_elem_of_fmap. by exists (a', e').
    + intros a' Ha'. rewrite H3 by set_solver. apply lookup_insert_ne. set_solver.
    + intros Hk. constructor; [done|by apply H4].
Qed.

Lemma load_saved t m : list_wf m -> exists k, load_items t (json_items (save_list m)) 0 ∅ = (true, k, sweep t m) /\ (k = 0%nat -> sweep t m = m).
Proof.
  intros Hm. rewrite save_items by done. destruct (load_items_ok t (sorted_items m) 0 ∅) as (k & m' & -> & _ & H2 & H3 & H4).
  { apply Forall_forall. intros [a e] He%sorted_items_elem. apply (Hm a e He). }
  { apply sorted_items_nodup. }
  assert (Em : m' = sweep t m).
  { apply map_eq. intros a. rewrite sweep_lookup. destruct (m !! a) as [e|] eqn:E.
    - rewrite (H2 a e) by by apply sorted_items_elem. by destruct (IsExpired t e); rewrite ?lookup_empty.
    - rewrite H3, lookup_empty; [done|]. intros ([? e] & -> & He)%list_elem_of_fmap. apply sorted_items_elem in He. cbn in *. congruence. }
  exists k. split; [by rewrite Em|]. intros Hk. apply map_eq. intros a. rewrite sweep_lookup. destruct (m !! a) as [e|] eqn:E; [|done].
  specialize (H4 Hk). rewrite Forall_forall in H4. specialize (H4 (a, e)). cbn in H4. by rewrite H4 by by apply sorted_items_elem.
Qed.

(** ** Runs *)

Inductive ban_op :=
| OBan (address : list Z) (offset : Z) | OUnban (address : list Z) | OClear | OSweep | OSave
| ODiscourage (address : list Z) | OClearDiscouraged | OSweepDiscouraged | OWhitelist (address : list Z) | OUnwhitelist (address : list Z)
| ORestart.

Definition restart (t : Z) (b : BanManager) : BanManager := (LoadBans t true (ban_file_ b) new).2.

Definition ban_do (t : Z) (op : ban_op) : BanManager -> BanManager :=
  match op with
  | OBan a off => Ban t true a off | OUnban a => Unban t true a | OClear => ClearBanned t true
  | OSweep => SweepBanned t true | OSave => fun b => (SaveBans t true b).2
  | ODiscourage a => Discourage t a | OClearDiscouraged => ClearDiscouraged | OSweepDiscouraged => SweepDiscouraged t
  | OWhitelist a => AddToWhitelist a | OUnwhitelist a => RemoveFromWhitelist a
  | ORestart => restart t
  end.

Definition op_ok (t : Z) (op : ban_op) : Prop :=
  match op with OBan a off => Forall byte_ok a /\ t + off < 2 ^ 63 | _ => True end.

(** The states of a node that starts without a file, runs operations at increasing times, and whose writes succeed. *)
Inductive bans_at : Z -> BanManager -> Prop :=
| BansFirst t : bans_at t (LoadBans t true (Some NotFound) new).2
| BansStep t t' op b : bans_at t b -> t <= t' < 2 ^ 62 -> 0 <= t' -> op_ok t' op -> bans_at t' (ban_do t' op b).

(** What the file holds: a list that agrees with the bans from now on. *)
Definition disk_ok (t : Z) (b : BanManager) : Prop :=
  match ban_file_ b with
  | Some NotFound => banned_ b = ∅
  | Some (Parsed j) => exists m, j = save_list m /\ list_wf m /\ forall t', t <= t' -> sweep t' m = sweep t' (banned_ b)
  | _ => False
  end.
Definition bans_ok (t : Z) (b : BanManager) : Prop :=
  list_wf (banned_ b) /\ disk_ok t b /\
  Z.of_nat (size (discouraged_ b)) <= MAX_DISCOURAGED /\ map_Forall (fun _ expiry => expiry < 2 ^ 63 - 1) (discouraged_ b).

Lemma sweep_wf t m : list_wf m -> list_wf (sweep t m).
Proof. intros Hm a e He. rewrite sweep_lookup in He. destruct (m !! a) as [x|] eqn:E; [|done]. destruct (IsExpired t x); [done|]. injection He as <-. by apply Hm. Qed.

Lemma disk_mono t t' b : t <= t' -> disk_ok t b -> disk_ok t' b.
Proof.
  intros Ht. unfold disk_ok. destruct (ban_file_ b) as [[| |j]|]; try done. intros (m & -> & Hm & Hs). exists m. split_and!; [done..|].
  intros u Hu. apply Hs. lia.
Qed.

Lemma save_ok t b : list_wf (banned_ b) -> is_Some (ban_file_ b) ->
  let b' := auto_save t true b in
  list_wf (banned_ b') /\ disk_ok t b' /\ discouraged_ b' = discouraged_ b /\ banned_ b' = sweep t (banned_ b).
Proof.
  intros Hb [f Hf]. unfold auto_save, SaveBansInternal. rewrite Hf. cbn. split_and!; [by apply sweep_wf| |done|done].
  unfold disk_ok. cbn. eexists. split_and!; [done|by apply sweep_wf|done].
Qed.
Lemma disk_some t b : disk_ok t b -> is_Some (ban_file_ b).
Proof. unfold disk_ok. destruct (ban_file_ b) as [f|]; [|done]. by eexists. Qed.

Lemma reload_ok t b : disk_ok t b -> let b' := restart t b in
  list_wf (banned_ b') /\ disk_ok t b' /\ discouraged_ b' = ∅ /\ banned_ b' = sweep t (banned_ b) /\
  (LoadBans t true (ban_file_ b) new).1 = true.
Proof.
  unfold restart, disk_ok at 1. destruct (ban_file_ b) as [[| |j]|]; try done.
  - intros ->. by split_and!.
  - intros (m & -> & Hm & Hs). cbn [LoadBans]. change (banned_ (with_file _ new)) with (∅ : gmap (list Z) CBanEntry).
    destruct (load_saved t m Hm) as (k & -> & Hk). cbn [negb]. set (b1 := with_banned _ _). rewrite <- (Hs t (Z.le_refl t)).
    destruct (Nat.ltb_spec 0 k) as [Hlt|Hlt].
    + destruct (save_ok t b1) as (H1 & H2 & H3 & H4); [by apply sweep_wf|by eexists|].
      change (SaveBansInternal t true b1).2 with (auto_save t true b1). split_and!; [done..| |done].
      cbn [snd]. rewrite H4. by apply sweep_sweep.
    + specialize (Hk ltac:(lia)). cbn [snd]. split_and!; [by apply sweep_wf| |done|done|done].
      unfold disk_ok. cbn. exists m. split_and!; [done..|]. intros u _. by rewrite Hk.
Qed.

(** ** Discouraged addresses *)

Lemma earliest_ok l v min :
  (exists a e, (a, e) ∈ l /\ e < min) -> exists a, earliest l v min = Some a /\ a ∈ l.*1.
Proof.
  revert v min. induction l as [|[a e] l IH]; intros v min (x & y & Hin & Hy); [by apply elem_of_nil in Hin|]. cbn [earliest].
  assert (Hrest : forall v m, (exists z, earliest l v m = Some z /\ z ∈ l.*1) \/ earliest l v m = v).
  { clear. induction l as [|[b f] l IH]; intros v m; [by right|]. cbn [earliest]. destruct (f <? m).
    - left. destruct (IH (Some b) f) as [(z & E & Hz)| ->]; [exists z|exists b]; set_solver.
    - destruct (IH v m) as [(z & E & Hz)|E]; [left; exists z; set_solver|by right]. }
  destruct (Z.ltb_spec e min) as [He|He].
  - destruct (Hrest (Some a) e) as [(z & E & Hz)|E]; [exists z|exists a]; set_solver.
  - apply elem_of_cons in Hin as [[= -> ->]|Hin]; [lia|]. destruct (IH v min) as (z & E & Hz); [by exists x, y|]. exists z. set_solver.
Qed.

Lemma sweep_expiry_sub (t : Z) (m : gmap (list Z) Z) : sweep_expiry t m ⊆ m.
Proof. apply map_filter_subseteq. Qed.

Lemma discourage_ok t a b : 0 <= t < 2 ^ 62 ->
  Z.of_nat (size (discouraged_ b)) <= MAX_DISCOURAGED -> map_Forall (fun _ expiry => expiry < 2 ^ 63 - 1) (discouraged_ b) ->
  let m := discouraged_ (Discourage t a b) in
  Z.of_nat (size m) <= MAX_DISCOURAGED /\ map_Forall (fun _ expiry => expiry < 2 ^ 63 - 1) m.
Proof.
  intros Ht Hs Hf. unfold Discourage. cbn [with_discouraged discouraged_]. set (m1 := <[a := _]> _).
  assert (Hf1 : map_Forall (fun _ expiry => expiry < 2 ^ 63 - 1) m1).
  { apply map_Forall_insert_2; [|done]. rewrite i64_id; unfold in_s, DISCOURAGE_DURATION_SEC; lia. }
  assert (Hs1 : Z.of_nat (size m1) <= MAX_DISCOURAGED + 1) by (unfold m1; rewrite map_size_insert; destruct (_ !! a); cbn; lia).
  destruct (Z.ltb_spec MAX_DISCOURAGED (Z.of_nat (size m1))) as [H1|H1]; [|done].
  set (m2 := sweep_expiry t m1). pose proof (sweep_expiry_sub t m1) as Hsub. pose proof (map_subseteq_size m2 m1 Hsub) as Hs2.
  assert (Hf2 : map_Forall (fun _ expiry => expiry < 2 ^ 63 - 1) m2) by (intros x e Hx; eapply Hf1, lookup_weaken; done).
  destruct (Z.ltb_spec MAX_DISCOURAGED (Z.of_nat (size m2))) as [H2|H2]; [|done].
  destruct (earliest_ok (sorted_items m2) None (2 ^ 63 - 1)) as (v & -> & Hv).
  { destruct (map_choose m2) as (x & y & Hxy); [intros E; rewrite E, map_size_empty in H2; unfold MAX_DISCOURAGED in H2; lia|].
    exists x, y. split; [by apply sorted_items_elem|by apply (Hf2 x)]. }
  apply list_elem_of_fmap in Hv as ([v' e] & -> & Hv). apply sorted_items_elem in Hv. cbn.
  rewrite map_size_delete_Some by by eexists. split; [lia|by apply map_Forall_delete].
Qed.

(** ** Every reachable state *)

Lemma bans_step_ok t t' op b : bans_ok t b -> t <= t' < 2 ^ 62 -> 0 <= t' -> op_ok t' op -> bans_ok t' (ban_do t' op b).
Proof.
  intros (H1 & H2 & H3 & H4) Ht H0 Hop. apply (disk_mono t t') in H2; [|lia]. pose proof (disk_some t' b H2) as Hf.
  assert (Hsave : forall f, list_wf (f (banned_ b)) -> bans_ok t' (auto_save t' true (with_banned f b))).
  { intros f Hw. destruct (save_ok t' (with_banned f b)) as (S1 & S2 & S3 & _); [done|done|]. split_and!; [done|done|by rewrite S3|by rewrite S3]. }
  destruct op as [a off|a| | | |a| | |a|a|]; cbn [ban_do].
  - unfold Ban. destruct Hop as [Ha Hoff]. apply Hsave. apply map_Forall_insert_2; [|done]. split; [done|]. split_and!; cbn; [done|unfold in_s; lia|].
    destruct (Z.ltb_spec 0 off); [rewrite i64_id|]; unfold in_s; lia.
  - unfold Unban. destruct (banned_ b !! a); [|done]. apply Hsave. by apply map_Forall_delete.
  - apply (Hsave (fun _ => ∅)). apply map_Forall_empty.
  - unfold SweepBanned. cbn zeta. destruct (0 <? _)%nat; [apply (Hsave (sweep t')); by apply sweep_wf|]. split_and!; [by apply sweep_wf| |done|done].
    unfold disk_ok in *. cbn [with_banned ban_file_ banned_]. destruct (ban_file_ b) as [[| |j]|]; try done; [by rewrite H2|].
    destruct H2 as (m & -> & Hm & Hs). exists m. split_and!; [done..|]. intros u Hu. rewrite (Hs u Hu). by rewrite sweep_sweep.
  - destruct (save_ok t' b H1 Hf) as (S1 & S2 & S3 & _). destruct Hf as [f Hf].
    assert (E : (SaveBans t' true b).2 = auto_save t' true b) by (unfold auto_save, SaveBans; by rewrite Hf).
    rewrite E. split_and!; [done|done|by rewrite S3|by rewrite S3].
  - destruct (discourage_ok t' a b) as [D1 D2]; [lia|done|done|]. by split_and!.
  - split_and!; [done|done|done|apply map_Forall_empty].
  - split_and!; [done|done| |].
    + cbn. etrans; [|exact H3]. apply inj_le. apply map_subseteq_size, sweep_expiry_sub.
    + intros x e Hx. eapply H4, lookup_weaken, sweep_expiry_sub. exact Hx.
  - by split_and!.
  - by split_and!.
  - destruct (reload_ok t' b H2) as (R1 & R2 & R3 & _). split_and!; [done|done|by rewrite R3|by rewrite R3].
Qed.

Lemma bans_at_ok t b : bans_at t b -> bans_ok t b.
Proof.
  induction 1 as [t|t t' op b _ IH Ht H0 Hop]; [|by eapply bans_step_ok]. split_and!; [apply map_Forall_empty|done|done|apply map_Forall_empty].
Qed.

(** C19: Bans survive a restart: in every state that a node reaches by operations at increasing times whose writes succeed,
    loading the ban list from the file into a fresh manager succeeds and gives, now and at any later time, the same
    answer for every address; and the number of discouraged addresses stays within its bound. *)
Theorem bans_survive_restart t t' b : bans_at t b -> t <= t' ->
  (LoadBans t' true (ban_file_ b) new).1 = true /\
  (forall u a, t' <= u -> IsBanned u a (restart t' b) = IsBanned u a b) /\
  Z.of_nat (size (discouraged_ b)) <= MAX_DISCOURAGED.
Proof.
  intros (_ & Hd & Hs & _)%bans_at_ok Ht. apply (disk_mono t t') in Hd; [|done]. destruct (reload_ok t' b Hd) as (_ & _ & _ & Hb & Hok).
  split_and!; [done| |done]. intros u a Hu. by rewrite !banned_sweep, Hb, sweep_sweep.
Qed.

Lemma str_bytes s : Forall byte_ok (str s).
Proof.
  unfold str. apply Forall_fmap, Forall_forall. intros c _. cbn. unfold byte_ok. pose proof (Ascii.N_ascii_bounded c). lia.
Qed.

(** The address 1.2.3.4 banned for an hour, and 5.6.7.8 for ever. *)
Definition bans_example : BanManager :=
  Ban 1010 true (str "5.6.7.8") 0 (Ban 1000 true (str "1.2.3.4") 3600 (LoadBans 999 true (Some NotFound) new).2).
Lemma bans_example_at : bans_at 1010 bans_example.
Proof.
  apply (BansStep 1000 1010 (OBan (str "5.6.7.8") 0)); [|lia|lia|split; [apply str_bytes|lia]].
  apply (BansStep 999 1000 (OBan (str "1.2.3.4") 3600)); [apply BansFirst|lia|lia|split; [apply str_bytes|lia]].
Qed.

Lemma bans_survive_restart_witness :
  (LoadBans 2000 true (ban_file_ bans_example) new).1 = true /\
  IsBanned 2000 (str "1.2.3.4") (restart 2000 bans_example) = true /\ IsBanned 5000 (str "1.2.3.4") (restart 2000 bans_example) = false.
Proof.
  destruct (bans_survive_restart 1010 2000 bans_example bans_example_at ltac:(lia)) as (H1 & H2 & _).
  rewrite (H2 2000), (H2 5000) by lia. split; [exact H1|]. split; by vm_compute.
Defined.
