(* ===== verification/Lifecycle.v ===== *)
(** * Lifecycle: the peers of the node ([network/peer_lifecycle_manager.hpp/.cpp])

    Which connections are admitted, when they are removed, and what that tells the address manager and the ban manager.
    The per-peer state holds the peer object of [Peer]; the callbacks that the discovery manager registers for
    connected and disconnected peers run inside the notifications, as in the code.  Every function is one step of the
    network thread and returns its effects; an outbound connection attempt completes in a later step
    ([on_connect_result]). *)
From stdpp Require Import gmap sorting strings.
From S2P Require Import Prelude Arith Bytes Sha256 Block BlockIndex Protocol Message Persist Misbehavior Peer AddrMan Discovery Ban.
#[local] Open Scope Z_scope.

(** ** Data *)

(** [PeerLifecycleManager::Config]. *)
Record Config := mkConfig { max_outbound_peers : Z; max_inbound_peers : Z; target_outbound_peers : Z }.

(** [PerPeerState]; the members for block relay are those of [Relay]. *)
Record PeerEntry := mkEntry {
  peer : Peer; created_at : Z (** milliseconds *); sync_started_ : bool; misbehavior_ : Mis.PeerMisbehaviorData; gossip_ : Gossip
}.

(** The members [addr_manager_], [recent_addrs_] and [gossip_stats_] are those of the discovery manager. *)
Record PeerLifecycleManager := mkLife {
  config_ : Config;
  peer_states_ : gmap Z PeerEntry;
  next_peer_id_ : Z;
  shutting_down_ : bool;
  stopping_all_ : bool;
  ban_manager_ : BanManager;
  addr_manager_ : AddressManager;
  recent_addrs_ : list Proto.TimestampedAddress;
  gossip_stats_ : GetAddrStats
}.

Inductive disconnect_reason := Disconnected | Misbehaved (score : Z) | Shutdown.

Inductive life_effect :=
| NotifyPeerConnected (peer_id : Z) (address : list Z) (port : Z) (connection_type : list Z)
| NotifyPeerDisconnected (peer_id : Z) (address : list Z) (port : Z) (reason : disconnect_reason) (mark_addr_good : bool)
| DisconnectPeer (peer_id : Z)
| PeerDoes (peer_id : Z) (e : effect)
| CloseTransport.

Inductive ConnectionResult :=
| Success | NotRunning | AddressBanned | AddressDiscouraged | AlreadyConnected | NoSlotsAvailable | TransportFailed
| PeerCreationFailed | ConnectionManagerFailed.
#[export] Instance ConnectionResult_eq_dec : EqDecision ConnectionResult.
Proof. solve_decision. Defined.

Module Life.

Definition FEELER_MAX_LIFETIME_SEC : Z := 120.
Definition MAX_INBOUND_PER_IP : nat := 2.
Definition MAX_CONNECTION_ATTEMPTS_PER_CYCLE : nat := 100.
Definition DEFAULT_MAX_OUTBOUND_CONNECTIONS : Z := 8.
Definition DEFAULT_MAX_INBOUND_CONNECTIONS : Z := 125.
Definition Config_new : Config :=
  mkConfig DEFAULT_MAX_OUTBOUND_CONNECTIONS DEFAULT_MAX_INBOUND_CONNECTIONS DEFAULT_MAX_OUTBOUND_CONNECTIONS.

Definition with_peers f L := mkLife (config_ L) (f (peer_states_ L)) (next_peer_id_ L) (shutting_down_ L) (stopping_all_ L)
  (ban_manager_ L) (addr_manager_ L) (recent_addrs_ L) (gossip_stats_ L).
Definition with_next_id x L := mkLife (config_ L) (peer_states_ L) x (shutting_down_ L) (stopping_all_ L)
  (ban_manager_ L) (addr_manager_ L) (recent_addrs_ L) (gossip_stats_ L).
Definition with_shutting x L := mkLife (config_ L) (peer_states_ L) (next_peer_id_ L) x (stopping_all_ L)
  (ban_manager_ L) (addr_manager_ L) (recent_addrs_ L) (gossip_stats_ L).
Definition with_bans f L := mkLife (config_ L) (peer_states_ L) (next_peer_id_ L) (shutting_down_ L) (stopping_all_ L)
  (f (ban_manager_ L)) (addr_manager_ L) (recent_addrs_ L) (gossip_stats_ L).
Definition with_addrs f L := mkLife (config_ L) (peer_states_ L) (next_peer_id_ L) (shutting_down_ L) (stopping_all_ L)
  (ban_manager_ L) (f (addr_manager_ L)) (recent_addrs_ L) (gossip_stats_ L).
Definition with_peer f (e : PeerEntry) : PeerEntry := mkEntry (f (peer e)) (created_at e) (sync_started_ e) (misbehavior_ e) (gossip_ e).

(** ** What the managers see of the shared state *)

Definition mis_view (e : PeerEntry) : Mis.PerPeerState :=
  Mis.mkPeer (is_inbound_ (cfg (peer e))) (PeerM.is_feeler (peer e)) (successfully_connected_ (peer e)) (sync_started_ e) (misbehavior_ e).
Definition as_discovery (L : PeerLifecycleManager) : DiscoveryManager :=
  mkDisc (addr_manager_ L) (gossip_ <$> peer_states_ L) (mis_view <$> peer_states_ L) (recent_addrs_ L) (gossip_stats_ L).
(** The discovery manager's callbacks change only the address manager. *)
Definition notify (f : DiscoveryManager -> DiscoveryManager) (L : PeerLifecycleManager) : PeerLifecycleManager :=
  with_addrs (fun _ => Discovery.addr_manager_ (f (as_discovery L))) L.

(** A [std::map] of the peers iterates by identifier; the order of the unordered map itself is left open, and is here that of
    [map_to_list]. *)
Definition id_le (a b : Z * PeerEntry) : Prop := a.1 <= b.1.
#[export] Instance id_le_dec a b : Decision (id_le a b).
Proof. unfold id_le. apply _. Defined.
Definition by_id (m : gmap Z PeerEntry) : list (Z * PeerEntry) := merge_sort id_le (map_to_list m).

(** ** Counting *)

Definition is_inbound (e : PeerEntry) : bool := is_inbound_ (cfg (peer e)).
Definition is_feeler (e : PeerEntry) : bool := PeerM.is_feeler (peer e).
Definition is_manual (e : PeerEntry) : bool := PeerM.is_manual (peer e).
Definition count (f : PeerEntry -> bool) (m : gmap Z PeerEntry) : nat := size (filter (fun '(_, e) => f e = true) m).

Definition peer_count (L : PeerLifecycleManager) : nat := size (peer_states_ L).
Definition outbound_count (L : PeerLifecycleManager) : nat :=
  count (fun e => negb (is_inbound e) && negb (is_feeler e) && negb (is_manual e)) (peer_states_ L).
Definition inbound_count (L : PeerLifecycleManager) : nat := count is_inbound (peer_states_ L).
(** The outbound connections that [add_peer] counts: manual ones too. *)
Definition outbound_nonfeeler (L : PeerLifecycleManager) : nat := count (fun e => negb (is_inbound e) && negb (is_feeler e)) (peer_states_ L).

Definition needs_more_outbound (L : PeerLifecycleManager) : bool := Z.of_nat (outbound_count L) <? target_outbound_peers (config_ L).
Definition can_accept_inbound (L : PeerLifecycleManager) : bool := Z.of_nat (inbound_count L) <? max_inbound_peers (config_ L).

Section Addresses.
Context `{Proto.BoostAsio}.

Definition normalize_ip_string (s : list Z) : list Z :=
  match Proto.make_address s with
  | None => s
  | Some (inl v4) => Proto.to_string_v4 v4
  | Some (inr v6) => if Proto.is_v4_mapped v6 then Proto.to_string_v4 (Proto.v4_unmapped v6) else Proto.to_string_v6 v6
  end.

Definition same_ip_inbound (address : list Z) (m : gmap Z PeerEntry) : nat :=
  count (fun e => is_inbound e && bool_decide (normalize_ip_string (PeerM.address (peer e)) = normalize_ip_string address)) m.
Definition can_accept_inbound_from (address : list Z) (L : PeerLifecycleManager) : bool :=
  if max_inbound_peers (config_ L) <=? Z.of_nat (inbound_count L) then false
  else (same_ip_inbound address (peer_states_ L) <? MAX_INBOUND_PER_IP)%nat.

(** The first match in iteration order; the callers only test whether there is one. *)
Definition find_peer_by_address (address : list Z) (port : Z) (L : PeerLifecycleManager) : Z :=
  match List.filter (fun '(_, e) => bool_decide (normalize_ip_string (PeerM.address (peer e)) = normalize_ip_string address) &&
                                    ((port =? 0) || (PeerM.port (peer e) =? port))) (map_to_list (peer_states_ L)) with
  | [] => -1
  | (id, _) :: _ => id
  end.

(** ** Removal *)

Definition mark_addr_good (e : PeerEntry) : bool :=
  successfully_connected_ (peer e) && (Mis.misbehavior_score (misbehavior_ e) =? 0) && negb (is_inbound e) && negb (is_feeler e) &&
  negb (target_port_ (cfg (peer e)) =? 0) && negb (bool_decide (target_address_ (cfg (peer e)) = [])).

Definition remove_peer (time peer_id : Z) (L : PeerLifecycleManager) : PeerLifecycleManager * list life_effect :=
  match peer_states_ L !! peer_id with
  | None => (L, [])
  | Some e =>
      let address := PeerM.address (peer e) in
      let port := PeerM.port (peer e) in
      let d := misbehavior_ e in
      let reason := if Mis.should_discourage d then Misbehaved (Mis.misbehavior_score d) else Disconnected in
      let L := if Mis.should_discourage d then with_bans (Bans.Discourage time (normalize_ip_string (Mis.address d))) L else L in
      let good := mark_addr_good e in
      let L := with_peers (delete peer_id) L in
      if shutting_down_ L then (L, [DisconnectPeer peer_id])
      else
        (notify (Disc.on_peer_disconnected time peer_id address port good) L,
         [NotifyPeerDisconnected peer_id address port reason good; DisconnectPeer peer_id])
  end.

Fixpoint remove_all (time : Z) (ids : list Z) (L : PeerLifecycleManager) : PeerLifecycleManager * list life_effect :=
  match ids with
  | [] => (L, [])
  | id :: ids => let '(L, o) := remove_peer time id L in let '(L, o') := remove_all time ids L in (L, o ++ o')
  end.

(** ** Eviction *)

Record EvictionCandidate := mkCand { cand_id : Z; cand_connected : Z; cand_ping_ms : Z }.

Definition map_ping (p : Z) : Z := if p <? 0 then Z.quot (2 ^ 63 - 1) 2 else p.

Definition candidates (env : Env) (L : PeerLifecycleManager) : list EvictionCandidate :=
  (fun '(id, e) => mkCand id (connected_time (Peer.stats_ (peer e))) (ping_time_ms (Peer.stats_ (peer e)))) <$>
    List.filter (fun '(_, e) => is_inbound e && negb (PeerM.steady_s env - connected_time (Peer.stats_ (peer e)) <? 10))
      (map_to_list (peer_states_ L)).

(** The loop: the worst peer so far with its connection time and score. *)
Record Worst := mkWorst { worst_peer_id : Z; oldest_connected : Z; worst_score : Z }.
Definition worse (w : Worst) (c : EvictionCandidate) : Worst :=
  let cand := map_ping (cand_ping_ms c) in
  if worst_score w <? cand then mkWorst (cand_id c) (cand_connected c) cand
  else if cand =? worst_score w then
    if cand_connected c <? oldest_connected w then mkWorst (cand_id c) (cand_connected c) (worst_score w)
    else if cand_connected c =? oldest_connected w then
      mkWorst (if cand_id c <? worst_peer_id w then cand_id c else worst_peer_id w) (oldest_connected w) (worst_score w)
    else w
  else w.

Definition evict_inbound_peer (env : Env) (L : PeerLifecycleManager) : bool * PeerLifecycleManager * list life_effect :=
  match candidates env L with
  | [] => (false, L, [])
  | l =>
      let w := foldl worse (mkWorst (-1) (2 ^ 63 - 1) (- 2 ^ 63)) l in
      if 0 <=? worst_peer_id w then let '(L, o) := remove_peer (wall_time env) (worst_peer_id w) L in (true, L, o) else (false, L, [])
  end.

(** ** Admission *)

Definition ban_refuses (env : Env) (permissions : Z) (peer_addr : list Z) (L : PeerLifecycleManager) : bool :=
  negb (Mis.HasPermission permissions Mis.NoBan) &&
  (let a := normalize_ip_string peer_addr in
   Bans.IsBanned (wall_time env) a (ban_manager_ L) || Bans.IsDiscouraged (wall_time env) a (ban_manager_ L)).

(** The checks that [add_peer] and [add_peer_with_id] share; an eviction happens even if the peer is refused later. *)
Definition check_admission (env : Env) (p : Peer) (permissions : Z) (address : list Z) (L : PeerLifecycleManager)
  : bool * PeerLifecycleManager * list life_effect :=
  if stopping_all_ L then (false, L, [])
  else if ban_refuses env permissions (match address with [] => PeerM.address p | a => a end) L then (false, L, [])
  else
    let inbound := is_inbound_ (cfg p) in
    if negb inbound && negb (PeerM.is_feeler p) && (max_outbound_peers (config_ L) <=? Z.of_nat (outbound_nonfeeler L)) then (false, L, [])
    else
      let '(room, L, o) :=
        if inbound && (max_inbound_peers (config_ L) <=? Z.of_nat (inbound_count L)) then
          let '(evicted, L, o) := evict_inbound_peer env L in
          (evicted && negb (max_inbound_peers (config_ L) <=? Z.of_nat (inbound_count L)), L, o)
        else (true, L, []) in
      if negb room then (false, L, o)
      else if inbound && (MAX_INBOUND_PER_IP <=? same_ip_inbound (PeerM.address p) (peer_states_ L))%nat then (false, L, o)
      else (true, L, o).

Definition insert_peer (env : Env) (peer_id : Z) (p : Peer) (permissions : Z) (address : list Z) (L : PeerLifecycleManager)
  : PeerLifecycleManager * list life_effect :=
  let peer_address := match address with [] => PeerM.address p | a => a end in
  let e := mkEntry p (steady_ms env) false (Mis.new_data permissions peer_address) (mkGossip false ∅) in
  let connection_type := if is_inbound_ (cfg p) then str "inbound" else if PeerM.is_feeler p then str "feeler" else str "outbound" in
  let L := with_peers (insert peer_id e) L in
  (notify (Disc.on_peer_connected (wall_time env) peer_id peer_address (PeerM.port p) connection_type) L,
   [NotifyPeerConnected peer_id peer_address (PeerM.port p) connection_type]).

Definition allocate_peer_id (L : PeerLifecycleManager) : Z * PeerLifecycleManager := (next_peer_id_ L, with_next_id (i32 (next_peer_id_ L + 1)) L).

Definition add_peer (env : Env) (p : Peer) (permissions : Z) (address : list Z) (L : PeerLifecycleManager)
  : Z * PeerLifecycleManager * list life_effect :=
  let '(ok, L, o) := check_admission env p permissions address L in
  if negb ok then (-1, L, o)
  else
    let '(peer_id, L) := allocate_peer_id L in
    let '(L, o') := insert_peer env peer_id p permissions address L in (peer_id, L, o ++ o').

(** The peer carries the identifier it is added with. *)
Definition add_peer_with_id (env : Env) (peer_id : Z) (p : Peer) (permissions : Z) (address : list Z) (L : PeerLifecycleManager)
  : bool * PeerLifecycleManager * list life_effect :=
  if negb (stopping_all_ L) && bool_decide (is_Some (peer_states_ L !! peer_id)) then (false, L, [])
  else
    let '(ok, L, o) := check_admission env p permissions address L in
    if negb ok then (false, L, o)
    else let '(L, o') := insert_peer env peer_id p permissions address L in (true, L, o ++ o').

(** ** Maintenance *)

Definition must_go (env : Env) (e : PeerEntry) : bool :=
  if negb (PeerM.is_connected (peer e)) then true
  else if is_feeler e && (FEELER_MAX_LIFETIME_SEC <=? Z.quot (steady_ms env - created_at e) 1000) then true
  else Mis.should_discourage (misbehavior_ e) && negb (Mis.HasPermission (Mis.permissions (misbehavior_ e)) Mis.NoBan).

Definition process_periodic (env : Env) (L : PeerLifecycleManager) : PeerLifecycleManager * list life_effect :=
  let to_remove := (List.filter (fun '(_, e) => must_go env e) (map_to_list (peer_states_ L))).*1 in
  let '(L, o) := remove_all (wall_time env) to_remove L in
  (with_addrs (AddrMan.cleanup_stale (wall_time env)) L, o).

Definition disconnect_all (env : Env) (L : PeerLifecycleManager) : PeerLifecycleManager * list life_effect :=
  let peers := by_id (peer_states_ L) in
  let notes := if shutting_down_ L then []
               else (fun '(id, e) => NotifyPeerDisconnected id (PeerM.address (peer e)) (PeerM.port (peer e)) Shutdown false) <$> peers in
  let L := if shutting_down_ L then L
           else foldl (fun L '(id, e) => notify (Disc.on_peer_disconnected (wall_time env) id (PeerM.address (peer e)) (PeerM.port (peer e)) false) L)
                  L peers in
  (with_peers (fun _ => ∅) L, notes ++ ((fun '(id, _) => DisconnectPeer id) <$> peers)).

(** ** Connections *)

Section Dial.
Context (h : Endian.host) (env : Env) (process_nonce network_magic chain_height local_nonce : Z).

Definition start_peer (peer_id : Z) (L : PeerLifecycleManager) : PeerLifecycleManager * list life_effect :=
  match peer_states_ L !! peer_id with
  | None => (L, [])
  | Some e =>
      let '(p, o) := PeerM.start h env (peer e) in
      (with_peers (insert peer_id (with_peer (fun _ => p) e)) L, PeerDoes peer_id <$> o)
  end.

(** [ConnectTo]; [conn] is what the transport returns for the attempt. *)
Definition ConnectTo (addr : Proto.NetworkAddress) (permissions : Z) (conn : option Connection) (L : PeerLifecycleManager)
  : ConnectionResult * PeerLifecycleManager * list life_effect :=
  match Proto.NetworkAddressToString addr with
  | None => (TransportFailed, L, [])
  | Some address =>
      let port := Proto.port addr in
      if Bans.IsBanned (wall_time env) address (ban_manager_ L) then (AddressBanned, L, [])
      else if Bans.IsDiscouraged (wall_time env) address (ban_manager_ L) then (AddressDiscouraged, L, [])
      else if negb (find_peer_by_address address port L =? -1) then (AlreadyConnected, L, [])
      else if negb (needs_more_outbound L) then (NoSlotsAvailable, L, [])
      else
        let '(peer_id, L) := allocate_peer_id L in
        match conn with
        | None => (TransportFailed, L, [])
        | Some _ =>
            let p := PeerM.set_local_nonce local_nonce
                       (PeerM.create_outbound env process_nonce conn network_magic chain_height address port OUTBOUND) in
            let '(added, L, o) := add_peer_with_id env peer_id p permissions address L in
            if added then (Success, L, o) else (ConnectionManagerFailed, L, o ++ [CloseTransport])
        end
  end.

(** The callback of the transport for an outbound connection or a feeler. *)
Definition on_connect_result (peer_id : Z) (addr : Proto.NetworkAddress) (success : bool) (L : PeerLifecycleManager)
  : PeerLifecycleManager * list life_effect :=
  match peer_states_ L !! peer_id with
  | None => (L, [])
  | Some _ =>
      if success then start_peer peer_id (with_addrs (AddrMan.good (wall_time env) addr) L)
      else remove_peer (wall_time env) peer_id (with_addrs (AddrMan.attempt (wall_time env) addr) L)
  end.

(** [NetworkManager::connect_to]. *)
Definition connect_to (running : bool) (addr : Proto.NetworkAddress) (permissions : Z) (conn : option Connection) (L : PeerLifecycleManager)
  : ConnectionResult * PeerLifecycleManager * list life_effect :=
  if negb running then (NotRunning, L, []) else ConnectTo addr permissions conn L.

(** [AttemptOutboundConnections] with the callback of the network manager; each round has its own random numbers and
    its own answer of the transport. *)
Fixpoint attempt_loop (rounds : nat) (rng : nat -> Random) (conns : nat -> option Connection) (L : PeerLifecycleManager)
  : PeerLifecycleManager * list life_effect :=
  match rounds with
  | O => (L, [])
  | S k =>
      if negb (needs_more_outbound L) then (L, [])
      else match @AddrMan.select (rng k) (wall_time env) (addr_manager_ L) with
      | None => (L, [])
      | Some addr =>
          match Proto.NetworkAddressToString addr with
          | None => attempt_loop k rng conns (with_addrs (AddrMan.failed (wall_time env) addr) L)
          | Some ip_str =>
              if negb (find_peer_by_address ip_str (Proto.port addr) L =? -1) then attempt_loop k rng conns L
              else
                let L := with_addrs (AddrMan.attempt (wall_time env) addr) L in
                let '(result, L, o) := connect_to true addr Mis.PermNone (conns k) L in
                let L := if bool_decide (result = AddressBanned) || bool_decide (result = AddressDiscouraged)
                         then with_addrs (AddrMan.failed (wall_time env) addr) L else L in
                let '(L, o') := attempt_loop k rng conns L in (L, o ++ o')
          end
      end
  end.
Definition AttemptOutboundConnections (running : bool) (rng : nat -> Random) (conns : nat -> option Connection) (L : PeerLifecycleManager)
  : PeerLifecycleManager * list life_effect :=
  if negb running then (L, []) else attempt_loop MAX_CONNECTION_ATTEMPTS_PER_CYCLE rng conns L.

Definition AttemptFeelerConnection (running : bool) (rng : Random) (conn : option Connection) (L : PeerLifecycleManager)
  : PeerLifecycleManager * list life_effect :=
  if negb running then (L, [])
  else match @AddrMan.select_new_for_feeler rng (addr_manager_ L) with
  | None => (L, [])
  | Some addr =>
      match Proto.NetworkAddressToString addr with
      | None => (L, [])
      | Some address =>
          let '(peer_id, L) := allocate_peer_id L in
          match conn with
          | None => (with_addrs (AddrMan.attempt (wall_time env) addr) L, [])
          | Some _ =>
              let p := PeerM.set_local_nonce local_nonce
                         (PeerM.create_outbound env process_nonce conn network_magic chain_height address (Proto.port addr) FEELER) in
              let '(added, L, o) := add_peer_with_id env peer_id p Mis.PermNone [] L in
              if added then (L, o) else (L, o ++ [CloseTransport])
          end
      end
  end.

(** [ConnectToAnchors] with the callback of the network manager. *)
Fixpoint ConnectToAnchors (running : bool) (anchors : list Proto.NetworkAddress) (conns : nat -> option Connection) (L : PeerLifecycleManager)
  : PeerLifecycleManager * list life_effect :=
  match anchors with
  | [] => (L, [])
  | addr :: l =>
      let L := match Proto.NetworkAddressToString addr with Some ip => with_bans (Bans.AddToWhitelist ip) L | None => L end in
      let '(_, L, o) := connect_to running addr Mis.NoBan (conns (length l)) L in
      let '(L, o') := ConnectToAnchors running l conns L in (L, o ++ o')
  end.

Definition HandleInboundConnection (running : bool) (conn : option Connection) (permissions : Z) (L : PeerLifecycleManager)
  : PeerLifecycleManager * list life_effect :=
  match conn with
  | None => (L, [])
  | Some c =>
      if negb running then (L, [])
      else if Bans.IsBanned (wall_time env) (remote_address c) (ban_manager_ L) then (L, [CloseTransport])
      else if Bans.IsDiscouraged (wall_time env) (remote_address c) (ban_manager_ L) then (L, [CloseTransport])
      else if negb (can_accept_inbound_from (remote_address c) L) then (L, [CloseTransport])
      else
        let p := PeerM.set_local_nonce local_nonce (PeerM.create_inbound env process_nonce conn network_magic chain_height) in
        let '(peer_id, L, o) := add_peer env p permissions [] L in
        if peer_id <? 0 then (L, o) else let '(L, o') := start_peer peer_id L in (L, o ++ o')
  end.
End Dial.
End Addresses.

(** ** Messages *)

(** [CheckIncomingNonce]: whether the nonce is new. *)
Definition CheckIncomingNonce (nonce local_nonce : Z) (L : PeerLifecycleManager) : bool :=
  if nonce =? local_nonce then false
  else forallb (fun '(_, e) => negb (successfully_connected_ (peer e)) || negb (peer_nonce_ (remote_ (peer e)) =? nonce))
         (map_to_list (peer_states_ L)).

(** [HandleVerack]: what it makes the peer do; [None] when the assertion fails that the handshake is complete. *)
Definition HandleVerack (p : Peer) : option (list reaction) :=
  if negb (PeerM.is_connected p) then Some []
  else if negb (successfully_connected_ p) then None
  else if negb (is_inbound_ (cfg p)) && negb (PeerM.is_feeler p) && negb (getaddr_sent_ p) then Some [SendBack MGetAddr; MarkGetaddrSent]
  else Some [].
End Life.
