(* ===== verification/LifecycleProps.v ===== *)
(** * LifecycleProps: theorems about the peers of the node

    Connection limits in every reachable state, eviction, and what becomes of the address and of the ban list when peers come
    and go. *)
From stdpp Require Import gmap sorting strings.
From S2P Require Import Prelude Arith Bytes Sha256 Block BlockIndex Protocol Message Persist Misbehavior Peer PeerStream PeerProps.
From S2P Require Import AddrMan AddrManProps Discovery Ban BanProps Lifecycle.
#[local] Open Scope Z_scope.
Import Life.

(** ** What a peer never changes *)

Definition same_peer (p p' : Peer) : Prop := cfg p' = cfg p /\ (connection_ p' = connection_ p \/ connection_ p' = None).
#[local] Instance same_peer_preorder : PreOrder same_peer.
Proof.
  split; [intros p; split; auto|]. intros p q r [A1 A2] [B1 B2]. split; [congruence|]. destruct A2, B2; [left|right|right|right]; congruence.
Qed.

Definition linked (a : PeerM.M) : Prop := forall p, same_peer p (a p).1.

Section Linked.
Context `{Proto.BoostAsio} (h : Endian.host) (env : Env) (handler : option (Peer -> Message -> list reaction)).
Import PeerM.
#[local] Infix ";>" := seq (at level 60, right associativity).

Lemma linked_skip : linked skip. Proof. intros p. reflexivity. Qed.
Lemma linked_emit e : linked (emit e). Proof. intros p. reflexivity. Qed.
Lemma linked_modify f : (forall p, same_peer p (f p)) -> linked (modify f). Proof. intros Hf p. apply Hf. Qed.
Lemma linked_seq a b : linked a -> linked b -> linked (seq a b).
Proof. intros Ha Hb p. unfold seq. specialize (Ha p). destruct (a p) as [q o]. specialize (Hb q). destruct (b q) as [r o']. by etrans. Qed.
Lemma linked_get {A} (f : Peer -> A) k : (forall x, linked (k x)) -> linked (get f k). Proof. intros Hk p. apply Hk. Qed.
Lemma linked_state s : linked (modify (with_state s)). Proof. apply linked_modify. intros []. split; auto. Qed.
Lemma linked_timers f : linked (modify (with_timers f)). Proof. apply linked_modify. intros []. split; auto. Qed.
Lemma linked_stats f : linked (modify (with_stats f)). Proof. apply linked_modify. intros []. split; auto. Qed.
Lemma linked_drop : linked (modify (with_connection None)). Proof. apply linked_modify. intros []. split; auto. Qed.

Lemma linked_send m : linked (send_message h env m).
Proof. intros p. unfold send_message. destruct (gone p); [reflexivity|]. cbv zeta. match goal with |- context [if ?b then _ else _] => destruct b end; [|reflexivity]. destruct p. split; auto. Qed.

Lemma linked_disconnect : linked do_disconnect.
Proof.
  intros p. unfold do_disconnect. destruct (gone p); [reflexivity|]. apply linked_seq; [apply linked_state|]. apply linked_seq; [apply linked_timers|].
  apply linked_seq; [|apply linked_state]. apply linked_get. intros [c|]; [|apply linked_skip]. apply linked_seq; [apply linked_emit|apply linked_drop].
Qed.
Lemma linked_transport : linked on_transport_disconnect.
Proof.
  intros p. unfold on_transport_disconnect. case_bool_decide; [reflexivity|]. apply linked_seq; [apply linked_timers|].
  apply linked_seq; [apply linked_drop|apply linked_state].
Qed.
Lemma linked_send_version : linked (send_version h env).
Proof. apply linked_get. intros c. apply linked_get. intros cf. apply linked_seq; [apply linked_send|apply linked_state]. Qed.

Lemma linked_start : linked (start h env).
Proof.
  intros p. unfold start. destruct (started_ p); [reflexivity|]. cbv zeta. set (q := with_started true p).
  assert (Hq : same_peer p q) by (unfold q; destruct p; split; auto). clearbody q. match goal with |- context [(_ ;> ?x) q] => set (go := x) end.
  assert (Hgo : linked go).
  { unfold go. apply linked_seq; [apply linked_stats|]. apply linked_seq; [apply linked_emit|]. apply linked_get. intros c.
    destruct (is_inbound_ c); [apply linked_timers|]. apply linked_seq; [apply linked_send_version|apply linked_timers]. }
  destruct (state_ q); try done; [|by etrans; [|apply Hgo]]. match goal with |- context [if ?b then _ else _] => destruct b end; [|done].
  etrans; [exact Hq|]. apply linked_seq; [apply linked_state|exact Hgo].
Qed.

Lemma same_timers f p : same_peer p (with_timers f p). Proof. destruct p. split; auto. Qed.
Lemma same_stats f p : same_peer p (with_stats f p). Proof. destruct p. split; auto. Qed.
Lemma same_buffer b o p : same_peer p (with_buffer b o p). Proof. destruct p. split; auto. Qed.
Lemma same_unknown n x p : same_peer p (with_unknown n x p). Proof. destruct p. split; auto. Qed.
Lemma same_ping n x p : same_peer p (with_ping n x p). Proof. destruct p. split; auto. Qed.

Lemma linked_version v : linked (handle_version h env v).
Proof.
  intros p. unfold handle_version. destruct (negb _); [reflexivity|]. destruct (_ <? _); [reflexivity|]. cbv zeta.
  set (q := with_remote _ p). assert (Hq : same_peer p q) by (unfold q; destruct p; split; auto). clearbody q. etrans; [exact Hq|].
  destruct (_ && _); [reflexivity|]. apply linked_seq; [|apply linked_seq; [|apply linked_send]].
  - destruct (negb _); [apply linked_emit|apply linked_skip].
  - destruct (_ && _); [apply linked_send_version|apply linked_skip].
Qed.
Lemma linked_verack : linked handle_verack.
Proof.
  intros p. unfold handle_verack. destruct (successfully_connected_ p); [reflexivity|]. destruct (is_feeler p); [reflexivity|].
  repeat (apply linked_seq; [first [apply linked_state|apply linked_timers|apply linked_modify; intros []; split; auto]|]). apply linked_timers.
Qed.
Lemma linked_react_all l : linked (react_all h env l).
Proof.
  induction l as [|r l IH]; [apply linked_skip|]. apply linked_seq; [|exact IH].
  destruct r; [apply linked_send|apply linked_disconnect|apply linked_modify; intros []; split; auto].
Qed.
Lemma linked_deliver m : linked (deliver h env handler m).
Proof.
  unfold deliver. destruct handler; [|apply linked_skip]. apply linked_seq; [apply linked_emit|]. apply linked_get. intros v. apply linked_react_all.
Qed.
Lemma linked_pong n : linked (handle_pong env n).
Proof. intros p. unfold handle_pong. destruct (_ =? _); [|reflexivity]. etrans; [apply same_stats|apply same_ping]. Qed.
Lemma linked_unknown : linked (unknown_command env).
Proof.
  intros p. unfold unknown_command. cbv zeta. set (q := if _ <? _ then _ else p).
  assert (Hq : same_peer p q) by (unfold q; destruct (_ <? _); [apply same_unknown|reflexivity]). clearbody q. etrans; [exact Hq|].
  match goal with |- same_peer q (if ?b then (?r, _) else _).1 => assert (Hr : same_peer q r) by apply same_unknown; destruct b; exact Hr end.
Qed.
Lemma linked_process header payload : linked (process_message h env handler header payload).
Proof.
  apply linked_seq; [apply linked_stats|]. apply linked_get. intros r. cbv beta zeta. destruct (_ && _); [apply linked_emit|].
  destruct (Msg.create_message _) as [m|]; [|apply linked_unknown]. destruct (Msg.deserialize h m payload) as [[] m']; [|apply linked_emit].
  destruct m'; cbn [handle]; try apply linked_deliver; [| |apply linked_send|apply linked_pong].
  - apply linked_seq; [apply linked_version|apply linked_deliver].
  - apply linked_seq; [apply linked_verack|apply linked_deliver].
Qed.
Lemma linked_receive data : linked (on_transport_receive h env handler data).
Proof.
  assert (Hl : forall fuel, linked (process_loop h env handler fuel)).
  { induction fuel as [|fuel IH]; intros p; cbn [process_loop]; destruct (scan_frame _ _ _); try reflexivity.
    apply linked_seq; [apply linked_process|]. apply linked_seq; [|exact IH]. apply linked_modify. intros q. apply same_buffer. }
  intros p. unfold on_transport_receive. destruct (_ <? _); [reflexivity|]. destruct (_ <? _); [reflexivity|]. cbv zeta.
  match goal with |- same_peer p (process_received_data _ _ _ ?q).1 => assert (Hq : same_peer p q) end; [|etrans; [exact Hq|apply Hl]].
  etrans; [|apply same_stats]. etrans; [|apply same_buffer]. unfold compact. destruct (_ && _); [apply same_buffer|reflexivity].
Qed.

(** No event of a peer changes what it was created with, and a connection is only ever dropped. *)
Lemma linked_run e : linked (run h env handler e).
Proof.
  destruct e; cbn [run].
  - apply linked_start.
  - apply linked_receive.
  - apply linked_disconnect.
  - apply linked_transport.
  - intros p. unfold on_handshake_timer. destruct (negb _); [reflexivity|]. match goal with |- context [with_timers ?f p] => etrans; [apply (same_timers f)|] end.
    destruct (gone _); [reflexivity|]. case_bool_decide; [reflexivity|apply linked_disconnect].
  - intros p. unfold on_ping_timer. destruct (negb _); [reflexivity|]. match goal with |- context [with_timers ?f p] => etrans; [apply (same_timers f)|] end.
    destruct (gone _); [reflexivity|]. destruct (negb _).
    + destruct (_ <? _); [apply linked_disconnect|apply linked_timers].
    + apply linked_seq; [|apply linked_timers]. apply linked_seq; [apply linked_modify; intros q; apply same_ping|apply linked_send].
  - intros p. unfold on_inactivity_timer. destruct (negb _); [reflexivity|]. match goal with |- context [with_timers ?f p] => etrans; [apply (same_timers f)|] end.
    destruct (gone _); [reflexivity|]. destruct (_ <? _); [apply linked_disconnect|apply linked_timers].
  - apply linked_send.
  - apply linked_modify. intros []; split; auto.
Qed.
End Linked.

(** ** Counting *)

Lemma filter_nodup {A B} (f : A * B -> bool) l : NoDup l.*1 -> NoDup (List.filter f l).*1.
Proof.
  induction l as [|x l IH]; intros Hn; [constructor|]. cbn in Hn. apply NoDup_cons in Hn as [Hi Hn]. cbn [List.filter]. destruct (f x); [|by apply IH].
  cbn. apply NoDup_cons. split; [|by apply IH]. intros (y & Ey & Hy)%list_elem_of_fmap. apply Hi. rewrite Ey.
  apply list_elem_of_In, List.filter_In in Hy as [Hy _]. apply list_elem_of_fmap. exists y. split; [done|by apply list_elem_of_In].
Qed.

Section Count.
Context (f : PeerEntry -> bool).
Implicit Types (m : gmap Z PeerEntry).

Lemma life_count_sub m m' : m ⊆ m' -> (count f m <= count f m')%nat.
Proof. intros Hm. by apply map_subseteq_size, map_filter_subseteq_mono. Qed.
Lemma life_count_insert id e m : (count f (<[id := e]> m) <= count f m + Nat.b2n (f e))%nat.
Proof.
  unfold count. rewrite map_filter_insert. case_decide as Hf.
  - rewrite Hf. rewrite map_size_insert. destruct (_ !! id); cbn; lia.
  - etrans; [|apply Nat.le_add_r]. apply (life_count_sub (delete id m)), delete_subseteq.
Qed.
Lemma life_count_update id e e' m : m !! id = Some e -> f e' = f e -> (count f (<[id := e']> m) <= count f m)%nat.
Proof.
  intros He Hf. destruct (f e') eqn:E.
  - unfold count. rewrite map_filter_insert, decide_True by done. rewrite map_size_insert.
    rewrite (proj2 (map_lookup_filter_Some _ m id e)) by (split; [done|by rewrite <- Hf]). done.
  - pose proof (life_count_insert id e' m) as Hc. rewrite E in Hc. cbn in Hc. lia.
Qed.
End Count.

(** ** Limits *)

Section Limits.
Context `{Proto.BoostAsio}.
Implicit Types (L : PeerLifecycleManager).

(** The address of an inbound peer is that of its creation, with or without a connection. *)
Definition entry_ok (e : PeerEntry) : Prop :=
  is_inbound e = true ->
  target_address_ (cfg (peer e)) <> [] /\
  match connection_ (peer e) with Some c => remote_address c = target_address_ (cfg (peer e)) | None => True end.

Lemma inbound_address e : entry_ok e -> is_inbound e = true -> PeerM.address (peer e) = target_address_ (cfg (peer e)).
Proof.
  intros He Hi. destruct (He Hi) as [Ht Hc]. unfold PeerM.address. destruct (connection_ (peer e)); [done|]. by destruct (target_address_ _).
Qed.

Lemma same_entry_ok e e' : same_peer (peer e) (peer e') -> entry_ok e -> entry_ok e' /\
  is_inbound e' = is_inbound e /\ is_feeler e' = is_feeler e /\
  (is_inbound e = true -> PeerM.address (peer e') = PeerM.address (peer e)).
Proof.
  intros [Hc Hk] He. assert (Hi : is_inbound e' = is_inbound e) by (unfold is_inbound; by rewrite Hc).
  assert (He' : entry_ok e').
  { intros Hi'. rewrite Hi in Hi'. destruct (He Hi') as [H1 H2]. rewrite Hc. split; [done|]. destruct Hk as [-> | ->]; done. }
  split_and!; [done|done|unfold is_feeler, PeerM.is_feeler; by rewrite Hc|].
  intros Hin. rewrite !inbound_address by (rewrite ?Hi; done). by rewrite Hc.
Qed.

Record limits L : Prop := {
  lim_inbound : Z.of_nat (inbound_count L) <= max_inbound_peers (config_ L);
  lim_outbound : Z.of_nat (outbound_nonfeeler L) <= max_outbound_peers (config_ L);
  lim_ip : forall address, (same_ip_inbound address (peer_states_ L) <= MAX_INBOUND_PER_IP)%nat;
  lim_entries : map_Forall (fun _ e => entry_ok e) (peer_states_ L)
}.

(** Fewer peers, or peers that are the same. *)
Lemma limits_sub L L' : config_ L' = config_ L -> peer_states_ L' ⊆ peer_states_ L -> limits L -> limits L'.
Proof.
  intros Hc Hs [H1 H2 H3 H4]. split; rewrite ?Hc.
  - pose proof (life_count_sub is_inbound _ _ Hs). unfold inbound_count in *. lia.
  - pose proof (life_count_sub (fun e => negb (is_inbound e) && negb (is_feeler e)) _ _ Hs). unfold outbound_nonfeeler in *. lia.
  - intros a. etrans; [|apply (H3 a)]. by apply life_count_sub.
  - intros id e He. by eapply H4, lookup_weaken.
Qed.

Lemma limits_update L id e e' : peer_states_ L !! id = Some e -> same_peer (peer e) (peer e') -> limits L ->
  limits (with_peers (insert id e') L).
Proof.
  intros He Hs [H1 H2 H3 H4]. destruct (same_entry_ok e e' Hs (H4 id e He)) as (Ho & Hi & Hf & Ha). split; cbn.
  - pose proof (life_count_update is_inbound id e e' _ He Hi). unfold inbound_count in *. cbn. lia.
  - pose proof (life_count_update (fun e => negb (is_inbound e) && negb (is_feeler e)) id e e' _ He) as Hu. unfold outbound_nonfeeler in *. cbn in *.
    rewrite Hi, Hf in Hu. specialize (Hu eq_refl). lia.
  - intros a. etrans; [|apply (H3 a)]. apply (life_count_update _ id e e' _ He). rewrite Hi. destruct (is_inbound e); [|done]. by rewrite Ha.
  - by apply map_Forall_insert_2.
Qed.

Lemma same_limits L L' : config_ L' = config_ L -> peer_states_ L' = peer_states_ L -> limits L -> limits L'.
Proof. intros Hc Hp. apply limits_sub; [done|by rewrite Hp]. Qed.

(** ** Removal *)

Lemma remove_peer_eq t id L : let L' := (remove_peer t id L).1 in
  peer_states_ L' = delete id (peer_states_ L) /\ config_ L' = config_ L /\ addr_manager_ L' = addr_manager_ L /\
  next_peer_id_ L' = next_peer_id_ L /\ stopping_all_ L' = stopping_all_ L /\ shutting_down_ L' = shutting_down_ L.
Proof.
  unfold remove_peer. destruct (peer_states_ L !! id) as [e|] eqn:E; cbn zeta; [|split_and!; try done; by rewrite delete_id].
  set (L1 := if Mis.should_discourage _ then _ else L).
  assert (H1 : peer_states_ L1 = peer_states_ L /\ config_ L1 = config_ L /\ addr_manager_ L1 = addr_manager_ L /\
    next_peer_id_ L1 = next_peer_id_ L /\ stopping_all_ L1 = stopping_all_ L /\ shutting_down_ L1 = shutting_down_ L)
    by (unfold L1; by destruct (Mis.should_discourage _)).
  clearbody L1. destruct H1 as (P1 & P2 & P3 & P4 & P5 & P6). cbn [with_peers shutting_down_].
  destruct (shutting_down_ L1) eqn:Es; cbn [fst with_peers notify with_addrs peer_states_ config_ addr_manager_ next_peer_id_ stopping_all_ shutting_down_].
  - by rewrite P1, Es.
  - split_and!; try done; [by rewrite P1| |by rewrite Es]. rewrite <- P3.
    unfold Disc.on_peer_disconnected. rewrite bool_decide_eq_true_2; [done|]. cbn. by rewrite lookup_fmap, lookup_delete_eq.
Qed.

Lemma remove_all_sub t ids L : let L' := (remove_all t ids L).1 in
  peer_states_ L' ⊆ peer_states_ L /\ config_ L' = config_ L.
Proof.
  revert L. induction ids as [|id ids IH]; intros L; [done|]. cbn [remove_all].
  destruct (remove_peer_eq t id L) as (P1 & P2 & _). destruct (remove_peer t id L) as [L1 o]. destruct (IH L1) as [Q1 Q2].
  destruct (remove_all t ids L1) as [L2 o']. cbn in *. split; [|congruence]. etrans; [exact Q1|]. rewrite P1. apply delete_subseteq.
Qed.

(** ** Admission *)

Lemma evict_sub env L : let L' := (evict_inbound_peer env L).1.2 in peer_states_ L' ⊆ peer_states_ L /\ config_ L' = config_ L.
Proof.
  unfold evict_inbound_peer. destruct (candidates env L) as [|c l]; [done|]. cbn zeta. destruct (0 <=? _); [|done].
  destruct (remove_peer_eq (wall_time env) (worst_peer_id (foldl worse (mkWorst (-1) (2 ^ 63 - 1) (- 2 ^ 63)) (c :: l))) L) as (P1 & P2 & _).
  destruct (remove_peer _ _ L) as [L1 o]. cbn in *. split; [|done]. rewrite P1. apply delete_subseteq.
Qed.

(** What admission guarantees. *)
Record has_room (p : Peer) L : Prop := {
  adm_inbound : is_inbound_ (cfg p) = true -> Z.of_nat (inbound_count L) < max_inbound_peers (config_ L);
  adm_ip : is_inbound_ (cfg p) = true -> (same_ip_inbound (PeerM.address p) (peer_states_ L) < MAX_INBOUND_PER_IP)%nat;
  adm_outbound : is_inbound_ (cfg p) = false -> PeerM.is_feeler p = false -> Z.of_nat (outbound_nonfeeler L) < max_outbound_peers (config_ L)
}.

Lemma check_admission_ok env p permissions address L : let '(ok, L', _) := check_admission env p permissions address L in
  peer_states_ L' ⊆ peer_states_ L /\ config_ L' = config_ L /\ (ok = true -> has_room p L').
Proof.
  unfold check_admission. destruct (stopping_all_ L); [done|]. destruct (ban_refuses _ _ _ _); [done|]. cbv zeta.
  destruct (negb (is_inbound_ (cfg p)) && negb (PeerM.is_feeler p) && _) eqn:Eo; [done|].
  destruct (is_inbound_ (cfg p)) eqn:Ei; cbn [andb negb] in *.
  - destruct (Z.leb_spec (max_inbound_peers (config_ L)) (Z.of_nat (inbound_count L))) as [Hfull|Hroom].
    + destruct (evict_sub env L) as [Q1 Q2]. destruct (evict_inbound_peer env L) as [[ev L1] o]. cbn [fst snd] in Q1, Q2.
      destruct ev; cbn [andb negb]; [|done]. destruct (Z.leb_spec (max_inbound_peers (config_ L1)) (Z.of_nat (inbound_count L1))); cbn [negb]; [done|].
      destruct (Nat.leb_spec MAX_INBOUND_PER_IP (same_ip_inbound (PeerM.address p) (peer_states_ L1))); [done|]. split_and!; [done|done|].
      intros _. split; intros; try congruence; lia.
    + cbn [negb]. destruct (Nat.leb_spec MAX_INBOUND_PER_IP (same_ip_inbound (PeerM.address p) (peer_states_ L))); [done|]. split_and!; [done|done|].
      intros _. split; intros; try congruence; lia.
  - split_and!; [done|done|]. intros _. split; intros; try congruence. destruct (PeerM.is_feeler p); [done|]. cbn in Eo.
    apply Z.leb_gt in Eo. lia.
Qed.

Lemma insert_limits env id p permissions address L : entry_ok (mkEntry p 0 false (Mis.new_data 0 []) (mkGossip false ∅)) ->
  has_room p L -> limits L -> limits (insert_peer env id p permissions address L).1.
Proof.
  intros He [A1 A2 A3] [H1 H2 H3 H4]. unfold insert_peer. cbv zeta. cbn [fst]. set (e := mkEntry p _ _ _ _). set (L1 := with_peers _ L).
  apply (same_limits L1); [done|done|]. split; unfold L1, inbound_count, outbound_nonfeeler in *; cbn [with_peers peer_states_ config_].
  - pose proof (life_count_insert is_inbound id e (peer_states_ L)) as Hc. change (is_inbound e) with (is_inbound_ (cfg p)) in Hc.
    destruct (is_inbound_ (cfg p)) eqn:E; cbn in Hc; [specialize (A1 eq_refl)|]; lia.
  - pose proof (life_count_insert (fun e => negb (is_inbound e) && negb (is_feeler e)) id e (peer_states_ L)) as Hc. cbv beta in Hc.
    change (is_inbound e) with (is_inbound_ (cfg p)) in Hc. change (is_feeler e) with (PeerM.is_feeler p) in Hc.
    destruct (is_inbound_ (cfg p)); [cbn in Hc; lia|]. destruct (PeerM.is_feeler p); [cbn in Hc; lia|].
    specialize (A3 eq_refl eq_refl). cbn in Hc. lia.
  - intros a. etrans; [apply life_count_insert|]. cbv beta. change (is_inbound e) with (is_inbound_ (cfg p)). change (peer e) with p.
    specialize (H3 a). destruct (is_inbound_ (cfg p)); cbn [andb]; [|unfold same_ip_inbound in H3; cbn; lia]. specialize (A2 eq_refl).
    case_bool_decide as Ha; [|unfold same_ip_inbound in H3; cbn; lia]. unfold same_ip_inbound in *. rewrite <- Ha. cbn. lia.
  - apply map_Forall_insert_2; [exact He|done].
Qed.

Lemma add_limits env p permissions address L : entry_ok (mkEntry p 0 false (Mis.new_data 0 []) (mkGossip false ∅)) -> limits L ->
  limits (add_peer env p permissions address L).1.2.
Proof.
  intros He HL. unfold add_peer. pose proof (check_admission_ok env p permissions address L) as Ha.
  destruct (check_admission env p permissions address L) as [[ok L1] o]. destruct Ha as (Q1 & Q2 & Q3). pose proof (limits_sub L L1 Q2 Q1 HL) as HL1.
  destruct ok; cbn [negb]; [|done]. cbn [allocate_peer_id]. set (L2 := with_next_id _ L1).
  assert (HL2 : limits L2) by by apply (same_limits L1). assert (HA : has_room p L2) by (destruct (Q3 eq_refl); by split).
  pose proof (insert_limits env (next_peer_id_ L1) p permissions address L2 He HA HL2) as Hi. by destruct (insert_peer _ _ _ _ _ L2).
Qed.
Lemma add_with_id_limits env id p permissions address L : entry_ok (mkEntry p 0 false (Mis.new_data 0 []) (mkGossip false ∅)) -> limits L ->
  limits (add_peer_with_id env id p permissions address L).1.2.
Proof.
  intros He HL. unfold add_peer_with_id. destruct (_ && _); [done|]. pose proof (check_admission_ok env p permissions address L) as Ha.
  destruct (check_admission env p permissions address L) as [[ok L1] o]. destruct Ha as (Q1 & Q2 & Q3). pose proof (limits_sub L L1 Q2 Q1 HL) as HL1.
  destruct ok; cbn [negb]; [|done].
  pose proof (insert_limits env id p permissions address L1 He (Q3 eq_refl) HL1) as Hi. by destruct (insert_peer _ _ _ _ _ L1).
Qed.
End Limits.

(** ** Every operation keeps the limits *)

Section Steps.
Context `{Proto.BoostAsio} (h : Endian.host).
Implicit Types (L : PeerLifecycleManager).

Lemma start_limits env id L : limits L -> limits (start_peer h env id L).1.
Proof.
  intros HL. unfold start_peer. destruct (peer_states_ L !! id) as [e|] eqn:E; [|done]. pose proof (linked_start h env (peer e)) as Hs.
  destruct (PeerM.start h env (peer e)) as [p o]. by apply (limits_update L id e).
Qed.
Lemma remove_limits t id L : limits L -> limits (remove_peer t id L).1.
Proof. destruct (remove_peer_eq t id L) as (P1 & P2 & _). apply limits_sub; [done|]. rewrite P1. apply delete_subseteq. Qed.

Section Env.
Context (env : Env) (process_nonce magic height nonce : Z).

Lemma outbound_entry conn address port kind t d g :
  entry_ok (mkEntry (PeerM.set_local_nonce nonce (PeerM.create_outbound env process_nonce conn magic height address port kind)) t false d g).
Proof. intros Hi. discriminate Hi. Qed.

Lemma connect_limits running addr permissions conn L : limits L ->
  limits (connect_to env process_nonce magic height nonce running addr permissions conn L).1.2.
Proof.
  intros HL. unfold connect_to, ConnectTo. destruct (negb running); [done|]. destruct (Proto.NetworkAddressToString addr) as [a|]; [|done]. cbv zeta.
  destruct (Bans.IsBanned _ _ _); [done|]. destruct (Bans.IsDiscouraged _ _ _); [done|]. destruct (negb _); [done|]. destruct (negb _); [done|].
  cbn [allocate_peer_id]. set (L1 := with_next_id _ L). assert (HL1 : limits L1) by by apply (same_limits L). destruct conn as [c|]; [|done].
  match goal with |- context [add_peer_with_id env ?i ?p _ ?x L1] =>
    pose proof (add_with_id_limits env i p permissions x L1 (outbound_entry (Some c) a (Proto.port addr) OUTBOUND 0 _ _) HL1) as Hi;
    destruct (add_peer_with_id env i p permissions x L1) as [[[] L2] o] end; exact Hi.
Qed.

Lemma outbound_limits running rng conns L : limits L ->
  limits (AttemptOutboundConnections env process_nonce magic height nonce running rng conns L).1.
Proof.
  intros HL. unfold AttemptOutboundConnections. destruct (negb running); [done|]. generalize MAX_CONNECTION_ATTEMPTS_PER_CYCLE as k. intros k.
  revert L HL. induction k as [|k IH]; intros L HL; [done|]. cbn [attempt_loop]. destruct (negb _); [done|].
  destruct (@AddrMan.select _ _ _) as [addr|]; [|done]. destruct (Proto.NetworkAddressToString addr) as [a|]; [|apply IH; by apply (same_limits L)].
  destruct (negb _); [by apply IH|]. cbv zeta. set (L1 := with_addrs _ L). assert (HL1 : limits L1) by by apply (same_limits L).
  pose proof (connect_limits true addr Mis.PermNone (conns k) L1 HL1) as Hc. destruct (connect_to _ _ _ _ _ _ _ _ _ L1) as [[r L2] o]. cbn in Hc.
  match goal with |- context [attempt_loop _ _ _ _ _ k rng conns ?x] => assert (HL3 : limits x); [|pose proof (IH x HL3) as Hk; destruct (attempt_loop _ _ _ _ _ k rng conns x); exact Hk] end.
  destruct (_ || _); [by apply (same_limits L2)|done].
Qed.

Lemma feeler_limits running rng conn L : limits L ->
  limits (AttemptFeelerConnection env process_nonce magic height nonce running rng conn L).1.
Proof.
  intros HL. unfold AttemptFeelerConnection. destruct (negb running); [done|]. destruct (@AddrMan.select_new_for_feeler _ _) as [addr|]; [|done].
  destruct (Proto.NetworkAddressToString addr) as [a|]; [|done]. cbn [allocate_peer_id]. set (L1 := with_next_id _ L).
  assert (HL1 : limits L1) by by apply (same_limits L). destruct conn as [c|]; [|by apply (same_limits L1)].
  match goal with |- context [add_peer_with_id env ?i ?p _ ?x L1] =>
    pose proof (add_with_id_limits env i p Mis.PermNone x L1 (outbound_entry (Some c) a (Proto.port addr) FEELER 0 _ _) HL1) as Hi;
    destruct (add_peer_with_id env i p Mis.PermNone x L1) as [[[] L2] o] end; exact Hi.
Qed.

Lemma anchors_limits running anchors conns L : limits L ->
  limits (ConnectToAnchors env process_nonce magic height nonce running anchors conns L).1.
Proof.
  revert L. induction anchors as [|addr l IH]; intros L HL; [done|]. cbn [ConnectToAnchors]. cbv zeta.
  match goal with |- context [connect_to _ _ _ _ _ _ _ _ _ ?x] => assert (HL1 : limits x) by (destruct (Proto.NetworkAddressToString addr); [by apply (same_limits L)|done]);
    pose proof (connect_limits running addr Mis.NoBan (conns (length l)) x HL1) as Hc; destruct (connect_to _ _ _ _ _ _ _ _ _ x) as [[r L2] o] end.
  cbn in Hc. specialize (IH L2 Hc). by destruct (ConnectToAnchors _ _ _ _ _ _ l conns L2).
Qed.

Lemma inbound_limits running c permissions L : remote_address c <> [] -> limits L ->
  limits (HandleInboundConnection h env process_nonce magic height nonce running (Some c) permissions L).1.
Proof.
  intros Hc HL. unfold HandleInboundConnection. destruct (negb running); [done|]. destruct (Bans.IsBanned _ _ _); [done|].
  destruct (Bans.IsDiscouraged _ _ _); [done|]. destruct (negb _); [done|]. cbv zeta.
  match goal with |- context [add_peer env ?p _ ?x L] => assert (Hp : entry_ok (mkEntry p 0 false (Mis.new_data 0 []) (mkGossip false ∅))) by (by intros _);
    pose proof (add_limits env p permissions x L Hp HL) as Hi; destruct (add_peer env p permissions x L) as [[id L1] o] end.
  cbn in Hi. destruct (id <? 0); [done|]. pose proof (start_limits env id L1 Hi) as Hs. by destruct (start_peer h env id L1).
Qed.

Lemma result_limits id addr success L : limits L -> limits (on_connect_result h env id addr success L).1.
Proof.
  intros HL. unfold on_connect_result. destruct (peer_states_ L !! id); [|done]. destruct success.
  - apply start_limits. by apply (same_limits L).
  - apply remove_limits. by apply (same_limits L).
Qed.

Lemma periodic_limits L : limits L -> limits (process_periodic env L).1.
Proof.
  intros HL. unfold process_periodic. cbv zeta. match goal with |- context [remove_all ?t ?l L] => destruct (remove_all_sub t l L) as [Q1 Q2]; destruct (remove_all t l L) as [L1 o] end.
  cbn in *. apply (same_limits L1); [done|done|]. by apply (limits_sub L).
Qed.
Lemma disconnect_all_limits L : limits L -> limits (disconnect_all env L).1.
Proof.
  intros HL. unfold disconnect_all. cbv zeta. cbn [fst]. apply (limits_sub L); [|apply map_empty_subseteq|done]. cbn.
  destruct (shutting_down_ L); [done|]. generalize (by_id (peer_states_ L)) as l. intros l. revert L HL. induction l as [|[i e] l IH]; intros L HL; [done|].
  cbn [foldl]. rewrite IH; [done|]. by apply (same_limits L).
Qed.
End Env.

(** ** Reachable states *)

(** The steps of the network thread.  [StepPeerEvent] is any event of a peer; [StepEntry] any change of the
    rest of a peer's state by the other managers; [StepBans] and [StepAddrs] their operations on the shared managers. *)
Inductive life_step : PeerLifecycleManager -> PeerLifecycleManager -> Prop :=
| StepInbound env pn magic height nonce running c permissions L : remote_address c <> [] ->
    life_step L (HandleInboundConnection h env pn magic height nonce running (Some c) permissions L).1
| StepConnect env pn magic height nonce running addr permissions conn L :
    life_step L (connect_to env pn magic height nonce running addr permissions conn L).1.2
| StepOutbound env pn magic height nonce running rng conns L :
    life_step L (AttemptOutboundConnections env pn magic height nonce running rng conns L).1
| StepFeeler env pn magic height nonce running rng conn L :
    life_step L (AttemptFeelerConnection env pn magic height nonce running rng conn L).1
| StepAnchors env pn magic height nonce running anchors conns L :
    life_step L (ConnectToAnchors env pn magic height nonce running anchors conns L).1
| StepResult env id addr success L : life_step L (on_connect_result h env id addr success L).1
| StepRemove t id L : life_step L (remove_peer t id L).1
| StepPeriodic env L : life_step L (process_periodic env L).1
| StepDisconnectAll env L : life_step L (disconnect_all env L).1
| StepShutdown L : life_step L (with_shutting true L)
| StepPeerEvent env handler ev id e L : peer_states_ L !! id = Some e ->
    life_step L (with_peers (insert id (with_peer (fun p => (run h env handler ev p).1) e)) L)
| StepEntry id e e' L : peer_states_ L !! id = Some e -> peer e' = peer e -> life_step L (with_peers (insert id e') L)
| StepBans f L : life_step L (with_bans f L)
| StepAddrs f L : life_step L (with_addrs f L).

Definition life_start (c : Config) (bans : BanManager) (am : AddressManager) : PeerLifecycleManager :=
  mkLife c ∅ 0 false false bans am [] (mkGS 0 0 0 0 0 0 0 0).
Inductive life_reachable : PeerLifecycleManager -> Prop :=
| LifeStart c bans am : 0 <= max_inbound_peers c -> 0 <= max_outbound_peers c -> life_reachable (life_start c bans am)
| LifeStep L L' : life_reachable L -> life_step L L' -> life_reachable L'.

Lemma life_step_limits L L' : life_step L L' -> limits L -> limits L'.
Proof.
  destruct 1; intros HL;
    first [by apply inbound_limits|by apply connect_limits|by apply outbound_limits|by apply feeler_limits|by apply anchors_limits
          |by apply result_limits|by apply remove_limits|by apply periodic_limits|by apply disconnect_all_limits|by apply (same_limits L)|idtac].
  - eapply limits_update; [done|apply linked_run|done].
  - eapply limits_update; [done| |done]. rewrite H1. reflexivity.
Qed.

Lemma life_reachable_limits L : life_reachable L -> limits L.
Proof.
  induction 1 as [c bans am Hi Ho|L L' _ IH Hs]; [|by eapply life_step_limits]. split; try done. intros a. cbn [life_start peer_states_]. unfold same_ip_inbound, count. rewrite map_filter_empty, map_size_empty. lia.
Qed.
End Steps.

(** In every state the peer manager reaches - by inbound and outbound connections, feelers, anchors, results of
    connection attempts, peer events, removals, maintenance and shutdown in any order - there are at most [max_inbound_peers]
    inbound connections, at most [MAX_INBOUND_PER_IP] of them from any one address (written in any form), and at most
    [max_outbound_peers] outbound connections other than feelers. *)
Theorem connection_limits `{Proto.BoostAsio} (h : Endian.host) (L : PeerLifecycleManager) (address : list Z) : life_reachable h L ->
  Z.of_nat (inbound_count L) <= max_inbound_peers (config_ L) /\
  Z.of_nat (outbound_nonfeeler L) <= max_outbound_peers (config_ L) /\ (outbound_count L <= outbound_nonfeeler L)%nat /\
  (same_ip_inbound address (peer_states_ L) <= MAX_INBOUND_PER_IP)%nat.
Proof.
  intros HL%life_reachable_limits. destruct HL as [H1 H2 H3 _]. split_and!; [done|done| |done]. apply map_subseteq_size, map_filter_subseteq_ext.
  intros i e _. rewrite !andb_true_iff. tauto.
Qed.

(** ** Misbehaving peers *)

Section Misbehaving.
Context `{Proto.BoostAsio}.
Implicit Types (L : PeerLifecycleManager).
Let banned_until (L : PeerLifecycleManager) (e : PeerEntry) : option Z :=
  discouraged_ (ban_manager_ L) !! normalize_ip_string (Mis.address (misbehavior_ e)).

Lemma discourage_room t a b : Z.of_nat (size (discouraged_ b)) < Bans.MAX_DISCOURAGED ->
  discouraged_ (Bans.Discourage t a b) = <[a := i64 (t + Bans.DISCOURAGE_DURATION_SEC)]> (discouraged_ b).
Proof.
  intros Hs. unfold Bans.Discourage. cbn [Bans.with_discouraged discouraged_]. set (m := <[a := _]> _).
  assert (Hm : Z.of_nat (size m) <= Bans.MAX_DISCOURAGED) by (unfold m; rewrite map_size_insert; destruct (_ !! a); cbn; lia).
  by rewrite (proj2 (Z.ltb_ge _ _) Hm).
Qed.

Lemma remove_peer_bans t id L : ban_manager_ (remove_peer t id L).1 =
  match peer_states_ L !! id with
  | Some e => if Mis.should_discourage (misbehavior_ e) then Bans.Discourage t (normalize_ip_string (Mis.address (misbehavior_ e))) (ban_manager_ L)
              else ban_manager_ L
  | None => ban_manager_ L
  end.
Proof.
  unfold remove_peer. destruct (peer_states_ L !! id) as [e|]; [|done]. cbv zeta. destruct (Mis.should_discourage _); cbn; by destruct (shutting_down_ L).
Qed.

Lemma remove_all_discourages t ids L : NoDup ids -> Z.of_nat (size (discouraged_ (ban_manager_ L))) + Z.of_nat (length ids) <= Bans.MAX_DISCOURAGED ->
  let L' := (remove_all t ids L).1 in let until := Some (i64 (t + Bans.DISCOURAGE_DURATION_SEC)) in
  (forall id, id ∈ ids -> peer_states_ L' !! id = None) /\
  (forall a, discouraged_ (ban_manager_ L) !! a = until -> discouraged_ (ban_manager_ L') !! a = until) /\
  (forall id e, id ∈ ids -> peer_states_ L !! id = Some e -> Mis.should_discourage (misbehavior_ e) = true -> banned_until L' e = until).
Proof.
  intros Hd. revert L. induction Hd as [|id ids Hid Hd IH]; intros L Hs; [cbn; split_and!; [set_solver|done|set_solver]|].
  cbn [remove_all length] in *. destruct (remove_peer_eq t id L) as (P1 & _). pose proof (remove_peer_bans t id L) as P2.
  destruct (remove_all_sub t ids (remove_peer t id L).1) as [Hsub _]. destruct (remove_peer t id L) as [L1 o]. cbn [fst] in P1, P2, Hsub.
  set (d := discouraged_ (ban_manager_ L)) in *. set (until := i64 (t + Bans.DISCOURAGE_DURATION_SEC)) in *.
  assert (Hd1 : discouraged_ (ban_manager_ L1) = d \/ exists e, peer_states_ L !! id = Some e /\
    discouraged_ (ban_manager_ L1) = <[normalize_ip_string (Mis.address (misbehavior_ e)) := until]> d).
  { rewrite P2. destruct (peer_states_ L !! id) as [e|]; [|by left]. destruct (Mis.should_discourage _); [|by left]. right. exists e. split; [done|].
    apply discourage_room. unfold d in Hs. lia. }
  assert (Hs1 : Z.of_nat (size (discouraged_ (ban_manager_ L1))) + Z.of_nat (length ids) <= Bans.MAX_DISCOURAGED).
  { destruct Hd1 as [->|(e & _ & ->)]; [lia|]. rewrite map_size_insert. destruct (d !! _); unfold Datatypes.id; lia. }
  destruct (IH L1 Hs1) as (I1 & I2 & I3). destruct (remove_all t ids L1) as [L2 o']. cbn [fst] in *. split_and!.
  - intros x [->|Hx]%elem_of_cons; [|by apply I1]. destruct (peer_states_ L2 !! id) eqn:E; [|done]. exfalso.
    eapply lookup_weaken in E; [|exact Hsub]. by rewrite P1, lookup_delete_eq in E.
  - intros a Ha. apply I2. destruct Hd1 as [->|(e & _ & ->)]; [done|]. destruct (decide (normalize_ip_string (Mis.address (misbehavior_ e)) = a)) as [<-|Hn];
      [apply lookup_insert_eq|by rewrite lookup_insert_ne].
  - intros x e [->|Hx]%elem_of_cons He Hb.
    + apply I2. rewrite P2, He, Hb, discourage_room by (unfold d in Hs; lia). apply lookup_insert_eq.
    + apply (I3 x e Hx); [|done]. rewrite P1, lookup_delete_ne; [done|]. by intros ->.
Qed.

Lemma periodic_discourages env L id e : peer_states_ L !! id = Some e -> Mis.should_discourage (misbehavior_ e) = true ->
  Mis.HasPermission (Mis.permissions (misbehavior_ e)) Mis.NoBan = false ->
  Z.of_nat (size (discouraged_ (ban_manager_ L))) + Z.of_nat (peer_count L) <= Bans.MAX_DISCOURAGED ->
  let L' := (process_periodic env L).1 in
  peer_states_ L' !! id = None /\ banned_until L' e = Some (i64 (wall_time env + Bans.DISCOURAGE_DURATION_SEC)).
Proof.
  intros He Hb Hp Hs. unfold process_periodic. cbv zeta. match goal with |- context [remove_all ?t ?l L] => set (ids := l) end.
  assert (Hid : id ∈ ids).
  { apply list_elem_of_fmap. exists (id, e). split; [done|]. apply list_elem_of_In, List.filter_In. split; [by apply list_elem_of_In, elem_of_map_to_list|].
    unfold must_go. destruct (negb _); [done|]. destruct (_ && _); [done|]. by rewrite Hb, Hp. }
  assert (Hn : NoDup ids).
  { apply filter_nodup, NoDup_fst_map_to_list. }
  assert (Hl : (length ids <= peer_count L)%nat).
  { unfold ids, peer_count. rewrite length_fmap. etrans; [apply List.filter_length_le|]. by rewrite length_map_to_list. }
  destruct (remove_all_discourages (wall_time env) ids L Hn) as (I1 & _ & I3); [lia|]. destruct (remove_all _ ids L) as [L1 o]. cbn in *.
  split; [by apply I1|by apply (I3 id)].
Qed.
End Misbehaving.

(** What may happen to the discouraged addresses between the times [t] and [t']: more addresses are discouraged while there is room,
    the expired ones are swept out, and the operations on bans, whitelist and file leave them alone. *)
Inductive bans_later (t t' : Z) (b0 : BanManager) : BanManager -> Prop :=
| BansNow : bans_later t t' b0 b0
| BansDiscourage s a b : bans_later t t' b0 b -> t <= s <= t' -> Z.of_nat (size (discouraged_ b)) < Bans.MAX_DISCOURAGED ->
    bans_later t t' b0 (Bans.Discourage s a b)
| BansSweep s b : bans_later t t' b0 b -> t <= s <= t' -> bans_later t t' b0 (Bans.SweepDiscouraged s b)
| BansOther b b' : bans_later t t' b0 b -> discouraged_ b' = discouraged_ b -> bans_later t t' b0 b'.

(** Those operations. *)
Lemma bans_leave_discouraged s w a off b :
  discouraged_ (Bans.Ban s w a off b) = discouraged_ b /\ discouraged_ (Bans.Unban s w a b) = discouraged_ b /\
  discouraged_ (Bans.ClearBanned s w b) = discouraged_ b /\ discouraged_ (Bans.SweepBanned s w b) = discouraged_ b /\
  discouraged_ (Bans.SaveBans s w b).2 = discouraged_ b /\ discouraged_ (Bans.AddToWhitelist a b) = discouraged_ b /\
  discouraged_ (Bans.RemoveFromWhitelist a b) = discouraged_ b.
Proof.
  assert (Hsave : forall b, discouraged_ (Bans.SaveBansInternal s w b).2 = discouraged_ b)
    by (intros x; unfold Bans.SaveBansInternal; destruct (ban_file_ x); [|done]; by destruct w).
  assert (Hauto : forall b, discouraged_ (Bans.auto_save s w b) = discouraged_ b)
    by (intros x; unfold Bans.auto_save; destruct (ban_file_ x); [apply Hsave|done]).
  unfold Bans.Ban, Bans.ClearBanned. split_and!; try done; [by rewrite Hauto| |by rewrite Hauto|].
  - unfold Bans.Unban. destruct (banned_ b !! a); [by rewrite Hauto|done].
  - unfold Bans.SweepBanned. cbv zeta. destruct (_ <? _)%nat; [by rewrite Hauto|done].
Qed.

Lemma later_discouraged t t' b0 b a expiry : 0 <= t < 2 ^ 62 -> t' < t + Bans.DISCOURAGE_DURATION_SEC ->
  discouraged_ b0 !! a = Some expiry -> t' < expiry -> bans_later t t' b0 b -> exists x, discouraged_ b !! a = Some x /\ t' < x.
Proof.
  intros Ht Ht' Ha Hx Hl. induction Hl as [|s a' b _ (x & E & Hlt) Hs Hroom|s b _ (x & E & Hlt) Hs|b b' _ (x & E & Hlt) Hd].
  - by exists expiry.
  - rewrite discourage_room by done. destruct (decide (a' = a)) as [->|Hn]; [|exists x; by rewrite lookup_insert_ne].
    exists (i64 (s + Bans.DISCOURAGE_DURATION_SEC)). rewrite lookup_insert_eq. split; [done|].
    unfold Bans.DISCOURAGE_DURATION_SEC in *. rewrite i64_id by (unfold in_s; lia). lia.
  - exists x. split; [|done]. cbn. apply map_lookup_filter_Some. split; [done|]. lia.
  - exists x. by rewrite Hd.
Qed.

(** A discouraged address is refused in every form in which it may be written, unless the connection is protected. *)
Lemma discouraged_refused `{Proto.BoostAsio} h env pn magic height nonce running c permissions L :
  Bans.IsDiscouraged (wall_time env) (normalize_ip_string (remote_address c)) (ban_manager_ L) = true ->
  Mis.HasPermission permissions Mis.NoBan = false ->
  (HandleInboundConnection h env pn magic height nonce running (Some c) permissions L).1 = L.
Proof.
  intros Hd Hn. unfold HandleInboundConnection. destruct (negb running); [done|].
  destruct (Bans.IsBanned _ _ _); [done|]. destruct (Bans.IsDiscouraged _ (remote_address c) _); [done|]. destruct (negb _); [done|]. cbv zeta.
  unfold add_peer, check_admission. destruct (stopping_all_ L); [done|]. unfold ban_refuses. rewrite Hn. cbn [negb andb].
  change (PeerM.address (PeerM.set_local_nonce nonce (PeerM.create_inbound env pn (Some c) magic height))) with (remote_address c).
  by rewrite Hd, orb_true_r.
Qed.

(** C18: A misbehaving peer is kept out: once a peer without protection has crossed the threshold, the next maintenance removes it,
    and for twenty-four hours no inbound connection without protection from its address, in whatever form it is written,
    is admitted, and no connection to it is attempted. This holds in every later state of the node, whatever became of its peers, as long as
    it has not been restarted, its discouraged addresses have not been cleared, they were discouraged only while the list of 10,000 had
    room (a full one evicts the earliest; at that maintenance, room for all peers of the node), and its clock stayed between the two times: sweeps of the list, as the same maintenance makes one, bans and the lifting
    of bans do not let the peer in. *)
Theorem misbehaving_kept_out `{Proto.BoostAsio} (h : Endian.host) (env env' : Env) (L L2 : PeerLifecycleManager) (id : Z) (e : PeerEntry) :
  peer_states_ L !! id = Some e -> Mis.should_discourage (misbehavior_ e) = true ->
  Mis.HasPermission (Mis.permissions (misbehavior_ e)) Mis.NoBan = false ->
  Z.of_nat (size (discouraged_ (ban_manager_ L))) + Z.of_nat (peer_count L) <= Bans.MAX_DISCOURAGED ->
  0 <= wall_time env < 2 ^ 62 -> wall_time env <= wall_time env' < wall_time env + Bans.DISCOURAGE_DURATION_SEC ->
  let L1 := (process_periodic env L).1 in let address := normalize_ip_string (Mis.address (misbehavior_ e)) in
  bans_later (wall_time env) (wall_time env') (ban_manager_ L1) (ban_manager_ L2) ->
  peer_states_ L1 !! id = None /\
  (forall pn magic height nonce running c permissions, normalize_ip_string (remote_address c) = address ->
     Mis.HasPermission permissions Mis.NoBan = false ->
     (HandleInboundConnection h env' pn magic height nonce running (Some c) permissions L2).1 = L2) /\
  (forall pn magic height nonce addr permissions conn, Proto.NetworkAddressToString addr = Some address ->
     let r := connect_to env' pn magic height nonce true addr permissions conn L2 in
     r.1.2 = L2 /\ (r.1.1 = AddressBanned \/ r.1.1 = AddressDiscouraged)).
Proof.
  intros He Hb Hp Hs Ht Ht' L1 address Hl. destruct (periodic_discourages env L id e He Hb Hp Hs) as [H1 H2]. fold L1 address in H1, H2.
  rewrite i64_id in H2 by (unfold in_s, Bans.DISCOURAGE_DURATION_SEC; lia).
  destruct (later_discouraged (wall_time env) (wall_time env') _ (ban_manager_ L2) address _ Ht (proj2 Ht') H2 (proj2 Ht') Hl) as (x & Ex & Hx).
  assert (Hd : Bans.IsDiscouraged (wall_time env') address (ban_manager_ L2) = true)
    by (unfold Bans.IsDiscouraged; rewrite Ex; by apply negb_true_iff, Z.leb_gt).
  split_and!; [done| |].
  - intros pn magic height nonce running c permissions Ha Hn. apply discouraged_refused; [by rewrite Ha|done].
  - intros pn magic height nonce addr permissions conn Ha. unfold connect_to, ConnectTo. cbn [negb]. rewrite Ha. cbv zeta.
    destruct (Bans.IsBanned _ _ _); [by split; [|left]|]. rewrite Hd. by split; [|right].
Qed.

(** ** Eviction *)

Definition evictable (env : Env) (e : PeerEntry) : bool :=
  is_inbound e && negb (PeerM.steady_s env - connected_time (Peer.stats_ (peer e)) <? 10).
Definition cand_of (id : Z) (e : PeerEntry) : EvictionCandidate :=
  mkCand id (connected_time (Peer.stats_ (peer e))) (ping_time_ms (Peer.stats_ (peer e))).

(** Evicted rather than: a worse ping (an unknown one is worst), then the older connection, then the smaller identifier. *)
Definition before (a b : EvictionCandidate) : Prop :=
  map_ping (cand_ping_ms b) < map_ping (cand_ping_ms a) \/
  map_ping (cand_ping_ms b) = map_ping (cand_ping_ms a) /\
    (cand_connected a < cand_connected b \/ cand_connected a = cand_connected b /\ cand_id a <= cand_id b).

Definition worst_of (c : EvictionCandidate) : Worst := mkWorst (cand_id c) (cand_connected c) (map_ping (cand_ping_ms c)).

Lemma before_trans a b c : before a b -> before b c -> before a c.
Proof. unfold before. lia. Qed.

Lemma worse_cases c x : worse (worst_of c) x = worst_of c /\ before c x \/ worse (worst_of c) x = worst_of x /\ before x c.
Proof.
  unfold worse, worst_of, before. cbn [worst_peer_id oldest_connected worst_score].
  destruct (Z.ltb_spec (map_ping (cand_ping_ms c)) (map_ping (cand_ping_ms x))); [right; split; [done|lia]|].
  destruct (Z.eqb_spec (map_ping (cand_ping_ms x)) (map_ping (cand_ping_ms c))) as [E|E]; [|left; split; [done|lia]].
  destruct (Z.ltb_spec (cand_connected x) (cand_connected c)); [right; rewrite E; split; [done|lia]|].
  destruct (Z.eqb_spec (cand_connected x) (cand_connected c)) as [E'|E']; [|left; split; [done|lia]].
  destruct (Z.ltb_spec (cand_id x) (cand_id c)); [right; rewrite E, E'; split; [done|lia]|left; split; [done|lia]].
Qed.

Lemma worst_fold c l : exists x, foldl worse (worst_of c) l = worst_of x /\ x ∈ c :: l /\ Forall (before x) (c :: l).
Proof.
  revert c. induction l as [|y l IH]; intros c.
  { exists c. split_and!; [done|by constructor|]. apply Forall_singleton. unfold before. lia. }
  cbn [foldl]. destruct (worse_cases c y) as [[-> Hb]|[-> Hb]].
  - destruct (IH c) as (x & E & Hx & Hf). exists x. split_and!; [done|set_solver|]. apply Forall_cons in Hf as [Hc Hf].
    constructor; [done|]. constructor; [by eapply before_trans|done].
  - destruct (IH y) as (x & E & Hx & Hf). exists x. split_and!; [done|set_solver|]. apply Forall_cons in Hf as [Hc Hf].
    constructor; [by eapply before_trans|]. by constructor.
Qed.

Lemma candidates_elem env L x : x ∈ candidates env L <-> exists id e, peer_states_ L !! id = Some e /\ evictable env e = true /\ x = cand_of id e.
Proof.
  unfold candidates. rewrite list_elem_of_fmap. split.
  - intros ([id e] & -> & He). apply list_elem_of_In, List.filter_In in He as [He Hb]. exists id, e. split_and!; [|done|done].
    by apply elem_of_map_to_list, list_elem_of_In.
  - intros (id & e & He & Hb & ->). exists (id, e). split; [done|]. apply list_elem_of_In, List.filter_In. split; [|done].
    by apply list_elem_of_In, elem_of_map_to_list.
Qed.

Lemma life_count_delete f id e (m : gmap Z PeerEntry) : m !! id = Some e -> f e = true -> count f (delete id m) = pred (count f m).
Proof.
  intros He Hf. unfold count. rewrite map_filter_delete. apply map_size_delete_Some. exists e. by apply map_lookup_filter_Some.
Qed.

(** Eviction frees one inbound slot if it can: when some inbound peer has been connected for ten seconds, exactly one such peer is
    removed, the one with the worst ping time (an unknown one counts as worst), among those the oldest connection, among
    those the smallest identifier; otherwise nothing changes. Outbound and new peers are never evicted. *)
Theorem eviction_exact `{Proto.BoostAsio} (env : Env) (L : PeerLifecycleManager) : map_Forall (fun id _ => 0 <= id) (peer_states_ L) ->
  let '(evicted, L', _) := evict_inbound_peer env L in
  if evicted then exists id e, peer_states_ L !! id = Some e /\ evictable env e = true /\
    (forall id' e', peer_states_ L !! id' = Some e' -> evictable env e' = true -> before (cand_of id e) (cand_of id' e')) /\
    peer_states_ L' = delete id (peer_states_ L) /\ inbound_count L' = pred (inbound_count L)
  else L' = L /\ forall id e, peer_states_ L !! id = Some e -> evictable env e = false.
Proof.
  intros Hids. unfold evict_inbound_peer. pose proof (candidates_elem env L) as Hc. destruct (candidates env L) as [|c l].
  { split; [done|]. intros id e He. destruct (evictable env e) eqn:E; [|done]. exfalso. eapply (elem_of_nil (cand_of id e)), Hc. by exists id, e. }
  cbv zeta. cbn [foldl]. assert (E0 : worse (mkWorst (-1) (2 ^ 63 - 1) (- 2 ^ 63)) c = worst_of c).
  { unfold worse, worst_of, map_ping. cbn [worst_score]. destruct (Z.ltb_spec (cand_ping_ms c) 0).
    - by rewrite (proj2 (Z.ltb_lt _ _)) by by vm_compute.
    - rewrite (proj2 (Z.ltb_lt _ _)); [done|]. lia. }
  rewrite E0. destruct (worst_fold c l) as (x & -> & Hx & Hf). apply Hc in Hx as (id & e & He & Hv & ->). cbn [worst_of worst_peer_id cand_of cand_id].
  specialize (Hids id e He). rewrite (proj2 (Z.leb_le _ _) Hids). destruct (remove_peer_eq (wall_time env) id L) as (P1 & _).
  destruct (remove_peer (wall_time env) id L) as [L1 o]. cbn [fst] in P1. exists id, e. split_and!; [done|done| |done|].
  - intros id' e' He' Hv'. rewrite Forall_forall in Hf. apply Hf, Hc. by exists id', e'.
  - unfold inbound_count. rewrite P1. apply (life_count_delete _ id e); [done|]. unfold evictable in Hv. by apply andb_true_iff in Hv as [Hv _].
Qed.

(** A full node refuses inbound connections before it would come to an eviction. *)
Lemma full_refuses `{Proto.BoostAsio} h env pn magic height nonce running conn permissions L :
  max_inbound_peers (config_ L) <= Z.of_nat (inbound_count L) ->
  (HandleInboundConnection h env pn magic height nonce running conn permissions L).1 = L.
Proof.
  intros Hf. unfold HandleInboundConnection. destruct conn as [c|]; [|done]. destruct (negb running); [done|]. destruct (Bans.IsBanned _ _ _); [done|].
  destruct (Bans.IsDiscouraged _ _ _); [done|]. unfold can_accept_inbound_from. by rewrite (proj2 (Z.leb_le _ _) Hf).
Qed.

(** ** Addresses that are dialled *)

Section Dialled.
Import AddrMan.
Context (time : Z) (addr addr' : Proto.NetworkAddress).

Lemma good_tried am : is_Some (new_ am !! AddrKey addr) \/ is_Some (tried_ am !! AddrKey addr) ->
  exists i, tried_ (good time addr am) !! AddrKey addr = Some i /\ attempts i = 0.
Proof.
  unfold good. destruct (new_ am !! AddrKey addr) as [i|] eqn:E.
  - intros _. eexists. split; [apply lookup_insert_eq|done].
  - intros [[x Hx]|[i Hi]]; [done|]. rewrite Hi. eexists. split; [apply lookup_insert_eq|done].
Qed.
Lemma good_new am : new_ (good time addr am) !! AddrKey addr = None.
Proof.
  unfold good. destruct (new_ am !! AddrKey addr) as [i|] eqn:E; [apply lookup_delete_eq|]. by destruct (tried_ am !! AddrKey addr).
Qed.
Lemma add_known am : Proto.port addr <> 0 -> all_zero (Proto.ip addr) = false ->
  is_Some (new_ (add time addr 0 am).2 !! AddrKey addr) \/ is_Some (tried_ (add time addr 0 am).2 !! AddrKey addr).
Proof.
  intros Hp Hz. unfold add, add_internal. rewrite (proj2 (Z.eqb_neq _ _) Hp), Hz. cbv zeta.
  destruct (tried_ am !! AddrKey addr) as [i|] eqn:Et; [right; eexists; apply lookup_insert_eq|].
  destruct (new_ am !! AddrKey addr) as [i|] eqn:En; [left; eexists; apply lookup_insert_eq|].
  assert (E : effective (now time) 0 = now time) by (unfold effective; cbn [Z.eqb]; by destruct (_ || _)). rewrite E.
  assert (Hs : is_terrible (now time) (AddrInfo_of addr (now time)) = false).
  { unfold is_terrible, is_stale, AddrInfo_of. cbn [attempts tried timestamp]. change (MAX_FAILURES <=? u32 0) with false. cbn [negb andb].
    rewrite Z.ltb_irrefl. destruct (now time =? 0); [done|]. cbn [orb]. by rewrite Z.sub_diag. }
  rewrite Hs. left. eexists. apply lookup_insert_eq.
Qed.
Lemma attempt_tried am i : new_ am !! AddrKey addr = None -> tried_ am !! AddrKey addr = Some i ->
  exists i', tried_ (attempt time addr am) !! AddrKey addr = Some i' /\ attempts i' = attempts i.
Proof. intros Hn Ht. unfold attempt. rewrite Hn, Ht. eexists. split; [apply lookup_insert_eq|done]. Qed.
End Dialled.

(** A successful dial ends with the insertion of an outbound peer. *)
Lemma connect_success `{Proto.BoostAsio} env pn magic height nonce addr permissions c a L L1 o :
  Proto.NetworkAddressToString addr = Some a ->
  connect_to env pn magic height nonce true addr permissions (Some c) L = (Success, L1, o) ->
  exists L0, L1 = (insert_peer env (next_peer_id_ L)
    (PeerM.set_local_nonce nonce (PeerM.create_outbound env pn (Some c) magic height a (Proto.port addr) OUTBOUND)) permissions a L0).1.
Proof.
  intros Ha. unfold connect_to, ConnectTo. cbn [negb]. rewrite Ha. cbv zeta. destruct (Bans.IsBanned _ _ _); [done|].
  destruct (Bans.IsDiscouraged _ _ _); [done|]. destruct (negb _); [done|]. destruct (negb _); [done|]. cbn [allocate_peer_id].
  unfold add_peer_with_id. destruct (_ && _); [done|]. destruct (check_admission _ _ _ _ _) as [[ok L0] o0]. destruct ok; cbn [negb]; [|done].
  destruct (insert_peer _ _ _ _ _ L0) as [L2 o2] eqn:E. intros [= <- _]. exists L0. by rewrite E.
Qed.

(** Dialling an address makes it a good one: as soon as a connection attempt is accepted, before its outcome is known, the address
    is in the TRIED table without failures, and it is still there without failures after the attempt has failed and the
    peer has been removed. (The text of the address parses to the address again, and the transport reports the port it
    was given.) *)
Theorem dialled_address_good `{Proto.BoostAsio} (h : Endian.host) (env env' : Env) (pn magic height nonce : Z) (addr : Proto.NetworkAddress)
    (permissions : Z) (c : Connection) (a : list Z) (L L1 : PeerLifecycleManager) (o : list life_effect) :
  Proto.NetworkAddressToString addr = Some a -> a <> [] ->
  Proto.ip (Proto.from_string a (Proto.port addr) Proto.NODE_NETWORK) = Proto.ip addr -> remote_port c = Proto.port addr ->
  Proto.port addr <> 0 -> AddrMan.all_zero (Proto.ip addr) = false ->
  connect_to env pn magic height nonce true addr permissions (Some c) L = (Success, L1, o) ->
  let L2 := (on_connect_result h env' (next_peer_id_ L) addr false L1).1 in
  (exists i, tried_ (addr_manager_ L1) !! AddrMan.AddrKey addr = Some i /\ attempts i = 0) /\
  (exists i, tried_ (addr_manager_ L2) !! AddrMan.AddrKey addr = Some i /\ attempts i = 0) /\
  peer_states_ L2 !! next_peer_id_ L = None.
Proof.
  intros Ha Hne Hip Hport Hp Hz Hc. destruct (connect_success env pn magic height nonce addr permissions c a L L1 o Ha Hc) as [L0 E1].
  set (na := Proto.from_string a (Proto.port addr) Proto.NODE_NETWORK) in *.
  assert (Hnp : Proto.port na = Proto.port addr) by (unfold na, Proto.from_string; by destruct (Proto.make_address a) as [[]|]).
  assert (Hk : AddrMan.AddrKey na = AddrMan.AddrKey addr) by (unfold AddrMan.AddrKey; by rewrite Hip, Hnp).
  assert (Hid : is_Some (peer_states_ L1 !! next_peer_id_ L)) by (rewrite E1; cbn; rewrite lookup_insert_eq; by eexists).
  assert (Ham : addr_manager_ L1 = AddrMan.good (wall_time env) na (AddrMan.add (wall_time env) na 0 (addr_manager_ L0)).2).
  { rewrite E1. unfold insert_peer. cbv zeta. cbn [fst]. destruct a as [|a0 a']; [done|]. cbn [notify with_addrs addr_manager_]. unfold Disc.on_peer_connected.
    rewrite bool_decide_eq_false_2 by (cbn; rewrite lookup_fmap, lookup_insert_eq; done).
    rewrite bool_decide_eq_true_2 by done. cbn [Disc.with_addrman Discovery.addr_manager_ as_discovery with_peers addr_manager_].
    change (PeerM.port _) with (remote_port c). by rewrite Hport. }
  destruct (good_tried (wall_time env) na (AddrMan.add (wall_time env) na 0 (addr_manager_ L0)).2) as (i & Hi & Hi0).
  { apply add_known; [by rewrite Hnp|by rewrite Hip]. }
  pose proof (good_new (wall_time env) na (AddrMan.add (wall_time env) na 0 (addr_manager_ L0)).2) as Hn. rewrite <- Ham, Hk in Hi, Hn.
  intros L2. split; [by exists i|]. unfold L2, on_connect_result. destruct Hid as [e ->].
  destruct (remove_peer_eq (wall_time env') (next_peer_id_ L) (with_addrs (AddrMan.attempt (wall_time env') addr) L1)) as (P1 & _ & P3 & _).
  rewrite P1, P3. split; [|apply lookup_delete_eq]. cbn [with_addrs addr_manager_].
  destruct (attempt_tried (wall_time env') addr (addr_manager_ L1) i Hn Hi) as (i' & Hi' & E). exists i'. split; [done|congruence].
Qed.

(** A removed peer is no longer there when its notification is handled: the address manager never hears of it, even if the
    address is to be marked good. *)
Lemma removal_unheard `{Proto.BoostAsio} t id L : addr_manager_ (remove_peer t id L).1 = addr_manager_ L.
Proof. apply remove_peer_eq. Qed.

(** ** Witnesses *)

(** Addresses with four characters, one for each byte. *)
#[local] Instance byte_asio : Proto.BoostAsio := {|
  Proto.make_address := fun s => if (length s =? 4)%nat then Some (inl s) else None;
  Proto.v4_mapped := fun b => replicate 10 0 ++ [255; 255] ++ b;
  Proto.is_v4_mapped := fun b => bool_decide (take 12 b = replicate 10 0 ++ [255; 255]);
  Proto.v4_unmapped := fun b => drop 12 b; Proto.to_string_v4 := fun b => b; Proto.to_string_v6 := fun b => b
|}.
Definition dial_addr : Proto.NetworkAddress := Proto.mkNA 1 (replicate 10 0 ++ [255; 255; 10; 0; 0; 2]) 9590.
Definition dial_conn : Connection := mkConn false [10; 0; 0; 2] 9590.
Definition env_at (s : Z) : Env := mkEnv (1000 * s) s 99 (fun _ => true).
Definition node_start : PeerLifecycleManager := life_start Config_new Bans.new AddrMan.empty.
Definition inbound_conn : Connection := mkConn true [10; 0; 0; 3] 40000.
(** A node with one inbound peer. *)
Definition node_one : PeerLifecycleManager :=
  (HandleInboundConnection Endian.Little (env_at 1000) 5 1 0 5 true (Some inbound_conn) 0 node_start).1.

Lemma dialled_address_good_witness : exists L1 o,
  connect_to (env_at 1000) 5 1 0 5 true dial_addr 0 (Some dial_conn) node_start = (Success, L1, o) /\
  let L2 := (on_connect_result Endian.Little (env_at 1010) 0 dial_addr false L1).1 in
  exists i, tried_ (addr_manager_ L2) !! AddrMan.AddrKey dial_addr = Some i /\ attempts i = 0.
Proof.
  destruct (connect_to (env_at 1000) 5 1 0 5 true dial_addr 0 (Some dial_conn) node_start) as [[r L1] o] eqn:E.
  assert (Hr : r = Success) by (apply (f_equal (fun x => x.1.1)) in E; vm_compute in E; congruence). subst r. exists L1, o. split; [done|].
  apply (dialled_address_good Endian.Little (env_at 1000) (env_at 1010) 5 1 0 5 dial_addr 0 dial_conn [10; 0; 0; 2] node_start L1 o);
    first [exact E|by vm_compute|discriminate].
Defined.

Lemma node_one_reachable : life_reachable Endian.Little node_one.
Proof. apply (LifeStep Endian.Little node_start); [apply LifeStart; cbn; unfold DEFAULT_MAX_INBOUND_CONNECTIONS, DEFAULT_MAX_OUTBOUND_CONNECTIONS; lia|]. apply StepInbound. discriminate. Qed.

Lemma connection_limits_witness :
  Z.of_nat (inbound_count node_one) <= max_inbound_peers (config_ node_one) /\ inbound_count node_one = 1%nat /\
  (same_ip_inbound [10; 0; 0; 3]%Z (peer_states_ node_one) <= MAX_INBOUND_PER_IP)%nat.
Proof.
  destruct (connection_limits Endian.Little node_one [10; 0; 0; 3] node_one_reachable) as (H1 & _ & _ & H4).
  split; [exact H1|]. split; [by vm_compute|exact H4].
Defined.

Lemma eviction_exact_witness : exists L' o id e, evict_inbound_peer (env_at 1020) node_one = (true, L', o) /\
  peer_states_ node_one !! id = Some e /\ peer_states_ L' = delete id (peer_states_ node_one).
Proof.
  assert (Hids : map_Forall (fun id _ => 0 <= id) (peer_states_ node_one)) by (apply (bool_decide_unpack _); by vm_compute).
  pose proof (eviction_exact (env_at 1020) node_one Hids) as Hx. destruct (evict_inbound_peer (env_at 1020) node_one) as [[ev L'] o] eqn:E.
  assert (Hev : ev = true) by (apply (f_equal (fun x => x.1.1)) in E; vm_compute in E; congruence). subst ev.
  destruct Hx as (id & e & He & _ & _ & Hp & _). exists L', o, id, e. split; [done|]. by split.
Defined.

(** The same node after its peer sent an invalid header. *)
Definition flagged : PeerEntry := mkEntry
  (PeerM.create_inbound (env_at 1000) 5 (Some inbound_conn) 1 0) 1000000 false (Mis.penalize 100 (Mis.new_data 0 [10; 0; 0; 3])) (mkGossip false ∅).
Definition node_bad : PeerLifecycleManager := with_peers (insert 0 flagged) node_start.

(** The same maintenance sweeps the discouraged addresses. *)
Definition swept (L : PeerLifecycleManager) : PeerLifecycleManager := with_bans (Bans.SweepDiscouraged 1030) L.

Lemma misbehaving_kept_out_witness :
  let L1 := (process_periodic (env_at 1030) node_bad).1 in
  peer_states_ L1 !! 0 = None /\
  (HandleInboundConnection Endian.Little (env_at 50000) 5 1 0 5 true (Some inbound_conn) 0 (swept L1)).1 = swept L1.
Proof.
  intros L1. destruct (misbehaving_kept_out Endian.Little (env_at 1030) (env_at 50000) node_bad (swept L1) 0 flagged) as (H1 & H2 & _);
    [reflexivity|reflexivity|reflexivity|vm_compute; discriminate|cbn; lia|cbn; unfold Bans.DISCOURAGE_DURATION_SEC; lia| |].
  { apply BansSweep; [apply BansNow|cbn; lia]. }
  split; [exact H1|]. apply H2; reflexivity.
Defined.
