(* ===== verification/Anchors.v ===== *)
(** * Anchors: the peers to reconnect to after a restart ([network/anchor_manager.hpp/.cpp])

    The best two outbound peers, saved as JSON at shutdown and read once at the next start.  The JSON text and
    the file system are outside: a file is absent, unparsable or a JSON value, and the failures of writing, renaming and
    removing are arguments. *)
From stdpp Require Import gmap sorting strings.
From S2P Require Import Prelude Arith Bytes Sha256 Block Protocol Message MessageProps Persist Misbehavior Peer AddrMan AddrManProps Discovery DiscoveryProps Ban Lifecycle LifecycleProps.
#[local] Open Scope Z_scope.
Import Proto (NetworkAddress, mkNA, services, ip, port).

(** [Candidate] of [GetAnchors]. *)
Record AnchorCandidate := mkAnchor { a_addr : NetworkAddress; a_age : Z; a_ping : Z }.

Module Anchors.

Definition MAX_ANCHORS : nat := 2.

(** The comparison of the sort, read as an order: older connections first, then lower ping. *)
Definition better (a b : AnchorCandidate) : bool :=
  if negb (a_age a =? a_age b) then a_age b <? a_age a else a_ping a <? a_ping b.
Definition anchor_le (a b : AnchorCandidate) : Prop := better b a = false.
#[global] Instance anchor_le_dec a b : Decision (anchor_le a b).
Proof. unfold anchor_le. apply _. Defined.

Section Select.
Context `{Proto.BoostAsio}.

Definition get_outbound_peers (L : PeerLifecycleManager) : list PeerEntry :=
  snd <$> List.filter (fun '(_, e) => negb (Life.is_inbound e)) (Life.by_id (peer_states_ L)).

(** One turn of the loop over the outbound peers. *)
Definition candidate (env : Env) (e : PeerEntry) : option AnchorCandidate :=
  let p := peer e in
  if negb (PeerM.is_connected p) || negb (bool_decide (state_ p = READY)) then None
  else if PeerM.is_feeler p then None
  else match Proto.make_address (PeerM.address p) with
  | None => None
  | Some a =>
      let addr := mkNA (peer_services_ (remote_ p)) (match a with inl v4 => Proto.v4_mapped v4 | inr v6 => v6 end) (PeerM.port p) in
      let ping := ping_time_ms (Peer.stats_ p) in
      Some (mkAnchor addr (Z.max 0 (PeerM.steady_s env - connected_time (Peer.stats_ p))) (if 0 <=? ping then ping else 2 ^ 63 - 1))
  end.

Definition anchor_candidates (env : Env) (L : PeerLifecycleManager) : list AnchorCandidate :=
  omap (candidate env) (get_outbound_peers L).

(** [shuffle] is the random permutation, which also stands for the order in which [std::sort] leaves equal elements. *)
Definition GetAnchors (env : Env) (shuffle : list AnchorCandidate -> list AnchorCandidate) (L : PeerLifecycleManager) : list NetworkAddress :=
  let candidates := anchor_candidates env L in
  match candidates with
  | [] => []
  | _ => a_addr <$> take MAX_ANCHORS (merge_sort anchor_le (shuffle candidates))
  end.

Definition save_anchor (addr : NetworkAddress) : json :=
  JObj [("ip", JArr (JInt <$> ip addr)); ("port", JInt (port addr)); ("services", JInt (services addr))]%string.
Definition save_root (anchors : list NetworkAddress) : json :=
  JObj [("version", JInt 1); ("count", JInt (Z.of_nat (length anchors))); ("anchors", JArr (save_anchor <$> anchors))]%string.

(** How the writing of the temporary file and its renaming end. *)
Inductive write_result :=
| WriteFails            (** opening, writing or [fsync] *)
| Renamed
| RenamedAfterRemove    (** the first [rename] fails, the second succeeds *)
| RenameFails (removed : bool).

(** [SaveAnchors]: the verdict and the file afterwards. *)
Definition SaveAnchors (env : Env) (shuffle : list AnchorCandidate -> list AnchorCandidate) (w : write_result) (f : file)
  (L : PeerLifecycleManager) : bool * file :=
  match GetAnchors env shuffle L with
  | [] => (true, f)
  | anchors =>
      match w with
      | WriteFails => (false, f)
      | Renamed | RenamedAfterRemove => (true, Parsed (save_root anchors))
      | RenameFails removed => (false, if removed then NotFound else f)
      end
  end.
End Select.

(** ** Loading *)

Definition valid_ip_array (j : json) : bool :=
  match j with
  | JArr l => (length l =? 16)%nat && forallb (fun v => match v with JInt z => (0 <=? i32 z) && (i32 z <=? 255) | _ => false end) l
  | _ => false
  end.
Definition is_number_unsigned (j : json) : bool := match j with JInt z => 0 <=? z | _ => false end.

(** The bytes of a valid array. *)
Definition ip_bytes (j : json) : bytes :=
  match j with JArr l => (fun v => match v with JInt z => i32 z mod 256 | _ => 0 end) <$> l | _ => [] end.

(** One element of the array; [None] when it is skipped. *)
Definition load_anchor (j : json) : option NetworkAddress :=
  match j with
  | JObj l =>
      match Persist.assoc "ip" l, Persist.assoc "port" l, Persist.assoc "services" l with
      | Some jip, Some jport, Some jsvc =>
          if negb (valid_ip_array jip) then None
          else if negb (is_number_unsigned jport) || negb (is_number_unsigned jsvc) then None
          else match jport, jsvc with
          | JInt p, JInt s => Some (mkNA (u64 s) (ip_bytes jip) (u16 p))
          | _, _ => None
          end
      | _, _, _ => None
      end
  | _ => None
  end.

(** The loop, which stops after two anchors. *)
Fixpoint load_loop (l : list json) (anchors : list NetworkAddress) : list NetworkAddress :=
  match l with
  | [] => anchors
  | j :: l =>
      match load_anchor j with
      | None => load_loop l anchors
      | Some a => if (length (anchors ++ [a]) =? 2)%nat then anchors ++ [a] else load_loop l (anchors ++ [a])
      end
  end.

(** [LoadAnchors]: the anchors and the file afterwards; every path that opened the file removes it. *)
Definition LoadAnchors (remove_ok : bool) (f : file) : list NetworkAddress * file :=
  let removed := if remove_ok then NotFound else f in
  match f with
  | NotFound => ([], NotFound)
  | Unparsable => ([], removed)
  | Parsed root =>
      match Bans.value i32 "version" 0 root with
      | Some 1 =>
          match root with
          | JObj l => match Persist.assoc "anchors" l with Some (JArr l) => (load_loop l [], removed) | _ => ([], removed) end
          | _ => ([], removed)
          end
      | _ => ([], removed)
      end
  end.
End Anchors.

(** ** Properties *)

Section Laws.
Context `{HA : Proto.BoostAsio} `{!LawfulAsio HA}.

(** The ports and services of the peers have their widths. *)
Definition peers_sized (L : PeerLifecycleManager) : Prop :=
  map_Forall (fun _ e => in_u 16 (PeerM.port (peer e)) /\ in_u 64 (peer_services_ (remote_ (peer e)))) (peer_states_ L).

Lemma anchor_outbound_elem L e : e ∈ Anchors.get_outbound_peers L <->
  exists id, peer_states_ L !! id = Some e /\ Life.is_inbound e = false.
Proof.
  assert (Hin : forall x, In x (Life.by_id (peer_states_ L)) <-> peer_states_ L !! x.1 = Some x.2).
  { intros [id x]. rewrite <- list_elem_of_In. unfold Life.by_id. by rewrite merge_sort_Permutation, elem_of_map_to_list. }
  unfold Anchors.get_outbound_peers. rewrite list_elem_of_fmap. split.
  - intros ([id e'] & -> & Hx). apply list_elem_of_In, filter_In in Hx as [Hx%Hin Hb]. exists id. by rewrite <- negb_true_iff.
  - intros (id & Hid & Hb). exists (id, e). split; [done|]. apply list_elem_of_In, filter_In. rewrite Hin. by rewrite negb_true_iff.
Qed.

Lemma anchor_candidates_elem env L c : c ∈ Anchors.anchor_candidates env L <->
  exists id e, peer_states_ L !! id = Some e /\ Life.is_inbound e = false /\ Anchors.candidate env e = Some c.
Proof.
  unfold Anchors.anchor_candidates. rewrite list_elem_of_omap. setoid_rewrite anchor_outbound_elem. naive_solver.
Qed.

(** What makes a peer a candidate. *)
Lemma candidate_spec env e c : Anchors.candidate env e = Some c ->
  PeerM.is_connected (peer e) = true /\ state_ (peer e) = READY /\ Life.is_feeler e = false /\
  is_Some (Proto.make_address (PeerM.address (peer e))) /\
  a_addr c = Proto.from_string (PeerM.address (peer e)) (PeerM.port (peer e)) (peer_services_ (remote_ (peer e))).
Proof.
  unfold Anchors.candidate. cbv zeta. destruct (PeerM.is_connected (peer e)); [|done]. cbn [negb orb].
  case_bool_decide as Hs; [|done]. cbn [negb]. unfold Life.is_feeler. destruct (PeerM.is_feeler (peer e)); [done|].
  destruct (Proto.make_address (PeerM.address (peer e))) as [[v4|v6]|] eqn:E; [..|done]; intros [= <-]; split_and!; try done;
    unfold Proto.from_string; by rewrite E.
Qed.

Lemma candidates_wf env L : peers_sized L -> Forall (fun c => addr_wf (a_addr c)) (Anchors.anchor_candidates env L).
Proof.
  intros Hs. apply Forall_forall. intros c (id & e & Hid & _ & Ec)%anchor_candidates_elem. destruct (Hs id e Hid) as [Hp Hsv].
  destruct (candidate_spec env e c Ec) as (_ & _ & _ & _ & ->). by apply from_string_wf.
Qed.

Context (env : Env) (shuffle : list AnchorCandidate -> list AnchorCandidate) (Hperm : forall l, shuffle l ≡ₚ l).

Lemma anchors_take L : Anchors.GetAnchors env shuffle L =
  a_addr <$> take Anchors.MAX_ANCHORS (merge_sort Anchors.anchor_le (shuffle (Anchors.anchor_candidates env L))).
Proof.
  unfold Anchors.GetAnchors. cbv zeta. destruct (Anchors.anchor_candidates env L) eqn:E; [|done].
  pose proof (Hperm []) as Hp. by apply Permutation_nil_r in Hp as ->.
Qed.

Lemma anchors_perm L : merge_sort Anchors.anchor_le (shuffle (Anchors.anchor_candidates env L)) ≡ₚ Anchors.anchor_candidates env L.
Proof. by rewrite merge_sort_Permutation, Hperm. Qed.

Lemma anchors_wf L : peers_sized L -> Forall addr_wf (Anchors.GetAnchors env shuffle L).
Proof.
  intros Hs. rewrite anchors_take, Forall_fmap. apply Forall_take. rewrite anchors_perm. by apply candidates_wf.
Qed.

#[local] Instance anchor_total : Total Anchors.anchor_le.
Proof. intros a b. unfold Anchors.anchor_le, Anchors.better. destruct (Z.eqb_spec (a_age a) (a_age b)) as [->|]; rewrite ?Z.eqb_refl; cbn [negb].
  - destruct (Z.ltb_spec (a_ping b) (a_ping a)), (Z.ltb_spec (a_ping a) (a_ping b)); auto. lia.
  - rewrite (proj2 (Z.eqb_neq _ _)) by lia. cbn [negb]. destruct (Z.ltb_spec (a_age b) (a_age a)), (Z.ltb_spec (a_age a) (a_age b)); auto. lia.
Qed.
#[local] Instance anchor_trans : Transitive Anchors.anchor_le.
Proof.
  intros a b c. unfold Anchors.anchor_le, Anchors.better.
  destruct (Z.eqb_spec (a_age b) (a_age a)), (Z.eqb_spec (a_age c) (a_age b)), (Z.eqb_spec (a_age c) (a_age a)); cbn [negb];
    rewrite ?Z.ltb_ge; lia.
Qed.

(** ** Saving and loading *)

Lemma valid_ip_save b : blob_wf 16 b -> Anchors.valid_ip_array (JArr (JInt <$> b)) = true /\ Anchors.ip_bytes (JArr (JInt <$> b)) = b.
Proof.
  intros [Hl Hb]. unfold Anchors.valid_ip_array, Anchors.ip_bytes. rewrite length_fmap, Hl. cbn [Nat.eqb andb]. clear Hl.
  induction Hb as [|x l Hx Hl [IH1 IH2]]; [done|]. cbn [fmap list_fmap forallb]. unfold byte_ok in Hx.
  rewrite i32_id by (unfold in_s; lia). rewrite (proj2 (Z.leb_le 0 x)), (proj2 (Z.leb_le x 255)) by lia. cbn [andb].
  split; [exact IH1|]. rewrite Z.mod_small by lia. by f_equal.
Qed.

Lemma load_save_anchor a : addr_wf a -> Anchors.load_anchor (Anchors.save_anchor a) = Some a.
Proof.
  intros (Hs & Hi & Hp). unfold Anchors.load_anchor, Anchors.save_anchor. cbn [Persist.assoc String.eqb Ascii.eqb Bool.eqb].
  destruct (valid_ip_save (ip a) Hi) as [-> ->]. unfold Anchors.is_number_unsigned. cbn [negb].
  rewrite !(proj2 (Z.leb_le 0 _)) by (unfold in_u in *; lia). cbn [negb orb].
  unfold u16. rewrite u64_id, Z.mod_small by done. by destruct a.
Qed.
Lemma valid_ip_bytes j : Anchors.valid_ip_array j = true -> blob_wf 16 (Anchors.ip_bytes j).
Proof.
  destruct j as [| |l| |]; try done. cbn [Anchors.valid_ip_array Anchors.ip_bytes]. rewrite andb_true_iff. intros [Hl%Nat.eqb_eq _].
  split; [by rewrite length_fmap|]. apply Forall_fmap, Forall_forall. intros j _. cbn. unfold byte_ok.
  destruct j as [z| | | |]; try lia. apply Z.mod_pos_bound. lia.
Qed.

Lemma load_anchor_wf j a : Anchors.load_anchor j = Some a -> addr_wf a.
Proof.
  unfold Anchors.load_anchor. destruct j as [| | |l|]; try done.
  destruct (Persist.assoc "ip" l), (Persist.assoc "port" l), (Persist.assoc "services" l); try done.
  destruct (Anchors.valid_ip_array j) eqn:Ev; [|done]. cbn [negb]. destruct (_ || _); [done|].
  destruct j0, j1; try done. intros [= <-]. split_and!; [apply u64_range|by apply valid_ip_bytes|apply Z.mod_pos_bound; lia].
Qed.

Lemma load_loop_bound l acc : (length acc < 2)%nat -> Forall addr_wf acc ->
  (length (Anchors.load_loop l acc) <= 2)%nat /\ Forall addr_wf (Anchors.load_loop l acc).
Proof.
  revert acc. induction l as [|j l IH]; intros acc Hl Hw; cbn [Anchors.load_loop]; [split; [lia|done]|].
  destruct (Anchors.load_anchor j) as [a|] eqn:E; [|by apply IH].
  assert (Hw' : Forall addr_wf (acc ++ [a])) by (apply Forall_app; split; [done|]; by repeat constructor; apply (load_anchor_wf j)).
  rewrite length_app in *. cbn [length] in *. destruct (Nat.eqb_spec (length acc + 1) 2); [rewrite length_app; cbn; split; [lia|done]|].
  apply IH; [rewrite length_app; cbn; lia|done].
Qed.

Lemma load_root_save anchors : (length anchors <= 2)%nat -> Forall addr_wf anchors ->
  Anchors.load_loop (Anchors.save_anchor <$> anchors) [] = anchors.
Proof.
  intros Hl Hw. assert (Hstep : forall x l acc, addr_wf x -> Anchors.load_loop (Anchors.save_anchor x :: l) acc =
    if (length (acc ++ [x]) =? 2)%nat then acc ++ [x] else Anchors.load_loop l (acc ++ [x])).
  { intros x l acc Hx. cbn [Anchors.load_loop]. by rewrite load_save_anchor. }
  destruct anchors as [|a [|b [|]]]; [done|..]; [| |cbn in Hl; lia]; rewrite ?Forall_cons in Hw; rewrite !fmap_cons;
    repeat (rewrite Hstep by apply Hw; cbn [app length Nat.eqb]); done.
Qed.

(** Loading any file gives at most two well-formed addresses. *)
Lemma load_anchors_bound b f : (length (Anchors.LoadAnchors b f).1 <= 2)%nat /\ Forall addr_wf (Anchors.LoadAnchors b f).1.
Proof.
  unfold Anchors.LoadAnchors. repeat case_match; cbn [fst length]; try (split; [lia|constructor]).
  all: apply load_loop_bound; [cbn; lia|constructor].
Qed.

(** C29: the anchors survive a restart.  [GetAnchors] returns up to two addresses of connected READY outbound peers
    that are not feelers, and no other such peer is older, or as old with a lower ping; when the file could be written,
    [LoadAnchors] returns exactly them, in order, and removes the file, so that they are used once.  Whatever a file contains, at
    most two well-formed addresses are loaded. *)
Theorem anchors_survive_restart (L : PeerLifecycleManager) (w : Anchors.write_result) (f f' : file) (b : bool) :
  peers_sized L -> w = Anchors.Renamed \/ w = Anchors.RenamedAfterRemove ->
  (exists chosen rest, chosen ++ rest ≡ₚ Anchors.anchor_candidates env L /\
     Anchors.GetAnchors env shuffle L = a_addr <$> chosen /\
     length chosen = Nat.min 2 (length (Anchors.anchor_candidates env L)) /\
     forall c d, c ∈ chosen -> d ∈ rest -> Anchors.better d c = false) /\
  (forall c, c ∈ Anchors.anchor_candidates env L <-> exists id e, peer_states_ L !! id = Some e /\ Life.is_inbound e = false /\ Anchors.candidate env e = Some c) /\
  (Anchors.GetAnchors env shuffle L <> [] ->
   exists saved, Anchors.SaveAnchors env shuffle w f L = (true, saved) /\
     Anchors.LoadAnchors true saved = (Anchors.GetAnchors env shuffle L, NotFound) /\
     Anchors.LoadAnchors true NotFound = ([], NotFound)) /\
  (length (Anchors.LoadAnchors b f').1 <= 2)%nat /\ Forall addr_wf (Anchors.LoadAnchors b f').1.
Proof.
  intros Hs Hw. split; [|split; [|split; [|apply load_anchors_bound]]].
  - set (l := merge_sort Anchors.anchor_le (shuffle (Anchors.anchor_candidates env L))).
    exists (take 2 l), (drop 2 l). rewrite take_drop. split; [apply anchors_perm|]. split; [apply anchors_take|].
    split; [rewrite length_take; unfold l; by rewrite anchors_perm|]. intros c d Hc Hd.
    pose proof (StronglySorted_merge_sort Anchors.anchor_le (shuffle (Anchors.anchor_candidates env L))) as Hst. fold l in Hst.
    rewrite <- (take_drop 2 l) in Hst. exact (StronglySorted_app_1_elem_of _ _ _ _ _ Hst Hc Hd).
  - intros c. apply anchor_candidates_elem.
  - intros Hne. unfold Anchors.SaveAnchors. destruct (Anchors.GetAnchors env shuffle L) as [|a l] eqn:E; [done|].
    exists (Parsed (Anchors.save_root (a :: l))). split; [by destruct Hw as [-> | ->]|]. split; [|done].
    rewrite <- E. cbn [Anchors.LoadAnchors Anchors.save_root Bans.value Persist.assoc String.eqb Ascii.eqb Bool.eqb].
    rewrite i32_id by (unfold in_s; lia). rewrite load_root_save; [done| |by apply anchors_wf].
    rewrite anchors_take, length_fmap, length_take. unfold Anchors.MAX_ANCHORS. lia.
Qed.
End Laws.

(** ** Witness: three outbound peers, the youngest of which is not saved *)

Definition anchor_peer (p connected : Z) : PeerEntry :=
  mkEntry (PeerM.with_state READY (PeerM.with_stats (fun s => mkStats 0 0 0 0 connected 0 0 20)
      (PeerM.create_outbound (env_at 1000) 5 (Some (mkConn true (str "10.0.0.2") p)) 1 0 (str "10.0.0.2") p OUTBOUND)))
    0 false (Mis.new_data 0 (str "10.0.0.2")) (mkGossip false ∅).
Definition anchor_node : PeerLifecycleManager :=
  Life.with_peers (fun _ => <[0 := anchor_peer 9590 100]> (<[1 := anchor_peer 9591 900]> {[2 := anchor_peer 9592 200]})) node_start.

Lemma anchors_survive_restart_witness : exists saved l,
  @Anchors.SaveAnchors gossip_asio (env_at 1000) (rev (A := _)) Anchors.Renamed NotFound anchor_node = (true, saved) /\
  Anchors.LoadAnchors true saved = (l, NotFound) /\ port <$> l = [9590; 9592].
Proof.
  destruct (@anchors_survive_restart gossip_asio asio_lawful (env_at 1000) (rev (A := _)) (fun l => symmetry (Permutation_rev l)) anchor_node
    Anchors.Renamed NotFound NotFound true) as (_ & _ & Hsave & _).
  - apply (bool_decide_unpack _). by vm_compute.
  - by left.
  - destruct Hsave as (saved & H1 & H2 & _); [by vm_compute|]. exists saved, (@Anchors.GetAnchors gossip_asio (env_at 1000) (rev (A := _)) anchor_node).
    split; [exact H1|]. split; [exact H2|]. by vm_compute.
Defined.
