(* ===== verification/Node.v ===== *)
(** * Node: the network manager and the application around the managers

    [network/network_manager.cpp], [network/message_dispatcher.cpp], [network/blockchain_sync_manager.cpp] and the
    notification callbacks of [application.cpp]: one state that holds the peers, the chain and the synchronisation state, and the
    steps of the network thread on it.  Each manager works on its view of the shared per-peer state, and
    its result is written back.  Sockets, timers and threads are outside: a step is given the clock readings and
    random numbers it uses.  [None] is a failed assertion. *)
From stdpp Require Import gmap sorting strings.
From S2P Require Import Prelude Arith Bytes Compact Sha256 Block BlockIndex Chain ChainParams Pow RandomX Validation.
From S2P Require Import ChainSelector BlockManager Persist Chainstate Activation Protocol Message Misbehavior HeaderSync.
From S2P Require Import Peer AddrMan Discovery Relay Ban Lifecycle.
From S2P Require Import MessageProps AddrManProps DiscoveryProps LifecycleProps Anchors.
#[local] Open Scope Z_scope.

Record NetworkManager := mkNet {
  running_ : bool;
  local_nonce : Z;
  peer_manager_ : PeerLifecycleManager;
  queues_ : gmap Z Announce;        (** the block-relay members of the per-peer state *)
  sync_ : SyncState;
  batch_ : nat;
  chain_ : Chainstate;
  anchors_file_ : file
}.

Inductive net_effect :=
| NPeer (peer_id : Z) (e : effect)      (** what a peer object does *)
| NLife (e : life_effect)
| NChain (e : event)
| NInvalidateTemplate.

(** The readings of a step, and whether it can write the ban list. *)
Record Readings := mkRead { r_env : Env; r_clock : nat -> Z * Z; r_rng : Random; r_addr_rng : Random; r_write_ok : bool }.

(** ** The dispatcher *)

Module Dispatcher.

Definition command_le (a b : list Z) : Prop := Proto.array_lt b a = false.
#[global] Instance command_le_dec a b : Decision (command_le a b).
Proof. unfold command_le. apply _. Defined.

Section Dispatcher.
Context {H : Type}.

Definition handlers : Type := gmap (list Z) H.
Definition RegisterHandler (command : list Z) (handler : H) (hs : handlers) : handlers := <[command := handler]> hs.
Definition UnregisterHandler (command : list Z) (hs : handlers) : handlers := delete command hs.
Definition HasHandler (command : list Z) (hs : handlers) : bool := bool_decide (is_Some (hs !! command)).
(** Sorted as strings. *)
Definition GetRegisteredCommands (hs : handlers) : list (list Z) := merge_sort command_le ((map_to_list hs).*1).

(** [Dispatch]: the handler's result, or [refused] when there is none. *)
Definition Dispatch {R : Type} (command : list Z) (run : H -> R) (refused : R) (hs : handlers) : R :=
  match hs !! command with
  | None => refused
  | Some handler => run handler
  end.
End Dispatcher.
End Dispatcher.

Module Net.
Section Net.
Context `{HeaderChecks} `{Proto.BoostAsio} `{HashOrder} (host : Endian.host) (params : ChainParams).
Context (rd : Readings).

Definition now : Z := wall_time (r_env rd).

(** Single-field updates. *)
Definition with_life f N := mkNet (running_ N) (local_nonce N) (f (peer_manager_ N)) (queues_ N) (sync_ N) (batch_ N) (chain_ N) (anchors_file_ N).
Definition with_queues x N := mkNet (running_ N) (local_nonce N) (peer_manager_ N) x (sync_ N) (batch_ N) (chain_ N) (anchors_file_ N).
Definition with_chain x N := mkNet (running_ N) (local_nonce N) (peer_manager_ N) (queues_ N) (sync_ N) (batch_ N) x (anchors_file_ N).
Definition with_running x N := mkNet x (local_nonce N) (peer_manager_ N) (queues_ N) (sync_ N) (batch_ N) (chain_ N) (anchors_file_ N).
Definition with_file x N := mkNet (running_ N) (local_nonce N) (peer_manager_ N) (queues_ N) (sync_ N) (batch_ N) (chain_ N) x.

(** ** Views of the managers *)

Definition peers (N : NetworkManager) : gmap Z PeerEntry := Lifecycle.peer_states_ (peer_manager_ N).
Definition as_sync (N : NetworkManager) : SyncManager :=
  mkSync (chain_ N) (Life.mis_view <$> peers N) (sync_ N) (batch_ N) (shutting_down_ (peer_manager_ N)).

Definition is_ready (e : PeerEntry) : bool := PeerM.is_connected (peer e) && bool_decide (state_ (peer e) = READY).
Definition announce_view (queues : gmap Z Announce) (id : Z) (e : PeerEntry) : option Announce :=
  let a := default Relay.new_peer (queues !! id) in
  Some (mkAnn (is_ready e) (inv_queue a) (last_announced_block a) (last_announce_time_s a)).
Definition as_relay (N : NetworkManager) : BlockRelayManager := mkRelay (as_sync N) (map_imap (announce_view (queues_ N)) (peers N)).

(** What the synchronisation manager changed in an entry. *)
Definition put_entry (seen : Mis.peer_map) (id : Z) (e : PeerEntry) : option PeerEntry :=
  Some (match seen !! id with
        | Some s => mkEntry (peer e) (created_at e) (Mis.sync_started s) (Mis.misbehavior s) (gossip_ e)
        | None => e
        end).
Definition put_sync (n' : SyncManager) (N : NetworkManager) : NetworkManager :=
  mkNet (running_ N) (local_nonce N) (Life.with_peers (map_imap (put_entry (HeaderSync.peer_states_ n'))) (peer_manager_ N))
    (queues_ N) (sync_state_ n') (last_batch_size_ n') (chainstate_manager_ n') (anchors_file_ N).

(** What the discovery manager changed. *)
Definition put_gossip (d : DiscoveryManager) (id : Z) (e : PeerEntry) : option PeerEntry :=
  Some (mkEntry (peer e) (created_at e) (sync_started_ e)
    (from_option Mis.misbehavior (Lifecycle.misbehavior_ e) (Discovery.misbehavior_ d !! id))
    (default (gossip_ e) (Discovery.peer_states_ d !! id))).
Definition put_discovery (d : DiscoveryManager) (N : NetworkManager) : NetworkManager :=
  with_life (fun L => mkLife (config_ L) (map_imap (put_gossip d) (Lifecycle.peer_states_ L)) (next_peer_id_ L) (shutting_down_ L) (stopping_all_ L)
    (ban_manager_ L) (Discovery.addr_manager_ d) (Discovery.recent_addrs_ d) (Discovery.stats_ d)) N.

(** ** Effects *)

(** [send_message] on the peer object of an entry. *)
Definition send_to (id : Z) (msg : Message) (N : NetworkManager) : NetworkManager * list net_effect :=
  match peers N !! id with
  | None => (N, [])
  | Some e =>
      let '(p, o) := PeerM.send_message host (r_env rd) msg (peer e) in
      (with_life (Life.with_peers (insert id (Life.with_peer (fun _ => p) e))) N, NPeer id <$> o)
  end.

(** [OnPeerDisconnected] of the synchronisation manager, for every removal that was published. *)
Definition heard (e : life_effect) (N : NetworkManager) : NetworkManager :=
  match e with
  | NotifyPeerDisconnected id _ _ _ _ => put_sync (Sync.OnPeerDisconnected (u64 id) (as_sync N)) N
  | _ => N
  end.
Definition run_life (f : PeerLifecycleManager -> PeerLifecycleManager * list life_effect) (N : NetworkManager)
  : NetworkManager * list net_effect :=
  let '(L, o) := f (peer_manager_ N) in
  (foldl (fun N e => heard e N) (with_life (fun _ => L) N) o, NLife <$> o).

(** [remove_peer] called by the synchronisation manager, which has already reset its own state; the peer's
    address is discouraged when its score asked for it. *)
Definition drop_peer (id : Z) (discouraged : option (list Z)) (N : NetworkManager) : NetworkManager * list net_effect :=
  let N := match discouraged with
           | Some a => with_life (Life.with_bans (Bans.Discourage now (Life.normalize_ip_string a))) N
           | None => N
           end in
  (with_life (Life.with_peers (delete id)) N, [NLife (DisconnectPeer id)]).

(** *** The callbacks of the application *)

Definition MAX_BLOCK_RELAY_AGE : Z := 10.

Fixpoint send_all (l : list output) (N : NetworkManager) : NetworkManager * list net_effect :=
  match l with
  | Send id msg :: l => let '(N, o) := send_to id msg N in let '(N, o') := send_all l N in (N, o ++ o')
  | _ :: l => send_all l N
  | [] => (N, [])
  end.
Definition relay_block (hash : uint256) (N : NetworkManager) : NetworkManager * list net_effect :=
  let '(r, out) := Relay.RelayBlock now hash (as_relay N) in send_all out (with_queues (relay_peers_ r) N).
Definition announce_tip_to_peers (N : NetworkManager) : NetworkManager :=
  with_queues (relay_peers_ (Relay.AnnounceTipToAllPeers now (as_relay N))) N.
Definition announce_tip_to_peer (peer_id : Z) (N : NetworkManager) : NetworkManager :=
  with_queues (relay_peers_ (Relay.AnnounceTipToPeer now peer_id (as_relay N))) N.
Definition flush_block_announcements (N : NetworkManager) : NetworkManager * list net_effect :=
  let '(r, out) := Relay.FlushBlockAnnouncements (as_relay N) in send_all out (with_queues (relay_peers_ r) N).

(** [block_sub_] and [tip_sub_]. *)
Definition on_block_connected (pindex : block_ptr) (N : NetworkManager) : NetworkManager * list net_effect :=
  let '(in_ibd, c) := Act.IsInitialBlockDownload params now (chain_ N) in
  let N := with_chain c N in
  if in_ibd then (N, [])
  else
    let block_age := i64 (now - deref Idx.nTimeReceived 0 (CS.index (chain_ N)) pindex) in
    if block_age <? MAX_BLOCK_RELAY_AGE then relay_block pindex N else (N, []).
Definition on_chain_tip (N : NetworkManager) : NetworkManager * list net_effect := (announce_tip_to_peers N, [NInvalidateTemplate]).
Definition on_chain_event (e : event) (N : NetworkManager) : NetworkManager * list net_effect :=
  let '(N, o) := match e with
                 | BlockConnected _ pindex _ => on_block_connected pindex N
                 | ChainTip _ _ => on_chain_tip N
                 | BlockDisconnected _ _ _ => (N, [])
                 end in (N, NChain e :: o).

(** The outputs of the synchronisation manager, in order. *)
Fixpoint perform (out : list output) (N : NetworkManager) : NetworkManager * list net_effect :=
  match out with
  | [] => (N, [])
  | x :: out =>
      let '(N, o) := match x with
                     | Send id msg => send_to id msg N
                     | Removed id discouraged => drop_peer id discouraged N
                     | Notify e => on_chain_event e N
                     end in
      let '(N, o') := perform out N in (N, o ++ o')
  end.
Definition after_sync (n' : SyncManager) (out : list output) (N : NetworkManager) : NetworkManager * list net_effect :=
  perform out (put_sync n' N).

(** ** Message handlers *)

Definition result : Type := option (bool * NetworkManager * list net_effect).
Definition handler : Type := Peer -> Z -> Message -> NetworkManager -> result.

(** [peer->disconnect()] on the network thread: the peer object [p], which is that of the entry while the peer is in the map,
    disconnects at once. *)
Definition disconnect_peer (p : Peer) (id : Z) (N : NetworkManager) : NetworkManager * list net_effect :=
  match peers N !! id with
  | None => (N, NPeer id <$> (PeerM.do_disconnect p).2)
  | Some e =>
      let '(p, o) := PeerM.do_disconnect (peer e) in
      (with_life (Life.with_peers (insert id (Life.with_peer (fun _ => p) e))) N, NPeer id <$> o)
  end.

(** The gate before the handshake is complete: the peer is disconnected. *)
Definition gated (body : NetworkManager -> result) (p : Peer) (id : Z) (N : NetworkManager) : result :=
  if negb (successfully_connected_ p) then let '(N, o) := disconnect_peer p id N in Some (false, N, o) else body N.

Definition peer_ref (p : Peer) (id : Z) : PeerRef :=
  mkRef id (successfully_connected_ p) (is_inbound_ (cfg p)) (PeerM.is_connected p) (PeerM.address p) (PeerM.port p).

(** What the VERACK handler makes the peer do. *)
Fixpoint react (p : Peer) (id : Z) (l : list reaction) (N : NetworkManager) : NetworkManager * list net_effect :=
  match l with
  | [] => (N, [])
  | r :: l =>
      let '(N, o) := match r with
                     | SendBack msg => send_to id msg N
                     | Disconnect => disconnect_peer p id N
                     | MarkGetaddrSent => (with_life (Life.with_peers (alter (Life.with_peer (PeerM.with_getaddr true)) id)) N, [])
                     end in
      let '(N, o') := react p id l N in (N, o ++ o')
  end.

Definition on_verack : handler := fun p id _ N =>
  match Life.HandleVerack p with
  | None => None
  | Some l => let '(N, o) := react p id l N in Some (true, N, o)
  end.

Fixpoint after_gossip (out : list gossip_output) (N : NetworkManager) : NetworkManager * list net_effect :=
  match out with
  | [] => (N, [])
  | x :: out =>
      let '(N, o) := match x with
                     | SendAddr id l => send_to id (MAddr l) N
                     | RemovePeer id => run_life (Life.remove_peer now id) N
                     end in
      let '(N, o') := after_gossip out N in (N, o ++ o')
  end.
Definition on_addr : handler := fun p id msg N =>
  match msg with
  | MAddr addresses =>
      let '(ok, d, out) := Disc.HandleAddr now (peer_ref p id) addresses (Life.as_discovery (peer_manager_ N)) in
      (* the score of a peer that is removed is that of the report *)
      let d := match out with
               | [] => d
               | _ => Disc.with_scores (fun _ => Mis.ReportOversizedMessage id (Discovery.misbehavior_ (Life.as_discovery (peer_manager_ N)))) d
               end in
      let '(N, o) := after_gossip out (put_discovery d N) in Some (ok, N, o)
  | _ => Some (false, N, [])
  end.
Definition on_getaddr : handler := fun p id _ N =>
  let '(ok, d, out) := Disc.HandleGetAddr (r_rng rd) (r_addr_rng rd) now (peer_ref p id) (Life.as_discovery (peer_manager_ N)) in
  let '(N, o) := after_gossip out (put_discovery d N) in Some (ok, N, o).

(** The forwarding functions of [BlockchainSyncManager]. *)
Definition HandleInv (p : Peer) (id : Z) (inventory : list Proto.InventoryVector) (N : NetworkManager) : result :=
  match Relay.HandleInvMessage params now id (is_inbound_ (cfg p)) inventory (as_sync N) with
  | None => None
  | Some (ok, n', out) => let '(N, o) := after_sync n' out N in Some (ok, N, o)
  end.
Definition HandleHeaders (id : Z) (headers : list CBlockHeader) (N : NetworkManager) : result :=
  match Sync.HandleHeadersMessage params now (r_clock rd) id headers (as_sync N) with
  | None => None
  | Some (ok, n', out) => let '(N, o) := after_sync n' out N in Some (ok, N, o)
  end.
Definition HandleGetHeaders (id : Z) (msg : GetHeadersMessage) (N : NetworkManager) : result :=
  match Sync.HandleGetHeadersMessage id msg (as_sync N) with
  | None => None
  | Some (ok, out) => let '(N, o) := perform out N in Some (ok, N, o)
  end.

Definition on_inv : handler := fun p id msg N =>
  match msg with MInv inventory => gated (HandleInv p id inventory) p id N | _ => Some (false, N, []) end.
Definition on_headers : handler := fun p id msg N =>
  match msg with MHeaders headers => gated (HandleHeaders id headers) p id N | _ => Some (false, N, []) end.
Definition on_getheaders : handler := fun p id msg N =>
  match msg with MGetHeaders m => gated (HandleGetHeaders id m) p id N | _ => Some (false, N, []) end.

(** The registrations of the constructor. *)
Definition message_dispatcher_ : Dispatcher.handlers :=
  Dispatcher.RegisterHandler Proto.GETHEADERS on_getheaders
  (Dispatcher.RegisterHandler Proto.HEADERS on_headers
  (Dispatcher.RegisterHandler Proto.INV on_inv
  (Dispatcher.RegisterHandler Proto.GETADDR on_getaddr
  (Dispatcher.RegisterHandler Proto.ADDR on_addr
  (Dispatcher.RegisterHandler Proto.VERACK on_verack ∅))))).

(** [handle_message]. *)
Definition handle_message (p : Peer) (id : Z) (msg : Message) (N : NetworkManager) : result :=
  if negb (running_ N) then Some (false, N, [])
  else
    let dispatch :=
      Dispatcher.Dispatch (Msg.command msg) (fun handler : handler => handler p id msg N) (Some (false, N, [])) message_dispatcher_ in
    match msg with
    | MVersion m =>
        if negb (Life.CheckIncomingNonce (nonce m) (local_nonce N) (peer_manager_ N)) then
          let '(N, o1) := disconnect_peer p id N in
          let '(N, o2) := run_life (Life.remove_peer now id) N in Some (false, N, o1 ++ o2)
        else dispatch
    | _ => dispatch
    end.

(** ** Periodic tasks *)

Definition check_initial_sync (N : NetworkManager) : option (NetworkManager * list net_effect) :=
  match Sync.CheckInitialSync now (as_sync N) with
  | None => None
  | Some (n', out) => Some (after_sync n' out N)
  end.

Definition run_maintenance (N : NetworkManager) : option (NetworkManager * list net_effect) :=
  if negb (running_ N) then Some (N, [])
  else
    let '(N, o1) := run_life (Life.process_periodic (r_env rd)) N in
    let '(n', out) := Sync.ProcessTimers now (as_sync N) in
    let '(N, o2) := after_sync n' out N in
    let N := with_life (Life.with_bans (fun b => Bans.SweepDiscouraged now (Bans.SweepBanned now (r_write_ok rd) b))) N in
    let N := announce_tip_to_peers N in
    match check_initial_sync N with
    | None => None
    | Some (N, o3) => Some (N, o1 ++ o2 ++ o3)
    end.

Definition run_sendmessages (N : NetworkManager) : option (NetworkManager * list net_effect) :=
  if negb (running_ N) then Some (N, [])
  else match check_initial_sync N with
  | None => None
  | Some (N, o1) => let '(N, o2) := flush_block_announcements N in Some (N, o1 ++ o2)
  end.

(** [disconnect_from]. *)
Definition disconnect_from (peer_id : Z) (N : NetworkManager) : bool * NetworkManager * list net_effect :=
  match peers N !! peer_id with
  | None => (false, N, [])
  | Some _ => let '(N, o) := run_life (Life.remove_peer now peer_id) N in (true, N, o)
  end.

(** ** Starting and stopping *)

Section Connections.
Context (process_nonce network_magic : Z).

(** The connection callbacks: an accepted connection, the connect timer and the feeler timer. *)
Definition chain_height (N : NetworkManager) : Z := CChain.Height (CS.active (chain_ N)).
Definition on_inbound (conn : option Connection) (permissions : Z) (N : NetworkManager) : NetworkManager * list net_effect :=
  run_life (Life.HandleInboundConnection host (r_env rd) process_nonce network_magic (chain_height N) (local_nonce N) (running_ N) conn permissions) N.
Definition on_connect_timer (rng : nat -> Random) (conns : nat -> option Connection) (N : NetworkManager) : NetworkManager * list net_effect :=
  if negb (running_ N) then (N, [])
  else run_life (Life.AttemptOutboundConnections (r_env rd) process_nonce network_magic (chain_height N) (local_nonce N) (running_ N) rng conns) N.
Definition on_feeler_timer (rng : Random) (conn : option Connection) (N : NetworkManager) : NetworkManager * list net_effect :=
  if negb (running_ N) then (N, [])
  else run_life (Life.AttemptFeelerConnection (r_env rd) process_nonce network_magic (chain_height N) (local_nonce N) (running_ N) rng conn) N.

(** [start], with [Start] of the discovery manager: the anchors of the last run, then the fixed seeds when no address is known.
    [datadir] tells whether a data directory is configured. *)
Definition start (datadir remove_ok : bool) (fixed_seeds : list (list Z)) (conns : nat -> option Connection) (N : NetworkManager)
  : bool * NetworkManager * list net_effect :=
  if running_ N then (false, N, [])
  else
    let N := with_running true N in
    let '(anchors, f) := if datadir then Anchors.LoadAnchors remove_ok (anchors_file_ N) else ([], anchors_file_ N) in
    let N := with_file f N in
    let '(N, o) := match anchors with
                   | [] => (N, [])
                   | _ => run_life (Life.ConnectToAnchors (r_env rd) process_nonce network_magic (chain_height N) (local_nonce N) (running_ N) anchors conns) N
                   end in
    let d := Disc.Start now fixed_seeds (Life.as_discovery (peer_manager_ N)) in
    (true, with_life (Life.with_addrs (fun _ => Discovery.addr_manager_ d)) N, o).

(** [stop]: the anchors are saved while the peers are connected; then all are disconnected without notifications. *)
Definition stop (datadir : bool) (shuffle : list AnchorCandidate -> list AnchorCandidate) (w : Anchors.write_result) (N : NetworkManager)
  : NetworkManager * list net_effect :=
  if negb (running_ N) then (N, [])
  else
    let N := with_running false N in
    let N := if datadir then with_file (Anchors.SaveAnchors (r_env rd) shuffle w (anchors_file_ N) (peer_manager_ N)).2 N else N in
    run_life (Life.disconnect_all (r_env rd)) (with_life (Life.with_shutting true) N).
End Connections.
End Net.
End Net.
