(* ===== verification/NodeProps.v ===== *)
(** * NodeProps: the managers together

    Whatever peers send and however the tasks of the network thread interleave, the chain state stays in its invariant, the
    tip never loses work and the connection limits hold; messages before the handshake have no effect. *)
From stdpp Require Import gmap sorting strings.
From S2P Require Import Prelude Arith Bytes Compact Sha256 Block BlockIndex Chain ChainParams Pow RandomX Validation.
From S2P Require Import ChainSelector BlockManager SameTree Persist Chainstate OrphanPool Accept Activation NodeChecks Reorg ChainstateProps.
From S2P Require Import Protocol Message MessageProps Misbehavior HeaderSync HeaderSyncProps SyncPeers Peer PeerProps AddrMan AddrManProps Discovery DiscoveryProps.
From S2P Require Import Relay RelayProps Ban Lifecycle LifecycleProps Anchors Node.
#[local] Open Scope Z_scope.
Import CS.
Import Idx (nHeight, nChainWork).

#[local] Existing Instance same_peer_preorder.

(** ** Fewer peers, or the same ones in another state *)

Record shrinks (L L' : PeerLifecycleManager) : Prop := {
  sh_config : config_ L' = config_ L;
  sh_peers id e' : Lifecycle.peer_states_ L' !! id = Some e' ->
    exists e, Lifecycle.peer_states_ L !! id = Some e /\ same_peer (peer e) (peer e')
}.
#[export] Instance shrinks_preorder : PreOrder shrinks.
Proof.
  split; [intros L; split; [done|]; intros id e He; exists e; split; [done|reflexivity]|].
  intros A B C [H1 H2] [H3 H4]. split; [congruence|]. intros id e'' He''. destruct (H4 id e'' He'') as (e' & He' & S2).
  destruct (H2 id e' He') as (e & He & S1). exists e. split; [done|by etrans].
Qed.

Lemma count_shrinks (f : PeerEntry -> bool) m m' : (forall id e', m' !! id = Some e' -> exists e, m !! id = Some e /\ f e' = f e) ->
  (Life.count f m' <= Life.count f m)%nat.
Proof.
  intros Hm. unfold Life.count. rewrite <- !size_dom. apply subseteq_size. intros id. rewrite !elem_of_dom.
  intros [e' [He' Hf]%map_lookup_filter_Some]. destruct (Hm id e' He') as (e & He & E). exists e. apply map_lookup_filter_Some. split; [done|congruence].
Qed.

Lemma shrinks_limits `{Proto.BoostAsio} L L' : shrinks L L' -> limits L -> limits L'.
Proof.
  intros [Hc Hp] [H1 H2 H3 H4].
  assert (Hall : forall id e', Lifecycle.peer_states_ L' !! id = Some e' -> exists e, Lifecycle.peer_states_ L !! id = Some e /\ entry_ok e' /\
    Life.is_inbound e' = Life.is_inbound e /\ Life.is_feeler e' = Life.is_feeler e /\
    (Life.is_inbound e = true -> PeerM.address (peer e') = PeerM.address (peer e))).
  { intros id e' He'. destruct (Hp id e' He') as (e & He & Hs). exists e. split; [done|]. by apply same_entry_ok, (H4 id). }
  split; rewrite ?Hc.
  - etrans; [|exact H1]. apply inj_le, count_shrinks. intros id e' (e & ? & _ & ? & _)%Hall. by exists e.
  - etrans; [|exact H2]. apply inj_le, count_shrinks. intros id e' (e & ? & _ & Hi & Hf & _)%Hall. exists e. by rewrite Hi, Hf.
  - intros a. etrans; [|apply (H3 a)]. apply count_shrinks. intros id e' (e & ? & _ & Hi & _ & Ha)%Hall. exists e. rewrite Hi.
    destruct (Life.is_inbound e); [by rewrite Ha|done].
  - intros id e' (e & ? & ? & _)%Hall. done.
Qed.

(** Updates that keep the peer objects. *)
Lemma shrinks_imap (f : Z -> PeerEntry -> option PeerEntry) L L' : config_ L' = config_ L ->
  Lifecycle.peer_states_ L' = map_imap f (Lifecycle.peer_states_ L) -> (forall id e e', f id e = Some e' -> same_peer (peer e) (peer e')) -> shrinks L L'.
Proof.
  intros Hc Hp Hf. split; [done|]. intros id e' He'. rewrite Hp, map_lookup_imap in He'.
  destruct (Lifecycle.peer_states_ L !! id) as [e|] eqn:E; [|done]. exists e. split; [done|by eapply Hf].
Qed.
Lemma shrinks_insert L id e p : Lifecycle.peer_states_ L !! id = Some e -> same_peer (peer e) p ->
  shrinks L (Life.with_peers (insert id (Life.with_peer (fun _ => p) e)) L).
Proof.
  intros He Hs. split; [done|]. intros i e' Hi. cbn in Hi. apply lookup_insert_Some in Hi as [[<- <-]|[_ Hi]]; [by exists e|]. exists e'. split; [done|reflexivity].
Qed.
Lemma shrinks_sub L L' : config_ L' = config_ L -> Lifecycle.peer_states_ L' ⊆ Lifecycle.peer_states_ L -> shrinks L L'.
Proof. intros Hc Hs. split; [done|]. intros id e He. exists e. split; [by eapply lookup_weaken|reflexivity]. Qed.

(** ** Steps that leave the chain alone *)

(** Only the latch of the initial download may change in the chain. *)
Definition latched (c c' : Chainstate) : Prop := c' = c \/ c' = with_ibd true c.
#[export] Instance latched_preorder : PreOrder latched.
Proof. split; [by left|]. intros a b c [-> | ->] [-> | ->]; [by left|by right..|]. right. by destruct a. Qed.

Record quiet (N N' : NetworkManager) : Prop := {
  qu_chain : latched (chain_ N) (chain_ N');
  qu_life : shrinks (peer_manager_ N) (peer_manager_ N');
  qu_running : running_ N' = running_ N
}.
#[export] Instance quiet_preorder : PreOrder quiet.
Proof. split; [intros N; split; done || reflexivity|]. intros A B C [] []. split; [by etrans..|congruence]. Qed.

Lemma ibd_latches params t c : latched c (snd (Act.IsInitialBlockDownload params t c)).
Proof. unfold Act.IsInitialBlockDownload. repeat case_match; cbn; first [by left|by right]. Qed.

Section Frames.
Context `{HeaderChecks} `{Proto.BoostAsio} `{HashOrder} (host : Endian.host) (params : ChainParams) (rd : Readings).
Implicit Types (N : NetworkManager).

Lemma quiet_life N f : shrinks (peer_manager_ N) (f (peer_manager_ N)) -> quiet N (Net.with_life f N).
Proof. by split. Qed.

Lemma quiet_send id msg N : quiet N (Net.send_to host rd id msg N).1.
Proof.
  unfold Net.send_to, Net.peers. destruct (Lifecycle.peer_states_ (peer_manager_ N) !! id) as [e|] eqn:E; [|done].
  pose proof (linked_send host (r_env rd) msg (peer e)) as Hs. destruct (PeerM.send_message host (r_env rd) msg (peer e)) as [p o].
  apply quiet_life. by apply shrinks_insert.
Qed.

Lemma quiet_send_all l N : quiet N (Net.send_all host rd l N).1.
Proof.
  revert N. induction l as [|x l IH]; intros N; [done|]. destruct x as [id msg| |]; cbn [Net.send_all]; [|apply IH..].
  pose proof (quiet_send id msg N) as Hq. destruct (Net.send_to host rd id msg N) as [N1 o]. specialize (IH N1).
  destruct (Net.send_all host rd l N1) as [N2 o']. by etrans.
Qed.

Lemma quiet_queues x N : quiet N (Net.with_queues x N).
Proof. by split. Qed.

Lemma quiet_relay hash N : quiet N (Net.relay_block host rd hash N).1.
Proof. unfold Net.relay_block. destruct (Relay.RelayBlock _ _ _) as [r out]. etrans; [apply (quiet_queues (relay_peers_ r))|apply quiet_send_all]. Qed.

Lemma quiet_flush N : quiet N (Net.flush_block_announcements host rd N).1.
Proof. unfold Net.flush_block_announcements. destruct (Relay.FlushBlockAnnouncements _) as [r out]. etrans; [apply (quiet_queues (relay_peers_ r))|apply quiet_send_all]. Qed.

Lemma quiet_event e N : quiet N (Net.on_chain_event host params rd e N).1.
Proof.
  unfold Net.on_chain_event. destruct e as [h p i|h p i|p i]; [|done|by split].
  unfold Net.on_block_connected. pose proof (ibd_latches params (Net.now rd) (chain_ N)) as Hl.
  destruct (Act.IsInitialBlockDownload params (Net.now rd) (chain_ N)) as [ibd c]. cbn [snd] in Hl.
  assert (Hq : quiet N (Net.with_chain c N)) by by split.
  destruct ibd; [done|]. cbv zeta. destruct (_ <? _); [|done]. etrans; [exact Hq|].
  pose proof (quiet_relay p (Net.with_chain c N)) as Hr. by destruct (Net.relay_block host rd p (Net.with_chain c N)).
Qed.

Lemma quiet_drop id a N : quiet N (Net.drop_peer rd id a N).1.
Proof. destruct a; (split; [done| |done]); apply shrinks_sub; try done; apply delete_subseteq. Qed.

Lemma quiet_perform out N : quiet N (Net.perform host params rd out N).1.
Proof.
  revert N. induction out as [|x out IH]; intros N; [done|]. cbn [Net.perform].
  assert (Hx : quiet N (match x with Send id msg => Net.send_to host rd id msg N | Removed id a => Net.drop_peer rd id a N
    | Notify e => Net.on_chain_event host params rd e N end).1) by (destruct x; [apply quiet_send|apply quiet_drop|apply quiet_event]).
  destruct (match x with Send _ _ => _ | Removed _ _ => _ | Notify _ => _ end) as [N1 o]. specialize (IH N1).
  destruct (Net.perform host params rd out N1) as [N2 o']. by etrans.
Qed.

Lemma put_sync_shrinks n' N : shrinks (peer_manager_ N) (peer_manager_ (Net.put_sync n' N)).
Proof.
  eapply shrinks_imap; [done|done|]. intros id e e' [= <-]. by destruct (_ !! id).
Qed.
Lemma put_sync_chain n' N : chain_ (Net.put_sync n' N) = chainstate_manager_ n'.
Proof. done. Qed.

Lemma quiet_put n' N : latched (chain_ N) (chainstate_manager_ n') -> quiet N (Net.put_sync n' N).
Proof. intros Hc. split; [by rewrite put_sync_chain|apply put_sync_shrinks|done]. Qed.

Lemma quiet_after n' out N : latched (chain_ N) (chainstate_manager_ n') -> quiet N (Net.after_sync host params rd n' out N).1.
Proof. intros Hc. etrans; [by apply (quiet_put n')|apply quiet_perform]. Qed.

Lemma quiet_heard e N : quiet N (Net.heard e N).
Proof.
  destruct e as [| id ? ? ? ?| | |]; try done. apply quiet_put. unfold Sync.OnPeerDisconnected. by destruct (_ =? _); left.
Qed.
Lemma quiet_hear o N : quiet N (foldl (fun N e => Net.heard e N) N o).
Proof. revert N. induction o as [|e o IH]; intros N; [done|]. cbn. etrans; [apply quiet_heard|apply IH]. Qed.

(** A lifecycle operation: what it does to the peers, then only the synchronisation flags. *)
Lemma run_life_ok f N : let N' := (Net.run_life f N).1 in
  latched (chain_ N) (chain_ N') /\ shrinks (f (peer_manager_ N)).1 (peer_manager_ N') /\ running_ N' = running_ N.
Proof.
  unfold Net.run_life. destruct (f (peer_manager_ N)) as [L o]. cbn [fst].
  destruct (quiet_hear o (Net.with_life (fun _ => L) N)) as [Q1 Q2 Q3]. done.
Qed.
Lemma quiet_run_life f N : shrinks (peer_manager_ N) (f (peer_manager_ N)).1 -> quiet N (Net.run_life f N).1.
Proof. intros Hf. destruct (run_life_ok f N) as (R1 & R2 & R3). split; [done|by etrans|done]. Qed.

Lemma remove_shrinks t id L : shrinks L (Life.remove_peer t id L).1.
Proof. destruct (remove_peer_eq t id L) as (P1 & P2 & _). apply shrinks_sub; [done|]. rewrite P1. apply delete_subseteq. Qed.

(** *** The handlers *)

Lemma quiet_disconnect p id N : quiet N (Net.disconnect_peer p id N).1.
Proof.
  unfold Net.disconnect_peer, Net.peers. destruct (Lifecycle.peer_states_ (peer_manager_ N) !! id) as [e|] eqn:E; [|done].
  pose proof (linked_disconnect (peer e)) as Hs. destruct (PeerM.do_disconnect (peer e)) as [p' o]. apply quiet_life. by apply shrinks_insert.
Qed.

Lemma quiet_react p id l N : quiet N (Net.react host rd p id l N).1.
Proof.
  revert N. induction l as [|r l IH]; intros N; [done|]. cbn [Net.react].
  assert (Hx : quiet N (match r with SendBack msg => Net.send_to host rd id msg N | Disconnect => Net.disconnect_peer p id N
    | MarkGetaddrSent => (Net.with_life (Life.with_peers (alter (Life.with_peer (PeerM.with_getaddr true)) id)) N, []) end).1).
  { destruct r; [apply quiet_send|apply quiet_disconnect|]. apply quiet_life. split; [done|]. intros i e'. cbn. rewrite lookup_alter.
    destruct (decide (id = i)) as [<-|]; [|intros He; exists e'; split; [done|reflexivity]].
    destruct (Lifecycle.peer_states_ (peer_manager_ N) !! id) as [e|]; [|done]. intros [= <-]. exists e. split; [done|]. cbn. destruct (peer e). split; auto. }
  destruct (match r with SendBack _ => _ | Disconnect => _ | MarkGetaddrSent => _ end) as [N1 o]. specialize (IH N1).
  destruct (Net.react host rd p id l N1) as [N2 o']. by etrans.
Qed.

Lemma quiet_gossip out N : quiet N (Net.after_gossip host rd out N).1.
Proof.
  revert N. induction out as [|x out IH]; intros N; [done|]. cbn [Net.after_gossip].
  assert (Hx : quiet N (match x with SendAddr id l => Net.send_to host rd id (MAddr l) N | RemovePeer id => Net.run_life (Life.remove_peer (Net.now rd) id) N end).1)
    by (destruct x; [apply quiet_send|apply quiet_run_life, remove_shrinks]).
  destruct (match x with SendAddr _ _ => _ | RemovePeer _ => _ end) as [N1 o]. specialize (IH N1).
  destruct (Net.after_gossip host rd out N1) as [N2 o']. by etrans.
Qed.

Lemma quiet_put_discovery d N : quiet N (Net.put_discovery d N).
Proof. apply quiet_life. eapply shrinks_imap; [done|done|]. intros id e e' [= <-]. reflexivity. Qed.

(** A handler that changes the chain at most by the latch. *)
Definition quiet_result N (r : Net.result) : Prop := match r with Some (_, N', _) => quiet N N' | None => True end.

Lemma quiet_verack p id msg N : quiet_result N (Net.on_verack host rd p id msg N).
Proof.
  unfold Net.on_verack. destruct (Life.HandleVerack p) as [l|]; [|done]. pose proof (quiet_react p id l N) as Hq. by destruct (Net.react host rd p id _ N).
Qed.

Lemma quiet_addr p id msg N : quiet_result N (Net.on_addr host rd p id msg N).
Proof.
  unfold Net.on_addr. destruct msg; try (by cbn). destruct (Disc.HandleAddr _ _ _ _) as [[ok d] out]. cbv zeta.
  match goal with |- context [Net.put_discovery ?x N] => set (d' := x) end.
  pose proof (quiet_gossip out (Net.put_discovery d' N)) as Hq. destruct (Net.after_gossip host rd out _) as [N1 o]. cbn.
  etrans; [apply (quiet_put_discovery d')|exact Hq].
Qed.

Lemma quiet_getaddr p id msg N : quiet_result N (Net.on_getaddr host rd p id msg N).
Proof.
  unfold Net.on_getaddr. destruct (Disc.HandleGetAddr _ _ _ _ _) as [[ok d] out].
  pose proof (quiet_gossip out (Net.put_discovery d N)) as Hq. destruct (Net.after_gossip host rd out _) as [N1 o]. cbn.
  etrans; [apply (quiet_put_discovery d)|exact Hq].
Qed.

Lemma inv_latches now p inbound inventory n ok n' out : Relay.HandleInvMessage params now p inbound inventory n = Some (ok, n', out) ->
  latched (chainstate_manager_ n) (chainstate_manager_ n').
Proof.
  unfold Relay.HandleInvMessage. rewrite scan_inv_eq.
  assert (Hd : latched (chainstate_manager_ n) (chainstate_manager_ (Relay.decide_request params now p inbound n).2)).
  { destruct (decide_request_ok params now p inbound n) as (n1 & -> & Hc & _). cbn [snd]. rewrite Hc. apply ibd_latches. }
  destruct (existsb _ inventory); [|by intros [= _ <- _]].
  destruct (Relay.decide_request params now p inbound n) as [should n1]. cbn [fst snd] in *. destruct (should && true); [|by intros [= _ <- _]].
  pose proof (ibd_latches params now (chainstate_manager_ n1)) as Hl. destruct (Act.IsInitialBlockDownload params now (chainstate_manager_ n1)) as [ibd c].
  destruct (Sync.RequestHeadersFromPeer p _); [|done]. intros [= _ <- _]. by etrans.
Qed.

Lemma quiet_gated body p id N : quiet_result N (body N) -> quiet_result N (Net.gated body p id N).
Proof.
  intros Hb. unfold Net.gated. destruct (negb _); [|done]. pose proof (quiet_disconnect p id N) as Hq. by destruct (Net.disconnect_peer p id N).
Qed.

Lemma quiet_inv p id msg N : quiet_result N (Net.on_inv host params rd p id msg N).
Proof.
  unfold Net.on_inv. destruct msg; try (by cbn). apply quiet_gated. unfold Net.HandleInv.
  destruct (Relay.HandleInvMessage _ _ _ _ _ _) as [[[ok n'] out]|] eqn:E; [|done]. apply inv_latches in E.
  pose proof (quiet_after n' out N E) as Hq. by destruct (Net.after_sync host params rd n' out N).
Qed.

Lemma quiet_getheaders p id msg N : quiet_result N (Net.on_getheaders host params rd p id msg N).
Proof.
  unfold Net.on_getheaders. destruct msg; try (by cbn). apply quiet_gated. unfold Net.HandleGetHeaders.
  destruct (Sync.HandleGetHeadersMessage _ _ _) as [[ok out]|]; [|done].
  pose proof (quiet_perform out N) as Hq. by destruct (Net.perform host params rd out N).
Qed.
End Frames.

(** ** The whole node *)

Section Safe.
Context `{HeaderChecks} (g : uint256) `{!LawfulChecks g} `{Proto.BoostAsio} `{HashOrder} (host : Endian.host) (params : ChainParams).
Implicit Types (N : NetworkManager) (c : Chainstate).

(** A chain state that goes on from another: the invariant, no loss of work at the tip, no known block changed. *)
Record advances c c' : Prop := {
  av_inv : cs_inv g c';
  av_tip t : tip c = Some t -> exists t', tip c' = Some t' /\ deref nChainWork 0 (index c') t <= deref nChainWork 0 (index c') t';
  av_same q b : index c !! q = Some b -> index c' !! q = Some b
}.

Lemma latched_advances c c' : cs_inv g c -> latched c c' -> advances c c'.
Proof.
  intros Hc [-> | ->].
  - split; [done| |done]. intros t Ht. exists t. split; [done|lia].
  - assert (Hi : cs_inv g (with_ibd true c)).
    { destruct c as [b s o p f i d]. destruct Hc as ([W1 W2 W3 W4 W5 [P1 P2 P3 P4] W7] & Hs & Hi). split_and!; [|done|done].
      split; [done..| |done]. by split. }
    destruct c. split; [done| |done]. intros t Ht. exists t. split; [done|lia].
Qed.

Lemma advances_trans c1 c2 c3 : cs_inv g c1 -> advances c1 c2 -> advances c2 c3 -> advances c1 c3.
Proof.
  intros Hc [A1 A2 A3] [B1 B2 B3]. split; [done| |eauto]. intros t Ht. destruct (A2 t Ht) as (t2 & Ht2 & Hw). destruct (B2 t2 Ht2) as (t3 & Ht3 & Hw').
  exists t3. split; [done|]. destruct (tip_at g c1 t (proj1 Hc) Ht) as (_ & [b Hb] & _). destruct (tip_at g c2 t2 (proj1 A1) Ht2) as (_ & [b2 Hb2] & _).
  rewrite (deref_eq nChainWork 0 _ _ b (A3 _ _ Hb)), (deref_eq nChainWork 0 _ _ b2 Hb2) in Hw.
  rewrite (deref_eq nChainWork 0 _ _ b (B3 _ _ (A3 _ _ Hb))). rewrite (deref_eq nChainWork 0 _ _ b2 (B3 _ _ Hb2)) in Hw'. lia.
Qed.

(** Progress of the node: of its chain, with peers that keep their limits. *)
Record node_ok N : Prop := { no_chain : cs_inv g (chain_ N); no_limits : limits (peer_manager_ N) }.
Record moves N N' : Prop := { mv_chain : advances (chain_ N) (chain_ N'); mv_limits : limits (peer_manager_ N') }.

Lemma quiet_moves N N' : node_ok N -> quiet N N' -> moves N N'.
Proof. intros [Hc Hl] [Q1 Q2 _]. split; [by apply latched_advances|by eapply shrinks_limits]. Qed.
Lemma moves_ok N N' : moves N N' -> node_ok N'.
Proof. intros [[Hc _ _] Hl]. by split. Qed.
Lemma moves_trans N1 N2 N3 : node_ok N1 -> moves N1 N2 -> moves N2 N3 -> moves N1 N3.
Proof. intros [Hc _] [A1 _] [B1 B2]. split; [by eapply advances_trans|done]. Qed.
Lemma quiet_after_moves N1 N2 N3 : node_ok N1 -> moves N1 N2 -> quiet N2 N3 -> moves N1 N3.
Proof. intros Hn Hm Hq. eapply moves_trans; [done|done|]. apply quiet_moves; [by eapply moves_ok|done]. Qed.

(** The work of a header's chain has wrapped around zero. *)
Definition wraps N (msg : Message) : Prop := exists headers, msg = MHeaders headers /\ wrapped g (chain_ N) headers.

(** *** Messages *)

Lemma tip_exists c : cs_inv g c -> exists t, tip c = Some t.
Proof. intros (Hwf & _). destruct (cw_active g c Hwf) as (t & Hk & Ha). exists t. apply (tip_of g); [apply Hwf|done|done]. Qed.

Lemma headers_moves rd p id msg N : node_ok N -> msg_wf msg -> Accept.total (chain_ N) + 2000 <= 2 ^ 31 ->
  match Net.on_headers host params rd p id msg N with
  | Some (_, N', _) => moves N N'
  | None => wraps N msg
  end.
Proof.
  intros Hn Hw Ht. unfold Net.on_headers. destruct msg as [| | | | | | | |headers]; try (by apply quiet_moves). unfold Net.gated.
  destruct (negb _).
  { pose proof (quiet_disconnect p id N) as Hq. destruct (Net.disconnect_peer p id N). by apply quiet_moves. }
  unfold Net.HandleHeaders. destruct Hw as [Hlen Hwf]. destruct (tip_exists _ (no_chain _ Hn)) as [t Htip].
  change Proto.MAX_HEADERS_SIZE with 2000 in Hlen.
  pose proof (handle_headers_ok g params (Net.now rd) (r_clock rd) id headers (Net.as_sync N) t (no_chain _ Hn) Htip Hwf ltac:(cbn; lia)) as Hh.
  destruct (Sync.HandleHeadersMessage _ _ _ _ _ _) as [[[ok n'] out]|]; [|by exists headers].
  assert (Hp : moves N (Net.put_sync n' N)).
  { split; [|eapply shrinks_limits; [apply put_sync_shrinks|apply Hn]]. rewrite put_sync_chain. destruct Hh as [Ki (t' & Ht' & Hwk) Ks _].
    split; [done| |done]. intros t0 Ht0. cbn in Htip. rewrite Htip in Ht0. injection Ht0 as <-. by exists t'. }
  pose proof (quiet_perform host params rd out (Net.put_sync n' N)) as Hq. unfold Net.after_sync.
  destruct (Net.perform host params rd out (Net.put_sync n' N)) as [N1 o]. by eapply quiet_after_moves.
Qed.
(** What the dispatcher finds for each command. *)
Lemma dispatch_eq rd p id msg N : Dispatcher.Dispatch (Msg.command msg) (fun handler : Net.handler => handler p id msg N) (Some (false, N, []))
    (Net.message_dispatcher_ host params rd) =
  match msg with
  | MVerack => Net.on_verack host rd p id msg N
  | MAddr _ => Net.on_addr host rd p id msg N
  | MGetAddr => Net.on_getaddr host rd p id msg N
  | MInv _ => Net.on_inv host params rd p id msg N
  | MHeaders _ => Net.on_headers host params rd p id msg N
  | MGetHeaders _ => Net.on_getheaders host params rd p id msg N
  | _ => Some (false, N, [])
  end.
Proof. by destruct msg. Qed.

Lemma message_moves rd p id msg N : node_ok N -> msg_wf msg -> Accept.total (chain_ N) + 2000 <= 2 ^ 31 ->
  match Net.handle_message host params rd p id msg N with
  | Some (_, N', _) => moves N N'
  | None => True
  end.
Proof.
  intros Hn Hw Ht. unfold Net.handle_message. destruct (running_ N); cbn [negb]; [|by apply quiet_moves]. cbv zeta. rewrite dispatch_eq.
  assert (Hquiet : forall r, quiet_result N r -> match r with Some (_, N', _) => moves N N' | None => True end).
  { intros [[[ok N'] o]|] Hq; [by apply quiet_moves|done]. }
  destruct msg as [m| | | | | | | |headers]; try (by apply quiet_moves).
  - destruct (negb _); [|by apply quiet_moves]. pose proof (quiet_disconnect p id N) as Hd. destruct (Net.disconnect_peer p id N) as [N0 o0]. cbn [fst] in Hd.
    pose proof (quiet_run_life (Life.remove_peer (Net.now rd) id) N0 (remove_shrinks _ _ _)) as Hq.
    destruct (Net.run_life _ N0) as [N1 o]. apply quiet_moves; [done|by etrans].
  - by apply Hquiet, quiet_verack.
  - by apply Hquiet, quiet_addr.
  - by apply Hquiet, quiet_getaddr.
  - by apply Hquiet, quiet_inv.
  - by apply Hquiet, quiet_getheaders.
  - pose proof (headers_moves rd p id (MHeaders headers) N Hn Hw Ht) as Hh. destruct (Net.on_headers _ _ _ _ _ _ _) as [[[ok N'] o]|]; done.
Qed.

(** *** The periodic tasks *)

Lemma initial_sync_quiet rd N : match Net.check_initial_sync host params rd N with Some (N', _) => quiet N N' | None => True end.
Proof.
  unfold Net.check_initial_sync. destruct (Sync.CheckInitialSync (Net.now rd) (Net.as_sync N)) as [[n' out]|] eqn:E; [|done].
  assert (Hc : latched (chain_ N) (chainstate_manager_ n')).
  { left. unfold Sync.CheckInitialSync in E. destruct (Sync.HasSyncPeer _); [by injection E as <- _|]. destruct (head _); [|by injection E as <- _].
    destruct (Sync.RequestHeadersFromPeer _ _); [|done]. by injection E as <- _. }
  pose proof (quiet_after host params rd n' out N Hc) as Hq. by destruct (Net.after_sync host params rd n' out N).
Qed.

Lemma timers_chain now n : chainstate_manager_ (Sync.ProcessTimers now n).1 = chainstate_manager_ n.
Proof.
  unfold Sync.ProcessTimers. destruct (_ =? _); [done|]. cbv zeta. destruct (_ && _); [|done]. unfold Sync.remove_peer.
  destruct (_ !! _); [|done]. cbn [fst]. destruct (peers_shutting_down_ _); [done|]. unfold Sync.OnPeerDisconnected. by destruct (_ =? _).
Qed.

Lemma periodic_shrinks env L : shrinks L (Life.process_periodic env L).1.
Proof.
  unfold Life.process_periodic. cbv zeta. match goal with |- context [Life.remove_all ?t ?l L] => destruct (remove_all_sub t l L) as [Q1 Q2]; destruct (Life.remove_all t l L) as [L1 o] end.
  by apply shrinks_sub.
Qed.

Lemma maintenance_quiet rd N : match Net.run_maintenance host params rd N with Some (N', _) => quiet N N' | None => True end.
Proof.
  unfold Net.run_maintenance. destruct (negb _); [done|].
  pose proof (quiet_run_life (Life.process_periodic (r_env rd)) N (periodic_shrinks _ _)) as Q1. destruct (Net.run_life _ N) as [N1 o1]. cbn [fst] in Q1.
  pose proof (timers_chain (Net.now rd) (Net.as_sync N1)) as Hc. destruct (Sync.ProcessTimers (Net.now rd) (Net.as_sync N1)) as [n' out]. cbn [fst] in Hc.
  pose proof (quiet_after host params rd n' out N1 (or_introl Hc)) as Q2. destruct (Net.after_sync host params rd n' out N1) as [N2 o2]. cbn [fst] in Q2.
  match goal with |- context [Net.check_initial_sync host params rd ?x] => pose proof (initial_sync_quiet rd x) as Q3; assert (quiet N2 x) as Q by (split; [by left|by apply shrinks_sub|done]) end.
  destruct (Net.check_initial_sync _ _ _ _) as [[N3 o3]|]; [|done]. etrans; [exact Q1|]. etrans; [exact Q2|]. by etrans.
Qed.

Lemma sendmessages_quiet rd N : match Net.run_sendmessages host params rd N with Some (N', _) => quiet N N' | None => True end.
Proof.
  unfold Net.run_sendmessages. destruct (negb _); [done|]. pose proof (initial_sync_quiet rd N) as Q1.
  destruct (Net.check_initial_sync _ _ _ _) as [[N1 o1]|]; [|done]. pose proof (quiet_flush host rd N1) as Q2.
  destruct (Net.flush_block_announcements host rd N1) as [N2 o2]. by etrans.
Qed.
(** *** Steps of the node *)

(** A message from a connected peer, an event of a peer object, a connection, the timers, start and stop, and a header that
    another thread (the miner) processes. *)
Inductive net_step : NetworkManager -> NetworkManager -> Prop :=
| NetMessage rd p id msg N ok N' o : msg_wf msg -> Accept.total (chain_ N) + 2000 <= 2 ^ 31 ->
    Net.handle_message host params rd p id msg N = Some (ok, N', o) -> net_step N N'
| NetPeer env handler ev id e N : Net.peers N !! id = Some e ->
    net_step N (Net.with_life (Life.with_peers (insert id (Life.with_peer (fun _ => (run host env handler ev (peer e)).1) e))) N)
| NetInbound rd pn magic conn permissions N : remote_address conn <> [] -> net_step N (Net.on_inbound host rd pn magic (Some conn) permissions N).1
| NetOutbound rd pn magic rng conns N : net_step N (Net.on_connect_timer rd pn magic rng conns N).1
| NetFeeler rd pn magic rng conn N : net_step N (Net.on_feeler_timer rd pn magic rng conn N).1
| NetConnected rd id addr success N : net_step N (Net.run_life (Life.on_connect_result host (r_env rd) id addr success) N).1
| NetMaintenance rd N N' o : Net.run_maintenance host params rd N = Some (N', o) -> net_step N N'
| NetSend rd N N' o : Net.run_sendmessages host params rd N = Some (N', o) -> net_step N N'
| NetStart rd pn magic datadir remove_ok seeds conns N : net_step N (Net.start rd pn magic datadir remove_ok seeds conns N).1.2
| NetStop rd datadir shuffle w N : net_step N (Net.stop rd datadir shuffle w N).1
| NetDisconnect rd id N : net_step N (Net.disconnect_from rd id N).1.2
| NetMined rd now adjusted_time header N ok st c' events : header_wf header -> Accept.total (chain_ N) < 2 ^ 31 ->
    Act.ProcessNewBlockHeader params now adjusted_time (chain_ N) header Val.fresh = Some (ok, st, c', events) ->
    net_step N (Net.perform host params rd (Notify <$> events) (Net.with_chain c' N)).1.

Lemma life_moves f N : node_ok N -> limits (f (peer_manager_ N)).1 -> moves N (Net.run_life f N).1.
Proof.
  intros [Hc _] Hl. destruct (run_life_ok f N) as (R1 & R2 & _). split; [by apply latched_advances|by eapply shrinks_limits].
Qed.

Lemma start_moves rd pn magic datadir remove_ok seeds conns N : node_ok N -> moves N (Net.start rd pn magic datadir remove_ok seeds conns N).1.2.
Proof.
  intros Hn. unfold Net.start. destruct (running_ N); [by apply quiet_moves|]. cbv zeta.
  destruct (if datadir then _ else _) as [anchors f]. set (N1 := Net.with_file f _).
  assert (Hn1 : node_ok N1) by by destruct Hn. assert (H01 : moves N N1) by (destruct Hn; split; [by apply latched_advances; [|left]|done]).
  match goal with |- context [let '(_, _) := ?x in _] => assert (Hx : moves N1 x.1) end.
  { destruct anchors; [by apply quiet_moves|]. apply life_moves; [done|]. apply anchors_limits, Hn1. }
  match goal with |- context [let '(_, _) := ?x in _] => destruct x as [N2 o] end. cbn [fst snd] in *.
  eapply quiet_after_moves; [done|by eapply moves_trans|]. apply quiet_life. by apply shrinks_sub.
Qed.

Lemma stop_moves rd datadir shuffle w N : node_ok N -> moves N (Net.stop rd datadir shuffle w N).1.
Proof.
  intros Hn. unfold Net.stop. destruct (negb _); [by apply quiet_moves|]. cbv zeta. set (N1 := Net.with_life _ _).
  assert (H01 : quiet (Net.with_running (running_ N1) N) N1) by (unfold N1; destruct datadir; (split; [by left|by apply shrinks_sub|done])).
  assert (Hm : moves N N1).
  { destruct Hn as [Hc Hl], H01 as [Q1 Q2 _]. split; [by apply latched_advances|by eapply shrinks_limits]. }
  eapply moves_trans; [done|done|]. apply life_moves; [by eapply moves_ok|]. apply disconnect_all_limits, Hm.
Qed.

Lemma step_moves N N' : net_step N N' -> node_ok N -> moves N N'.
Proof.
  destruct 1 as [rd p id msg N ok N' o Hw Ht E|env handler ev id e N He|rd pn magic cn perms N Hcn|rd pn magic rng conns N|rd pn magic rng conn N
    |rd id addr success N|rd N N' o E|rd N N' o E|rd pn magic datadir remove_ok seeds conns N|rd datadir shuffle w N|rd id N|rd now adj header N ok st c' events Hh Ht E]; intros Hn.
  - pose proof (message_moves rd p id msg N Hn Hw Ht) as Hm. by rewrite E in Hm.
  - apply quiet_moves; [done|]. apply quiet_life. apply shrinks_insert; [done|apply linked_run].
  - apply life_moves; [done|]. apply inbound_limits; [done|apply Hn].
  - unfold Net.on_connect_timer. destruct (negb _); [by apply quiet_moves|]. apply life_moves; [done|]. apply outbound_limits, Hn.
  - unfold Net.on_feeler_timer. destruct (negb _); [by apply quiet_moves|]. apply life_moves; [done|]. apply feeler_limits, Hn.
  - apply life_moves; [done|]. apply result_limits, Hn.
  - apply quiet_moves; [done|]. pose proof (maintenance_quiet rd N) as Hq. by rewrite E in Hq.
  - apply quiet_moves; [done|]. pose proof (sendmessages_quiet rd N) as Hq. by rewrite E in Hq.
  - by apply start_moves.
  - by apply stop_moves.
  - unfold Net.disconnect_from. destruct (Net.peers N !! id); [|by apply quiet_moves].
    pose proof (quiet_run_life (Life.remove_peer (Net.now rd) id) N (remove_shrinks _ _ _)) as Hq. destruct (Net.run_life _ N). by apply quiet_moves.
  - eapply quiet_after_moves; [done| |apply quiet_perform]. split; [|apply Hn]. cbn. destruct (tip_exists _ (no_chain _ Hn)) as [t Htip].
    pose proof (process_header_ok g params now adj (chain_ N) t header Val.fresh (no_chain _ Hn) Hh Ht Htip) as Hp. cbv zeta in Hp. rewrite E in Hp.
    destruct Hp as (t' & Hi & Ht' & Hwk & Hs & _). split; [done| |done]. intros t0 Ht0. rewrite Htip in Ht0. injection Ht0 as <-. by exists t'.
Qed.
(** C9: in every state the node reaches - by messages from peers, whatever they contain, events of the peer objects, inbound, outbound and
    feeler connections, the maintenance and send tasks, start and stop, and blocks mined on another thread, in any order - the chain state
    satisfies its invariant, the tip has at least the work it had before, every known block is unchanged, and the limits on inbound
    and outbound connections and on connections from one address hold. *)
Theorem node_safe (N N' : NetworkManager) (address : list Z) : node_ok N -> rtc net_step N N' ->
  cs_inv g (chain_ N') /\
  (forall t, tip (chain_ N) = Some t -> exists t', tip (chain_ N') = Some t' /\
     deref nChainWork 0 (index (chain_ N')) t <= deref nChainWork 0 (index (chain_ N')) t') /\
  (forall q b, index (chain_ N) !! q = Some b -> index (chain_ N') !! q = Some b) /\
  let L := peer_manager_ N' in
  Z.of_nat (Life.inbound_count L) <= max_inbound_peers (config_ L) /\
  Z.of_nat (Life.outbound_nonfeeler L) <= max_outbound_peers (config_ L) /\
  (Life.same_ip_inbound address (Lifecycle.peer_states_ L) <= Life.MAX_INBOUND_PER_IP)%nat.
Proof.
  intros Hn Hr. assert (moves N N') as [[A1 A2 A3] [L1 L2 L3 _]]; [|by split_and!].
  revert Hr. apply (rtc_ind_r (fun M => moves N M)); [by apply quiet_moves|].
  intros M M' _ Hs Hm. eapply moves_trans; [done|done|]. by apply step_moves, (moves_ok N).
Qed.

(** *** Handling always ends *)

Lemma headers_none rd p id msg N : node_ok N -> msg_wf msg -> Accept.total (chain_ N) + 2000 <= 2 ^ 31 ->
  Net.on_headers host params rd p id msg N = None -> wraps N msg.
Proof. intros Hn Hw Ht E. pose proof (headers_moves rd p id msg N Hn Hw Ht) as Hh. by rewrite E in Hh. Qed.

Lemma inv_total now p inbound inventory n t : cs_inv g (chainstate_manager_ n) -> tip (chainstate_manager_ n) = Some t ->
  Accept.total (chainstate_manager_ n) <= 2 ^ 31 -> is_Some (Relay.HandleInvMessage params now p inbound inventory n).
Proof.
  intros Hc Ht Htot. unfold Relay.HandleInvMessage. rewrite scan_inv_eq. destruct (existsb _ inventory); [|by eexists].
  assert (Hstep : forall n1, latched (chainstate_manager_ n) (chainstate_manager_ n1) -> is_Some (Sync.RequestHeadersFromPeer p n1)).
  { intros n1 Hl. pose proof (latched_advances _ _ Hc Hl) as [Hi _ _]. apply (request_total g p n1 t Hi);
      destruct Hl as [-> | ->]; try done; by destruct (chainstate_manager_ n). }
  destruct (decide_request_ok params now p inbound n) as (n1 & -> & Hc1 & _). cbn [fst snd]. destruct (_ && true); [|by eexists].
  pose proof (ibd_latches params now (chainstate_manager_ n)) as Hl. rewrite <- Hc1 in Hl.
  pose proof (ibd_latches params now (chainstate_manager_ n1)) as Hl'. destruct (Act.IsInitialBlockDownload params now (chainstate_manager_ n1)) as [ibd c1].
  destruct (Hstep (Sync.with_chain c1 n1)) as [out ->]; [by etrans|by eexists].
Qed.

Lemma getheaders_total p msg n t : cs_inv g (chainstate_manager_ n) -> tip (chainstate_manager_ n) = Some t -> blob_wf 32 (hash_stop msg) ->
  is_Some (HeaderSync.peer_states_ n !! p) -> is_Some (Sync.HandleGetHeadersMessage p msg n).
Proof.
  intros Hc Ht Hs Hp. destruct (tip_at g _ t (proj1 Hc) Ht) as (_ & [b Hb] & Ha).
  destruct (get_headers_ok g (chainstate_manager_ n) t b) with (p := p) (msg := msg) (n := n) as (seg & -> & _); try done. apply Hc.
Qed.
Lemma put_discovery_id N : Net.put_discovery (Life.as_discovery (peer_manager_ N)) N = N.
Proof.
  destruct N as [r ln [cf ps ni sd sa bm am ra gs] q sy ba ch fi]. unfold Net.put_discovery, Net.with_life. cbn -[Life.mis_view]. do 2 f_equal.
  apply map_eq. intros i. rewrite map_lookup_imap. destruct (ps !! i) as [[p ca ss mb go]|] eqn:E; [|done]. cbn -[Life.mis_view].
  unfold Net.put_gossip. cbn -[Life.mis_view]. by rewrite !lookup_fmap, E.
Qed.

(** What a message does that comes before the handshake is complete. *)
Definition early (p : Peer) (id : Z) (msg : Message) (N : NetworkManager) : Net.result :=
  match msg with
  | MInv _ | MHeaders _ | MGetHeaders _ => let '(N, o) := Net.disconnect_peer p id N in Some (false, N, o)
  | MVerack => if PeerM.is_connected p then None else Some (true, N, [])
  | MAddr _ | MGetAddr => Some (true, N, [])
  | _ => Some (false, N, [])
  end.

Lemma early_gate rd p id msg N : running_ N = true -> successfully_connected_ p = false -> (forall m, msg <> MVersion m) ->
  Net.handle_message host params rd p id msg N = early p id msg N.
Proof.
  intros Hr Hs Hv. unfold Net.handle_message. rewrite Hr. cbn [negb]. cbv zeta. rewrite dispatch_eq.
  destruct msg as [m| | | | | | | |headers]; try done; try (by destruct (Hv m)).
  - unfold Net.on_verack, Life.HandleVerack. rewrite Hs. cbn [early]. by destruct (PeerM.is_connected p).
  - unfold Net.on_addr, Disc.HandleAddr. cbn [Net.peer_ref Discovery.successfully_connected]. rewrite Hs. cbn [negb Net.after_gossip]. by rewrite put_discovery_id.
  - unfold Net.on_getaddr, Disc.HandleGetAddr. cbn [Net.peer_ref Discovery.successfully_connected]. rewrite Hs. cbn [negb Net.after_gossip]. by rewrite put_discovery_id.
  - unfold Net.on_inv, Net.gated. by rewrite Hs.
  - unfold Net.on_getheaders, Net.gated. by rewrite Hs.
  - unfold Net.on_headers, Net.gated. by rewrite Hs.
Qed.

(** The peer in the map is disconnected, everything else is as before. *)
Lemma disconnect_peer_eq p id N e : Net.peers N !! id = Some e ->
  let N' := (Net.disconnect_peer p id N).1 in
  Net.peers N' = <[id := Life.with_peer (fun _ => (PeerM.do_disconnect (peer e)).1) e]> (Net.peers N) /\
  PeerM.is_connected (PeerM.do_disconnect (peer e)).1 = false /\ chain_ N' = chain_ N /\ sync_ N' = sync_ N /\ queues_ N' = queues_ N.
Proof.
  intros He. unfold Net.disconnect_peer. rewrite He.
  assert (Hd : PeerM.is_connected (PeerM.do_disconnect (peer e)).1 = false).
  { unfold PeerM.do_disconnect, PeerM.is_connected. destruct (PeerM.gone (peer e)) eqn:Eg; [cbn [fst]; by rewrite Eg|].
    clear Eg. by destruct (peer e) as [cf [cn|]]. }
  destruct (PeerM.do_disconnect (peer e)) as [p' o]. cbn [fst] in *. by split_and!.
Qed.


(** the last message of every feeler connection fails an assertion: when the VERACK of a feeler is handled, the peer only posts its disconnection and then passes
    the message to its handler, so it is still connected and its handshake not complete when the message reaches the node, where [HandleVerack]
    asserts the opposite: the node's handling of it has no result. Where assertions are enabled the process ends. *)
Theorem feeler_verack_aborts (rd : Readings) (env : Env) (f : Peer -> Message -> list reaction) (p : Peer) (id : Z) (N : NetworkManager) :
  running_ N = true -> PeerM.is_feeler p = true -> PeerM.is_connected p = true -> successfully_connected_ p = false ->
  PeerM.handle host env (Some f) MVerack p =
    (let '(p', out) := PeerM.react_all host env (f (PeerM.view p) MVerack) p in (p', PostDisconnect :: Deliver MVerack :: out)) /\
  Net.handle_message host params rd p id MVerack N = None.
Proof.
  intros Hr Hf Hc Hs. split; [|rewrite early_gate by done; cbn [early]; by rewrite Hc].
  cbn [PeerM.handle]. unfold PeerM.deliver, PeerM.seq, PeerM.handle_verack, PeerM.emit, PeerM.get. rewrite Hs, Hf.
  by destruct (PeerM.react_all _ _ _ _).
Qed.
End Safe.

(** ** Witnesses *)

#[local] Existing Instance accept_all.
#[local] Existing Instance accept_all_lawful.
#[local] Existing Instance byte_asio.
#[local] Existing Instance order_example.

(** A running node at genesis with one inbound peer. *)
Definition rd_example : Readings := mkRead (env_at 1000) (fun _ => (1000, 2000)) random_example random_example true.
Definition net_example (params : ChainParams) : NetworkManager :=
  mkNet true 5 node_one ∅ (mkSS Sync.NO_SYNC_PEER 0 0) 0 (regtest_state params) NotFound.
Definition peer_example : Peer := PeerM.create_inbound (env_at 1000) 5 (Some inbound_conn) 1 0.

Lemma net_example_ok params : node_ok regtest_hash (net_example params).
Proof. split; [apply regtest_inv|]. apply (life_reachable_limits Endian.Little), node_one_reachable. Qed.
Lemma net_example_total params : Accept.total (chain_ (net_example params)) + 2000 <= 2 ^ 31.
Proof. change (chain_ (net_example params)) with (regtest_state params). rewrite regtest_total. lia. Qed.

Lemma node_safe_witness : exists params, Params.Select 0 0 REGTEST = Some params /\
  let N' := (Net.stop rd_example false (fun l => l) Anchors.Renamed (Net.on_inbound Endian.Little rd_example 5 1 (Some inbound_conn) 0 (net_example params)).1).1 in
  cs_inv regtest_hash (chain_ N') /\ Z.of_nat (Life.inbound_count (peer_manager_ N')) <= max_inbound_peers (config_ (peer_manager_ N')).
Proof.
  destruct (select_ok 0 0 REGTEST) as (params & E & _). exists params. split; [exact E|]. intros N'.
  destruct (node_safe regtest_hash Endian.Little params (net_example params) N' [10; 0; 0; 3] (net_example_ok params)) as (H1 & _ & _ & H2 & _).
  - eapply rtc_l; [apply (NetInbound Endian.Little params rd_example 5 1 inbound_conn 0); discriminate|]. apply rtc_once, NetStop.
  - by split.
Defined.


(** A feeler that has sent its VERSION. *)
Definition feeler_example : Peer := PeerM.with_state VERSION_SENT (PeerM.create_outbound (env_at 1000) 5 (Some inbound_conn) 1 0 [] 8333 FEELER).
Lemma feeler_verack_aborts_witness : exists params, Params.Select 0 0 REGTEST = Some params /\
  PeerM.handle Endian.Little (env_at 1000) (Some (fun _ _ => [])) MVerack feeler_example = (feeler_example, [PostDisconnect; Deliver MVerack]) /\
  Net.handle_message Endian.Little params rd_example feeler_example 0 MVerack (net_example params) = None.
Proof.
  destruct (select_ok 0 0 REGTEST) as (params & E & _). exists params. split; [exact E|].
  apply (feeler_verack_aborts Endian.Little params rd_example (env_at 1000) (fun _ _ => []) feeler_example 0 (net_example params)); reflexivity.
Defined.
