(* ===== verification/Restart.v ===== *)
(** * Restart: a network manager that is stopped and started again

    [stop] sets the shutting-down flag of the peer manager, which nothing resets: afterwards removed peers are not announced,
    and the header synchronisation keeps the peer it had. *)
From stdpp Require Import gmap sorting strings.
From S2P Require Import Prelude Arith Bytes Compact Sha256 Block BlockIndex Chain ChainParams Pow RandomX Validation.
From S2P Require Import ChainSelector BlockManager SameTree Persist Chainstate OrphanPool Accept Activation NodeChecks Reorg ChainstateProps.
From S2P Require Import Protocol Message MessageProps Misbehavior HeaderSync HeaderSyncProps SyncPeers Peer PeerProps AddrMan AddrManProps Discovery DiscoveryProps.
From S2P Require Import Relay RelayProps Ban Lifecycle LifecycleProps Anchors Node NodeProps.
#[local] Open Scope Z_scope.
Import CS.
Import Idx (nHeight, nChainWork).

(** ** A node that is stopped and started again *)

(** After [Shutdown] no removal is published. *)
Definition notice (e : life_effect) : bool := match e with NotifyPeerDisconnected _ _ _ _ _ => true | _ => false end.
Definition hushed (L' : PeerLifecycleManager) (o : list life_effect) : Prop := shutting_down_ L' = true /\ existsb notice o = false.

Section Hushed.
Context `{Proto.BoostAsio}.
Implicit Types (L : PeerLifecycleManager).

Lemma hushed_remove t id L : shutting_down_ L = true -> hushed (Life.remove_peer t id L).1 (Life.remove_peer t id L).2.
Proof.
  intros Hs. unfold Life.remove_peer. destruct (Lifecycle.peer_states_ L !! id) as [e|]; [|done]. cbv zeta. 
  destruct (Mis.should_discourage _); cbn; rewrite Hs; done.
Qed.
Lemma hushed_app L o o' : hushed L o' -> existsb notice o = false -> hushed L (o ++ o').
Proof. intros [H1 H2] H3. split; [done|]. by rewrite existsb_app, H3, H2. Qed.

Lemma hushed_remove_all t ids L : shutting_down_ L = true -> hushed (Life.remove_all t ids L).1 (Life.remove_all t ids L).2.
Proof.
  revert L. induction ids as [|id ids IH]; intros L Hs; [done|]. cbn [Life.remove_all].
  pose proof (hushed_remove t id L Hs) as [H1 H2]. destruct (Life.remove_peer t id L) as [L1 o]. specialize (IH L1 H1).
  destruct (Life.remove_all t ids L1) as [L2 o']. by apply hushed_app.
Qed.

Lemma hushed_periodic env L : shutting_down_ L = true -> hushed (Life.process_periodic env L).1 (Life.process_periodic env L).2.
Proof.
  intros Hs. unfold Life.process_periodic. cbv zeta. match goal with |- context [Life.remove_all ?t ?l L] =>
    pose proof (hushed_remove_all t l L Hs) as Hh; destruct (Life.remove_all t l L) as [L1 o] end. done.
Qed.

Lemma hushed_admission env p perms a L : shutting_down_ L = true ->
  hushed (Life.check_admission env p perms a L).1.2 (Life.check_admission env p perms a L).2.
Proof.
  intros Hs. unfold Life.check_admission, Life.evict_inbound_peer. cbv zeta.
  repeat (case_match; simplify_eq; try done); match goal with E : Life.remove_peer ?t ?id L = _ |- _ => pose proof (hushed_remove t id L Hs) as Hh; rewrite E in Hh end; done.
Qed.

Lemma hushed_insert env id p perms a L : shutting_down_ L = true ->
  hushed (Life.insert_peer env id p perms a L).1 (Life.insert_peer env id p perms a L).2.
Proof. done. Qed.

Lemma hushed_add env p perms a L : shutting_down_ L = true -> hushed (Life.add_peer env p perms a L).1.2 (Life.add_peer env p perms a L).2.
Proof.
  intros Hs. unfold Life.add_peer. pose proof (hushed_admission env p perms a L Hs) as [H1 H2].
  destruct (Life.check_admission env p perms a L) as [[ok L1] o]. destruct ok; [|done]. cbn [negb Life.allocate_peer_id].
  pose proof (hushed_insert env (next_peer_id_ L1) p perms a (Life.with_next_id (i32 (next_peer_id_ L1 + 1)) L1) H1) as Hi.
  destruct (Life.insert_peer _ _ _ _ _ _) as [L2 o']. by apply hushed_app.
Qed.
Lemma hushed_add_id env id p perms a L : shutting_down_ L = true ->
  hushed (Life.add_peer_with_id env id p perms a L).1.2 (Life.add_peer_with_id env id p perms a L).2.
Proof.
  intros Hs. unfold Life.add_peer_with_id. destruct (_ && _); [done|]. pose proof (hushed_admission env p perms a L Hs) as [H1 H2].
  destruct (Life.check_admission env p perms a L) as [[ok L1] o]. destruct ok; [|done]. cbn [negb].
  pose proof (hushed_insert env id p perms a L1 H1) as Hi. destruct (Life.insert_peer _ _ _ _ _ _) as [L2 o']. by apply hushed_app.
Qed.

Lemma hushed_start h env id L : shutting_down_ L = true -> hushed (Life.start_peer h env id L).1 (Life.start_peer h env id L).2.
Proof.
  intros Hs. unfold Life.start_peer. destruct (_ !! id) as [e|]; [|done]. destruct (PeerM.start h env (peer e)) as [p o]. split; [done|].
  induction o; [done|]. cbn. done.
Qed.

Lemma hushed_connect env pn magic height nonce running addr perms conn L : shutting_down_ L = true ->
  hushed (Life.connect_to env pn magic height nonce running addr perms conn L).1.2 (Life.connect_to env pn magic height nonce running addr perms conn L).2.
Proof.
  intros Hs. unfold Life.connect_to, Life.ConnectTo. destruct (negb running); [done|]. destruct (Proto.NetworkAddressToString addr) as [a|]; [|done]. cbv zeta.
  do 4 match goal with |- context [if ?b then _ else _] => destruct b; [done|] end.
  cbn [Life.allocate_peer_id]. destruct conn as [c|]; [|done].
  match goal with |- context [Life.add_peer_with_id ?e ?i ?p ?q ?a ?l] => pose proof (hushed_add_id e i p q a l Hs) as [H1 H2]; destruct (Life.add_peer_with_id e i p q a l) as [[added L1] o] end.
  cbn in *. destruct added; [done|]. split; [done|]. cbn. by rewrite existsb_app, H2.
Qed.

Lemma hushed_result h env id addr success L : shutting_down_ L = true ->
  hushed (Life.on_connect_result h env id addr success L).1 (Life.on_connect_result h env id addr success L).2.
Proof. intros Hs. unfold Life.on_connect_result. destruct (_ !! id); [|done]. destruct success; [by apply hushed_start|by apply hushed_remove]. Qed.

Lemma hushed_attempts env pn magic height nonce rounds rng conns L : shutting_down_ L = true ->
  hushed (Life.attempt_loop env pn magic height nonce rounds rng conns L).1 (Life.attempt_loop env pn magic height nonce rounds rng conns L).2.
Proof.
  revert L. induction rounds as [|k IH]; intros L Hs; [done|]. cbn [Life.attempt_loop]. destruct (negb _); [done|].
  destruct (AddrMan.select _ _) as [addr|]; [|done]. destruct (Proto.NetworkAddressToString addr) as [a|]; [|by apply IH].
  destruct (negb _); [by apply IH|]. cbv zeta. match goal with |- context [Life.connect_to ?e ?p ?m ?h ?n ?r ?d ?q ?c ?l] =>
    pose proof (hushed_connect e p m h n r d q c l Hs) as [H1 H2]; destruct (Life.connect_to e p m h n r d q c l) as [[res L1] o] end. cbn [fst snd] in *.
  match goal with |- context [Life.attempt_loop _ _ _ _ _ k rng conns ?l] => specialize (IH l); assert (Hl : shutting_down_ l = true) by by destruct (_ || _) end.
  specialize (IH Hl). destruct (Life.attempt_loop _ _ _ _ _ k rng conns _) as [L2 o']. by apply hushed_app.
Qed.

Lemma hushed_outbound env pn magic height nonce running rng conns L : shutting_down_ L = true ->
  hushed (Life.AttemptOutboundConnections env pn magic height nonce running rng conns L).1
         (Life.AttemptOutboundConnections env pn magic height nonce running rng conns L).2.
Proof. intros Hs. unfold Life.AttemptOutboundConnections. destruct (negb running); [done|by apply hushed_attempts]. Qed.

Lemma hushed_feeler env pn magic height nonce running rng conn L : shutting_down_ L = true ->
  hushed (Life.AttemptFeelerConnection env pn magic height nonce running rng conn L).1
         (Life.AttemptFeelerConnection env pn magic height nonce running rng conn L).2.
Proof.
  intros Hs. unfold Life.AttemptFeelerConnection. destruct (negb running); [done|]. destruct (AddrMan.select_new_for_feeler _) as [addr|]; [|done].
  destruct (Proto.NetworkAddressToString addr); [|done]. cbn [Life.allocate_peer_id]. destruct conn; [|done]. cbv zeta.
  match goal with |- context [Life.add_peer_with_id ?e ?i ?p ?q ?a ?l] => pose proof (hushed_add_id e i p q a l Hs) as [H1 H2]; destruct (Life.add_peer_with_id e i p q a l) as [[added L1] o] end.
  cbn in *. destruct added; [done|]. split; [done|]. cbn. by rewrite existsb_app, H2.
Qed.

Lemma hushed_inbound h env pn magic height nonce running conn perms L : shutting_down_ L = true ->
  hushed (Life.HandleInboundConnection h env pn magic height nonce running conn perms L).1
         (Life.HandleInboundConnection h env pn magic height nonce running conn perms L).2.
Proof.
  intros Hs. unfold Life.HandleInboundConnection. destruct conn as [c|]; [|done]. do 4 match goal with |- context [if ?b then _ else _] => destruct b; [done|] end.
  cbv zeta. match goal with |- context [Life.add_peer ?e ?p ?q ?a ?l] => pose proof (hushed_add e p q a l Hs) as [H1 H2]; destruct (Life.add_peer e p q a l) as [[id L1] o] end.
  cbn [fst snd] in *. destruct (id <? 0); [done|]. pose proof (hushed_start h env id L1 H1) as Hst. destruct (Life.start_peer h env id L1) as [L2 o']. by apply hushed_app.
Qed.

Lemma hushed_anchors env pn magic height nonce running anchors conns L : shutting_down_ L = true ->
  hushed (Life.ConnectToAnchors env pn magic height nonce running anchors conns L).1 (Life.ConnectToAnchors env pn magic height nonce running anchors conns L).2.
Proof.
  revert L. induction anchors as [|addr l IH]; intros L Hs; [done|]. cbn [Life.ConnectToAnchors]. cbv zeta.
  match goal with |- context [Life.connect_to ?e ?p ?m ?h ?n ?r ?d ?q ?c ?l] =>
    pose proof (hushed_connect e p m h n r d q c l) as Hh; destruct (Life.connect_to e p m h n r d q c l) as [[res L1] o] end. cbn [fst snd] in *.
  destruct Hh as [H1 H2]; [by destruct (Proto.NetworkAddressToString addr)|]. specialize (IH L1 H1).
  destruct (Life.ConnectToAnchors _ _ _ _ _ _ l conns L1) as [L2 o']. by apply hushed_app.
Qed.

Lemma hushed_disconnect_all env L : shutting_down_ L = true -> hushed (Life.disconnect_all env L).1 (Life.disconnect_all env L).2.
Proof.
  intros Hs. unfold hushed, Life.disconnect_all. rewrite Hs. split; [done|]. cbn.
  by induction (Life.by_id (Lifecycle.peer_states_ L)) as [|[] l IH].
Qed.
End Hushed.

Section Restart.
Context `{HeaderChecks} `{Proto.BoostAsio} `{HashOrder} (host : Endian.host) (params : ChainParams).
Implicit Types (N : NetworkManager).

(** The tasks of a running node between messages. *)
Inductive task : NetworkManager -> NetworkManager -> Prop :=
| TaskMaintenance rd N N' o : Net.run_maintenance host params rd N = Some (N', o) -> task N N'
| TaskSend rd N N' o : Net.run_sendmessages host params rd N = Some (N', o) -> task N N'
| TaskInbound rd pn magic conn permissions N : task N (Net.on_inbound host rd pn magic conn permissions N).1
| TaskOutbound rd pn magic rng conns N : task N (Net.on_connect_timer rd pn magic rng conns N).1
| TaskFeeler rd pn magic rng conn N : task N (Net.on_feeler_timer rd pn magic rng conn N).1
| TaskConnected rd id addr success N : task N (Net.run_life (Life.on_connect_result host (r_env rd) id addr success) N).1
| TaskPeer env handler ev id e N : Net.peers N !! id = Some e ->
    task N (Net.with_life (Life.with_peers (insert id (Life.with_peer (fun _ => (run host env handler ev (peer e)).1) e))) N)
| TaskDisconnect rd id N : task N (Net.disconnect_from rd id N).1.2.

(** The synchronisation peer of before is still set, and nothing will tell that it is gone. *)
Definition stale (s : Z) N : Prop := shutting_down_ (peer_manager_ N) = true /\ sync_peer_id (sync_ N) = s.

Lemma stale_life s f N : stale s N -> hushed (f (peer_manager_ N)).1 (f (peer_manager_ N)).2 -> stale s (Net.run_life f N).1.
Proof.
  intros [_ Hs] [Hd Ho]. unfold Net.run_life. destruct (f (peer_manager_ N)) as [L o]. cbn [fst snd] in *.
  assert (E : foldl (fun N e => Net.heard e N) (Net.with_life (fun _ => L) N) o = Net.with_life (fun _ => L) N).
  { generalize (Net.with_life (fun _ => L) N) as M. induction o as [|e o IH]; intros M; [done|]. cbn in Ho |- *. apply orb_false_iff in Ho as [He Ho].
    rewrite IH by done. by destruct e. }
  by rewrite E.
Qed.

Lemma send_to_sync rd id msg N : sync_ (Net.send_to host rd id msg N).1 = sync_ N /\
  shutting_down_ (peer_manager_ (Net.send_to host rd id msg N).1) = shutting_down_ (peer_manager_ N).
Proof. unfold Net.send_to. destruct (Net.peers N !! id); [|done]. by destruct (PeerM.send_message _ _ _ _). Qed.
Lemma send_all_sync rd l N : sync_ (Net.send_all host rd l N).1 = sync_ N /\
  shutting_down_ (peer_manager_ (Net.send_all host rd l N).1) = shutting_down_ (peer_manager_ N).
Proof.
  revert N. induction l as [|x l IH]; intros N; [done|]. destruct x as [id msg| |]; cbn [Net.send_all]; [|apply IH..].
  pose proof (send_to_sync rd id msg N) as [E1 E2]. destruct (Net.send_to host rd id msg N) as [N1 o]. cbn [fst] in *. specialize (IH N1).
  destruct (Net.send_all host rd l N1) as [N2 o']. cbn [fst] in *. destruct IH as [-> ->]. done.
Qed.

Lemma initial_sync_stale s rd N : stale s N -> s <> Sync.NO_SYNC_PEER ->
  exists N', Net.check_initial_sync host params rd N = Some (N', []) /\ stale s N'.
Proof.
  intros [Hd Hs] Hne. unfold Net.check_initial_sync, Sync.CheckInitialSync.
  assert (Hh : Sync.HasSyncPeer (Net.as_sync N) = true).
  { unfold Sync.HasSyncPeer, Sync.GetSyncPeerId. cbn [Net.as_sync sync_state_]. rewrite Hs. apply negb_true_iff. by apply Z.eqb_neq. }
  rewrite Hh. eexists. split; [reflexivity|]. done.
Qed.

Lemma timers_stale s rd N : stale s N ->
  stale s (Net.after_sync host params rd (Sync.ProcessTimers (Net.now rd) (Net.as_sync N)).1 (Sync.ProcessTimers (Net.now rd) (Net.as_sync N)).2 N).1.
Proof.
  intros [Hd Hs]. unfold Sync.ProcessTimers. cbv zeta. destruct (_ =? _).
  { done. }
  destruct (_ && _); [|done].
  unfold Sync.remove_peer. destruct (_ !! _) as [x|]; [|done].
  cbv zeta. cbn [peers_shutting_down_ Sync.with_peers Net.as_sync]. rewrite Hd. cbn [fst snd].
  unfold Net.after_sync. destruct (Mis.should_discourage _); done.
Qed.

Lemma task_stale s N N' : s <> Sync.NO_SYNC_PEER -> task N N' -> stale s N -> stale s N'.
Proof.
  intros Hne Ht Hs. pose proof Hs as [Hd Hid].
  destruct Ht as [rd N N' o E|rd N N' o E|rd pn magic conn perms N|rd pn magic rng conns N|rd pn magic rng conn N|rd id addr success N|env handler ev id e N He|rd id N].
  - unfold Net.run_maintenance in E. destruct (negb _); [by injection E as <- _|].
    pose proof (stale_life s (Life.process_periodic (r_env rd)) N Hs (hushed_periodic _ _ Hd)) as H1'. destruct (Net.run_life _ N) as [N1 o1]. cbn [fst] in H1'.
    pose proof (timers_stale s rd N1 H1') as H2'. destruct (Sync.ProcessTimers (Net.now rd) (Net.as_sync N1)) as [n' out]. cbn [fst snd] in H2'.
    destruct (Net.after_sync host params rd n' out N1) as [N2 o2]. cbn [fst] in H2'.
    match type of E with context [Net.check_initial_sync host params rd ?x] => destruct (initial_sync_stale s rd x) as (N3 & E3 & H3'); [exact H2'|exact Hne|] end.
    rewrite E3 in E. by injection E as <- _.
  - unfold Net.run_sendmessages in E. destruct (negb _); [by injection E as <- _|].
    destruct (initial_sync_stale s rd N Hs Hne) as (N1 & E1 & [H1' H2']). rewrite E1 in E. unfold Net.flush_block_announcements in E.
    destruct (Relay.FlushBlockAnnouncements _) as [r out]. pose proof (send_all_sync rd out (Net.with_queues (relay_peers_ r) N1)) as [F1 F2].
    destruct (Net.send_all host rd out _) as [N2 o2]. cbn [fst] in *. injection E as <- _. split; [by rewrite F2|by rewrite F1].
  - apply stale_life; [done|by apply hushed_inbound].
  - unfold Net.on_connect_timer. destruct (negb _); [done|]. apply stale_life; [done|by apply hushed_outbound].
  - unfold Net.on_feeler_timer. destruct (negb _); [done|]. apply stale_life; [done|by apply hushed_feeler].
  - apply stale_life; [done|by apply hushed_result].
  - done.
  - unfold Net.disconnect_from. destruct (Net.peers N !! id); [|done].
    pose proof (stale_life s (Life.remove_peer (Net.now rd) id) N Hs (hushed_remove _ _ _ Hd)) as Hr. by destruct (Net.run_life _ N).
Qed.

Lemma stop_stale rd datadir shuffle w N : running_ N = true -> stale (sync_peer_id (sync_ N)) (Net.stop rd datadir shuffle w N).1 /\
  running_ (Net.stop rd datadir shuffle w N).1 = false.
Proof.
  intros Hr. unfold Net.stop. rewrite Hr. cbn [negb]. cbv zeta. set (N1 := Net.with_life (Life.with_shutting true) _).
  assert (Hx : stale (sync_peer_id (sync_ N)) N1 /\ running_ N1 = false) by (unfold N1; by destruct datadir). clearbody N1.
  destruct Hx as [Hx1 Hx2], (run_life_ok (Life.disconnect_all (r_env rd)) N1) as (_ & _ & Er). split; [|by rewrite Er].
  apply stale_life; [done|]. by apply hushed_disconnect_all, Hx1.
Qed.

Lemma start_stale s rd pn magic datadir remove_ok seeds conns N : stale s N -> stale s (Net.start rd pn magic datadir remove_ok seeds conns N).1.2.
Proof.
  intros Hs. unfold Net.start. destruct (running_ N); [done|]. cbv zeta. destruct (if datadir then _ else _) as [anchors f].
  match goal with |- context [let '(_, _) := ?x in _] => assert (Hx : stale s x.1) end.
  { destruct anchors; [done|]. apply stale_life; [done|]. apply hushed_anchors, Hs. }
  match goal with |- context [let '(_, _) := ?x in _] => destruct x as [N2 o] end. done.
Qed.

(** C30: a network manager that is stopped while it has a synchronisation peer and then started again never synchronises on its own: through
    any sequence of connections, peer events and periodic tasks the old peer stays registered - its removal is not published, and neither is any
    later one - so that [CheckInitialSync] sends no request. *)
Theorem restart_never_syncs (rd rd' rd'' : Readings) (pn magic : Z) (datadir remove_ok : bool) (shuffle : list AnchorCandidate -> list AnchorCandidate)
  (w : Anchors.write_result) (seeds : list (list Z)) (conns : nat -> option Connection) (N N' : NetworkManager) :
  running_ N = true -> Sync.HasSyncPeer (Net.as_sync N) = true ->
  rtc task (Net.start rd' pn magic datadir remove_ok seeds conns (Net.stop rd datadir shuffle w N).1).1.2 N' ->
  sync_peer_id (sync_ N') = sync_peer_id (sync_ N) /\
  exists N'', Net.check_initial_sync host params rd'' N' = Some (N'', []).
Proof.
  intros Hr Hh Hrtc. assert (Hne : sync_peer_id (sync_ N) <> Sync.NO_SYNC_PEER).
  { unfold Sync.HasSyncPeer in Hh. by apply negb_true_iff, Z.eqb_neq in Hh. }
  assert (Hs : stale (sync_peer_id (sync_ N)) N').
  { revert Hrtc. apply (rtc_ind_r (stale (sync_peer_id (sync_ N)))); [apply start_stale, stop_stale, Hr|].
    intros y z _ Ht Hy. by apply (task_stale _ y). }
  split; [apply Hs|]. destruct (initial_sync_stale _ rd'' N' Hs Hne) as (N'' & E & _). by exists N''.
Qed.
End Restart.

(** ** Witness *)

#[local] Existing Instance accept_all.
#[local] Existing Instance byte_asio.
#[local] Existing Instance order_example.

(** The node of the example while it synchronises with its peer. *)
Definition net_syncing (params : ChainParams) : NetworkManager :=
  mkNet true 5 node_one ∅ (mkSS 0 1000000 1000000) 0 (regtest_state params) NotFound.

Lemma restart_never_syncs_witness : exists params, Params.Select 0 0 REGTEST = Some params /\
  let N := (Net.start rd_example 5 1 false true [] (fun _ => None) (Net.stop rd_example false (fun l => l) Anchors.Renamed (net_syncing params)).1).1.2 in
  let N' := (Net.on_inbound Endian.Little rd_example 5 1 (Some inbound_conn) 0 N).1 in
  sync_peer_id (sync_ N') = 0 /\ exists N'', Net.check_initial_sync Endian.Little params rd_example N' = Some (N'', []).
Proof.
  destruct (select_ok 0 0 REGTEST) as (params & E & _). exists params. split; [exact E|]. intros N N'.
  apply (restart_never_syncs Endian.Little params rd_example rd_example rd_example 5 1 false true (fun l => l) Anchors.Renamed [] (fun _ => None)
    (net_syncing params) N'); [reflexivity|reflexivity|]. apply rtc_once, TaskInbound.
Defined.
