(* ===== verification/Notify.v ===== *)
(** * Notify: the registries of callbacks

    [chain/notifications.cpp] and [network/notifications.cpp]: the two registries have the same code over different events.  A
    subscription handle removes its callback when it is destroyed and hands it over when it is moved.  The refinement forgets
    the identifiers: a callback belongs to the handle that holds it, and a notification calls the callbacks
    in the order of their subscriptions. *)
From stdpp Require Import gmap.
From S2P Require Import Prelude.
#[local] Open Scope Z_scope.

(** The events of the two registries. *)
Inductive chain_kind := KBlockConnected | KBlockDisconnected | KChainTip | KSyncState | KSuspiciousReorg | KNetworkExpired.
Inductive network_kind := KPeerConnected | KPeerDisconnected | KInvalidHeader | KLowWorkHeaders | KInvalidBlock | KMisbehavior.
#[export] Instance chain_kind_eq : EqDecision chain_kind.
Proof. solve_decision. Defined.
#[export] Instance network_kind_eq : EqDecision network_kind.
Proof. solve_decision. Defined.

(** [Subscription]; [owner_] tells whether the pointer to the registry is set. *)
Record Subscription := mkSub { owner_ : bool; id_ : Z; active_ : bool }.

Section Types.
Context (K C : Type).

(** Each [Subscribe*] function fills one member of a [CallbackEntry]; the callback may be an empty function. *)
Record CallbackEntry := mkCB { entry_id : Z; entry_kind : K; entry_callback : option C }.
Record Notifications := mkNotif { callbacks_ : list CallbackEntry; next_id_ : Z }.
End Types.
Arguments mkCB {K C}. Arguments entry_id {K C}. Arguments entry_kind {K C}. Arguments entry_callback {K C}.
Arguments mkNotif {K C}. Arguments callbacks_ {K C}. Arguments next_id_ {K C}.

Module Notif.
Section Registry.
Context {K C : Type} `{EqDecision K}.
Implicit Types (n : Notifications K C) (s : Subscription).

Definition new : Notifications K C := mkNotif [] 1.
Definition Subscription_new : Subscription := mkSub false 0 false.

Definition Subscribe (kind : K) (callback : option C) n : Subscription * Notifications K C :=
  let id := next_id_ n in
  (mkSub true id true, mkNotif (callbacks_ n ++ [mkCB id kind callback]) (u64 (id + 1))).

(** [Unsubscribe] of the registry: the first entry with the identifier is erased. *)
Fixpoint erase (id : Z) (l : list (CallbackEntry K C)) : list (CallbackEntry K C) :=
  match l with
  | [] => []
  | e :: l => if entry_id e =? id then l else e :: erase id l
  end.
Definition Unsubscribe (id : Z) n : Notifications K C := mkNotif (erase id (callbacks_ n)) (next_id_ n).

(** The callbacks that are called, in order. *)
Definition Notify (kind : K) n : list C :=
  omap (fun e => if decide (entry_kind e = kind) then entry_callback e else None) (callbacks_ n).

(** *** Handles *)

(** [Unsubscribe] of a handle, and its destructor. *)
Definition Subscription_Unsubscribe s n : Subscription * Notifications K C :=
  if active_ s && owner_ s then (mkSub (owner_ s) (id_ s) false, Unsubscribe (id_ s) n) else (s, n).
(** The move constructor: the new handle and what is left of the other one. *)
Definition Subscription_move s : Subscription * Subscription := (s, mkSub false (id_ s) false).
(** Move assignment to another handle. *)
Definition Subscription_assign s other n : Subscription * Subscription * Notifications K C :=
  let '(_, n) := Subscription_Unsubscribe s n in
  (mkSub (owner_ other) (id_ other) (active_ other), mkSub false (id_ other) false, n).

(** ** A program over handles *)

(** The handle objects that exist, by name. *)
Record Program := mkProg { registry : Notifications K C; handles : gmap nat Subscription }.

Inductive action :=
| Construct (h : nat)                                       (** a default handle *)
| SubscribeTo (h : nat) (kind : K) (callback : option C)    (** a handle that a [Subscribe*] call returns *)
| MoveTo (h src : nat)
| AssignTo (h src : nat)
| Cancel (h : nat)
| Destroy (h : nat).

(** [None] when the action names a handle that does not exist, or creates one that does. *)
Definition act (a : action) (p : Program) : option Program :=
  match a with
  | Construct h =>
      match handles p !! h with Some _ => None | None => Some (mkProg (registry p) (<[h := Subscription_new]> (handles p))) end
  | SubscribeTo h kind callback =>
      match handles p !! h with
      | Some _ => None
      | None => let '(s, n) := Subscribe kind callback (registry p) in Some (mkProg n (<[h := s]> (handles p)))
      end
  | MoveTo h src =>
      match handles p !! h, handles p !! src with
      | None, Some other => let '(s, rest) := Subscription_move other in Some (mkProg (registry p) (<[h := s]> (<[src := rest]> (handles p))))
      | _, _ => None
      end
  | AssignTo h src =>
      match handles p !! h, handles p !! src with
      | Some s, Some other =>
          if decide (h = src) then Some p
          else let '(s, rest, n) := Subscription_assign s other (registry p) in Some (mkProg n (<[h := s]> (<[src := rest]> (handles p))))
      | _, _ => None
      end
  | Cancel h =>
      match handles p !! h with
      | Some s => let '(s, n) := Subscription_Unsubscribe s (registry p) in Some (mkProg n (<[h := s]> (handles p)))
      | None => None
      end
  | Destroy h =>
      match handles p !! h with
      | Some s => let '(_, n) := Subscription_Unsubscribe s (registry p) in Some (mkProg n (delete h (handles p)))
      | None => None
      end
  end.

Fixpoint acts (l : list action) (p : Program) : option Program :=
  match l with
  | [] => Some p
  | a :: l => match act a p with Some p => acts l p | None => None end
  end.

(** ** The specification *)

(** The handles that exist, and who owns which callback, oldest first. *)
Record Owners := mkOwn { live : gset nat; owned : list (nat * K * option C) }.

Definition holder (x : nat * K * option C) : nat := x.1.1.
Definition release (h : nat) (l : list (nat * K * option C)) : list (nat * K * option C) := List.filter (fun x => negb (holder x =? h)%nat) l.
Definition hand_over (h src : nat) (l : list (nat * K * option C)) : list (nat * K * option C) :=
  (fun x => (if (holder x =? src)%nat then h else holder x, x.1.2, x.2)) <$> l.

Definition spec_act (a : action) (o : Owners) : option Owners :=
  match a with
  | Construct h => if decide (h ∈ live o) then None else Some (mkOwn ({[h]} ∪ live o) (owned o))
  | SubscribeTo h kind callback => if decide (h ∈ live o) then None else Some (mkOwn ({[h]} ∪ live o) (owned o ++ [(h, kind, callback)]))
  | MoveTo h src => if decide (h ∈ live o \/ src ∉ live o) then None else Some (mkOwn ({[h]} ∪ live o) (hand_over h src (owned o)))
  | AssignTo h src =>
      if decide (h ∉ live o \/ src ∉ live o) then None
      else Some (if decide (h = src) then o else mkOwn (live o) (hand_over h src (release h (owned o))))
  | Cancel h => if decide (h ∉ live o) then None else Some (mkOwn (live o) (release h (owned o)))
  | Destroy h => if decide (h ∉ live o) then None else Some (mkOwn (live o ∖ {[h]}) (release h (owned o)))
  end.
Fixpoint spec_acts (l : list action) (o : Owners) : option Owners :=
  match l with
  | [] => Some o
  | a :: l => match spec_act a o with Some o => spec_acts l o | None => None end
  end.
Definition called (kind : K) (o : Owners) : list C := omap (fun x => if decide (x.1.2 = kind) then x.2 else None) (owned o).
End Registry.
Arguments Program : clear implicits.
Arguments Owners : clear implicits.
Arguments action : clear implicits.
End Notif.
