(* ===== verification/NotifyProps.v ===== *)
(** * NotifyProps: subscriptions refine ownership *)
From stdpp Require Import gmap.
From S2P Require Import Prelude Notify.
#[local] Open Scope Z_scope.
Import Notif.

Section Refine.
Context {K C : Type} `{EqDecision K}.
Implicit Types (p : Program K C) (o : Owners K C).

(** An entry of the registry with its owner. *)
Definition link : Type := Z * (nat * K * option C).
Implicit Types (L : list link) (x : link).
Definition entry_of x : CallbackEntry K C := mkCB x.1 x.2.1.2 x.2.2.
Definition owner_of x : nat := holder x.2.
Definition kept (h : nat) L : list link := List.filter (fun x => negb (owner_of x =? h)%nat) L.
Definition passed (h src : nat) L : list link := (fun x => (x.1, (if (owner_of x =? src)%nat then h else owner_of x, x.2.1.2, x.2.2))) <$> L.

(** The handles that hold a callback are those of the links. *)
Definition holds (hs : gmap nat Subscription) L : Prop :=
  forall h id, hs !! h = Some (mkSub true id true) <-> exists x, x ∈ L /\ owner_of x = h /\ x.1 = id.
Definition sane (hs : gmap nat Subscription) : Prop := forall h s, hs !! h = Some s -> owner_ s = false -> active_ s = false.

Record linked (bound : Z) p o L : Prop := {
  li_entries : callbacks_ (registry p) = entry_of <$> L;
  li_owned : owned o = snd <$> L;
  li_ids : NoDup L.*1;
  li_owners : NoDup (owner_of <$> L);
  li_fresh : Forall (fun x => x.1 < next_id_ (registry p)) L;
  li_next : 0 < next_id_ (registry p) <= bound;
  li_live : live o = dom (handles p);
  li_sane : sane (handles p);
  li_holds : holds (handles p) L
}.

Lemma kept_id h L : h ∉ owner_of <$> L -> kept h L = L.
Proof.
  induction L as [|x L IH]; [done|]. cbn. rewrite not_elem_of_cons. intros [Hx HL]. destruct (Nat.eqb_spec (owner_of x) h); [congruence|]. cbn. f_equal. by apply IH.
Qed.
Lemma erase_kept h L x : NoDup L.*1 -> NoDup (owner_of <$> L) -> x ∈ L -> owner_of x = h ->
  erase x.1 (entry_of <$> L) = entry_of <$> kept h L.
Proof.
  intros H1 H2 Hx Hh. induction L as [|y L IH]; [by apply not_elem_of_nil in Hx|]. cbn in *. apply NoDup_cons in H1 as [N1 H1], H2 as [N2 H2].
  apply elem_of_cons in Hx as [<-|Hx].
  - rewrite Z.eqb_refl, Hh, Nat.eqb_refl. cbn. f_equal. symmetry. apply kept_id. by rewrite <- Hh.
  - destruct (Z.eqb_spec y.1 x.1) as [E|_]; [destruct N1; rewrite E; by apply list_elem_of_fmap_2|].
    destruct (Nat.eqb_spec (owner_of y) h) as [E|_]; [destruct N2; rewrite E, <- Hh; by apply list_elem_of_fmap_2|]. cbn. f_equal. by apply IH.
Qed.
Lemma elem_of_kept h L x : x ∈ kept h L <-> x ∈ L /\ owner_of x <> h.
Proof. unfold kept. rewrite !list_elem_of_In, filter_In, negb_true_iff, Nat.eqb_neq. done. Qed.
Lemma kept_sublist h L : sublist (kept h L) L.
Proof. induction L as [|x L IH]; cbn; [done|]. destruct (negb _); by constructor. Qed.
Lemma release_kept h L : release h (snd <$> L) = snd <$> kept h L.
Proof. induction L as [|x L IH]; [done|]. cbn. fold (owner_of x). destruct (owner_of x =? h)%nat; cbn; [|f_equal]; exact IH. Qed.

(** What a handle that is not [mkSub true _ true] holds. *)
Lemma idle s : (owner_ s = false -> active_ s = false) -> {id | s = mkSub true id true} + {active_ s && owner_ s = false}.
Proof. destruct s as [[] id []]; cbn; intros Hs; first [by left; exists id|by right|by discriminate Hs]. Qed.
Lemma not_owner hs L h s : holds hs L -> hs !! h = Some s -> active_ s && owner_ s = false -> h ∉ owner_of <$> L.
Proof.
  intros Hh Hs Ha (x & E & Hx)%list_elem_of_fmap. assert (F : hs !! h = Some (mkSub true x.1 true)) by (apply Hh; by exists x).
  rewrite Hs in F. injection F as ->. done.
Qed.
Lemma absent_owner hs L h : holds hs L -> hs !! h = None -> h ∉ owner_of <$> L.
Proof. intros Hh Hs (x & E & Hx)%list_elem_of_fmap. assert (F : hs !! h = Some (mkSub true x.1 true)) by (apply Hh; by exists x). congruence. Qed.

(** Cancelling a handle releases what it owns. *)
Lemma cancel_linked bound p o L h s : linked bound p o L -> handles p !! h = Some s ->
  callbacks_ (Subscription_Unsubscribe s (registry p)).2 = entry_of <$> kept h L /\
  next_id_ (Subscription_Unsubscribe s (registry p)).2 = next_id_ (registry p) /\
  (owner_ (Subscription_Unsubscribe s (registry p)).1 = false -> active_ (Subscription_Unsubscribe s (registry p)).1 = false) /\
  (forall id, (Subscription_Unsubscribe s (registry p)).1 <> mkSub true id true).
Proof.
  intros [] Hs. unfold Subscription_Unsubscribe. destruct (idle s) as [[id ->]|Hi]; [by apply (li_sane0 h)| |].
  - cbn. apply li_holds0 in Hs as (x & Hx & Ho & <-). split_and!; [|done..]. rewrite li_entries0. by apply erase_kept.
  - rewrite Hi. split_and!; [|done|by apply (li_sane0 h)|].
    + cbn. rewrite li_entries0. by rewrite kept_id by by eapply not_owner.
    + cbn. intros id ->. done.
Qed.

Lemma holds_kept hs L h s' : holds hs L -> (forall id, s' <> mkSub true id true) -> holds (<[h := s']> hs) (kept h L).
Proof.
  intros Hh Hs i id. rewrite lookup_insert_Some. split.
  - intros [[_ ->]|[Hi Hl]]; [by destruct (Hs id)|]. apply Hh in Hl as (x & Hx & Ho & E). exists x. rewrite elem_of_kept, Ho. by split_and!.
  - intros (x & [Hx Hn]%elem_of_kept & <- & E). right. split; [done|]. apply Hh. by exists x.
Qed.
Lemma holds_delete hs L h : holds hs L -> holds (delete h hs) (kept h L).
Proof.
  intros Hh i id. rewrite lookup_delete_Some. split.
  - intros [Hi Hl]. apply Hh in Hl as (x & Hx & Ho & E). exists x. rewrite elem_of_kept, Ho. by split_and!.
  - intros (x & [Hx Hn]%elem_of_kept & <- & E). split; [done|]. apply Hh. by exists x.
Qed.
Lemma sane_insert hs h s : sane hs -> (owner_ s = false -> active_ s = false) -> sane (<[h := s]> hs).
Proof. intros Hs H1 i s' [[_ <-]|[_ Hi]]%lookup_insert_Some; [done|by apply (Hs i)]. Qed.
Lemma sane_delete hs h : sane hs -> sane (delete h hs).
Proof. intros Hs i s [_ Hi]%lookup_delete_Some. by apply (Hs i). Qed.

(** Handing a callback over. *)
Lemma passed_owners h src L : NoDup (owner_of <$> L) -> h ∉ owner_of <$> L -> NoDup (owner_of <$> passed h src L).
Proof.
  intros Hn Hh. induction L as [|x L IH]; [constructor|]. cbn in Hn, Hh. apply NoDup_cons in Hn as [Hx Hn]. apply not_elem_of_cons in Hh as [Hhx Hh]. cbn.
  apply NoDup_cons. split; [|by apply IH]. unfold passed. rewrite <- list_fmap_compose, list_elem_of_fmap. intros (y & E & Hy).
  change ((if (owner_of x =? src)%nat then h else owner_of x) = (if (owner_of y =? src)%nat then h else owner_of y)) in E.
  assert (Hy' : owner_of y ∈ owner_of <$> L) by by apply list_elem_of_fmap_2.
  destruct (Nat.eqb_spec (owner_of x) src), (Nat.eqb_spec (owner_of y) src); congruence.
Qed.
Lemma hand_over_passed h src L : hand_over h src (snd <$> L) = snd <$> passed h src L.
Proof. unfold hand_over, passed. rewrite <- !list_fmap_compose. done. Qed.
Lemma holds_passed hs L h src other rest : holds hs L -> hs !! src = Some other -> h ∉ owner_of <$> L -> h <> src ->
  (forall id, rest <> mkSub true id true) -> holds (<[h := other]> (<[src := rest]> hs)) (passed h src L).
Proof.
  intros Hh Hsrc Hno Hne Hr i id.
  assert (Hin : (exists x, x ∈ passed h src L /\ owner_of x = i /\ x.1 = id) <->
    exists y, y ∈ L /\ (if (owner_of y =? src)%nat then h else owner_of y) = i /\ y.1 = id).
  { unfold passed. split; [intros (x & (y & -> & Hy)%list_elem_of_fmap & E & E'); by exists y|].
    intros (y & Hy & E & E'). eexists. split; [apply list_elem_of_fmap; by exists y|done]. }
  rewrite Hin, lookup_insert_Some, lookup_insert_Some. split.
  - intros [[<- ->]|[Hi [[_ ->]|[Hi' Hl]]]]; [|by destruct (Hr id)|].
    + apply Hh in Hsrc as (x & Hx & Ho & E). exists x. by rewrite Ho, Nat.eqb_refl.
    + apply Hh in Hl as (x & Hx & Ho & E). exists x. rewrite Ho. by destruct (Nat.eqb_spec i src); [congruence|].
  - intros (y & Hy & E & E'). destruct (Nat.eqb_spec (owner_of y) src) as [F|F].
    + left. split; [done|]. assert (G : hs !! src = Some (mkSub true id true)) by (apply Hh; by exists y). congruence.
    + assert (Hyl : owner_of y ∈ owner_of <$> L) by by apply list_elem_of_fmap_2. right. split; [congruence|]. right. split; [congruence|]. apply Hh. by exists y.
Qed.

(** *** One action *)

Lemma kept_linked bound n hs l p o L h : linked bound p o L -> callbacks_ n = entry_of <$> kept h L -> next_id_ n = next_id_ (registry p) ->
  l = dom hs -> sane hs -> holds hs (kept h L) -> linked bound (mkProg n hs) (mkOwn l (release h (owned o))) (kept h L).
Proof.
  intros [] Hc Hn Hl Hs Hh. split; cbn; rewrite ?Hn; try done.
  - rewrite li_owned0. apply release_kept.
  - eapply sublist_NoDup; [exact li_ids0|apply fmap_sublist, kept_sublist].
  - eapply sublist_NoDup; [exact li_owners0|apply fmap_sublist, kept_sublist].
  - apply Forall_forall. intros x [Hx _]%elem_of_kept. by apply (proj1 (Forall_forall _ _) li_fresh0).
Qed.

Lemma passed_linked bound n hs l p o L h src : linked bound p o L -> h ∉ owner_of <$> L -> callbacks_ n = entry_of <$> L -> next_id_ n = next_id_ (registry p) ->
  l = dom hs -> sane hs -> holds hs (passed h src L) -> linked bound (mkProg n hs) (mkOwn l (hand_over h src (owned o))) (passed h src L).
Proof.
  intros [] Hno Hc Hn Hl Hs Hh. assert (Hids : (passed h src L).*1 = L.*1) by (unfold passed; rewrite <- list_fmap_compose; done).
  split; cbn; rewrite ?Hn, ?Hids; try done.
  - rewrite Hc. unfold passed. rewrite <- list_fmap_compose. done.
  - rewrite li_owned0. apply hand_over_passed.
  - by apply passed_owners.
  - apply Forall_fmap. by apply li_fresh0.
Qed.

(** The bound of the identifiers grows by one with every action. *)
Lemma linked_weaken b b' p o L : b <= b' -> linked b p o L -> linked b' p o L.
Proof. intros Hb []. split; try done. lia. Qed.

Lemma construct_linked b p o L h : linked b p o L -> handles p !! h = None ->
  linked b (mkProg (registry p) (<[h := Subscription_new]> (handles p))) (mkOwn ({[h]} ∪ live o) (owned o)) L.
Proof.
  intros [] Hh. split; cbn; try done.
  - by rewrite dom_insert_L, li_live0.
  - by apply sane_insert.
  - intros i id. rewrite lookup_insert_Some, <- (li_holds0 i id). split; [intros [[_ ?]|[_ ?]]; done|]. intros Hi. right. split; [congruence|done].
Qed.

Lemma subscribe_linked b p o L h k cb : b < 2 ^ 64 - 1 -> linked b p o L -> handles p !! h = None ->
  exists L', linked (b + 1) (mkProg (Subscribe k cb (registry p)).2 (<[h := (Subscribe k cb (registry p)).1]> (handles p)))
    (mkOwn ({[h]} ∪ live o) (owned o ++ [(h, k, cb)])) L'.
Proof.
  intros Hb [] Hh. pose proof (absent_owner _ _ _ li_holds0 Hh) as Hno. exists (L ++ [(next_id_ (registry p), (h, k, cb))]).
  assert (En : u64 (next_id_ (registry p) + 1) = next_id_ (registry p) + 1) by (apply u64_id; unfold in_u; lia).
  split; cbn; rewrite ?En, ?fmap_app; cbn; try done.
  - by rewrite li_entries0.
  - by rewrite li_owned0.
  - apply NoDup_app. split; [done|]. split; [|apply NoDup_singleton]. intros id (x & E & Hx)%list_elem_of_fmap ->%list_elem_of_singleton.
    pose proof (proj1 (Forall_forall _ _) li_fresh0 _ Hx) as Hlt. cbn in *. lia.
  - apply NoDup_app. split; [done|]. split; [|apply NoDup_singleton]. intros i Hi ->%list_elem_of_singleton. done.
  - apply Forall_app. split; [|apply Forall_singleton; cbn; lia]. eapply Forall_impl; [exact li_fresh0|]. cbn. lia.
  - lia.
  - by rewrite dom_insert_L, li_live0.
  - by apply sane_insert.
  - intros i id. rewrite lookup_insert_Some. setoid_rewrite elem_of_app. setoid_rewrite list_elem_of_singleton. split.
    + intros [[<- [= <-]]|[Hi Hl]]; [eexists; split; [by right|done]|]. apply li_holds0 in Hl as (x & Hx & Ho & E). exists x. by split; [left|].
    + intros (x & [Hx| ->] & Ho & E); [|by left; cbn in *; subst]. right.
      split; [intros <-; apply Hno; rewrite <- Ho; by apply list_elem_of_fmap_2|]. apply li_holds0. by exists x.
Qed.

Lemma move_linked b p o L h src other : linked b p o L -> handles p !! h = None -> handles p !! src = Some other ->
  linked b (mkProg (registry p) (<[h := other]> (<[src := mkSub false (id_ other) false]> (handles p)))) (mkOwn ({[h]} ∪ live o) (hand_over h src (owned o))) (passed h src L).
Proof.
  intros Hl Hh Hsrc. pose proof Hl as []. pose proof (absent_owner _ _ _ li_holds0 Hh) as Hno. apply passed_linked with p; try done.
  - rewrite !dom_insert_L, li_live0. assert (src ∈ dom (handles p)) by (apply elem_of_dom; by eexists). set_solver.
  - apply sane_insert; [by apply sane_insert|by apply (li_sane0 src)].
  - apply holds_passed; try done. congruence.
Qed.

Lemma assign_linked b p o L h src s other : linked b p o L -> handles p !! h = Some s -> handles p !! src = Some other -> h <> src ->
  let '(s', rest, n) := Subscription_assign s other (registry p) in
  linked b (mkProg n (<[h := s']> (<[src := rest]> (handles p)))) (mkOwn (live o) (hand_over h src (release h (owned o)))) (passed h src (kept h L)).
Proof.
  intros Hl Hh Hsrc Hne. unfold Subscription_assign. destruct (cancel_linked b p o L h s Hl Hh) as (E1 & E2 & E3 & E4).
  destruct (Subscription_Unsubscribe s (registry p)) as [s0 n]. cbn [fst snd] in *. pose proof Hl as [].
  assert (Hk : linked b (mkProg n (<[h := s0]> (handles p))) (mkOwn (live o) (release h (owned o))) (kept h L)).
  { apply kept_linked with p; try done; [|by apply sane_insert|by apply holds_kept].
    rewrite dom_insert_L, li_live0. assert (h ∈ dom (handles p)) by (apply elem_of_dom; by eexists). set_solver. }
  assert (Hno : h ∉ owner_of <$> kept h L) by (intros (x & -> & [_ Hx]%elem_of_kept)%list_elem_of_fmap; done).
  replace (mkSub (owner_ other) (id_ other) (active_ other)) with other by by destruct other.
  rewrite <- (insert_insert_eq _ h other s0), (insert_insert_ne _ h src s0) by done.
  eapply (passed_linked b n _ _ _ _ _ h src Hk Hno); try done.
  - rewrite !dom_insert_L, li_live0. assert (h ∈ dom (handles p)) by (apply elem_of_dom; by eexists).
    assert (src ∈ dom (handles p)) by (apply elem_of_dom; by eexists). set_solver.
  - apply sane_insert; [apply sane_insert; [by apply Hk|done]|by apply (li_sane0 src)].
  - apply holds_passed; try done; [apply Hk|]. by rewrite lookup_insert_ne.
Qed.

Lemma cancel_act b p o L h s : linked b p o L -> handles p !! h = Some s ->
  linked b (mkProg (Subscription_Unsubscribe s (registry p)).2 (<[h := (Subscription_Unsubscribe s (registry p)).1]> (handles p)))
    (mkOwn (live o) (release h (owned o))) (kept h L) /\
  linked b (mkProg (Subscription_Unsubscribe s (registry p)).2 (delete h (handles p))) (mkOwn (live o ∖ {[h]}) (release h (owned o))) (kept h L).
Proof.
  intros Hl Hh. destruct (cancel_linked b p o L h s Hl Hh) as (E1 & E2 & E3 & E4). pose proof Hl as [].
  split; apply kept_linked with p; try done.
  - rewrite dom_insert_L, li_live0. assert (h ∈ dom (handles p)) by (apply elem_of_dom; by eexists). set_solver.
  - by apply sane_insert.
  - by apply holds_kept.
  - by rewrite dom_delete_L, li_live0.
  - by apply sane_delete.
  - by apply holds_delete.
Qed.

(** An action and its specification succeed together. *)
Lemma act_linked b p o L a : b < 2 ^ 64 - 1 -> linked b p o L ->
  match act a p, spec_act a o with
  | Some p', Some o' => exists L', linked (b + 1) p' o' L'
  | None, None => True
  | _, _ => False
  end.
Proof.
  intros Hb Hl. assert (Hd : forall h, h ∈ live o <-> is_Some (handles p !! h)) by (intros h; by rewrite (li_live _ _ _ _ Hl), elem_of_dom).
  assert (Hw : forall p' o' L', linked b p' o' L' -> exists L', linked (b + 1) p' o' L') by (intros p' o' L' H; exists L'; eapply linked_weaken; [|exact H]; lia).
  destruct a as [h|h k cb|h src|h src|h|h]; cbn [act spec_act]; repeat case_decide; rewrite ?Hd in *;
    destruct (handles p !! h) as [s|] eqn:Eh; rewrite ?is_Some_alt in *; cbn in *; try done; try tauto.
  all: try (destruct (handles p !! src) as [other|] eqn:Es; cbn in *; try tauto).
  - by eapply Hw, construct_linked.
  - pose proof (subscribe_linked b p o L h k cb Hb Hl Eh) as Hs. exact Hs.
  - by eapply Hw, move_linked.
  - by eapply Hw.
  - pose proof (assign_linked b p o L h src s other Hl Eh Es ltac:(done)) as Ha. destruct (Subscription_assign s other (registry p)) as [[s' r] n]. by eapply Hw.
  - destruct (cancel_act b p o L h s Hl Eh) as [Hc _]. destruct (Subscription_Unsubscribe s (registry p)). by eapply Hw.
  - destruct (cancel_act b p o L h s Hl Eh) as [_ Hc]. destruct (Subscription_Unsubscribe s (registry p)). by eapply Hw.
Qed.

Lemma acts_linked l b p o L : b + Z.of_nat (length l) < 2 ^ 64 -> linked b p o L ->
  match acts l p, spec_acts l o with
  | Some p', Some o' => exists b' L', linked b' p' o' L'
  | None, None => True
  | _, _ => False
  end.
Proof.
  revert b p o L. induction l as [|a l IH]; intros b p o L Hb Hl; [by exists b, L|]. cbn [acts spec_acts length] in *.
  pose proof (act_linked b p o L a ltac:(lia) Hl) as Ha. destruct (act a p) as [p'|], (spec_act a o) as [o'|]; try done.
  destruct Ha as [L' Hl']. apply (IH (b + 1) p' o' L'); [lia|done].
Qed.

Lemma called_linked b p o L k : linked b p o L -> Notify k (registry p) = called k o.
Proof.
  intros []. unfold Notify, called. rewrite li_entries0, li_owned0. clear. induction L as [|x L IH]; [done|]. cbn. by destruct (decide _); [destruct (x.2.2)|]; rewrite IH.
Qed.

Lemma start_linked : linked 1 (mkProg (new : Notifications K C) ∅) (mkOwn ∅ []) [].
Proof.
  split; cbn; try done; try (by constructor); try lia.
  intros h id. rewrite lookup_empty. split; [done|]. by intros (x & ?%not_elem_of_nil & _).
Qed.

(** C22: for every program that constructs, subscribes, moves, assigns, cancels and destroys subscription handles, the registry refines
    ownership: an action is possible exactly when the handles it names allow it, each callback belongs to the one
    handle that received it last, it is registered until that handle is cancelled, assigned to or destroyed, and a notification calls the
    registered callbacks of its event, each once, in the order of the subscriptions. *)
Theorem subscriptions_refine (l : list (action K C)) : Z.of_nat (length l) < 2 ^ 64 - 1 ->
  match acts l (mkProg new ∅), spec_acts l (mkOwn ∅ []) with
  | Some p, Some o => dom (handles p) = live o /\ NoDup (holder <$> owned o) /\ (forall kind, Notify kind (registry p) = called kind o)
  | None, None => True
  | _, _ => False
  end.
Proof.
  intros Hl. pose proof (acts_linked l 1 (mkProg new ∅) (mkOwn ∅ []) [] ltac:(lia) start_linked) as H.
  destruct (acts l _) as [p|], (spec_acts l _) as [o|]; try done. destruct H as (b & L & Hk). split; [symmetry; apply Hk|]. split.
  - rewrite (li_owned _ _ _ _ Hk), <- list_fmap_compose. apply Hk.
  - intros kind. by eapply called_linked.
Qed.
End Refine.

(** The application assigns the result of [SubscribeChainTip] to its member [tip_sub_], here handle 0. *)
Definition tip_sub_actions : list (action chain_kind nat) := [Construct 0; SubscribeTo 1 KChainTip (Some 7%nat); AssignTo 0 1; Destroy 1].
Lemma subscriptions_refine_witness : exists p, acts tip_sub_actions (mkProg new ∅) = Some p /\
  Notify KChainTip (registry p) = [7%nat] /\ Notify KBlockConnected (registry p) = [].
Proof.
  pose proof (subscriptions_refine tip_sub_actions ltac:(cbn; lia)) as H.
  destruct (acts tip_sub_actions (mkProg new ∅)) as [p|] eqn:E, (spec_acts tip_sub_actions (mkOwn ∅ [])) as [o|] eqn:F; try done.
  exists p. split; [done|]. destruct H as (_ & _ & H). rewrite !H. vm_compute in F. injection F as <-. done.
Defined.
