(* ===== verification/Locks.v ===== *)
(** * Locks: the validation mutex and the mutex of the chain notifications

    The order in which threads take [validation_mutex_] of the chain state manager (recursive) and [mutex_] of the chain notifications
    (not recursive), as traces of the calls that take them: what a call does in between is left out, and so are
    the other mutexes of the program, under which neither of the two is taken. *)
From stdpp Require Import gmap relations.
From S2P Require Import Prelude Notify.
#[local] Open Scope nat_scope.

Inductive mutex := ValidationMutex | NotifyMutex.
Inductive lock_op := Acquire (m : mutex) | Release (m : mutex).

(** What [AcceptBlockHeader] comes to: a rejection, because the network has expired or for another reason, or an accepted header with
    the orphans that are accepted or rejected after it. *)
#[warnings="-register-all"]
Inductive accept_run := Rejected (expired : bool) | Accepted (orphans : list accept_run).

Inductive call :=
| CGetTip
| CSubscribe
| CProcessHeader (run : accept_run) (refused : nat) (events : list chain_kind)
| CInvalidateBlock (events : list chain_kind).

Module Locks.
(** [latched]: the initial block download is over, which [IsInitialBlockDownload] sees without the lock. *)
Section Traces.
Context (latched : bool).

Definition GetTip : list lock_op := [Acquire ValidationMutex; Release ValidationMutex].
Definition IsInitialBlockDownload : list lock_op := if latched then [] else GetTip.

(** The callbacks of the application: [block_sub_] and [tip_sub_] ask the chain state; the others set the shutdown flag. *)
Definition callback (kind : chain_kind) : list lock_op :=
  match kind with
  | KBlockConnected => IsInitialBlockDownload
  | KChainTip => GetTip
  | _ => []
  end.
(** The [Notify*] functions hold the mutex while the callbacks run. *)
Definition Notify (kind : chain_kind) : list lock_op := Acquire NotifyMutex :: callback kind ++ [Release NotifyMutex].
Definition Subscribe : list lock_op := [Acquire NotifyMutex; Release NotifyMutex].

Fixpoint AcceptBlockHeader (run : accept_run) : list lock_op :=
  Acquire ValidationMutex ::
  match run with
  | Rejected expired => if expired then Notify KNetworkExpired else []
  | Accepted orphans => concat (map AcceptBlockHeader orphans)
  end ++ [Release ValidationMutex].
Definition TryAddBlockIndexCandidate : list lock_op := [Acquire ValidationMutex; Release ValidationMutex].
(** [refused] candidates that would reorganise the chain too deeply, then the events of the activation. *)
Definition ActivateBestChain (refused : nat) (events : list chain_kind) : list lock_op :=
  Acquire ValidationMutex :: concat (replicate refused (Notify KSuspiciousReorg)) ++ Release ValidationMutex :: concat (map Notify events).
Definition ProcessNewBlockHeader (run : accept_run) (refused : nat) (events : list chain_kind) : list lock_op :=
  AcceptBlockHeader run ++
  match run with
  | Rejected _ => []
  | Accepted _ => TryAddBlockIndexCandidate ++ ActivateBestChain refused events
  end.
Definition InvalidateBlock (events : list chain_kind) : list lock_op :=
  Acquire ValidationMutex :: Release ValidationMutex :: concat (map Notify events).

Definition trace (c : call) : list lock_op :=
  match c with
  | CGetTip => GetTip
  | CSubscribe => Subscribe
  | CProcessHeader run refused events => ProcessNewBlockHeader run refused events
  | CInvalidateBlock events => InvalidateBlock events
  end.
End Traces.

(** ** Threads *)

(** What a thread holds: the depth of its validation locks, and the notification mutex. *)
Definition holding : Type := nat * bool.
Record Thread := mkThread { held : holding; todo : list lock_op }.

Definition holds (m : mutex) (t : Thread) : Prop := match m with ValidationMutex => (held t).1 <> 0 | NotifyMutex => (held t).2 = true end.
(** No thread but [i] holds the mutex. *)
Definition free (m : mutex) (i : nat) (ts : list Thread) : Prop := forall j t, ts !! j = Some t -> j <> i -> ~ holds m t.

(** The effect of an operation on the thread that performs it. *)
Definition perform (op : lock_op) (h : holding) : option holding :=
  match op with
  | Acquire ValidationMutex => Some (S h.1, h.2)
  | Acquire NotifyMutex => if h.2 then None else Some (h.1, true)
  | Release ValidationMutex => match h.1 with 0 => None | S d => Some (d, h.2) end
  | Release NotifyMutex => if h.2 then Some (h.1, false) else None
  end.

(** One thread goes on, if no other one holds the mutex it asks for. *)
Inductive step : list Thread -> list Thread -> Prop :=
| Go i op l h h' ts : ts !! i = Some (mkThread h (op :: l)) -> perform op h = Some h' -> (forall m, op = Acquire m -> free m i ts) ->
    step ts (<[i := mkThread h' l]> ts).

Definition spawn (latched : bool) (programs : list (list call)) : list Thread :=
  (fun cs => mkThread (0, false) (concat (map (trace latched) cs))) <$> programs.
Definition finished (ts : list Thread) : Prop := Forall (fun t => todo t = []) ts.
(** Some thread is not done, and none can go on. *)
Definition deadlocked (ts : list Thread) : Prop := ~ finished ts /\ forall ts', ~ step ts ts'.

(** A call that notifies while it holds the validation mutex. *)
Fixpoint expires (run : accept_run) : bool :=
  match run with Rejected expired => expired | Accepted orphans => existsb expires orphans end.
Definition notifies_locked (c : call) : bool :=
  match c with CProcessHeader run refused _ => expires run || match run with Accepted _ => negb (refused =? 0) | Rejected _ => false end | _ => false end.
End Locks.
