(* ===== verification/LocksProps.v ===== *)
(** * LocksProps: when the two mutexes cannot and when they can block all threads *)
From stdpp Require Import gmap relations.
From S2P Require Import Prelude Notify Locks.
#[local] Open Scope nat_scope.
Import Locks.

(** The operations of a thread that takes the notification mutex only while it holds neither. *)
Fixpoint ordered (l : list lock_op) (h : holding) : option holding :=
  match l with
  | [] => Some h
  | op :: l =>
      match op, h.1 with
      | Acquire NotifyMutex, S _ => None
      | _, _ => match perform op h with Some h' => ordered l h' | None => None end
      end
  end.
Lemma ordered_app l l' h h' : ordered l h = Some h' -> ordered (l ++ l') h = ordered l' h'.
Proof.
  revert h. induction l as [|op l IH]; intros h; cbn; [by intros [= ->]|].
  destruct op as [[]|[]], h as [[|d] b]; cbn; try done; try apply IH; destruct b; cbn; try done; apply IH.
Qed.
Lemma ordered_concat ls h : Forall (fun l => ordered l h = Some h) ls -> ordered (concat ls) h = Some h.
Proof. induction 1 as [|l ls Hl _ IH]; [done|]. cbn. by rewrite (ordered_app _ _ _ _ Hl). Qed.

Fixpoint accept_ind (P : accept_run -> Prop) (f : forall e, P (Rejected e)) (g : forall os, Forall P os -> P (Accepted os)) (r : accept_run) : P r :=
  match r with
  | Rejected e => f e
  | Accepted os => g os ((fix go os := match os return Forall P os with [] => Forall_nil_2 P | o :: os => Forall_cons_2 P o os (accept_ind P f g o) (go os) end) os)
  end.

(** Traces that take the validation mutex only, and leave things as they were. *)
Definition own (op : lock_op) : bool := match op with Acquire NotifyMutex | Release NotifyMutex => false | _ => true end.

Section Traces.
Context (latched : bool).

Lemma accept_ordered run : expires run = false -> forallb own (AcceptBlockHeader latched run) = true /\ forall d b, ordered (AcceptBlockHeader latched run) (d, b) = Some (d, b).
Proof.
  induction run as [e|os IH] using accept_ind; cbn [expires]; [by intros ->|]. intros He.
  assert (Hall : Forall (fun r => forallb own (AcceptBlockHeader latched r) = true /\ forall d b, ordered (AcceptBlockHeader latched r) (d, b) = Some (d, b)) os).
  { apply Forall_forall. intros r Hr. apply (proj1 (Forall_forall _ _) IH); [done|]. apply not_true_is_false. intros E.
    assert (existsb expires os = true) by (apply existsb_exists; exists r; by rewrite <- list_elem_of_In). congruence. }
  split.
  - cbn. rewrite forallb_app, andb_true_r. clear -Hall. induction Hall as [|r os [Hr _] _ IH]; [done|]. cbn. by rewrite forallb_app, Hr, IH.
  - intros d b. cbn. rewrite (ordered_app _ _ _ (S d, b)); [done|]. apply ordered_concat. apply Forall_fmap. eapply Forall_impl; [exact Hall|]. intros r [_ Hr]. apply Hr.
Qed.

Lemma notify_ordered kind : ordered (Notify latched kind) (0, false) = Some (0, false).
Proof. by destruct kind, latched. Qed.
Lemma notifies_ordered events : ordered (concat (map (Notify latched) events)) (0, false) = Some (0, false).
Proof. apply ordered_concat, Forall_fmap, Forall_forall. intros k _. apply notify_ordered. Qed.

Lemma trace_ordered c : notifies_locked c = false -> ordered (trace latched c) (0, false) = Some (0, false).
Proof.
  destruct c as [| |run refused events|events]; cbn [notifies_locked]; [done|done| |intros _; apply notifies_ordered].
  intros [He Hr]%orb_false_iff. cbn [trace]. unfold ProcessNewBlockHeader. destruct (accept_ordered run He) as [_ Ho].
  rewrite (ordered_app _ _ _ (0, false)) by apply Ho. destruct run as [e|os]; [done|]. destruct refused; [|done]. apply notifies_ordered.
Qed.

(** ** No deadlock *)

Definition alone (ts : list Thread) : Prop := forall m i j t u, ts !! i = Some t -> ts !! j = Some u -> i <> j -> holds m t -> ~ holds m u.
Definition in_order (ts : list Thread) : Prop := Forall (fun t => ordered (todo t) (held t) = Some (0, false)) ts.

Lemma ordered_cons op l h x : ordered (op :: l) h = Some x -> exists h', perform op h = Some h' /\ ordered l h' = Some x /\ (op = Acquire NotifyMutex -> h.1 = 0).
Proof.
  cbn. intros Ho. destruct op as [[]|[]], h as [[|d] []]; cbn in *; try done; by eexists.
Qed.

Lemma perform_holds op h h' m l l' : perform op h = Some h' -> holds m (mkThread h' l) -> op = Acquire m \/ holds m (mkThread h l').
Proof. destruct op as [[]|[]], h as [[|d] []], m; cbn; intros [= <-]; cbn; auto. Qed.

Lemma step_good ts ts' : step ts ts' -> alone ts /\ in_order ts -> alone ts' /\ in_order ts'.
Proof.
  intros [i op l h h' ts0 Hi Hp Hf] [Ha Ho]. split.
  - intros m x y t u Hx Hy Hne Ht. destruct (decide (x = i)) as [->|Nx].
    + rewrite list_lookup_insert_eq in Hx by by eapply lookup_lt_Some. injection Hx as <-. rewrite list_lookup_insert_ne in Hy by done.
      destruct (perform_holds op h h' m l (op :: l) Hp Ht) as [->|Hh]; [by apply (Hf m eq_refl y)|by apply (Ha m i y _ u Hi Hy)].
    + rewrite list_lookup_insert_ne in Hx by done. destruct (decide (y = i)) as [->|Ny].
      * rewrite list_lookup_insert_eq in Hy by by eapply lookup_lt_Some. injection Hy as <-. intros Hu.
        destruct (perform_holds op h h' m l (op :: l) Hp Hu) as [->|Hh]; [by apply (Hf m eq_refl x t)|by apply (Ha m x i t _ Hx Hi)].
      * rewrite list_lookup_insert_ne in Hy by done. by apply (Ha m x y t u).
  - apply Forall_insert; [done|]. pose proof (Forall_lookup_1 _ _ _ _ Ho Hi) as Hl. cbn in *. by destruct (ordered_cons _ _ _ _ Hl) as (h2 & E & Hx & _); simplify_eq.
Qed.

(** A thread that is not blocked by another one goes on. *)
Lemma go ts i h l : in_order ts -> ts !! i = Some (mkThread h l) -> l <> [] ->
  (forall m, head l = Some (Acquire m) -> free m i ts) -> exists ts', step ts ts'.
Proof.
  intros Ho Hi Hl Hf. destruct l as [|op l]; [done|]. pose proof (Forall_lookup_1 _ _ _ _ Ho Hi) as Hx. cbn [todo held] in Hx.
  destruct (ordered_cons _ _ _ _ Hx) as (h' & Hp & _). eexists. eapply Go; [done|done|]. intros m ->. by apply Hf.
Qed.

Lemma holds_dec m t : Decision (holds m t).
Proof. destruct m; unfold holds; apply _. Defined.
#[local] Existing Instance holds_dec.

Lemma progress ts : alone ts -> in_order ts -> finished ts \/ exists ts', step ts ts'.
Proof.
  intros Ha Ho. assert (Hgo : forall i t, ts !! i = Some t -> todo t <> [] -> (forall m, head (todo t) = Some (Acquire m) -> free m i ts) -> exists ts', step ts ts').
  { intros i [h l] Hi Hl Hf. by eapply (go ts i h l). }
  assert (Hbusy : forall i t m, ts !! i = Some t -> holds m t -> todo t <> []).
  { intros i [[d b] l] m Hi Hm E. cbn in E. subst l. pose proof (Forall_lookup_1 _ _ _ _ Ho Hi) as [= -> ->]. by destruct m. }
  assert (Hfree : forall m i t, ts !! i = Some t -> holds m t -> free m i ts) by (intros m i t Hi Hm j u Hj Hne; by apply (Ha m i j t u)).
  assert (Hnone : forall m i, ~ Exists (holds m) ts -> free m i ts) by (intros m i Hn j u Hj _ Hu; apply Hn, Exists_exists; exists u; split; [by eapply list_elem_of_lookup_2|done]).
  destruct (decide (Exists (holds ValidationMutex) ts)) as [(t & (i & Hi)%list_elem_of_lookup_1 & Ht)%Exists_exists|HV].
  { right. apply (Hgo i t Hi); [by eapply Hbusy|]. intros m Hm. destruct m; [by eapply Hfree|]. exfalso. destruct t as [h [|op l]]; [done|]. injection Hm as ->.
    pose proof (Forall_lookup_1 _ _ _ _ Ho Hi) as Hx. destruct (ordered_cons _ _ _ _ Hx) as (_ & _ & _ & E). by apply Ht, E. }
  destruct (decide (Exists (holds NotifyMutex) ts)) as [(t & (i & Hi)%list_elem_of_lookup_1 & Ht)%Exists_exists|HN].
  { right. apply (Hgo i t Hi); [by eapply Hbusy|]. intros m Hm. destruct m; [by apply Hnone|]. by eapply Hfree. }
  destruct (decide (Exists (fun t => todo t <> []) ts)) as [(t & (i & Hi)%list_elem_of_lookup_1 & Ht)%Exists_exists|Hd].
  - right. apply (Hgo i t Hi Ht). intros m _. destruct m; by apply Hnone.
  - left. apply Forall_forall. intros t Ht. destruct (todo t) as [|op l] eqn:E; [done|]. destruct Hd. apply Exists_exists. exists t. by rewrite E.
Qed.

Lemma spawn_good programs : Forall (Forall (fun c => notifies_locked c = false)) programs -> alone (spawn latched programs) /\ in_order (spawn latched programs).
Proof.
  intros Hp. split.
  - intros m i j t u Hi _ _ Ht. unfold spawn in Hi. rewrite list_lookup_fmap in Hi. destruct (programs !! i); [|done]. injection Hi as <-. by destruct m.
  - apply Forall_fmap. eapply Forall_impl; [exact Hp|]. intros cs Hcs. cbn. apply ordered_concat, Forall_fmap. eapply Forall_impl; [exact Hcs|]. apply trace_ordered.
Qed.

(** The operations that are left. *)
Definition left_over (ts : list Thread) : nat := sum_list_with (fun t => length (todo t)) ts.
Lemma left_over_insert ts i t u : ts !! i = Some t -> left_over (<[i := u]> ts) + length (todo t) = left_over ts + length (todo u).
Proof.
  intros Hi. pose proof (list_elem_of_split_length ts i t Hi) as (l1 & l2 & -> & ->). unfold left_over.
  rewrite insert_app_r_alt, Nat.sub_diag by done. cbn. rewrite !sum_list_with_app. cbn. lia.
Qed.
Lemma steps_left n ts ts' : nsteps step n ts ts' -> left_over ts = n + left_over ts'.
Proof.
  induction 1 as [|n ts1 ts2 ts3 Hs _ IH]; [done|]. destruct Hs as [i op l h h' ts Hi _ _].
  pose proof (left_over_insert ts i _ (mkThread h' l) Hi) as E. cbn in E. lia.
Qed.

(** C20: threads that get tips, subscribe, process headers and invalidate blocks - any number of them, in any interleaving - never block each
    other on the validation mutex and the notification mutex, and all finish, as long as no call notifies while it holds the
    validation mutex: every state they reach is final or has a next step, and no run has more steps than they have operations. *)
Theorem threads_finish (programs : list (list call)) : Forall (Forall (fun c => notifies_locked c = false)) programs ->
  let ts := spawn latched programs in
  (forall ts', rtc step ts ts' -> finished ts' \/ exists ts'', step ts' ts'') /\
  (forall n ts', nsteps step n ts ts' -> n <= left_over ts).
Proof.
  intros Hp ts. split; [|intros n ts' Hn; apply steps_left in Hn; lia]. intros ts' Hr.
  assert (alone ts' /\ in_order ts') as [Ha Ho]; [|by apply progress]. revert Hr. apply (rtc_ind_r (fun t => alone t /\ in_order t)); [by apply spawn_good|].
  intros y z _ Hs Hy. by eapply step_good.
Qed.

(** ** A deadlock *)

Fixpoint runs (l : list lock_op) (h : holding) : option holding :=
  match l with [] => Some h | op :: l => match perform op h with Some h' => runs l h' | None => None end end.
Lemma ordered_runs l h h' : ordered l h = Some h' -> runs l h = Some h'.
Proof.
  revert h. induction l as [|op l IH]; intros h Ho; [done|]. destruct (ordered_cons _ _ _ _ Ho) as (h1 & Hp & Hl & _). cbn. rewrite Hp. by apply IH.
Qed.
Lemma runs_app l l' h h' : runs l h = Some h' -> runs (l ++ l') h = runs l' h'.
Proof. revert h. induction l as [|op l IH]; intros h; cbn; [by intros [= ->]|]. destruct (perform op h); [|done]. apply IH. Qed.

(** A thread that no other one blocks. *)
Lemma solo q h h' i r ts : runs q h = Some h' -> ts !! i = Some (mkThread h (q ++ r)) -> (forall m, Acquire m ∈ q -> free m i ts) ->
  rtc step ts (<[i := mkThread h' r]> ts).
Proof.
  revert h ts. induction q as [|op q IH]; intros h ts Hr Hi Hf.
  { injection Hr as ->. rewrite list_insert_id by done. done. }
  cbn in Hr. destruct (perform op h) as [h1|] eqn:Hp; [|done].
  eapply rtc_l; [eapply Go; [exact Hi|exact Hp|]|]; [intros m ->; apply Hf; by left|].
  specialize (IH h1 (<[i := mkThread h1 (q ++ r)]> ts) Hr). rewrite list_insert_insert_eq in IH. apply IH.
  - apply list_lookup_insert_eq. by eapply lookup_lt_Some.
  - intros m Hm j t Hj Hne. rewrite list_lookup_insert_ne in Hj by done. by apply (Hf m (list_elem_of_further _ _ _ Hm) j t).
Qed.

(** The events that a call publishes after it has released the validation mutex. *)
Definition publishes (c : call) : list chain_kind :=
  match c with CProcessHeader (Accepted _) _ events | CInvalidateBlock events => events | _ => [] end.

Lemma tip_point c : notifies_locked c = false -> KChainTip ∈ publishes c ->
  exists q r, trace latched c = q ++ Acquire NotifyMutex :: Acquire ValidationMutex :: r /\ runs q (0, false) = Some (0, false).
Proof.
  intros Hn Hk. assert (Hpre : exists pre, trace latched c = pre ++ concat (map (Notify latched) (publishes c)) /\ ordered pre (0, false) = Some (0, false)).
  { destruct c as [| |[e|os] refused events|events]; try (by apply not_elem_of_nil in Hk); cbn [notifies_locked publishes trace] in *.
    - apply orb_false_iff in Hn as [He Hr]. destruct refused; [|done]. destruct (accept_ordered (Accepted os) He) as [_ Ho].
      exists (AcceptBlockHeader latched (Accepted os) ++ TryAddBlockIndexCandidate ++ [Acquire ValidationMutex; Release ValidationMutex]).
      split; [unfold ProcessNewBlockHeader; by rewrite <- !app_assoc|]. by rewrite (ordered_app _ _ _ (0, false)) by apply Ho.
    - by exists [Acquire ValidationMutex; Release ValidationMutex]. }
  destruct Hpre as (pre & -> & Hp). apply list_elem_of_split in Hk as (e1 & e2 & ->).
  exists (pre ++ concat (map (Notify latched) e1)). eexists. split; [rewrite map_app, concat_app, <- app_assoc; reflexivity|].
  apply ordered_runs. by rewrite (ordered_app _ _ _ _ Hp), notifies_ordered.
Qed.

(** The point where a call asks for the notification mutex under the validation mutex. *)
Definition asks (l : list lock_op) (d : nat) : Prop :=
  exists q r d', l = q ++ Acquire NotifyMutex :: r /\ forallb own q = true /\ runs q (d, false) = Some (S d', false).
Lemma asks_app l l' d : asks l d -> asks (l ++ l') d.
Proof. intros (q & r & d' & -> & Hq & Hr). exists q, (r ++ l'), d'. by rewrite <- app_assoc. Qed.
Lemma asks_after l l' d d' : forallb own l = true -> runs l (d, false) = Some (d', false) -> asks l' d' -> asks (l ++ l') d.
Proof.
  intros Hl Hr (q & r & e & -> & Hq & He). exists (l ++ q), r, e. rewrite forallb_app, Hl, Hq, (runs_app _ _ _ _ Hr), <- app_assoc. done.
Qed.

Lemma accept_asks run d : expires run = true -> asks (AcceptBlockHeader latched run) d.
Proof.
  revert d. induction run as [e|os IH] using accept_ind; intros d; cbn [expires].
  { intros ->. by exists [Acquire ValidationMutex], [Release NotifyMutex; Release ValidationMutex], d. }
  intros He. apply (asks_after [Acquire ValidationMutex] _ d (S d)); [done|done|]. apply asks_app. clear -He IH. revert IH.
  induction os as [|o os IHos]; [done|]. intros [Ho IH]%Forall_cons. cbn in He |- *. destruct (expires o) eqn:E; [by apply asks_app, Ho|].
  destruct (accept_ordered o E) as [Ho1 Ho2]. apply (asks_after _ _ (S d) (S d)); [done|by apply ordered_runs|]. by apply IHos.
Qed.

Lemma lock_point c : notifies_locked c = true -> asks (trace latched c) 0.
Proof.
  destruct c as [| |run refused events|events]; try done. cbn [notifies_locked trace]. unfold ProcessNewBlockHeader.
  destruct (expires run) eqn:He; [intros _; by apply asks_app, accept_asks|]. destruct run as [e|os]; [done|]. destruct refused as [|k]; [done|]. intros _.
  destruct (accept_ordered (Accepted os) He) as [H1 H2]. apply (asks_after _ _ 0 0); [done|by apply ordered_runs|].
  apply (asks_after TryAddBlockIndexCandidate _ 0 0); [done..|]. by eexists [Acquire ValidationMutex], _, 0.
Qed.

Lemma blocked d r r' : deadlocked [mkThread (0, true) (Acquire ValidationMutex :: r); mkThread (S d, false) (Acquire NotifyMutex :: r')].
Proof.
  split; [intros Hf; by inversion Hf|]. intros ts' Hs. inversion Hs as [i op l h h' ts Hi Hp Hf]; subst. destruct i as [|[|i]]; cbn in Hi; [..|done].
  - injection Hi as <- <- <-. by apply (Hf ValidationMutex eq_refl 1 _ eq_refl).
  - injection Hi as <- <- <-. by apply (Hf NotifyMutex eq_refl 0 _ eq_refl).
Qed.

(** C21: when one thread publishes a new tip and another one processes a header that is refused as too deep a reorganisation, or rejected because the
    network has expired, the two can block each other for ever: the first holds the notification mutex and waits for the validation mutex that the callback
    of the application asks for, the second holds the validation mutex and waits for the notification mutex. *)
Theorem lock_order_deadlock (c1 c2 : call) (cs1 cs2 : list call) :
  notifies_locked c1 = false -> KChainTip ∈ publishes c1 -> notifies_locked c2 = true ->
  exists ts, rtc step (spawn latched [c1 :: cs1; c2 :: cs2]) ts /\ deadlocked ts.
Proof.
  intros H1 Hk H2. destruct (tip_point c1 H1 Hk) as (q & r & E1 & Hq). destruct (lock_point c2 H2) as (q' & r' & d & E2 & Ho & Hq').
  set (l1 := Acquire ValidationMutex :: r ++ concat (map (trace latched) cs1)). set (l2 := Acquire NotifyMutex :: r' ++ concat (map (trace latched) cs2)).
  exists [mkThread (0, true) l1; mkThread (S d, false) l2]. split; [|apply blocked].
  replace (spawn latched [c1 :: cs1; c2 :: cs2]) with [mkThread (0, false) ((q ++ [Acquire NotifyMutex]) ++ l1); mkThread (0, false) (q' ++ l2)]
    by (unfold spawn, l1, l2; cbn; by rewrite E1, E2, <- !app_assoc).
  transitivity [mkThread (0, true) l1; mkThread (0, false) (q' ++ l2)].
  - apply (solo (q ++ [Acquire NotifyMutex]) (0, false) (0, true) 0 l1); [by rewrite (runs_app _ _ _ _ Hq)|done|].
    intros m _ [|[|j]] t Hj Hne; cbn in Hj; [done| |done]. injection Hj as <-. by destruct m; cbn; [lia|].
  - apply (solo q' (0, false) (S d, false) 1 l2); [done|done|]. intros m Hm [|[|j]] t Hj Hne; cbn in Hj; [|done|done]. injection Hj as <-.
    rewrite forallb_forall in Ho. specialize (Ho _ (proj1 (list_elem_of_In _ _) Hm)). destruct m; [cbn; lia|done].
Qed.
End Traces.

(** ** Witnesses *)

(** The network thread connects a block while the miner's thread is refused a reorganisation. *)
Definition tip_call : call := CProcessHeader (Accepted []) 0 [KBlockConnected; KChainTip].
Definition reorg_call : call := CProcessHeader (Accepted []) 1 [].

Definition two_threads : list (list call) := [[tip_call; CGetTip]; [tip_call]].
Lemma threads_finish_witness : Forall (Forall (fun c => notifies_locked c = false)) two_threads /\
  (forall ts', rtc step (spawn true two_threads) ts' -> finished ts' \/ exists ts'', step ts' ts'') /\
  (forall n ts', nsteps step n (spawn true two_threads) ts' -> n <= left_over (spawn true two_threads)).
Proof.
  assert (H : Forall (Forall (fun c => notifies_locked c = false)) two_threads) by by repeat constructor.
  split; [exact H|]. exact (threads_finish true two_threads H).
Defined.
Lemma lock_order_deadlock_witness : exists ts, rtc step (spawn true [[tip_call]; [reorg_call; CGetTip]]) ts /\ deadlocked ts.
Proof. apply (lock_order_deadlock true tip_call reorg_call [] [CGetTip]); [reflexivity|right; left|reflexivity]. Defined.
