(* ===== verification/Clock.v ===== *)
(** * Clock: the time functions with their mock time ([util/time.hpp/.cpp])

    Seconds for the wall clock, nanoseconds for the steady clock; the readings of the real clocks are arguments. *)
From S2P Require Import Prelude.
#[local] Open Scope Z_scope.

(** The static variables. *)
Record Clock := mkClock {
  g_mock_time : Z;                  (** 0: mock time is off *)
  g_real_steady_reference : Z;
  g_mock_steady_reference : Z;
  g_steady_initialized : bool
}.

Module Clocks.
Definition new : Clock := mkClock 0 0 0 false.

Definition GetTime (system_now : Z) (c : Clock) : Z := if negb (g_mock_time c =? 0) then g_mock_time c else system_now.

Definition GetSteadyTime (steady_now : Z) (c : Clock) : Z * Clock :=
  let mock := g_mock_time c in
  if negb (mock =? 0) then
    let c := if negb (g_steady_initialized c) then mkClock mock steady_now mock true else c in
    let seconds_offset := i64 (mock - g_mock_steady_reference c) in
    (g_real_steady_reference c + 1000000000 * seconds_offset, c)
  else (steady_now, c).

Definition SetMockTime (time : Z) (c : Clock) : Clock :=
  mkClock time (g_real_steady_reference c) (g_mock_steady_reference c) (if negb (time =? 0) then false else g_steady_initialized c).

Definition GetMockTime (c : Clock) : Z := g_mock_time c.

(** Several readings of the steady clock. *)
Fixpoint readings (l : list Z) (c : Clock) : list Z :=
  match l with
  | [] => []
  | steady_now :: l => let '(t, c) := GetSteadyTime steady_now c in t :: readings l c
  end.
End Clocks.
Import Clocks.

(** While mock time is on the steady clock stands still at the first real reading after the last [SetMockTime]: the offset that is added
    to it is always zero, whatever the mock time. *)
Lemma mock_steady_frozen (time : Z) (c : Clock) (first : Z) (rest : list Z) : time <> 0 ->
  readings (first :: rest) (SetMockTime time c) = replicate (S (length rest)) first.
Proof.
  intros Ht. cbn [readings]. unfold GetSteadyTime at 1. cbn. rewrite (proj2 (Z.eqb_neq _ _) Ht). cbn. rewrite Z.sub_diag, Z.add_0_r. f_equal.
  induction rest as [|x rest IH]; [done|]. cbn [readings length replicate]. unfold GetSteadyTime at 1. cbn. rewrite (proj2 (Z.eqb_neq _ _) Ht). cbn.
  rewrite Z.sub_diag, Z.add_0_r. by f_equal.
Qed.
