(* ===== verification/Rpc.v ===== *)
(** * Rpc: the RPC server ([network/rpc_server.hpp/.cpp])

    One request at a time is parsed, dispatched and answered; a handler is a function on the state of the node, its miner and the mock
    clock, with the text it answers.  Texts are lists of bytes; in literals a backquote stands for a double quote.
    The JSON library, and what the C and C++ libraries print for floating-point numbers and dates, are parameters.  Sockets and
    the accept loop are outside. *)
From Stdlib Require Import String.
From stdpp Require Import gmap pretty.
From S2P Require Import Prelude Arith Bytes Compact Sha256 Block BlockIndex Chain ChainParams Pow RandomX Validation.
From S2P Require Import ChainSelector BlockManager Persist Chainstate Activation Miner Protocol Message Misbehavior HeaderSync.
From S2P Require Import Peer AddrMan Discovery Relay Ban Lifecycle Node Clock.
#[local] Open Scope Z_scope.
Import CS.
Import Idx (nHeight).

(** ** Texts *)

Definition text (s : string) : list Z := (fun c => if c =? 96 then 34 else c) <$> str s.
Definition nl : list Z := [10].
Definition dec (z : Z) : list Z := str (pretty z).
Definition hex8 (z : Z) : list Z := Blob.GetHex (le_split 4 (u32 z)).
Definition hex16 (z : Z) : list Z := Blob.GetHex (le_split 8 (u64 z)).
Definition bool_text (b : bool) : list Z := if b then str "true" else str "false".
Definition error (message : string) : list Z := text "{`error`:`" ++ str message ++ text "`}" ++ nl.

(** [nlohmann::json]. *)
Class JsonLib := { json_parse : list Z -> option json; json_dump : json -> list Z }.
(** What the output streams print for computed [double]s, and [gmtime_r] with [put_time]. *)
Class LibText := {
  show_difficulty : Z -> list Z;              (** from [nBits] *)
  show_rate : Z -> Z -> list Z;               (** work per seconds *)
  show_minutes : Z -> Z -> list Z;            (** a sum of seconds by a count, in minutes *)
  show_hours : Z -> list Z;
  show_log2 : Z -> list Z;
  show_ms : Z -> list Z;                      (** milliseconds in seconds *)
  put_time : Z -> list Z
}.

(** ** Input validation *)

Module RpcParse.

Definition isspace (c : Z) : bool := (c =? 32) || ((9 <=? c) && (c <=? 13)).
Definition isdigit (c : Z) : bool := (48 <=? c) && (c <=? 57).
Definition isxdigit (c : Z) : bool := negb (Blob.HexDigit c =? -1).
Definition tolower (c : Z) : Z := if (65 <=? c) && (c <=? 90) then c + 32 else c.

Fixpoint skip_space (s : list Z) : list Z :=
  match s with c :: s' => if isspace c then skip_space s' else s | [] => [] end.
(** The value of the leading digits and what follows them. *)
Fixpoint digits (acc : Z) (s : list Z) : Z * list Z :=
  match s with c :: s' => if isdigit c then digits (10 * acc + (c - 48)) s' else (acc, s) | [] => (acc, s) end.
(** [std::stol] and [std::stoll] on 64 bits: the value and the rest of the text; [None] throws. *)
Definition stol (s : list Z) : option (Z * list Z) :=
  let s := skip_space s in
  let '(negative, s) := match s with 45 :: s => (true, s) | 43 :: s => (false, s) | _ => (false, s) end in
  match s with
  | c :: _ =>
      if isdigit c then
        let '(v, rest) := digits 0 s in
        let v := if negative then - v else v in
        if (- 2 ^ 63 <=? v) && (v <? 2 ^ 63) then Some (v, rest) else None
      else None
  | [] => None
  end.

Definition SafeParseInt (s : list Z) (min max : Z) : option Z :=
  match stol s with
  | Some (value, []) => if (value <? min) || (max <? value) then None else Some (i32 value)
  | _ => None
  end.
Definition SafeParseHash (s : list Z) : option uint256 :=
  if negb (Z.of_nat (length s) =? 64) then None
  else if negb (forallb isxdigit s) then None else Some (Blob.SetHex 32 s).
Definition SafeParsePort (s : list Z) : option Z :=
  match stol s with
  | Some (value, []) => if (value <? 1) || (65535 <? value) then None else Some (u16 value)
  | _ => None
  end.

(** A byte of 128 or more is a negative [char]. *)
Definition escape_char (c : Z) : list Z :=
  if c =? 34 then [92; 34]
  else if c =? 92 then [92; 92]
  else if c =? 8 then [92; 98]
  else if c =? 12 then [92; 102]
  else if c =? 10 then [92; 110]
  else if c =? 13 then [92; 114]
  else if c =? 9 then [92; 116]
  else if (c <? 32) || (128 <=? c) then [92; 117; 48; 48] ++ Blob.hex_byte c
  else [c].
Definition EscapeJSONString (s : list Z) : list Z := concat (escape_char <$> s).

(** [find_last_of(':')], with the texts before and after it. *)
Fixpoint split_last_colon (s : list Z) : option (list Z * list Z) :=
  match s with
  | [] => None
  | c :: s =>
      match split_last_colon s with
      | Some (a, b) => Some (c :: a, b)
      | None => if c =? 58 then Some ([], s) else None
      end
  end.
End RpcParse.
Import RpcParse.

(** ** The server *)

Section Server.
Context `{RandomXLib}.

(** The miner object with its thread; the chain state is that of the node. *)
Record MinerThread := mkMT { mt_miner : CPUMiner; mt_worker : option worker; mt_rx : Rx.state }.
Record Server := mkServer {
  net : NetworkManager;
  miner_ : option MinerThread;
  clock : Clock;
  rpc_shutting_down_ : bool;
  shutdown_requested_ : bool
}.
End Server.

(** What a handler comes to: its answer, an exception with its message, or a wait for the mining thread to end: of
    [stopmining], or of the first [Stop] of [generate]. *)
Inductive outcome :=
| Reply (s : list Z)
| Throws (what : list Z)
| Stopping
| Generating (start_height target_height : Z).

Module Rpc.
Section Rpc.
Context `{RandomXLib} `{HeaderChecks} `{Proto.BoostAsio} `{HashOrder} `{JsonLib} `{LibText}.
Context (host : Endian.host) (params : ChainParams) (process_nonce network_magic : Z).
Context (rd : Readings) (conn : option Connection) (write_ok : bool) (ec_message : list Z).
Implicit Types (S : Server) (args : list (list Z)).

Definition result : Type := option (outcome * Server * list net_effect).
Definition reply (s : list Z) S : result := Some (Reply s, S, []).
Definition fail (message : string) S : result := reply (error message) S.

Definition with_net N S := mkServer N (miner_ S) (clock S) (rpc_shutting_down_ S) (shutdown_requested_ S).
Definition with_miner m S := mkServer (net S) m (clock S) (rpc_shutting_down_ S) (shutdown_requested_ S).
Definition with_clock c S := mkServer (net S) (miner_ S) c (rpc_shutting_down_ S) (shutdown_requested_ S).
Definition with_bans f S := with_net (Net.with_life (Life.with_bans f) (net S)) S.

Definition chain S : Chainstate := chain_ (net S).
Definition life S : PeerLifecycleManager := peer_manager_ (net S).
Definition GetTime S : Z := Clocks.GetTime (Net.now rd) (clock S).
Definition height_of S (p : option block_ptr) : Z := match p with Some t => deref nHeight 0 (index (chain S)) t | None => -1 end.
Definition hex_or (d : string) (p : option block_ptr) : list Z := match p with Some t => Blob.GetHex t | None => str d end.
Definition difficulty_text S (p : option block_ptr) : list Z :=
  match p with
  | Some t => let bits := deref Idx.nBits 0 (index (chain S)) t in if bits =? 0 then str "1" else show_difficulty bits
  | None => str "1"
  end.
Definition median_time S (p : option block_ptr) : Z := match p with Some t => GetMedianTimePast (index (chain S)) t | None => 0 end.

(** *** Blockchain commands *)

Definition HandleGetInfo args S : result :=
  let tip := tip (chain S) in
  reply (text "{" ++ nl ++ text "  `version`: `0.1.0`," ++ nl ++
    text "  `chain`: `" ++ str (Params.GetChainTypeString params) ++ text "`," ++ nl ++
    text "  `blocks`: " ++ dec (height_of S tip) ++ text "," ++ nl ++
    text "  `headers`: " ++ dec (height_of S tip) ++ text "," ++ nl ++
    text "  `bestblockhash`: `" ++ hex_or "null" tip ++ text "`," ++ nl ++
    text "  `difficulty`: " ++ difficulty_text S tip ++ text "," ++ nl ++
    text "  `mediantime`: " ++ dec (median_time S tip) ++ text "," ++ nl ++
    text "  `connections`: " ++ dec (Z.of_nat (Life.peer_count (life S))) ++ nl ++ text "}" ++ nl) S.

Definition FormatTime (unix_time : Z) : list Z := if unix_time =? 0 then str "1970-01-01 00:00:00 UTC" else put_time unix_time.

(** [compute_avg]: the sum of the intervals and their number. *)
Fixpoint intervals (m : block_map) (window : nat) (cur : block_ptr) : Z * Z :=
  match window with
  | O => (0, 0)
  | Datatypes.S window =>
      match deref Idx.pprev None m cur with
      | None => (0, 0)
      | Some prev =>
          let dt := deref Idx.nTime 0 m cur - deref Idx.nTime 0 m prev in
          let '(sum, count) := intervals m window prev in (dt + sum, count + 1)
      end
  end.
Definition compute_avg S (p : option block_ptr) (window : nat) : Z * Z :=
  match p with Some t => intervals (index (chain S)) window t | None => (0, 0) end.

Definition average_line S (label : string) (window : nat) : list Z :=
  let '(sum, count) := compute_avg S (tip (chain S)) window in
  text "  `avg_block_time_" ++ str label ++ text "`: `" ++ show_minutes sum count ++ text " mins`," ++ nl.

Definition HandleGetBlockchainInfo args S : result :=
  let t := tip (chain S) in
  let time := match t with Some p => deref Idx.nTime 0 (index (chain S)) p | None => 0 end in
  let '(ibd, c) := Act.IsInitialBlockDownload params (GetTime S) (chain S) in
  reply (text "{" ++ nl ++
    text "  `chain`: `" ++ str (Params.GetChainTypeString params) ++ text "`," ++ nl ++
    text "  `blocks`: " ++ dec (height_of S t) ++ text "," ++ nl ++
    text "  `headers`: " ++ dec (height_of S t) ++ text "," ++ nl ++
    text "  `bestblockhash`: `" ++ hex_or "null" t ++ text "`," ++ nl ++
    text "  `difficulty`: " ++ difficulty_text S t ++ text "," ++ nl ++
    text "  `time`: " ++ dec time ++ text "," ++ nl ++
    text "  `time_str`: `" ++ (match t with Some _ => FormatTime time | None => str "null" end) ++ text "`," ++ nl ++
    text "  `mediantime`: " ++ dec (median_time S t) ++ text "," ++ nl ++
    text "  `mediantime_str`: `" ++ (match t with Some _ => FormatTime (median_time S t) | None => str "null" end) ++ text "`," ++ nl ++
    text "  `chainwork`: `" ++ (match t with Some p => Persist.work_hex (deref Idx.nChainWork 0 (index (chain S)) p) | None => str "0" end) ++ text "`," ++ nl ++
    text "  `log2_chainwork`: " ++ show_log2 (match t with Some p => deref Idx.nChainWork 0 (index (chain S)) p | None => 1 end) ++ text "," ++ nl ++
    average_line S "10" 10 ++ average_line S "20" 20 ++ average_line S "40" 40 ++ average_line S "100" 100 ++ average_line S "500" 500 ++
    text "  `asert`: {" ++ nl ++
    text "    `target_spacing`: `" ++ show_minutes (nPowTargetSpacing (consensus params)) 1 ++ text " mins`," ++ nl ++
    text "    `half_life`: `" ++ show_hours (nASERTHalfLife (consensus params)) ++ text " hours`," ++ nl ++
    text "    `anchor_height`: " ++ dec (nASERTAnchorHeight (consensus params)) ++ nl ++ text "  }," ++ nl ++
    text "  `initialblockdownload`: " ++ bool_text ibd ++ nl ++ text "}" ++ nl) (with_net (Net.with_chain c (net S)) S).

Definition HandleGetBlockCount args S : result := reply (dec (height_of S (tip (chain S))) ++ nl) S.

Definition HandleGetBlockHash args S : result :=
  match args with
  | [] => fail "Missing height parameter" S
  | a :: _ =>
      match SafeParseInt a 0 10000000 with
      | None => fail "Invalid height (must be 0-10000000)" S
      | Some height =>
          match Act.GetBlockAtHeight (chain S) height with
          | None => fail "Block height out of range" S
          | Some p => reply (Blob.GetHex p ++ nl) S
          end
      end
  end.

Definition confirmations S (p : block_ptr) : Z :=
  if Act.IsOnActiveChain (chain S) (Some p) then i32 (height_of S (tip (chain S)) - height_of S (Some p) + 1) else -1.

Definition header_text S (p : block_ptr) (b : Idx.CBlockIndex) : list Z :=
  text "{" ++ nl ++
  text "  `hash`: `" ++ Blob.GetHex p ++ text "`," ++ nl ++
  text "  `confirmations`: " ++ dec (confirmations S p) ++ text "," ++ nl ++
  text "  `height`: " ++ dec (nHeight b) ++ text "," ++ nl ++
  text "  `version`: " ++ dec (Idx.nVersion b) ++ text "," ++ nl ++
  text "  `versionHex`: `" ++ hex8 (Idx.nVersion b) ++ text "`," ++ nl ++
  text "  `time`: " ++ dec (Idx.nTime b) ++ text "," ++ nl ++
  text "  `mediantime`: " ++ dec (median_time S (Some p)) ++ text "," ++ nl ++
  text "  `nonce`: " ++ dec (Idx.nNonce b) ++ text "," ++ nl ++
  text "  `bits`: `" ++ hex8 (Idx.nBits b) ++ text "`," ++ nl ++
  text "  `difficulty`: " ++ difficulty_text S (Some p) ++ text "," ++ nl ++
  text "  `chainwork`: `" ++ Persist.work_hex (Idx.nChainWork b) ++ text "`," ++ nl ++
  text "  `previousblockhash`: `" ++ hex_or "null" (Idx.pprev b) ++ text "`," ++ nl ++
  text "  `rx_hash`: `" ++ Blob.GetHex (Idx.hashRandomX b) ++ text "`" ++ nl ++ text "}" ++ nl.

Definition HandleGetBlockHeader args S : result :=
  match args with
  | [] => fail "Missing block hash parameter" S
  | a :: _ =>
      match SafeParseHash a with
      | None => fail "Invalid block hash (must be 64 hex characters)" S
      | Some hash =>
          match index (chain S) !! hash with
          | None => fail "Block not found" S
          | Some b => reply (header_text S hash b) S
          end
      end
  end.

Definition HandleGetBestBlockHash args S : result :=
  match tip (chain S) with None => reply (str "null" ++ nl) S | Some t => reply (Blob.GetHex t ++ nl) S end.
Definition HandleGetDifficulty args S : result := reply (difficulty_text S (tip (chain S)) ++ nl) S.

(** *** Mining commands *)

Definition DEFAULT_HASHRATE_CALCULATION_BLOCKS : Z := 4.

Fixpoint walk_back (m : block_map) (n : nat) (p : block_ptr) : block_ptr :=
  match n with
  | O => p
  | Datatypes.S n => match deref Idx.pprev None m p with Some prev => walk_back m n prev | None => p end
  end.
(** The difference of two [uint32_t] times is taken at 32 bits before it is widened. *)
Definition hash_rate S (nblocks : Z) : option (Z * Z) :=
  match tip (chain S) with
  | None => None
  | Some pb =>
      let m := index (chain S) in
      if deref nHeight 0 m pb <=? 0 then None
      else
        let pb0 := walk_back m (Z.to_nat (Z.min nblocks (deref nHeight 0 m pb))) pb in
        let timeDiff := u32 (deref Idx.nTime 0 m pb - deref Idx.nTime 0 m pb0) in
        if 0 <? timeDiff then Some ((deref Idx.nChainWork 0 m pb - deref Idx.nChainWork 0 m pb0) mod 2 ^ 256, timeDiff) else None
  end.
Definition rate_text S (nblocks : Z) : list Z := match hash_rate S nblocks with Some (work, time) => show_rate work time | None => str "0" end.

Definition HandleGetMiningInfo args S : result :=
  let t := tip (chain S) in
  reply (text "{" ++ nl ++
    text "  `blocks`: " ++ dec (height_of S t) ++ text "," ++ nl ++
    text "  `difficulty`: " ++ difficulty_text S t ++ text "," ++ nl ++
    text "  `networkhashps`: " ++ rate_text S DEFAULT_HASHRATE_CALCULATION_BLOCKS ++ text "," ++ nl ++
    text "  `chain`: `" ++ str (Params.GetChainTypeString params) ++ text "`" ++ nl ++ text "}" ++ nl) S.

Definition HandleGetNetworkHashPS args S : result :=
  match args with
  | [] => reply (rate_text S DEFAULT_HASHRATE_CALCULATION_BLOCKS ++ nl) S
  | a :: _ =>
      match SafeParseInt a (-1) 10000000 with
      | None => fail "Invalid nblocks parameter (must be -1 to 10000000)" S
      | Some nblocks =>
          let nblocks := if (nblocks =? -1) || (nblocks =? 0) then DEFAULT_HASHRATE_CALCULATION_BLOCKS else nblocks in
          reply (rate_text S nblocks ++ nl) S
      end
  end.

(** The miner with the chain of the node. *)
Definition sys (mt : MinerThread) S : Mine.system := Mine.mkSystem (mt_miner mt) (mt_worker mt) (mt_rx mt) (chain S).
Definition put_sys (s : Mine.system) S : Server := with_miner (Some (mkMT (Mine.miner s) (Mine.worker_ s) (Mine.worker_rx s))) S.

(** The optional address: an error message, or the miner with the address. *)
Definition set_address (a : list Z) (m : CPUMiner) : string + CPUMiner :=
  if negb (Z.of_nat (length a) =? 40) then inl "Invalid mining address (must be 40 hex characters)"%string
  else if negb (forallb isxdigit a) then inl "Invalid mining address (must contain only hex characters)"%string
  else inr (Mine.SetMiningAddress (Blob.SetHex 20 a) m).

(** [Start] of the miner: [None] while it waits for a former thread. *)
Definition Start (target_height : Z) (s : Mine.system) : option (bool * Mine.system) :=
  match Mine.Start_exchange s with
  | (false, s) => Some (false, s)
  | (true, s) => match Mine.Start_launch target_height s with Some s => Some (true, s) | None => None end
  end.

Definition HandleStartMining args S : result :=
  match miner_ S with
  | None => fail "Mining not available" S
  | Some mt =>
      if mining_ (mt_miner mt) then fail "Already mining" S
      else
        match (match args with [] => inr (mt_miner mt) | a :: _ => set_address a (mt_miner mt) end) with
        | inl message => fail message S
        | inr m =>
            match Start (-1) (sys (mkMT m (mt_worker mt) (mt_rx mt)) S) with
            | None => None
            | Some (false, s) => fail "Failed to start mining" (put_sys s S)
            | Some (true, s) =>
                reply (text "{" ++ nl ++ text "  `mining`: true," ++ nl ++ text "  `message`: `Mining started`," ++ nl ++
                  text "  `address`: `" ++ Blob.GetHex (mining_address_ (Mine.miner s)) ++ text "`" ++ nl ++ text "}" ++ nl) (put_sys s S)
            end
        end
  end.

(** [HandleStopMining] up to the join in [Stop]. *)
Definition HandleStopMining args S : result :=
  match miner_ S with
  | None => fail "Mining not available" S
  | Some mt =>
      if negb (mining_ (mt_miner mt)) then fail "Not currently mining" S
      else Some (Stopping, put_sys (Mine.Stop_store (sys mt S)) S, [])
  end.
(** After the join: the rest of [HandleStopMining]. *)
Definition stop_mining_end S : result :=
  match miner_ S with
  | None => None
  | Some mt =>
      match Mine.Stop_join (sys mt S) with
      | None => None
      | Some s => reply (text "{" ++ nl ++ text "  `mining`: false," ++ nl ++ text "  `message`: `Mining stopped`" ++ nl ++ text "}" ++ nl) (put_sys s S)
      end
  end.

(** [HandleGenerate] up to the join in the first [Stop]; the rest is [generate_start], [generate_stop] and [generate_end]. *)
Definition HandleGenerate args S : result :=
  match miner_ S with
  | None => fail "Mining not available" S
  | Some mt =>
      if negb (bool_decide (chainType params = REGTEST)) then fail "generate only available on regtest" S
      else
        match args with
        | [] => fail "Missing number of blocks parameter" S
        | a :: rest =>
            match SafeParseInt a 1 1000 with
            | None => fail "Invalid number of blocks (must be 1-1000)" S
            | Some num_blocks =>
                match (match rest with [] => inr (mt_miner mt) | a :: _ => set_address a (mt_miner mt) end) with
                | inl message => fail message S
                | inr m =>
                    let start_height := height_of S (tip (chain S)) in
                    let s := Mine.Stop_store (sys (mkMT m (mt_worker mt) (mt_rx mt)) S) in
                    Some (Generating start_height (i32 (start_height + num_blocks)), put_sys s S, [])
                end
            end
        end
  end.
(** After the first join and the pause; [None] while a join waits. *)
Definition generate_start (target_height : Z) S : result :=
  match miner_ S with
  | None => None
  | Some mt =>
      match Mine.Stop_join (sys mt S) with
      | None => None
      | Some s =>
          match Start target_height s with
          | None => None
          | Some (false, s) => reply (text "[]" ++ nl) (put_sys s S)
          | Some (true, s) => Some (Stopping, put_sys s S, [])
          end
      end
  end.
(** The second [Stop], when the miner has ended or after ten minutes, and the answer after its join. *)
Definition generate_stop S : Server := match miner_ S with None => S | Some mt => put_sys (Mine.Stop_store (sys mt S)) S end.
Definition generate_end (start_height : Z) S : result :=
  match miner_ S with
  | None => None
  | Some mt =>
      match Mine.Stop_join (sys mt S) with
      | None => None
      | Some s =>
          let actual_height := height_of S (tip (chain S)) in
          reply (text "{" ++ nl ++ text "  `blocks`: " ++ dec (i32 (actual_height - start_height)) ++ text "," ++ nl ++
            text "  `height`: " ++ dec actual_height ++ nl ++ text "}" ++ nl) (put_sys s S)
      end
  end.

(** *** Network commands *)

Definition HandleGetConnectionCount args S : result := reply (dec (Z.of_nat (Life.peer_count (life S))) ++ nl) S.

(** The lines before and after the user agent. *)
Definition peer_head (id : Z) (p : Peer) : list Z :=
  text "  {" ++ nl ++
  text "    `id`: " ++ dec id ++ text "," ++ nl ++
  text "    `addr`: `" ++ PeerM.address p ++ text ":" ++ dec (PeerM.port p) ++ text "`," ++ nl ++
  text "    `inbound`: " ++ bool_text (is_inbound_ (cfg p)) ++ text "," ++ nl ++
  text "    `connected`: " ++ bool_text (PeerM.is_connected p) ++ text "," ++ nl ++
  text "    `successfully_connected`: " ++ bool_text (successfully_connected_ p) ++ text "," ++ nl ++
  text "    `version`: " ++ dec (peer_version_ (remote_ p)) ++ text "," ++ nl ++ text "    ".
Definition peer_tail S (last : bool) (id : Z) (p : Peer) : list Z :=
  let peers := Life.mis_view <$> Lifecycle.peer_states_ (life S) in
  text "`," ++ nl ++
  text "    `services`: `" ++ hex16 (peer_services_ (remote_ p)) ++ text "`," ++ nl ++
  text "    `startingheight`: " ++ dec (peer_start_height_ (remote_ p)) ++ text "," ++ nl ++
  text "    `pingtime`: " ++ show_ms (ping_time_ms (Peer.stats_ p)) ++ text "," ++ nl ++
  text "    `bytessent`: " ++ dec (bytes_sent (Peer.stats_ p)) ++ text "," ++ nl ++
  text "    `bytesrecv`: " ++ dec (bytes_received (Peer.stats_ p)) ++ text "," ++ nl ++
  text "    `messagessent`: " ++ dec (messages_sent (Peer.stats_ p)) ++ text "," ++ nl ++
  text "    `messagesrecv`: " ++ dec (messages_received (Peer.stats_ p)) ++ text "," ++ nl ++
  text "    `conntime`: " ++ dec (steady_ms (r_env rd) / 1000 - connected_time (Peer.stats_ p)) ++ text "," ++ nl ++
  text "    `misbehavior_score`: " ++ dec (Mis.GetMisbehaviorScore id peers) ++ text "," ++ nl ++
  text "    `should_disconnect`: " ++ bool_text (Mis.ShouldDisconnect id peers) ++ nl ++
  (if last then text "  }" else text "  },") ++ nl.
Definition peer_text S (last : bool) (id : Z) (e : PeerEntry) : list Z :=
  peer_head id (peer e) ++ text "`subver`: `" ++ peer_user_agent_ (remote_ (peer e)) ++ peer_tail S last id (peer e).
Fixpoint peer_texts S (l : list (Z * PeerEntry)) : list Z :=
  match l with
  | [] => []
  | (id, e) :: l => peer_text S (match l with [] => true | _ => false end) id e ++ peer_texts S l
  end.
Definition HandleGetPeerInfo args S : result :=
  reply (text "[" ++ nl ++ peer_texts S (Life.by_id (Lifecycle.peer_states_ (life S))) ++ text "]" ++ nl) S.

Definition success (message : list Z) : list Z :=
  text "{" ++ nl ++ text "  `success`: true," ++ nl ++ text "  `message`: `" ++ message ++ text "`" ++ nl ++ text "}" ++ nl.
(** The second parameter. *)
Definition command_of args : list Z := match args with _ :: c :: _ => c | _ => str "add" end.

(** [connect_to] of the network manager. *)
Definition connect_to (addr : Proto.NetworkAddress) (N : NetworkManager) : ConnectionResult * NetworkManager * list net_effect :=
  let dial := Life.connect_to (r_env rd) process_nonce network_magic (Net.chain_height N) (local_nonce N) (running_ N) addr 0 conn in
  let '(N', o) := Net.run_life (fun L => let '(_, L, o) := dial L in (L, o)) N in
  ((dial (peer_manager_ N)).1.1, N', o).

Definition HandleAddNode args S : result :=
  match args with
  | [] => fail "Missing node address parameter" S
  | node_addr :: _ =>
      match split_last_colon node_addr with
      | None => fail "Invalid address format (use host:port)" S
      | Some (hostname, port_str) =>
          match SafeParsePort port_str with
          | None => fail "Invalid port (must be 1-65535)" S
          | Some port =>
              if bool_decide (command_of args = str "add") then
                match Proto.make_address hostname with
                | None => reply (text "{`error`:`Invalid IP address: " ++ ec_message ++ text "`}" ++ nl) S
                | Some ip =>
                    let addr := Proto.mkNA 1 (match ip with inl v4 => Proto.v4_mapped v4 | inr v6 => v6 end) port in
                    match connect_to addr (net S) with
                    | (Success, N, o) => Some (Reply (success (str "Connection initiated to " ++ node_addr)), with_net N S, o)
                    | (_, N, o) => Some (Reply (error "Failed to connect to node"), with_net N S, o)
                    end
                end
              else if bool_decide (command_of args = str "remove") then
                let peer_id := Life.find_peer_by_address hostname port (life S) in
                if peer_id <? 0 then
                  reply (text "{" ++ nl ++ text "  `error`: `Peer not found: " ++ node_addr ++ text "`" ++ nl ++ text "}" ++ nl) S
                else
                  let '(_, N, o) := Net.disconnect_from rd peer_id (net S) in
                  Some (Reply (success (str "Disconnected from " ++ node_addr)), with_net N S, o)
              else fail "Unknown command (use 'add' or 'remove')" S
          end
      end
  end.

(** *** Bans *)

Definition DEFAULT_BANTIME_SEC : Z := 24 * 60 * 60.
Definition canonical (ip : bytes + bytes) : list Z :=
  match ip with
  | inl v4 => Proto.to_string_v4 v4
  | inr v6 => if Proto.is_v4_mapped v6 then Proto.to_string_v4 (Proto.v4_unmapped v6) else Proto.to_string_v6 v6
  end.

(** The third and fourth parameters: an error message, or the time and the mode. *)
Definition ban_time args : string + Z :=
  match args with
  | _ :: _ :: b :: _ =>
      match stol b with
      | None => inl "Invalid bantime parameter"%string
      | Some (bantime, _) => if bantime <? 0 then inl "Invalid bantime (must be >= 0)"%string else inr bantime
      end
  | _ => inr 0
  end.
Definition ban_mode args : list Z := match args with _ :: _ :: _ :: m :: _ => tolower <$> m | _ => str "relative" end.
Definition ban_offset (mode : list Z) (bantime now : Z) : string + Z :=
  if bool_decide (mode = str "permanent") then inr 0
  else if bool_decide (mode = str "absolute") then
    if bantime =? 0 then inl "absolute mode requires a non-zero bantime (unix timestamp)"%string
    else if bantime <=? now then inl "absolute bantime must be in the future"%string
    else inr (i64 (bantime - now))
  else inr (if bantime =? 0 then DEFAULT_BANTIME_SEC else bantime).
Definition ban_message (mode canon : list Z) (now offset : Z) : list Z :=
  if bool_decide (mode = str "permanent") then str "Permanently banned " ++ canon
  else if bool_decide (mode = str "absolute") then str "Banned " ++ canon ++ str " until " ++ dec (i64 (now + offset)) ++ str " (absolute)"
  else str "Banned " ++ canon ++ str " for " ++ dec offset ++ str " seconds".

Definition HandleSetBan args S : result :=
  match args with
  | [] => fail "Missing subnet/IP parameter" S
  | address :: _ =>
      if bool_decide (command_of args = str "add") then
        match Proto.make_address address with
        | None => fail "Invalid IP address" S
        | Some ip =>
            match ban_time args with
            | inl message => fail message S
            | inr bantime =>
                let now := GetTime S in
                match ban_offset (ban_mode args) bantime now with
                | inl message => fail message S
                | inr offset =>
                    reply (success (ban_message (ban_mode args) (canonical ip) now offset)) (with_bans (Bans.Ban now write_ok (canonical ip) offset) S)
                end
            end
        end
      else if bool_decide (command_of args = str "remove") then
        let now := GetTime S in
        let unban b :=
          match Proto.make_address address with
          | None => Bans.Unban now write_ok address b
          | Some ip =>
              let b := Bans.Unban now write_ok (canonical ip) b in
              if bool_decide (canonical ip = address) then b else Bans.Unban now write_ok address b
          end in
        reply (success (str "Unbanned " ++ address)) (with_bans unban S)
      else fail "Unknown command (use 'add' or 'remove')" S
  end.

Fixpoint ban_texts (l : list (list Z * CBanEntry)) : list Z :=
  match l with
  | [] => []
  | (address, e) :: l =>
      text "  {" ++ nl ++ text "    `address`: `" ++ address ++ text "`," ++ nl ++
      text "    `banned_until`: " ++ dec (nBanUntil e) ++ text "," ++ nl ++
      text "    `ban_created`: " ++ dec (nCreateTime e) ++ text "," ++ nl ++
      text "    `ban_reason`: `manually added`" ++ nl ++ text "  }" ++ (match l with [] => [] | _ => text "," end) ++ nl ++ ban_texts l
  end.
Definition HandleListBanned args S : result :=
  reply (text "[" ++ nl ++ ban_texts (Bans.sorted_items (banned_ (ban_manager_ (life S)))) ++ text "]" ++ nl) S.

Definition HandleGetAddrManInfo args S : result :=
  let am := Lifecycle.addr_manager_ (life S) in
  reply (text "{" ++ nl ++
    text "  `total`: " ++ dec (Z.of_nat (AddrMan.size am)) ++ text "," ++ nl ++
    text "  `tried`: " ++ dec (Z.of_nat (base.size (tried_ am))) ++ text "," ++ nl ++
    text "  `new`: " ++ dec (Z.of_nat (base.size (new_ am))) ++ nl ++ text "}" ++ nl) S.

(** *** Control and testing commands *)

Definition HandleStop args S : result :=
  reply (text "`CoinbaseChain stopping`" ++ nl) (mkServer (net S) (miner_ S) (clock S) true true).

Definition HandleSetMockTime args S : result :=
  match args with
  | [] => fail "Missing timestamp parameter" S
  | a :: _ =>
      if bool_decide (chainType params = MAIN) then fail "setmocktime not allowed on mainnet" S
      else
        match stol a with
        | None => fail "Invalid timestamp format" S
        | Some (mock_time, _) =>
            if negb (mock_time =? 0) && ((mock_time <? 0) || (4294967295 <? mock_time)) then
              fail "Timestamp out of range (must be 0 or 1-4294967295)" S
            else
              reply (if mock_time =? 0 then success (str "Mock time disabled")
                     else text "{" ++ nl ++ text "  `success`: true," ++ nl ++ text "  `mocktime`: " ++ dec mock_time ++ text "," ++ nl ++
                          text "  `message`: `Mock time set to " ++ dec mock_time ++ text "`" ++ nl ++ text "}" ++ nl)
                (with_clock (Clocks.SetMockTime mock_time (clock S)) S)
        end
  end.

Definition HandleInvalidateBlock args S : result :=
  match args with
  | [] => fail "Missing block hash parameter" S
  | a :: _ =>
      match SafeParseHash a with
      | None => fail "Invalid block hash (must be 64 hex characters)" S
      | Some hash =>
          match index (chain S) !! hash with
          | None => fail "Block not found" S
          | Some _ =>
              match Act.InvalidateBlock (chain S) hash with
              | None => None
              | Some (ok, c, events) =>
                  let '(N, o) := Net.perform host params rd (Notify <$> events) (Net.with_chain c (net S)) in
                  Some (Reply (if ok then
                    text "{" ++ nl ++ text "  `success`: true," ++ nl ++ text "  `hash`: `" ++ Blob.GetHex hash ++ text "`," ++ nl ++
                    text "  `message`: `Block and all descendants invalidated`" ++ nl ++ text "}" ++ nl
                    else error "Failed to invalidate block"), with_net N S, o)
              end
          end
      end
  end.

(** *** Requests *)

(** [RegisterHandlers]. *)
Definition commands : list (list Z * (list (list Z) -> Server -> result)) := [
    (str "getinfo", HandleGetInfo); (str "getblockchaininfo", HandleGetBlockchainInfo); (str "getblockcount", HandleGetBlockCount);
    (str "getblockhash", HandleGetBlockHash); (str "getblockheader", HandleGetBlockHeader); (str "getbestblockhash", HandleGetBestBlockHash);
    (str "getdifficulty", HandleGetDifficulty); (str "getmininginfo", HandleGetMiningInfo); (str "getnetworkhashps", HandleGetNetworkHashPS);
    (str "startmining", HandleStartMining); (str "stopmining", HandleStopMining); (str "generate", HandleGenerate);
    (str "getconnectioncount", HandleGetConnectionCount); (str "getpeerinfo", HandleGetPeerInfo); (str "addnode", HandleAddNode);
    (str "setban", HandleSetBan); (str "listbanned", HandleListBanned); (str "getaddrmaninfo", HandleGetAddrManInfo); (str "stop", HandleStop);
    (str "setmocktime", HandleSetMockTime); (str "invalidateblock", HandleInvalidateBlock)].
Definition handlers_ : gmap (list Z) (list (list Z) -> Server -> result) := list_to_map commands.

Definition ExecuteCommand (method : list Z) args S : result :=
  match handlers_ !! method with
  | None => fail "Unknown command" S
  | Some handler =>
      match handler args S with
      | Some (Throws what, srv, o) => Some (Reply (text "{`error`:`" ++ EscapeJSONString what ++ text "`}" ++ nl), srv, o)
      | r => r
      end
  end.

(** The method and the parameters of a request, or the error. *)
Definition parse_request (request : list Z) : string + list Z * list (list Z) :=
  match json_parse request with
  | None => inl "Invalid JSON"%string
  | Some j =>
      match Persist.member "method" j with
      | Some (JStr method) =>
          inr (method, match Persist.member "params" j with
                       | Some (JArr l) => (fun v => match v with JStr s => s | v => json_dump v end) <$> l
                       | Some (JStr s) => [s]
                       | _ => []
                       end)
      | _ => inl "Missing or invalid method field"%string
      end
  end.

(** [HandleClient] on what the one [recv] into 4096 bytes returns; no answer to an empty read. *)
Definition HandleClient (received : list Z) S : result :=
  if rpc_shutting_down_ S then fail "Server shutting down" S
  else match received with
  | [] => reply [] S
  | _ =>
      if 4096 <=? Z.of_nat (length received) then fail "Request too large" S
      else match parse_request received with
      | inl message => fail message S
      | inr (method, args) => ExecuteCommand method args S
      end
  end.
End Rpc.
End Rpc.
