(* ===== verification/RpcProps.v ===== *)
(** * RpcProps: what the RPC commands answer and do *)
From Stdlib Require Import String Ascii.
From stdpp Require Import gmap pretty.
From S2P Require Import Prelude Arith Bytes Compact Sha256 Block BlockIndex Chain ChainParams Pow RandomX Validation.
From S2P Require Import ChainSelector BlockManager SameTree Persist Chainstate OrphanPool Accept Activation NodeChecks Reorg ChainstateProps Invalidate Miner MinerProps.
From S2P Require Import Protocol Message Misbehavior HeaderSync HeaderSyncProps Peer PeerProps AddrMan AddrManProps Discovery DiscoveryProps.
From S2P Require Import Relay Ban BanProps Lifecycle LifecycleProps Anchors Node NodeProps Clock Rpc.
#[local] Open Scope Z_scope.
Import CS.
Import Idx (nHeight).
Import RpcParse.

(** ** Numbers and hashes as text *)

Lemma pretty_digit x : (x < 10)%N -> Z.of_N (N_of_ascii (pretty_N_char x)) = 48 + Z.of_N x.
Proof.
  intros Hx. assert (x = 0 \/ x = 1 \/ x = 2 \/ x = 3 \/ x = 4 \/ x = 5 \/ x = 6 \/ x = 7 \/ x = 8 \/ x = 9)%N as Hc by lia.
  by repeat destruct Hc as [->|Hc]; [..|subst].
Qed.

Lemma digits_go x s : digits 0 (str (pretty_N_go x s)) = digits (Z.of_N x) (str s).
Proof.
  revert s. induction (N.lt_wf_0 x) as [x _ IH]; intros s. destruct (decide (x = 0)%N) as [->|Hx]; [done|].
  rewrite pretty_N_go_step by lia. rewrite IH by (apply N.div_lt; lia). pose proof (N.mod_lt x 10 ltac:(lia)) as Hm.
  pose proof (N.div_mod x 10 ltac:(lia)) as E. revert Hm E. generalize (x / 10)%N (x mod 10)%N. intros q r Hr E.
  change (str (String (pretty_N_char r) s)) with (Z.of_N (N_of_ascii (pretty_N_char r)) :: str s). rewrite pretty_digit by done. cbn [digits].
  unfold isdigit. rewrite (proj2 (Z.leb_le _ _)), (proj2 (Z.leb_le _ _)) by lia. cbn [andb]. f_equal. lia.
Qed.
Lemma dec_digits z : 0 <= z -> digits 0 (dec z) = (z, []).
Proof.
  intros Hz. destruct z as [|p|p]; [done| |lia]. unfold dec, pretty, pretty_Z, pretty_positive, pretty, pretty_N.
  destruct (decide _) as [E|_]; [lia|]. by rewrite digits_go.
Qed.

Lemma digit_text r s : (r < 10)%N -> str (String (pretty_N_char r) s) = (48 + Z.of_N r) :: str s /\ isdigit (48 + Z.of_N r) = true.
Proof.
  intros Hr. split; [by rewrite <- pretty_digit|]. unfold isdigit. apply andb_true_iff. split; apply Z.leb_le; lia.
Qed.
Lemma go_digits x s : Forall (fun c => isdigit c = true) (str s) ->
  Forall (fun c => isdigit c = true) (str (pretty_N_go x s)) /\ (x <> 0%N \/ str s <> [] -> str (pretty_N_go x s) <> []).
Proof.
  revert s. induction (N.lt_wf_0 x) as [x _ IH]; intros s Hs. destruct (decide (x = 0)%N) as [->|Hx]; [split; [done|]; by intros [?|?]|].
  rewrite pretty_N_go_step by lia. destruct (digit_text (x `mod` 10)%N s) as [E Hd]; [apply N.mod_lt; lia|].
  destruct (IH (x `div` 10)%N ltac:(apply N.div_lt; lia) (String (pretty_N_char (x `mod` 10)) s)) as [H1 H2]; [rewrite E; by constructor|].
  split; [done|]. intros _. apply H2. right. by rewrite E.
Qed.
Lemma dec_chars z : 0 <= z -> Forall (fun c => isdigit c = true) (dec z) /\ dec z <> [].
Proof.
  intros Hz. destruct z as [|p|p]; [by split; [repeat constructor|]| |lia]. unfold dec, pretty, pretty_Z, pretty_positive, pretty, pretty_N.
  destruct (decide _) as [E|Hn]; [lia|]. destruct (go_digits (N.pos p) EmptyString) as [H1 H2]; [constructor|]. split; [done|]. apply H2. by left.
Qed.

Lemma stol_dec z : 0 <= z < 2 ^ 63 -> stol (dec z) = Some (z, []).
Proof.
  intros Hz. destruct (dec_chars z ltac:(lia)) as [Hd Hn]. pose proof (dec_digits z ltac:(lia)) as E. revert Hd Hn E.
  destruct (dec z) as [|c s]; [done|]. intros [Hc _]%Forall_cons _ E. unfold stol, skip_space. fold skip_space.
  assert (Hr : 48 <= c <= 57) by (unfold isdigit in Hc; apply andb_true_iff in Hc as [?%Z.leb_le ?%Z.leb_le]; lia).
  assert (Hs : isspace c = false) by (unfold isspace; destruct (Z.eqb_spec c 32); [lia|]; destruct (Z.leb_spec c 13); [lia|]; by rewrite andb_false_r).
  rewrite Hs.
  assert (Hsign : (match c :: s with 45 :: s => (true, s) | 43 :: s => (false, s) | _ => (false, c :: s) end) = (false, c :: s)).
  { assert (c = 48 \/ c = 49 \/ c = 50 \/ c = 51 \/ c = 52 \/ c = 53 \/ c = 54 \/ c = 55 \/ c = 56 \/ c = 57) as Hcs by lia.
    by repeat destruct Hcs as [->|Hcs]; [..|subst]. }
  rewrite Hsign, Hc, E. by rewrite (proj2 (Z.leb_le _ _)), (proj2 (Z.ltb_lt _ _)) by lia.
Qed.

Lemma parse_int_dec z min max : 0 <= z < 2 ^ 31 -> min <= z <= max -> SafeParseInt (dec z) min max = Some z.
Proof.
  intros Hz Hb. unfold SafeParseInt. rewrite stol_dec by lia. rewrite (proj2 (Z.ltb_ge _ _)), (proj2 (Z.ltb_ge _ _)) by lia. cbn [orb].
  by rewrite i32_id by (unfold in_s; lia).
Qed.

Lemma parse_int_high z min max : 0 <= z < 2 ^ 31 -> max < z -> SafeParseInt (dec z) min max = None.
Proof. intros Hz Hb. unfold SafeParseInt. rewrite stol_dec by lia. by rewrite (proj2 (Z.ltb_lt max z)), orb_true_r by lia. Qed.

Lemma parse_hash_hex (h : uint256) : blob_wf 32 h -> SafeParseHash (Blob.GetHex h) = Some h.
Proof.
  intros Hh. unfold SafeParseHash. rewrite length_gethex, (proj1 Hh). cbn [negb Z.eqb].
  assert (Hx : forallb isxdigit (Blob.GetHex h) = true).
  { destruct (gethex_hex h (proj2 Hh)) as [Hf _]. apply forallb_forall. intros c Hc%list_elem_of_In. pose proof (proj1 (Forall_forall _ _) Hf c Hc) as Hi.
    unfold is_hex in Hi. unfold isxdigit. apply negb_true_iff, Z.eqb_neq. lia. }
  rewrite Hx. cbn. by rewrite sethex_gethex.
Qed.

(** ** Commands *)

Section Commands.
Context `{RandomXLib} `{HeaderChecks} `{Proto.BoostAsio} `{HashOrder} `{JsonLib} `{LibText}.
Context (host : Endian.host) (params : ChainParams) (process_nonce network_magic : Z).
Context (rd : Readings) (conn : option Connection) (write_ok : bool) (ec_message : list Z).
Implicit Types (srv : Server) (args : list (list Z)).

Abbreviation execute := (Rpc.ExecuteCommand host params process_nonce network_magic rd conn write_ok ec_message).
Abbreviation handlers := (Rpc.handlers_ host params process_nonce network_magic rd conn write_ok ec_message).

Lemma handler_at (i : nat) name f : Rpc.commands host params process_nonce network_magic rd conn write_ok ec_message !! i = Some (name, f) -> handlers !! name = Some f.
Proof.
  intros Hi. unfold Rpc.handlers_. apply elem_of_list_to_map_1; [|by eapply list_elem_of_lookup_2]. apply (bool_decide_unpack _). by vm_compute.
Qed.

(** The handler of a command decides its outcome. *)
Lemma execute_at (i : nat) name f args srv s srv' o :
  Rpc.commands host params process_nonce network_magic rd conn write_ok ec_message !! i = Some (name, f) ->
  f args srv = Some (Reply s, srv', o) -> execute name args srv = Some (Reply s, srv', o).
Proof.
  intros Hi Hf. unfold Rpc.ExecuteCommand. match goal with |- context [match ?x with Some _ => _ | None => _ end] =>
    assert (E : x = Some f) by exact (handler_at i name f Hi); rewrite E end. by rewrite Hf.
Qed.

(** C27: the block queries agree with the active chain and with each other: [getblockcount] gives the height of the tip, [getblockhash] of a height on the
    chain gives the hash of the tip's ancestor at that height, and [getblockheader] of that text finds the same block with its
    height and with one confirmation for itself and one for every block above it; none of them changes the node.  The one exception is the
    limit of [getblockhash]: above height 10,000,000 it answers that the height is invalid, on the chain or not. *)
Theorem block_queries_agree (g : uint256) (srv : Server) (t : block_ptr) (bt : Idx.CBlockIndex) (h : Z) :
  cs_wf g (Rpc.chain srv) -> tip (Rpc.chain srv) = Some t -> index (Rpc.chain srv) !! t = Some bt -> nHeight bt < 2 ^ 31 - 1 ->
  0 <= h <= nHeight bt ->
  execute (str "getblockcount") [] srv = Some (Reply (dec (nHeight bt) ++ nl), srv, []) /\
  exists q b, back (index (Rpc.chain srv)) (Z.to_nat (nHeight bt - h)) t = Some q /\ index (Rpc.chain srv) !! q = Some b /\ nHeight b = h /\
    execute (str "getblockhash") [dec h] srv =
      Some (Reply (if h <=? 10000000 then Blob.GetHex q ++ nl else Rpc.error "Invalid height (must be 0-10000000)"), srv, []) /\
    execute (str "getblockheader") [Blob.GetHex q] srv = Some (Reply (Rpc.header_text srv q b), srv, []) /\
    Rpc.confirmations srv q = nHeight bt - h + 1.
Proof.
  intros Hwf Ht Hbt Hmax Hh. set (c := Rpc.chain srv) in *. set (m := index c) in *.
  pose proof (index_tree g m (cw_index g c Hwf)) as Htree. destruct (tip_at g c t Hwf Ht) as (_ & _ & Ha). fold m in Ha.
  pose proof (path_length m t bt Hbt) as Hlen.
  destruct (ancestor_at_some m Htree t bt h Hbt ltac:(lia)) as (q & b & Eq & Hq & Hb).
  assert (Hback : back m (Z.to_nat (nHeight bt - h)) t = Some q).
  { unfold ancestor_at in Eq. rewrite (deref_eq nHeight 0 m t bt Hbt) in Eq. cbv zeta in Eq. by rewrite (proj2 (Z.leb_le 0 h)), (proj2 (Z.leb_le h _)) in Eq by lia. }
  assert (Hon : CChain.Contains m (path m t) (Some q) = true) by (apply (contains_path m Htree t bt q b); [done..|by eapply ancestor_at_ancestor]).
  assert (Htip : Rpc.height_of srv (tip c) = nHeight bt) by (rewrite Ht; exact (deref_eq nHeight 0 m t bt Hbt)).
  split.
  { eapply (execute_at 2); [reflexivity|]. unfold Rpc.HandleGetBlockCount. fold c. by rewrite Htip. }
  exists q, b. split_and!; try done.
  - eapply (execute_at 3); [reflexivity|]. unfold Rpc.HandleGetBlockHash.
    destruct (Z.leb_spec h 10000000); [rewrite parse_int_dec by lia|by rewrite parse_int_high by lia]. fold c. assert (E : Act.GetBlockAtHeight c h = Some q); [|by rewrite E].
    unfold Act.GetBlockAtHeight, CChain.Height, CChain.at_height. rewrite Ha, Hlen.
    rewrite (proj2 (Z.ltb_ge h 0)), (proj2 (Z.ltb_ge _ h)), (proj2 (Z.leb_gt _ h)) by lia. cbn [orb].
    rewrite (nth_of_lookup _ _ _ (ancestor_at m t h)); [done|]. rewrite (path_lookup m t bt) by (done || lia). by rewrite Z2Nat.id by lia.
  - eapply (execute_at 4); [reflexivity|]. unfold Rpc.HandleGetBlockHeader.
    rewrite parse_hash_hex by (by eapply index_key; [apply Hwf|]). fold c m. by rewrite Hq.
  - unfold Rpc.confirmations. fold c. unfold Act.IsOnActiveChain. fold m. rewrite Ha, Hon. cbn [andb bool_decide]. rewrite bool_decide_true by done. cbn [andb].
    rewrite Htip. cbn [Rpc.height_of]. fold c m. rewrite (deref_eq nHeight 0 m q b Hq), Hb. rewrite i32_id by (unfold in_s; lia). done.
Qed.

(** *** Bans *)

Lemma canonical_normal address ip : Proto.make_address address = Some ip -> Life.normalize_ip_string address = Rpc.canonical ip.
Proof. unfold Life.normalize_ip_string. intros ->. by destruct ip. Qed.

(** An address that is banned in its canonical form is refused in every form. *)
Lemma banned_refused env pn magic height nonce running c permissions L :
  Bans.IsBanned (wall_time env) (Life.normalize_ip_string (remote_address c)) (ban_manager_ L) = true ->
  Mis.HasPermission permissions Mis.NoBan = false ->
  (Life.HandleInboundConnection host env pn magic height nonce running (Some c) permissions L).1 = L.
Proof.
  intros Hb Hn. unfold Life.HandleInboundConnection. destruct (negb running); [done|].
  destruct (Bans.IsBanned _ (remote_address c) _); [done|]. destruct (Bans.IsDiscouraged _ (remote_address c) _); [done|]. destruct (negb _); [done|]. cbv zeta.
  unfold Life.add_peer, Life.check_admission. destruct (stopping_all_ L); [done|]. unfold Life.ban_refuses. rewrite Hn. cbn [negb andb].
  change (PeerM.address (PeerM.set_local_nonce nonce (PeerM.create_inbound env pn (Some c) magic height))) with (remote_address c).
  by rewrite Hb.
Qed.

Lemma ban_lookup now ok a off b : banned_ (Bans.Ban now ok a off b) !! a =
  let until := if 0 <? off then i64 (now + off) else 0 in
  let e := mkBanEntry Bans.CURRENT_VERSION now until in
  if Bans.IsExpired now e && bool_decide (is_Some (ban_file_ b)) then None else Some e.
Proof.
  unfold Bans.Ban, Bans.auto_save, Bans.SaveBansInternal. cbn [ban_file_ Bans.with_banned]. cbv zeta. set (e := mkBanEntry _ _ _).
  destruct (ban_file_ b) as [f|]; cbn.
  - assert (E : Bans.sweep now (<[a := e]> (banned_ b)) !! a = if Bans.IsExpired now e then None else Some e).
    { unfold Bans.sweep. destruct (Bans.IsExpired now e) eqn:Ee.
      - apply map_lookup_filter_None. right. intros x Hx. rewrite lookup_insert_eq in Hx. injection Hx as <-. congruence.
      - apply map_lookup_filter_Some. by rewrite lookup_insert_eq. }
    rewrite andb_true_r, <- E. by destruct ok.
  - rewrite andb_false_r. apply lookup_insert_eq.
Qed.
Lemma banned_at now ok a off b t : 0 <= now -> 0 <= off < 2 ^ 63 -> now < 2 ^ 63 -> now <= t ->
  Bans.IsBanned t a (Bans.Ban now ok a off b) = (off =? 0) || ((now + off <? 2 ^ 63) && (t <=? now + off)).
Proof.
  intros Hn Ho Hn' Ht. unfold Bans.IsBanned. rewrite ban_lookup. cbv zeta. unfold Bans.IsExpired. cbn [nBanUntil].
  destruct (Z.eqb_spec off 0) as [->|Hz]; [done|]. rewrite (proj2 (Z.ltb_lt 0 off)) by lia. cbn [orb].
  destruct (Z.ltb_spec (now + off) (2 ^ 63)) as [Hr|Hr].
  - rewrite i64_id by (unfold in_s; lia). rewrite (proj2 (Z.ltb_ge (now + off) now)), andb_false_r by lia. cbn [andb nBanUntil].
    rewrite (proj2 (Z.eqb_neq (now + off) 0)) by lia. cbn [negb andb]. destruct (Z.ltb_spec (now + off) t), (Z.leb_spec t (now + off)); lia || done.
  - assert (Hw : i64 (now + off) = now + off - 2 ^ 64) by (unfold i64, to_signed; cbv zeta; rewrite Z.mod_small by lia; by rewrite (proj2 (Z.ltb_ge _ _)) by lia).
    rewrite Hw, (proj2 (Z.eqb_neq _ 0)), (proj2 (Z.ltb_lt _ now)) by lia. cbn [negb andb]. destruct (bool_decide _); [done|]. cbn [nBanUntil].
    rewrite (proj2 (Z.eqb_neq _ 0)), (proj2 (Z.ltb_lt _ t)) by lia. done.
Qed.

Lemma ban_time_range args t : Rpc.ban_time args = inr t -> 0 <= t < 2 ^ 63.
Proof.
  unfold Rpc.ban_time. destruct args as [|a [|b [|c args]]]; try (by intros [= <-]). unfold stol. cbv zeta.
  destruct (match skip_space c with 45 :: s => _ | _ => _ end) as [neg s]. destruct s as [|d s]; [done|]. destruct (isdigit d); [|done].
  destruct (digits 0 (d :: s)) as [v r]. cbv zeta. destruct (_ && _) eqn:E; [|done]. apply andb_true_iff in E as [_ E%Z.ltb_lt].
  destruct (_ <? 0) eqn:E'; [done|]. intros [= <-]. apply Z.ltb_ge in E'. lia.
Qed.
Lemma ban_offset_range mode t now off : 0 <= t < 2 ^ 63 -> 0 <= now -> Rpc.ban_offset mode t now = inr off -> 0 <= off < 2 ^ 63.
Proof.
  intros Ht Hn. unfold Rpc.ban_offset. destruct (bool_decide _); [by intros [= <-]|]. destruct (bool_decide _).
  - destruct (t =? 0); [done|]. destruct (Z.leb_spec t now); [done|]. intros [= <-]. rewrite i64_id by (unfold in_s; lia). lia.
  - intros [= <-]. unfold Rpc.DEFAULT_BANTIME_SEC. destruct (t =? 0); lia.
Qed.

Lemma unban_gone now ok a b t : Bans.IsBanned t a (Bans.Unban now ok a b) = false.
Proof.
  unfold Bans.Unban, Bans.IsBanned. destruct (banned_ b !! a) eqn:E; [|by rewrite E].
  assert (Hn : banned_ (Bans.auto_save now ok (Bans.with_banned (delete a) b)) !! a = None); [|by rewrite Hn].
  unfold Bans.auto_save, Bans.SaveBansInternal. cbn. destruct (ban_file_ b); cbn; [|apply lookup_delete_eq].
  destruct ok; cbn; apply map_lookup_filter_None; left; apply lookup_delete_eq.
Qed.
Lemma unban_keeps now ok a a' b t : Bans.IsBanned t a b = false -> Bans.IsBanned t a (Bans.Unban now ok a' b) = false.
Proof.
  intros Hb. destruct (decide (a' = a)) as [->|Hne]; [apply unban_gone|]. unfold Bans.Unban. destruct (banned_ b !! a') eqn:E; [|done].
  unfold Bans.IsBanned in *.
  assert (Hl : banned_ (Bans.auto_save now ok (Bans.with_banned (delete a') b)) !! a = None \/
               banned_ (Bans.auto_save now ok (Bans.with_banned (delete a') b)) !! a = banned_ b !! a).
  { unfold Bans.auto_save, Bans.SaveBansInternal. cbn. destruct (ban_file_ b); cbn; [|right; by rewrite lookup_delete_ne].
    assert (Hs : Bans.sweep now (delete a' (banned_ b)) !! a = None \/ Bans.sweep now (delete a' (banned_ b)) !! a = banned_ b !! a).
    { unfold Bans.sweep. destruct (filter _ (delete a' (banned_ b)) !! a) as [x|] eqn:F; [|by left]. right.
      apply map_lookup_filter_Some in F as [F _]. by rewrite lookup_delete_ne in F. }
    by destruct ok. }
  by destruct Hl as [->| ->].
Qed.

(** C28: [setban] with a valid address and time bans it: until the time it answers with (for ever, for a permanent ban) no inbound connection from
    the address, in whatever form it is written, is admitted unless it has the permission; [setban remove] with any form of the address
    lifts the ban.  A time so large that its sum with the clock overflows is answered with success but bans nothing. *)
Theorem setban_exact (srv : Server) (address address' : list Z) (ip : bytes + bytes) (rest : list (list Z)) (bantime off : Z) :
  let args := address :: rest in let now := Rpc.GetTime rd srv in
  Proto.make_address address = Some ip -> Proto.make_address address' = Some ip ->
  Rpc.command_of args = str "add" -> Rpc.ban_time args = inr bantime -> Rpc.ban_offset (Rpc.ban_mode args) bantime now = inr off ->
  0 <= now < 2 ^ 63 ->
  exists srv1 srv2,
    execute (str "setban") args srv = Some (Reply (Rpc.success (Rpc.ban_message (Rpc.ban_mode args) (Rpc.canonical ip) now off)), srv1, []) /\
    (forall env pn magic height nonce running c permissions, now <= wall_time env -> Life.normalize_ip_string (remote_address c) = Rpc.canonical ip ->
       Mis.HasPermission permissions Mis.NoBan = false -> off = 0 \/ wall_time env <= now + off < 2 ^ 63 ->
       (Life.HandleInboundConnection host env pn magic height nonce running (Some c) permissions (Rpc.life srv1)).1 = Rpc.life srv1) /\
    (2 ^ 63 <= now + off -> forall t, now <= t -> Bans.IsBanned t (Rpc.canonical ip) (ban_manager_ (Rpc.life srv1)) = false) /\
    execute (str "setban") [address'; str "remove"] srv1 = Some (Reply (Rpc.success (str "Unbanned " ++ address')), srv2, []) /\
    (forall t, Bans.IsBanned t (Rpc.canonical ip) (ban_manager_ (Rpc.life srv2)) = false).
Proof.
  intros args now Hip Hip' Hcmd Ht Ho Hn. pose proof (ban_offset_range _ _ _ _ (ban_time_range _ _ Ht) (proj1 Hn) Ho) as Hr.
  set (srv1 := Rpc.with_bans (Bans.Ban now write_ok (Rpc.canonical ip) off) srv).
  assert (Hb : forall t, now <= t -> Bans.IsBanned t (Rpc.canonical ip) (ban_manager_ (Rpc.life srv1)) = (off =? 0) || ((now + off <? 2 ^ 63) && (t <=? now + off)))
    by (intros t Hle; apply banned_at; lia).
  eexists srv1, _. split_and!.
  - eapply (execute_at 15); [reflexivity|]. unfold Rpc.HandleSetBan, args. fold args. rewrite bool_decide_true by done. rewrite Hip, Ht. fold now. by rewrite Ho.
  - intros env pn magic height nonce running c permissions Hle Ha Hp Hw. apply banned_refused; [|done]. rewrite Ha, Hb by done.
    destruct Hw as [->|[Hw Hw']]; [done|]. rewrite (proj2 (Z.ltb_lt _ _)), (proj2 (Z.leb_le _ _)) by lia. by rewrite orb_true_r.
  - intros Hov t Hle. rewrite Hb by done. rewrite (proj2 (Z.eqb_neq off 0)), (proj2 (Z.ltb_ge _ _)) by lia. done.
  - eapply (execute_at 15); [reflexivity|]. unfold Rpc.HandleSetBan. rewrite bool_decide_false by (by vm_compute). rewrite bool_decide_true by done. reflexivity.
  - intros t. cbn -[Bans.Unban]. rewrite Hip'. destruct (bool_decide _); [apply unban_gone|]. apply unban_keeps, unban_gone.
Qed.

(** *** Text in JSON strings *)

(** The character after a backslash. *)
Definition unescape (c : Z) : option Z :=
  if (c =? 34) || (c =? 92) || (c =? 47) then Some c
  else if c =? 98 then Some 8
  else if c =? 102 then Some 12
  else if c =? 110 then Some 10
  else if c =? 114 then Some 13
  else if c =? 116 then Some 9
  else None.
Definition cons_char (c : Z) (r : option (list Z * list Z)) : option (list Z * list Z) :=
  match r with Some (l, rest) => Some (c :: l, rest) | None => None end.
(** The characters up to the closing quote of a JSON string, and the text after it. *)
Fixpoint read_literal (s : list Z) : option (list Z * list Z) :=
  match s with
  | [] => None
  | c :: s =>
      if c =? 34 then Some ([], s)
      else if c =? 92 then
        match s with
        | d :: s' =>
            if d =? 117 then
              match s' with
              | w :: x :: y :: z :: s'' => if forallb isxdigit [w; x; y; z] then cons_char (hex_value [w; x; y; z]) (read_literal s'') else None
              | _ => None
              end
            else match unescape d with Some u => cons_char u (read_literal s') | None => None end
        | [] => None
        end
      else if c <? 32 then None else cons_char c (read_literal s)
  end.

(** A character that a JSON string holds as it is. *)
Definition plain_char (c : Z) : Prop := 32 <= c < 256 /\ c <> 34 /\ c <> 92.

Lemma byte_hex c : 0 <= c < 256 -> forallb isxdigit (48 :: 48 :: Blob.hex_byte c) = true /\ hex_value (48 :: 48 :: Blob.hex_byte c) = c.
Proof.
  intros Hc. assert (Hall : forallb (fun c => forallb isxdigit (48 :: 48 :: Blob.hex_byte c) && (hex_value (48 :: 48 :: Blob.hex_byte c) =? c)) (Z.of_nat <$> seq 0 256) = true)
    by by vm_compute.
  rewrite forallb_forall in Hall. specialize (Hall c). apply andb_true_iff in Hall as [H1' H2'%Z.eqb_eq]; [done|].
  apply list_elem_of_In, list_elem_of_fmap. exists (Z.to_nat c). rewrite Z2Nat.id by lia. split; [done|]. apply elem_of_seq. lia.
Qed.
Lemma read_plain_char c s : plain_char c -> read_literal (c :: s) = cons_char c (read_literal s).
Proof.
  intros (Hc & N1 & N2). cbn [read_literal]. by rewrite (proj2 (Z.eqb_neq _ _) N1), (proj2 (Z.eqb_neq _ _) N2), (proj2 (Z.ltb_ge c 32)) by lia.
Qed.
Lemma read_escape_char c s : 0 <= c < 256 -> read_literal (escape_char c ++ s) = cons_char c (read_literal s).
Proof.
  intros Hc. unfold escape_char. do 7 (match goal with |- context [c =? ?k] => destruct (Z.eqb_spec c k) as [->|?]; [reflexivity|] end).
  destruct (_ || _) eqn:Eu; [|apply orb_false_iff in Eu as [?%Z.ltb_ge ?%Z.leb_gt]; by apply read_plain_char; split_and!; [lia..| |]].
  destruct (byte_hex c Hc) as [Hx Hv]. unfold Blob.hex_byte in *. cbn [app read_literal].
  change (92 =? 34) with false. change (92 =? 92) with true. change (117 =? 117) with true. cbv iota. by rewrite Hx, Hv.
Qed.
Lemma read_escaped l rest : Forall (fun c => 0 <= c < 256) l -> read_literal (EscapeJSONString l ++ 34 :: rest) = Some (l, rest).
Proof. induction 1 as [|c l Hc _ IH]; [done|]. cbn [EscapeJSONString fmap list_fmap concat]. unfold EscapeJSONString in *. cbn. rewrite <- app_assoc, read_escape_char, IH by done. done. Qed.

Lemma read_plain l rest : Forall plain_char l -> read_literal (l ++ 34 :: rest) = Some (l, rest).
Proof. induction 1 as [|c l Hc _ IH]; [done|]. cbn [app]. by rewrite read_plain_char, IH. Qed.

Lemma peer_in_texts srv id e l : (id, e) ∈ l -> exists before last after, Rpc.peer_texts rd srv l = before ++ Rpc.peer_text rd srv last id e ++ after.
Proof.
  induction l as [|[i x] l IH]; [by intros ?%not_elem_of_nil|]. intros [[= <- <-]|Hl]%elem_of_cons; cbn [Rpc.peer_texts].
  - by eexists [], _, _.
  - destruct (IH Hl) as (b & last & a & E). rewrite E. eexists (_ ++ b), last, a. by rewrite <- app_assoc.
Qed.

(** the user agent of a peer, which the peer chooses in its VERSION message, is copied into the answer to [getpeerinfo] without escaping: when it
    contains a quote, the JSON string ends there and the rest of the user agent stands outside of it in the answer.
    ([EscapeJSONString], which the server has, would keep all of it in the string.) *)
Theorem user_agent_injected (srv : Server) (id : Z) (e : PeerEntry) (honest forged : list Z) :
  Lifecycle.peer_states_ (Rpc.life srv) !! id = Some e -> peer_user_agent_ (remote_ (peer e)) = honest ++ 34 :: forged ->
  Forall plain_char honest -> Forall (fun c => 0 <= c < 256) forged ->
  (exists before after rest, execute (str "getpeerinfo") [] srv = Some (Reply (before ++ text "`subver`: `" ++ after), srv, []) /\
     read_literal after = Some (honest, forged ++ rest)) /\
  (forall rest, read_literal (EscapeJSONString (honest ++ 34 :: forged) ++ 34 :: rest) = Some (honest ++ 34 :: forged, rest)).
Proof.
  intros He Hua Hh Hf. split.
  - assert (Hin : (id, e) ∈ Life.by_id (Lifecycle.peer_states_ (Rpc.life srv))) by (unfold Life.by_id; by rewrite merge_sort_Permutation, elem_of_map_to_list).
    destruct (peer_in_texts srv id e _ Hin) as (b & last & a & E).
    eexists (text "[" ++ nl ++ b ++ Rpc.peer_head id (peer e)), ((honest ++ 34 :: forged) ++ Rpc.peer_tail rd srv last id (peer e) ++ a ++ text "]" ++ nl), _.
    split; [eapply (execute_at 13); [reflexivity|]|].
    + unfold Rpc.HandleGetPeerInfo. rewrite E. unfold Rpc.peer_text. rewrite Hua. by rewrite <- !app_assoc.
    + rewrite <- app_assoc. cbn [app]. by rewrite read_plain.
  - intros rest. apply read_escaped. apply Forall_app. split; [eapply Forall_impl; [exact Hh|]; intros c (? & _); lia|]. by constructor; [lia|].
Qed.

(** *** Every request is safe *)

Section Requests.
Context (g : uint256) `{!LawfulChecks g}.

(** The node stays in its invariants, with the same tree of headers; without an outcome the handler waits for the mining thread. *)
Definition safe srv (r : Rpc.result) : Prop :=
  match r with
  | Some (_, srv', _) => node_ok g (net srv') /\ same_tree (index (Rpc.chain srv')) (index (Rpc.chain srv))
  | None => exists mt, miner_ srv = Some mt /\ Mine.joined (Rpc.sys mt srv) = false
  end.

Lemma safe_reply srv s : node_ok g (net srv) -> safe srv (Rpc.reply s srv).
Proof. by split. Qed.
Lemma safe_same srv srv' out o : node_ok g (net srv) -> net srv' = net srv -> safe srv (Some (out, srv', o)).
Proof. intros Hn E. unfold safe, Rpc.chain. by rewrite E. Qed.
Lemma safe_moves srv N out o : node_ok g (net srv) -> node_ok g N -> same_tree (index (chain_ N)) (index (chain_ (net srv))) ->
  safe srv (Some (out, Rpc.with_net N srv, o)).
Proof. done. Qed.
Lemma latched_tree c c' : latched c c' -> index c' = index c.
Proof. intros [-> | ->]; [done|]. by destruct c. Qed.

Lemma safe_life srv f out o : node_ok g (net srv) -> limits (f (peer_manager_ (net srv))).1 ->
  safe srv (Some (out, Rpc.with_net (Net.run_life f (net srv)).1 srv, o)).
Proof.
  intros Hn Hl. pose proof (life_moves g f (net srv) Hn Hl) as Hm. apply safe_moves; [done|by eapply moves_ok|].
  destruct (run_life_ok f (net srv)) as (Hc & _). by rewrite (latched_tree _ _ Hc).
Qed.

Ltac plain := repeat first [by apply safe_reply | by apply safe_same | case_match].

Lemma start_joined target s : Rpc.Start target s = None -> Mine.joined s = false.
Proof.
  unfold Rpc.Start, Mine.Start_exchange. destruct (mining_ (Mine.miner s)); [done|]. unfold Mine.Start_launch.
  destruct (Mine.joined _) eqn:E; [|done]. by destruct (Mine.miner _).
Qed.

Lemma safe_start args srv : node_ok g (net srv) -> safe srv (Rpc.HandleStartMining args srv).
Proof.
  intros Hn. unfold Rpc.HandleStartMining. destruct (miner_ srv) as [mt|] eqn:Em; [|by apply safe_reply]. destruct (mining_ _); [by apply safe_reply|].
  destruct (match args with [] => _ | _ => _ end) as [msg|m]; [by apply safe_reply|].
  destruct (Rpc.Start _ _) as [[[] s]|] eqn:Es; [by apply safe_same..|]. apply start_joined in Es. by exists mt.
Qed.
Lemma safe_info args srv : node_ok g (net srv) -> safe srv (Rpc.HandleGetBlockchainInfo params rd args srv).
Proof.
  intros Hn. unfold Rpc.HandleGetBlockchainInfo. cbv zeta.
  pose proof (ibd_latches params (Rpc.GetTime rd srv) (Rpc.chain srv)) as Hl. destruct (Act.IsInitialBlockDownload _ _ _) as [ibd c]. cbn [snd] in Hl.
  apply safe_moves; [done| |cbn; by rewrite (latched_tree _ _ Hl)]. apply (moves_ok g (net srv)), quiet_moves; [done|]. by split.
Qed.
Lemma safe_addnode args srv : node_ok g (net srv) -> safe srv (Rpc.HandleAddNode process_nonce network_magic rd conn ec_message args srv).
Proof.
  intros Hn. unfold Rpc.HandleAddNode. destruct args as [|a args]; [by apply safe_reply|]. destruct (split_last_colon a) as [[h p]|]; [|by apply safe_reply].
  destruct (SafeParsePort p) as [port|]; [|by apply safe_reply]. destruct (bool_decide _).
  - destruct (Proto.make_address h) as [ip|]; [|by apply safe_reply]. cbv zeta. unfold Rpc.connect_to. cbv zeta.
    match goal with |- context [Net.run_life ?f ?N] => pose proof (safe_life srv f) as Hs; destruct (Net.run_life f N) as [N' o] end. cbn [fst] in Hs.
    assert (Hl : forall out o, safe srv (Some (out, Rpc.with_net N' srv, o))).
    { intros out o'. apply Hs; [done|]. match goal with |- context [Life.connect_to ?e ?a ?b ?c ?d ?r ?x ?y ?z ?L] =>
        pose proof (connect_limits e a b c d r x y z L (no_limits _ _ Hn)) as Hc; destruct (Life.connect_to e a b c d r x y z L) as [[? ?] ?] end. exact Hc. }
    destruct (Life.connect_to _ _ _ _ _ _ _ _ _ _).1.1; apply Hl.
  - destruct (bool_decide _); [|by apply safe_reply]. cbv zeta. destruct (_ <? 0); [by apply safe_reply|].
    unfold Net.disconnect_from. destruct (Net.peers (net srv) !! _); [|by apply safe_same].
    match goal with |- context [Net.run_life ?f ?N] => pose proof (safe_life srv f) as Hs; destruct (Net.run_life f N) as [N' o] end.
    apply Hs; [done|]. apply remove_limits, Hn.
Qed.
Lemma safe_bans srv f out : node_ok g (net srv) -> safe srv (Some (out, Rpc.with_bans f srv, [])).
Proof. intros [Hc Hl]. split; [|done]. split; [done|]. by eapply (same_limits (peer_manager_ (net srv))). Qed.
Lemma safe_setban args srv : node_ok g (net srv) -> safe srv (Rpc.HandleSetBan rd write_ok args srv).
Proof. intros Hn. unfold Rpc.HandleSetBan. repeat first [by apply safe_reply|by apply safe_bans|case_match]. Qed.
Lemma safe_invalidate args srv : node_ok g (net srv) -> safe srv (Rpc.HandleInvalidateBlock host params rd args srv).
Proof.
  intros Hn. unfold Rpc.HandleInvalidateBlock. destruct args as [|a args]; [by apply safe_reply|]. destruct (SafeParseHash a) as [hash|]; [|by apply safe_reply].
  destruct (index (Rpc.chain srv) !! hash) as [b|] eqn:Eb; [|by apply safe_reply]. pose proof (no_chain _ _ Hn) as (Hwf & Hst & Hlc).
  destruct (tip_exists g _ (no_chain _ _ Hn)) as [t Ht]. pose proof (invalidate_block_ok g (Rpc.chain srv) t hash Hwf Hst Ht) as Hi. cbv zeta in Hi. rewrite Eb in Hi.
  assert (Hc : exists ok c' ev, Act.InvalidateBlock (Rpc.chain srv) hash = Some (ok, c', ev) /\ cs_inv g c' /\ same_tree (index c') (index (Rpc.chain srv))).
  { destruct (nHeight b =? 0); [by exists false, (Rpc.chain srv), []|]. destruct Hi as (q & c' & _ & -> & H1' & H2' & H3' & _).
    eexists _, c', _. split; [reflexivity|]. split; [|done]. split_and!; [done|done|]. by eapply lc_same; [symmetry|]. }
  destruct Hc as (ok & c' & ev & -> & Hinv & Htree). pose proof (quiet_perform host params rd (Notify <$> ev) (Net.with_chain c' (net srv))) as Hq.
  destruct (Net.perform host params rd _ _) as [N o]. cbn [fst] in Hq.
  assert (Hn' : node_ok g (Net.with_chain c' (net srv))) by (split; [done|apply Hn]).
  apply safe_moves; [done|by eapply moves_ok, quiet_moves|]. destruct Hq as [Hl _ _]. by rewrite (latched_tree _ _ Hl).
Qed.

Lemma commands_safe : Forall (fun x => forall args srv, node_ok g (net srv) -> safe srv (x.2 args srv))
  (Rpc.commands host params process_nonce network_magic rd conn write_ok ec_message).
Proof.
  repeat (apply Forall_cons; split; [cbn [snd]; intros args srv Hn|]); [..|constructor];
    first [by apply safe_reply | by apply safe_same | by apply safe_info | by apply safe_start | by apply safe_addnode | by apply safe_setban | by apply safe_invalidate | idtac].
  - unfold Rpc.HandleGetBlockHash. plain.
  - unfold Rpc.HandleGetBlockHeader. plain.
  - unfold Rpc.HandleGetBestBlockHash. plain.
  - unfold Rpc.HandleGetNetworkHashPS. plain.
  - unfold Rpc.HandleStopMining. plain.
  - unfold Rpc.HandleGenerate. plain.
  - unfold Rpc.HandleSetMockTime. plain.
Qed.

(** The rest of a handler that waits for the mining thread: its later pieces, each from one join to the next. *)
Definition later (out : outcome) srv : list Rpc.result :=
  match out with
  | Reply _ | Throws _ => []
  | Stopping => [Rpc.stop_mining_end srv]
  | Generating start_height target_height =>
      [Rpc.generate_start target_height srv; Some (Stopping, Rpc.generate_stop srv, []); Rpc.generate_end start_height srv]
  end.

(** Such a piece waits for the thread or does nothing to the node. *)
Definition piece_ok srv (r : Rpc.result) : Prop :=
  match r with
  | Some (_, srv', _) => net srv' = net srv
  | None => exists mt, miner_ srv = Some mt /\ Mine.joined (Rpc.sys mt srv) = false
  end.

Lemma later_ok out srv : is_Some (miner_ srv) -> Forall (piece_ok srv) (later out srv).
Proof.
  intros [mt Em]. assert (Hj : forall k, (forall s, Mine.joined (Rpc.sys mt srv) = true -> Mine.Stop_join (Rpc.sys mt srv) = Some s -> piece_ok srv (k s)) ->
    piece_ok srv (match Mine.Stop_join (Rpc.sys mt srv) with None => None | Some s => k s end)).
  { intros k Hk. unfold Mine.Stop_join in *. destruct (Mine.joined (Rpc.sys mt srv)) eqn:E; [by apply Hk|by exists mt]. }
  destruct out as [?|?| |start_height target_height]; cbn [later]; [done..| |]; repeat (apply Forall_cons; split); try done.
  - unfold Rpc.stop_mining_end. rewrite Em. by apply Hj.
  - unfold Rpc.generate_start. rewrite Em. apply Hj. intros s _ Es. unfold Mine.Stop_join in Es. case_match; [|done]. injection Es as <-.
    destruct (Rpc.Start _ _) as [[[] s]|] eqn:Est; [done..|]. by apply start_joined in Est.
  - unfold Rpc.generate_stop. by rewrite Em.
  - unfold Rpc.generate_end. rewrite Em. by apply Hj.
Qed.

End Requests.
End Commands.

(** ** Witnesses *)

#[local] Existing Instance easy_lib.
#[local] Existing Instance accept_all.
#[local] Existing Instance accept_all_lawful.
#[local] Existing Instance byte_asio.
#[local] Existing Instance order_example.
(** A JSON library that reads every text as the same request. *)
#[local] Instance one_request : JsonLib := {|
  json_parse := fun _ => Some (JObj [("method", JStr (str "getblockcount"))]%string); json_dump := fun _ => [] |}.
#[local] Instance no_text : LibText := {|
  show_difficulty := fun _ => []; show_rate := fun _ _ => []; show_minutes := fun _ _ => []; show_hours := fun _ => [];
  show_log2 := fun _ => []; show_ms := fun _ => []; put_time := fun _ => [] |}.

Definition server_example (params : ChainParams) : Server := mkServer (net_example params) None Clocks.new false false.

Lemma block_queries_agree_witness : exists params, Params.Select 0 0 REGTEST = Some params /\
  Rpc.ExecuteCommand Endian.Little params 5 1 rd_example None true [] (str "getblockhash") [dec 0] (server_example params) =
    Some (Reply (Blob.GetHex regtest_hash ++ nl), server_example params, []).
Proof.
  destruct (select_ok 0 0 REGTEST) as (params & E & _). exists params. split; [exact E|].
  assert (Hb : exists b, index (regtest_state params) !! regtest_hash = Some b).
  { destruct (tip_at regtest_hash _ _ (proj1 (regtest_inv params)) (regtest_tip params)) as (_ & Hk & _). exact Hk. }
  destruct Hb as [b Hb]. pose proof (regtest_height params) as Hh. rewrite (deref_eq nHeight 0 _ _ b Hb) in Hh.
  destruct (block_queries_agree Endian.Little params 5 1 rd_example None true [] regtest_hash (server_example params) regtest_hash b 0
    (proj1 (regtest_inv params)) (regtest_tip params) Hb) as (_ & q & x & Hq & _ & _ & Hr & _); [lia..|].
  rewrite Hh in Hq. injection Hq as <-. exact Hr.
Defined.

Lemma setban_exact_witness : exists params, Params.Select 0 0 REGTEST = Some params /\
  exists srv1, Rpc.ExecuteCommand Endian.Little params 5 1 rd_example None true [] (str "setban") [[10; 0; 0; 3]; str "add"; str "60"] (server_example params) =
    Some (Reply (Rpc.success (str "Banned " ++ [10; 0; 0; 3] ++ str " for 60 seconds")), srv1, []) /\
  (Life.HandleInboundConnection Endian.Little (env_at 1050) 5 1 0 5 true (Some inbound_conn) 0 (Rpc.life srv1)).1 = Rpc.life srv1.
Proof.
  destruct (select_ok 0 0 REGTEST) as (params & E & _). exists params. split; [exact E|].
  destruct (setban_exact Endian.Little params 5 1 rd_example None true [] (server_example params) [10; 0; 0; 3] [10; 0; 0; 3] (inl [10; 0; 0; 3])
    [str "add"; str "60"] 60 60) as (srv1 & srv2 & H1 & H2 & _); [reflexivity..|by vm_compute; split|].
  exists srv1. split; [exact H1|]. apply H2; [vm_compute; discriminate|reflexivity|reflexivity|right; by vm_compute; split].
Defined.

(** The peer of the example after a VERSION message. *)
Definition forger : PeerEntry := mkEntry
  (PeerM.with_remote (mkRemote 70016 1 0 (text "/x/`,`misbehavior_score`:0,`y`:`") 77) peer_example) 1000000 false (Mis.new_data 0 [10; 0; 0; 3]) (mkGossip false ∅).
Definition forged_server (params : ChainParams) : Server :=
  mkServer (Net.with_life (Life.with_peers (insert 0 forger)) (net_example params)) None Clocks.new false false.

Lemma user_agent_injected_witness : exists params, Params.Select 0 0 REGTEST = Some params /\
  exists before after rest,
    Rpc.ExecuteCommand Endian.Little params 5 1 rd_example None true [] (str "getpeerinfo") [] (forged_server params) =
      Some (Reply (before ++ text "`subver`: `" ++ after), forged_server params, []) /\
    read_literal after = Some (str "/x/", text ",`misbehavior_score`:0,`y`:`" ++ rest).
Proof.
  destruct (select_ok 0 0 REGTEST) as (params & E & _). exists params. split; [exact E|].
  apply (user_agent_injected Endian.Little params 5 1 rd_example None true [] (forged_server params) 0 forger (str "/x/") (text ",`misbehavior_score`:0,`y`:`"));
    [reflexivity|reflexivity| |].
  - by repeat constructor.
  - apply (bool_decide_unpack _). by vm_compute.
Defined.

