(* ===== verification/Transport.v ===== *)
(** * Transport: TCP connections ([network/real_transport.cpp], [network/transport.hpp])

    A connection object, each of its functions and completion handlers a definition ([Module Tcp]), and the connection in its
    surroundings ([Module Wire]): the tasks posted to the io_context, the operations the socket is
    working on, and the bytes the network has taken; each call and each handler is one step.  Boost.Asio is not modelled: what an
    operation brings is an argument.  The numbers of connections and the socket options are left out. *)
From S2P Require Import Prelude Bytes.

(** ** The connection *)

Record TransportConnection := mkConn {
  is_inbound_ : bool;
  receive_callback_ : bool;        (** a callback is set *)
  disconnect_callback_ : bool;
  send_queue_ : list bytes;
  send_queue_bytes_ : Z;
  writing_ : bool;
  open_ : bool;
  socket_ : bool;                  (** the socket has not been closed *)
  remote_addr_ : list Z;
  remote_port_ : Z
}.

(** What can go wrong: a thread locks [send_mutex_] while it holds it, or takes the front of an empty queue. *)
Inductive fault := Deadlock | EmptyQueue.

(** What a function asks of the io_context and the socket, and the callbacks it calls. *)
Inductive tcp_effect :=
| PostWrite | PostOverflow
| AsyncResolve | AsyncConnect | AsyncRead | AsyncWrite (data : bytes)
| CloseSocket
| Queued (data : bytes)            (** [send] returned true *)
| OnConnect (success : bool) | OnReceive (data : bytes) | OnDisconnect.

(** The calls a callback makes to the connection it was called by. *)
Inductive conn_call := CStart | CSend (data : bytes) | CClose | CSetReceive (set : bool) | CSetDisconnect (set : bool).

Module Tcp.

Definition DEFAULT_SEND_QUEUE_SIZE : Z := 5 * 1000 * 1000.
Definition RECV_BUFFER_SIZE : Z := 256 * 1024.
Definition size (data : bytes) : Z := Z.of_nat (length data).

Definition result := (fault + TransportConnection * list tcp_effect)%type.
Definition then_ (r : result) (k : TransportConnection -> result) : result :=
  match r with
  | inl f => inl f
  | inr (c, o) => match k c with inl f => inl f | inr (c, o') => inr (c, o ++ o') end
  end.

Definition with_open (open : bool) (c : TransportConnection) : TransportConnection :=
  mkConn (is_inbound_ c) (receive_callback_ c) (disconnect_callback_ c) (send_queue_ c) (send_queue_bytes_ c) (writing_ c) open (socket_ c) (remote_addr_ c) (remote_port_ c).
Definition with_writing (writing : bool) (c : TransportConnection) : TransportConnection :=
  mkConn (is_inbound_ c) (receive_callback_ c) (disconnect_callback_ c) (send_queue_ c) (send_queue_bytes_ c) writing (open_ c) (socket_ c) (remote_addr_ c) (remote_port_ c).
Definition with_queue (queue : list bytes) (bytes : Z) (c : TransportConnection) : TransportConnection :=
  mkConn (is_inbound_ c) (receive_callback_ c) (disconnect_callback_ c) queue bytes (writing_ c) (open_ c) (socket_ c) (remote_addr_ c) (remote_port_ c).
Definition with_remote (endpoint : option (list Z * Z)) (c : TransportConnection) : TransportConnection :=
  match endpoint with
  | Some (address, port) =>
      mkConn (is_inbound_ c) (receive_callback_ c) (disconnect_callback_ c) (send_queue_ c) (send_queue_bytes_ c) (writing_ c) (open_ c) (socket_ c) address port
  | None => c
  end.
Definition set_receive_callback (set : bool) (c : TransportConnection) : TransportConnection :=
  mkConn (is_inbound_ c) set (disconnect_callback_ c) (send_queue_ c) (send_queue_bytes_ c) (writing_ c) (open_ c) (socket_ c) (remote_addr_ c) (remote_port_ c).
Definition set_disconnect_callback (set : bool) (c : TransportConnection) : TransportConnection :=
  mkConn (is_inbound_ c) (receive_callback_ c) set (send_queue_ c) (send_queue_bytes_ c) (writing_ c) (open_ c) (socket_ c) (remote_addr_ c) (remote_port_ c).

Definition new (is_inbound : bool) : TransportConnection := mkConn is_inbound false false [] 0 false false true [] 0.

(** [remote_endpoint()] is [None] when it throws. *)
Definition create_inbound (endpoint : option (list Z * Z)) : TransportConnection := with_remote endpoint (with_open true (new true)).

Definition do_connect (address : list Z) (port : Z) (c : TransportConnection) : result := inr (with_remote (Some (address, port)) c, [AsyncResolve]).
Definition create_outbound (address : list Z) (port : Z) : result := do_connect address port (new false).

(** [held]: the calling thread holds [send_mutex_], which is not recursive. *)
Definition close (held : bool) (c : TransportConnection) : result :=
  if negb (open_ c) then inr (c, [])
  else if held then inl Deadlock
  else inr (mkConn (is_inbound_ c) false false [] 0 false false false (remote_addr_ c) (remote_port_ c), [CloseSocket]).

Definition start_read (c : TransportConnection) : result := inr (c, if open_ c then [AsyncRead] else []).
Definition start (c : TransportConnection) : result := if negb (open_ c) then inr (c, []) else start_read c.

Definition send (held : bool) (data : bytes) (c : TransportConnection) : result :=
  if negb (open_ c) then inr (c, [])
  else if held then inl Deadlock
  else if DEFAULT_SEND_QUEUE_SIZE <? u64 (send_queue_bytes_ c + size data) then inr (with_open false c, [PostOverflow])
  else inr (with_queue (send_queue_ c ++ [data]) (u64 (send_queue_bytes_ c + size data)) c, [Queued data; PostWrite]).

Definition call (held : bool) (m : conn_call) (c : TransportConnection) : result :=
  match m with
  | CStart => start c
  | CSend data => send held data c
  | CClose => close held c
  | CSetReceive set => inr (set_receive_callback set c, [])
  | CSetDisconnect set => inr (set_disconnect_callback set c, [])
  end.
(** A callback that makes the calls [calls]. *)
Fixpoint run_calls (held : bool) (calls : list conn_call) (c : TransportConnection) : result :=
  match calls with
  | [] => inr (c, [])
  | m :: calls => then_ (call held m c) (run_calls held calls)
  end.
Definition callback (held : bool) (up : tcp_effect) (calls : list conn_call) (c : TransportConnection) : result :=
  then_ (inr (c, [up])) (run_calls held calls).

(** The handlers of [async_resolve] and [async_connect]; [has_callback]: the caller of [connect] gave a callback. *)
Definition on_resolve (has_callback ec : bool) (calls : list conn_call) (c : TransportConnection) : result :=
  if ec then if has_callback then callback false (OnConnect false) calls c else inr (c, [])
  else inr (c, [AsyncConnect]).
Definition on_connect (has_callback ec : bool) (endpoint : option (list Z * Z)) (calls : list conn_call) (c : TransportConnection) : result :=
  if ec then if has_callback then callback false (OnConnect false) calls c else inr (c, [])
  else
    let c := with_remote endpoint (with_open true c) in
    if has_callback then callback false (OnConnect true) calls c else inr (c, []).

(** The callback saved before [close] clears it. *)
Definition close_and_tell (held : bool) (calls : list conn_call) (c : TransportConnection) : result :=
  let saved_disconnect_cb := disconnect_callback_ c in
  then_ (close held c) (fun c => if saved_disconnect_cb then callback held OnDisconnect calls c else inr (c, [])).

(** The handler of [async_read_some]: [None] is an error. *)
Definition on_read (data : option bytes) (calls : list conn_call) (c : TransportConnection) : result :=
  match data with
  | None => close_and_tell false calls c
  | Some data =>
      then_ (if (0 <? size data) && receive_callback_ c then callback false (OnReceive data) calls c else inr (c, [])) start_read
  end.

(** The task [send] posts when the queue is full. *)
Definition on_overflow (calls : list conn_call) (c : TransportConnection) : result :=
  then_ (close false c) (fun c => if disconnect_callback_ c then callback false OnDisconnect calls c else inr (c, [])).

Definition do_write (c : TransportConnection) : result :=
  if negb (open_ c) then inr (c, [])
  else match send_queue_ c with
       | data :: _ => if writing_ c then inr (c, []) else inr (with_writing true c, [AsyncWrite data])
       | [] => inr (c, [])
       end.

(** The handler of [async_write], which holds [send_mutex_] to its end. *)
Definition on_write (ec : bool) (calls : list conn_call) (c : TransportConnection) : result :=
  let c := with_writing false c in
  if ec then close_and_tell true calls c
  else match send_queue_ c with
       | [] => inl EmptyQueue
       | data :: queue =>
           inr (with_queue queue (u64 (send_queue_bytes_ c - size data)) c, match queue with [] => [] | _ => [PostWrite] end)
       end.

End Tcp.

(** ** Listening *)

Record RealTransport := mkTransport {
  acceptor_ : bool;                (** the acceptor exists *)
  accept_callback_ : bool;
  running_ : bool;
  work_guard_ : bool;
  io_threads_ : nat;
  desired_io_threads_ : nat
}.
Inductive transport_effect :=
| AsyncAccept | CloseAcceptor | RestartContext | StopContext | SpawnThreads (n : nat) | JoinThreads (n : nat)
| OnAccept (c : TransportConnection).
(** What [async_accept] brings; an incoming socket comes with its endpoint. *)
Inductive accept_result := AcceptAborted | AcceptError | Incoming (endpoint : option (list Z * Z)).

Module Listener.

Definition new (io_threads : nat) : RealTransport := mkTransport false false false false 0 io_threads.

Definition connect (address : list Z) (port : Z) (t : RealTransport) : Tcp.result := Tcp.create_outbound address port.

Definition start_accept (t : RealTransport) : list transport_effect := if acceptor_ t then [AsyncAccept] else [].

(** [v6_ok], [v4_ok]: whether the acceptor can be opened, bound and set to listen on both families, or on IPv4 alone. *)
Definition listen (accept_callback v6_ok v4_ok : bool) (t : RealTransport) : bool * RealTransport * list transport_effect :=
  if acceptor_ t then (false, t, [])
  else
    let t := mkTransport true accept_callback (running_ t) (work_guard_ t) (io_threads_ t) (desired_io_threads_ t) in
    if v6_ok then (true, t, start_accept t)
    else
      let '(ok, o) := if v4_ok then (true, start_accept t) else (false, []) in
      (ok, t, CloseAcceptor :: o).

Definition handle_accept (r : accept_result) (t : RealTransport) : list transport_effect :=
  match r with
  | AcceptAborted => []
  | AcceptError => start_accept t
  | Incoming endpoint =>
      (if accept_callback_ t then [OnAccept (Tcp.create_inbound endpoint)] else []) ++ start_accept t
  end.

Definition stop_listening (t : RealTransport) : RealTransport * list transport_effect :=
  if acceptor_ t then
    (mkTransport false (accept_callback_ t) (running_ t) (work_guard_ t) (io_threads_ t) (desired_io_threads_ t), [CloseAcceptor])
  else (t, []).

Definition run (t : RealTransport) : RealTransport * list transport_effect :=
  if running_ t then (t, [])
  else
    (mkTransport (acceptor_ t) (accept_callback_ t) true true (io_threads_ t + desired_io_threads_ t) (desired_io_threads_ t),
     [RestartContext; SpawnThreads (desired_io_threads_ t)]).

Definition stop (t : RealTransport) : RealTransport * list transport_effect :=
  let t := mkTransport (acceptor_ t) (accept_callback_ t) false (work_guard_ t) (io_threads_ t) (desired_io_threads_ t) in
  let '(t, o) := stop_listening t in
  (mkTransport (acceptor_ t) (accept_callback_ t) (running_ t) false 0 (desired_io_threads_ t),
   o ++ [StopContext; JoinThreads (io_threads_ t)]).

End Listener.

(** ** The connection and the socket *)

Inductive tcp_task := WriteTask | OverflowTask.
(** An [async_write]: at work, done with all bytes taken, or failed; its handler has not run yet. *)
Inductive progress := InFlight | Taken | Failed.
Record write_op := mkOp { op_data : bytes; op_progress : progress }.
(** An [async_resolve] or [async_connect] whose handler has not run. *)
Inductive dial := Resolving | Dialling.

Record Net_ := mkNet {
  conn : TransportConnection;
  dialling : option dial;
  tasks : list tcp_task;
  reads : nat;                     (** outstanding reads *)
  writes : list write_op;
  wire : bytes;                    (** the bytes the network has taken *)
  accepted : list bytes            (** the data of the calls of [send] that returned true *)
}.

Inductive tcp_event :=
| ECall (m : conn_call)                                    (** a call from outside *)
| EResolved (ec : bool) (calls : list conn_call)
| EConnected (ec : bool) (endpoint : option (list Z * Z)) (calls : list conn_call)
| ERead (data : option bytes) (calls : list conn_call)
| ETask (i : nat) (calls : list conn_call)                 (** a posted task runs *)
| ETaken (i : nat)                                         (** the network takes all bytes of a write *)
| EFailed (i k : nat)                                      (** a write fails after [k] bytes *)
| EWritten (i : nat) (calls : list conn_call).             (** the handler of a finished write runs *)

Module Wire.

Definition perform1 (s : Net_) (o : tcp_effect) : Net_ :=
  match o with
  | PostWrite => mkNet (conn s) (dialling s) (tasks s ++ [WriteTask]) (reads s) (writes s) (wire s) (accepted s)
  | PostOverflow => mkNet (conn s) (dialling s) (tasks s ++ [OverflowTask]) (reads s) (writes s) (wire s) (accepted s)
  | AsyncResolve => mkNet (conn s) (Some Resolving) (tasks s) (reads s) (writes s) (wire s) (accepted s)
  | AsyncConnect => mkNet (conn s) (Some Dialling) (tasks s) (reads s) (writes s) (wire s) (accepted s)
  | AsyncRead => mkNet (conn s) (dialling s) (tasks s) (S (reads s)) (writes s) (wire s) (accepted s)
  | AsyncWrite data => mkNet (conn s) (dialling s) (tasks s) (reads s) (writes s ++ [mkOp data InFlight]) (wire s) (accepted s)
  | Queued data => mkNet (conn s) (dialling s) (tasks s) (reads s) (writes s) (wire s) (accepted s ++ [data])
  | CloseSocket | OnConnect _ | OnReceive _ | OnDisconnect => s
  end.
Definition perform (r : Tcp.result) (s : Net_) : fault + Net_ :=
  match r with
  | inl f => inl f
  | inr (c, o) => inr (foldl perform1 (mkNet c (dialling s) (tasks s) (reads s) (writes s) (wire s) (accepted s)) o)
  end.

(** The result of an event, [None] when it cannot happen. *)
Definition occurs (e : tcp_event) (s : Net_) : option (fault + Net_) :=
  match e with
  | ECall m => Some (perform (Tcp.call false m (conn s)) s)
  | EResolved ec calls =>
      match dialling s with
      | Some Resolving => Some (perform (Tcp.on_resolve true ec calls (conn s)) (mkNet (conn s) None (tasks s) (reads s) (writes s) (wire s) (accepted s)))
      | _ => None
      end
  | EConnected ec endpoint calls =>
      match dialling s with
      | Some Dialling => Some (perform (Tcp.on_connect true ec endpoint calls (conn s)) (mkNet (conn s) None (tasks s) (reads s) (writes s) (wire s) (accepted s)))
      | _ => None
      end
  | ERead data calls =>
      match reads s with
      | S n => Some (perform (Tcp.on_read data calls (conn s)) (mkNet (conn s) (dialling s) (tasks s) n (writes s) (wire s) (accepted s)))
      | O => None
      end
  | ETask i calls =>
      match tasks s !! i with
      | Some t =>
          Some (perform match t with WriteTask => Tcp.do_write (conn s) | OverflowTask => Tcp.on_overflow calls (conn s) end
                        (mkNet (conn s) (dialling s) (delete i (tasks s)) (reads s) (writes s) (wire s) (accepted s)))
      | None => None
      end
  | ETaken i =>
      match writes s !! i with
      | Some (mkOp data InFlight) =>
          if socket_ (conn s) then
            Some (inr (mkNet (conn s) (dialling s) (tasks s) (reads s) (<[i := mkOp data Taken]> (writes s)) (wire s ++ data) (accepted s)))
          else None
      | _ => None
      end
  | EFailed i k =>
      match writes s !! i with
      | Some (mkOp data InFlight) =>
          Some (inr (mkNet (conn s) (dialling s) (tasks s) (reads s) (<[i := mkOp data Failed]> (writes s))
                           (wire s ++ take k data) (accepted s)))
      | _ => None
      end
  | EWritten i calls =>
      match writes s !! i with
      | Some (mkOp data p) =>
          match p with
          | InFlight => None
          | Taken | Failed =>
              Some (perform (Tcp.on_write match p with Failed => true | _ => false end calls (conn s))
                            (mkNet (conn s) (dialling s) (tasks s) (reads s) (delete i (writes s)) (wire s) (accepted s)))
          end
      | None => None
      end
  end.

Definition fresh (c : TransportConnection) (d : option dial) : Net_ := mkNet c d [] 0 [] [] [].

End Wire.
