(* ===== verification/TransportProps.v ===== *)
(** * TransportProps: what a TCP connection promises

    In every reachable state the bytes the network has taken are a prefix of the data accepted by [send], in order, and the
    queue is bounded; an open connection writes everything it accepted unless a write fails; and the two ways a
    write handler goes wrong. *)
From stdpp Require Import relations.
From S2P Require Import Prelude Bytes Transport.

Definition call_ok (m : conn_call) : Prop := match m with CSend data => Tcp.size data < 2 ^ 63 | _ => True end.
Definition event_ok (e : tcp_event) : Prop :=
  match e with
  | ECall m => call_ok m
  | EResolved _ calls | EConnected _ _ calls | ERead _ calls | ETask _ calls | EWritten _ calls => Forall call_ok calls
  | ETaken _ | EFailed _ _ => True
  end.
Definition tcp_step (s s' : Net_) : Prop := exists e, event_ok e /\ Wire.occurs e s = Some (inr s').

(** A connection that has just been accepted, or is being made. *)
Inductive started : Net_ -> Prop :=
| started_inbound endpoint : started (Wire.fresh (Tcp.create_inbound endpoint) None)
| started_outbound address port s : Wire.perform (Tcp.create_outbound address port) (Wire.fresh (Tcp.new false) None) = inr s -> started s.

(** ** The invariant *)

(** What a write in progress says about the bytes taken. *)
Definition in_order (s : Net_) (p : progress) (data : bytes) : Prop :=
  match p with
  | InFlight => wire s ++ data `prefix_of` concat (accepted s)
  | Taken | Failed => wire s `prefix_of` concat (accepted s)
  end.

Definition open_shape (s : Net_) : Prop :=
  let c := conn s in
  Forall (eq WriteTask) (tasks s) /\
  ((writing_ c = false /\ writes s = [] /\ concat (accepted s) = wire s ++ concat (send_queue_ c) /\ (send_queue_ c = [] \/ WriteTask ∈ tasks s)) \/
   (writing_ c = true /\ exists data queue p, writes s = [mkOp data p] /\ send_queue_ c = data :: queue /\
     match p with
     | InFlight => concat (accepted s) = wire s ++ concat (data :: queue)
     | Taken => concat (accepted s) = wire s ++ concat queue
     | Failed => wire s `prefix_of` concat (accepted s)
     end)).
(** [open_] was cleared by an overflow, or never set; the socket is still there. *)
Definition half_shape (s : Net_) : Prop :=
  (writes s = [] /\ wire s `prefix_of` concat (accepted s)) \/
  exists data queue p, writes s = [mkOp data p] /\ send_queue_ (conn s) = data :: queue /\ in_order s p data.
Definition closed_shape (s : Net_) : Prop :=
  send_queue_ (conn s) = [] /\
  ((writes s = [] /\ wire s `prefix_of` concat (accepted s)) \/ exists data p, writes s = [mkOp data p] /\ in_order s p data).

Definition shape (s : Net_) : Prop :=
  let c := conn s in
  match dialling s with
  | Some _ => open_ c = false /\ writing_ c = false /\ send_queue_ c = [] /\ socket_ c = true /\ tasks s = [] /\ writes s = [] /\ wire s = [] /\ accepted s = []
  | None => if open_ c then socket_ c = true /\ open_shape s else if socket_ c then half_shape s else closed_shape s
  end.

Record tcp_inv (s : Net_) : Prop := {
  ti_bytes : send_queue_bytes_ (conn s) = Tcp.size (concat (send_queue_ (conn s)));
  ti_limit : send_queue_bytes_ (conn s) <= Tcp.DEFAULT_SEND_QUEUE_SIZE;
  ti_shape : shape s
}.

Lemma size_app a b : Tcp.size (a ++ b) = Tcp.size a + Tcp.size b.
Proof. unfold Tcp.size. rewrite length_app. lia. Qed.
Lemma size_pos a : 0 <= Tcp.size a.
Proof. unfold Tcp.size. lia. Qed.

Lemma open_half s : open_shape s -> half_shape s.
Proof.
  intros [_ [(_ & Hw & E & _)|(_ & data & queue & p & Hw & Hq & Hp)]]; [left|right].
  - split; [done|]. rewrite E. by apply prefix_app_r.
  - exists data, queue, p. split_and!; [done..|]. destruct p; cbn; [|rewrite Hp; by apply prefix_app_r|done].
    rewrite Hp. cbn [concat]. rewrite app_assoc. by apply prefix_app_r.
Qed.
Lemma half_ordered s : half_shape s -> wire s `prefix_of` concat (accepted s) /\ (length (writes s) <= 1)%nat.
Proof.
  intros [(-> & ?)|(data & queue & p & -> & _ & Hp)]; [split; [done|cbn; lia]|]. split; [|cbn; lia].
  destruct p; cbn in Hp; [|done..]. etrans; [|exact Hp]. by apply prefix_app_r.
Qed.

(** ** Functions and their effects *)

Lemma foldl_conn o : forall s, conn (foldl Wire.perform1 s o) = conn s.
Proof. induction o as [|e o IH]; intros s; [done|]. cbn [foldl]. rewrite IH. by destruct e. Qed.
Lemma foldl_recon o c : forall s,
  mkNet c (dialling (foldl Wire.perform1 s o)) (tasks (foldl Wire.perform1 s o)) (reads (foldl Wire.perform1 s o)) (writes (foldl Wire.perform1 s o))
        (wire (foldl Wire.perform1 s o)) (accepted (foldl Wire.perform1 s o)) =
  foldl Wire.perform1 (mkNet c (dialling s) (tasks s) (reads s) (writes s) (wire s) (accepted s)) o.
Proof.
  induction o as [|e o IH]; intros s; [done|]. cbn [foldl]. rewrite IH. by destruct e.
Qed.

Lemma perform_then r k s : Wire.perform (Tcp.then_ r k) s =
  match Wire.perform r s with inl f => inl f | inr s' => Wire.perform (k (conn s')) s' end.
Proof.
  destruct r as [f|[c o]]; [done|]. cbn [Tcp.then_ Wire.perform]. rewrite foldl_conn. cbn [conn].
  destruct (k c) as [f|[c' o']]; [done|]. cbn [Wire.perform]. f_equal. rewrite foldl_app. f_equal. symmetry.
  by rewrite (foldl_recon o c').
Qed.

(** A function that does not fault and keeps the invariant. *)
Definition good (f : TransportConnection -> Tcp.result) : Prop :=
  forall s, tcp_inv s -> exists s', Wire.perform (f (conn s)) s = inr s' /\ tcp_inv s' /\ (open_ (conn s) = false -> open_ (conn s') = false).

Lemma good_then f k : good f -> good k -> good (fun c => Tcp.then_ (f c) k).
Proof.
  intros Hf Hk s Hs. destruct (Hf s Hs) as (s1 & E1 & H1 & O1). destruct (Hk s1 H1) as (s2 & E2 & H2 & O2).
  exists s2. rewrite perform_then, E1. auto.
Qed.

(** Changing what the invariant does not read. *)
Lemma inv_callbacks s c : tcp_inv s -> send_queue_ c = send_queue_ (conn s) -> send_queue_bytes_ c = send_queue_bytes_ (conn s) -> writing_ c = writing_ (conn s) ->
  open_ c = open_ (conn s) -> socket_ c = socket_ (conn s) -> forall n,
  tcp_inv (mkNet c (dialling s) (tasks s) n (writes s) (wire s) (accepted s)).
Proof.
  intros [H1 H2 H3] Eq Eb Ew Eo Es n. split; cbn [conn]; rewrite ?Eq, ?Eb; [done..|].
  unfold shape, open_shape, half_shape, closed_shape, in_order in *. cbn [conn dialling tasks writes wire accepted]. by rewrite Eo, Es, Ew, Eq.
Qed.
Lemma good_same f : (forall c, exists c', f c = inr (c', []) /\ send_queue_ c' = send_queue_ c /\ send_queue_bytes_ c' = send_queue_bytes_ c /\
  writing_ c' = writing_ c /\ open_ c' = open_ c /\ socket_ c' = socket_ c) -> good f.
Proof.
  intros Hf s Hs. destruct (Hf (conn s)) as (c' & E & E1 & E2 & E3 & E4 & E5). rewrite E. eexists. split; [done|]. cbn [foldl conn].
  split; [by apply inv_callbacks|by rewrite E4].
Qed.

Lemma good_close : good (Tcp.close false).
Proof.
  intros s Hs. unfold Tcp.close. destruct (open_ (conn s)) eqn:Eo; cbn [negb]; (eexists; split; [done|]; cbn [foldl Wire.perform1]).
  - destruct Hs as [_ _ Hsh]. split; [|done]. split; [done|cbn; unfold Tcp.DEFAULT_SEND_QUEUE_SIZE; lia|].
    unfold shape in *. cbn [conn dialling open_ socket_]. rewrite Eo in Hsh. destruct (dialling s); [by destruct Hsh|]. destruct Hsh as [_ Hsh].
    apply open_half in Hsh. split; [done|]. destruct Hsh as [?|(d & q & p & ? & _ & ?)]; [by left|right]. by exists d, p.
  - split; [|done]. destruct s; exact Hs.
Qed.
Lemma good_start_read : good Tcp.start_read.
Proof.
  intros s Hs. unfold Tcp.start_read. eexists. split; [done|]. destruct (open_ (conn s)) eqn:Eo; cbn [foldl Wire.perform1 conn].
  - split; [exact (inv_callbacks s (conn s) Hs eq_refl eq_refl eq_refl eq_refl eq_refl _)|done].
  - split; [exact (inv_callbacks s (conn s) Hs eq_refl eq_refl eq_refl eq_refl eq_refl _)|done].
Qed.
Lemma good_start : good Tcp.start.
Proof.
  intros s Hs. unfold Tcp.start. destruct (open_ (conn s)) eqn:Eo; cbn [negb].
  - destruct (good_start_read s Hs) as (s' & ? & ? & ?). by exists s'.
  - eexists. split; [done|]. split; [exact (inv_callbacks s (conn s) Hs eq_refl eq_refl eq_refl eq_refl eq_refl _)|done].
Qed.

Lemma queue_bound s data : tcp_inv s -> Tcp.size data < 2 ^ 63 -> u64 (send_queue_bytes_ (conn s) + Tcp.size data) = send_queue_bytes_ (conn s) + Tcp.size data.
Proof.
  intros [H1 H2 _] Hd. apply u64_id. unfold in_u. pose proof (size_pos data). pose proof (size_pos (concat (send_queue_ (conn s)))).
  unfold Tcp.DEFAULT_SEND_QUEUE_SIZE in H2. lia.
Qed.

Lemma good_send data : Tcp.size data < 2 ^ 63 -> good (Tcp.send false data).
Proof.
  intros Hd s Hs. unfold Tcp.send. destruct (open_ (conn s)) eqn:Eo; cbn [negb].
  2:{ eexists. split; [done|]. split; [exact (inv_callbacks s (conn s) Hs eq_refl eq_refl eq_refl eq_refl eq_refl _)|done]. }
  rewrite (queue_bound s data Hs Hd). destruct Hs as [H1 H2 H3]. unfold shape in H3. rewrite Eo in H3.
  destruct (Z.ltb_spec Tcp.DEFAULT_SEND_QUEUE_SIZE (send_queue_bytes_ (conn s) + Tcp.size data)) as [Hlt|Hle];
    (eexists; split; [done|]; split; [|done]); cbn [foldl Wire.perform1 conn dialling tasks reads writes wire accepted].
  - split; [done..|]. unfold shape. cbn [conn dialling Tcp.with_open open_ socket_]. destruct (dialling s); [by destruct H3|].
    destruct H3 as [-> H3]. by apply open_half in H3.
  - split; cbn [conn Tcp.with_queue send_queue_ send_queue_bytes_]; [|done|].
    + rewrite concat_app, size_app. cbn [concat]. rewrite app_nil_r. lia.
    + unfold shape. cbn [conn dialling Tcp.with_queue open_ socket_]. rewrite Eo. destruct (dialling s); [by destruct H3|]. destruct H3 as [-> [Ht Hsh]]. split; [done|].
      split; [cbn [tasks]; apply Forall_app; split; [done|by repeat constructor]|]. cbn [conn tasks writes wire accepted Tcp.with_queue writing_ send_queue_].
      rewrite !concat_app. cbn [concat]. rewrite app_nil_r.
      destruct Hsh as [(Hw & Hws & E & _)|(Hw & d & q & p & Hws & Hq & Hp)]; [left|right].
      * split_and!; [done..|by rewrite E, app_assoc|right; apply elem_of_app; right; by left].
      * split; [done|]. exists d, (q ++ [data]), p. rewrite Hq. split_and!; [done..|]. destruct p.
        -- rewrite Hp. cbn [concat]. rewrite concat_app. cbn [concat]. by rewrite app_nil_r, !app_assoc.
        -- rewrite Hp, concat_app. cbn [concat]. by rewrite app_nil_r, !app_assoc.
        -- by apply prefix_app_r.
Qed.

Lemma good_call m : call_ok m -> good (Tcp.call false m).
Proof.
  destruct m; intros Hm; [apply good_start|by apply good_send|apply good_close|..]; apply good_same; intros c; eexists; split_and!; done.
Qed.
Lemma good_id : good (fun c => inr (c, [])).
Proof. apply good_same. intros c. by exists c. Qed.
Lemma good_calls calls : Forall call_ok calls -> good (Tcp.run_calls false calls).
Proof.
  induction 1 as [|m calls Hm _ IH]; [apply good_id|]. apply (good_then (Tcp.call false m)); [by apply good_call|done].
Qed.

Definition upcall (o : tcp_effect) : Prop := match o with OnConnect _ | OnReceive _ | OnDisconnect => True | _ => False end.
Lemma good_up o : upcall o -> good (fun c => inr (c, [o])).
Proof.
  intros Ho s Hs. eexists. split; [done|]. cbn [foldl]. destruct o; try done; cbn [Wire.perform1 conn];
    (split; [exact (inv_callbacks s (conn s) Hs eq_refl eq_refl eq_refl eq_refl eq_refl _)|done]).
Qed.
Lemma good_callback o calls : upcall o -> Forall call_ok calls -> good (Tcp.callback false o calls).
Proof. intros Ho Hc. by apply (good_then (fun c => inr (c, [o]))); [apply good_up|apply good_calls]. Qed.

Lemma good_if (b : bool) f g : good f -> good g -> good (fun c => if b then f c else g c).
Proof. by destruct b. Qed.

Lemma good_close_and_tell calls : Forall call_ok calls -> good (Tcp.close_and_tell false calls).
Proof.
  intros Hc s Hs. apply (good_then (Tcp.close false) (fun c => if disconnect_callback_ (conn s) then Tcp.callback false OnDisconnect calls c else inr (c, []))); [apply good_close| |done].
  apply good_if; [by apply good_callback|apply good_id].
Qed.
Lemma good_overflow calls : Forall call_ok calls -> good (Tcp.on_overflow calls).
Proof.
  intros Hc. apply (good_then (Tcp.close false)); [apply good_close|]. intros s Hs. destruct (disconnect_callback_ (conn s)); [by apply good_callback|by apply good_id].
Qed.
Lemma good_read data calls : Forall call_ok calls -> good (Tcp.on_read data calls).
Proof.
  intros Hc. destruct data as [data|]; [|by apply good_close_and_tell].
  intros s Hs. apply (good_then (fun c => if (0 <? Tcp.size data) && receive_callback_ (conn s) then Tcp.callback false (OnReceive data) calls c else inr (c, [])) Tcp.start_read); [|apply good_start_read|done].
  apply good_if; [by apply good_callback|apply good_id].
Qed.

(** A handler that holds the mutex calls a closed connection: nothing happens. *)
Lemma held_calls calls : forall s, tcp_inv s -> open_ (conn s) = false ->
  exists s', Wire.perform (Tcp.run_calls true calls (conn s)) s = inr s' /\ tcp_inv s' /\ open_ (conn s') = false.
Proof.
  induction calls as [|m calls IH]; intros s Hs Ho; cbn [Tcp.run_calls].
  - exists s. split; [by destruct s|done].
  - rewrite perform_then. assert (exists s1, Wire.perform (Tcp.call true m (conn s)) s = inr s1 /\ tcp_inv s1 /\ open_ (conn s1) = false) as (s1 & -> & H1 & O1).
    { destruct m; cbn [Tcp.call]; unfold Tcp.start, Tcp.send, Tcp.close; rewrite ?Ho; cbn [negb];
        (eexists; split; [done|]; split; [by apply inv_callbacks|done]). }
    by apply IH.
Qed.

(** ** Events *)

Lemma task_inv s i t calls : tcp_inv s -> Forall call_ok calls -> tasks s !! i = Some t ->
  exists s', Wire.perform match t with WriteTask => Tcp.do_write (conn s) | OverflowTask => Tcp.on_overflow calls (conn s) end
    (mkNet (conn s) (dialling s) (delete i (tasks s)) (reads s) (writes s) (wire s) (accepted s)) = inr s' /\ tcp_inv s' /\ (open_ (conn s) = false -> open_ (conn s') = false).
Proof.
  intros Hs Hc Hi. set (s1 := mkNet (conn s) (dialling s) (delete i (tasks s)) (reads s) (writes s) (wire s) (accepted s)).
  destruct (open_ (conn s)) eqn:Eo.
  - destruct Hs as [H1 H2 H3]. unfold shape in H3. rewrite Eo in H3. destruct (dialling s) eqn:Ed; [by destruct H3|]. destruct H3 as [Es [Ht Hsh]].
    assert (t = WriteTask) as -> by (symmetry; exact (proj1 (Forall_lookup _ _) Ht i t Hi)).
    assert (Hd : Forall (eq WriteTask) (delete i (tasks s))) by by apply Forall_delete.
    unfold Tcp.do_write. rewrite Eo. cbn [negb]. destruct (send_queue_ (conn s)) as [|data queue] eqn:Eq; [|destruct (writing_ (conn s)) eqn:Ew];
      (eexists; split; [done|]; split; [|done]); cbn [foldl Wire.perform1]; unfold s1; cbn [conn dialling tasks reads writes wire accepted];
      (split; cbn [conn Tcp.with_writing send_queue_ send_queue_bytes_]; rewrite ?Eq; [done..|]); unfold shape; cbn [conn dialling Tcp.with_writing open_ socket_];
      rewrite ?Ed, ?Eo; (split; [done|]); (split; [done|]); cbn [conn tasks writes wire accepted Tcp.with_writing writing_ send_queue_].
    + destruct Hsh as [(Hw & Hws & E & _)|(_ & d & q & p & _ & [=] & _)]. left. rewrite Eq in *. split_and!; [done..|by left].
    + destruct Hsh as [([=] & _)|(_ & d & q & p & Hws & [= -> ->] & Hp)]. right. split; [done|]. exists d, q, p. by rewrite Eq.
    + destruct Hsh as [(_ & Hws & E & _)|([=] & _)]. right. split; [done|]. exists data, queue, InFlight. rewrite Hws, Eq. by split_and!.
  - assert (Hs1 : tcp_inv s1).
    { destruct Hs as [H1 H2 H3]. split; [done..|]. unfold shape, half_shape, closed_shape, in_order in *. unfold s1; cbn [conn dialling tasks writes wire accepted].
      rewrite Eo in *. destruct (dialling s); [|done]. destruct H3 as (? & ? & ? & ? & E & ?). by rewrite E in Hi. }
    destruct t.
    + unfold Tcp.do_write. rewrite Eo. cbn [negb]. exists s1. split; [done|]. split; [done|]. intros _. exact Eo.
    + destruct (good_overflow calls Hc s1 Hs1) as (s' & E & ? & Ho). exists s'. split_and!; [done..|auto].
Qed.

(** The one write in progress. *)
Lemma one_write s i op : tcp_inv s -> writes s !! i = Some op -> i = 0%nat /\ writes s = [op] /\ dialling s = None.
Proof.
  intros [_ _ Hsh] Hi. assert (writes s = [op] /\ i = 0%nat) as [E ->].
  { assert (Hl : (length (writes s) <= 1)%nat).
    { unfold shape in Hsh. destruct (dialling s); [by destruct Hsh as (_ & _ & _ & _ & _ & -> & _); cbn; lia|]. destruct (open_ (conn s)); [|destruct (socket_ (conn s))].
      - destruct Hsh as [_ Hsh]. by apply half_ordered, open_half.
      - by apply half_ordered.
      - destruct Hsh as [_ [[-> _]|(d & p & -> & _)]]; cbn; lia. }
    destruct (writes s) as [|x [|y l]]; [done| |cbn in Hl; lia]. destruct i as [|i]; [|by destruct i]. cbn in Hi. by injection Hi as ->. }
  split_and!; [done..|]. unfold shape in Hsh. destruct (dialling s); [|done]. destruct Hsh as (_ & _ & _ & _ & _ & E' & _). by rewrite E' in E.
Qed.

Lemma taken_inv s data : tcp_inv s -> writes s = [mkOp data InFlight] -> socket_ (conn s) = true ->
  tcp_inv (mkNet (conn s) (dialling s) (tasks s) (reads s) [mkOp data Taken] (wire s ++ data) (accepted s)).
Proof.
  intros Hs Hw Hk. destruct (one_write s 0 (mkOp data InFlight) Hs) as (_ & _ & Ed); [by rewrite Hw|]. destruct Hs as [H1 H2 H3].
  split; [done..|]. unfold shape in *. cbn [conn dialling]. rewrite Ed in *. rewrite Hk in *. destruct (open_ (conn s)).
  - destruct H3 as [_ [Ht Hsh]]. split; [done|]. split; [done|]. cbn [conn tasks writes wire accepted]. right.
    destruct Hsh as [(_ & E & _)|(-> & d & q & p & E & Hq & Hp)]; [by rewrite E in Hw|]. rewrite E in Hw. injection Hw as -> ->.
    split; [done|]. exists data, q, Taken. split_and!; [done..|]. rewrite Hp. cbn [concat]. by rewrite app_assoc.
  - right. destruct H3 as [[E _]|(d & q & p & E & Hq & Hp)]; rewrite E in Hw; [done|]. injection Hw as -> ->. by exists data, q, Taken.
Qed.

Lemma failed_inv s data k : tcp_inv s -> writes s = [mkOp data InFlight] ->
  tcp_inv (mkNet (conn s) (dialling s) (tasks s) (reads s) [mkOp data Failed] (wire s ++ take k data) (accepted s)).
Proof.
  intros Hs Hw. destruct (one_write s 0 (mkOp data InFlight) Hs) as (_ & _ & Ed); [by rewrite Hw|]. destruct Hs as [H1 H2 H3].
  assert (Hpre : wire s ++ data `prefix_of` concat (accepted s) -> wire s ++ take k data `prefix_of` concat (accepted s)).
  { intros Hp. etrans; [|exact Hp]. apply prefix_app. exists (drop k data). by rewrite take_drop. }
  split; [done..|]. unfold shape in *. cbn [conn dialling]. rewrite Ed in *. destruct (open_ (conn s)); [|destruct (socket_ (conn s))].
  - destruct H3 as [Es [Ht Hsh]]. rewrite Es in *. split; [done|]. split; [done|]. cbn [conn tasks writes wire accepted]. right.
    destruct Hsh as [(_ & E & _)|(-> & d & q & p & E & Hq & Hp)]; [by rewrite E in Hw|]. rewrite E in Hw. injection Hw as -> ->.
    split; [done|]. exists data, q, Failed. split_and!; [done..|]. apply Hpre. rewrite Hp. cbn [concat]. rewrite app_assoc. by apply prefix_app_r.
  - right. destruct H3 as [[E _]|(d & q & p & E & Hq & Hp)]; rewrite E in Hw; [done|]. injection Hw as -> ->. exists data, q, Failed. by split_and!; [..|apply Hpre].
  - destruct H3 as [Hq Hsh]. split; [done|]. right. destruct Hsh as [[E _]|(d & p & E & Hp)]; rewrite E in Hw; [done|]. injection Hw as -> ->.
    exists data, Failed. split; [done|]. by apply Hpre.
Qed.

(** The handler of a write that went well, while the connection has its queue. *)
Lemma written_inv s data calls : tcp_inv s -> writes s = [mkOp data Taken] -> socket_ (conn s) = true ->
  exists s', Wire.perform (Tcp.on_write false calls (conn s)) (mkNet (conn s) (dialling s) (tasks s) (reads s) [] (wire s) (accepted s)) = inr s' /\
    tcp_inv s' /\ open_ (conn s') = open_ (conn s) /\ accepted s' = accepted s /\
    exists queue, send_queue_ (conn s) = data :: queue /\ send_queue_ (conn s') = queue /\ writes s' = [] /\
      tasks s' = tasks s ++ match queue with [] => [] | _ => [WriteTask] end.
Proof.
  intros Hs Hw Hk. destruct (one_write s 0 (mkOp data Taken) Hs) as (_ & _ & Ed); [by rewrite Hw|]. destruct Hs as [H1 H2 H3].
  unfold shape in H3. rewrite Ed, Hk in H3. unfold Tcp.on_write. cbn [Tcp.with_writing send_queue_].
  assert (exists queue, send_queue_ (conn s) = data :: queue) as [queue Hq].
  { destruct (open_ (conn s)); [destruct H3 as [_ H3]; apply open_half in H3|]; (destruct H3 as [[E _]|(d & q & p & E & Hq & _)]; rewrite E in Hw; [done|]);
      injection Hw as -> ->; by exists q. }
  rewrite Hq. rewrite Hq in H1. cbn [concat] in H1. rewrite size_app in H1. pose proof (size_pos data). pose proof (size_pos (concat queue)).
  assert (E64 : u64 (send_queue_bytes_ (conn s) - Tcp.size data) = Tcp.size (concat queue)).
  { rewrite H1. replace (_ - _) with (Tcp.size (concat queue)) by lia. apply u64_id. unfold in_u. unfold Tcp.DEFAULT_SEND_QUEUE_SIZE in H2. lia. }
  assert (Hlast : foldl Wire.perform1 (mkNet (Tcp.with_queue queue (u64 (send_queue_bytes_ (conn s) - Tcp.size data)) (Tcp.with_writing false (conn s)))
      (dialling s) (tasks s) (reads s) [] (wire s) (accepted s)) match queue with [] => [] | _ => [PostWrite] end =
    mkNet (Tcp.with_queue queue (Tcp.size (concat queue)) (Tcp.with_writing false (conn s))) (dialling s)
      (tasks s ++ match queue with [] => [] | _ => [WriteTask] end) (reads s) [] (wire s) (accepted s)).
  { rewrite E64. destruct queue; cbn [foldl Wire.perform1 conn dialling tasks reads writes wire accepted]; [by rewrite app_nil_r|done]. }
  eexists. split; [exact (f_equal inr Hlast)|]. split; [|split; [reflexivity|split; [reflexivity|by exists queue]]].
  split; cbn [conn Tcp.with_queue send_queue_ send_queue_bytes_]; [done|lia|]. unfold shape.
  cbn [conn dialling Tcp.with_queue Tcp.with_writing open_ socket_]. rewrite Ed, Hk. destruct (open_ (conn s)).
  - destruct H3 as [_ [Ht Hsh]]. split; [done|]. split; [cbn [tasks]; apply Forall_app; split; [done|destruct queue; by repeat constructor]|]. left.
    cbn [conn tasks writes wire accepted Tcp.with_queue Tcp.with_writing writing_ send_queue_].
    destruct Hsh as [(_ & E & _)|(_ & d & q & p & E & Hq' & Hp)]; rewrite E in Hw; [done|]. injection Hw as -> ->. rewrite Hq in Hq'. injection Hq' as <-.
    split_and!; [done..|]. destruct queue; [by left|right]. apply elem_of_app. right. by left.
  - left. split; [done|]. destruct H3 as [[E _]|(d & q & p & E & Hq' & Hp)]; rewrite E in Hw; [done|]. by injection Hw as -> ->.
Qed.

(** The handler of a failed write on a connection that is not open any more. *)
Lemma write_failed_inv s data calls : tcp_inv s -> writes s = [mkOp data Failed] -> open_ (conn s) = false ->
  exists s', Wire.perform (Tcp.on_write true calls (conn s)) (mkNet (conn s) (dialling s) (tasks s) (reads s) [] (wire s) (accepted s)) = inr s' /\ tcp_inv s' /\ open_ (conn s') = false.
Proof.
  intros Hs Hw Ho. destruct (one_write s 0 (mkOp data Failed) Hs) as (_ & _ & Ed); [by rewrite Hw|].
  set (s1 := mkNet (Tcp.with_writing false (conn s)) (dialling s) (tasks s) (reads s) [] (wire s) (accepted s)).
  assert (Hs1 : tcp_inv s1).
  { destruct Hs as [H1 H2 H3]. split; [done..|]. unfold shape in *. unfold s1. cbn [conn dialling Tcp.with_writing open_ socket_]. rewrite Ed, Ho in *.
    destruct (socket_ (conn s)).
    - left. split; [done|]. destruct H3 as [[E _]|(d & q & p & E & _ & Hp)]; rewrite E in Hw; [done|]. by injection Hw as -> ->.
    - destruct H3 as [Hq Hsh]. split; [done|]. left. split; [done|]. destruct Hsh as [[E _]|(d & p & E & Hp)]; rewrite E in Hw; [done|]. by injection Hw as -> ->. }
  unfold Tcp.on_write, Tcp.close_and_tell, Tcp.close. cbn [Tcp.with_writing open_]. rewrite Ho. cbn [negb disconnect_callback_].
  change (mkNet (conn s) (dialling s) (tasks s) (reads s) [] (wire s) (accepted s)) with (mkNet (conn s) (dialling s1) (tasks s1) (reads s1) (writes s1) (wire s1) (accepted s1)).
  rewrite perform_then. cbn [Wire.perform foldl conn]. cbn [dialling tasks reads writes wire accepted].
  change (disconnect_callback_ (Tcp.with_writing false (conn s))) with (disconnect_callback_ (conn s)).
  destruct (disconnect_callback_ (conn s)); [|exists s1; split; [reflexivity|split; [done|exact Ho]]]. unfold Tcp.callback. rewrite perform_then. cbn [Wire.perform foldl Wire.perform1 conn].
  destruct (held_calls calls s1 Hs1 Ho) as (s' & E & ? & ?). exists s'. split; [exact E|done].
Qed.

(** While a connection is being made nothing has been queued, posted or written. *)
Lemma dial_ended s : tcp_inv s -> dialling s <> None -> tcp_inv (mkNet (conn s) None (tasks s) (reads s) (writes s) (wire s) (accepted s)).
Proof.
  intros [H1 H2 H3] Hd. split; [done..|]. unfold shape in *. cbn [conn dialling]. destruct (dialling s); [|done].
  destruct H3 as (-> & _ & _ & -> & _ & Hw & Hn & _). left. split; [done|]. cbn [wire]. rewrite Hn. apply prefix_nil.
Qed.
Lemma dial_opened s endpoint : tcp_inv s -> dialling s <> None ->
  tcp_inv (mkNet (Tcp.with_remote endpoint (Tcp.with_open true (conn s))) None (tasks s) (reads s) (writes s) (wire s) (accepted s)).
Proof.
  intros [H1 H2 H3] Hd. unfold shape in H3. destruct (dialling s); [|done]. destruct H3 as (_ & Ew & Eq & Es & Et & Ews & Ewi & Ea).
  assert (E : forall c, send_queue_ (Tcp.with_remote endpoint c) = send_queue_ c /\ send_queue_bytes_ (Tcp.with_remote endpoint c) = send_queue_bytes_ c /\
    writing_ (Tcp.with_remote endpoint c) = writing_ c /\ open_ (Tcp.with_remote endpoint c) = open_ c /\ socket_ (Tcp.with_remote endpoint c) = socket_ c)
    by (intros c; by destruct endpoint as [[]|]).
  destruct (E (Tcp.with_open true (conn s))) as (E1 & E2 & E3 & E4 & E5).
  split; cbn [conn]; rewrite ?E1, ?E2; [done..|]. unfold shape, open_shape. cbn [conn dialling tasks writes wire accepted].
  rewrite E1, E3, E4, E5. cbn [Tcp.with_open open_ socket_ writing_ send_queue_]. rewrite Et. split; [done|]. split; [constructor|]. left.
  rewrite Ew, Eq, Ewi, Ea. split_and!; [done..|by left].
Qed.

(** Every event keeps the invariant, but for two: the handler of a failed write on an open connection locks its own mutex again, and the
    handler of a write that went well after the connection was closed takes the front of an empty queue. *)
Definition faulty (e : tcp_event) (s : Net_) (f : fault) : Prop :=
  exists i calls data, e = EWritten i calls /\
    (writes s !! i = Some (mkOp data Failed) /\ open_ (conn s) = true /\ f = Deadlock \/
     writes s !! i = Some (mkOp data Taken) /\ socket_ (conn s) = false /\ f = EmptyQueue).

Lemma written_cases s i data p calls : tcp_inv s -> Forall call_ok calls -> writes s !! i = Some (mkOp data p) -> p <> InFlight ->
  match Wire.perform (Tcp.on_write match p with Failed => true | _ => false end calls (conn s))
    (mkNet (conn s) (dialling s) (tasks s) (reads s) (delete i (writes s)) (wire s) (accepted s)) with
  | inr s' => tcp_inv s' /\ (p = Failed -> open_ (conn s) = false) /\ (p = Taken -> socket_ (conn s) = true)
  | inl f => p = Failed /\ open_ (conn s) = true /\ f = Deadlock \/ p = Taken /\ socket_ (conn s) = false /\ f = EmptyQueue
  end.
Proof.
  intros Hs Hc Hi Hp. destruct (one_write s i _ Hs Hi) as (-> & Hw & Ed). rewrite Hw. cbn [delete list_delete]. destruct p; [done| |].
  - destruct (socket_ (conn s)) eqn:Ek.
    + destruct (written_inv s data calls Hs Hw Ek) as (s' & -> & ? & _). done.
    + assert (Hq : send_queue_ (conn s) = []).
      { destruct Hs as [_ _ H3]. unfold shape in H3. rewrite Ed, Ek in H3. destruct (open_ (conn s)); [by destruct H3|by destruct H3]. }
      unfold Tcp.on_write. cbn [Tcp.with_writing send_queue_]. rewrite Hq. cbn. by right.
  - destruct (open_ (conn s)) eqn:Eo.
    + unfold Tcp.on_write, Tcp.close_and_tell, Tcp.close. cbn [Tcp.with_writing open_]. rewrite Eo. cbn. by left.
    + destruct (write_failed_inv s data calls Hs Hw Eo) as (s' & -> & ? & _). done.
Qed.

Lemma good_run f s : good f -> tcp_inv s -> match Wire.perform (f (conn s)) s with inr s' => tcp_inv s' | inl _ => False end.
Proof. intros Hf Hs. by destruct (Hf s Hs) as (s' & -> & ? & _). Qed.

Lemma occurs_inv s e r : tcp_inv s -> event_ok e -> Wire.occurs e s = Some r ->
  match r with inr s' => tcp_inv s' | inl f => faulty e s f end.
Proof.
  intros Hs He. destruct e as [m|ec calls|ec endpoint calls|data calls|i calls|i|i k|i calls]; cbn [Wire.occurs event_ok] in *.
  - intros [= <-]. pose proof (good_run (Tcp.call false m) s (good_call m He) Hs) as Hg. by destruct (Wire.perform _ _).
  - destruct (dialling s) as [[]|] eqn:Ed; [|done..]. intros [= <-]. pose proof (dial_ended s Hs ltac:(congruence)) as Hs1.
    unfold Tcp.on_resolve. destruct ec.
    + pose proof (good_run (Tcp.callback false (OnConnect false) calls) _ (good_callback (OnConnect false) calls I He) Hs1) as Hg. cbn [conn] in Hg.
      by destruct (Wire.perform _ _).
    + cbn [Wire.perform foldl Wire.perform1 conn dialling tasks reads writes wire accepted]. destruct Hs as [H1 H2 H3]. split; [done..|].
      unfold shape in *. by rewrite Ed in H3.
  - destruct (dialling s) as [[]|] eqn:Ed; [done| |done]. intros [= <-]. unfold Tcp.on_connect. destruct ec.
    + pose proof (dial_ended s Hs ltac:(congruence)) as Hs1.
      pose proof (good_run (Tcp.callback false (OnConnect false) calls) _ (good_callback (OnConnect false) calls I He) Hs1) as Hg. cbn [conn] in Hg.
      by destruct (Wire.perform _ _).
    + cbv zeta. pose proof (dial_opened s endpoint Hs ltac:(congruence)) as Hs1.
      pose proof (good_run (Tcp.callback false (OnConnect true) calls) _ (good_callback (OnConnect true) calls I He) Hs1) as Hg. cbn [conn] in Hg.
      unfold Wire.perform in *. cbn [dialling tasks reads writes wire accepted] in *. destruct (Tcp.callback _ _ _ _) as [f|[c o]]; [by destruct Hg|done].
  - destruct (reads s) as [|n] eqn:Er; [done|]. intros [= <-].
    assert (Hs1 : tcp_inv (mkNet (conn s) (dialling s) (tasks s) n (writes s) (wire s) (accepted s))) by by apply inv_callbacks.
    pose proof (good_run (Tcp.on_read data calls) _ (good_read data calls He) Hs1) as Hg. cbn [conn] in Hg. by destruct (Wire.perform _ _).
  - destruct (tasks s !! i) as [t|] eqn:Ei; [|done]. intros [= <-]. destruct (task_inv s i t calls Hs He Ei) as (s' & -> & ? & _). done.
  - destruct (writes s !! i) as [[data []]|] eqn:Ei; try done. destruct (one_write s i _ Hs Ei) as (-> & Hw & _).
    destruct (socket_ (conn s)) eqn:Ek; [|done]. intros [= <-]. rewrite Hw. cbn [insert list_insert]. by apply taken_inv.
  - destruct (writes s !! i) as [[data []]|] eqn:Ei; try done. destruct (one_write s i _ Hs Ei) as (-> & Hw & _).
    intros [= <-]. rewrite Hw. cbn [insert list_insert]. by apply failed_inv.
  - destruct (writes s !! i) as [[data p]|] eqn:Ei; [|done]. assert (Hp : p = InFlight \/ p <> InFlight) by (destruct p; [by left|by right..]).
    destruct Hp as [->|Hp]; [done|]. pose proof (written_cases s i data p calls Hs He Ei Hp) as Hw. destruct p; [done| |]; intros [= <-];
      (destruct (Wire.perform _ _) as [f|s']; [exists i, calls, data; split; [done|]; rewrite Ei; naive_solver|by destruct Hw]).
Qed.

Lemma started_inv s : started s -> tcp_inv s.
Proof.
  intros [endpoint|address port s0 E].
  - assert (E : exists a p, Tcp.create_inbound endpoint = mkConn true false false [] 0 false true true a p)
      by (destruct endpoint as [[a p]|]; by eexists _, _).
    destruct E as (a & p & ->). split; [done|cbn; unfold Tcp.DEFAULT_SEND_QUEUE_SIZE; lia|]. split; [done|]. split; [constructor|]. left. split_and!; [done..|by left].
  - injection E as <-. split; [done|cbn; unfold Tcp.DEFAULT_SEND_QUEUE_SIZE; lia|]. done.
Qed.
Lemma reached_inv s0 s : started s0 -> rtc tcp_step s0 s -> tcp_inv s.
Proof.
  intros Hs%started_inv Hr. induction Hr as [|s s1 s2 (e & He & E) _ IH]; [done|]. apply IH. exact (occurs_inv s e _ Hs He E).
Qed.

Lemma inv_ordered s : tcp_inv s -> wire s `prefix_of` concat (accepted s) /\ (length (writes s) <= 1)%nat.
Proof.
  intros [_ _ Hsh]. unfold shape in Hsh. destruct (dialling s).
  - destruct Hsh as (_ & _ & _ & _ & _ & -> & -> & _). split; [apply prefix_nil|cbn; lia].
  - destruct (open_ (conn s)); [|destruct (socket_ (conn s))].
    + destruct Hsh as [_ Hsh]. by apply half_ordered, open_half.
    + by apply half_ordered.
    + destruct Hsh as [_ [[-> ?]|(d & p & -> & Hp)]]; (split; [|cbn; lia]); [done|]. destruct p; cbn in Hp; [|done..].
      etrans; [|exact Hp]. by apply prefix_app_r.
Qed.

Lemma faulty_occurs s e f : tcp_inv s -> event_ok e -> Wire.occurs e s = Some (inl f) <-> faulty e s f.
Proof.
  intros Hs He. split; [intros E; exact (occurs_inv s e _ Hs He E)|]. intros (i & calls & data & -> & Hf). cbn [event_ok Wire.occurs] in *.
  destruct Hf as [(Ei & Hx & ->)|(Ei & Hx & ->)]; rewrite Ei; f_equal.
  - pose proof (written_cases s i data Failed calls Hs He Ei ltac:(done)) as Hw. destruct (Wire.perform _ _) as [f|s'].
    + by destruct Hw as [(_ & _ & ->)|(? & _)].
    + destruct Hw as (_ & Hn & _). by rewrite Hn in Hx.
  - pose proof (written_cases s i data Taken calls Hs He Ei ltac:(done)) as Hw. destruct (Wire.perform _ _) as [f|s'].
    + by destruct Hw as [(? & _)|(_ & _ & ->)].
    + destruct Hw as (_ & _ & Hn). by rewrite Hn in Hx.
Qed.

(** ** Delivery *)

(** The steps of the connection and the network left to themselves: posted tasks run, the network takes the bytes of a write, and
    its handler runs. *)
Inductive own_event : tcp_event -> Prop :=
| OwnTask i : own_event (ETask i []) | OwnTaken i : own_event (ETaken i) | OwnWritten i : own_event (EWritten i []).
Definition drain (s s' : Net_) : Prop := exists e, own_event e /\ Wire.occurs e s = Some (inr s').

Definition unfailed (s : Net_) : Prop := Forall (fun op => op_progress op <> Failed) (writes s).
Definition to_do (s : Net_) : nat :=
  3 * length (send_queue_ (conn s)) + 2 * length (tasks s) +
  match writes s with [mkOp _ InFlight] => 1 | _ => 0 end.

Record draining (s : Net_) : Prop := { dr_inv : tcp_inv s; dr_open : open_ (conn s) = true; dr_unfailed : unfailed s }.

Lemma draining_shape s : draining s -> dialling s = None /\ socket_ (conn s) = true /\ open_shape s.
Proof.
  intros [[_ _ H3] Ho _]. unfold shape in H3. destruct (dialling s); [destruct H3 as [H3 _]; congruence|]. rewrite Ho in H3. by destruct H3.
Qed.

Lemma drain_task s i r : draining s -> Wire.occurs (ETask i []) s = Some r ->
  exists s', r = inr s' /\ draining s' /\ accepted s' = accepted s /\ (to_do s' < to_do s)%nat.
Proof.
  intros Hd. pose proof (draining_shape s Hd) as (Ed & Ek & Ht & Hsh). destruct Hd as [Hs Ho Hu]. cbn [Wire.occurs].
  destruct (tasks s !! i) as [t|] eqn:Ei; [|done]. assert (t = WriteTask) as -> by (symmetry; exact (proj1 (Forall_lookup _ _) Ht i t Ei)).
  intros [= <-]. destruct (task_inv s i WriteTask [] Hs ltac:(constructor) Ei) as (s' & E & Hs' & _). rewrite E. exists s'. split; [done|].
  assert (Hl : length (tasks s) = S (length (delete i (tasks s)))).
  { rewrite length_delete by (by eexists). pose proof (lookup_lt_Some _ _ _ Ei). lia. }
  unfold Tcp.do_write in E. rewrite Ho in E. cbn [negb] in E. unfold unfailed in Hu.
  destruct (send_queue_ (conn s)) as [|data queue] eqn:Eq; [|destruct (writing_ (conn s)) eqn:Ew]; cbn [Wire.perform foldl Wire.perform1] in E;
    injection E as <-; (split; [split; [done|done|]|split; [done|]]); unfold unfailed, to_do; cbn [conn tasks writes Tcp.with_writing send_queue_]; rewrite ?Eq.
  - done.
  - lia.
  - done.
  - lia.
  - apply Forall_app. split; [done|]. by repeat constructor.
  - destruct Hsh as [(_ & Hw & _)|([=] & _)]. rewrite Hw. cbn [app]. lia.
Qed.

Lemma drain_event s e r : draining s -> own_event e -> Wire.occurs e s = Some r ->
  exists s', r = inr s' /\ draining s' /\ accepted s' = accepted s /\ (to_do s' < to_do s)%nat.
Proof.
  intros Hd He. pose proof (draining_shape s Hd) as (Ed & Ek & _). pose proof Hd as [Hs Ho Hu]. destruct He as [i|i|i]; [by apply drain_task|..]; cbn [Wire.occurs].
  - destruct (writes s !! i) as [[data []]|] eqn:Ei; try done. destruct (one_write s i _ Hs Ei) as (-> & Hw & _). rewrite Ek. intros [= <-].
    eexists. split; [done|]. rewrite Hw. cbn [insert list_insert]. split; [split; [by apply taken_inv|done|]|split; [done|]].
    + by repeat constructor.
    + unfold to_do. rewrite Hw. cbn [conn tasks writes]. lia.
  - destruct (writes s !! i) as [[data p]|] eqn:Ei; [|done]. destruct (one_write s i _ Hs Ei) as (-> & Hw & _).
    unfold unfailed in Hu. rewrite Hw, Forall_singleton in Hu. cbn in Hu. destruct p; [intros [=]| |by destruct Hu]. intros <-%(inj Some). rewrite Hw. cbn [delete list_delete].
    destruct (written_inv s data [] Hs Hw Ek) as (s' & -> & Hs' & Eo & Ea & queue & Eq & Eq' & Ew' & Et'). exists s'. split; [done|].
    split; [split; [done|congruence|]|split; [done|]].
    + unfold unfailed. by rewrite Ew'.
    + unfold to_do. rewrite Eq, Eq', Ew', Et', Hw, length_app. destruct queue; cbn [length]; lia.
Qed.

Lemma drain_steps n s s' : nsteps drain n s s' -> draining s -> draining s' /\ accepted s' = accepted s /\ (n + to_do s' <= to_do s)%nat.
Proof.
  induction 1 as [s|n s s1 s2 (e & He & E) _ IH]; intros Hd; [split_and!; [done..|lia]|].
  destruct (drain_event s e _ Hd He E) as (s' & [= <-] & Hd1 & Ea & Hlt). destruct (IH Hd1) as (Hd2 & Ea2 & Hn). split_and!; [done|congruence|lia].
Qed.

(** Something is left to do, or everything has been written. *)
Lemma drain_end s : draining s -> (exists s', drain s s') \/ wire s = concat (accepted s).
Proof.
  intros Hd. pose proof (draining_shape s Hd) as (Ed & Ek & Ht & Hsh). pose proof Hd as [Hs Ho Hu].
  assert (Hrun : forall e r, own_event e -> Wire.occurs e s = Some r -> exists s', drain s s').
  { intros e r He E. destruct (drain_event s e r Hd He E) as (s' & -> & _). by exists s', e. }
  destruct Hsh as [(_ & Hw & E & Hq)|(_ & data & queue & p & Hw & Hq & Hp)].
  - destruct (tasks s) as [|t l] eqn:Et.
    + right. destruct Hq as [Hq|Hq]; [|by apply not_elem_of_nil in Hq]. rewrite E, Hq. cbn. by rewrite app_nil_r.
    + left. eapply (Hrun (ETask 0 [])); [apply OwnTask|]. cbn [Wire.occurs]. rewrite Et. reflexivity.
  - left. unfold unfailed in Hu. rewrite Hw, Forall_singleton in Hu. cbn in Hu. destruct p; [| |done].
    + eapply (Hrun (ETaken 0)); [apply OwnTaken|]. cbn [Wire.occurs]. rewrite Hw, Ek. reflexivity.
    + eapply (Hrun (EWritten 0 [])); [apply OwnWritten|]. cbn [Wire.occurs]. rewrite Hw. reflexivity.
Qed.

(** C17: what a TCP connection promises, in every state it reaches by calls of its functions, callbacks that call it, posted tasks in any order and whatever the
    network does, each call and handler being one step and each message shorter than 2^63 bytes.  The bytes on the wire are those accepted by [send], in order, without gaps or repetitions; the
    queue holds at most 5,000,000 bytes, which its counter counts; and at most one write is in progress.  Left to themselves, an
    open connection with no failed write and a network that takes the bytes come to rest within [to_do] steps with everything that [send] accepted on the
    wire.  And a handler goes wrong in exactly two cases, both defects: the handler of a failed write on an open connection calls [close]
    with the mutex held that [close] locks, and the handler of a write that went well takes the front of the queue that [close] has emptied meanwhile. *)
Theorem transport_delivers (s0 s : Net_) : started s0 -> rtc tcp_step s0 s ->
  wire s `prefix_of` concat (accepted s) /\
  send_queue_bytes_ (conn s) = Tcp.size (concat (send_queue_ (conn s))) /\ send_queue_bytes_ (conn s) <= Tcp.DEFAULT_SEND_QUEUE_SIZE /\
  (length (writes s) <= 1)%nat /\
  (open_ (conn s) = true -> Forall (fun op => op_progress op <> Failed) (writes s) -> forall n s', nsteps drain n s s' ->
     (n <= to_do s)%nat /\ accepted s' = accepted s /\ ((exists s'', drain s' s'') \/ wire s' = concat (accepted s))) /\
  (forall e f, event_ok e -> Wire.occurs e s = Some (inl f) <-> faulty e s f).
Proof.
  intros H0 Hr. pose proof (reached_inv s0 s H0 Hr) as Hs. destruct (inv_ordered s Hs) as [Hp Hw].
  split; [exact Hp|]. split; [apply Hs|]. split; [apply Hs|]. split; [exact Hw|]. split; [|intros e f; by apply faulty_occurs].
  intros Ho Hu n s' Hn. destruct (drain_steps n s s' Hn (Build_draining s Hs Ho Hu)) as (Hd' & Ea & Hle). split; [lia|]. split; [done|].
  destruct (drain_end s' Hd') as [?|E]; [by left|right]. by rewrite E, Ea.
Qed.

(** *** Listening *)

(** A [listen] that fails leaves the acceptor behind: until [stop_listening] every further one is refused. *)
Lemma failed_listen_sticks cb v6 v4 cb' v6' v4' t : acceptor_ t = false ->
  let '(ok, t1, _) := Listener.listen cb v6 v4 t in
  let '(ok2, t2, o2) := Listener.listen cb' v6' v4' t1 in
  ok = v6 || v4 /\ ok2 = false /\ t2 = t1 /\ o2 = [] /\ acceptor_ (Listener.stop_listening t1).1 = false.
Proof. intros Ha. unfold Listener.listen. rewrite Ha. by destruct v6, v4. Qed.

(** ** Witnesses *)

(** A run of events. *)
Fixpoint run_events (l : list tcp_event) (s : Net_) : option Net_ :=
  match l with
  | [] => Some s
  | e :: l => match Wire.occurs e s with Some (inr s') => run_events l s' | _ => None end
  end.
Lemma events_steps l s s' : Forall event_ok l -> run_events l s = Some s' -> rtc tcp_step s s'.
Proof.
  revert s. induction l as [|e l IH]; intros s Hl; cbn [run_events]; [by intros [= <-]|]. apply Forall_cons in Hl as [He Hl].
  destruct (Wire.occurs e s) as [[f|s1]|] eqn:E; [done| |done]. intros Hr. eapply rtc_l; [by exists e|by apply IH].
Qed.
Lemma run_drain l s s' : Forall own_event l -> run_events l s = Some s' -> nsteps drain (length l) s s'.
Proof.
  revert s. induction l as [|e l IH]; intros s Hl; cbn [run_events]; [intros [= <-]; constructor|]. apply Forall_cons in Hl as [He Hl].
  destruct (Wire.occurs e s) as [[f|s1]|] eqn:E; [done| |done]. intros Hr. econstructor; [by exists e|by apply IH].
Qed.

(** An accepted connection is used for two messages; then the connection works through its queue. *)
Definition incoming : Net_ := Wire.fresh (Tcp.create_inbound None) None.
Definition two_sends : list tcp_event := [ECall (CSend [1; 2]); ECall (CSend [3])].
Definition working : list tcp_event := [ETask 0 []; ETaken 0; ETask 0 []; EWritten 0 []; ETask 0 []; ETaken 0; EWritten 0 []].

Lemma two_sends_ok : Forall event_ok two_sends.
Proof. apply Forall_cons. split; [reflexivity|]. apply Forall_cons. split; [reflexivity|constructor]. Qed.
Lemma working_own : Forall own_event working.
Proof. unfold working. repeat (apply Forall_cons; split; [constructor|]). constructor. Qed.

Definition sent : Net_ := Eval vm_compute in default incoming (run_events two_sends incoming).
Definition drained : Net_ := Eval vm_compute in default incoming (run_events working sent).

Lemma transport_delivers_witness : wire drained = [1; 2; 3] /\ (length working <= to_do sent)%nat /\
  ((exists s'', drain drained s'') \/ wire drained = concat (accepted sent)).
Proof.
  split; [reflexivity|].
  destruct (transport_delivers incoming sent (started_inbound None)) as (_ & _ & _ & _ & Hd & _).
  - apply (events_steps two_sends incoming sent two_sends_ok). vm_compute. reflexivity.
  - assert (Hr : run_events working sent = Some drained) by (vm_compute; reflexivity).
    specialize (Hd eq_refl ltac:(constructor) _ _ (run_drain working sent drained working_own Hr)) as (Hn & _ & He). split; [exact Hn|exact He].
Defined.

(** The two defects happen: a write fails, and a connection is closed between a write and its handler. *)
Lemma write_error_deadlocks : exists s, run_events (two_sends ++ [ETask 0 []; EFailed 0 1]) incoming = Some s /\ Wire.occurs (EWritten 0 []) s = Some (inl Deadlock).
Proof. eexists. split; [vm_compute; reflexivity|reflexivity]. Qed.
Lemma close_empties_queue : exists s, run_events (two_sends ++ [ETask 0 []; ETaken 0; ECall CClose]) incoming = Some s /\ Wire.occurs (EWritten 0 []) s = Some (inl EmptyQueue).
Proof. eexists. split; [vm_compute; reflexivity|reflexivity]. Qed.
